(* ===== verification/_CoqProject ===== *)
-Q . S2P
Prelude.v
Bytes.v
CString.v
Ring.v
Kernel.v
Sched.v
Spinlock.v
Ide.v
Bio.v
Log.v
Crash.v
Block.v
Inode.v
Grow.v
Icache.v
Dir.v
Path.v
Kalloc.v
Pipe.v
File.v
FileIO.v
Print.v
Vm.v
Kvm.v
Proc.v
UserInit.v
Kbd.v
Console.v
IdeDriver.v
Syscall.v
SysProc.v
Exec.v
SysFile.v
Trap.v
X86.v
Asm.v
BootAsm.v
Usys.v
Mp.v
IntCtl.v
Main.v
MainBoot.v
Boot.v
Mkfs.v
MkfsImage.v
FsBoot.v
System.v
User.v
Umalloc.v
Progs.v
Ls.v
Grep.v
ShParse.v
Sh.v
Tests.v
