(* ===== verification/Prelude.v ===== *)
(** * xv6 (big-file variant): a verification library

    The repository is the xv6 teaching kernel for x86 with a larger maximum
    file size (a doubly indirect block), a command history in the console and
    the shell, process statistics, and a few user programs.  This library
    models its C sources as Rocq functions and proves what makes each part
    correct.

    ** The parts and where they are

    Foundations:
    - Prelude.v (this file): outcomes of code, the state monad, weakest
      preconditions, machine integers, flag words, lists.
    - Bytes.v: little-endian words inside byte arrays.
    - CString.v: string.c.
    - Ring.v: circular buffers as queues, for pipes and the console.
    - Kernel.v: the structures of the headers and the state of the machine.

    The kernel:
    - Sched.v: locks as kernel code uses them; sched, sleep, wakeup, yield and
      kill of proc.c.
    - Spinlock.v: spinlock.c on several processors, and its relation to the
      locks of Sched.v.
    - Ide.v: the interface of a disk driver ([Ide], [IdeSpec]) and its
      instance memide.c.  IdeDriver.v: ide.c, the interrupt-driven driver, whose
      [iderw] sleeps and so is not an instance, and the commands a drive has
      been given ([command]).
    - Bio.v: bio.c, the buffer cache.
    - Log.v, Crash.v: log.c, and crashes during commit and recovery.
    - Block.v, Inode.v, Icache.v, Dir.v: fs.c, from block allocation to path
      names.  Grow.v: writes that make a file grow, and the blocks they take
      from the bitmap.  Path.v: path resolution against the directory tree on
      disk.
    - Kalloc.v: kalloc.c.  Vm.v: vm.c, page tables.  Kvm.v: its kernel side,
      the kernel's page table, the segments and the task segment.
    - Pipe.v, File.v: pipe.c and file.c.  FileIO.v: reads and writes through
      descriptors, which may make the file grow, across a crash.
    - Print.v, Kbd.v, Console.v: console.c, kbd.c and uart.c; output, scan
      codes, line editing and the history of the console.
    - Proc.v: the rest of proc.c.  UserInit.v: the first process.
    - Syscall.v, SysProc.v, SysFile.v, Exec.v: the arguments of system calls,
      the handlers of sysproc.c and sysfile.c, and exec.c.
    - Trap.v: trap.c and the dispatcher of syscall.c.
    - Mp.v: mp.c, the multiprocessor tables.  IntCtl.v: picirq.c, ioapic.c,
      lapic.c and timer.c.
    - Main.v, MainBoot.v: main.c on all processors, with either of the two
      disk drivers ([driver]): ide.c, or memide.c with the disk image linked
      into the kernel.

    Assembly:
    - X86.v: the instructions that the assembly files use, on a machine with
      registers, segments, a stack in memory, gates and ports ([x86], [step]).
    - Asm.v: swtch.S, trapasm.S, the vectors that vectors.pl prints, usys.S and
      initcode.S, as lists of labels and instructions.
    - BootAsm.v: bootasm.S, entry.S, entryother.S and asm.h; the descriptor
      table of bootasm.S as the bytes in memory that lgdt makes current.
    - Usys.v: a system call through the machine code of Asm.v and the C code of
      Trap.v.

    Before the kernel runs:
    - Boot.v: bootmain.c.
    - Mkfs.v, MkfsImage.v: mkfs.c, the program that makes the image of the
      file system, and the image as the functions of Inode.v and Dir.v read it.
    - FsBoot.v, System.v: the kernel started on that image.

    User programs:
    - User.v: system calls as a trace, ulib.c and printf.c.
    - Umalloc.v: umalloc.c.
    - Progs.v: wc.c, cat.c, echo.c, mkdir.c, rm.c, ln.c, kill.c, zombie.c,
      pwd.c and init.c.  Ls.v: ls.c.  Grep.v: grep.c.
    - ShParse.v, Sh.v: sh.c, its parser, and running commands and its history.
    - Tests.v: big.c, forktest.c, stressfs.c, sanity.c and SMLsanity.c.

    The kernel's files use those listed before them in [_CoqProject]; the
    system call handlers (SysFile.v, Trap.v) are the top of that order.  The
    user programs see the kernel only through the answers to their calls.

    ** How code is modelled

    A C function of the kernel is a function of the kernel state that returns
    a value and a new state, panics, gives up the processor, or faults
    ([outcome]).  Pointers into the kernel's static tables are indices;
    pointers to pages are addresses.  C integers are [Z] with the truncation
    to their width written out.  [sleep] ends a run in the outcome [Sleep] with
    the state the scheduler takes over; what a process does when it is resumed
    is the loop it slept in, run again.

    Assembly is data: a file is a list of instructions, which the machine of
    X86.v fetches by address and executes.  Its memory is the words the code
    sees, the stack included; of the flags it has the zero flag and the
    interrupt flag; the privilege is that of the code selector.  The machine
    keeps the limit and base that lgdt read from memory, and the descriptors the
    selectors select there are shown to be flat; addresses are not translated or
    checked against segments.

    The parts that do not share the kernel's state have one of their own: the
    trace of the system calls made for a user program ([Sleep] is [exit]), the
    memory and the ports for the boot loader, the image file for mkfs, the heap
    for malloc, the position in the line for the shell's parser.

    A loop is a [Fixpoint] over the array it walks, over the count it
    decrements, or over fuel.  The fuel a caller passes is the number of turns
    the loop can make at most: the sectors of a segment and three more in
    [readseg], the bytes left and one more in [iappend], [readi] and [writei],
    the length of the text in the parser.  Loops that end only with their
    input (reads in the user programs, the free ring of malloc, the tables of
    mpinit) take the fuel as an argument, and the theorems say how much is
    enough.  Running out of fuel is a fault, which the theorems exclude because
    a [wp] statement is one of total correctness.

    ** What is a parameter

    The disk driver ([Ide]), the functions of the device switch ([Devsw]), the
    addresses the linker fixes ([Linker]), the drive behind the ports
    ([Drive]), the registers of the interrupt controllers ([IntHw]), the
    running processor ([Cpu]), what the firmware leaves behind ([BootEnv]), the
    addresses of the instructions and of the symbols of C ([Image]) and the
    operating system under a user program ([Os]) are type classes.  Each has a
    concrete instance in the library, and theorems about clients are proved
    against the class.

    ** What the theorems show

    - Atomicity of transactions under crashes at every sector write, during
      commit and during any number of recoveries, the writes being those of
      commit_trans and of initlog (Crash.v).
    - Functional correctness and invariants of the layers above: block
      allocation, file contents, the inode cache, directories, paths.  A write
      may allocate direct and singly indirect blocks; the theorems on file
      contents are for files of up to 139 blocks, since the doubly indirect
      level overwrites the next cached inode (Icache.v).
    - The image that mkfs makes is a file system in the sense of those layers:
      directory, contents, bitmap, no block in two places (MkfsImage.v).
    - The whole system: main runs up to the schedulers without a panic, and on
      the image of mkfs the first process finds each file by its name and reads
      its bytes (System.v).
    - The assembly code: a context switch and the switch back, a trap and the
      return from it, the way of a new process to user mode, and the boot
      sector's way to bootmain (Asm.v, BootAsm.v); a system call from its stub
      to the handler and back (Usys.v).
    - The page allocator refines a set of free pages; pipes and the console's
      input refine queues; spin locks refine a list of held locks and exclude
      each other.
    - Page tables: growing, shrinking, copying out; the kernel's mappings and
      the stack that a trap uses.
    - Processes: scheduling is round robin, identifiers are unique, exit wakes
      the parent, sleepers return, exceptions kill.
    - System call arguments stay inside the process; dup handles every word it
      can be given; exec lays out the stack;
      the boot loader loads the segments; interrupts are routed as enabled.
    - The disk driver completes the requests in its queue in order.
    - malloc and free keep the free ring well formed and the blocks apart.
    - The shell's parser accepts its grammar and ends on every text; pipelines
      are wired; grep's matcher decides the language of the pattern, and its loop
      prints the matching lines as long as no read is shorter than what is left
      in the buffer; wc and ls
      print what they should; big and forktest pass on a system that stores
      the file and finds the children.
    - Where the code does not do what it means to, a theorem that exhibits the
      behaviour.

    ** What is not modelled

    The part of a system call after a sleep, except for the loop it slept in.
    The file system on top of ide.c: the theorems on the layers above the buffer
    cache are for a driver whose [iderw] returns, as that of memide.c does.
    Another processor's start in [startap] is one step of the boot processor, up
    to [started].  In main the firmware's tables and the linker's addresses are
    parameters.  The multiboot header and the strings of initcode.S, which are
    data for others.  Failures of the host's file operations in mkfs, and the
    messages it prints.  The test programs usertests.c, which is system calls
    only, and big1.c, a version of big.c with buffers from malloc; declarations
    (defs.h, types.h, date.h). *)

From stdpp Require Export base functions list gmap strings sorting.
From Stdlib Require Export ZArith Lia.

#[export] Set Default Proof Using "Type".
#[global] Open Scope Z_scope.

(** ** Outcomes of kernel code

    A C function of the kernel is a function of the state it runs in.  It
    returns ([Ok]), stops the machine with a message ([Panic]), gives up the
    processor inside [sleep] ([Sleep]: the state is the one the scheduler
    takes over), or performs an access outside every object of the model
    ([Fault]: what C leaves undefined). *)

Inductive outcome (S A : Type) : Type :=
| Ok (a : A) (s : S)
| Panic (msg : string)
| Sleep (s : S)
| Fault.
Arguments Ok {S A} a s.
Arguments Panic {S A} msg.
Arguments Sleep {S A} s.
Arguments Fault {S A}.

Definition M (S A : Type) : Type := S → outcome S A.

#[export] Instance M_ret S : MRet (M S) := λ A a s, Ok a s.
#[export] Instance M_bind S : MBind (M S) := λ A B f m s,
  match m s with
  | Ok a s' => f a s'
  | Panic msg => Panic msg
  | Sleep s' => Sleep s'
  | Fault => Fault
  end.

Section Primitives.
Context {S : Type}.

Definition panic {A} (msg : string) : M S A := λ _, Panic msg.
Definition fault {A} : M S A := λ _, Fault.
Definition gets {A} (f : S → A) : M S A := λ s, Ok (f s) s.
Definition modify (f : S → S) : M S () := λ s, Ok () (f s).
Definition when (b : bool) (m : M S ()) : M S () := if b then m else mret ().

(** The value of an optional access; an access that has none faults. *)
Definition the {A} (o : option A) : M S A :=
  match o with Some a => mret a | None => fault end.

End Primitives.

(** ** Weakest preconditions

    [wp m Q s]: run in [s], [m] returns, and its result and final state
    satisfy [Q].  A run that panics, sleeps or faults has no weakest
    precondition but [False], so that a [wp] theorem is a statement of total
    correctness. *)

Definition wp {S A} (m : M S A) (Q : A → S → Prop) (s : S) : Prop :=
  match m s with Ok a s' => Q a s' | _ => False end.

(** [runs_to m s a s']: the run of [m] from [s] returns [a] in [s']. *)
Definition runs_to {S A} (m : M S A) (s : S) (a : A) (s' : S) : Prop :=
  m s = Ok a s'.

Section Rules.
Context {S : Type}.
Implicit Types s : S.

Lemma wp_ret {A} (a : A) (Q : A → S → Prop) s : Q a s → wp (mret a) Q s.
Proof. exact id. Qed.

Lemma wp_bind {A B} (m : M S A) (f : A → M S B) Q s :
  wp m (λ a s', wp (f a) Q s') s → wp (m ≫= f) Q s.
Proof. unfold wp, mbind, M_bind. by destruct (m s). Qed.

Lemma wp_bind_inv {A B} (m : M S A) (f : A → M S B) Q s :
  wp (m ≫= f) Q s → wp m (λ a s', wp (f a) Q s') s.
Proof. unfold wp, mbind, M_bind. by destruct (m s). Qed.

Lemma wp_mono {A} (m : M S A) (P Q : A → S → Prop) s :
  wp m P s → (∀ a s', P a s' → Q a s') → wp m Q s.
Proof. unfold wp. destruct (m s); naive_solver. Qed.

Lemma wp_gets {A} (f : S → A) (Q : A → S → Prop) s : Q (f s) s → wp (gets f) Q s.
Proof. exact id. Qed.

Lemma wp_modify (f : S → S) (Q : () → S → Prop) s : Q () (f s) → wp (modify f) Q s.
Proof. exact id. Qed.

Lemma wp_the {A} (o : option A) a (Q : A → S → Prop) s :
  o = Some a → Q a s → wp (the o) Q s.
Proof. by intros ->. Qed.

Lemma wp_when (b : bool) m (Q : () → S → Prop) s :
  (b = true → wp m Q s) → (b = false → Q () s) → wp (when b m) Q s.
Proof. destruct b; naive_solver. Qed.

Lemma wp_runs {A} (m : M S A) Q s :
  wp m Q s ↔ ∃ a s', runs_to m s a s' ∧ Q a s'.
Proof.
  unfold wp, runs_to. destruct (m s); split; try done; try (by intros (?&?&?&?)).
  - eauto.
  - by intros (?&?&[= -> ->]&?).
Qed.

Lemma wp_of_runs {A} (m : M S A) (Q : A → S → Prop) s a s' :
  runs_to m s a s' → Q a s' → wp m Q s.
Proof. unfold wp. by intros ->. Qed.

(** A specification of a block of two or three statements, used where more
    code follows. *)
Lemma wp_seq2 {A B} (a : M S A) (b : M S B) {C} (k : M S C) Q s :
  wp (a;; b) (λ _ s', wp k Q s') s → wp (a;; b;; k) Q s.
Proof.
  unfold wp, mbind, M_bind. destruct (a s); try done. by destruct (b _).
Qed.

Lemma wp_seq3 {A B C} (a : M S A) (b : M S B) (c : M S C) {D} (k : M S D) Q s :
  wp (a;; b;; c) (λ _ s', wp k Q s') s → wp (a;; b;; c;; k) Q s.
Proof.
  unfold wp, mbind, M_bind. destruct (a s); try done. destruct (b _); try done. by destruct (c _).
Qed.

Lemma runs_ret {A} (a : A) s : runs_to (mret a) s a s.
Proof. done. Qed.

Lemma runs_ret_eq {A} (a : A) s s' : s = s' → runs_to (mret a) s a s'.
Proof. by intros ->. Qed.

Lemma runs_bind {A B} (m : M S A) (f : A → M S B) s a s1 b s2 :
  runs_to m s a s1 → runs_to (f a) s1 b s2 → runs_to (m ≫= f) s b s2.
Proof. unfold runs_to, mbind, M_bind. by intros ->. Qed.

Lemma bind_runs {A B} (m : M S A) (f : A → M S B) s a s1 :
  runs_to m s a s1 → (m ≫= f) s = f a s1.
Proof. unfold runs_to, mbind, M_bind. by intros ->. Qed.

Lemma runs_bind_inv {A B} (m : M S A) (f : A → M S B) s b s2 :
  runs_to (m ≫= f) s b s2 → ∃ a s1, runs_to m s a s1 ∧ runs_to (f a) s1 b s2.
Proof. unfold runs_to, mbind, M_bind. destruct (m s); naive_solver. Qed.

Lemma runs_det {A} (m : M S A) s a1 s1 a2 s2 :
  runs_to m s a1 s1 → runs_to m s a2 s2 → a1 = a2 ∧ s1 = s2.
Proof. unfold runs_to. intros -> [=]. auto. Qed.

End Rules.

(** One step of symbolic execution: peel a sequencing and the primitive at
    its head. *)
Ltac wp_step :=
  lazymatch goal with
  | |- wp (mbind _ _) _ _ => apply wp_bind
  | |- wp (mret _) _ _ => apply wp_ret
  | |- wp (gets _) _ _ => apply wp_gets; cbn beta
  | |- wp (modify _) _ _ => apply wp_modify; cbn beta
  end.
Ltac wp_steps := repeat wp_step.

(** Use a specification [H] of the call at the head of the goal. *)
Tactic Notation "wp_call" uconstr(H) :=
  lazymatch goal with |- wp (mbind _ _) _ _ => apply wp_bind | _ => idtac end;
  eapply wp_mono; [eapply H|].

(** ** Machine integers *)

Definition u8 (x : Z) : Z := x mod 2 ^ 8.
Definition u16 (x : Z) : Z := x mod 2 ^ 16.
Definition u32 (x : Z) : Z := x mod 2 ^ 32.

(** Two's complement: the value of the [w]-bit pattern [x] as a signed integer. *)
Definition signed (w x : Z) : Z :=
  let y := x mod 2 ^ w in if y <? 2 ^ (w - 1) then y else y - 2 ^ w.
Definition s16 : Z → Z := signed 16.
Definition s32 : Z → Z := signed 32.

Lemma u32_small x : 0 ≤ x < 2 ^ 32 → u32 x = x.
Proof. apply Z.mod_small. Qed.
Lemma u32_range x : 0 ≤ u32 x < 2 ^ 32.
Proof. by apply Z.mod_pos_bound. Qed.
Lemma u32_u32 x : u32 (u32 x) = u32 x.
Proof. apply u32_small, u32_range. Qed.

Lemma s32_small x : - 2 ^ 31 ≤ x < 2 ^ 31 → s32 x = x.
Proof.
  intros H. unfold s32, signed. destruct (decide (0 ≤ x)) as [Hx|Hx].
  - rewrite Z.mod_small by lia. case_match eqn:E; lia.
  - replace (x mod 2 ^ 32) with (x + 2 ^ 32).
    + case_match eqn:E; lia.
    + symmetry. rewrite <-(Z_mod_plus_full _ 1). apply Z.mod_small; lia.
Qed.

Lemma s16_small x : - 2 ^ 15 ≤ x < 2 ^ 15 → s16 x = x.
Proof.
  intros H. unfold s16, signed. destruct (decide (0 ≤ x)) as [Hx|Hx].
  - rewrite Z.mod_small by lia. case_match eqn:E; lia.
  - replace (x mod 2 ^ 16) with (x + 2 ^ 16).
    + case_match eqn:E; lia.
    + symmetry. rewrite <-(Z_mod_plus_full _ 1). apply Z.mod_small; lia.
Qed.

(** ** Flag words

    [hasb f m] is C's [f & m] used as a condition. *)

Definition hasb (f m : Z) : bool := negb (Z.land f m =? 0).

Lemma land_pow2 f k : 0 ≤ k → Z.land f (2 ^ k) = if Z.testbit f k then 2 ^ k else 0.
Proof.
  intros Hk. apply Z.bits_inj'. intros n Hn. rewrite Z.land_spec, Z.pow2_bits_eqb by done.
  destruct (Z.eqb_spec k n) as [->|].
  - destruct (Z.testbit f n) eqn:E; [by rewrite Z.pow2_bits_true|by rewrite Z.bits_0].
  - destruct (Z.testbit f k); rewrite andb_false_r;
      [by rewrite Z.pow2_bits_false by lia|by rewrite Z.bits_0].
Qed.

Lemma hasb_pow2 f k : 0 ≤ k → hasb f (2 ^ k) = Z.testbit f k.
Proof.
  intros Hk. unfold hasb. rewrite land_pow2 by done.
  pose proof (Z.pow_pos_nonneg 2 k). destruct (Z.testbit f k); [|done].
  apply negb_true_iff, Z.eqb_neq. lia.
Qed.

Lemma hasb_set f k j :
  0 ≤ k → 0 ≤ j → hasb (Z.lor f (2 ^ k)) (2 ^ j) = bool_decide (k = j) || hasb f (2 ^ j).
Proof.
  intros Hk Hj. rewrite !hasb_pow2, Z.lor_spec, Z.pow2_bits_eqb, orb_comm by done.
  f_equal. by destruct (Z.eqb_spec k j), (bool_decide_reflect (k = j)).
Qed.

Lemma hasb_clear f k j :
  0 ≤ k → 0 ≤ j →
  hasb (Z.land f (Z.lnot (2 ^ k))) (2 ^ j) = bool_decide (k ≠ j) && hasb f (2 ^ j).
Proof.
  intros Hk Hj. rewrite !hasb_pow2, Z.land_spec, Z.lnot_spec, Z.pow2_bits_eqb, andb_comm by done.
  f_equal. by destruct (Z.eqb_spec k j), (bool_decide_reflect (k ≠ j)).
Qed.

Lemma hasb_zero m : hasb 0 m = false.
Proof. unfold hasb. by rewrite Z.land_0_l. Qed.

(** ** Lists *)

Create Rewrite HintDb len.
#[export] Hint Rewrite @length_app @length_drop @length_take @length_fmap
  @length_replicate @length_insert @length_alter @length_reverse @length_seq : len.
Ltac len := autorewrite with len; simpl length; try lia.

Section Lists.
Context {A : Type}.
Implicit Types (l k : list A) (x : A).

(** [splice l i k]: [l] with [k] written over the positions from [i] on, what
    a copy of [k] to the [i]-th element of the array [l] leaves there. *)
Definition splice (i : nat) (k l : list A) : list A := list_inserts i k l.

(** [slice l i n]: the [n] elements of [l] from position [i] on. *)
Definition slice (i n : nat) (l : list A) : list A := take n (drop i l).

Lemma length_splice i k l : length (splice i k l) = length l.
Proof. apply length_inserts. Qed.

Lemma length_slice i n l : (i + n ≤ length l)%nat → length (slice i n l) = n.
Proof. intros. unfold slice. len. Qed.

Lemma lookup_slice i n l j :
  slice i n l !! j = if decide (j < n)%nat then l !! (i + j)%nat else None.
Proof.
  unfold slice. case_decide.
  - by rewrite lookup_take_lt, lookup_drop by done.
  - apply lookup_ge_None_2. len.
Qed.

Lemma lookup_splice i k l j :
  (i + length k ≤ length l)%nat →
  splice i k l !! j =
    if decide (i ≤ j < i + length k)%nat then k !! (j - i)%nat else l !! j.
Proof.
  intros H. unfold splice. case_decide.
  - rewrite list_lookup_inserts; [done|lia|lia].
  - destruct (decide (j < i)%nat);
      [apply list_lookup_inserts_lt|apply list_lookup_inserts_ge]; lia.
Qed.

Lemma slice_splice_eq i k l :
  (i + length k ≤ length l)%nat → slice i (length k) (splice i k l) = k.
Proof.
  intros H. apply list_eq. intros j. rewrite lookup_slice. case_decide.
  - rewrite lookup_splice by done. case_decide; [|lia]. f_equal. lia.
  - symmetry. apply lookup_ge_None_2. lia.
Qed.

Lemma slice_splice_ne i k l j n :
  (i + length k ≤ length l)%nat →
  (j + n ≤ i ∨ i + length k ≤ j)%nat →
  slice j n (splice i k l) = slice j n l.
Proof.
  intros H Hd. apply list_eq. intros m. rewrite !lookup_slice. case_decide; [|done].
  rewrite lookup_splice by done. case_decide; [lia|done].
Qed.

Lemma splice_slice i n l :
  (i + n ≤ length l)%nat → splice i (slice i n l) l = l.
Proof.
  intros H. apply list_eq. intros j.
  rewrite lookup_splice by (rewrite length_slice; lia). rewrite length_slice by done.
  case_decide; [|done]. rewrite lookup_slice. case_decide; [|lia]. f_equal. lia.
Qed.

Lemma splice_all k l : length k = length l → splice 0 k l = k.
Proof.
  intros H. apply list_eq. intros j. rewrite lookup_splice by lia.
  case_decide; [f_equal; lia|]. rewrite !lookup_ge_None_2; [done|lia|lia].
Qed.

Lemma splice_front k l : (length k ≤ length l)%nat → splice 0 k l = k ++ drop (length k) l.
Proof.
  intros H. apply list_eq. intros j. rewrite lookup_splice by lia. case_decide.
  - rewrite lookup_app_l by lia. f_equal. lia.
  - rewrite lookup_app_r by lia. rewrite lookup_drop. f_equal. lia.
Qed.

Lemma Forall_splice (P : A → Prop) i k l : Forall P k → Forall P l → Forall P (splice i k l).
Proof. intros. by apply Forall_inserts. Qed.

Lemma Forall_slice (P : A → Prop) i n l : Forall P l → Forall P (slice i n l).
Proof. intros. by apply Forall_take, Forall_drop. Qed.

Lemma alter_lookup_eq (f : A → A) i l x : l !! i = Some x → alter f i l !! i = Some (f x).
Proof. intros H. by rewrite list_lookup_alter_eq, H. Qed.

Lemma alter_insert (f : A → A) i l x : l !! i = Some x → alter f i l = <[i:=f x]> l.
Proof.
  intros H. apply list_eq. intros j. destruct (decide (i = j)) as [->|].
  - rewrite (alter_lookup_eq _ _ _ _ H), list_lookup_insert_eq; [done|].
    by eapply lookup_lt_Some.
  - by rewrite list_lookup_alter_ne, list_lookup_insert_ne.
Qed.

Lemma filter_ne_id `{EqDecision A} x l : x ∉ l → filter (λ y, y ≠ x) l = l.
Proof.
  induction l as [|y l IH]; [done|]. rewrite not_elem_of_cons. intros [Hy Hl].
  rewrite filter_cons_True by done. by rewrite IH.
Qed.

(** The first index from [i] on whose element satisfies a test: the result of
    a C loop that scans an array and leaves at the first hit. *)
Fixpoint find_from (p : A → bool) (i : nat) l : option nat :=
  match l with
  | [] => None
  | x :: l' => if p x then Some i else find_from p (S i) l'
  end.

Lemma find_from_Some p i l j :
  find_from p i l = Some j ↔
  ∃ n x, j = (i + n)%nat ∧ l !! n = Some x ∧ p x = true ∧
    ∀ m y, (m < n)%nat → l !! m = Some y → p y = false.
Proof.
  revert i. induction l as [|x l IH]; intros i; simpl.
  - split; [done|]. by intros (n & ? & _ & ? & _).
  - destruct (p x) eqn:E.
    + split.
      * intros [= <-]. exists 0%nat, x. repeat split; [lia|done|]. intros; lia.
      * intros (n & y & -> & Hn & Hp & Hm). destruct n as [|n]; [f_equal; lia|].
        specialize (Hm 0%nat x ltac:(lia) eq_refl). congruence.
    + rewrite IH. split.
      * intros (n & y & -> & Hn & Hp & Hm). exists (S n), y. repeat split; [lia|done..|].
        intros [|m] z Hlt Hz; simplify_eq/=; [done|]. apply (Hm m); [lia|done].
      * intros (n & y & -> & Hn & Hp & Hm). destruct n as [|n]; [simpl in Hn; congruence|].
        exists n, y. repeat split; [lia|done..|]. intros m z Hlt Hz.
        apply (Hm (S m)); [lia|done].
Qed.

Lemma find_from_ext p q i l : (∀ x, p x = q x) → find_from p i l = find_from q i l.
Proof. intros E. revert i. induction l as [|x l IH]; intros i; simpl; [done|]. by rewrite E, IH. Qed.

Lemma find_from_None p i l : find_from p i l = None ↔ ∀ n x, l !! n = Some x → p x = false.
Proof.
  revert i. induction l as [|x l IH]; intros i; simpl; [naive_solver|].
  destruct (p x) eqn:E.
  - split; [done|]. intros H. specialize (H 0%nat x eq_refl). congruence.
  - rewrite IH. split.
    + intros H [|n] y Hy; simplify_eq/=; eauto.
    + intros H n y Hy. by apply (H (S n)).
Qed.

End Lists.

#[global] Arguments splice : simpl never.
#[global] Arguments slice : simpl never.
#[export] Hint Rewrite @length_splice : len.

(** Decide a boolean comparison that a test of the code makes. *)
Ltac zcase :=
  match goal with
  | |- context [?a =? ?b] => destruct (Z.eqb_spec a b)
  | |- context [?a <? ?b] => destruct (Z.ltb_spec a b)
  | |- context [?a <=? ?b] => destruct (Z.leb_spec a b)
  end.
