(* ===== verification/Bytes.v ===== *)
(** * Bytes: machine words inside byte arrays

    The kernel reads and writes structures in place, inside the bytes of a
    disk block, by casting [bp->data] to a pointer to the structure.  This
    file gives the little-endian view of such an array: a word of [n] bytes
    at an offset, its update, and the lemmas that say which words an update
    changes. *)

From S2P Require Import Prelude.

(** A byte array; every element is meant to be in [0 .. 255]. *)
Definition is_byte (b : Z) : Prop := 0 ≤ b < 256.
Definition bytes_ok (bs : list Z) : Prop := Forall is_byte bs.

#[export] Instance is_byte_dec b : Decision (is_byte b).
Proof. unfold is_byte. apply _. Defined.
#[export] Instance bytes_ok_dec bs : Decision (bytes_ok bs).
Proof. unfold bytes_ok. apply _. Defined.

(** ** Little-endian words *)

Fixpoint le_val (bs : list Z) : Z :=
  match bs with [] => 0 | b :: bs' => b + 256 * le_val bs' end.

Fixpoint le_bytes (n : nat) (v : Z) : list Z :=
  match n with O => [] | S n' => v mod 256 :: le_bytes n' (v / 256) end.

Definition get_le (n : nat) (off : nat) (bs : list Z) : Z := le_val (slice off n bs).
Definition put_le (n : nat) (off : nat) (v : Z) (bs : list Z) : list Z :=
  splice off (le_bytes n v) bs.

Definition get32 : nat → list Z → Z := get_le 4.
Definition put32 : nat → Z → list Z → list Z := put_le 4.
Definition get16 : nat → list Z → Z := get_le 2.
Definition put16 : nat → Z → list Z → list Z := put_le 2.

Lemma length_le_bytes n v : length (le_bytes n v) = n.
Proof. revert v. induction n; intros; simpl; [done|]. by rewrite IHn. Qed.
#[export] Hint Rewrite length_le_bytes : len.

Lemma le_bytes_ok n v : bytes_ok (le_bytes n v).
Proof.
  revert v. induction n; intros v; simpl; constructor; [|apply IHn].
  apply Z.mod_pos_bound. lia.
Qed.

Lemma le_val_le_bytes n v : le_val (le_bytes n v) = v mod 2 ^ (8 * Z.of_nat n).
Proof.
  revert v. induction n as [|n IH]; intros v; simpl le_bytes; simpl le_val.
  - by rewrite Z.mod_1_r.
  - rewrite IH. replace (8 * Z.of_nat (S n)) with (8 + 8 * Z.of_nat n) by lia.
    rewrite Z.pow_add_r by lia. change (2 ^ 8) with 256.
    rewrite Z.rem_mul_r; [done|lia|]. apply Z.pow_pos_nonneg; lia.
Qed.

Lemma le_val_range bs : bytes_ok bs → 0 ≤ le_val bs < 2 ^ (8 * Z.of_nat (length bs)).
Proof.
  induction 1 as [|b bs Hb Hbs IH]; simpl length; simpl le_val; [simpl; lia|].
  replace (8 * Z.of_nat (S (length bs))) with (8 + 8 * Z.of_nat (length bs)) by lia.
  rewrite Z.pow_add_r by lia. change (2 ^ 8) with 256. unfold is_byte in Hb. nia.
Qed.

Lemma le_bytes_le_val bs : bytes_ok bs → le_bytes (length bs) (le_val bs) = bs.
Proof.
  induction 1 as [|b bs Hb Hbs IH]; simpl; [done|]. unfold is_byte in Hb.
  rewrite (Z.mul_comm 256), Z_mod_plus_full, Z.div_add, Z.mod_small by lia.
  by rewrite (Z.div_small b), Z.add_0_l, IH by lia.
Qed.

Lemma le_val_replicate0 n : le_val (replicate n 0) = 0.
Proof. induction n; simpl; lia. Qed.

Lemma length_put_le n off v bs : length (put_le n off v bs) = length bs.
Proof. apply length_splice. Qed.
#[export] Hint Rewrite length_put_le : len.

Lemma bytes_ok_put_le n off v bs : bytes_ok bs → bytes_ok (put_le n off v bs).
Proof. intros. apply Forall_splice; [apply le_bytes_ok|done]. Qed.

Lemma get_put_le_eq n off v bs :
  (off + n ≤ length bs)%nat → get_le n off (put_le n off v bs) = v mod 2 ^ (8 * Z.of_nat n).
Proof.
  intros H. unfold get_le, put_le.
  rewrite <-(length_le_bytes n v) at 1.
  by rewrite slice_splice_eq, le_val_le_bytes by len.
Qed.

Lemma get_put_le_ne n off v m off' bs :
  (off + n ≤ length bs)%nat → (off' + m ≤ off ∨ off + n ≤ off')%nat →
  get_le m off' (put_le n off v bs) = get_le m off' bs.
Proof. intros. unfold get_le, put_le. rewrite slice_splice_ne; [done|len|len]. Qed.

Lemma get_le_range n off bs :
  bytes_ok bs → 0 ≤ get_le n off bs < 2 ^ (8 * Z.of_nat n).
Proof.
  intros H. unfold get_le.
  pose proof (le_val_range _ (Forall_slice _ off n bs H)) as Hr.
  assert (length (slice off n bs) ≤ n)%nat by (unfold slice; len).
  assert (2 ^ (8 * Z.of_nat (length (slice off n bs))) ≤ 2 ^ (8 * Z.of_nat n))
    by (apply Z.pow_le_mono_r; lia). lia.
Qed.

Lemma get_le_zeros n off m : get_le n off (replicate m 0) = 0.
Proof.
  unfold get_le, slice. rewrite drop_replicate, take_replicate. apply le_val_replicate0.
Qed.

Lemma get_put32_eq off v bs :
  (off + 4 ≤ length bs)%nat → get32 off (put32 off v bs) = u32 v.
Proof. apply (get_put_le_eq 4). Qed.

Lemma get_put32_ne off v off' bs :
  (off + 4 ≤ length bs)%nat → (off' + 4 ≤ off ∨ off + 4 ≤ off')%nat →
  get32 off' (put32 off v bs) = get32 off' bs.
Proof. apply (get_put_le_ne 4). Qed.

Lemma get32_range off bs : bytes_ok bs → 0 ≤ get32 off bs < 2 ^ 32.
Proof. apply (get_le_range 4). Qed.

(** Writing a word back leaves the array as it was. *)
Lemma put_get_le n off bs :
  bytes_ok bs → (off + n ≤ length bs)%nat → put_le n off (get_le n off bs) bs = bs.
Proof.
  intros Hok H. unfold put_le, get_le.
  rewrite <-(length_slice off n bs H) at 1.
  rewrite le_bytes_le_val by (by apply Forall_slice). by apply splice_slice.
Qed.
