(* ===== verification/CString.v ===== *)
(** * CString: the memory and string routines of string.c

    The routines run over one byte memory, a list indexed by address; an
    access outside it has no value ([None]).  A loop is a [Fixpoint] over the
    count the C loop decrements, or over the part of memory it has still to
    read.  The theorems give each routine's effect in closed form, for
    overlapping operands too. *)

From S2P Require Import Prelude Bytes.

(** ** Memory *)

Definition load (m : list Z) (a : nat) : option Z := m !! a.
Definition store (m : list Z) (a : nat) (v : Z) : option (list Z) :=
  if decide (a < length m)%nat then Some (<[a:=u8 v]> m) else None.

(** [rep stosb]: [n] times the byte [v] from address [a] up. *)
Fixpoint stosb (m : list Z) (a : nat) (v : Z) (n : nat) : option (list Z) :=
  match n with
  | O => Some m
  | S n' => m' ← store m a v; stosb m' (S a) v n'
  end.

(** [rep stosl]: [n] times the 32-bit word [v], lowest byte first. *)
Fixpoint stosl (m : list Z) (a : nat) (v : Z) (n : nat) : option (list Z) :=
  match n with
  | O => Some m
  | S n' =>
      m1 ← store m a v;
      m2 ← store m1 (a + 1) (Z.shiftr v 8);
      m3 ← store m2 (a + 2) (Z.shiftr v 16);
      m4 ← store m3 (a + 3) (Z.shiftr v 24);
      stosl m4 (a + 4) v n'
  end.

(** ** string.c *)

Definition memset (m : list Z) (dst : nat) (c : Z) (n : nat) : option (list Z) :=
  if bool_decide (dst mod 4 = 0 ∧ n mod 4 = 0)%nat then
    let c := Z.land c 255 in
    stosl m dst
      (Z.lor (Z.lor (Z.lor (Z.shiftl c 24) (Z.shiftl c 16)) (Z.shiftl c 8)) c) (n / 4)
  else stosb m dst c n.

Fixpoint memcmp (m : list Z) (s1 s2 : nat) (n : nat) : option Z :=
  match n with
  | O => Some 0
  | S n' =>
      a ← load m s1; b ← load m s2;
      if a =? b then memcmp m (S s1) (S s2) n' else Some (a - b)
  end.

(** The two loops of [memmove]: upwards from the start, and downwards from
    the end, where [s] and [d] are one past the byte to move next. *)
Fixpoint copy_up (m : list Z) (d s : nat) (n : nat) : option (list Z) :=
  match n with
  | O => Some m
  | S n' => v ← load m s; m' ← store m d v; copy_up m' (S d) (S s) n'
  end.

Fixpoint copy_down (m : list Z) (d s : nat) (n : nat) : option (list Z) :=
  match n with
  | O => Some m
  | S n' => v ← load m (s - 1); m' ← store m (d - 1) v; copy_down m' (d - 1) (s - 1) n'
  end.

Definition memmove (m : list Z) (dst src n : nat) : option (list Z) :=
  if bool_decide (src < dst ∧ dst < src + n)%nat
  then copy_down m (dst + n) (src + n) n
  else copy_up m dst src n.

Definition memcpy (m : list Z) (dst src n : nat) : option (list Z) := memmove m dst src n.

(** [strncmp p q n]; a pointer to a constant string is the memory from its
    address on. *)
Fixpoint strncmp (p q : list Z) (n : nat) : option Z :=
  match n with
  | O => Some 0
  | S n' =>
      a ← head p; b ← head q;
      if negb (a =? 0) && (a =? b) then strncmp (tail p) (tail q) n'
      else Some (a - b)
  end.

(** [strncpy_pad]: the second loop of [strncpy], [while(n-- > 0) *s++ = 0]. *)
Fixpoint strncpy_pad (m : list Z) (s : nat) (n : nat) : option (list Z) :=
  match n with
  | O => Some m
  | S n' => m' ← store m s 0; strncpy_pad m' (S s) n'
  end.

Fixpoint strncpy (m : list Z) (s : nat) (t : list Z) (n : nat) : option (list Z) :=
  match n with
  | O => Some m
  | S n' =>
      c ← head t; m' ← store m s c;
      if c =? 0 then strncpy_pad m' (S s) n' else strncpy m' (S s) (tail t) n'
  end.

(** [safestrcpy_loop] is the loop with [n] the count before [--n]. *)
Fixpoint safestrcpy_loop (m : list Z) (s : nat) (t : list Z) (n : nat) : option (list Z) :=
  match n with
  | O | 1%nat => store m s 0
  | S n' =>
      c ← head t; m' ← store m s c;
      if c =? 0 then store m' (S s) 0 else safestrcpy_loop m' (S s) (tail t) n'
  end.

Definition safestrcpy (m : list Z) (s : nat) (t : list Z) (n : Z) : option (list Z) :=
  if n <=? 0 then Some m else safestrcpy_loop m s t (Z.to_nat n).

Fixpoint strlen (s : list Z) : option nat :=
  match s with
  | [] => None
  | c :: s' => if c =? 0 then Some 0%nat else S <$> strlen s'
  end.

(** ** What the routines compute *)

(** The string at a pointer, at most [n] characters of it: the bytes before
    the first NUL. *)
Fixpoint cstr (n : nat) (p : list Z) : list Z :=
  match n, p with
  | S n', c :: p' => if c =? 0 then [] else c :: cstr n' p'
  | _, _ => []
  end.

(** The pointer can be read as a string of at most [n] characters: its memory
    has a NUL, or at least [n] bytes. *)
Fixpoint cstr_ok (n : nat) (p : list Z) : bool :=
  match n, p with
  | O, _ => true
  | S _, [] => false
  | S n', c :: p' => if c =? 0 then true else cstr_ok n' p'
  end.

Lemma store_Some m a v :
  (a < length m)%nat → store m a v = Some (<[a:=u8 v]> m).
Proof. intros. unfold store. by case_decide. Qed.

Lemma u8_byte v : is_byte v → u8 v = v.
Proof. intros H. by apply Z.mod_small. Qed.

Lemma cstr_length n p : (length (cstr n p) ≤ n)%nat.
Proof. revert p. induction n; destruct p; simpl; try case_match; simpl; [lia..|]. specialize (IHn p). lia. Qed.

Lemma cstr_app n a r : 0 ∉ a → (length a < n)%nat → cstr n (a ++ 0 :: r) = a.
Proof.
  revert n. induction a as [|c a IH]; intros n H0 Hn; destruct n; simpl in *; try lia; [done|].
  apply not_elem_of_cons in H0 as [Hc Ha]. rewrite (proj2 (Z.eqb_neq _ _)) by congruence.
  f_equal. apply IH; [done|lia].
Qed.

Lemma splice_cons {A} i (x : A) k l : splice i (x :: k) l = splice (S i) k (<[i:=x]> l).
Proof. unfold splice. simpl. apply list_insert_inserts_lt. lia. Qed.

Lemma splice_snoc {A} i (x : A) k l :
  splice i (k ++ [x]) l = splice i k (<[(i + length k)%nat:=x]> l).
Proof.
  revert i l. induction k as [|y k IH]; intros i l; simpl.
  - by rewrite Nat.add_0_r.
  - rewrite !splice_cons, IH. f_equal.
    rewrite list_insert_insert_ne by lia. do 2 f_equal. lia.
Qed.

Lemma slice_add {A} i n m (l : list A) : slice i (n + m) l = slice i n l ++ slice (i + n) m l.
Proof. unfold slice. by rewrite <-drop_drop, take_take_drop. Qed.

Lemma splice_app {A} i (k k' l : list A) : splice i (k ++ k') l = splice (i + length k) k' (splice i k l).
Proof.
  revert i l. induction k as [|x k IH]; intros i l; cbn [app length].
  - by rewrite Nat.add_0_r.
  - rewrite !splice_cons, IH. f_equal. lia.
Qed.

(** A part of what a copy of [slice j m src] wrote. *)
Lemma slice_splice_sub {A} i j m (src l : list A) a n :
  (j + m ≤ length src)%nat → (i + m ≤ length l)%nat → (i ≤ a)%nat → (a + n ≤ i + m)%nat →
  slice a n (splice i (slice j m src) l) = slice (j + (a - i)) n src.
Proof.
  intros Hj Hl Ha Hn. apply list_eq. intros x. rewrite !lookup_slice. case_decide; [|done].
  rewrite lookup_splice, length_slice by (rewrite ?length_slice; lia). rewrite decide_True by lia.
  rewrite lookup_slice, decide_True by lia. f_equal. lia.
Qed.

Lemma slice_insert_ne {A} i n j (x : A) l :
  (j < i ∨ i + n ≤ j)%nat → slice i n (<[j:=x]> l) = slice i n l.
Proof.
  intros H. apply list_eq. intros k. rewrite !lookup_slice. case_decide; [|done].
  by rewrite list_lookup_insert_ne by lia.
Qed.

Lemma slice_S {A} i n (x : A) l :
  l !! i = Some x → slice i (S n) l = x :: slice (S i) n l.
Proof. intros H. unfold slice. by rewrite (drop_S _ _ _ H). Qed.

Lemma slice_snoc {A} i n (x : A) l :
  l !! (i + n)%nat = Some x → slice i (S n) l = slice i n l ++ [x].
Proof. intros H. unfold slice. rewrite (take_S_r _ _ x); [done|]. by rewrite lookup_drop. Qed.

Lemma bytes_ok_insert m a v : bytes_ok m → is_byte v → bytes_ok (<[a:=v]> m).
Proof. apply Forall_insert. Qed.

Lemma bytes_ok_lookup m a v : bytes_ok m → m !! a = Some v → is_byte v.
Proof. intros H ?. by eapply Forall_lookup_1 in H. Qed.

Section Copy.
Context (m : list Z) (Hm : bytes_ok m).

Lemma copy_up_spec d s n :
  (s + n ≤ length m → d + n ≤ length m → d ≤ s ∨ s + n ≤ d →
  copy_up m d s n = Some (splice d (slice s n m) m))%nat.
Proof using Hm.
  revert m Hm d s. induction n as [|n IH]; intros m' Hm' d s Hs Hd Hov; [done|].
  destruct (lookup_lt_is_Some_2 m' s) as [v Hv]; [lia|].
  pose proof (bytes_ok_lookup _ _ _ Hm' Hv) as Hb.
  simpl. unfold load. rewrite Hv. simpl. rewrite store_Some, u8_byte by (done || lia). simpl.
  rewrite (IH _ (bytes_ok_insert _ _ _ Hm' Hb)) by (len || lia).
  rewrite slice_insert_ne by lia. by rewrite (slice_S _ _ _ _ Hv), splice_cons.
Qed.

Lemma copy_down_spec d s n :
  (s + n ≤ length m → d + n ≤ length m → s ≤ d →
  copy_down m (d + n) (s + n) n = Some (splice d (slice s n m) m))%nat.
Proof using Hm.
  revert m Hm. induction n as [|n IH]; intros m' Hm' Hs Hd Hov; [done|].
  destruct (lookup_lt_is_Some_2 m' (s + n)) as [v Hv]; [lia|].
  pose proof (bytes_ok_lookup _ _ _ Hm' Hv) as Hb.
  simpl. unfold load. replace (s + S n - 1)%nat with (s + n)%nat by lia.
  replace (d + S n - 1)%nat with (d + n)%nat by lia. rewrite Hv. simpl.
  rewrite store_Some, u8_byte by (done || lia). simpl.
  rewrite (IH _ (bytes_ok_insert _ _ _ Hm' Hb)) by (len || lia).
  rewrite slice_insert_ne by lia. rewrite (slice_snoc _ _ _ _ Hv), splice_snoc.
  by rewrite length_slice by lia.
Qed.

(** [memmove] copies the source bytes as they were before the call, however
    the two ranges overlap. *)
Theorem memmove_spec dst src n :
  (src + n ≤ length m)%nat → (dst + n ≤ length m)%nat →
  memmove m dst src n = Some (splice dst (slice src n m) m).
Proof using Hm.
  intros Hs Hd. unfold memmove. case_bool_decide.
  - apply copy_down_spec; lia.
  - apply copy_up_spec; lia.
Qed.

End Copy.

Lemma stosb_spec m a v n :
  (a + n ≤ length m)%nat → stosb m a v n = Some (splice a (replicate n (u8 v)) m).
Proof.
  revert m a. induction n as [|n IH]; intros m a H; simpl; [done|].
  rewrite store_Some by lia. simpl. rewrite IH by (len || lia). by rewrite splice_cons.
Qed.

(** The four bytes of the word [memset] builds are the fill byte. *)
Lemma memset_word_byte c k :
  let b := Z.land c 255 in
  (k < 4)%nat →
  u8 (Z.shiftr (Z.lor (Z.lor (Z.lor (Z.shiftl b 24) (Z.shiftl b 16)) (Z.shiftl b 8)) b)
        (8 * Z.of_nat k)) = u8 c.
Proof.
  intros b Hk. unfold u8. apply Z.bits_inj'. intros i Hi.
  rewrite <-!Z.land_ones by lia. rewrite !Z.land_spec.
  destruct (decide (i < 8)) as [Hi8|]; [|by rewrite !Z.testbit_ones, (proj2 (Z.ltb_ge i 8)), !andb_false_r by lia].
  rewrite Z.testbit_ones, (proj2 (Z.leb_le 0 i)), (proj2 (Z.ltb_lt i 8)), !andb_true_r by lia.
  rewrite Z.shiftr_spec, !Z.lor_spec, !Z.shiftl_spec by lia.
  assert (Hb : ∀ j, Z.testbit b j = if decide (0 ≤ j < 8) then Z.testbit c j else false).
  { intros j. unfold b. change 255 with (Z.ones 8). case_decide.
    - rewrite Z.land_spec, Z.testbit_ones by lia.
      by rewrite (proj2 (Z.leb_le 0 j)), (proj2 (Z.ltb_lt j 8)), andb_true_r by lia.
    - destruct (decide (j < 0)); [by apply Z.testbit_neg_r|].
      rewrite Z.land_spec, Z.testbit_ones by lia.
      by rewrite (proj2 (Z.ltb_ge j 8)), !andb_false_r by lia. }
  rewrite !Hb. destruct k as [|[|[|[|]]]]; [..|lia]; repeat case_decide; try lia;
    rewrite ?orb_false_r, ?orb_false_l; f_equal; lia.
Qed.

Lemma stosl_spec m a c n :
  let b := Z.land c 255 in
  (a + 4 * n ≤ length m)%nat →
  stosl m a (Z.lor (Z.lor (Z.lor (Z.shiftl b 24) (Z.shiftl b 16)) (Z.shiftl b 8)) b) n
  = Some (splice a (replicate (4 * n) (u8 c)) m).
Proof.
  intros b. set (w := Z.lor _ b). revert m a.
  pose proof (memset_word_byte c 0 ltac:(lia)) as H0.
  pose proof (memset_word_byte c 1 ltac:(lia)) as H1.
  pose proof (memset_word_byte c 2 ltac:(lia)) as H2.
  pose proof (memset_word_byte c 3 ltac:(lia)) as H3.
  rewrite Z.shiftr_0_r in H0.
  change (8 * Z.of_nat 1) with 8 in H1. change (8 * Z.of_nat 2) with 16 in H2.
  change (8 * Z.of_nat 3) with 24 in H3. fold b w in H0, H1, H2, H3.
  induction n as [|n IH]; intros m a H; [done|].
  replace (4 * S n)%nat with (S (S (S (S (4 * n))))) by lia. simpl stosl.
  rewrite !store_Some by (len || lia). simpl. rewrite !store_Some by (len || lia). simpl.
  rewrite !store_Some by (len || lia). simpl. rewrite !store_Some by (len || lia). simpl.
  rewrite IH by (len || lia). rewrite H0, H1, H2, H3. simpl replicate. rewrite !splice_cons.
  repeat (f_equal; try lia).
Qed.

(** [memset] fills exactly the [n] bytes at [dst] with the low byte of [c],
    by words when address and count are multiples of four, by bytes otherwise. *)
Theorem memset_spec m dst c n :
  (dst + n ≤ length m)%nat → memset m dst c n = Some (splice dst (replicate n (u8 c)) m).
Proof.
  intros H. unfold memset. case_bool_decide as Hal; [|by apply stosb_spec].
  destruct Hal as [_ Hn].
  assert (n = 4 * (n / 4))%nat as Hn4 by (pose proof (Nat.div_mod_eq n 4); lia).
  rewrite stosl_spec by lia. by rewrite <-Hn4.
Qed.

Lemma memcmp_spec m s1 s2 n :
  (s1 + n ≤ length m)%nat → (s2 + n ≤ length m)%nat →
  ∃ r, memcmp m s1 s2 n = Some r ∧ (r = 0 ↔ slice s1 n m = slice s2 n m).
Proof.
  revert s1 s2. induction n as [|n IH]; intros s1 s2 H1 H2; simpl; [by exists 0|].
  destruct (lookup_lt_is_Some_2 m s1) as [a Ha]; [lia|].
  destruct (lookup_lt_is_Some_2 m s2) as [b Hb]; [lia|].
  unfold load. rewrite Ha, Hb. simpl.
  rewrite (slice_S _ _ _ _ Ha), (slice_S _ _ _ _ Hb).
  destruct (Z.eqb_spec a b) as [->|Hne].
  - destruct (IH (S s1) (S s2)) as (r & -> & Hr); [lia..|]. exists r. split; [done|].
    rewrite Hr. split; congruence.
  - exists (a - b). split; [done|]. split; [lia|]. congruence.
Qed.

(** [strncmp] returns, and returns 0 exactly when the two strings, cut to [n]
    characters, are the same. *)
Lemma strncmp_spec p q n :
  cstr_ok n p = true → cstr_ok n q = true →
  ∃ r, strncmp p q n = Some r ∧ (r = 0 ↔ cstr n p = cstr n q).
Proof.
  revert p q. induction n as [|n IH]; intros p q Hp Hq; simpl; [by exists 0|].
  destruct p as [|a p]; [done|]. destruct q as [|b q]; [done|]. simpl in *.
  destruct (Z.eqb_spec a 0) as [->|Ha]; simpl.
  - destruct (Z.eqb_spec b 0) as [->|Hb]; [by exists 0|].
    exists (0 - b). split; [done|]. split; [lia|done].
  - destruct (Z.eqb_spec a b) as [->|Hab]; simpl.
    + destruct (Z.eqb_spec b 0); [done|].
      destruct (IH p q Hp Hq) as (r & -> & Hr). exists r. split; [done|].
      rewrite Hr. split; congruence.
    + exists (a - b). split; [done|]. destruct (Z.eqb_spec b 0); split; [lia|done|lia|congruence].
Qed.

Lemma strncpy_pad_spec m s n :
  (s + n ≤ length m)%nat → strncpy_pad m s n = Some (splice s (replicate n 0) m).
Proof.
  revert m s. induction n as [|n IH]; intros m s H; simpl; [done|].
  rewrite store_Some by lia. simpl. rewrite IH by (len || lia). by rewrite splice_cons.
Qed.

(** [strncpy] writes exactly [n] bytes: the string, cut to [n] characters,
    and NULs up to the end. *)
Theorem strncpy_spec m s t n :
  (s + n ≤ length m)%nat → bytes_ok t → cstr_ok n t = true →
  strncpy m s t n =
    Some (splice s (cstr n t ++ replicate (n - length (cstr n t)) 0) m).
Proof.
  revert m s t. induction n as [|n IH]; intros m s t H Ht Hok; [by destruct t|].
  destruct t as [|c t]; [done|]. apply Forall_cons_1 in Ht as [Hc Ht]. simpl in *.
  rewrite store_Some, u8_byte by (done || lia). simpl.
  destruct (Z.eqb_spec c 0) as [->|Hc0].
  - rewrite strncpy_pad_spec by (len || lia). simpl. by rewrite splice_cons.
  - rewrite IH by (len || done || lia). simpl. by rewrite splice_cons.
Qed.

(** [safestrcpy] always leaves a NUL-terminated string, the source cut to
    [n - 1] characters, and changes nothing outside the [n] bytes at [s]. *)
Theorem safestrcpy_spec m s t n :
  0 < n → (s + Z.to_nat n ≤ length m)%nat → bytes_ok t → cstr_ok (Z.to_nat n - 1) t = true →
  ∃ m', safestrcpy m s t n = Some m' ∧ length m' = length m ∧
    let r := cstr (Z.to_nat n - 1) t in
    slice s (S (length r)) m' = r ++ [0] ∧
    ∀ i, (i < s ∨ s + Z.to_nat n ≤ i)%nat → m' !! i = m !! i.
Proof.
  intros Hn. unfold safestrcpy. rewrite (proj2 (Z.leb_gt n 0)) by lia.
  set (k := Z.to_nat n). assert (0 < k)%nat as Hk by lia. clearbody k. clear n Hn.
  revert m s t. induction k as [|k IH]; intros m s t H Ht Hok; [lia|].
  destruct k as [|k].
  { simpl. rewrite store_Some by lia. eexists. split; [done|]. split; [len|]. split.
    - unfold slice. rewrite (drop_S _ 0) by (apply list_lookup_insert_eq; lia). done.
    - intros i Hi. apply list_lookup_insert_ne. lia. }
  destruct t as [|c t]; [done|]. apply Forall_cons_1 in Ht as [Hc Ht]. simpl in Hok.
  change (safestrcpy_loop m s (c :: t) (S (S k))) with
    (m' ← store m s c; if c =? 0 then store m' (S s) 0 else safestrcpy_loop m' (S s) t (S k)).
  rewrite store_Some, u8_byte by (done || lia). cbn [mbind option_bind].
  replace (S (S k) - 1)%nat with (S k) by lia. simpl cstr.
  destruct (Z.eqb_spec c 0) as [->|Hc0].
  { rewrite store_Some by (len || lia). eexists. split; [done|]. split; [len|]. split.
    - rewrite (slice_S _ _ 0); [done|].
      rewrite list_lookup_insert_ne, list_lookup_insert_eq by lia. done.
    - intros i Hi. rewrite !list_lookup_insert_ne by lia. done. }
  destruct (IH ltac:(lia) (<[s:=c]> m) (S s) t) as (m' & -> & Hl & Hr & Hout);
    [len|done|by rewrite Nat.sub_succ, Nat.sub_0_r|].
  rewrite Nat.sub_succ, Nat.sub_0_r in Hr.
  eexists. split; [done|]. split; [by rewrite Hl; len|]. split.
  - simpl. rewrite (slice_S _ _ c); [by rewrite Hr|].
    rewrite Hout by lia. apply list_lookup_insert_eq. lia.
  - intros i Hi. rewrite Hout by lia. apply list_lookup_insert_ne. lia.
Qed.

(** [strlen] is the number of characters before the NUL. *)
Lemma strlen_spec s t : Forall (λ c, c ≠ 0) s → strlen (s ++ 0 :: t) = Some (length s).
Proof.
  induction 1 as [|c s Hc _ IH]; simpl; [done|].
  rewrite (proj2 (Z.eqb_neq c 0)) by done. by rewrite IH.
Qed.

Lemma strlen_lt l n : strlen l = Some n → (n < length l)%nat.
Proof.
  revert n. induction l as [|c l IH]; intros n; simpl; [done|]. destruct (c =? 0); [intros [= <-]; lia|].
  destruct (strlen l) as [k|]; [|done]. intros [= <-]. specialize (IH k eq_refl). lia.
Qed.
