(* ===== verification/Ring.v ===== *)
(** * Ring: ring buffers with free-running counters

    Pipes and the console's input buffer are arrays of [N] bytes with a read
    and a write counter of 32 bits that only grow; a counter selects the
    element whose index is its value modulo [N].  [N] divides 2^32, so that
    the wrap-around of the counters goes unnoticed.  The specification of such
    a buffer is the queue of the bytes between the counters. *)

From S2P Require Import Prelude.

(** The sizes in use: powers of two. *)
Class RingSize (N : Z) : Prop := { ring_pos : 0 < N < 2 ^ 32; ring_div : (N | 2 ^ 32) }.

#[export] Instance ring_512 : RingSize 512.
Proof. split; [lia|by exists (2 ^ 23)]. Qed.
#[export] Instance ring_128 : RingSize 128.
Proof. split; [lia|by exists (2 ^ 25)]. Qed.

(** From the counter [r] to the counter [w] the buffer holds the bytes [q], the
    next one to be read first. *)
Record ringbuf (N : Z) (data : list Z) (r w : Z) (q : list Z) : Prop := {
  ring_len : Z.of_nat (length data) = N;
  ring_r : 0 ≤ r < 2 ^ 32;
  ring_w : w = u32 (r + Z.of_nat (length q));
  ring_q : Z.of_nat (length q) ≤ N;
  ring_data : ∀ k c, q !! k = Some c → data !! Z.to_nat ((r + Z.of_nat k) mod N) = Some c;
}.

Lemma u32_add_l a b : u32 (u32 a + b) = u32 (a + b).
Proof. apply Zplus_mod_idemp_l. Qed.
Lemma u32_sub_l a b : u32 (u32 a - b) = u32 (a - b).
Proof. apply Zminus_mod_idemp_l. Qed.

Lemma u32_sub_r a b : u32 (a - u32 b) = u32 (a - b).
Proof. apply Zminus_mod_idemp_r. Qed.

(** Two counters less than 2^32 apart are equal if they are the same modulo
    2^32. *)
Lemma u32_eq_close a b : - 2 ^ 32 < a - b < 2 ^ 32 → u32 a = u32 b → a = b.
Proof.
  intros H E. assert ((a - b) mod 2 ^ 32 = 0) as Hz.
  { rewrite Zminus_mod. unfold u32 in E. by rewrite E, Z.sub_diag. }
  apply Z.mod_divide in Hz as [k Hk]; [|lia]. assert (k = 0) by nia. lia.
Qed.

Section Ring.
Context {N : Z} `{RS : RingSize N}.
Implicit Types (data q : list Z) (r w : Z).

Lemma mod_u32 x : u32 x mod N = x mod N.
Proof using RS. unfold u32. apply Z.mod_mod_divide, ring_div. Qed.

Lemma ring_count data r w q : ringbuf N data r w q → u32 (w - r) = Z.of_nat (length q).
Proof using RS.
  intros []. subst w. rewrite u32_sub_l. replace (_ - r) with (Z.of_nat (length q)) by lia.
  apply u32_small. pose proof ring_pos. lia.
Qed.

Lemma ring_full data r w q :
  ringbuf N data r w q → (w =? u32 (r + N)) = bool_decide (Z.of_nat (length q) = N).
Proof using RS.
  intros []. pose proof ring_pos as HN. subst w.
  destruct (Z.eqb_spec (u32 (r + Z.of_nat (length q))) (u32 (r + N))) as [E|E]; symmetry.
  - apply bool_decide_true. apply u32_eq_close in E; lia.
  - apply bool_decide_false. intros El. apply E. by rewrite El.
Qed.

Lemma ring_empty data r w q : ringbuf N data r w q → (r =? w) = bool_decide (q = []).
Proof using RS.
  intros []. pose proof ring_pos as HN. subst w.
  destruct (Z.eqb_spec r (u32 (r + Z.of_nat (length q)))) as [E|E]; symmetry.
  - apply bool_decide_true. rewrite <-(u32_small r) in E at 1 by done.
    apply u32_eq_close in E; [|lia]. apply nil_length_inv. lia.
  - apply bool_decide_false. intros ->. apply E. simpl. by rewrite Z.add_0_r, u32_small.
Qed.

(** Different elements of the queue are at different places. *)
Lemma ring_place_ne r i j :
  0 ≤ i < N → 0 ≤ j < N → i ≠ j → Z.to_nat ((r + i) mod N) ≠ Z.to_nat ((r + j) mod N).
Proof using RS.
  intros Hi Hj Hne E. pose proof ring_pos as HN.
  pose proof (Z.mod_pos_bound (r + i) N ltac:(lia)). pose proof (Z.mod_pos_bound (r + j) N ltac:(lia)).
  apply Z2Nat.inj in E; [|lia|lia]. assert ((i - j) mod N = 0) as Hz.
  { replace (i - j) with (r + i - (r + j)) by lia. by rewrite Zminus_mod, E, Z.sub_diag. }
  apply Z.mod_divide in Hz as [k Hk]; [|lia]. assert (k = 0) by nia. lia.
Qed.

Lemma ring_push data r w q c :
  ringbuf N data r w q → Z.of_nat (length q) < N →
  ringbuf N (<[Z.to_nat (w mod N):=c]> data) r (u32 (w + 1)) (q ++ [c]).
Proof using RS.
  intros [] Hq. pose proof ring_pos as HN. subst w. split; try done.
  - by rewrite length_insert.
  - rewrite u32_add_l, length_app. simpl. f_equal. lia.
  - rewrite length_app. simpl. lia.
  - rewrite mod_u32. intros k d Hk.
    pose proof (Z.mod_pos_bound (r + Z.of_nat (length q)) N ltac:(lia)).
    destruct (decide (k = length q)) as [->|Hne].
    + rewrite lookup_app_r, Nat.sub_diag in Hk by lia. simplify_eq/=. apply list_lookup_insert_eq. lia.
    + pose proof (lookup_lt_Some _ _ _ Hk) as Hlt. rewrite length_app in Hlt. simpl in Hlt.
      rewrite lookup_app_l in Hk by lia. rewrite list_lookup_insert_ne; [by apply ring_data0|].
      apply ring_place_ne; lia.
Qed.

Lemma ring_pop data r w c q :
  ringbuf N data r w (c :: q) →
  data !! Z.to_nat (r mod N) = Some c ∧ ringbuf N data (u32 (r + 1)) w q.
Proof using RS.
  intros []. pose proof ring_pos as HN. split.
  - specialize (ring_data0 0%nat c eq_refl). by rewrite Z.add_0_r in ring_data0.
  - split; simpl in *; try done; try lia.
    + apply u32_range.
    + rewrite ring_w0, u32_add_l. f_equal. lia.
    + intros k d Hk. rewrite <-(ring_data0 (S k) d Hk). do 2 f_equal.
      rewrite <-Z.add_mod_idemp_l, mod_u32, Z.add_mod_idemp_l by lia. f_equal. lia.
Qed.

(** Taking back what was written last. *)
Lemma ring_unpush data r w q c :
  ringbuf N data r w (q ++ [c]) →
  data !! Z.to_nat (u32 (w - 1) mod N) = Some c ∧ ringbuf N data r (u32 (w - 1)) q.
Proof using RS.
  intros []. rewrite length_app in *. simpl in *. subst w. rewrite u32_sub_l.
  replace (r + Z.of_nat (length q + 1) - 1) with (r + Z.of_nat (length q)) by lia. split.
  - rewrite mod_u32. apply ring_data0. by rewrite lookup_app_r, Nat.sub_diag by lia.
  - split; try done; try lia. intros k d Hk. apply ring_data0.
    rewrite lookup_app_l; [done|]. by eapply lookup_lt_Some.
Qed.

End Ring.
