(* ===== verification/Kernel.v ===== *)
(** * Kernel: the data of the kernel

    The structures of the header files and of the C files that own them, and
    the state of the machine the kernel's functions run in.

    - Pointers into a static table ([struct buf *], [struct inode *],
      [struct file *], [struct proc *]) are indices into the table; a null
      pointer is [None].
    - Pointers to pages of memory are addresses ([Z]); null is 0.
    - C integers are [Z]; where the code relies on the width of a type the
      truncation is written out.

    Every record has one functional update per field that the code assigns. *)

From S2P Require Import Prelude Bytes.

(** ** Constants of param.h, fs.h, buf.h, file.h, mmu.h and memlayout.h *)

Abbreviation NPROC := 64%nat.
Abbreviation KSTACKSIZE := 4096.
Abbreviation NOFILE := 16%nat.
Abbreviation NFILE := 100%nat.
Abbreviation NBUF := 10%nat.
Abbreviation NINODE := 50%nat.
Abbreviation NDEV := 10.
Abbreviation ROOTDEV := 1.
Abbreviation ROOTINO := 1.
Abbreviation MAXARG := 32.
Abbreviation LOGSIZE := 10.
Abbreviation BSIZE := 512.
Abbreviation NDIRECT := 11.
Abbreviation NINDIRECT := 128.
Abbreviation MAXFILE := 16523.
Abbreviation DIRSIZ := 14%nat.
Abbreviation IPB := 8.
Abbreviation BPB := 4096.
Abbreviation PGSIZE := 4096.
Abbreviation KERNBASE := 0x80000000.
Abbreviation EXTMEM := 0x100000.
Abbreviation PHYSTOP := 0xE000000.
Abbreviation DEVSPACE := 0xFE000000.
Abbreviation B_BUSY := 1.
Abbreviation B_VALID := 2.
Abbreviation B_DIRTY := 4.
Abbreviation I_BUSY := 1.
Abbreviation I_VALID := 2.
Abbreviation T_DIR := 1.
Abbreviation T_FILE := 2.
Abbreviation T_DEV := 3.
Abbreviation CONSOLE := 1.

(** A disk block: [BSIZE] bytes. *)
Definition block_ok (b : list Z) : Prop := length b = 512%nat ∧ bytes_ok b.

#[export] Instance block_ok_dec b : Decision (block_ok b).
Proof. unfold block_ok. apply _. Defined.

(** ** Flag words: the masks are 1, 2 and 4 *)

Create Rewrite HintDb flags.

Lemma flag_set_0_0 f : hasb (Z.lor f 1) 1 = true.
Proof. exact (hasb_set f 0 0 ltac:(lia) ltac:(lia)). Qed.
Lemma flag_clear_0_0 f : hasb (Z.land f (Z.lnot 1)) 1 = false.
Proof. exact (hasb_clear f 0 0 ltac:(lia) ltac:(lia)). Qed.
Lemma flag_set_0_1 f : hasb (Z.lor f 1) 2 = hasb f 2.
Proof. exact (hasb_set f 0 1 ltac:(lia) ltac:(lia)). Qed.
Lemma flag_clear_0_1 f : hasb (Z.land f (Z.lnot 1)) 2 = hasb f 2.
Proof. exact (hasb_clear f 0 1 ltac:(lia) ltac:(lia)). Qed.
Lemma flag_set_0_2 f : hasb (Z.lor f 1) 4 = hasb f 4.
Proof. exact (hasb_set f 0 2 ltac:(lia) ltac:(lia)). Qed.
Lemma flag_clear_0_2 f : hasb (Z.land f (Z.lnot 1)) 4 = hasb f 4.
Proof. exact (hasb_clear f 0 2 ltac:(lia) ltac:(lia)). Qed.
Lemma flag_set_1_0 f : hasb (Z.lor f 2) 1 = hasb f 1.
Proof. exact (hasb_set f 1 0 ltac:(lia) ltac:(lia)). Qed.
Lemma flag_clear_1_0 f : hasb (Z.land f (Z.lnot 2)) 1 = hasb f 1.
Proof. exact (hasb_clear f 1 0 ltac:(lia) ltac:(lia)). Qed.
Lemma flag_set_1_1 f : hasb (Z.lor f 2) 2 = true.
Proof. exact (hasb_set f 1 1 ltac:(lia) ltac:(lia)). Qed.
Lemma flag_clear_1_1 f : hasb (Z.land f (Z.lnot 2)) 2 = false.
Proof. exact (hasb_clear f 1 1 ltac:(lia) ltac:(lia)). Qed.
Lemma flag_set_1_2 f : hasb (Z.lor f 2) 4 = hasb f 4.
Proof. exact (hasb_set f 1 2 ltac:(lia) ltac:(lia)). Qed.
Lemma flag_clear_1_2 f : hasb (Z.land f (Z.lnot 2)) 4 = hasb f 4.
Proof. exact (hasb_clear f 1 2 ltac:(lia) ltac:(lia)). Qed.
Lemma flag_set_2_0 f : hasb (Z.lor f 4) 1 = hasb f 1.
Proof. exact (hasb_set f 2 0 ltac:(lia) ltac:(lia)). Qed.
Lemma flag_clear_2_0 f : hasb (Z.land f (Z.lnot 4)) 1 = hasb f 1.
Proof. exact (hasb_clear f 2 0 ltac:(lia) ltac:(lia)). Qed.
Lemma flag_set_2_1 f : hasb (Z.lor f 4) 2 = hasb f 2.
Proof. exact (hasb_set f 2 1 ltac:(lia) ltac:(lia)). Qed.
Lemma flag_clear_2_1 f : hasb (Z.land f (Z.lnot 4)) 2 = hasb f 2.
Proof. exact (hasb_clear f 2 1 ltac:(lia) ltac:(lia)). Qed.
Lemma flag_set_2_2 f : hasb (Z.lor f 4) 4 = true.
Proof. exact (hasb_set f 2 2 ltac:(lia) ltac:(lia)). Qed.
Lemma flag_clear_2_2 f : hasb (Z.land f (Z.lnot 4)) 4 = false.
Proof. exact (hasb_clear f 2 2 ltac:(lia) ltac:(lia)). Qed.

#[export] Hint Rewrite hasb_zero flag_set_0_0 flag_clear_0_0 flag_set_0_1 flag_clear_0_1 flag_set_0_2 flag_clear_0_2 flag_set_1_0 flag_clear_1_0 flag_set_1_1 flag_clear_1_1 flag_set_1_2 flag_clear_1_2 flag_set_2_0 flag_clear_2_0 flag_set_2_1 flag_clear_2_1 flag_set_2_2 flag_clear_2_2 : flags.

(** ** Locks and sleep channels *)

(** The spin locks of the kernel. *)
Inductive lockid :=
| L_ptable | L_kmem | L_bcache | L_ide | L_log | L_icache | L_ftable
| L_ticks | L_input | L_cons | L_pipe (p : Z).

(** The addresses processes sleep on. *)
Inductive chan :=
| ChBuf (b : nat) | ChInode (i : nat) | ChLog | ChProc (p : nat) | ChTicks
| ChNread (p : Z) | ChNwrite (p : Z) | ChInput.

#[export] Instance lockid_eq_dec : EqDecision lockid.
Proof. solve_decision. Defined.
#[export] Instance chan_eq_dec : EqDecision chan.
Proof. solve_decision. Defined.

(** ** Structures *)

(** [struct buf]; [prev] and [next] are indices into [bcache.buf], of which
    index [NBUF] is the list head. *)
Record buf := mk_buf {
  b_flags : Z;
  b_dev : Z;
  b_sector : Z;
  b_prev : nat;
  b_next : nat;
  b_qnext : option nat;
  b_data : list Z
}.
Definition with_b_flags (v : Z) (x : buf) : buf :=
  mk_buf v (b_dev x) (b_sector x) (b_prev x) (b_next x) (b_qnext x) (b_data x).
Definition with_b_dev (v : Z) (x : buf) : buf :=
  mk_buf (b_flags x) v (b_sector x) (b_prev x) (b_next x) (b_qnext x) (b_data x).
Definition with_b_sector (v : Z) (x : buf) : buf :=
  mk_buf (b_flags x) (b_dev x) v (b_prev x) (b_next x) (b_qnext x) (b_data x).
Definition with_b_prev (v : nat) (x : buf) : buf :=
  mk_buf (b_flags x) (b_dev x) (b_sector x) v (b_next x) (b_qnext x) (b_data x).
Definition with_b_next (v : nat) (x : buf) : buf :=
  mk_buf (b_flags x) (b_dev x) (b_sector x) (b_prev x) v (b_qnext x) (b_data x).
Definition with_b_qnext (v : option nat) (x : buf) : buf :=
  mk_buf (b_flags x) (b_dev x) (b_sector x) (b_prev x) (b_next x) v (b_data x).
Definition with_b_data (v : list Z) (x : buf) : buf :=
  mk_buf (b_flags x) (b_dev x) (b_sector x) (b_prev x) (b_next x) (b_qnext x) v.
(** [struct inode]: the in-memory inode; [addrs] has [NDIRECT+1] elements. *)
Record inode := mk_inode {
  i_dev : Z;
  i_inum : Z;
  i_ref : Z;
  i_flags : Z;
  i_type : Z;
  i_major : Z;
  i_minor : Z;
  i_nlink : Z;
  i_size : Z;
  i_addrs : list Z
}.
Definition with_i_dev (v : Z) (x : inode) : inode :=
  mk_inode v (i_inum x) (i_ref x) (i_flags x) (i_type x) (i_major x) (i_minor x) (i_nlink x)
    (i_size x) (i_addrs x).
Definition with_i_inum (v : Z) (x : inode) : inode :=
  mk_inode (i_dev x) v (i_ref x) (i_flags x) (i_type x) (i_major x) (i_minor x) (i_nlink x)
    (i_size x) (i_addrs x).
Definition with_i_ref (v : Z) (x : inode) : inode :=
  mk_inode (i_dev x) (i_inum x) v (i_flags x) (i_type x) (i_major x) (i_minor x) (i_nlink x)
    (i_size x) (i_addrs x).
Definition with_i_flags (v : Z) (x : inode) : inode :=
  mk_inode (i_dev x) (i_inum x) (i_ref x) v (i_type x) (i_major x) (i_minor x) (i_nlink x)
    (i_size x) (i_addrs x).
Definition with_i_type (v : Z) (x : inode) : inode :=
  mk_inode (i_dev x) (i_inum x) (i_ref x) (i_flags x) v (i_major x) (i_minor x) (i_nlink x)
    (i_size x) (i_addrs x).
Definition with_i_major (v : Z) (x : inode) : inode :=
  mk_inode (i_dev x) (i_inum x) (i_ref x) (i_flags x) (i_type x) v (i_minor x) (i_nlink x)
    (i_size x) (i_addrs x).
Definition with_i_minor (v : Z) (x : inode) : inode :=
  mk_inode (i_dev x) (i_inum x) (i_ref x) (i_flags x) (i_type x) (i_major x) v (i_nlink x)
    (i_size x) (i_addrs x).
Definition with_i_nlink (v : Z) (x : inode) : inode :=
  mk_inode (i_dev x) (i_inum x) (i_ref x) (i_flags x) (i_type x) (i_major x) (i_minor x) v
    (i_size x) (i_addrs x).
Definition with_i_size (v : Z) (x : inode) : inode :=
  mk_inode (i_dev x) (i_inum x) (i_ref x) (i_flags x) (i_type x) (i_major x) (i_minor x)
    (i_nlink x) v (i_addrs x).
Definition with_i_addrs (v : list Z) (x : inode) : inode :=
  mk_inode (i_dev x) (i_inum x) (i_ref x) (i_flags x) (i_type x) (i_major x) (i_minor x)
    (i_nlink x) (i_size x) v.
(** The three kinds of [struct file]. *)
Inductive fdtype := FD_NONE | FD_PIPE | FD_INODE.
#[export] Instance fdtype_eq_dec : EqDecision fdtype.
Proof. solve_decision. Defined.

(** [struct file]. *)
Record file := mk_file {
  f_type : fdtype;
  f_ref : Z;
  f_readable : bool;
  f_writable : bool;
  f_pipe : Z;
  f_ip : option nat;
  f_off : Z
}.
Definition with_f_type (v : fdtype) (x : file) : file :=
  mk_file v (f_ref x) (f_readable x) (f_writable x) (f_pipe x) (f_ip x) (f_off x).
Definition with_f_ref (v : Z) (x : file) : file :=
  mk_file (f_type x) v (f_readable x) (f_writable x) (f_pipe x) (f_ip x) (f_off x).
Definition with_f_readable (v : bool) (x : file) : file :=
  mk_file (f_type x) (f_ref x) v (f_writable x) (f_pipe x) (f_ip x) (f_off x).
Definition with_f_writable (v : bool) (x : file) : file :=
  mk_file (f_type x) (f_ref x) (f_readable x) v (f_pipe x) (f_ip x) (f_off x).
Definition with_f_pipe (v : Z) (x : file) : file :=
  mk_file (f_type x) (f_ref x) (f_readable x) (f_writable x) v (f_ip x) (f_off x).
Definition with_f_ip (v : option nat) (x : file) : file :=
  mk_file (f_type x) (f_ref x) (f_readable x) (f_writable x) (f_pipe x) v (f_off x).
Definition with_f_off (v : Z) (x : file) : file :=
  mk_file (f_type x) (f_ref x) (f_readable x) (f_writable x) (f_pipe x) (f_ip x) v.
(** [struct pipe], without its lock. *)
Record pipe := mk_pipe {
  pi_data : list Z;
  pi_nread : Z;
  pi_nwrite : Z;
  pi_readopen : bool;
  pi_writeopen : bool
}.
Definition with_pi_data (v : list Z) (x : pipe) : pipe :=
  mk_pipe v (pi_nread x) (pi_nwrite x) (pi_readopen x) (pi_writeopen x).
Definition with_pi_nread (v : Z) (x : pipe) : pipe :=
  mk_pipe (pi_data x) v (pi_nwrite x) (pi_readopen x) (pi_writeopen x).
Definition with_pi_nwrite (v : Z) (x : pipe) : pipe :=
  mk_pipe (pi_data x) (pi_nread x) v (pi_readopen x) (pi_writeopen x).
Definition with_pi_readopen (v : bool) (x : pipe) : pipe :=
  mk_pipe (pi_data x) (pi_nread x) (pi_nwrite x) v (pi_writeopen x).
Definition with_pi_writeopen (v : bool) (x : pipe) : pipe :=
  mk_pipe (pi_data x) (pi_nread x) (pi_nwrite x) (pi_readopen x) v.
(** [struct log] with its [struct logheader] ([n] and [sector]), without its
    lock. *)
Record log := mk_log {
  l_start : Z;
  l_size : Z;
  l_busy : bool;
  l_dev : Z;
  l_n : Z;
  l_sector : list Z
}.
Definition with_l_start (v : Z) (x : log) : log :=
  mk_log v (l_size x) (l_busy x) (l_dev x) (l_n x) (l_sector x).
Definition with_l_size (v : Z) (x : log) : log :=
  mk_log (l_start x) v (l_busy x) (l_dev x) (l_n x) (l_sector x).
Definition with_l_busy (v : bool) (x : log) : log :=
  mk_log (l_start x) (l_size x) v (l_dev x) (l_n x) (l_sector x).
Definition with_l_dev (v : Z) (x : log) : log :=
  mk_log (l_start x) (l_size x) (l_busy x) v (l_n x) (l_sector x).
Definition with_l_n (v : Z) (x : log) : log :=
  mk_log (l_start x) (l_size x) (l_busy x) (l_dev x) v (l_sector x).
Definition with_l_sector (v : list Z) (x : log) : log :=
  mk_log (l_start x) (l_size x) (l_busy x) (l_dev x) (l_n x) v.
(** [struct trapframe]. *)
Record trapframe := mk_tf {
  tf_edi : Z;
  tf_esi : Z;
  tf_ebp : Z;
  tf_oesp : Z;
  tf_ebx : Z;
  tf_edx : Z;
  tf_ecx : Z;
  tf_eax : Z;
  tf_gs : Z;
  tf_fs : Z;
  tf_es : Z;
  tf_ds : Z;
  tf_trapno : Z;
  tf_err : Z;
  tf_eip : Z;
  tf_cs : Z;
  tf_eflags : Z;
  tf_esp : Z;
  tf_ss : Z
}.
Definition with_tf_eax (v : Z) (x : trapframe) : trapframe :=
  mk_tf (tf_edi x) (tf_esi x) (tf_ebp x) (tf_oesp x) (tf_ebx x) (tf_edx x) (tf_ecx x) v (tf_gs
    x) (tf_fs x) (tf_es x) (tf_ds x) (tf_trapno x) (tf_err x) (tf_eip x) (tf_cs x) (tf_eflags x)
    (tf_esp x) (tf_ss x).
Definition with_tf_eip (v : Z) (x : trapframe) : trapframe :=
  mk_tf (tf_edi x) (tf_esi x) (tf_ebp x) (tf_oesp x) (tf_ebx x) (tf_edx x) (tf_ecx x) (tf_eax x)
    (tf_gs x) (tf_fs x) (tf_es x) (tf_ds x) (tf_trapno x) (tf_err x) v (tf_cs x) (tf_eflags x)
    (tf_esp x) (tf_ss x).
Definition with_tf_esp (v : Z) (x : trapframe) : trapframe :=
  mk_tf (tf_edi x) (tf_esi x) (tf_ebp x) (tf_oesp x) (tf_ebx x) (tf_edx x) (tf_ecx x) (tf_eax x)
    (tf_gs x) (tf_fs x) (tf_es x) (tf_ds x) (tf_trapno x) (tf_err x) (tf_eip x) (tf_cs x)
    (tf_eflags x) v (tf_ss x).
(** [struct context]. *)
Record context := mk_context {
  cx_edi : Z;
  cx_esi : Z;
  cx_ebx : Z;
  cx_ebp : Z;
  cx_eip : Z
}.
(** [enum procstate]. *)
Inductive procstate := UNUSED | EMBRYO | SLEEPING | RUNNABLE | RUNNING | ZOMBIE.
#[export] Instance procstate_eq_dec : EqDecision procstate.
Proof. solve_decision. Defined.

(** [struct proc]; the trap frame and the context, which the C code keeps at the
    top of the kernel stack, are stored in the record. *)
Record proc := mk_proc {
  p_sz : Z;
  p_pgdir : Z;
  p_kstack : Z;
  p_state : procstate;
  p_pid : Z;
  p_parent : option nat;
  p_tf : trapframe;
  p_context : context;
  p_chan : option chan;
  p_killed : bool;
  p_ofile : list (option nat);
  p_cwd : option nat;
  p_name : list Z;
  p_ctime : Z;
  p_stime : Z;
  p_retime : Z;
  p_rutime : Z;
  p_priority : Z;
  p_fake : list Z
}.
Definition with_p_sz (v : Z) (x : proc) : proc :=
  mk_proc v (p_pgdir x) (p_kstack x) (p_state x) (p_pid x) (p_parent x) (p_tf x) (p_context x)
    (p_chan x) (p_killed x) (p_ofile x) (p_cwd x) (p_name x) (p_ctime x) (p_stime x) (p_retime
    x) (p_rutime x) (p_priority x) (p_fake x).
Definition with_p_pgdir (v : Z) (x : proc) : proc :=
  mk_proc (p_sz x) v (p_kstack x) (p_state x) (p_pid x) (p_parent x) (p_tf x) (p_context x)
    (p_chan x) (p_killed x) (p_ofile x) (p_cwd x) (p_name x) (p_ctime x) (p_stime x) (p_retime
    x) (p_rutime x) (p_priority x) (p_fake x).
Definition with_p_kstack (v : Z) (x : proc) : proc :=
  mk_proc (p_sz x) (p_pgdir x) v (p_state x) (p_pid x) (p_parent x) (p_tf x) (p_context x)
    (p_chan x) (p_killed x) (p_ofile x) (p_cwd x) (p_name x) (p_ctime x) (p_stime x) (p_retime
    x) (p_rutime x) (p_priority x) (p_fake x).
Definition with_p_state (v : procstate) (x : proc) : proc :=
  mk_proc (p_sz x) (p_pgdir x) (p_kstack x) v (p_pid x) (p_parent x) (p_tf x) (p_context x)
    (p_chan x) (p_killed x) (p_ofile x) (p_cwd x) (p_name x) (p_ctime x) (p_stime x) (p_retime
    x) (p_rutime x) (p_priority x) (p_fake x).
Definition with_p_pid (v : Z) (x : proc) : proc :=
  mk_proc (p_sz x) (p_pgdir x) (p_kstack x) (p_state x) v (p_parent x) (p_tf x) (p_context x)
    (p_chan x) (p_killed x) (p_ofile x) (p_cwd x) (p_name x) (p_ctime x) (p_stime x) (p_retime
    x) (p_rutime x) (p_priority x) (p_fake x).
Definition with_p_parent (v : option nat) (x : proc) : proc :=
  mk_proc (p_sz x) (p_pgdir x) (p_kstack x) (p_state x) (p_pid x) v (p_tf x) (p_context x)
    (p_chan x) (p_killed x) (p_ofile x) (p_cwd x) (p_name x) (p_ctime x) (p_stime x) (p_retime
    x) (p_rutime x) (p_priority x) (p_fake x).
Definition with_p_tf (v : trapframe) (x : proc) : proc :=
  mk_proc (p_sz x) (p_pgdir x) (p_kstack x) (p_state x) (p_pid x) (p_parent x) v (p_context x)
    (p_chan x) (p_killed x) (p_ofile x) (p_cwd x) (p_name x) (p_ctime x) (p_stime x) (p_retime
    x) (p_rutime x) (p_priority x) (p_fake x).
Definition with_p_context (v : context) (x : proc) : proc :=
  mk_proc (p_sz x) (p_pgdir x) (p_kstack x) (p_state x) (p_pid x) (p_parent x) (p_tf x) v
    (p_chan x) (p_killed x) (p_ofile x) (p_cwd x) (p_name x) (p_ctime x) (p_stime x) (p_retime
    x) (p_rutime x) (p_priority x) (p_fake x).
Definition with_p_chan (v : option chan) (x : proc) : proc :=
  mk_proc (p_sz x) (p_pgdir x) (p_kstack x) (p_state x) (p_pid x) (p_parent x) (p_tf x)
    (p_context x) v (p_killed x) (p_ofile x) (p_cwd x) (p_name x) (p_ctime x) (p_stime x)
    (p_retime x) (p_rutime x) (p_priority x) (p_fake x).
Definition with_p_killed (v : bool) (x : proc) : proc :=
  mk_proc (p_sz x) (p_pgdir x) (p_kstack x) (p_state x) (p_pid x) (p_parent x) (p_tf x)
    (p_context x) (p_chan x) v (p_ofile x) (p_cwd x) (p_name x) (p_ctime x) (p_stime x)
    (p_retime x) (p_rutime x) (p_priority x) (p_fake x).
Definition with_p_ofile (v : list (option nat)) (x : proc) : proc :=
  mk_proc (p_sz x) (p_pgdir x) (p_kstack x) (p_state x) (p_pid x) (p_parent x) (p_tf x)
    (p_context x) (p_chan x) (p_killed x) v (p_cwd x) (p_name x) (p_ctime x) (p_stime x)
    (p_retime x) (p_rutime x) (p_priority x) (p_fake x).
Definition with_p_cwd (v : option nat) (x : proc) : proc :=
  mk_proc (p_sz x) (p_pgdir x) (p_kstack x) (p_state x) (p_pid x) (p_parent x) (p_tf x)
    (p_context x) (p_chan x) (p_killed x) (p_ofile x) v (p_name x) (p_ctime x) (p_stime x)
    (p_retime x) (p_rutime x) (p_priority x) (p_fake x).
Definition with_p_name (v : list Z) (x : proc) : proc :=
  mk_proc (p_sz x) (p_pgdir x) (p_kstack x) (p_state x) (p_pid x) (p_parent x) (p_tf x)
    (p_context x) (p_chan x) (p_killed x) (p_ofile x) (p_cwd x) v (p_ctime x) (p_stime x)
    (p_retime x) (p_rutime x) (p_priority x) (p_fake x).
Definition with_p_ctime (v : Z) (x : proc) : proc :=
  mk_proc (p_sz x) (p_pgdir x) (p_kstack x) (p_state x) (p_pid x) (p_parent x) (p_tf x)
    (p_context x) (p_chan x) (p_killed x) (p_ofile x) (p_cwd x) (p_name x) v (p_stime x)
    (p_retime x) (p_rutime x) (p_priority x) (p_fake x).
Definition with_p_stime (v : Z) (x : proc) : proc :=
  mk_proc (p_sz x) (p_pgdir x) (p_kstack x) (p_state x) (p_pid x) (p_parent x) (p_tf x)
    (p_context x) (p_chan x) (p_killed x) (p_ofile x) (p_cwd x) (p_name x) (p_ctime x) v
    (p_retime x) (p_rutime x) (p_priority x) (p_fake x).
Definition with_p_retime (v : Z) (x : proc) : proc :=
  mk_proc (p_sz x) (p_pgdir x) (p_kstack x) (p_state x) (p_pid x) (p_parent x) (p_tf x)
    (p_context x) (p_chan x) (p_killed x) (p_ofile x) (p_cwd x) (p_name x) (p_ctime x) (p_stime
    x) v (p_rutime x) (p_priority x) (p_fake x).
Definition with_p_rutime (v : Z) (x : proc) : proc :=
  mk_proc (p_sz x) (p_pgdir x) (p_kstack x) (p_state x) (p_pid x) (p_parent x) (p_tf x)
    (p_context x) (p_chan x) (p_killed x) (p_ofile x) (p_cwd x) (p_name x) (p_ctime x) (p_stime
    x) (p_retime x) v (p_priority x) (p_fake x).
Definition with_p_priority (v : Z) (x : proc) : proc :=
  mk_proc (p_sz x) (p_pgdir x) (p_kstack x) (p_state x) (p_pid x) (p_parent x) (p_tf x)
    (p_context x) (p_chan x) (p_killed x) (p_ofile x) (p_cwd x) (p_name x) (p_ctime x) (p_stime
    x) (p_retime x) (p_rutime x) v (p_fake x).
Definition with_p_fake (v : list Z) (x : proc) : proc :=
  mk_proc (p_sz x) (p_pgdir x) (p_kstack x) (p_state x) (p_pid x) (p_parent x) (p_tf x)
    (p_context x) (p_chan x) (p_killed x) (p_ofile x) (p_cwd x) (p_name x) (p_ctime x) (p_stime
    x) (p_retime x) (p_rutime x) (p_priority x) v.
(** The data of console.c: [input], the command history ([history[10][128]] as
    one array), [cons.locking], [panicked], the CGA text memory, the cursor
    position in the CRT controller, and the bytes sent to the serial port so far. *)
Record cons := mk_cons {
  cn_buf : list Z;
  cn_r : Z;
  cn_w : Z;
  cn_e : Z;
  cn_history : list Z;
  cn_historyIndex : Z;
  cn_cmdCount : Z;
  cn_upCount : Z;
  cn_prevCount : Z;
  cn_locking : bool;
  cn_panicked : bool;
  cn_crt : list Z;
  cn_pos : Z;
  cn_serial : list Z
}.
Definition with_cn_buf (v : list Z) (x : cons) : cons :=
  mk_cons v (cn_r x) (cn_w x) (cn_e x) (cn_history x) (cn_historyIndex x) (cn_cmdCount x)
    (cn_upCount x) (cn_prevCount x) (cn_locking x) (cn_panicked x) (cn_crt x) (cn_pos x)
    (cn_serial x).
Definition with_cn_r (v : Z) (x : cons) : cons :=
  mk_cons (cn_buf x) v (cn_w x) (cn_e x) (cn_history x) (cn_historyIndex x) (cn_cmdCount x)
    (cn_upCount x) (cn_prevCount x) (cn_locking x) (cn_panicked x) (cn_crt x) (cn_pos x)
    (cn_serial x).
Definition with_cn_w (v : Z) (x : cons) : cons :=
  mk_cons (cn_buf x) (cn_r x) v (cn_e x) (cn_history x) (cn_historyIndex x) (cn_cmdCount x)
    (cn_upCount x) (cn_prevCount x) (cn_locking x) (cn_panicked x) (cn_crt x) (cn_pos x)
    (cn_serial x).
Definition with_cn_e (v : Z) (x : cons) : cons :=
  mk_cons (cn_buf x) (cn_r x) (cn_w x) v (cn_history x) (cn_historyIndex x) (cn_cmdCount x)
    (cn_upCount x) (cn_prevCount x) (cn_locking x) (cn_panicked x) (cn_crt x) (cn_pos x)
    (cn_serial x).
Definition with_cn_history (v : list Z) (x : cons) : cons :=
  mk_cons (cn_buf x) (cn_r x) (cn_w x) (cn_e x) v (cn_historyIndex x) (cn_cmdCount x)
    (cn_upCount x) (cn_prevCount x) (cn_locking x) (cn_panicked x) (cn_crt x) (cn_pos x)
    (cn_serial x).
Definition with_cn_historyIndex (v : Z) (x : cons) : cons :=
  mk_cons (cn_buf x) (cn_r x) (cn_w x) (cn_e x) (cn_history x) v (cn_cmdCount x) (cn_upCount x)
    (cn_prevCount x) (cn_locking x) (cn_panicked x) (cn_crt x) (cn_pos x) (cn_serial x).
Definition with_cn_cmdCount (v : Z) (x : cons) : cons :=
  mk_cons (cn_buf x) (cn_r x) (cn_w x) (cn_e x) (cn_history x) (cn_historyIndex x) v (cn_upCount
    x) (cn_prevCount x) (cn_locking x) (cn_panicked x) (cn_crt x) (cn_pos x) (cn_serial x).
Definition with_cn_upCount (v : Z) (x : cons) : cons :=
  mk_cons (cn_buf x) (cn_r x) (cn_w x) (cn_e x) (cn_history x) (cn_historyIndex x) (cn_cmdCount
    x) v (cn_prevCount x) (cn_locking x) (cn_panicked x) (cn_crt x) (cn_pos x) (cn_serial x).
Definition with_cn_prevCount (v : Z) (x : cons) : cons :=
  mk_cons (cn_buf x) (cn_r x) (cn_w x) (cn_e x) (cn_history x) (cn_historyIndex x) (cn_cmdCount
    x) (cn_upCount x) v (cn_locking x) (cn_panicked x) (cn_crt x) (cn_pos x) (cn_serial x).
Definition with_cn_locking (v : bool) (x : cons) : cons :=
  mk_cons (cn_buf x) (cn_r x) (cn_w x) (cn_e x) (cn_history x) (cn_historyIndex x) (cn_cmdCount
    x) (cn_upCount x) (cn_prevCount x) v (cn_panicked x) (cn_crt x) (cn_pos x) (cn_serial x).
Definition with_cn_panicked (v : bool) (x : cons) : cons :=
  mk_cons (cn_buf x) (cn_r x) (cn_w x) (cn_e x) (cn_history x) (cn_historyIndex x) (cn_cmdCount
    x) (cn_upCount x) (cn_prevCount x) (cn_locking x) v (cn_crt x) (cn_pos x) (cn_serial x).
Definition with_cn_crt (v : list Z) (x : cons) : cons :=
  mk_cons (cn_buf x) (cn_r x) (cn_w x) (cn_e x) (cn_history x) (cn_historyIndex x) (cn_cmdCount
    x) (cn_upCount x) (cn_prevCount x) (cn_locking x) (cn_panicked x) v (cn_pos x) (cn_serial
    x).
Definition with_cn_pos (v : Z) (x : cons) : cons :=
  mk_cons (cn_buf x) (cn_r x) (cn_w x) (cn_e x) (cn_history x) (cn_historyIndex x) (cn_cmdCount
    x) (cn_upCount x) (cn_prevCount x) (cn_locking x) (cn_panicked x) (cn_crt x) v (cn_serial
    x).
Definition with_cn_serial (v : list Z) (x : cons) : cons :=
  mk_cons (cn_buf x) (cn_r x) (cn_w x) (cn_e x) (cn_history x) (cn_historyIndex x) (cn_cmdCount
    x) (cn_upCount x) (cn_prevCount x) (cn_locking x) (cn_panicked x) (cn_crt x) (cn_pos x) v.
(** A segment descriptor, and the fields of the task state segment that the
    kernel sets. *)
Record segdesc := mk_seg {
  sd_lim_15_0 : Z; sd_base_15_0 : Z; sd_base_23_16 : Z; sd_type : Z; sd_s : Z; sd_dpl : Z; sd_p : Z;
  sd_lim_19_16 : Z; sd_avl : Z; sd_rsv1 : Z; sd_db : Z; sd_g : Z; sd_base_31_24 : Z }.
Record taskstate := mk_ts { ts_esp0 : Z; ts_ss0 : Z }.

(** The [struct cpu] of the processor that runs, and its address; the
    registers loaded from it: the descriptor table (base and limit), [%gs] and
    the task register.  [proc] is [ks_cur]. *)
Record cpu := mk_cpu {
  c_addr : Z; c_ts : taskstate; c_gdt : list segdesc; c_started : Z; c_cpu : Z;
  c_gdtr : Z * Z; c_gs : Z; c_tr : Z }.

(** What is left of the static data and of the hardware: [kpgdir] of vm.c, the
    page table register and the processor; [first] of forkret; [idequeue] and
    [havedisk1] of ide.c; what has been written to the ports of the disk, last
    first; [uart] of uart.c; the bytes the keyboard controller has to offer and
    [shift] of kbd.c; the bytes the serial port has received. *)
Record misc := mk_misc {
  ms_kpgdir : Z;
  ms_cr3 : Z;
  ms_cpu : cpu;
  ms_first : bool;
  ms_idequeue : option nat;
  ms_havedisk1 : bool;
  ms_ports : list (Z * list Z);
  ms_uart : bool;
  ms_kbd : list Z;
  ms_kbd_shift : Z;
  ms_rx : list Z
}.
Definition with_ms_kpgdir (v : Z) (x : misc) : misc :=
  mk_misc v (ms_cr3 x) (ms_cpu x) (ms_first x) (ms_idequeue x) (ms_havedisk1 x) (ms_ports x)
    (ms_uart x) (ms_kbd x) (ms_kbd_shift x) (ms_rx x).
Definition with_ms_cr3 (v : Z) (x : misc) : misc :=
  mk_misc (ms_kpgdir x) v (ms_cpu x) (ms_first x) (ms_idequeue x) (ms_havedisk1 x) (ms_ports x)
    (ms_uart x) (ms_kbd x) (ms_kbd_shift x) (ms_rx x).
Definition with_ms_cpu (v : cpu) (x : misc) : misc :=
  mk_misc (ms_kpgdir x) (ms_cr3 x) v (ms_first x) (ms_idequeue x) (ms_havedisk1 x) (ms_ports x)
    (ms_uart x) (ms_kbd x) (ms_kbd_shift x) (ms_rx x).
Definition with_ms_first (v : bool) (x : misc) : misc :=
  mk_misc (ms_kpgdir x) (ms_cr3 x) (ms_cpu x) v (ms_idequeue x) (ms_havedisk1 x) (ms_ports x)
    (ms_uart x) (ms_kbd x) (ms_kbd_shift x) (ms_rx x).
Definition with_ms_idequeue (v : option nat) (x : misc) : misc :=
  mk_misc (ms_kpgdir x) (ms_cr3 x) (ms_cpu x) (ms_first x) v (ms_havedisk1 x) (ms_ports x)
    (ms_uart x) (ms_kbd x) (ms_kbd_shift x) (ms_rx x).
Definition with_ms_havedisk1 (v : bool) (x : misc) : misc :=
  mk_misc (ms_kpgdir x) (ms_cr3 x) (ms_cpu x) (ms_first x) (ms_idequeue x) v (ms_ports x)
    (ms_uart x) (ms_kbd x) (ms_kbd_shift x) (ms_rx x).
Definition with_ms_ports (v : list (Z * list Z)) (x : misc) : misc :=
  mk_misc (ms_kpgdir x) (ms_cr3 x) (ms_cpu x) (ms_first x) (ms_idequeue x) (ms_havedisk1 x) v
    (ms_uart x) (ms_kbd x) (ms_kbd_shift x) (ms_rx x).
Definition with_ms_uart (v : bool) (x : misc) : misc :=
  mk_misc (ms_kpgdir x) (ms_cr3 x) (ms_cpu x) (ms_first x) (ms_idequeue x) (ms_havedisk1 x)
    (ms_ports x) v (ms_kbd x) (ms_kbd_shift x) (ms_rx x).
Definition with_ms_kbd (v : list Z) (x : misc) : misc :=
  mk_misc (ms_kpgdir x) (ms_cr3 x) (ms_cpu x) (ms_first x) (ms_idequeue x) (ms_havedisk1 x)
    (ms_ports x) (ms_uart x) v (ms_kbd_shift x) (ms_rx x).
Definition with_ms_kbd_shift (v : Z) (x : misc) : misc :=
  mk_misc (ms_kpgdir x) (ms_cr3 x) (ms_cpu x) (ms_first x) (ms_idequeue x) (ms_havedisk1 x)
    (ms_ports x) (ms_uart x) (ms_kbd x) v (ms_rx x).
Definition with_ms_rx (v : list Z) (x : misc) : misc :=
  mk_misc (ms_kpgdir x) (ms_cr3 x) (ms_cpu x) (ms_first x) (ms_idequeue x) (ms_havedisk1 x)
    (ms_ports x) (ms_uart x) (ms_kbd x) (ms_kbd_shift x) v.
(** ** The machine

    - [ks_held]: the spin locks this processor holds, the last acquired first;
    - [ks_procs], [ks_cur], [ks_nextpid], [ks_initproc], [ks_ticks]: the
      process table, the current process, and the counters of proc.c and
      trap.c;
    - [ks_mem], [ks_freelist], [ks_use_lock]: the pages of memory by kernel
      address, and [kmem];
    - [ks_disk]: the sectors of the disk; [ks_wtrace]: the sector writes made
      since the machine started, oldest first (what a crash can cut short);
    - [ks_bufs]: [bcache.buf] followed by [bcache.head];
    - [ks_log], [ks_inodes], [ks_files]: [log], [icache.inode], [ftable.file];
    - [ks_devsw]: which major device numbers have read and write functions;
    - [ks_pipes]: the pipes, by the address of the page that holds them;
    - [ks_cons]: the console; [ks_misc]: the rest. *)

Record kstate := mk_kstate {
  ks_held : list lockid;
  ks_procs : list proc;
  ks_cur : option nat;
  ks_nextpid : Z;
  ks_initproc : option nat;
  ks_ticks : Z;
  ks_mem : gmap Z (list Z);
  ks_freelist : Z;
  ks_use_lock : bool;
  ks_disk : list (list Z);
  ks_wtrace : list (Z * list Z);
  ks_bufs : list buf;
  ks_log : log;
  ks_inodes : list inode;
  ks_files : list file;
  ks_devsw : list bool;
  ks_pipes : gmap Z pipe;
  ks_cons : cons;
  ks_misc : misc
}.
Definition set_held (v : list lockid) (x : kstate) : kstate :=
  mk_kstate v (ks_procs x) (ks_cur x) (ks_nextpid x) (ks_initproc x) (ks_ticks x) (ks_mem x)
    (ks_freelist x) (ks_use_lock x) (ks_disk x) (ks_wtrace x) (ks_bufs x) (ks_log x) (ks_inodes
    x) (ks_files x) (ks_devsw x) (ks_pipes x) (ks_cons x) (ks_misc x).
Definition set_procs (v : list proc) (x : kstate) : kstate :=
  mk_kstate (ks_held x) v (ks_cur x) (ks_nextpid x) (ks_initproc x) (ks_ticks x) (ks_mem x)
    (ks_freelist x) (ks_use_lock x) (ks_disk x) (ks_wtrace x) (ks_bufs x) (ks_log x) (ks_inodes
    x) (ks_files x) (ks_devsw x) (ks_pipes x) (ks_cons x) (ks_misc x).
Definition set_cur (v : option nat) (x : kstate) : kstate :=
  mk_kstate (ks_held x) (ks_procs x) v (ks_nextpid x) (ks_initproc x) (ks_ticks x) (ks_mem x)
    (ks_freelist x) (ks_use_lock x) (ks_disk x) (ks_wtrace x) (ks_bufs x) (ks_log x) (ks_inodes
    x) (ks_files x) (ks_devsw x) (ks_pipes x) (ks_cons x) (ks_misc x).
Definition set_nextpid (v : Z) (x : kstate) : kstate :=
  mk_kstate (ks_held x) (ks_procs x) (ks_cur x) v (ks_initproc x) (ks_ticks x) (ks_mem x)
    (ks_freelist x) (ks_use_lock x) (ks_disk x) (ks_wtrace x) (ks_bufs x) (ks_log x) (ks_inodes
    x) (ks_files x) (ks_devsw x) (ks_pipes x) (ks_cons x) (ks_misc x).
Definition set_initproc (v : option nat) (x : kstate) : kstate :=
  mk_kstate (ks_held x) (ks_procs x) (ks_cur x) (ks_nextpid x) v (ks_ticks x) (ks_mem x)
    (ks_freelist x) (ks_use_lock x) (ks_disk x) (ks_wtrace x) (ks_bufs x) (ks_log x) (ks_inodes
    x) (ks_files x) (ks_devsw x) (ks_pipes x) (ks_cons x) (ks_misc x).
Definition set_ticks (v : Z) (x : kstate) : kstate :=
  mk_kstate (ks_held x) (ks_procs x) (ks_cur x) (ks_nextpid x) (ks_initproc x) v (ks_mem x)
    (ks_freelist x) (ks_use_lock x) (ks_disk x) (ks_wtrace x) (ks_bufs x) (ks_log x) (ks_inodes
    x) (ks_files x) (ks_devsw x) (ks_pipes x) (ks_cons x) (ks_misc x).
Definition set_mem (v : gmap Z (list Z)) (x : kstate) : kstate :=
  mk_kstate (ks_held x) (ks_procs x) (ks_cur x) (ks_nextpid x) (ks_initproc x) (ks_ticks x) v
    (ks_freelist x) (ks_use_lock x) (ks_disk x) (ks_wtrace x) (ks_bufs x) (ks_log x) (ks_inodes
    x) (ks_files x) (ks_devsw x) (ks_pipes x) (ks_cons x) (ks_misc x).
Definition set_freelist (v : Z) (x : kstate) : kstate :=
  mk_kstate (ks_held x) (ks_procs x) (ks_cur x) (ks_nextpid x) (ks_initproc x) (ks_ticks x)
    (ks_mem x) v (ks_use_lock x) (ks_disk x) (ks_wtrace x) (ks_bufs x) (ks_log x) (ks_inodes x)
    (ks_files x) (ks_devsw x) (ks_pipes x) (ks_cons x) (ks_misc x).
Definition set_use_lock (v : bool) (x : kstate) : kstate :=
  mk_kstate (ks_held x) (ks_procs x) (ks_cur x) (ks_nextpid x) (ks_initproc x) (ks_ticks x)
    (ks_mem x) (ks_freelist x) v (ks_disk x) (ks_wtrace x) (ks_bufs x) (ks_log x) (ks_inodes x)
    (ks_files x) (ks_devsw x) (ks_pipes x) (ks_cons x) (ks_misc x).
Definition set_disk (v : list (list Z)) (x : kstate) : kstate :=
  mk_kstate (ks_held x) (ks_procs x) (ks_cur x) (ks_nextpid x) (ks_initproc x) (ks_ticks x)
    (ks_mem x) (ks_freelist x) (ks_use_lock x) v (ks_wtrace x) (ks_bufs x) (ks_log x) (ks_inodes
    x) (ks_files x) (ks_devsw x) (ks_pipes x) (ks_cons x) (ks_misc x).
Definition set_wtrace (v : list (Z * list Z)) (x : kstate) : kstate :=
  mk_kstate (ks_held x) (ks_procs x) (ks_cur x) (ks_nextpid x) (ks_initproc x) (ks_ticks x)
    (ks_mem x) (ks_freelist x) (ks_use_lock x) (ks_disk x) v (ks_bufs x) (ks_log x) (ks_inodes
    x) (ks_files x) (ks_devsw x) (ks_pipes x) (ks_cons x) (ks_misc x).
Definition set_bufs (v : list buf) (x : kstate) : kstate :=
  mk_kstate (ks_held x) (ks_procs x) (ks_cur x) (ks_nextpid x) (ks_initproc x) (ks_ticks x)
    (ks_mem x) (ks_freelist x) (ks_use_lock x) (ks_disk x) (ks_wtrace x) v (ks_log x) (ks_inodes
    x) (ks_files x) (ks_devsw x) (ks_pipes x) (ks_cons x) (ks_misc x).
Definition set_log (v : log) (x : kstate) : kstate :=
  mk_kstate (ks_held x) (ks_procs x) (ks_cur x) (ks_nextpid x) (ks_initproc x) (ks_ticks x)
    (ks_mem x) (ks_freelist x) (ks_use_lock x) (ks_disk x) (ks_wtrace x) (ks_bufs x) v
    (ks_inodes x) (ks_files x) (ks_devsw x) (ks_pipes x) (ks_cons x) (ks_misc x).
Definition set_inodes (v : list inode) (x : kstate) : kstate :=
  mk_kstate (ks_held x) (ks_procs x) (ks_cur x) (ks_nextpid x) (ks_initproc x) (ks_ticks x)
    (ks_mem x) (ks_freelist x) (ks_use_lock x) (ks_disk x) (ks_wtrace x) (ks_bufs x) (ks_log x)
    v (ks_files x) (ks_devsw x) (ks_pipes x) (ks_cons x) (ks_misc x).
Definition set_files (v : list file) (x : kstate) : kstate :=
  mk_kstate (ks_held x) (ks_procs x) (ks_cur x) (ks_nextpid x) (ks_initproc x) (ks_ticks x)
    (ks_mem x) (ks_freelist x) (ks_use_lock x) (ks_disk x) (ks_wtrace x) (ks_bufs x) (ks_log x)
    (ks_inodes x) v (ks_devsw x) (ks_pipes x) (ks_cons x) (ks_misc x).
Definition set_devsw (v : list bool) (x : kstate) : kstate :=
  mk_kstate (ks_held x) (ks_procs x) (ks_cur x) (ks_nextpid x) (ks_initproc x) (ks_ticks x)
    (ks_mem x) (ks_freelist x) (ks_use_lock x) (ks_disk x) (ks_wtrace x) (ks_bufs x) (ks_log x)
    (ks_inodes x) (ks_files x) v (ks_pipes x) (ks_cons x) (ks_misc x).
Definition set_pipes (v : gmap Z pipe) (x : kstate) : kstate :=
  mk_kstate (ks_held x) (ks_procs x) (ks_cur x) (ks_nextpid x) (ks_initproc x) (ks_ticks x)
    (ks_mem x) (ks_freelist x) (ks_use_lock x) (ks_disk x) (ks_wtrace x) (ks_bufs x) (ks_log x)
    (ks_inodes x) (ks_files x) (ks_devsw x) v (ks_cons x) (ks_misc x).
Definition set_cons (v : cons) (x : kstate) : kstate :=
  mk_kstate (ks_held x) (ks_procs x) (ks_cur x) (ks_nextpid x) (ks_initproc x) (ks_ticks x)
    (ks_mem x) (ks_freelist x) (ks_use_lock x) (ks_disk x) (ks_wtrace x) (ks_bufs x) (ks_log x)
    (ks_inodes x) (ks_files x) (ks_devsw x) (ks_pipes x) v (ks_misc x).
Definition set_misc (v : misc) (x : kstate) : kstate :=
  mk_kstate (ks_held x) (ks_procs x) (ks_cur x) (ks_nextpid x) (ks_initproc x) (ks_ticks x)
    (ks_mem x) (ks_freelist x) (ks_use_lock x) (ks_disk x) (ks_wtrace x) (ks_bufs x) (ks_log x)
    (ks_inodes x) (ks_files x) (ks_devsw x) (ks_pipes x) (ks_cons x) v.

(** The monad of kernel code. *)
Abbreviation K := (M kstate).

(** ** Access to the tables

    [bcache.buf], [icache.inode], [ftable.file] and [ptable.proc] are arrays;
    an index outside them faults. *)

Definition get_buf (i : nat) : K buf := λ s,
  match ks_bufs s !! i with Some x => Ok x s | None => Fault end.
Definition upd_buf (i : nat) (f : buf → buf) : K () := λ s,
  match ks_bufs s !! i with
  | Some _ => Ok () (set_bufs (alter f i (ks_bufs s)) s)
  | None => Fault
  end.

Definition get_inode (i : nat) : K inode := λ s,
  match ks_inodes s !! i with Some x => Ok x s | None => Fault end.
Definition upd_inode (i : nat) (f : inode → inode) : K () := λ s,
  match ks_inodes s !! i with
  | Some _ => Ok () (set_inodes (alter f i (ks_inodes s)) s)
  | None => Fault
  end.

Definition get_file (i : nat) : K file := λ s,
  match ks_files s !! i with Some x => Ok x s | None => Fault end.
Definition upd_file (i : nat) (f : file → file) : K () := λ s,
  match ks_files s !! i with
  | Some _ => Ok () (set_files (alter f i (ks_files s)) s)
  | None => Fault
  end.

Definition get_proc (i : nat) : K proc := λ s,
  match ks_procs s !! i with Some x => Ok x s | None => Fault end.
Definition upd_proc (i : nat) (f : proc → proc) : K () := λ s,
  match ks_procs s !! i with
  | Some _ => Ok () (set_procs (alter f i (ks_procs s)) s)
  | None => Fault
  end.

Section Access.
Context (s : kstate).

Lemma wp_get_buf i x (Q : buf → kstate → Prop) :
  ks_bufs s !! i = Some x → Q x s → wp (get_buf i) Q s.
Proof. unfold wp, get_buf. by intros ->. Qed.

Lemma get_buf_runs i x : ks_bufs s !! i = Some x → runs_to (get_buf i) s x s.
Proof. unfold runs_to, get_buf. by intros ->. Qed.

Lemma wp_upd_buf i x f (Q : () → kstate → Prop) :
  ks_bufs s !! i = Some x →
  Q () (set_bufs (<[i:=f x]> (ks_bufs s)) s) → wp (upd_buf i f) Q s.
Proof. intros H. unfold wp, upd_buf. rewrite H. by rewrite (alter_insert _ _ _ _ H). Qed.

Lemma wp_get_inode i x (Q : inode → kstate → Prop) :
  ks_inodes s !! i = Some x → Q x s → wp (get_inode i) Q s.
Proof. unfold wp, get_inode. by intros ->. Qed.

Lemma get_inode_runs i x : ks_inodes s !! i = Some x → runs_to (get_inode i) s x s.
Proof. unfold runs_to, get_inode. by intros ->. Qed.

Lemma wp_upd_inode i x f (Q : () → kstate → Prop) :
  ks_inodes s !! i = Some x →
  Q () (set_inodes (<[i:=f x]> (ks_inodes s)) s) → wp (upd_inode i f) Q s.
Proof. intros H. unfold wp, upd_inode. rewrite H. by rewrite (alter_insert _ _ _ _ H). Qed.

Lemma wp_get_file i x (Q : file → kstate → Prop) :
  ks_files s !! i = Some x → Q x s → wp (get_file i) Q s.
Proof. unfold wp, get_file. by intros ->. Qed.

Lemma get_file_runs i x : ks_files s !! i = Some x → runs_to (get_file i) s x s.
Proof. unfold runs_to, get_file. by intros ->. Qed.

Lemma wp_upd_file i x f (Q : () → kstate → Prop) :
  ks_files s !! i = Some x →
  Q () (set_files (<[i:=f x]> (ks_files s)) s) → wp (upd_file i f) Q s.
Proof. intros H. unfold wp, upd_file. rewrite H. by rewrite (alter_insert _ _ _ _ H). Qed.

Lemma wp_get_proc i x (Q : proc → kstate → Prop) :
  ks_procs s !! i = Some x → Q x s → wp (get_proc i) Q s.
Proof. unfold wp, get_proc. by intros ->. Qed.

Lemma get_proc_runs i x : ks_procs s !! i = Some x → runs_to (get_proc i) s x s.
Proof. unfold runs_to, get_proc. by intros ->. Qed.

Lemma wp_upd_proc i x f (Q : () → kstate → Prop) :
  ks_procs s !! i = Some x →
  Q () (set_procs (<[i:=f x]> (ks_procs s)) s) → wp (upd_proc i f) Q s.
Proof. intros H. unfold wp, upd_proc. rewrite H. by rewrite (alter_insert _ _ _ _ H). Qed.

End Access.

(** Symbolic execution of a table access. *)
Ltac wp_table :=
  lazymatch goal with
  | |- wp (mbind _ _) _ _ => apply wp_bind
  | _ => idtac
  end;
  lazymatch goal with
  | |- wp (get_buf _) _ _ => eapply wp_get_buf
  | |- wp (upd_buf _ _) _ _ => eapply wp_upd_buf
  | |- wp (get_inode _) _ _ => eapply wp_get_inode
  | |- wp (upd_inode _ _) _ _ => eapply wp_upd_inode
  | |- wp (get_file _) _ _ => eapply wp_get_file
  | |- wp (upd_file _ _) _ _ => eapply wp_upd_file
  | |- wp (get_proc _) _ _ => eapply wp_get_proc
  | |- wp (upd_proc _ _) _ _ => eapply wp_upd_proc
  end.

(** ** The state at power on: all static data is zero *)

Definition zero_buf : buf := mk_buf 0 0 0 0 0 None (replicate 512 0).
Definition zero_log : log := mk_log 0 0 false 0 0 (replicate 10 0).
Definition zero_inode : inode := mk_inode 0 0 0 0 0 0 0 0 0 (replicate 12 0).
Definition zero_file : file := mk_file FD_NONE 0 false false 0 None 0.
Definition zero_tf : trapframe := mk_tf 0 0 0 0 0 0 0 0 0 0 0 0 0 0 0 0 0 0 0.
Definition zero_context : context := mk_context 0 0 0 0 0.
Definition zero_proc : proc :=
  mk_proc 0 0 0 UNUSED 0 None zero_tf zero_context None false (replicate NOFILE None) None
    (replicate 16 0) 0 0 0 0 0 (replicate 8 0).

Definition zero_cons : cons :=
  mk_cons (replicate 128 0) 0 0 0 (replicate 1280 0) 0 0 0 0 false false (replicate 2000 0) 0 [].

Definition zero_seg : segdesc := mk_seg 0 0 0 0 0 0 0 0 0 0 0 0 0.
Definition zero_cpu : cpu := mk_cpu 0 (mk_ts 0 0) (replicate 7 zero_seg) 0 0 (0, 0) 0 0.
Definition zero_misc : misc := mk_misc 0 0 zero_cpu true None false [] false [] 0 [].

(** [nextpid] and [first] of forkret are the static data that start otherwise. *)
Definition bss (dk : list (list Z)) : kstate :=
  mk_kstate [] (replicate NPROC zero_proc) None 1 None 0 ∅ 0 false dk []
    (replicate (S NBUF) zero_buf) zero_log (replicate NINODE zero_inode)
    (replicate NFILE zero_file) (replicate 10 false) ∅ zero_cons zero_misc.
