(* ===== verification/Sched.v ===== *)
(** * Sched: locks as kernel code uses them, and sleep and wakeup

    The interface the rest of the kernel is written against: spin locks as
    the set of locks this processor holds (Spinlock.v gives the processors'
    view and shows that it behaves so), and the part of proc.c that suspends
    and wakes processes. *)

From S2P Require Import Prelude Bytes Kernel.

(** ** Locks

    [acquire] of a lock this processor already holds panics, as does
    [release] of one it does not hold. *)

Definition holding (lk : lockid) : K bool := gets (λ s, bool_decide (lk ∈ ks_held s)).

Definition acquire (lk : lockid) : K () :=
  h ← holding lk;
  if (h : bool) then panic "acquire" else modify (λ s, set_held (lk :: ks_held s) s).

Definition release (lk : lockid) : K () :=
  h ← holding lk;
  if (h : bool)
  then modify (λ s, set_held (filter (λ l, l ≠ lk) (ks_held s)) s)
  else panic "release".

(** The current process; [proc] is null while no process runs. *)
Definition myproc : K nat := p ← gets ks_cur; the p.

(** ** sched, sleep, wakeup, yield, kill *)

(** [swtch] to the scheduler ends the run of this process: [Sleep]. *)
Definition swtch {A} : K A := λ s, Sleep s.

(** [readeflags() & FL_IF]: a processor that holds a lock runs with interrupts
    off (Spinlock.v). *)
Definition interruptible : K bool := gets (λ s, bool_decide (ks_held s = [])).

(** [cpu->intena] is saved and restored around the switch; it belongs to the
    processor and is not part of this state. *)
Definition sched {A} : K A :=
  h ← holding L_ptable;
  if negb h then panic "sched ptable.lock" else
  ncli ← gets (λ s, length (ks_held s));
  if negb (bool_decide (ncli = 1%nat)) then panic "sched locks" else
  p ← myproc; pr ← get_proc p;
  if bool_decide (p_state pr = RUNNING) then panic "sched running" else
  i ← interruptible;
  if (i : bool) then panic "sched interruptible" else swtch.

Definition sleep {A} (c : chan) (lk : lockid) : K A :=
  cur ← gets ks_cur;
  match cur with
  | None => panic "sleep"
  | Some p =>
      when (bool_decide (lk ≠ L_ptable)) (acquire L_ptable;; release lk);;
      upd_proc p (with_p_chan (Some c));;
      upd_proc p (with_p_state SLEEPING);;
      sched
  end.

(** What [sleep] does when the scheduler runs the process again. *)
Definition sleep_resume (lk : lockid) : K () :=
  p ← myproc;
  upd_proc p (with_p_chan None);;
  when (bool_decide (lk ≠ L_ptable)) (release L_ptable;; acquire lk).

Definition wakeup1_proc (c : chan) (p : proc) : proc :=
  if bool_decide (p_state p = SLEEPING ∧ p_chan p = Some c)
  then with_p_state RUNNABLE p else p.

Definition wakeup1 (c : chan) : K () :=
  modify (λ s, set_procs (wakeup1_proc c <$> ks_procs s) s).

Definition wakeup (c : chan) : K () :=
  acquire L_ptable;; wakeup1 c;; release L_ptable.

Definition yield {A} : K A :=
  acquire L_ptable;;
  p ← myproc;
  upd_proc p (with_p_state RUNNABLE);;
  sched.

(** What [yield] does when the scheduler runs the process again. *)
Definition yield_resume : K () := release L_ptable.

Definition kill (pid : Z) : K Z :=
  acquire L_ptable;;
  procs ← gets ks_procs;
  match find_from (λ p, p_pid p =? pid) 0 procs with
  | Some i =>
      upd_proc i (with_p_killed true);;
      p ← get_proc i;
      when (bool_decide (p_state p = SLEEPING)) (upd_proc i (with_p_state RUNNABLE));;
      release L_ptable;;
      mret 0
  | None => release L_ptable;; mret (-1)
  end.

(** ** Specifications *)

Lemma wp_acquire lk (Q : () → kstate → Prop) s :
  lk ∉ ks_held s → Q () (set_held (lk :: ks_held s) s) → wp (acquire lk) Q s.
Proof.
  intros H HQ. unfold acquire, holding. wp_steps.
  by rewrite bool_decide_false by done.
Qed.

Lemma acquire_runs lk s :
  lk ∉ ks_held s → runs_to (acquire lk) s () (set_held (lk :: ks_held s) s).
Proof.
  intros H. unfold runs_to, acquire, holding, mbind, M_bind, gets. by rewrite bool_decide_false by done.
Qed.

(** Releasing the lock acquired last restores the held locks. *)
Lemma wp_release lk h (Q : () → kstate → Prop) s :
  ks_held s = lk :: h → lk ∉ h → Q () (set_held h s) → wp (release lk) Q s.
Proof.
  intros Hh Hn HQ. unfold release, holding. wp_steps.
  rewrite Hh, bool_decide_true by (by left). wp_steps.
  rewrite Hh, filter_cons_False by naive_solver. by rewrite filter_ne_id.
Qed.

Lemma wp_wakeup c (Q : () → kstate → Prop) s :
  L_ptable ∉ ks_held s →
  Q () (set_procs (wakeup1_proc c <$> ks_procs s) s) → wp (wakeup c) Q s.
Proof.
  intros H HQ. unfold wakeup, wakeup1. wp_step. apply wp_acquire; [done|]. wp_steps.
  by eapply wp_release.
Qed.

(** A process that calls [sleep] with one lock held gives the processor up
    with [ptable.lock] held instead, and is marked as sleeping on its channel. *)
Lemma sleep_runs {A} c lk p pr s :
  lk ≠ L_ptable → ks_held s = [lk] → ks_cur s = Some p → ks_procs s !! p = Some pr →
  sleep (A:=A) c lk s =
  Sleep (set_procs (<[p:=with_p_state SLEEPING (with_p_chan (Some c) pr)]> (ks_procs s))
    (set_held [L_ptable] s)).
Proof.
  intros Hne Hh Hc Hp. pose proof (lookup_lt_Some _ _ _ Hp) as Hlt.
  unfold sleep, mbind, M_bind, gets. rewrite Hc. rewrite bool_decide_true by done.
  unfold when, acquire, release, holding, mbind, M_bind, gets. rewrite Hh.
  rewrite bool_decide_false by set_solver. unfold modify. simpl.
  rewrite Hh, bool_decide_true by set_solver. unfold upd_proc. simpl.
  rewrite Hp. simpl. rewrite (alter_insert _ _ _ _ Hp), list_lookup_insert_eq by done. simpl.
  rewrite (alter_insert _ _ _ _ (list_lookup_insert_eq _ _ _ Hlt)), list_insert_insert_eq.
  unfold sched, holding, mbind, M_bind, gets. simpl.
  rewrite filter_cons_True, filter_cons_False, filter_nil by (naive_solver || done).
  rewrite bool_decide_true by set_solver. simpl. unfold myproc, mbind, M_bind, gets. simpl. rewrite Hc. simpl.
  unfold get_proc. simpl. rewrite list_lookup_insert_eq by done. simpl. unfold swtch.
  by f_equal.
Qed.
