(* ===== verification/Spinlock.v ===== *)
(** * Spinlock: spin locks and processors (spinlock.c)

    The processors' view of locks: the lock word, the exchange instruction,
    the interrupt flag and the nesting of [pushcli].  Each function is cut at
    the points where another processor can see its effects, and the pieces
    interleave.  The last section relates this to the locks of Sched.v, where
    a lock is held or free. *)

From S2P Require Import Prelude Bytes Kernel Sched.

(** ** Data *)

(** [struct spinlock] without its name; [cpu] is the index of the processor. *)
Record spinlock := mk_spinlock { lk_locked : Z; lk_cpu : option nat; lk_pcs : list Z }.

(** Where a processor is in [acquire] or [release] of a lock. *)
Inductive pc :=
| Run                  (** in other code *)
| Spinning (lk : nat)  (** in the loop of [acquire] *)
| Acquired (lk : nat)  (** after the loop, before [lk->cpu = cpu] *)
| Releasing (lk : nat) (** after [lk->cpu = 0], before the exchange *)
| Released (lk : nat). (** before [popcli] *)

(** The fields of [struct cpu] that locks use, the interrupt flag of the
    processor, its position, and the locks it has acquired. *)
Record cpu := mk_cpu {
  c_ncli : Z; c_intena : bool; c_if : bool; c_pc : pc; c_held : list nat }.

Record machine := mk_machine {
  m_locks : list spinlock; m_cpus : list cpu; m_words : gmap Z Z }.

Abbreviation P := (M machine).

Definition get_lock (lk : nat) : P spinlock := l ← gets m_locks; the (l !! lk).
Definition upd_lock (lk : nat) (f : spinlock → spinlock) : P () :=
  l ← gets m_locks; x ← the (l !! lk);
  modify (λ m, mk_machine (<[lk:=f x]> l) (m_cpus m) (m_words m)).
Definition get_cpu (c : nat) : P cpu := l ← gets m_cpus; the (l !! c).
Definition upd_cpu (c : nat) (f : cpu → cpu) : P () :=
  l ← gets m_cpus; x ← the (l !! c);
  modify (λ m, mk_machine (m_locks m) (<[c:=f x]> l) (m_words m)).

Definition set_pc (c : nat) (p : pc) : P () :=
  upd_cpu c (λ x, mk_cpu (c_ncli x) (c_intena x) (c_if x) p (c_held x)).
Definition set_if (c : nat) (b : bool) : P () :=
  upd_cpu c (λ x, mk_cpu (c_ncli x) (c_intena x) b (c_pc x) (c_held x)).
Definition set_lheld (c : nat) (h : list nat) : P () :=
  upd_cpu c (λ x, mk_cpu (c_ncli x) (c_intena x) (c_if x) (c_pc x) h).

(** ** The code *)

Definition initlock (lk : nat) : P () := upd_lock lk (λ x, mk_spinlock 0 None (lk_pcs x)).

Definition pushcli (c : nat) : P () :=
  x ← get_cpu c;
  let eflags := c_if x in
  set_if c false;;
  upd_cpu c (λ x, mk_cpu (c_ncli x + 1) (if c_ncli x =? 0 then eflags else c_intena x)
    (c_if x) (c_pc x) (c_held x)).

Definition popcli (c : nat) : P () :=
  x ← get_cpu c;
  if c_if x then panic "popcli - interruptible" else
  upd_cpu c (λ x, mk_cpu (c_ncli x - 1) (c_intena x) (c_if x) (c_pc x) (c_held x));;
  x ← get_cpu c;
  if c_ncli x <? 0 then panic "popcli" else
  when ((c_ncli x =? 0) && c_intena x) (set_if c true).

Definition holding (c lk : nat) : P bool :=
  x ← get_lock lk;
  mret (negb (lk_locked x =? 0) && bool_decide (lk_cpu x = Some c)).

(** [xchg(&lk->locked, v)] *)
Definition xchg (lk : nat) (v : Z) : P Z :=
  x ← get_lock lk;
  upd_lock lk (λ x, mk_spinlock v (lk_cpu x) (lk_pcs x));;
  mret (lk_locked x).

(** The program counters on the stack whose frame pointer chain starts at
    [ebp]; at most [n] of them, then zeros. *)
Fixpoint callerpcs (words : gmap Z Z) (ebp : Z) (n : nat) : option (list Z) :=
  match n with
  | O => Some []
  | S n' =>
      if (ebp =? 0) || (ebp <? KERNBASE) || (ebp =? 0xffffffff) then Some (replicate n 0) else
      eip ← words !! (ebp + 4);
      ebp' ← words !! ebp;
      l ← callerpcs words ebp' n';
      Some (eip :: l)
  end.

Definition getcallerpcs (words : gmap Z Z) (v : Z) : option (list Z) := callerpcs words (v - 8) 10.

(** [acquire], in three pieces: up to the loop, one turn of the loop, and the
    rest; [v] is the address of its argument. *)
Definition acquire_enter (c lk : nat) : P () :=
  pushcli c;;
  h ← holding c lk;
  if (h : bool) then panic "acquire" else set_pc c (Spinning lk).

Definition acquire_spin (c lk : nat) : P () :=
  v ← xchg lk 1;
  when (v =? 0) (set_pc c (Acquired lk)).

Definition acquire_done (c lk : nat) (v : Z) : P () :=
  w ← gets m_words;
  pcs ← the (getcallerpcs w v);
  upd_lock lk (λ x, mk_spinlock (lk_locked x) (Some c) pcs);;
  x ← get_cpu c;
  set_lheld c (lk :: c_held x);;
  set_pc c Run.

(** [release], in three pieces. *)
Definition release_enter (c lk : nat) : P () :=
  h ← holding c lk;
  if negb h then panic "release" else
  upd_lock lk (λ x, mk_spinlock (lk_locked x) None (<[0%nat:=0]> (lk_pcs x)));;
  x ← get_cpu c;
  set_lheld c (filter (λ l, l ≠ lk) (c_held x));;
  set_pc c (Releasing lk).

Definition release_xchg (c lk : nat) : P () := xchg lk 0;; set_pc c (Released lk).

Definition release_done (c : nat) : P () := popcli c;; set_pc c Run.

(** ** Interleaving

    A processor in other code may call [acquire] or [release] of any lock; a
    processor inside one of them takes its next piece. *)

Inductive lstep : machine → machine → Prop :=
| step_acquire c x lk m m' :
    m_cpus m !! c = Some x → c_pc x = Run → runs_to (acquire_enter c lk) m () m' → lstep m m'
| step_spin c x lk m m' :
    m_cpus m !! c = Some x → c_pc x = Spinning lk → runs_to (acquire_spin c lk) m () m' → lstep m m'
| step_done c x lk v m m' :
    m_cpus m !! c = Some x → c_pc x = Acquired lk → runs_to (acquire_done c lk v) m () m' → lstep m m'
| step_release c x lk m m' :
    m_cpus m !! c = Some x → c_pc x = Run → runs_to (release_enter c lk) m () m' → lstep m m'
| step_xchg c x lk m m' :
    m_cpus m !! c = Some x → c_pc x = Releasing lk → runs_to (release_xchg c lk) m () m' → lstep m m'
| step_popcli c x lk m m' :
    m_cpus m !! c = Some x → c_pc x = Released lk → runs_to (release_done c) m () m' → lstep m m'.

(** The processor is responsible for the lock word of [lk]. *)
Definition owns (x : cpu) (lk : nat) : Prop :=
  lk ∈ c_held x ∨ c_pc x = Acquired lk ∨ c_pc x = Releasing lk.

(** Levels of [pushcli] the processor is in. *)
Definition depth (x : cpu) : Z :=
  Z.of_nat (length (c_held x)) + match c_pc x with Run => 0 | _ => 1 end.

Record lock_inv (m : machine) : Prop := {
  li_owner : ∀ lk l, m_locks m !! lk = Some l → lk_locked l ≠ 0 →
    ∃ c x, m_cpus m !! c = Some x ∧ owns x lk;
  li_locked : ∀ c x lk l, m_cpus m !! c = Some x → m_locks m !! lk = Some l → owns x lk → lk_locked l ≠ 0;
  li_unique : ∀ c c' x x' lk, m_cpus m !! c = Some x → m_cpus m !! c' = Some x' →
    owns x lk → owns x' lk → c = c';
  li_cpu : ∀ lk l c, m_locks m !! lk = Some l → lk_cpu l = Some c →
    ∃ x, m_cpus m !! c = Some x ∧ lk ∈ c_held x;
  li_held : ∀ c x lk, m_cpus m !! c = Some x → lk ∈ c_held x →
    ∃ l, m_locks m !! lk = Some l ∧ lk_cpu l = Some c;
  li_nodup : ∀ c x, m_cpus m !! c = Some x → NoDup (c_held x) ∧
    ∀ lk, c_pc x = Acquired lk ∨ c_pc x = Releasing lk → lk ∉ c_held x;
  li_ncli : ∀ c x, m_cpus m !! c = Some x → c_ncli x = depth x ∧ (0 < depth x → c_if x = false);
}.

(** ** What each piece does *)

Definition with_cpu (m : machine) (c : nat) (x : cpu) : machine :=
  mk_machine (m_locks m) (<[c:=x]> (m_cpus m)) (m_words m).
Definition with_lock (m : machine) (lk : nat) (l : spinlock) : machine :=
  mk_machine (<[lk:=l]> (m_locks m)) (m_cpus m) (m_words m).

Lemma lookup_upd {A} (l : list A) i j a b :
  l !! i = Some a → <[i:=b]> l !! j = if decide (j = i) then Some b else l !! j.
Proof.
  intros H. case_decide as E.
  - subst. apply list_lookup_insert_eq. by eapply lookup_lt_Some.
  - by apply list_lookup_insert_ne.
Qed.

Lemma get_cpu_run m c x : m_cpus m !! c = Some x → runs_to (get_cpu c) m x m.
Proof. intros H. unfold runs_to, get_cpu, mbind, M_bind, gets. by rewrite H. Qed.
Lemma get_lock_run m lk l : m_locks m !! lk = Some l → runs_to (get_lock lk) m l m.
Proof. intros H. unfold runs_to, get_lock, mbind, M_bind, gets. by rewrite H. Qed.
Lemma upd_cpu_run m c x f : m_cpus m !! c = Some x → runs_to (upd_cpu c f) m () (with_cpu m c (f x)).
Proof. intros H. unfold runs_to, upd_cpu, mbind, M_bind, gets. by rewrite H. Qed.
Lemma upd_lock_run m lk l f :
  m_locks m !! lk = Some l → runs_to (upd_lock lk f) m () (with_lock m lk (f l)).
Proof. intros H. unfold runs_to, upd_lock, mbind, M_bind, gets. by rewrite H. Qed.
Lemma get_lock_inv m lk l m' : runs_to (get_lock lk) m l m' → m_locks m !! lk = Some l ∧ m' = m.
Proof.
  unfold runs_to, get_lock, mbind, M_bind, gets. destruct (m_locks m !! lk); [|done].
  by intros [= -> ->].
Qed.
Lemma with_cpu_lookup m c x y : m_cpus m !! c = Some x → m_cpus (with_cpu m c y) !! c = Some y.
Proof. intros H. cbn. by rewrite (lookup_upd _ _ _ _ _ H), decide_True. Qed.
Lemma with_lock_lookup m lk x y : m_locks m !! lk = Some x → m_locks (with_lock m lk y) !! lk = Some y.
Proof. intros H. cbn. by rewrite (lookup_upd _ _ _ _ _ H), decide_True. Qed.
Lemma upd_cpu_run_eq m c x f m' :
  m_cpus m !! c = Some x → m' = with_cpu m c (f x) → runs_to (upd_cpu c f) m () m'.
Proof. intros H ->. by apply upd_cpu_run. Qed.
Lemma with_cpu_cpu m c x y : with_cpu (with_cpu m c x) c y = with_cpu m c y.
Proof. unfold with_cpu. cbn. by rewrite list_insert_insert_eq. Qed.

(** Run the processor-local call at the head of the goal. *)
Ltac lrun :=
  lazymatch goal with
  | |- runs_to (mbind _ _) _ _ _ => eapply runs_bind; [lrun|cbn beta]
  | |- runs_to (get_cpu _) _ _ _ => eapply get_cpu_run; eauto using with_cpu_lookup
  | |- runs_to (get_lock _) _ _ _ => eapply get_lock_run; eauto using with_lock_lookup
  | |- runs_to (set_if _ _) _ _ _ => eapply upd_cpu_run; eauto using with_cpu_lookup
  | |- runs_to (set_pc _ _) _ _ _ => eapply upd_cpu_run; eauto using with_cpu_lookup
  | |- runs_to (set_lheld _ _) _ _ _ => eapply upd_cpu_run; eauto using with_cpu_lookup
  | |- runs_to (upd_cpu _ _) _ _ _ => eapply upd_cpu_run; eauto using with_cpu_lookup
  | |- runs_to (upd_lock _ _) _ _ _ => eapply upd_lock_run; eauto using with_lock_lookup
  | |- runs_to (gets _) _ _ _ => reflexivity
  | |- runs_to (mret _) _ _ _ => apply runs_ret_eq
  end.

Definition pushed (x : cpu) : cpu :=
  mk_cpu (c_ncli x + 1) (if c_ncli x =? 0 then c_if x else c_intena x) false (c_pc x) (c_held x).
Definition popped (x : cpu) : cpu :=
  mk_cpu (c_ncli x - 1) (c_intena x) ((c_ncli x =? 1) && c_intena x) (c_pc x) (c_held x).
Definition at_pc (x : cpu) (p : pc) (h : list nat) : cpu :=
  mk_cpu (c_ncli x) (c_intena x) (c_if x) p h.

Lemma pushcli_run m c x :
  m_cpus m !! c = Some x → runs_to (pushcli c) m () (with_cpu m c (pushed x)).
Proof.
  intros H. unfold pushcli. lrun. lrun.
  eapply upd_cpu_run_eq; [by eapply with_cpu_lookup|by rewrite with_cpu_cpu].
Qed.

Lemma popcli_run m c x :
  m_cpus m !! c = Some x → c_if x = false → 0 < c_ncli x →
  runs_to (popcli c) m () (with_cpu m c (popped x)).
Proof.
  intros H Hif Hn. unfold popcli. lrun. rewrite Hif. lrun. lrun. cbn [c_ncli c_intena c_if c_pc c_held].
  rewrite (proj2 (Z.ltb_ge _ _)) by lia. unfold popped.
  replace (c_ncli x =? 1) with (c_ncli x - 1 =? 0) by (destruct (Z.eqb_spec (c_ncli x) 1); lia).
  destruct ((c_ncli x - 1 =? 0) && c_intena x) eqn:E; cbn [when].
  - eapply upd_cpu_run_eq; [by eapply with_cpu_lookup|by rewrite with_cpu_cpu].
  - by rewrite Hif.
Qed.

Lemma holding_run m c lk l :
  m_locks m !! lk = Some l →
  runs_to (holding c lk) m (negb (lk_locked l =? 0) && bool_decide (lk_cpu l = Some c)) m.
Proof. intros H. unfold holding. by lrun. Qed.

Lemma xchg_run m lk l v :
  m_locks m !! lk = Some l →
  runs_to (xchg lk v) m (lk_locked l) (with_lock m lk (mk_spinlock v (lk_cpu l) (lk_pcs l))).
Proof. intros H. unfold xchg. by do 2 lrun. Qed.

Lemma runs_bind_eq {S A B} (m : M S A) (f : A → M S B) s a s1 b s2 :
  runs_to m s a s1 → runs_to (m ≫= f) s b s2 → runs_to (f a) s1 b s2.
Proof. unfold runs_to, mbind, M_bind. by intros ->. Qed.

Lemma acquire_enter_inv m c x lk m' :
  m_cpus m !! c = Some x → runs_to (acquire_enter c lk) m () m' →
  m' = with_cpu m c (at_pc (pushed x) (Spinning lk) (c_held x)).
Proof.
  intros H R. unfold acquire_enter in R.
  apply (runs_bind_eq _ _ _ _ _ _ _ (pushcli_run m c x H)) in R.
  destruct (m_locks m !! lk) as [l|] eqn:El; cycle 1.
  { by unfold runs_to, holding, get_lock, mbind, M_bind, gets in R; cbn [m_locks with_cpu] in R; rewrite El in R. }
  apply (runs_bind_eq _ _ _ _ _ _ _ (holding_run (with_cpu m c (pushed x)) c lk l El)) in R.
  destruct (_ && _) in R; [done|].
  pose proof (upd_cpu_run _ c _ (λ x, mk_cpu (c_ncli x) (c_intena x) (c_if x) (Spinning lk) (c_held x))
    (with_cpu_lookup m c x (pushed x) H)) as R'.
  destruct (runs_det _ _ _ _ _ _ R R') as [_ ->]. by rewrite with_cpu_cpu.
Qed.

Lemma acquire_spin_inv m c x lk m' :
  m_cpus m !! c = Some x → runs_to (acquire_spin c lk) m () m' →
  ∃ l, m_locks m !! lk = Some l ∧
    let m1 := with_lock m lk (mk_spinlock 1 (lk_cpu l) (lk_pcs l)) in
    m' = if lk_locked l =? 0 then with_cpu m1 c (at_pc x (Acquired lk) (c_held x)) else m1.
Proof.
  intros H R. unfold acquire_spin in R. destruct (m_locks m !! lk) as [l|] eqn:El; cycle 1.
  { by unfold runs_to, xchg, get_lock, mbind, M_bind, gets in R; rewrite El in R. }
  exists l. split; [done|]. apply (runs_bind_eq _ _ _ _ _ _ _ (xchg_run m lk l 1 El)) in R.
  cbv zeta. unfold when in R. destruct (lk_locked l =? 0); [|by injection R].
  eapply (runs_det _ _ _ _ _ _ R). by eapply upd_cpu_run_eq.
Qed.

Lemma acquire_done_inv m c x lk v m' :
  m_cpus m !! c = Some x → runs_to (acquire_done c lk v) m () m' →
  ∃ l pcs, m_locks m !! lk = Some l ∧ getcallerpcs (m_words m) v = Some pcs ∧
    m' = with_cpu (with_lock m lk (mk_spinlock (lk_locked l) (Some c) pcs)) c
           (at_pc x Run (lk :: c_held x)).
Proof.
  intros H R. unfold acquire_done in R.
  apply (runs_bind_eq (gets m_words) _ m (m_words m) m) in R; [|done].
  destruct (getcallerpcs (m_words m) v) as [pcs|] eqn:Ep; [|done].
  apply (runs_bind_eq (mret pcs) _ m pcs m) in R; [|done].
  destruct (m_locks m !! lk) as [l|] eqn:El; cycle 1.
  { by unfold runs_to, upd_lock, mbind, M_bind, gets in R; rewrite El in R. }
  exists l, pcs. split_and!; [done..|]. eapply (runs_det _ _ _ _ _ _ R).
  lrun. lrun. lrun. eapply upd_cpu_run_eq; [by eapply with_cpu_lookup|by rewrite with_cpu_cpu].
Qed.

Lemma release_enter_inv m c x lk m' :
  m_cpus m !! c = Some x → runs_to (release_enter c lk) m () m' →
  ∃ l, m_locks m !! lk = Some l ∧ lk_locked l ≠ 0 ∧ lk_cpu l = Some c ∧
    m' = with_cpu (with_lock m lk (mk_spinlock (lk_locked l) None (<[0%nat:=0]> (lk_pcs l)))) c
           (at_pc x (Releasing lk) (filter (λ k, k ≠ lk) (c_held x))).
Proof.
  intros H R. unfold release_enter in R. destruct (m_locks m !! lk) as [l|] eqn:El; cycle 1.
  { by unfold runs_to, holding, get_lock, mbind, M_bind, gets in R; rewrite El in R. }
  apply (runs_bind_eq _ _ _ _ _ _ _ (holding_run m c lk l El)) in R.
  destruct (Z.eqb_spec (lk_locked l) 0) as [|Hl]; [done|].
  destruct (bool_decide_reflect (lk_cpu l = Some c)) as [Hc|]; [|done].
  exists l. split_and!; [done..|]. eapply (runs_det _ _ _ _ _ _ R).
  lrun. lrun. lrun. eapply upd_cpu_run_eq; [by eapply with_cpu_lookup|by rewrite with_cpu_cpu].
Qed.

Lemma release_xchg_inv m c x lk m' :
  m_cpus m !! c = Some x → runs_to (release_xchg c lk) m () m' →
  ∃ l, m_locks m !! lk = Some l ∧
    m' = with_cpu (with_lock m lk (mk_spinlock 0 (lk_cpu l) (lk_pcs l))) c
           (at_pc x (Released lk) (c_held x)).
Proof.
  intros H R. unfold release_xchg in R. destruct (m_locks m !! lk) as [l|] eqn:El; cycle 1.
  { by unfold runs_to, xchg, get_lock, mbind, M_bind, gets in R; rewrite El in R. }
  exists l. split; [done|]. apply (runs_bind_eq _ _ _ _ _ _ _ (xchg_run m lk l 0 El)) in R.
  eapply (runs_det _ _ _ _ _ _ R). by eapply upd_cpu_run_eq.
Qed.

Lemma release_done_run m c x :
  m_cpus m !! c = Some x → c_if x = false → 0 < c_ncli x →
  runs_to (release_done c) m () (with_cpu m c (at_pc (popped x) Run (c_held x))).
Proof.
  intros H Hif Hn. eapply runs_bind; [by eapply popcli_run|].
  eapply upd_cpu_run_eq; [by eapply with_cpu_lookup|by rewrite with_cpu_cpu].
Qed.

(** ** The invariant *)

(** A step of one processor that leaves every lock alone. *)
Lemma lock_inv_cpu m c x x' :
  lock_inv m → m_cpus m !! c = Some x → c_held x' = c_held x → (∀ k, owns x' k ↔ owns x k) →
  (∀ k, c_pc x' ≠ Acquired k ∧ c_pc x' ≠ Releasing k) →
  c_ncli x' = depth x' → (0 < depth x' → c_if x' = false) → lock_inv (with_cpu m c x').
Proof.
  intros I H Hh Ho Hp Hn Hi.
  assert (L : ∀ j, m_cpus (with_cpu m c x') !! j = if decide (j = c) then Some x' else m_cpus m !! j)
    by (intros j; eapply lookup_upd, H).
  split; cbn [m_locks with_cpu]; setoid_rewrite L.
  - intros lk l Hl Hk. destruct (li_owner m I lk l Hl Hk) as (c1&x1&H1&O1).
    destruct (decide (c1 = c)) as [->|n].
    + exists c, x'. rewrite decide_True by done. by simplify_eq; rewrite Ho.
    + exists c1, x1. by rewrite decide_False by done.
  - intros c1 x1 lk l H1 Hl O1. case_decide; simplify_eq; [rewrite Ho in O1|]; by eapply (li_locked m I).
  - intros c1 c2 x1 x2 lk H1 H2 O1 O2.
    repeat case_decide; simplify_eq; try done; rewrite ?Ho in *; by eapply (li_unique m I).
  - intros lk l c1 Hl Hc. destruct (li_cpu m I lk l c1 Hl Hc) as (x1&H1&Hin).
    case_decide; simplify_eq; [exists x'; by rewrite Hh|by exists x1].
  - intros c1 x1 lk H1 Hin. case_decide; simplify_eq; [rewrite Hh in Hin|]; by eapply (li_held m I).
  - intros c1 x1 H1. case_decide; simplify_eq; [|by eapply (li_nodup m I)].
    destruct (li_nodup m I c x H) as [ND _]. rewrite Hh. split; [done|]. intros lk. specialize (Hp lk). tauto.
  - intros c1 x1 H1. case_decide; simplify_eq; [done|by eapply (li_ncli m I)].
Qed.

(** A step of one processor on one lock word. *)
Lemma lock_inv_both m c x x' lk l l' :
  lock_inv m → m_cpus m !! c = Some x → m_locks m !! lk = Some l →
  (∀ k, k ≠ lk → (k ∈ c_held x' ↔ k ∈ c_held x) ∧ (owns x' k ↔ owns x k)) →
  owns x lk ∨ lk_locked l = 0 →
  (owns x' lk ↔ lk_locked l' ≠ 0) →
  lk_cpu l' = (if decide (lk ∈ c_held x') then Some c else None) →
  NoDup (c_held x') → (∀ k, c_pc x' = Acquired k ∨ c_pc x' = Releasing k → k ∉ c_held x') →
  c_ncli x' = depth x' → (0 < depth x' → c_if x' = false) →
  lock_inv (with_cpu (with_lock m lk l') c x').
Proof.
  intros I H Hl0 Hoth Hwas Hnow Hcpu Hnd Hni Hn Hi.
  assert (L : ∀ j, m_cpus (with_cpu (with_lock m lk l') c x') !! j
    = if decide (j = c) then Some x' else m_cpus m !! j) by (intros j; eapply lookup_upd, H).
  assert (K : ∀ j, m_locks (with_cpu (with_lock m lk l') c x') !! j
    = if decide (j = lk) then Some l' else m_locks m !! j) by (intros j; eapply lookup_upd, Hl0).
  assert (other : ∀ c1 x1, m_cpus m !! c1 = Some x1 → c1 ≠ c → ¬ owns x1 lk).
  { intros c1 x1 H1 Hne O1. destruct Hwas as [O|Z0]; [by apply Hne, (li_unique m I c1 c x1 x lk)|].
    by apply (li_locked m I c1 x1 lk l H1 Hl0 O1). }
  split; setoid_rewrite L; try setoid_rewrite K.
  - intros k lx Hl Hk. destruct (decide (k = lk)) as [->|n]; simplify_eq.
    + exists c, x'. rewrite decide_True by done. naive_solver.
    + destruct (li_owner m I k lx Hl Hk) as (c1&x1&H1&O1). destruct (decide (c1 = c)) as [->|n1].
      * exists c, x'. rewrite decide_True by done. simplify_eq. split; [done|]. by apply (Hoth k n).
      * exists c1, x1. by rewrite decide_False by done.
  - intros c1 x1 k lx H1 Hl O1. destruct (decide (c1 = c)), (decide (k = lk)); simplify_eq; [tauto|..].
    + apply (li_locked m I c x k lx H Hl). by apply (Hoth k).
    + exfalso. by eapply (other c1).
    + by eapply (li_locked m I).
  - intros c1 c2 x1 x2 k H1 H2 O1 O2. destruct (decide (k = lk)) as [->|n].
    + repeat case_decide; simplify_eq; try done; exfalso; naive_solver.
    + repeat case_decide; simplify_eq; try done;
        rewrite ?(proj2 (Hoth k n)) in *; by eapply (li_unique m I).
  - intros k lx c1 Hl Hc. destruct (decide (k = lk)) as [->|n]; simplify_eq.
    + rewrite Hcpu in Hc. case_decide; simplify_eq. exists x'. by rewrite decide_True.
    + destruct (li_cpu m I k lx c1 Hl Hc) as (x1&H1&Hin). destruct (decide (c1 = c)); simplify_eq; [|by exists x1].
      exists x'. split; [done|]. by apply (Hoth k n).
  - intros c1 x1 k H1 Hin. destruct (decide (k = lk)) as [->|n].
    + exists l'. split; [done|]. destruct (decide (c1 = c)); simplify_eq; [by rewrite Hcpu, decide_True|].
      exfalso. eapply other; [done..|by left].
    + destruct (decide (c1 = c)); simplify_eq; [|by eapply (li_held m I)].
      apply (li_held m I c x k H). by apply (Hoth k n).
  - intros c1 x1 H1. destruct (decide (c1 = c)); simplify_eq; [done|by eapply (li_nodup m I)].
  - intros c1 x1 H1. destruct (decide (c1 = c)); simplify_eq; [done|by eapply (li_ncli m I)].
Qed.

Lemma owns_at x p h k :
  owns (at_pc x p h) k ↔ k ∈ h ∨ p = Acquired k ∨ p = Releasing k.
Proof. done. Qed.

Lemma depth_at x p h :
  depth (at_pc x p h) = Z.of_nat (length h) + match p with Run => 0 | _ => 1 end.
Proof. done. Qed.

Lemma unowned_unlocked m c x lk l :
  lock_inv m → m_cpus m !! c = Some x → m_locks m !! lk = Some l → lk_locked l = 0 →
  (lk ∉ c_held x) ∧ lk_cpu l = None.
Proof.
  intros I H Hl H0. split.
  - intros Hin. by apply (li_locked m I c x lk l H Hl); [left|].
  - destruct (lk_cpu l) as [c1|] eqn:E; [|done]. exfalso.
    destruct (li_cpu m I lk l c1 Hl E) as (x1&H1&Hin). by apply (li_locked m I c1 x1 lk l H1 Hl); [left|].
Qed.

Lemma nodup_filter_length (h : list nat) k :
  NoDup h → k ∈ h → length h = S (length (filter (λ j, j ≠ k) h)).
Proof.
  induction 1 as [|a h Ha Hh IH]; [by intros ?%elem_of_nil|].
  intros [->|Hk]%elem_of_cons.
  - rewrite filter_cons_False by naive_solver. by rewrite filter_ne_id.
  - rewrite filter_cons_True by (intros ->; done). simpl. by rewrite IH.
Qed.

Lemma acquire_spin_ok m c x lk m' :
  lock_inv m → m_cpus m !! c = Some x → c_pc x = Spinning lk →
  runs_to (acquire_spin c lk) m () m' → lock_inv m'.
Proof.
  intros I H Hp R. destruct (acquire_spin_inv _ _ _ _ _ H R) as (l&Hl&->).
  destruct (li_nodup m I c x H) as [ND _]. destruct (li_ncli m I c x H) as [Hn Hi].
  unfold depth in Hn, Hi. rewrite Hp in Hn, Hi.
  destruct (Z.eqb_spec (lk_locked l) 0) as [E|E].
  - destruct (unowned_unlocked m c x lk l I H Hl E) as [Hni Hc].
    eapply (lock_inv_both m c x); [done..| | | | | | | |];
      rewrite ?depth_at; cbn [at_pc c_held c_pc c_ncli c_if lk_cpu lk_locked]; eauto.
    + intros k Hk. rewrite owns_at. unfold owns. rewrite Hp. naive_solver.
    + rewrite owns_at. naive_solver.
    + by rewrite decide_False.
    + naive_solver.
  - split; cbn [m_cpus with_lock m_locks]; try setoid_rewrite (lookup_upd _ _ _ _ _ Hl);
      destruct I as [I1 I2 I3 I4 I5 I6 I7]; try done.
    + intros k lx Hk Hx. case_decide; simplify_eq; eauto.
    + intros c1 x1 k lx H1 Hk O. case_decide; simplify_eq; eauto.
    + intros k lx c1 Hk Hx. case_decide; simplify_eq; eauto.
    + intros c1 x1 k H1 Hin. destruct (I5 c1 x1 k H1 Hin) as (lx&?&?). case_decide; simplify_eq; eauto.
Qed.

Lemma acquire_done_ok m c x lk v m' :
  lock_inv m → m_cpus m !! c = Some x → c_pc x = Acquired lk →
  runs_to (acquire_done c lk v) m () m' → lock_inv m'.
Proof.
  intros I H Hp R. destruct (acquire_done_inv _ _ _ _ _ _ H R) as (l&pcs&Hl&_&->).
  destruct (li_nodup m I c x H) as [ND NI]. destruct (li_ncli m I c x H) as [Hn Hi].
  unfold depth in Hn, Hi. rewrite Hp in Hn, Hi. pose proof (NI lk (or_introl Hp)) as Hni.
  assert (O : owns x lk) by (right; by left).
  eapply (lock_inv_both m c x); [done..| | | | | | | |];
    rewrite ?depth_at; cbn [at_pc c_held c_pc c_ncli c_if lk_cpu lk_locked length].
  - intros k Hk. rewrite owns_at. unfold owns. rewrite Hp. set_solver.
  - by left.
  - rewrite owns_at. pose proof (li_locked m I c x lk l H Hl O). set_solver.
  - rewrite decide_True; [done|by left].
  - by constructor.
  - naive_solver.
  - lia.
  - intros _. apply Hi. lia.
Qed.

Lemma release_enter_ok m c x lk m' :
  lock_inv m → m_cpus m !! c = Some x → c_pc x = Run →
  runs_to (release_enter c lk) m () m' → lock_inv m'.
Proof.
  intros I H Hp R. destruct (release_enter_inv _ _ _ _ _ H R) as (l&Hl&H1&Hc&->).
  destruct (li_nodup m I c x H) as [ND NI]. destruct (li_ncli m I c x H) as [Hn Hi].
  unfold depth in Hn, Hi. rewrite Hp in Hn, Hi.
  destruct (li_cpu m I lk l c Hl Hc) as (x1&Hx1&Hin). assert (x1 = x) as -> by congruence.
  pose proof (nodup_filter_length (c_held x) lk ND Hin) as Hlen.
  eapply (lock_inv_both m c x); [done..| | | | | | | |];
    rewrite ?depth_at; cbn [at_pc c_held c_pc c_ncli c_if lk_cpu lk_locked].
  - intros k Hk. rewrite owns_at, list_elem_of_filter. unfold owns. rewrite Hp. naive_solver.
  - by left; left.
  - rewrite owns_at. naive_solver.
  - rewrite decide_False; [done|]. rewrite list_elem_of_filter. naive_solver.
  - by apply NoDup_filter.
  - intros k [?|?]; simplify_eq. rewrite list_elem_of_filter. naive_solver.
  - lia.
  - intros _. apply Hi. lia.
Qed.

Lemma release_xchg_ok m c x lk m' :
  lock_inv m → m_cpus m !! c = Some x → c_pc x = Releasing lk →
  runs_to (release_xchg c lk) m () m' → lock_inv m'.
Proof.
  intros I H Hp R. destruct (release_xchg_inv _ _ _ _ _ H R) as (l&Hl&->).
  destruct (li_nodup m I c x H) as [ND NI]. destruct (li_ncli m I c x H) as [Hn Hi].
  unfold depth in Hn, Hi. rewrite Hp in Hn, Hi. pose proof (NI lk (or_intror Hp)) as Hni.
  assert (O : owns x lk) by (right; by right).
  assert (Hc : lk_cpu l = None).
  { destruct (lk_cpu l) as [c1|] eqn:E; [|done]. destruct (li_cpu m I lk l c1 Hl E) as (x1&H1&Hin).
    assert (c1 = c) as -> by (eapply (li_unique m I); [done..| |]; [by left|done]). naive_solver. }
  eapply (lock_inv_both m c x); [done..| | | | | | | |];
    rewrite ?depth_at; cbn [at_pc c_held c_pc c_ncli c_if lk_cpu lk_locked]; try done.
  - intros k Hk. rewrite owns_at. unfold owns. rewrite Hp. naive_solver.
  - by left.
  - rewrite owns_at. naive_solver.
  - by rewrite decide_False.
  - naive_solver.
Qed.

Lemma lstep_inv m m' : lock_inv m → lstep m m' → lock_inv m'.
Proof.
  intros I St. destruct St as [c x lk m m' H Hp R|c x lk m m' H Hp R|c x lk v m m' H Hp R
    |c x lk m m' H Hp R|c x lk m m' H Hp R|c x lk m m' H Hp R].
  - rewrite (acquire_enter_inv _ _ _ _ _ H R). destruct (li_ncli m I c x H) as [Hn Hi].
    unfold depth in Hn, Hi. rewrite Hp in Hn, Hi. apply (lock_inv_cpu m c x); try done.
    + intros k. rewrite owns_at. unfold owns. rewrite Hp. naive_solver.
    + rewrite depth_at. cbn. lia.
  - by eapply acquire_spin_ok.
  - by eapply acquire_done_ok.
  - by eapply release_enter_ok.
  - by eapply release_xchg_ok.
  - destruct (li_ncli m I c x H) as [Hn Hi]. unfold depth in Hn, Hi. rewrite Hp in Hn, Hi.
    assert (R' := release_done_run m c x H (Hi ltac:(lia)) ltac:(lia)).
    destruct (runs_det _ _ _ _ _ _ R R') as [_ ->].
    apply (lock_inv_cpu m c x); try done; rewrite ?depth_at; cbn [at_pc popped c_ncli c_if].
    + intros k. rewrite owns_at. unfold owns. rewrite Hp. naive_solver.
    + lia.
    + intros Hd. destruct (Z.eqb_spec (c_ncli x) 1) as [E|]; [lia|done].
Qed.

(** The machine after the boot processor has initialised the locks. *)
Definition booted (m : machine) : Prop :=
  (∀ lk l, m_locks m !! lk = Some l → lk_locked l = 0 ∧ lk_cpu l = None) ∧
  (∀ c x, m_cpus m !! c = Some x → c_ncli x = 0 ∧ c_pc x = Run ∧ c_held x = []).

Lemma booted_inv m : booted m → lock_inv m.
Proof.
  intros [Hl Hc]. assert (NO : ∀ c x k, m_cpus m !! c = Some x → ¬ owns x k).
  { intros c x k H. destruct (Hc c x H) as (_&Hp&Hh). unfold owns. rewrite Hp, Hh. set_solver. }
  split.
  - intros lk l H H0. by destruct (Hl lk l H).
  - intros c x lk l H _ O. by destruct (NO c x lk H).
  - intros c c' x x' lk H _ O. by destruct (NO c x lk H).
  - intros lk l c H H1. destruct (Hl lk l H) as [_ H2]. congruence.
  - intros c x lk H Hin. destruct (NO c x lk H). by left.
  - intros c x H. destruct (Hc c x H) as (_&Hp&->). split; [constructor|]. set_solver.
  - intros c x H. destruct (Hc c x H) as (Hn&Hp&Hh). unfold depth. rewrite Hn, Hp, Hh. simpl. lia.
Qed.

Lemma reachable_inv m0 m : booted m0 → rtc lstep m0 m → lock_inv m.
Proof.
  intros B R. apply booted_inv in B. induction R as [|m0 m1 m2 St _ IH]; [done|].
  by apply IH, (lstep_inv m0).
Qed.

(** C12: mutual exclusion.  However the processors interleave from boot, two
    processors never hold the same lock; a processor that holds a lock runs
    with interrupts off, the lock's word is set and its [cpu] field names that
    processor; and a processor in [release] can always complete its [popcli],
    which neither panics nor blocks. *)
Theorem mutual_exclusion m0 m c x :
  booted m0 → rtc lstep m0 m → m_cpus m !! c = Some x →
  (∀ lk, lk ∈ c_held x →
     (∀ c' x', m_cpus m !! c' = Some x' → lk ∈ c_held x' → c' = c) ∧
     c_if x = false ∧
     ∃ l, m_locks m !! lk = Some l ∧ lk_locked l ≠ 0 ∧ lk_cpu l = Some c) ∧
  (∀ lk, c_pc x = Released lk →
     runs_to (release_done c) m () (with_cpu m c (at_pc (popped x) Run (c_held x)))).
Proof.
  intros B R H. apply (reachable_inv m0) in R as I; [|done].
  destruct (li_ncli m I c x H) as [Hn Hi]. split; intros lk Hk.
  - split_and!.
    + intros c' x' H' Hk'. eapply (li_unique m I); [done..|by left|by left].
    + apply Hi. unfold depth. destruct (c_held x); [by apply elem_of_nil in Hk|].
      simpl length. destruct (c_pc x); lia.
    + destruct (li_held m I c x lk H Hk) as (l&Hl&Hc). exists l. split_and!; [done| |done].
      eapply (li_locked m I); [done..|by left].
  - unfold depth in Hn, Hi. rewrite Hk in Hn, Hi. apply release_done_run; [done|apply Hi|]; lia.
Qed.

(** ** Nesting of [pushcli] and [popcli] *)

Fixpoint nest (c : nat) (ops : list bool) : P () :=
  match ops with
  | [] => mret ()
  | b :: ops => (if (b : bool) then pushcli c else popcli c);; nest c ops
  end.

(** [balanced n ops k]: from [n] open calls of [pushcli], [ops] leads to [k]
    and never closes one that is not open. *)
Fixpoint balanced (n : Z) (ops : list bool) (k : Z) : Prop :=
  match ops with
  | [] => n = k
  | true :: ops => balanced (n + 1) ops k
  | false :: ops => 0 < n ∧ balanced (n - 1) ops k
  end.

Lemma nest_run c ops : ∀ m x k b,
  m_cpus m !! c = Some x → 0 ≤ c_ncli x → balanced (c_ncli x) ops k →
  (if c_ncli x =? 0 then c_if x = b else c_if x = false ∧ c_intena x = b) →
  ∃ x', runs_to (nest c ops) m () (with_cpu m c x') ∧ c_ncli x' = k ∧
    c_pc x' = c_pc x ∧ c_held x' = c_held x ∧
    (if k =? 0 then c_if x' = b else c_if x' = false ∧ c_intena x' = b).
Proof.
  induction ops as [|[] ops IH]; intros m x k b H Hn Hb Hf; simpl in Hb.
  - exists x. subst k. split; [|done]. simpl. apply runs_ret_eq.
    unfold with_cpu. rewrite list_insert_id by done. by destruct m.
  - destruct (IH (with_cpu m c (pushed x)) (pushed x) k b) as (x'&R&E1&E2&E3&E4).
    + by eapply with_cpu_lookup.
    + cbn. lia.
    + done.
    + cbn [pushed c_ncli c_if c_intena]. rewrite (proj2 (Z.eqb_neq _ _)) by lia. split; [done|].
      destruct (c_ncli x =? 0); tauto.
    + exists x'. split_and!; try done. simpl. eapply runs_bind; [by apply pushcli_run|].
      by rewrite with_cpu_cpu in R.
  - destruct Hb as [Hn' Hb]. rewrite (proj2 (Z.eqb_neq _ _)) in Hf by lia. destruct Hf as [Hif Hin].
    destruct (IH (with_cpu m c (popped x)) (popped x) k b) as (x'&R&E1&E2&E3&E4).
    + by eapply with_cpu_lookup.
    + cbn. lia.
    + done.
    + cbn [popped c_ncli c_if c_intena]. rewrite Hin.
      destruct (Z.eqb_spec (c_ncli x - 1) 0), (Z.eqb_spec (c_ncli x) 1); try lia; done.
    + exists x'. split_and!; try done. simpl. eapply runs_bind; [by apply popcli_run|].
      by rewrite with_cpu_cpu in R.
Qed.

(** Matched calls.  Any sequence of [pushcli] and [popcli] that never
    pops more than it pushed runs without a panic; interrupts are off as long
    as a push is open, and once all are popped the interrupt flag is what it
    was before the first push. *)
Theorem pushcli_popcli_nest c ops m x k :
  m_cpus m !! c = Some x → c_ncli x = 0 → balanced 0 ops k →
  ∃ x', runs_to (nest c ops) m () (with_cpu m c x') ∧ c_ncli x' = k ∧
    c_if x' = if k =? 0 then c_if x else false.
Proof.
  intros H Hn Hb. destruct (nest_run c ops m x k (c_if x) H) as (x'&R&E1&_&_&E4); [lia| | |].
  - by rewrite Hn.
  - by rewrite Hn.
  - exists x'. split_and!; [done..|]. destruct (k =? 0); tauto.
Qed.

(** ** The locks of Sched.v

    [addr] places each lock of the kernel.  A kernel state on processor [c]
    stands for a machine state in which [c] is outside lock code and holds
    the locks of the state's list. *)

Section Refinement.
Context (addr : lockid → nat) (addr_inj : Inj (=) (=) addr).

Definition stands_for (c : nat) (s : kstate) (m : machine) : Prop :=
  lock_inv m ∧
  ∃ x, m_cpus m !! c = Some x ∧ c_pc x = Run ∧ c_held x = addr <$> ks_held s.

(** The calls as a whole: [acquire] of a lock that is free, whose loop makes
    one turn, and [release]. *)
Definition acquire_free (c lk : nat) (v : Z) : P () :=
  acquire_enter c lk;; acquire_spin c lk;; acquire_done c lk v.
Definition release_all (c lk : nat) : P () :=
  release_enter c lk;; release_xchg c lk;; release_done c.

Lemma holding_stands c s m lk l :
  stands_for c s m → m_locks m !! addr lk = Some l →
  negb (lk_locked l =? 0) && bool_decide (lk_cpu l = Some c) = bool_decide (lk ∈ ks_held s).
Proof using addr_inj.
  intros (I&x&H&Hp&Hh) Hl. apply eq_bool_prop_intro.
  rewrite andb_True, negb_True, !bool_decide_spec, Is_true_true, Z.eqb_eq. split.
  - intros [H1 Hc]. destruct (li_cpu m I _ l c Hl Hc) as (x1&Hx1&Hin). simplify_eq.
    rewrite Hh in Hin. by apply list_elem_of_fmap_inj in Hin.
  - intros Hin. assert (Hin' : addr lk ∈ c_held x) by (rewrite Hh; by apply list_elem_of_fmap_2).
    destruct (li_held m I c x _ H Hin') as (l'&Hl'&Hc). simplify_eq. split; [|done].
    eapply (li_locked m I); [done..|by left].
Qed.

Lemma filter_fmap_ne lk (h : list lockid) : filter (λ k, k ≠ addr lk) (addr <$> h) = addr <$> filter (λ k, k ≠ lk) h.
Proof using addr_inj.
  induction h as [|k h IH]; [done|]. rewrite fmap_cons. destruct (decide (k = lk)) as [->|n].
  - by rewrite !filter_cons_False by naive_solver.
  - rewrite !filter_cons_True by (try done; by intros ->%addr_inj). by rewrite IH.
Qed.

Lemma acquire_free_ok c s m lk l v pcs :
  stands_for c s m → m_locks m !! addr lk = Some l → lk_locked l = 0 →
  getcallerpcs (m_words m) v = Some pcs → lk ∉ ks_held s →
  ∃ m', runs_to (acquire_free c (addr lk) v) m () m' ∧ stands_for c (set_held (lk :: ks_held s) s) m'.
Proof using addr_inj.
  intros St Hl H0 Hpcs Hni. pose proof (holding_stands c s m lk l St Hl) as Hb.
  destruct St as (I&x&H&Hp&Hh). rewrite (bool_decide_false (lk ∈ _)) in Hb by done.
  pose (m1 := with_cpu m c (at_pc (pushed x) (Spinning (addr lk)) (c_held x))).
  assert (H1 := with_cpu_lookup m c x (at_pc (pushed x) (Spinning (addr lk)) (c_held x)) H).
  assert (R1 : runs_to (acquire_enter c (addr lk)) m () m1).
  { eapply runs_bind; [by apply pushcli_run|]. eapply runs_bind; [by apply (holding_run _ _ _ l)|].
    rewrite Hb. eapply upd_cpu_run_eq; [by eapply with_cpu_lookup|by rewrite with_cpu_cpu]. }
  pose (m2 := with_cpu (with_lock m1 (addr lk) (mk_spinlock 1 (lk_cpu l) (lk_pcs l))) c
    (at_pc (pushed x) (Acquired (addr lk)) (c_held x))).
  assert (R2 : runs_to (acquire_spin c (addr lk)) m1 () m2).
  { eapply runs_bind; [by apply xchg_run|]. rewrite H0. by eapply upd_cpu_run_eq. }
  assert (Hl2 : m_locks m2 !! addr lk = Some (mk_spinlock 1 (lk_cpu l) (lk_pcs l)))
    by (by eapply (with_lock_lookup m)).
  assert (H2 : m_cpus m2 !! c = Some (at_pc (pushed x) (Acquired (addr lk)) (c_held x)))
    by (by eapply with_cpu_lookup).
  assert (R3 : ∃ m3, runs_to (acquire_done c (addr lk) v) m2 () m3).
  { eexists. eapply runs_bind; [reflexivity|].
    change (m_words m2) with (m_words m). rewrite Hpcs. eapply runs_bind; [reflexivity|].
    lrun. lrun. lrun. eapply upd_cpu_run_eq; [by eapply with_cpu_lookup|done]. }
  destruct R3 as [m3 R3]. exists m3. split; [by do 2 (eapply runs_bind; [done|])|].
  assert (I3 : lock_inv m3).
  { apply (lstep_inv m2); [|exact (step_done c _ _ v m2 m3 H2 eq_refl R3)].
    apply (lstep_inv m1); [|exact (step_spin c _ _ m1 m2 H1 eq_refl R2)].
    apply (lstep_inv m); [done|exact (step_acquire c _ _ m m1 H Hp R1)]. }
  split; [done|]. destruct (acquire_done_inv _ _ _ _ _ _ H2 R3) as (?&?&_&_&->).
  eexists. split; [by eapply with_cpu_lookup|]. split; [done|]. cbn. by rewrite Hh.
Qed.

Lemma release_all_ok c s m lk :
  stands_for c s m → lk ∈ ks_held s →
  ∃ m', runs_to (release_all c (addr lk)) m () m' ∧
    stands_for c (set_held (filter (λ k, k ≠ lk) (ks_held s)) s) m'.
Proof using addr_inj.
  intros St Hin. pose proof St as (I&x&H&Hp&Hh).
  assert (Hin' : addr lk ∈ c_held x) by (rewrite Hh; by apply list_elem_of_fmap_2).
  destruct (li_held m I c x _ H Hin') as (l&Hl&Hc).
  pose proof (holding_stands c s m lk l St Hl) as Hb. rewrite (bool_decide_true (lk ∈ _)) in Hb by done.
  assert (R1 : ∃ m1, runs_to (release_enter c (addr lk)) m () m1).
  { eexists. eapply runs_bind; [by apply (holding_run _ _ _ l)|]. rewrite Hb. cbn [negb].
    lrun. lrun. lrun. eapply upd_cpu_run_eq; [by eapply with_cpu_lookup|done]. }
  destruct R1 as [m1 R1]. assert (I1 : lock_inv m1) by (eapply lstep_inv; [done|by eapply step_release]).
  destruct (release_enter_inv _ _ _ _ _ H R1) as (l'&_&_&_&E1).
  set (x1 := at_pc x (Releasing (addr lk)) (filter (λ k, k ≠ addr lk) (c_held x))) in *.
  assert (H1 : m_cpus m1 !! c = Some x1) by (rewrite E1; by eapply with_cpu_lookup).
  assert (R2 : ∃ m2, runs_to (release_xchg c (addr lk)) m1 () m2).
  { eexists. eapply runs_bind.
    - eapply xchg_run. rewrite E1. by eapply (with_lock_lookup m).
    - by eapply upd_cpu_run_eq. }
  destruct R2 as [m2 R2]. assert (I2 : lock_inv m2) by (eapply lstep_inv; [done|by eapply step_xchg]).
  destruct (release_xchg_inv _ _ _ _ _ H1 R2) as (l2&_&E2).
  assert (H2 : m_cpus m2 !! c = Some (at_pc x1 (Released (addr lk)) (c_held x1)))
    by (rewrite E2; by eapply with_cpu_lookup).
  destruct (li_ncli m2 I2 c _ H2) as [Hn Hi]. rewrite depth_at in Hn, Hi.
  assert (R3 := release_done_run m2 c _ H2 (Hi ltac:(lia)) ltac:(lia)).
  eexists. split; [by do 2 (eapply runs_bind; [done|])|].
  split; [by eapply lstep_inv; [|by eapply step_popcli]|].
  eexists. split; [by eapply with_cpu_lookup|]. split; [done|]. cbn. rewrite Hh.
  apply filter_fmap_ne.
Qed.

(** C13: the locks of Sched.v.  On a processor outside lock code, [acquire]
    and [release] of spinlock.c do what the kernel-level ones do: they panic
    in the same cases with the same message, [acquire] of a lock whose word is
    clear returns with the lock added to those held, and [release] returns
    with it removed. *)
Theorem locks_refine c s m lk l v pcs :
  stands_for c s m → m_locks m !! addr lk = Some l → getcallerpcs (m_words m) v = Some pcs →
  (∀ msg, Sched.acquire lk s = Panic msg → acquire_enter c (addr lk) m = Panic msg) ∧
  (∀ s', Sched.acquire lk s = Ok () s' → lk_locked l = 0 →
     ∃ m', runs_to (acquire_free c (addr lk) v) m () m' ∧ stands_for c s' m') ∧
  (∀ msg, Sched.release lk s = Panic msg → release_enter c (addr lk) m = Panic msg) ∧
  (∀ s', Sched.release lk s = Ok () s' →
     ∃ m', runs_to (release_all c (addr lk)) m () m' ∧ stands_for c s' m').
Proof using addr_inj.
  intros St Hl Hpcs. pose proof (holding_stands c s m lk l St Hl) as Hb.
  pose proof St as (I&x&H&_).
  unfold Sched.acquire, Sched.release, Sched.holding, mbind, M_bind, gets, panic, modify.
  split_and!.
  - intros msg Hm. unfold acquire_enter. rewrite (bind_runs _ _ _ _ _ (pushcli_run m c x H)).
    rewrite (bind_runs _ _ _ _ _ (holding_run (with_cpu m c (pushed x)) c _ l Hl)), Hb.
    by destruct (bool_decide _) in Hm |- *; simplify_eq.
  - intros s' Hs H0. destruct (bool_decide_reflect (lk ∈ ks_held s)) in Hs; simplify_eq.
    by eapply acquire_free_ok.
  - intros msg Hm. unfold release_enter.
    rewrite (bind_runs _ _ _ _ _ (holding_run m c _ l Hl)), Hb.
    by destruct (bool_decide _) in Hm |- *; simplify_eq.
  - intros s' Hs. destruct (bool_decide_reflect (lk ∈ ks_held s)) in Hs; simplify_eq.
    by eapply release_all_ok.
Qed.

End Refinement.

(** ** Witnesses *)

Module SpinlockExample.
Definition lock_addr (lk : lockid) : nat :=
  match lk with
  | L_ptable => 0 | L_kmem => 1 | L_bcache => 2 | L_ide => 3 | L_log => 4 | L_icache => 5
  | L_ftable => 6 | L_ticks => 7 | L_input => 8 | L_cons => 9
  | L_pipe p => 10 + Z.to_nat (if 0 <=? p then 2 * p else - 2 * p - 1)%Z
  end%nat.

Lemma lock_addr_inj : Inj (=) (=) lock_addr.
Proof.
  intros k1 k2. destruct k1, k2; cbn [lock_addr]; intros E; try done; try lia.
  f_equal. destruct (Z.leb_spec 0 p), (Z.leb_spec 0 p0); lia.
Qed.

Definition free_lock : spinlock := mk_spinlock 0 None (replicate 10 0).
Definition idle_cpu : cpu := mk_cpu 0 false true Run [].
Definition m0 : machine :=
  mk_machine (replicate 10 free_lock) [idle_cpu; idle_cpu]
    {[ KERNBASE + 0x1000 := 0; KERNBASE + 0x1004 := KERNBASE + 0x100abc ]}.

Lemma m0_booted : booted m0.
Proof.
  split.
  - intros lk l H. by apply lookup_replicate_1 in H as [-> _].
  - intros [|[|c]] x H; by simplify_eq/=.
Qed.

(** Processor 0 has taken lock 1 and processor 1 spins on it. *)
Definition m1 : machine :=
  match (acquire_free 0 1 (KERNBASE + 0x1008);; acquire_enter 1 1;; acquire_spin 1 1) m0 with
  | Ok _ m => m
  | _ => m0
  end.

Definition cpu0 : cpu := mk_cpu 1 true false Run [1%nat].

Lemma m1_reachable : rtc lstep m0 m1.
Proof.
  eapply rtc_l; [eapply (step_acquire 0 _ 1); vm_compute; reflexivity|].
  eapply rtc_l; [eapply (step_spin 0 _ 1); vm_compute; reflexivity|].
  eapply rtc_l; [eapply (step_done 0 _ 1 (KERNBASE + 0x1008)); vm_compute; reflexivity|].
  eapply rtc_l; [eapply (step_acquire 1 _ 1); vm_compute; reflexivity|].
  eapply rtc_l; [eapply (step_spin 1 _ 1); vm_compute; reflexivity|].
  vm_compute. apply rtc_refl.
Qed.
End SpinlockExample.
Import SpinlockExample.

Lemma mutual_exclusion_witness :
  m_cpus m1 !! 0%nat = Some cpu0 ∧
  (∀ c' x', m_cpus m1 !! c' = Some x' → 1%nat ∈ c_held x' → c' = 0%nat) ∧ c_if cpu0 = false.
Proof.
  split; [vm_compute; reflexivity|].
  destruct (mutual_exclusion m0 m1 0 cpu0 m0_booted m1_reachable) as [H _]; [vm_compute; reflexivity|].
  destruct (H 1%nat) as (H1&H2&_); [by left|]. exact (conj H1 H2).
Defined.

Lemma locks_refine_witness :
  ∃ m', runs_to (acquire_free 0 (lock_addr L_kmem) (KERNBASE + 0x1008)) m0 () m' ∧
    stands_for lock_addr 0 (set_held [L_kmem] (bss [])) m'.
Proof.
  assert (St : stands_for lock_addr 0 (bss []) m0).
  { split; [apply booted_inv, m0_booted|]. exists idle_cpu. split_and!; reflexivity. }
  assert (Hp : getcallerpcs (m_words m0) (KERNBASE + 0x1008)
    = Some (KERNBASE + 0x100abc :: replicate 9 0)) by (vm_compute; reflexivity).
  destruct (locks_refine lock_addr lock_addr_inj 0 (bss []) m0 L_kmem free_lock _ _ St eq_refl Hp)
    as (_&H&_). exact (H (set_held [L_kmem] (bss [])) eq_refl eq_refl).
Defined.

Lemma pushcli_popcli_nest_witness :
  ∃ x', runs_to (nest 0 [true; true; false; true; false; false]) m0 () (with_cpu m0 0 x') ∧
    c_ncli x' = 0 ∧ c_if x' = if 0 =? 0 then c_if idle_cpu else false.
Proof.
  apply (pushcli_popcli_nest 0 [true; true; false; true; false; false] m0 idle_cpu 0);
    [reflexivity|reflexivity|]. simpl. lia.
Defined.
