(* ===== verification/Ide.v ===== *)
(** * Ide: the disk driver

    The kernel links one of two drivers, ide.c or memide.c; the buffer cache
    only calls [iderw].  [Ide] is that entry point and [IdeSpec] what its
    callers rely on.  The driver of memide.c, which keeps the disk in memory,
    is defined here and shown to meet the interface. *)

From S2P Require Import Prelude Bytes Kernel Sched.

(** ** What a disk operation may change

    [storage_step s s']: the two states differ at most in the buffers, the
    disk, the write trace, and the states of the processes that were woken. *)

Definition storage_step (s s' : kstate) : Prop :=
  ∃ ps bs d w, s' = set_procs ps (set_bufs bs (set_disk d (set_wtrace w s))).

#[export] Instance storage_step_preorder : PreOrder storage_step.
Proof.
  split.
  - intros s. exists (ks_procs s), (ks_bufs s), (ks_disk s), (ks_wtrace s). by destruct s.
  - intros s1 s2 s3 (p & bs & d & w & ->) (p' & bs' & d' & w' & ->).
    by exists p', bs', d', w'.
Qed.

(** Fields [storage_step] fixes. *)
Lemma storage_step_intro s s' :
  ks_held s' = ks_held s → ks_cur s' = ks_cur s → ks_nextpid s' = ks_nextpid s →
  ks_initproc s' = ks_initproc s → ks_ticks s' = ks_ticks s → ks_mem s' = ks_mem s →
  ks_freelist s' = ks_freelist s → ks_use_lock s' = ks_use_lock s → ks_log s' = ks_log s →
  ks_inodes s' = ks_inodes s → ks_files s' = ks_files s → ks_devsw s' = ks_devsw s →
  ks_pipes s' = ks_pipes s → ks_cons s' = ks_cons s → ks_misc s' = ks_misc s → storage_step s s'.
Proof.
  intros. exists (ks_procs s'), (ks_bufs s'), (ks_disk s'), (ks_wtrace s').
  destruct s, s'; simpl in *; by subst.
Qed.

Lemma storage_step_inv s s' :
  storage_step s s' →
  ks_held s' = ks_held s ∧ ks_cur s' = ks_cur s ∧ ks_nextpid s' = ks_nextpid s ∧
  ks_initproc s' = ks_initproc s ∧ ks_ticks s' = ks_ticks s ∧ ks_mem s' = ks_mem s ∧
  ks_freelist s' = ks_freelist s ∧ ks_use_lock s' = ks_use_lock s ∧ ks_log s' = ks_log s ∧
  ks_inodes s' = ks_inodes s ∧ ks_files s' = ks_files s ∧ ks_devsw s' = ks_devsw s ∧
  ks_pipes s' = ks_pipes s ∧ ks_cons s' = ks_cons s ∧ ks_misc s' = ks_misc s.
Proof. intros (ps & bs & d & w & ->). done. Qed.

Lemma storage_step_bufs s bs : storage_step s (set_bufs bs s).
Proof. by apply storage_step_intro. Qed.
Lemma storage_step_procs s ps : storage_step s (set_procs ps s).
Proof. by apply storage_step_intro. Qed.
Lemma storage_step_disk s d : storage_step s (set_disk d s).
Proof. by apply storage_step_intro. Qed.
Lemma storage_step_wtrace s w : storage_step s (set_wtrace w s).
Proof. by apply storage_step_intro. Qed.

Create HintDb storage.
#[export] Hint Resolve storage_step_bufs storage_step_procs storage_step_disk
  storage_step_wtrace : storage.

Section Frame.
Context (s s' : kstate) (H : storage_step s s').

Lemma storage_held : ks_held s' = ks_held s.
Proof using H. destruct H as (?&?&?&?&->). done. Qed.
Lemma storage_cur : ks_cur s' = ks_cur s.
Proof using H. destruct H as (?&?&?&?&->). done. Qed.
Lemma storage_log : ks_log s' = ks_log s.
Proof using H. destruct H as (?&?&?&?&->). done. Qed.
Lemma storage_inodes : ks_inodes s' = ks_inodes s.
Proof using H. destruct H as (?&?&?&?&->). done. Qed.
Lemma storage_files : ks_files s' = ks_files s.
Proof using H. destruct H as (?&?&?&?&->). done. Qed.
Lemma storage_devsw : ks_devsw s' = ks_devsw s.
Proof using H. destruct H as (?&?&?&?&->). done. Qed.

End Frame.

(** ** The interface *)

Class Ide := iderw : nat → K ().

(** The sector number of a buffer as an index into the disk. *)
Definition sect (b : buf) : nat := Z.to_nat (b_sector b).

(** [synced bf bf' d]: [bf'] is [bf] after a transfer that left [d] in it:
    same place in the cache, busy, valid and clean. *)
Record synced (bf bf' : buf) (d : list Z) : Prop := {
  sync_dev : b_dev bf' = b_dev bf;
  sync_sector : b_sector bf' = b_sector bf;
  sync_prev : b_prev bf' = b_prev bf;
  sync_next : b_next bf' = b_next bf;
  sync_data : b_data bf' = d;
  sync_busy : hasb (b_flags bf') B_BUSY = true;
  sync_valid : hasb (b_flags bf') B_VALID = true;
  sync_dirty : hasb (b_flags bf') B_DIRTY = false;
}.

(** A busy buffer of disk 1 with work to do is synchronised: a dirty one is
    written to its sector, any other is read from it. *)
Class IdeSpec `{Ide} : Prop := {
  iderw_write s b bf :
    ks_bufs s !! b = Some bf →
    hasb (b_flags bf) B_BUSY = true → hasb (b_flags bf) B_DIRTY = true →
    b_dev bf = 1 → 0 ≤ b_sector bf → (sect bf < length (ks_disk s))%nat →
    ks_held s = [] → is_Some (ks_cur s) →
    wp (iderw b) (λ _ s', ∃ bf', synced bf bf' (b_data bf) ∧
      storage_step s s' ∧ ks_bufs s' = <[b:=bf']> (ks_bufs s) ∧
      ks_disk s' = <[sect bf:=b_data bf]> (ks_disk s) ∧
      ks_wtrace s' = ks_wtrace s ++ [(b_sector bf, b_data bf)]) s;
  iderw_read s b bf d :
    ks_bufs s !! b = Some bf →
    hasb (b_flags bf) B_BUSY = true → hasb (b_flags bf) B_VALID = false →
    hasb (b_flags bf) B_DIRTY = false →
    b_dev bf = 1 → 0 ≤ b_sector bf → ks_disk s !! sect bf = Some d →
    ks_held s = [] → is_Some (ks_cur s) →
    wp (iderw b) (λ _ s', ∃ bf', synced bf bf' d ∧
      storage_step s s' ∧ ks_bufs s' = <[b:=bf']> (ks_bufs s) ∧
      ks_disk s' = ks_disk s ∧ ks_wtrace s' = ks_wtrace s) s;
}.

(** ** memide.c *)

(** [memmove(p, b->data, 512)] to the sector's place in the memory disk. *)
Definition disk_store (sec : nat) (b : buf) : K () :=
  modify (λ s, set_disk (<[sec:=b_data b]> (ks_disk s)) s);;
  modify (λ s, set_wtrace (ks_wtrace s ++ [(b_sector b, b_data b)]) s).

Definition memide_iderw (b : nat) : K () :=
  bf ← get_buf b;
  if negb (hasb (b_flags bf) B_BUSY) then panic "iderw: buf not busy" else
  if Z.land (b_flags bf) (Z.lor B_VALID B_DIRTY) =? B_VALID
  then panic "iderw: nothing to do" else
  if negb (b_dev bf =? 1) then panic "iderw: request not for disk 1" else
  disksize ← gets (λ s, Z.of_nat (length (ks_disk s)));
  if disksize <=? b_sector bf then panic "iderw: sector out of range" else
  (if hasb (b_flags bf) B_DIRTY then
     upd_buf b (λ x, with_b_flags (Z.land (b_flags x) (Z.lnot B_DIRTY)) x);;
     disk_store (sect bf) bf
   else
     disk ← gets ks_disk;
     d ← the (disk !! sect bf);
     upd_buf b (with_b_data d));;
  upd_buf b (λ x, with_b_flags (Z.lor (b_flags x) B_VALID) x).

(** [ideinit] of memide.c: the disk is the image [img] linked into the kernel,
    cut into sectors; what is left over at its end is not part of the disk. *)
Fixpoint sectors (n : nat) (img : list Z) : list (list Z) :=
  match n with O => [] | S n' => take 512 img :: sectors n' (drop 512 img) end.
Definition memide_ideinit (img : list Z) : K () :=
  modify (set_disk (sectors (Z.to_nat (Z.of_nat (length img) / 512)) img)).
Definition memide_ideintr : K () := mret ().

Lemma lookup_sectors n : ∀ img k, (k < n)%nat → sectors n img !! k = Some (slice (512 * k) 512 img).
Proof.
  induction n as [|n IH]; intros img k Hk; [lia|]. cbn [sectors]. destruct k as [|k]; [done|]. cbn [lookup list_lookup].
  rewrite IH by lia. unfold slice. rewrite drop_drop. do 3 f_equal. lia.
Qed.

(** The image is the sectors of the disk one after the other. *)
Lemma sectors_concat (dk : list (list Z)) : Forall (λ d, length d = 512%nat) dk →
  sectors (Z.to_nat (Z.of_nat (length (concat dk)) / 512)) (concat dk) = dk.
Proof.
  intros Hdk. assert (length (concat dk) = (512 * length dk)%nat) as ->.
  { induction Hdk as [|d dk Hd _ IH]; [done|]. cbn [concat length]. rewrite length_app, Hd, IH. lia. }
  rewrite Nat2Z.inj_mul, Z.mul_comm, Z.div_mul, Nat2Z.id by done.
  induction Hdk as [|d dk Hd _ IH]; [done|]. cbn [sectors concat length].
  by rewrite take_app_length', drop_app_length', IH by done.
Qed.

(** Sector [k] of the disk is bytes [512 k] to [512 k + 511] of the image. *)
Lemma memide_ideinit_spec img s :
  wp (memide_ideinit img) (λ _ s', Z.of_nat (length (ks_disk s')) = Z.of_nat (length img) / 512 ∧
    ∀ k d, ks_disk s' !! k = Some d → d = slice (512 * k) 512 img ∧ length d = 512%nat) s.
Proof.
  unfold memide_ideinit. wp_step. cbn [ks_disk set_disk]. set (n := Z.to_nat _). assert (length (sectors n img) = n) as Hn.
  { generalize n as m. generalize img as l. intros l m. revert l. induction m as [|m IH]; intros l; [done|]. simpl. by rewrite IH. }
  assert (Z.of_nat n = Z.of_nat (length img) / 512) as Hz by (apply Z2Nat.id; apply Z.div_pos; lia).
  split; [lia|]. intros k d Hd. pose proof (lookup_lt_Some _ _ _ Hd) as Hk. rewrite lookup_sectors in Hd by lia. injection Hd as <-.
  split; [done|]. apply length_slice. pose proof (Z.mul_div_le (Z.of_nat (length img)) 512). lia.
Qed.

(** [(flags & (B_VALID|B_DIRTY)) == B_VALID] in terms of the two flags. *)
Lemma valid_clean_test f :
  (Z.land f (Z.lor B_VALID B_DIRTY) =? B_VALID) = hasb f B_VALID && negb (hasb f B_DIRTY).
Proof.
  pose proof (hasb_pow2 f 1 ltac:(lia)) as V. pose proof (hasb_pow2 f 2 ltac:(lia)) as D.
  pose proof (land_pow2 f 1 ltac:(lia)) as LV. pose proof (land_pow2 f 2 ltac:(lia)) as LD.
  change (2 ^ 1) with 2 in *. change (2 ^ 2) with 4 in *.
  rewrite Z.land_lor_distr_r, V, D, LV, LD.
  by destruct (Z.testbit f 1), (Z.testbit f 2).
Qed.

Module Memide.

#[export] Instance memide : Ide := memide_iderw.

#[export] Instance memide_spec : IdeSpec.
Proof.
  split.
  - intros s b bf Hb Hbusy Hdirty Hdev H0 Hlt _ _. unfold iderw, memide, memide_iderw.
    wp_table; [done|]. rewrite Hbusy, valid_clean_test, Hdirty, andb_false_r. simpl.
    rewrite (proj2 (Z.eqb_eq _ _) Hdev). simpl. wp_steps. unfold sect in Hlt.
    rewrite (proj2 (Z.leb_gt _ _)) by lia.
    wp_step. wp_table; [done|]. unfold disk_store. wp_steps.
    eapply wp_upd_buf. { apply list_lookup_insert_eq. by eapply lookup_lt_Some. }
    eexists. split; [|split; [|split; [|split]]]; [|..|simpl; by rewrite list_insert_insert_eq|done|done].
    + split; simpl; autorewrite with flags; done.
    + by apply storage_step_intro.
  - intros s b bf d Hb Hbusy Hvalid Hdirty Hdev H0 Hd _ _. unfold iderw, memide, memide_iderw.
    wp_table; [done|]. rewrite Hbusy, valid_clean_test, Hdirty, Hvalid. simpl.
    rewrite (proj2 (Z.eqb_eq _ _) Hdev). simpl. wp_steps.
    pose proof (lookup_lt_Some _ _ _ Hd) as Hlt. unfold sect in Hlt.
    rewrite (proj2 (Z.leb_gt _ _)) by lia.
    wp_steps. eapply wp_the; [done|]. eapply wp_upd_buf; [done|].
    eapply wp_upd_buf. { apply list_lookup_insert_eq. by eapply lookup_lt_Some. }
    eexists. split; [|split; [|split; [|split]]]; [|..|simpl; by rewrite list_insert_insert_eq|done|done].
    + split; simpl; autorewrite with flags; done.
    + by apply storage_step_intro.
Qed.

End Memide.
