(* ===== verification/Bio.v ===== *)
(** * Bio: the buffer cache (bio.c)

    [bcache.buf] is a ring of buffers linked through [prev] and [next], the
    most recently released first.  The first half of the file is the code;
    the second shows that the links always represent a list of all buffers
    ([ring]), and that [bread], [bwrite] and [brelse] implement an abstract
    disk of lockable blocks ([cache]). *)

From S2P Require Import Prelude Bytes Kernel Sched Ide.

(** [&bcache.head]: the element after the [NBUF] buffers. *)
Abbreviation HEAD := NBUF.

(** ** The code *)

Section Code.
Context `{Ide}.

(** One turn of the loop of [binit]. *)
Definition binit_link (b : nat) : K () :=
  h ← get_buf HEAD; upd_buf b (with_b_next (b_next h));;
  upd_buf b (with_b_prev HEAD);;
  upd_buf b (with_b_dev (u32 (-1)));;
  h ← get_buf HEAD; upd_buf (b_next h) (with_b_prev b);;
  upd_buf HEAD (with_b_next b).

Fixpoint binit_loop (bs : list nat) : K () :=
  match bs with [] => mret () | b :: bs' => binit_link b;; binit_loop bs' end.

Definition binit : K () :=
  upd_buf HEAD (with_b_prev HEAD);;
  upd_buf HEAD (with_b_next HEAD);;
  binit_loop (seq 0 NBUF).

(** Follow the links [nx] from [b] to the first buffer that passes the test;
    the head ends the walk.  [fuel] bounds the number of buffers visited: a
    ring of [NBUF] buffers needs [NBUF]. *)
Fixpoint walk (nx : buf → nat) (p : buf → bool) (fuel : nat) (b : nat) : K (option nat) :=
  if bool_decide (b = HEAD) then mret None else
  match fuel with
  | O => fault
  | S n => bf ← get_buf b; if p bf then mret (Some b) else walk nx p n (nx bf)
  end.

Definition bget (dev sector : Z) : K nat :=
  acquire L_bcache;;
  h ← get_buf HEAD;
  hit ← walk b_next (λ b, (b_dev b =? dev) && (b_sector b =? sector)) NBUF (b_next h);
  match hit with
  | Some b =>
      bf ← get_buf b;
      if negb (hasb (b_flags bf) B_BUSY) then
        upd_buf b (λ x, with_b_flags (Z.lor (b_flags x) B_BUSY) x);;
        release L_bcache;;
        mret b
      else sleep (ChBuf b) L_bcache
  | None =>
      h ← get_buf HEAD;
      victim ← walk b_prev
        (λ b, negb (hasb (b_flags b) B_BUSY) && negb (hasb (b_flags b) B_DIRTY))
        NBUF (b_prev h);
      match victim with
      | Some b =>
          upd_buf b (with_b_dev dev);;
          upd_buf b (with_b_sector sector);;
          upd_buf b (with_b_flags B_BUSY);;
          release L_bcache;;
          mret b
      | None => panic "bget: no buffers"
      end
  end.

Definition bread (dev sector : Z) : K nat :=
  b ← bget dev sector;
  bf ← get_buf b;
  when (negb (hasb (b_flags bf) B_VALID)) (iderw b);;
  mret b.

Definition bwrite (b : nat) : K () :=
  bf ← get_buf b;
  if negb (hasb (b_flags bf) B_BUSY) then panic "bwrite" else
  upd_buf b (λ x, with_b_flags (Z.lor (b_flags x) B_DIRTY) x);;
  iderw b.

Definition brelse (b : nat) : K () :=
  bf ← get_buf b;
  if negb (hasb (b_flags bf) B_BUSY) then panic "brelse" else
  acquire L_bcache;;
  bf ← get_buf b; upd_buf (b_next bf) (with_b_prev (b_prev bf));;
  bf ← get_buf b; upd_buf (b_prev bf) (with_b_next (b_next bf));;
  h ← get_buf HEAD; upd_buf b (with_b_next (b_next h));;
  upd_buf b (with_b_prev HEAD);;
  h ← get_buf HEAD; upd_buf (b_next h) (with_b_prev b);;
  upd_buf HEAD (with_b_next b);;
  upd_buf b (λ x, with_b_flags (Z.land (b_flags x) (Z.lnot B_BUSY)) x);;
  wakeup (ChBuf b);;
  release L_bcache.

End Code.

(** ** Rings

    [nx] and [pv] are the two link fields as functions on indices;
    [chain nx pv a l e]: from [a], the links run through [l] to [e], in both
    directions. *)

Definition nx (bs : list buf) (i : nat) : nat := from_option b_next HEAD (bs !! i).
Definition pv (bs : list buf) (i : nat) : nat := from_option b_prev HEAD (bs !! i).

Fixpoint chain (n p : nat → nat) (a : nat) (l : list nat) (e : nat) : Prop :=
  match l with
  | [] => n a = e ∧ p e = a
  | x :: l' => n a = x ∧ p x = a ∧ chain n p x l' e
  end.

(** The links of [bs] represent the list [l] of all buffers. *)
Definition ring (bs : list buf) (l : list nat) : Prop :=
  length bs = S NBUF ∧ l ≡ₚ seq 0 NBUF ∧ chain (nx bs) (pv bs) HEAD l HEAD.

Section Chain.
Implicit Types (n p : nat → nat) (l : list nat).

Lemma chain_app n p a l1 x l2 e :
  chain n p a (l1 ++ x :: l2) e ↔ chain n p a l1 x ∧ chain n p x l2 e.
Proof. revert a. induction l1 as [|y l1 IH]; intros a; simpl; [|rewrite IH]; tauto. Qed.

Lemma chain_first n p a l e : chain n p a l e → n a = hd e l.
Proof. destruct l; simpl; tauto. Qed.

Lemma chain_ext n p n' p' a l e :
  (∀ i, i ∈ a :: l → n' i = n i) → (∀ i, i ∈ l ++ [e] → p' i = p i) →
  chain n p a l e → chain n' p' a l e.
Proof.
  revert a. induction l as [|x l IH]; intros a Hn Hp; simpl.
  - rewrite Hn, Hp by set_solver. done.
  - intros (? & ? & ?). rewrite Hn, Hp by set_solver. split_and!; [done|done|].
    apply IH; [|set_solver|done]. intros i Hi. apply Hn. set_solver.
Qed.

Lemma chain_rev n p a l e : chain n p a l e → chain p n e (reverse l) a.
Proof.
  revert a. induction l as [|x l IH]; intros a; simpl; [tauto|].
  rewrite reverse_cons. intros (Hn & Hp & H). apply chain_app. split; [by apply IH|]. done.
Qed.

(** Taking an element out of a chain, and putting one at its front. *)
Lemma chain_remove_first n p a x l e :
  NoDup (a :: x :: l) → e ∉ x :: l → chain n p a (x :: l) e →
  chain (<[p x:=n x]> n) (<[n x:=p x]> p) a l e.
Proof.
  intros Hnd He (_ & Hp & H). rewrite Hp. destruct l as [|y l]; simpl in *.
  - destruct H as [-> _]. by rewrite !fn_lookup_insert.
  - destruct H as (-> & _ & H). rewrite !fn_lookup_insert. split_and!; [done..|].
    rewrite !NoDup_cons in Hnd.
    eapply chain_ext; [..|done]; intros i Hi; apply fn_lookup_insert_ne; set_solver.
Qed.

Lemma chain_remove n p a l1 x l2 e :
  NoDup (a :: l1 ++ x :: l2) → e ∉ l1 ++ x :: l2 →
  chain n p a (l1 ++ x :: l2) e →
  chain (<[p x:=n x]> n) (<[n x:=p x]> p) a (l1 ++ l2) e.
Proof.
  destruct l1 as [|u l1 _] using rev_ind; [by apply chain_remove_first|].
  rewrite <-!app_assoc. simpl. intros Hnd He H. rewrite chain_app in H |- *.
  destruct H as [H1 H2]. rewrite app_comm_cons, NoDup_app in Hnd.
  destruct Hnd as (Hnd1 & Hdis & Hnd2).
  split; [|apply chain_remove_first; [done|set_solver|done]].
  pose proof H2 as (_ & Hp & H3). apply chain_first in H3. rewrite Hp, H3.
  eapply chain_ext; [..|done]; intros i Hi; apply fn_lookup_insert_ne.
  - intros <-. apply (Hdis u); set_solver.
  - intros <-. destruct l2 as [|w l2]; simpl in *; [set_solver|].
    rewrite !NoDup_cons in Hnd2. apply elem_of_app in Hi as [Hi|Hi].
    + apply (Hdis w); set_solver.
    + set_solver.
Qed.

Lemma chain_push n p a x l e :
  x ∉ a :: l → x ≠ e → (e = a ∨ e ∉ l) → NoDup (a :: l) → chain n p a l e →
  chain (<[a:=x]> (<[x:=n a]> n)) (<[n a:=x]> (<[x:=a]> p)) a (x :: l) e.
Proof.
  intros Hx Hxe Hea Hnd H. pose proof (chain_first _ _ _ _ _ H) as Hna. rewrite Hna.
  apply NoDup_cons in Hnd as [Ha Hnd]. split_and!.
  - by rewrite fn_lookup_insert.
  - rewrite fn_lookup_insert_ne; [by rewrite fn_lookup_insert|].
    destruct l; simpl; [done|set_solver].
  - destruct l as [|y l]; simpl in *.
    + rewrite fn_lookup_insert_ne, !fn_lookup_insert by set_solver. done.
    + destruct H as (_ & _ & H).
      rewrite fn_lookup_insert_ne, !fn_lookup_insert by set_solver. split_and!; [done..|].
      apply NoDup_cons in Hnd as [Hy Hnd].
      eapply chain_ext; [..|done]; intros i Hi; rewrite !fn_lookup_insert_ne; set_solver.
Qed.

End Chain.

(** *** Link updates on the array *)

(** What a buffer holds, its links apart. *)
Definition pay (b : buf) : Z * Z * Z * list Z := (b_flags b, b_dev b, b_sector b, b_data b).

Section Links.
Implicit Types (bs : list buf) (b i j : nat).

Lemma nx_alter_next bs i v j :
  (i < length bs)%nat → nx (alter (with_b_next v) i bs) j = (<[i:=v]> (nx bs)) j.
Proof.
  intros [x Hx]%lookup_lt_is_Some. unfold nx. destruct (decide (i = j)) as [->|Hne].
  - by rewrite list_lookup_alter_eq, Hx, fn_lookup_insert.
  - by rewrite list_lookup_alter_ne, fn_lookup_insert_ne.
Qed.

Lemma pv_alter_prev bs i v j :
  (i < length bs)%nat → pv (alter (with_b_prev v) i bs) j = (<[i:=v]> (pv bs)) j.
Proof.
  intros [x Hx]%lookup_lt_is_Some. unfold pv. destruct (decide (i = j)) as [->|Hne].
  - by rewrite list_lookup_alter_eq, Hx, fn_lookup_insert.
  - by rewrite list_lookup_alter_ne, fn_lookup_insert_ne.
Qed.

Lemma nx_alter f bs i j : (∀ x, b_next (f x) = b_next x) → nx (alter f i bs) j = nx bs j.
Proof.
  intros Hf. unfold nx. destruct (decide (i = j)) as [->|Hne].
  - rewrite list_lookup_alter_eq. destruct (bs !! j); simpl; auto.
  - by rewrite list_lookup_alter_ne.
Qed.

Lemma pv_alter f bs i j : (∀ x, b_prev (f x) = b_prev x) → pv (alter f i bs) j = pv bs j.
Proof.
  intros Hf. unfold pv. destruct (decide (i = j)) as [->|Hne].
  - rewrite list_lookup_alter_eq. destruct (bs !! j); simpl; auto.
  - by rewrite list_lookup_alter_ne.
Qed.

Lemma pay_alter f bs i : (∀ x, pay (f x) = pay x) → pay <$> alter f i bs = pay <$> bs.
Proof.
  intros Hf. apply list_eq. intros j. rewrite !list_lookup_fmap.
  destruct (decide (i = j)) as [->|Hne].
  - rewrite list_lookup_alter_eq. destruct (bs !! j); simpl; by rewrite ?Hf.
  - by rewrite list_lookup_alter_ne.
Qed.

(** The six link assignments of [brelse] as one function. *)
Definition unlink bs b : list buf :=
  let bs1 := alter (with_b_prev (pv bs b)) (nx bs b) bs in
  alter (with_b_next (nx bs1 b)) (pv bs1 b) bs1.
Definition push_front bs b : list buf :=
  let bs1 := alter (with_b_next (nx bs HEAD)) b bs in
  let bs2 := alter (with_b_prev HEAD) b bs1 in
  let bs3 := alter (with_b_prev b) (nx bs2 HEAD) bs2 in
  alter (with_b_next b) HEAD bs3.

Lemma length_unlink bs b : length (unlink bs b) = length bs.
Proof. unfold unlink. len. Qed.
Lemma length_push_front bs b : length (push_front bs b) = length bs.
Proof. unfold push_front. len. Qed.
Lemma pay_unlink bs b : pay <$> unlink bs b = pay <$> bs.
Proof. unfold unlink. by rewrite !pay_alter. Qed.
Lemma pay_push_front bs b : pay <$> push_front bs b = pay <$> bs.
Proof. unfold push_front. by rewrite !pay_alter. Qed.

Lemma ring_NoDup bs l : ring bs l → NoDup (HEAD :: l).
Proof.
  intros (_ & Hp & _). apply NoDup_cons. split.
  - rewrite Hp, elem_of_seq. lia.
  - rewrite Hp. apply NoDup_seq.
Qed.

Lemma ring_elem bs l b : ring bs l → (b ∈ l ↔ b < NBUF)%nat.
Proof. intros (_ & Hp & _). rewrite Hp, elem_of_seq. lia. Qed.

(** The links of a ring stay inside the array. *)
Lemma chain_range (n p : nat → nat) a l e (P : nat → Prop) :
  chain n p a l e → P a → P e → (∀ i, i ∈ l → P i) →
  ∀ i, i ∈ a :: l → P (n i) ∧ (i ∈ l → P (p i)).
Proof.
  revert a. induction l as [|x l IH]; intros a; simpl.
  - intros [Hn Hp] Ha He _ i Hi. apply elem_of_cons in Hi as [->|Hi]; [|set_solver].
    split; [by rewrite Hn|set_solver].
  - intros (Hn & Hp & H) Ha He Hl i Hi. apply elem_of_cons in Hi as [->|Hi].
    + split; [rewrite Hn; apply Hl; set_solver|]. intros Hi.
      apply elem_of_cons in Hi as [->|Hi]; [by rewrite Hp|].
      eapply IH; [done|set_solver..|by right|done].
    + destruct (IH x H ltac:(set_solver) He ltac:(set_solver) i Hi) as [H1 H2].
      split; [done|]. intros Hi'. apply elem_of_cons in Hi' as [->|Hi']; [by rewrite Hp|auto].
Qed.

Lemma ring_range bs l b :
  ring bs l → (b < NBUF)%nat → (nx bs b < length bs ∧ pv bs b < length bs)%nat.
Proof.
  intros Hr Hb. pose proof Hr as (Hlen & Hp & Hc). rewrite Hlen.
  apply (ring_elem _ _ _ Hr) in Hb.
  destruct (chain_range _ _ _ _ _ (λ i, i < S NBUF)%nat Hc) with (i := b) as [H1 H2];
    [lia|lia| |by right|auto].
  intros i. rewrite (ring_elem _ _ _ Hr). lia.
Qed.

Lemma ring_head_range bs l : ring bs l → (nx bs HEAD < length bs)%nat.
Proof.
  intros Hr. pose proof Hr as (Hlen & Hp & Hc). rewrite Hlen.
  destruct (chain_range _ _ _ _ _ (λ i, i < S NBUF)%nat Hc) with (i := HEAD) as [H1 _];
    [lia|lia| |by left|done]. intros i. rewrite (ring_elem _ _ _ Hr). lia.
Qed.

Lemma chain_neq n p a l1 x l2 e :
  NoDup (a :: l1 ++ x :: l2) → e ≠ x → chain n p a (l1 ++ x :: l2) e → n x ≠ x ∧ p x ≠ x.
Proof.
  intros Hnd He H. split.
  - apply chain_app in H as [_ H]. rewrite (chain_first _ _ _ _ _ H).
    destruct l2 as [|y l2]; [done|]. simpl.
    apply NoDup_cons in Hnd as [_ Hnd]. apply NoDup_app in Hnd as (_ & _ & Hnd).
    rewrite !NoDup_cons in Hnd. set_solver.
  - destruct l1 as [|u l1 _] using rev_ind.
    + destruct H as (_ & -> & _). rewrite !NoDup_cons in Hnd. set_solver.
    + rewrite <-app_assoc in H, Hnd. simpl in *. apply chain_app in H as [_ (_ & -> & _)].
      apply NoDup_cons in Hnd as [_ Hnd]. apply NoDup_app in Hnd as (_ & _ & Hnd).
      rewrite !NoDup_cons in Hnd. set_solver.
Qed.

Lemma chain_push_front bs b l :
  length bs = S NBUF → (b < NBUF)%nat → (∀ i, i ∈ l → i < NBUF)%nat → NoDup l → b ∉ l →
  chain (nx bs) (pv bs) HEAD l HEAD →
  chain (nx (push_front bs b)) (pv (push_front bs b)) HEAD (b :: l) HEAD.
Proof.
  intros Hlen Hb Hl Hnd Hbl Hc. assert (HEAD ≠ b) as Hhb by lia.
  assert (HEAD ∉ l) as Hhl by (intros ?%Hl; lia).
  assert (nx bs HEAD < length bs)%nat as Hh.
  { rewrite (chain_first _ _ _ _ _ Hc), Hlen. destruct l as [|x l]; simpl; [lia|].
    specialize (Hl x ltac:(set_solver)). lia. }
  assert (Hh2 : nx (alter (with_b_prev HEAD) b (alter (with_b_next (nx bs HEAD)) b bs)) HEAD
    = nx bs HEAD).
  { rewrite nx_alter by done. by rewrite nx_alter_next, fn_lookup_insert_ne by (done || lia). }
  eapply chain_ext; [..|apply chain_push, Hc; [set_solver|done|by left|by apply NoDup_cons]];
    intros i _; unfold push_front; rewrite Hh2.
  - rewrite nx_alter_next by (len; lia).
    destruct (decide (HEAD = i)) as [->|]; [by rewrite !fn_lookup_insert|].
    rewrite !(fn_lookup_insert_ne _ HEAD i) by done. rewrite !nx_alter by done.
    apply nx_alter_next. lia.
  - rewrite pv_alter by done. rewrite pv_alter_prev by (len; lia).
    destruct (decide (nx bs HEAD = i)) as [->|]; [by rewrite !fn_lookup_insert|].
    rewrite !(fn_lookup_insert_ne _ (nx bs HEAD) i) by done.
    rewrite pv_alter_prev by (len; lia).
    destruct (decide (b = i)) as [->|]; [by rewrite !fn_lookup_insert|].
    rewrite !(fn_lookup_insert_ne _ b i) by done. by apply pv_alter.
Qed.

Lemma chain_unlink bs l b :
  ring bs l → (b < NBUF)%nat →
  chain (nx (unlink bs b)) (pv (unlink bs b)) HEAD (filter (λ i, i ≠ b) l) HEAD.
Proof.
  intros Hr Hb. pose proof (ring_NoDup _ _ Hr) as Hnd.
  pose proof (ring_range _ _ _ Hr Hb) as [Hn Hp].
  pose proof Hr as (Hlen & Hperm & Hc).
  apply (ring_elem _ _ _ Hr) in Hb as Hbl. apply list_elem_of_split in Hbl as (l1 & l2 & ->).
  assert (HEAD ≠ b) as Hhb by lia.
  pose proof (chain_neq _ _ _ _ _ _ _ Hnd Hhb Hc) as [Hnb Hpb].
  assert (Hf : filter (λ i, i ≠ b) (l1 ++ b :: l2) = l1 ++ l2).
  { rewrite filter_app, filter_cons_False by naive_solver.
    apply NoDup_cons in Hnd as [_ Hnd]. apply NoDup_app in Hnd as (_ & Hd & Hnd).
    apply NoDup_cons in Hnd as [Hb2 _].
    rewrite !filter_ne_id; [done|done|]. intros Hb1. apply (Hd b Hb1). by left. }
  rewrite Hf. eapply chain_ext; [..|apply chain_remove, Hc; [done|]]; unfold unlink.
  - intros i _. rewrite pv_alter_prev, fn_lookup_insert_ne by done.
    rewrite nx_alter_next by len. rewrite nx_alter by done.
    destruct (decide (pv bs b = i)) as [->|];
      [by rewrite !fn_lookup_insert|by rewrite !fn_lookup_insert_ne, nx_alter by done].
  - intros i _. rewrite pv_alter by done. by rewrite pv_alter_prev.
  - apply NoDup_cons in Hnd. set_solver.
Qed.

Lemma unlink_head_range bs l b :
  ring bs l → (b < NBUF)%nat → (nx (unlink bs b) HEAD < S NBUF)%nat.
Proof.
  intros Hr Hb. rewrite (chain_first _ _ _ _ _ (chain_unlink _ _ _ Hr Hb)).
  destruct (filter _ l) as [|x k] eqn:E; simpl; [lia|].
  assert (x ∈ l) as Hx by (eapply list_elem_of_filter; rewrite E; by left).
  apply (ring_elem _ _ _ Hr) in Hx. lia.
Qed.

(** Releasing a buffer moves it to the front of the list. *)
Lemma ring_move_front bs l b :
  ring bs l → (b < NBUF)%nat →
  ring (push_front (unlink bs b) b) (b :: filter (λ i, i ≠ b) l).
Proof.
  intros Hr Hb. pose proof (ring_NoDup _ _ Hr) as [_ Hnd]%NoDup_cons.
  pose proof Hr as (Hlen & Hperm & Hc).
  assert (Hin : ∀ i, i ∈ filter (λ i, i ≠ b) l → (i < NBUF)%nat ∧ i ≠ b).
  { intros i [Hi Hl]%list_elem_of_filter. split; [by apply (ring_elem _ _ _ Hr)|done]. }
  split_and!.
  - by rewrite length_push_front, length_unlink.
  - rewrite <-Hperm. apply (ring_elem _ _ _ Hr) in Hb.
    apply list_elem_of_split in Hb as (l1 & l2 & ->).
    rewrite filter_app, filter_cons_False by naive_solver.
    apply NoDup_app in Hnd as (_ & Hd & [Hb2 _]%NoDup_cons).
    rewrite !filter_ne_id; [apply Permutation_middle|done|].
    intros Hb1. apply (Hd b Hb1). by left.
  - apply chain_push_front; [by rewrite length_unlink|done|..|by apply chain_unlink].
    + intros i Hi. by apply Hin.
    + by apply NoDup_filter.
    + intros Hi. by apply Hin in Hi as [_ ?].
Qed.

End Links.

(** *** Walking the ring *)

(** The first buffer of [l] that passes the test. *)
Definition pick (p : buf → bool) (bs : list buf) (l : list nat) : option nat :=
  List.find (λ i, from_option p false (bs !! i)) l.

Lemma pick_Some p bs l i :
  pick p bs l = Some i → i ∈ l ∧ ∃ bf, bs !! i = Some bf ∧ p bf = true.
Proof.
  intros [Hin Hp]%List.find_some. split; [by apply list_elem_of_In|].
  destruct (bs !! i) as [bf|]; [by eauto|done].
Qed.

Lemma pick_None p bs l i bf : pick p bs l = None → i ∈ l → bs !! i = Some bf → p bf = false.
Proof.
  intros H Hi Hb. apply list_elem_of_In in Hi.
  pose proof (List.find_none _ _ H _ Hi) as Hp. simpl in Hp. by rewrite Hb in Hp.
Qed.

Lemma wp_walk f p q a l fuel s (Q : option nat → kstate → Prop) :
  chain (λ i, from_option f HEAD (ks_bufs s !! i)) q a l HEAD →
  length (ks_bufs s) = S NBUF → (∀ i, i ∈ l → i < NBUF)%nat → (length l ≤ fuel)%nat →
  Q (pick p (ks_bufs s) l) s → wp (walk f p fuel (hd HEAD l)) Q s.
Proof.
  intros Hc Hlen. revert a fuel Hc. induction l as [|x l IH]; intros a fuel Hc Hl Hf HQ; simpl.
  { by destruct fuel. }
  destruct fuel as [|fuel]; simpl in Hf; [lia|]. simpl.
  pose proof (Hl x ltac:(set_solver)) as Hx. rewrite bool_decide_false by lia.
  destruct (lookup_lt_is_Some_2 (ks_bufs s) x) as [bf Hbf]; [lia|].
  unfold pick in HQ. simpl in HQ. rewrite Hbf in HQ. simpl in HQ.
  wp_table; [done|]. destruct (p bf); [done|].
  destruct Hc as (_ & _ & Hc). pose proof (chain_first _ _ _ _ _ Hc) as Hfx.
  cbv beta in Hfx. rewrite Hbf in Hfx. simpl in Hfx. rewrite Hfx.
  eapply IH; [done|set_solver|lia|done].
Qed.

(** ** The cache as an abstract disk

    [cache bs dk V B D]: the buffers [bs] over the disk [dk] present the
    blocks [V]; [B] is the set of blocks some process holds (busy buffers),
    [D] the set of blocks whose buffer is dirty. *)

Definition busy (b : buf) : bool := hasb (b_flags b) B_BUSY.
Definition valid (b : buf) : bool := hasb (b_flags b) B_VALID.
Definition dirty (b : buf) : bool := hasb (b_flags b) B_DIRTY.

Record slot_ok (dk : list (list Z)) (V : Z → list Z) (b : buf) : Prop := {
  so_data : block_ok (b_data b);
  so_dev : busy b = true ∨ valid b = true ∨ dirty b = true → b_dev b = 1;
  so_sector : b_dev b = 1 → 0 ≤ b_sector b ∧ (sect b < length dk)%nat;
  so_dirty : dirty b = true → valid b = true;
  so_view : valid b = true → b_data b = V (b_sector b);
  so_clean : valid b = true → busy b = false → dirty b = false →
    dk !! sect b = Some (b_data b);
}.

Definition slot (bs : list buf) (i : nat) (b : buf) : Prop := (i < NBUF)%nat ∧ bs !! i = Some b.

Record cache (bs : list buf) (dk : list (list Z)) (V : Z → list Z) (B D : gset Z) : Prop := {
  ca_ring : ∃ l, ring bs l;
  ca_disk : Forall block_ok dk;
  ca_slot : ∀ i b, slot bs i b → slot_ok dk V b;
  ca_uniq : ∀ i j bi bj, slot bs i bi → slot bs j bj →
    b_dev bi = 1 → b_dev bj = 1 → b_sector bi = b_sector bj → i = j;
  ca_busy : ∀ x, x ∈ B ↔ ∃ i b, slot bs i b ∧ busy b = true ∧ b_sector b = x;
  ca_dirty : ∀ x, x ∈ D ↔ ∃ i b, slot bs i b ∧ dirty b = true ∧ b_sector b = x;
  ca_view : ∀ x d, 0 ≤ x → dk !! Z.to_nat x = Some d →
    (∀ i b, slot bs i b → valid b = true → b_sector b ≠ x) → V x = d;
}.

(** Only the blocks of the disk matter in a view. *)
Lemma cache_ext bs dk V V' B D :
  (∀ x, 0 ≤ x → (Z.to_nat x < length dk)%nat → V' x = V x) → cache bs dk V B D → cache bs dk V' B D.
Proof.
  intros E [C1 C2 C3 C4 C5 C6 C7]. split; try done.
  - intros i b Hb. destruct (C3 i b Hb) as [S1 S2 S3 S4 S5 S6]. split; try done. intros Hv.
    destruct S3 as [H0 Hx]; [auto|]. rewrite E by done. auto.
  - intros x d Hx Hd Hn. rewrite E; [by eapply C7|done|by eapply lookup_lt_Some].
Qed.

(** [owned bs b x]: buffer [b] is busy and holds block [x]. *)
Definition owned (bs : list buf) (b : nat) (x : Z) : Prop :=
  ∃ bf, slot bs b bf ∧ b_dev bf = 1 ∧ b_sector bf = x ∧ busy bf = true ∧ valid bf = true.

Section Cache.
Context (bs : list buf) (dk : list (list Z)) (V : Z → list Z) (B D : gset Z).
Context (Hc : cache bs dk V B D).

Lemma cache_length : length bs = S NBUF.
Proof using Hc. by destruct (ca_ring _ _ _ _ _ Hc) as (l & H & _). Qed.

Lemma slot_lookup i : (i < NBUF)%nat → ∃ b, slot bs i b.
Proof using Hc.
  intros Hi. destruct (lookup_lt_is_Some_2 bs i) as [b Hb]; [rewrite cache_length; lia|].
  by exists b.
Qed.

Lemma slot_inj i b b' : slot bs i b → slot bs i b' → b = b'.
Proof. intros [_ H] [_ H']. congruence. Qed.

Lemma owned_busy b x : owned bs b x → x ∈ B.
Proof using Hc. intros (bf & Hs & _ & Hx & Hb & _). apply (ca_busy _ _ _ _ _ Hc). by exists b, bf. Qed.

Lemma owned_inj b b' x : owned bs b x → owned bs b' x → b = b'.
Proof using Hc.
  intros (bf & Hs & Hd & Hx & _) (bf' & Hs' & Hd' & Hx' & _).
  by eapply (ca_uniq _ _ _ _ _ Hc); [done..|congruence].
Qed.

Lemma owned_view b x : owned bs b x →
  ∃ bf, slot bs b bf ∧ b_data bf = V x ∧ b_sector bf = x ∧ b_dev bf = 1 ∧
    busy bf = true ∧ valid bf = true ∧ 0 ≤ x ∧ (Z.to_nat x < length dk)%nat.
Proof using Hc.
  intros (bf & Hs & Hd & <- & Hb & Hv). exists bf.
  pose proof (ca_slot _ _ _ _ _ Hc _ _ Hs) as Hok.
  destruct (so_sector _ _ _ Hok Hd). split_and!; try done. by apply so_view with dk.
Qed.

(** Some buffer holds the block, or none does. *)
Lemma slot_find p : (∃ i b, slot bs i b ∧ p b = true) ∨ (∀ i b, slot bs i b → p b = false).
Proof using Hc.
  destruct (pick p bs (seq 0 NBUF)) as [i|] eqn:E.
  - left. apply pick_Some in E as (Hi & b & Hb & Hp). exists i, b.
    split; [|done]. split; [|done]. apply elem_of_seq in Hi. lia.
  - right. intros i b [Hi Hb]. eapply pick_None; [done| |done]. apply elem_of_seq. lia.
Qed.

Lemma view_ok x : 0 ≤ x → (Z.to_nat x < length dk)%nat → block_ok (V x).
Proof using Hc.
  intros H0 Hx. destruct (lookup_lt_is_Some_2 dk (Z.to_nat x)) as [d Hd]; [done|].
  destruct (slot_find (λ b, valid b && (b_sector b =? x))) as [(i & b & Hs & Hb)|Hn].
  - apply andb_true_iff in Hb as [Hv <-%Z.eqb_eq].
    pose proof (ca_slot _ _ _ _ _ Hc _ _ Hs) as Hok.
    rewrite <-(so_view _ _ _ Hok Hv). apply Hok.
  - rewrite (ca_view _ _ _ _ _ Hc x d H0 Hd).
    + by eapply Forall_lookup_1 in Hd; [|apply (ca_disk _ _ _ _ _ Hc)].
    + intros i b Hs Hv <-. specialize (Hn i b Hs). by rewrite Hv, Z.eqb_refl in Hn.
Qed.

(** A clean block reads as on the disk. *)
Lemma view_clean x d : x ∉ B → x ∉ D → 0 ≤ x → dk !! Z.to_nat x = Some d → V x = d.
Proof using Hc.
  intros HB HD H0 Hd.
  destruct (slot_find (λ b, valid b && (b_sector b =? x))) as [(i & b & Hs & Hb)|Hn].
  - apply andb_true_iff in Hb as [Hv <-%Z.eqb_eq].
    pose proof (ca_slot _ _ _ _ _ Hc _ _ Hs) as Hok. rewrite <-(so_view _ _ _ Hok Hv).
    assert (dk !! sect b = Some (b_data b)) as Hcl.
    { apply (so_clean _ _ _ Hok Hv).
      - apply not_true_iff_false. intros Hb. apply HB, (ca_busy _ _ _ _ _ Hc). by exists i, b.
      - apply not_true_iff_false. intros Hb. apply HD, (ca_dirty _ _ _ _ _ Hc). by exists i, b. }
    unfold sect in Hcl. congruence.
  - apply (ca_view _ _ _ _ _ Hc x d H0 Hd).
    intros i b Hs Hv <-. specialize (Hn i b Hs). by rewrite Hv, Z.eqb_refl in Hn.
Qed.

End Cache.

(** *** Changing one buffer *)

Section Update.
Context (bs : list buf) (dk : list (list Z)) (V : Z → list Z) (B D : gset Z).
Context (Hc : cache bs dk V B D).
Context (i : nat) (b : buf) (Hb : slot bs i b).

(** Some buffer other than [i] satisfies [p] and holds block [x]. *)
Definition others (p : buf → bool) (x : Z) : Prop :=
  ∃ j bj, j ≠ i ∧ slot bs j bj ∧ p bj = true ∧ b_sector bj = x.

Lemma slots_split p x :
  (∃ j bj, slot bs j bj ∧ p bj = true ∧ b_sector bj = x) ↔
  (p b = true ∧ b_sector b = x) ∨ others p x.
Proof using Hb.
  split.
  - intros (j & bj & Hs & Hp & Hx). destruct (decide (j = i)) as [->|Hne].
    + left. by rewrite (slot_inj _ _ _ _ Hb Hs).
    + right. by exists j, bj.
  - intros [[Hp Hx]|(j & bj & _ & Hs & Hp & Hx)]; [by exists i, b|by exists j, bj].
Qed.

Lemma others_ne p x :
  (∀ c, slot_ok dk V c → p c = true → b_dev c = 1) → b_dev b = 1 → others p x → b_sector b ≠ x.
Proof using Hb Hc.
  intros Hp Hd (j & bj & Hne & Hs & Hpj & Hx) Heq. apply Hne.
  eapply (ca_uniq _ _ _ _ _ Hc); [done..| |done|congruence].
  eapply Hp; [|done]. by eapply (ca_slot _ _ _ _ _ Hc).
Qed.

Lemma slot_insert b' j bj :
  slot (<[i:=b']> bs) j bj → (j = i ∧ bj = b') ∨ (j ≠ i ∧ slot bs j bj).
Proof using Hb.
  destruct Hb as [Hi Hl]. intros [Hj Hlj]. destruct (decide (j = i)) as [->|Hne].
  - left. rewrite list_lookup_insert_eq in Hlj by (by eapply lookup_lt_Some). by simplify_eq.
  - right. rewrite list_lookup_insert_ne in Hlj by done. done.
Qed.

Lemma slot_insert_eq b' : slot (<[i:=b']> bs) i b'.
Proof using Hb.
  destruct Hb as [Hi Hl]. split; [done|]. apply list_lookup_insert_eq. by eapply lookup_lt_Some.
Qed.

Lemma slot_insert_ne b' j bj : j ≠ i → slot bs j bj → slot (<[i:=b']> bs) j bj.
Proof. intros Hne [Hj Hlj]. split; [done|]. by rewrite list_lookup_insert_ne. Qed.

Lemma ring_insert b' l :
  b_next b' = b_next b → b_prev b' = b_prev b → ring bs l → ring (<[i:=b']> bs) l.
Proof using Hb.
  destruct Hb as [_ Hl]. intros Hn Hp (Hlen & Hperm & Hch). split_and!; [by len|done|].
  eapply chain_ext; [..|done]; intros j _; unfold nx, pv;
    (destruct (decide (i = j)) as [<-|]; [rewrite list_lookup_insert_eq, Hl by (by eapply lookup_lt_Some)|by rewrite list_lookup_insert_ne]);
    simpl; congruence.
Qed.

Lemma cache_set b' dk' V' B' D' :
  b_next b' = b_next b → b_prev b' = b_prev b →
  Forall block_ok dk' → slot_ok dk' V' b' →
  (∀ j bj, j ≠ i → slot bs j bj → slot_ok dk V bj → slot_ok dk' V' bj) →
  (b_dev b' = 1 → ∀ j bj, j ≠ i → slot bs j bj → b_dev bj = 1 → b_sector bj ≠ b_sector b') →
  (∀ x, x ∈ B' ↔ (busy b' = true ∧ b_sector b' = x) ∨ others busy x) →
  (∀ x, x ∈ D' ↔ (dirty b' = true ∧ b_sector b' = x) ∨ others dirty x) →
  (∀ x d, 0 ≤ x → dk' !! Z.to_nat x = Some d → (valid b' = true → b_sector b' ≠ x) →
    (∀ j bj, j ≠ i → slot bs j bj → valid bj = true → b_sector bj ≠ x) → V' x = d) →
  cache (<[i:=b']> bs) dk' V' B' D'.
Proof using Hb Hc.
  intros Hn Hp Hdk Hok Hoth Huniq HB HD Hview.
  assert (Hsets : ∀ p x, (∃ j bj, slot (<[i:=b']> bs) j bj ∧ p bj = true ∧ b_sector bj = x) ↔
    (p b' = true ∧ b_sector b' = x) ∨ others p x).
  { intros p x. split.
    - intros (j & bj & [[-> ->]|[Hne Hs]]%slot_insert & Hpj & Hx); [by left|].
      right. by exists j, bj.
    - intros [[Hpj Hx]|(j & bj & Hne & Hs & Hpj & Hx)].
      + exists i, b'. split; [apply slot_insert_eq|done].
      + exists j, bj. split; [by apply slot_insert_ne|done]. }
  split.
  - destruct (ca_ring _ _ _ _ _ Hc) as [l Hr]. exists l. by apply ring_insert.
  - done.
  - intros j bj [[-> ->]|[Hne Hs]]%slot_insert; [done|].
    eapply Hoth; [done..|]. by eapply (ca_slot _ _ _ _ _ Hc).
  - intros j k bj bk [[-> ->]|[Hnej Hsj]]%slot_insert [[-> ->]|[Hnek Hsk]]%slot_insert Hdj Hdk' Heq.
    + done.
    + by destruct (Huniq Hdj k bk Hnek Hsk Hdk').
    + by destruct (Huniq Hdk' j bj Hnej Hsj Hdj).
    + by eapply (ca_uniq _ _ _ _ _ Hc).
  - intros x. rewrite Hsets. apply HB.
  - intros x. rewrite Hsets. apply HD.
  - intros x d H0 Hd Hno. apply Hview; [done|done|..].
    + intros Hv. apply (Hno i b'); [apply slot_insert_eq|done].
    + intros j bj Hne Hs Hv. apply (Hno j bj); [by apply slot_insert_ne|done].
Qed.

Lemma owned_insert b' j x : j ≠ i → owned bs j x → owned (<[i:=b']> bs) j x.
Proof. intros Hne (bf & Hs & ?). exists bf. split; [by apply slot_insert_ne|done]. Qed.

End Update.

(** Moving buffers in the ring changes nothing else. *)
Lemma pay_slot bs bs' i b' :
  pay <$> bs' = pay <$> bs → slot bs' i b' → ∃ b, slot bs i b ∧ pay b = pay b'.
Proof.
  intros Hp [Hi Hl]. apply (f_equal (.!! i)) in Hp. rewrite !list_lookup_fmap, Hl in Hp.
  destruct (bs !! i) as [b|] eqn:E; [|done]. exists b. simpl in Hp. injection Hp. intros.
  split; [done|]. unfold pay. congruence.
Qed.

Lemma slot_ok_pay dk V b b' : pay b = pay b' → slot_ok dk V b → slot_ok dk V b'.
Proof.
  unfold pay. intros Heq Hok. injection Heq. intros Ed Es Edv Ef.
  destruct Hok as [H1 H2 H3 H4 H5 H6]. unfold busy, valid, dirty, sect in *.
  rewrite Ed, Es, Edv, Ef in *. by split.
Qed.

Lemma cache_pay bs bs' dk V B D l :
  pay <$> bs' = pay <$> bs → ring bs' l → cache bs dk V B D → cache bs' dk V B D.
Proof.
  intros Hp Hr Hc.
  assert (Hp' : pay <$> bs = pay <$> bs') by done.
  assert (Hsets : ∀ (p : buf → bool) x, (∀ c c', pay c = pay c' → p c = p c') →
    (∃ i b, slot bs i b ∧ p b = true ∧ b_sector b = x) ↔
    (∃ i b, slot bs' i b ∧ p b = true ∧ b_sector b = x)).
  { intros p x Hpp. split; intros (i & b & Hs & Hpb & Hx).
    - destruct (pay_slot _ _ _ _ Hp' Hs) as (b' & Hs' & Heq). exists i, b'.
      rewrite (Hpp _ _ Heq). split_and!; [done..|]. unfold pay in Heq. congruence.
    - destruct (pay_slot _ _ _ _ Hp Hs) as (b' & Hs' & Heq). exists i, b'.
      rewrite (Hpp _ _ Heq). split_and!; [done..|]. unfold pay in Heq. congruence. }
  split.
  - by exists l.
  - apply Hc.
  - intros i b' Hs. destruct (pay_slot _ _ _ _ Hp Hs) as (b & Hs' & Heq).
    eapply slot_ok_pay; [done|]. by eapply (ca_slot _ _ _ _ _ Hc).
  - intros i j bi bj Hi Hj Hdi Hdj Hsec.
    destruct (pay_slot _ _ _ _ Hp Hi) as (ci & Hi' & Ei).
    destruct (pay_slot _ _ _ _ Hp Hj) as (cj & Hj' & Ej). unfold pay in *.
    eapply (ca_uniq _ _ _ _ _ Hc); [done..|congruence|congruence|congruence].
  - intros x. rewrite (ca_busy _ _ _ _ _ Hc). apply Hsets.
    unfold pay, busy. congruence.
  - intros x. rewrite (ca_dirty _ _ _ _ _ Hc). apply Hsets.
    unfold pay, dirty. congruence.
  - intros x d H0 Hd Hno. apply (ca_view _ _ _ _ _ Hc x d H0 Hd).
    intros i b Hs Hv. destruct (pay_slot _ _ _ _ Hp' Hs) as (b' & Hs' & Heq).
    specialize (Hno i b' Hs'). unfold pay, valid in *. intros <-. apply Hno; congruence.
Qed.

Lemma owned_pay bs bs' j x : pay <$> bs' = pay <$> bs → owned bs j x → owned bs' j x.
Proof.
  intros Hp (bf & Hs & ? & ? & ? & ?). symmetry in Hp.
  destruct (pay_slot _ _ _ _ Hp Hs) as (bf' & Hs' & Heq).
  exists bf'. unfold pay, busy, valid in *. split_and!; [done|congruence..].
Qed.

(** *** The transitions of a buffer *)

Ltac flags := unfold busy, valid, dirty in *; simpl in *; autorewrite with flags in *.

Section Transitions.
Context (bs : list buf) (dk : list (list Z)) (V : Z → list Z) (B D : gset Z).
Context (Hc : cache bs dk V B D).
Context (i : nat) (b : buf) (Hb : slot bs i b).

Let Hok : slot_ok dk V b := ca_slot _ _ _ _ _ Hc _ _ Hb.

Lemma others_dev p x :
  (∀ c, p c = true → busy c = true ∨ valid c = true ∨ dirty c = true) →
  b_dev b = 1 → others bs i p x → b_sector b ≠ x.
Proof using Hb Hc. intros Hp. eapply others_ne; [done..|]. intros c Hcok ?. apply Hcok. auto. Qed.

Lemma in_B x : x ∈ B ↔ (busy b = true ∧ b_sector b = x) ∨ others bs i busy x.
Proof using Hb Hc. rewrite (ca_busy _ _ _ _ _ Hc). by apply slots_split. Qed.
Lemma in_D x : x ∈ D ↔ (dirty b = true ∧ b_sector b = x) ∨ others bs i dirty x.
Proof using Hb Hc. rewrite (ca_dirty _ _ _ _ _ Hc). by apply slots_split. Qed.

Lemma others_sector j bj : b_dev b = 1 → j ≠ i → slot bs j bj → b_dev bj = 1 → b_sector bj ≠ b_sector b.
Proof using Hb Hc. intros Hd Hne Hs Hdj Heq. apply Hne. by eapply (ca_uniq _ _ _ _ _ Hc). Qed.

(** [bget] finds the block and takes its buffer. *)
Lemma cache_take :
  b_dev b = 1 → busy b = false →
  cache (<[i:=with_b_flags (Z.lor (b_flags b) B_BUSY) b]> bs) dk V ({[b_sector b]} ∪ B) D.
Proof using Hb Hc.
  intros Hd Hnb. eapply cache_set; [done|done|done|done|apply Hc|..].
  - destruct Hok. split; flags; auto.
  - done.
  - intros _ j bj Hne Hs Hdj. by eapply others_sector.
  - intros x. rewrite elem_of_union, elem_of_singleton, in_B, Hnb. flags. intuition congruence.
  - intros x. rewrite in_D. by flags.
  - intros x d H0 Hx Hv Ho. apply (ca_view _ _ _ _ _ Hc x d H0 Hx).
    intros j bj Hs Hvj. destruct (decide (j = i)) as [->|Hne]; [|by eapply Ho].
    rewrite (slot_inj _ _ _ _ Hs Hb) in *. apply Hv. by flags.
Qed.

(** [bget] recycles a clean buffer for a block that is not cached. *)
Lemma cache_recycle x :
  busy b = false → dirty b = false → 0 ≤ x → (Z.to_nat x < length dk)%nat →
  (∀ j bj, slot bs j bj → b_dev bj = 1 → b_sector bj ≠ x) →
  cache (<[i:=with_b_flags B_BUSY (with_b_sector x (with_b_dev 1 b))]> bs) dk V ({[x]} ∪ B) D.
Proof using Hb Hc.
  intros Hnb Hnd H0 Hx Hno. eapply cache_set; [done|done|done|done|apply Hc|..].
  - split; simpl; [apply Hok|..]; done.
  - done.
  - intros _ j bj _ Hs Hdj. by eapply Hno.
  - intros y. rewrite elem_of_union, elem_of_singleton, in_B, Hnb.
    change (busy _) with true. simpl. intuition congruence.
  - intros y. rewrite in_D, Hnd. change (dirty (with_b_flags _ _)) with false.
    intuition congruence.
  - intros y d Hy0 Hyd _ Ho.
    destruct (decide (valid b = true ∧ b_sector b = y)) as [[Hv <-]|Hn].
    + pose proof (so_clean _ _ _ Hok Hv Hnb Hnd) as Hcl.
      pose proof (so_view _ _ _ Hok Hv). unfold sect in Hcl. congruence.
    + apply (ca_view _ _ _ _ _ Hc y d Hy0 Hyd). intros j bj Hs Hvj.
      destruct (decide (j = i)) as [->|Hne]; [|by eapply Ho].
      rewrite (slot_inj _ _ _ _ Hs Hb) in *. naive_solver.
Qed.

(** The driver reads a block into its busy buffer. *)
Lemma cache_fill b' d :
  busy b = true → valid b = false → dk !! sect b = Some d → synced b b' d →
  cache (<[i:=b']> bs) dk V B D.
Proof using Hb Hc.
  intros Hbu Hnv Hd [S1 S2 S3 S4 S5 S6 S7 S8].
  change (busy b' = true) in S6. change (valid b' = true) in S7. change (dirty b' = false) in S8.
  pose proof (so_dev _ _ _ Hok (or_introl Hbu)) as Hdev.
  destruct (so_sector _ _ _ Hok Hdev) as [H0 Hlt].
  assert (HV : V (b_sector b) = d).
  { apply (ca_view _ _ _ _ _ Hc); [done|done|]. intros j bj Hs Hv Heq.
    assert (j = i) as ->.
    { eapply (ca_uniq _ _ _ _ _ Hc); [done..| |done|done].
      pose proof (ca_slot _ _ _ _ _ Hc _ _ Hs) as Hokj. apply Hokj. auto. }
    rewrite (slot_inj _ _ _ _ Hs Hb) in *. congruence. }
  eapply cache_set; [done|done|done|done|apply Hc|..].
  - split; rewrite ?S5.
    + by eapply Forall_lookup_1; [apply (ca_disk _ _ _ _ _ Hc)|].
    + congruence.
    + unfold sect. rewrite S2. auto.
    + done.
    + intros _. congruence.
    + congruence.
  - done.
  - rewrite S1, S2. intros _ j bj Hne Hs Hdj. by eapply others_sector.
  - intros y. rewrite in_B. by rewrite S6, S2, Hbu.
  - intros y. rewrite in_D. rewrite S8.
    assert (dirty b = false) as ->; [|intuition congruence].
    apply not_true_iff_false. intros Hdi. pose proof (so_dirty _ _ _ Hok Hdi). congruence.
  - intros y e Hy0 Hye Hne Ho. apply (ca_view _ _ _ _ _ Hc y e Hy0 Hye).
    intros j bj Hs Hvj. destruct (decide (j = i)) as [->|]; [|by eapply Ho].
    rewrite (slot_inj _ _ _ _ Hs Hb) in *. congruence.
Qed.

(** The holder of a buffer changes its bytes. *)
Lemma cache_modify d :
  busy b = true → valid b = true → block_ok d →
  cache (<[i:=with_b_data d b]> bs) dk (<[b_sector b:=d]> V) B D.
Proof using Hb Hc.
  intros Hbu Hv Hd. pose proof (so_dev _ _ _ Hok (or_introl Hbu)) as Hdev.
  eapply cache_set; [done|done|done|done|apply Hc|..].
  - destruct Hok. split; flags; auto.
    + by rewrite fn_lookup_insert.
    + congruence.
  - intros j bj Hne Hs Hokj. destruct (Hokj) as [K1 K2 K3 K4 K5 K6]. split; auto.
    intros Hvj. rewrite fn_lookup_insert_ne; [auto|].
    assert (b_dev bj = 1) by auto. intros Heq. by eapply others_sector.
  - intros _ j bj Hne Hs Hdj. by eapply others_sector.
  - intros y. rewrite in_B. by flags.
  - intros y. rewrite in_D. by flags.
  - intros y e Hy0 Hye Hne Ho. simpl in *.
    assert (b_sector b ≠ y) as Hy by (by apply Hne). rewrite fn_lookup_insert_ne by done.
    apply (ca_view _ _ _ _ _ Hc y e Hy0 Hye).
    intros j bj Hs Hvj. destruct (decide (j = i)) as [->|]; [|by eapply Ho].
    by rewrite (slot_inj _ _ _ _ Hs Hb) in *.
Qed.

(** [log_write] pins a held buffer. *)
Lemma cache_pin :
  busy b = true → valid b = true →
  cache (<[i:=with_b_flags (Z.lor (b_flags b) B_DIRTY) b]> bs) dk V B ({[b_sector b]} ∪ D).
Proof using Hb Hc.
  intros Hbu Hv. pose proof (so_dev _ _ _ Hok (or_introl Hbu)) as Hdev.
  eapply cache_set; [done|done|done|done|apply Hc|..].
  - destruct Hok. split; flags; auto. congruence.
  - done.
  - intros _ j bj Hne Hs Hdj. by eapply others_sector.
  - intros y. rewrite in_B. by flags.
  - intros y. rewrite elem_of_union, elem_of_singleton, in_D. flags. intuition congruence.
  - intros y e Hy0 Hye Hne Ho. apply (ca_view _ _ _ _ _ Hc y e Hy0 Hye).
    intros j bj Hs Hvj. destruct (decide (j = i)) as [->|]; [|by eapply Ho].
    rewrite (slot_inj _ _ _ _ Hs Hb) in *. apply Hne. by flags.
Qed.

(** The driver writes a held buffer to its sector. *)
Lemma cache_flush b' :
  busy b = true → valid b = true → synced b b' (b_data b) →
  cache (<[i:=b']> bs) (<[sect b:=b_data b]> dk) V B (D ∖ {[b_sector b]}).
Proof using Hb Hc.
  intros Hbu Hv [S1 S2 S3 S4 S5 S6 S7 S8].
  change (busy b' = true) in S6. change (valid b' = true) in S7. change (dirty b' = false) in S8.
  pose proof (so_dev _ _ _ Hok (or_introl Hbu)) as Hdev.
  destruct (so_sector _ _ _ Hok Hdev) as [H0 Hlt].
  eapply cache_set; [done|done|done|done|..].
  - apply Forall_insert; [apply Hc|apply Hok].
  - split; rewrite ?S5.
    + apply Hok.
    + congruence.
    + unfold sect. rewrite S2, length_insert. auto.
    + done.
    + intros _. rewrite S2. by apply so_view with dk.
    + congruence.
  - intros j bj Hne Hs Hokj. destruct (Hokj) as [K1 K2 K3 K4 K5 K6]. split; auto.
    + by rewrite length_insert.
    + intros Hvj Hnb Hnd. assert (b_dev bj = 1) as Hdj by auto.
      rewrite list_lookup_insert_ne; [by auto|]. destruct (K3 Hdj) as [Hj0 _].
      intros Heq. eapply others_sector; [done..|]. unfold sect in Heq. lia.
  - rewrite S1, S2. intros _ j bj Hne Hs Hdj. by eapply others_sector.
  - intros y. rewrite in_B. by rewrite S6, S2, Hbu.
  - intros y. rewrite elem_of_difference, elem_of_singleton, in_D. rewrite S8.
    split; [intuition congruence|]. intros [[[=] _]|Ho]. split; [by right|].
    intros ->. eapply others_dev in Ho; [done|by auto|done].
  - intros y e Hy0 Hye Hne Ho. rewrite S2 in Hne.
    rewrite list_lookup_insert_ne in Hye by (unfold sect; specialize (Hne S7); lia).
    apply (ca_view _ _ _ _ _ Hc y e Hy0 Hye).
    intros j bj Hs Hvj. destruct (decide (j = i)) as [->|]; [|by eapply Ho].
    rewrite (slot_inj _ _ _ _ Hs Hb) in *. by apply Hne.
Qed.

(** [brelse] gives a buffer up; a clean one must agree with the disk. *)
Lemma cache_release :
  busy b = true → valid b = true →
  (dirty b = false → dk !! sect b = Some (b_data b)) →
  cache (<[i:=with_b_flags (Z.land (b_flags b) (Z.lnot B_BUSY)) b]> bs) dk V (B ∖ {[b_sector b]}) D.
Proof using Hb Hc.
  intros Hbu Hv Hcl. pose proof (so_dev _ _ _ Hok (or_introl Hbu)) as Hdev.
  eapply cache_set; [done|done|done|done|apply Hc|..].
  - destruct Hok. split; flags; auto.
  - done.
  - intros _ j bj Hne Hs Hdj. by eapply others_sector.
  - intros y. rewrite elem_of_difference, elem_of_singleton, in_B. flags.
    split; [intuition congruence|]. intros [[[=] _]|Ho]. split; [by right|].
    intros ->. eapply others_dev in Ho; [done|by auto|done].
  - intros y. rewrite in_D. by flags.
  - intros y e Hy0 Hye Hne Ho. apply (ca_view _ _ _ _ _ Hc y e Hy0 Hye).
    intros j bj Hs Hvj. destruct (decide (j = i)) as [->|]; [|by eapply Ho].
    rewrite (slot_inj _ _ _ _ Hs Hb) in *. apply Hne. by flags.
Qed.

End Transitions.

(** ** Specifications of the code *)

(** A state in which a process runs kernel code that holds no spin lock, over
    the abstract disk [V]. *)
Record bio (s : kstate) (V : Z → list Z) (B D : gset Z) : Prop := {
  bio_cache : cache (ks_bufs s) (ks_disk s) V B D;
  bio_held : ks_held s = [];
  bio_cur : is_Some (ks_cur s);
}.

(** Buffers held in [s] are held in [s'], and [b] is none of them. *)
Definition keeps (s s' : kstate) (b : nat) : Prop :=
  ∀ c y, owned (ks_bufs s) c y → c ≠ b ∧ owned (ks_bufs s') c y.

(** If every buffer is busy or dirty, the busy and dirty blocks fill the cache. *)
Lemma cache_full bs dk V B D :
  cache bs dk V B D → (∀ i b, slot bs i b → busy b = true ∨ dirty b = true) →
  (NBUF ≤ size (B ∪ D))%nat.
Proof.
  intros Hc Hall.
  assert (Hdev : ∀ i b, slot bs i b → b_dev b = 1).
  { intros i b Hs. apply (so_dev dk V b); [by eapply (ca_slot _ _ _ _ _ Hc)|].
    destruct (Hall i b Hs); auto. }
  set (l := b_sector <$> take NBUF bs).
  assert (NoDup l) as Hnd.
  { apply NoDup_alt. intros i j x Hi Hj. unfold l in Hi, Hj.
    rewrite list_lookup_fmap_Some in Hi, Hj.
    destruct Hi as (bi & -> & [Hi ?]%lookup_take_Some).
    destruct Hj as (bj & Hx & [Hj ?]%lookup_take_Some).
    assert (slot bs i bi) as Hsi by done. assert (slot bs j bj) as Hsj by done.
    by apply (ca_uniq _ _ _ _ _ Hc i j bi bj); eauto. }
  assert (list_to_set l ⊆ B ∪ D) as Hsub.
  { intros x. rewrite elem_of_list_to_set. unfold l. rewrite list_elem_of_fmap.
    intros (b & -> & [i Hi]%list_elem_of_lookup_1). apply lookup_take_Some in Hi as [Hi ?].
    assert (slot bs i b) as Hs by done.
    apply elem_of_union. destruct (Hall i b Hs).
    - left. apply (ca_busy _ _ _ _ _ Hc). by exists i, b.
    - right. apply (ca_dirty _ _ _ _ _ Hc). by exists i, b. }
  apply subseteq_size in Hsub. rewrite size_list_to_set in Hsub by done.
  unfold l in Hsub. rewrite length_fmap, length_take, (cache_length _ _ _ _ _ Hc) in Hsub. lia.
Qed.

Section Specs.
Context (s : kstate) (V : Z → list Z) (B D : gset Z) (Hs : bio s V B D).

Lemma bget_spec x :
  x ∉ B → (size ({[x]} ∪ B ∪ D) ≤ NBUF)%nat → 0 ≤ x → (Z.to_nat x < length (ks_disk s))%nat →
  wp (bget 1 x) (λ b s', storage_step s s' ∧ ks_disk s' = ks_disk s ∧ ks_wtrace s' = ks_wtrace s ∧
    cache (ks_bufs s') (ks_disk s') V ({[x]} ∪ B) D ∧
    (∃ bf, slot (ks_bufs s') b bf ∧ b_dev bf = 1 ∧ b_sector bf = x ∧ busy bf = true) ∧
    keeps s s' b) s.
Proof using Hs.
  intros HxB Hsz H0 Hx. destruct Hs as [Hc Hh Hcur].
  destruct (ca_ring _ _ _ _ _ Hc) as [l Hr]. pose proof Hr as (Hlen & Hperm & Hch).
  assert (length l = NBUF) as Hll by (rewrite Hperm; done).
  assert (∀ i, i ∈ l → i < NBUF)%nat as Hl by (intros i; by apply (ring_elem _ _ _ Hr)).
  destruct (lookup_lt_is_Some_2 (ks_bufs s) HEAD) as [h Hhd]; [lia|].
  unfold bget. wp_step. apply wp_acquire; [rewrite Hh; set_solver|].
  set (s1 := set_held _ s). change (ks_bufs s) with (ks_bufs s1) in *.
  wp_table; [done|].
  assert (b_next h = hd HEAD l) as ->.
  { rewrite <-(chain_first _ _ _ _ _ Hch). unfold nx. by rewrite Hhd. }
  wp_step. eapply wp_walk; [done|done|done|lia|].
  destruct (pick _ _ l) as [b|] eqn:E.
  - apply pick_Some in E as (Hbl & bf & Hbf & [Hd%Z.eqb_eq Hx'%Z.eqb_eq]%andb_true_iff).
    assert (slot (ks_bufs s1) b bf) as Hsl by (split; [by apply Hl|done]).
    assert (busy bf = false) as Hnb.
    { apply not_true_iff_false. intros Hb. apply HxB, (ca_busy _ _ _ _ _ Hc). by exists b, bf. }
    wp_table; [done|]. unfold busy in Hnb. rewrite Hnb. simpl.
    wp_table; [done|]. wp_step. eapply wp_release; [simpl; by rewrite Hh|set_solver|].
    apply wp_ret. rewrite <-Hx'. split_and!; [|done|done|..].
    + apply storage_step_intro; simpl; try done.
    + by apply cache_take.
    + eexists. split; [by eapply slot_insert_eq|]. simpl. split_and!; [done|done|]. by flags.
    + intros c y Hown. assert (c ≠ b); [|split; [done|by apply owned_insert]].
      intros ->. destruct Hown as (bf' & Hsl' & _ & _ & Hb & _).
      rewrite (slot_inj _ _ _ _ Hsl' Hsl) in Hb. unfold busy in Hb. congruence.
  - assert (Hno : ∀ j bj, slot (ks_bufs s1) j bj → b_dev bj = 1 → b_sector bj ≠ x).
    { intros j bj Hsl Hd Hx'. pose proof Hsl as [Hj Hl'].
      pose proof (pick_None _ _ _ j bj E) as Hp. simpl in Hp.
      rewrite Hd, Hx', !Z.eqb_refl in Hp. discriminate Hp; [|done].
      by apply (ring_elem _ _ _ Hr). }
    wp_table; [done|].
    assert (b_prev h = hd HEAD (reverse l)) as ->.
    { pose proof (chain_rev _ _ _ _ _ Hch) as Hch'.
      rewrite <-(chain_first _ _ _ _ _ Hch'). unfold pv. by rewrite Hhd. }
    wp_step. eapply wp_walk; [apply (chain_rev _ _ _ _ _ Hch)|done| |by rewrite length_reverse; lia|].
    { intros i. rewrite elem_of_reverse. apply Hl. }
    destruct (pick _ _ (reverse l)) as [b|] eqn:E2.
    + apply pick_Some in E2 as (Hbl & bf & Hbf & [Hnb%negb_true_iff Hnd%negb_true_iff]%andb_true_iff).
      rewrite elem_of_reverse in Hbl.
      assert (slot (ks_bufs s1) b bf) as Hsl by (split; [by apply Hl|done]).
      assert (b < length (ks_bufs s1))%nat as Hlt by (by eapply lookup_lt_Some).
      wp_table; [done|]. wp_table; [by apply list_lookup_insert_eq|]. simpl.
      rewrite list_insert_insert_eq.
      wp_table; [by apply list_lookup_insert_eq|]. simpl. rewrite list_insert_insert_eq.
      wp_step. eapply wp_release; [simpl; by rewrite Hh|set_solver|].
      apply wp_ret. split_and!; [|done|done|..].
      * apply storage_step_intro; simpl; try done.
      * by apply cache_recycle.
      * eexists. split; [by eapply slot_insert_eq|]. by simpl.
      * intros c y Hown. assert (c ≠ b); [|split; [done|by apply owned_insert]].
        intros ->. destruct Hown as (bf' & Hsl' & _ & _ & Hb & _).
        rewrite (slot_inj _ _ _ _ Hsl' Hsl) in Hb. unfold busy in Hb. congruence.
    + exfalso. assert (NBUF ≤ size (B ∪ D))%nat as Hfull.
      { eapply cache_full; [done|]. intros i b [Hi Hb].
        pose proof (pick_None _ _ _ i b E2) as Hp. simpl in Hp. unfold busy, dirty.
        destruct (hasb (b_flags b) B_BUSY), (hasb (b_flags b) B_DIRTY); auto.
        discriminate Hp; [|done]. rewrite elem_of_reverse. by apply (ring_elem _ _ _ Hr). }
      assert (x ∉ D) as HxD.
      { intros (j & bj & Hsl & Hdj & Hxj)%(ca_dirty _ _ _ _ _ Hc).
        eapply Hno; [done| |done]. pose proof (ca_slot _ _ _ _ _ Hc _ _ Hsl) as Hok.
        apply (so_dev _ _ _ Hok). auto. }
      rewrite <-(assoc_L (∪)), size_union in Hsz by set_solver.
      rewrite size_singleton in Hsz. lia.
Qed.

(** [bread] returns a buffer that this process now holds, with the block's
    contents; the abstract disk is unchanged.  It neither panics nor sleeps
    when nobody holds the block and the held and dirty blocks leave room. *)
Lemma bread_spec `{IdeSpec} x :
  x ∉ B → (size ({[x]} ∪ B ∪ D) ≤ NBUF)%nat → 0 ≤ x → (Z.to_nat x < length (ks_disk s))%nat →
  wp (bread 1 x) (λ b s', storage_step s s' ∧ ks_disk s' = ks_disk s ∧ ks_wtrace s' = ks_wtrace s ∧
    bio s' V ({[x]} ∪ B) D ∧ owned (ks_bufs s') b x ∧ keeps s s' b) s.
Proof using Hs.
  intros HxB Hsz H0' Hx. unfold bread. wp_call bget_spec; [done..|].
  intros b s1 (Hst & Hdk & Hw & Hc & (bf & Hsl & Hd & Hx' & Hbu) & Hk).
  pose proof (storage_held _ _ Hst) as Hh. rewrite (bio_held _ _ _ _ Hs) in Hh.
  pose proof (storage_cur _ _ Hst) as Hcur. pose proof (bio_cur _ _ _ _ Hs) as Hcur'.
  rewrite <-Hcur in Hcur'. pose proof Hsl as [Hb Hl].
  pose proof (ca_slot _ _ _ _ _ Hc _ _ Hsl) as Hok.
  wp_table; [done|]. wp_step. apply wp_when.
  - intros Hnv%negb_true_iff.
    assert (dirty bf = false) as Hnd.
    { apply not_true_iff_false. intros Hdi%(so_dirty _ _ _ Hok). unfold valid in Hdi. congruence. }
    destruct (lookup_lt_is_Some_2 (ks_disk s1) (Z.to_nat x)) as [d Hdd]; [by rewrite Hdk|].
    assert (ks_disk s1 !! sect bf = Some d) as Hdd' by (unfold sect; by rewrite Hx').
    eapply wp_mono; [eapply (iderw_read s1 b bf d); try done; lia|].
    intros _ s2 (bf' & Hsy & Hst2 & Hbs & Hdk2 & Hw2). apply wp_ret.
    split_and!; [by etrans|congruence|congruence| | |].
    + split; [|by rewrite (storage_held _ _ Hst2)|by rewrite (storage_cur _ _ Hst2)].
      rewrite Hbs, Hdk2. by eapply cache_fill.
    + rewrite Hbs. destruct Hsy. exists bf'. split; [by eapply slot_insert_eq|].
      split_and!; [congruence|congruence|done|done].
    + intros c y Hown. destruct (Hk c y Hown). split; [done|]. rewrite Hbs. by apply owned_insert.
  - intros Hv%negb_false_iff. apply wp_ret. split_and!; try done. by exists bf.
Qed.

(** Writing the bytes of a held buffer. *)
Lemma modify_spec b x f (Q : () → kstate → Prop) :
  owned (ks_bufs s) b x → block_ok (f (V x)) →
  (∀ s', storage_step s s' → ks_disk s' = ks_disk s → ks_wtrace s' = ks_wtrace s →
    bio s' (<[x:=f (V x)]> V) B D →
    (∀ c y, owned (ks_bufs s) c y → owned (ks_bufs s') c y) → Q () s') →
  wp (upd_buf b (λ y, with_b_data (f (b_data y)) y)) Q s.
Proof using Hs.
  intros Hown Hf HQ. pose proof Hs as [Hc Hh Hcur].
  destruct (owned_view _ _ _ _ _ Hc _ _ Hown) as (bf & Hsl & Hd & Hx & Hdev & Hbu & Hv & _).
  pose proof Hsl as [Hb Hl]. eapply wp_upd_buf; [done|]. rewrite Hd. apply HQ.
  - by apply storage_step_intro.
  - done.
  - done.
  - split; [|done|done]. simpl. rewrite <-Hx at 2. by apply cache_modify.
  - simpl. intros c y Hcy. destruct (decide (c = b)) as [->|]; [|by apply owned_insert].
    assert (x = y) as <-.
    { destruct Hcy as (bf' & Hsl' & _ & <- & _). by rewrite (slot_inj _ _ _ _ Hsl Hsl') in Hx. }
    eexists. split; [by eapply slot_insert_eq|]. done.
Qed.

(** [bwrite] puts the bytes of a held buffer on the disk, in one sector
    write, and leaves the buffer clean. *)
Lemma bwrite_spec `{IdeSpec} b x :
  owned (ks_bufs s) b x →
  wp (bwrite b) (λ _ s', storage_step s s' ∧
    ks_disk s' = <[Z.to_nat x:=V x]> (ks_disk s) ∧
    ks_wtrace s' = ks_wtrace s ++ [(x, V x)] ∧
    bio s' V B (D ∖ {[x]}) ∧ (∀ c y, owned (ks_bufs s) c y → owned (ks_bufs s') c y)) s.
Proof using Hs.
  intros Hown. pose proof Hs as [Hc Hh Hcur].
  destruct (owned_view _ _ _ _ _ Hc _ _ Hown)
    as (bf & Hsl & Hd & Hx & Hdev & Hbu & Hv & H0' & Hlt).
  pose proof Hsl as [Hb Hl]. unfold bwrite. wp_table; [done|].
  unfold busy in Hbu. rewrite Hbu. simpl. wp_table; [done|].
  set (s1 := set_bufs _ s). set (bf1 := with_b_flags _ bf) in s1.
  assert (slot (ks_bufs s1) b bf1) as Hsl1 by (by eapply slot_insert_eq).
  assert (cache (ks_bufs s1) (ks_disk s1) V B ({[x]} ∪ D)) as Hc1
    by (rewrite <-Hx; by apply cache_pin).
  pose proof Hsl1 as [_ Hl1].
  eapply wp_mono; [eapply (iderw_write s1 b bf1); simpl; try done|].
  1,2: by flags. 1: by rewrite Hx. 1: unfold sect; simpl; by rewrite Hx.
  intros _ s2 (bf2 & Hsy & Hst & Hbs & Hdk & Hw).
  assert (storage_step s s2) as Hst2 by (etrans; [by apply storage_step_bufs|done]).
  unfold sect in Hdk. simpl in Hdk, Hw. rewrite Hx, Hd in Hdk, Hw.
  split_and!; [done|done|done| |].
  - split; [|by rewrite (storage_held _ _ Hst2)|by rewrite (storage_cur _ _ Hst2)].
    rewrite Hbs, Hdk. pose proof (cache_flush _ _ _ _ _ Hc1 _ _ Hsl1 bf2) as Hfl.
    unfold sect in Hfl. simpl in Hfl. rewrite Hx, Hd in Hfl.
    replace (D ∖ {[x]}) with (({[x]} ∪ D) ∖ {[x]}) by set_solver.
    apply Hfl; [by flags|by flags|by rewrite <-Hd].
  - intros c y Hcy. rewrite Hbs. destruct (decide (c = b)) as [->|].
    + destruct Hcy as (bf' & Hsl' & _ & <- & _). rewrite (slot_inj _ _ _ _ Hsl' Hsl).
      destruct Hsy. exists bf2. split; [by eapply slot_insert_eq|].
      simpl in *. split_and!; [congruence|congruence|done|done].
    + apply owned_insert; [done|]. by apply owned_insert.
Qed.

Lemma wp_upd_alter i f s0 (Q : () → kstate → Prop) :
  (i < length (ks_bufs s0))%nat → Q () (set_bufs (alter f i (ks_bufs s0)) s0) →
  wp (upd_buf i f) Q s0.
Proof. intros [x Hx]%lookup_lt_is_Some HQ. unfold wp, upd_buf. by rewrite Hx. Qed.

Lemma wp_get_links i s0 (Q : buf → kstate → Prop) :
  (i < length (ks_bufs s0))%nat →
  (∀ bf, b_next bf = nx (ks_bufs s0) i → b_prev bf = pv (ks_bufs s0) i → Q bf s0) →
  wp (get_buf i) Q s0.
Proof.
  intros [x Hx]%lookup_lt_is_Some HQ. eapply wp_get_buf; [done|].
  apply HQ; unfold nx, pv; by rewrite Hx.
Qed.

(** [brelse] gives the block up and moves its buffer to the front of the
    ring; a buffer that is not pinned must agree with the disk. *)
Lemma brelse_spec b x l :
  owned (ks_bufs s) b x → x ∈ D ∨ ks_disk s !! Z.to_nat x = Some (V x) →
  ring (ks_bufs s) l →
  wp (brelse b) (λ _ s', storage_step s s' ∧ ks_disk s' = ks_disk s ∧
    ks_wtrace s' = ks_wtrace s ∧ bio s' V (B ∖ {[x]}) D ∧
    (∀ c y, c ≠ b → owned (ks_bufs s) c y → owned (ks_bufs s') c y) ∧
    ring (ks_bufs s') (b :: filter (λ i, i ≠ b) l)) s.
Proof using Hs.
  intros Hown Hcl Hr. pose proof Hs as [Hc Hh Hcur].
  destruct (owned_view _ _ _ _ _ Hc _ _ Hown)
    as (bf & Hsl & Hd & Hx & Hdev & Hbu & Hv & H0' & Hlt).
  pose proof Hsl as [Hb Hl]. pose proof (cache_length _ _ _ _ _ Hc) as Hlen.
  pose proof (ring_range _ _ _ Hr Hb) as [Hnr Hpr].
  pose proof (ring_move_front _ _ _ Hr Hb) as Hr'.
  unfold brelse. wp_table; [done|]. unfold busy in Hbu. rewrite Hbu. simpl.
  wp_step. apply wp_acquire; [rewrite Hh; set_solver|].
  wp_step. apply wp_get_links; [simpl; lia|]. simpl. intros b1 -> ->.
  wp_step. apply wp_upd_alter; [done|]. simpl.
  wp_step. apply wp_get_links; [simpl; len; lia|]. simpl. intros b2 -> ->.
  wp_step. apply wp_upd_alter.
  { simpl. rewrite pv_alter_prev, length_alter by done.
    destruct (decide (nx (ks_bufs s) b = b)) as [->|];
      [by rewrite fn_lookup_insert|by rewrite fn_lookup_insert_ne]. }
  simpl. fold (unlink (ks_bufs s) b).
  assert (Hul : length (unlink (ks_bufs s) b) = S NBUF) by (by rewrite length_unlink).
  assert (Hcu : (nx (unlink (ks_bufs s) b) HEAD < S NBUF)%nat)
    by (by eapply unlink_head_range).
  wp_step. apply wp_get_links; [simpl; lia|]. simpl. intros b3 -> _.
  wp_step. apply wp_upd_alter; [simpl; lia|]. simpl.
  wp_step. apply wp_upd_alter; [simpl; len; lia|]. simpl.
  wp_step. apply wp_get_links; [simpl; len; lia|]. simpl. intros b4 -> _.
  wp_step. apply wp_upd_alter.
  { simpl. rewrite nx_alter, nx_alter_next, fn_lookup_insert_ne by (done || lia). len. }
  simpl. wp_step. apply wp_upd_alter; [simpl; len; lia|]. simpl.
  fold (push_front (unlink (ks_bufs s) b) b). set (bs' := push_front _ b) in *.
  assert (Hpay : pay <$> bs' = pay <$> ks_bufs s)
    by (unfold bs'; by rewrite pay_push_front, pay_unlink).
  pose proof (cache_pay _ _ _ _ _ _ _ Hpay Hr' Hc) as Hc'.
  destruct (owned_pay _ _ _ _ Hpay Hown) as (bf' & Hsl' & Hdev' & Hx' & Hbu' & Hv').
  pose proof Hsl' as [_ Hl']. wp_step. eapply wp_upd_buf; [done|]. simpl.
  wp_step. apply wp_wakeup; [simpl; rewrite Hh; set_solver|]. simpl.
  eapply wp_release; [simpl; by rewrite Hh|set_solver|]. split_and!; [|done|done|..].
  - by apply storage_step_intro.
  - split; [|done|done]. simpl. rewrite <-Hx'. apply cache_release; [done..|].
    intros Hnd. destruct Hcl as [HxD|Hcl].
    + exfalso. apply (ca_dirty _ _ _ _ _ Hc') in HxD as (j & bj & Hsj & Hdj & Hxj).
      assert (j = b) as ->.
      { eapply (ca_uniq _ _ _ _ _ Hc'); [done..| |done|congruence].
        apply (so_dev _ _ _ (ca_slot _ _ _ _ _ Hc' _ _ Hsj)). auto. }
      rewrite (slot_inj _ _ _ _ Hsj Hsl') in Hdj. congruence.
    + unfold sect. rewrite Hx', Hcl. f_equal. symmetry. rewrite <-Hx'.
      apply (so_view _ _ _ (ca_slot _ _ _ _ _ Hc' _ _ Hsl') Hv').
  - simpl. intros c y Hne Hcy. apply owned_insert; [done|]. by eapply owned_pay.
  - simpl. by eapply ring_insert.
Qed.

End Specs.

(** ** Starting up *)

(** The blocks of a disk as a function of the block number. *)
Definition disk_view (dk : list (list Z)) (x : Z) : list Z := dk !!! Z.to_nat x.

(** A buffer array as it is in a kernel that has just been loaded: no flag is
    set. *)
Definition fresh_bufs (bs : list buf) : Prop :=
  length bs = S NBUF ∧ Forall (λ b, b_flags b = 0 ∧ block_ok (b_data b)) bs.

Lemma alter_fmap_id {A} (g : buf → A) f (bs : list buf) i :
  (∀ x, g (f x) = g x) → g <$> alter f i bs = g <$> bs.
Proof.
  intros Hf. apply list_eq. intros j. rewrite !list_lookup_fmap.
  destruct (decide (i = j)) as [->|Hne].
  - rewrite list_lookup_alter_eq. destruct (bs !! j); simpl; by rewrite ?Hf.
  - by rewrite list_lookup_alter_ne.
Qed.

Lemma dev_alter f (bs : list buf) i j :
  (∀ x, b_dev (f x) = b_dev x) → b_dev <$> alter f i bs !! j = b_dev <$> bs !! j.
Proof. intros Hf. rewrite <-!list_lookup_fmap. by rewrite alter_fmap_id. Qed.

(** What the loop of [binit] has done after linking the buffers [l]. *)
Record linked (s0 s : kstate) (l : list nat) : Prop := {
  li_step : ∃ bs, s = set_bufs bs s0;
  li_len : length (ks_bufs s) = S NBUF;
  li_chain : chain (nx (ks_bufs s)) (pv (ks_bufs s)) HEAD l HEAD;
  li_fresh : (λ b, (b_flags b, b_data b)) <$> ks_bufs s = (λ b, (b_flags b, b_data b)) <$> ks_bufs s0;
  li_dev : ∀ i, i ∈ l → b_dev <$> ks_bufs s !! i = Some (u32 (-1));
}.

Lemma binit_link_spec s0 s b l :
  linked s0 s l → (b < NBUF)%nat → (∀ i, i ∈ l → i < NBUF)%nat → NoDup (b :: l) →
  wp (binit_link b) (λ _ s', linked s0 s' (b :: l)) s.
Proof.
  intros [(bs0 & Hs) Hlen Hch Hfr Hdev] Hb Hl [Hbl Hnd]%NoDup_cons.
  assert (HEAD ≠ b) as Hhb by lia.
  assert (nx (ks_bufs s) HEAD < S NBUF)%nat as Hh.
  { rewrite (chain_first _ _ _ _ _ Hch). destruct l as [|x l]; simpl; [lia|].
    specialize (Hl x ltac:(set_solver)). lia. }
  pose proof (chain_push_front _ _ _ Hlen Hb Hl Hnd Hbl Hch) as Hpf.
  unfold binit_link. wp_step. apply wp_get_links; [lia|]. intros h -> _.
  wp_step. apply wp_upd_alter; [lia|]. simpl.
  wp_step. apply wp_upd_alter; [simpl; len; lia|]. simpl.
  wp_step. apply wp_upd_alter; [simpl; len; lia|]. simpl.
  wp_step. apply wp_get_links; [simpl; len; lia|]. simpl. intros h' -> _.
  wp_step. apply wp_upd_alter.
  { simpl. rewrite !nx_alter, nx_alter_next, fn_lookup_insert_ne by (done || lia). len. }
  apply wp_upd_alter; [simpl; len; lia|]. split; cbn [ks_bufs set_bufs].
  - rewrite Hs. by eexists.
  - by len.
  - eapply chain_ext; [..|exact Hpf]; intros i _; unfold push_front.
    + rewrite (nx_alter_next _ HEAD b i), (nx_alter_next _ HEAD b i) by (len; lia).
      destruct (decide (HEAD = i)) as [->|]; [by rewrite !fn_lookup_insert|].
      rewrite !(fn_lookup_insert_ne _ HEAD i) by done.
      by rewrite !(nx_alter (with_b_prev _)), (nx_alter (with_b_dev _)), (nx_alter (with_b_prev _)) by done.
    + rewrite !(pv_alter (with_b_next b)) by done.
      rewrite (nx_alter (with_b_dev _)) by done. rewrite !(nx_alter (with_b_prev _)) by done.
      rewrite (nx_alter_next _ b), fn_lookup_insert_ne by (done || lia).
      rewrite (pv_alter_prev _ (nx (ks_bufs s) HEAD)), (pv_alter_prev _ (nx (ks_bufs s) HEAD))
        by (len; lia).
      destruct (decide (nx (ks_bufs s) HEAD = i)) as [->|]; [by rewrite !fn_lookup_insert|].
      rewrite !(fn_lookup_insert_ne _ _ i) by done. by rewrite (pv_alter (with_b_dev _)).
  - by rewrite !alter_fmap_id.
  - intros i Hi. rewrite !dev_alter by done.
    destruct (decide (b = i)) as [->|Hne].
    + rewrite list_lookup_alter_eq, option_fmap_comp || rewrite list_lookup_alter_eq.
      destruct (lookup_lt_is_Some_2 (ks_bufs s) i) as [x Hx]; [lia|].
      destruct (lookup_lt_is_Some_2 (alter (with_b_prev HEAD) i
        (alter (with_b_next (nx (ks_bufs s) HEAD)) i (ks_bufs s))) i) as [y Hy]; [len; lia|].
      by rewrite Hy.
    + rewrite list_lookup_alter_ne by done. rewrite !dev_alter by done. apply Hdev. set_solver.
Qed.

Lemma binit_loop_spec s0 s todo l :
  linked s0 s l → NoDup (todo ++ l) → (∀ i, i ∈ todo ++ l → i < NBUF)%nat →
  wp (binit_loop todo) (λ _ s', linked s0 s' (reverse todo ++ l)) s.
Proof.
  revert s l. induction todo as [|b todo IH]; intros s l Hli Hnd Hrange; simpl; [done|].
  simpl in Hnd. apply NoDup_cons in Hnd as [Hb Hnd].
  apply NoDup_app in Hnd as Hnd'. destruct Hnd' as (Hnt & Hdis & Hnl).
  wp_call binit_link_spec; [done|apply Hrange; set_solver|intros; apply Hrange; set_solver| |].
  { apply NoDup_cons. split; [set_solver|done]. }
  intros [] s1 Hli1. rewrite reverse_cons, <-app_assoc. simpl. apply IH; [done|..].
  - apply NoDup_app. split_and!; [done|set_solver|]. apply NoDup_cons. split; [set_solver|done].
  - intros i Hi. apply Hrange. set_solver.
Qed.

(** [binit] links all buffers into the ring, the last one first, and the
    empty cache presents the disk. *)
Lemma binit_spec s :
  fresh_bufs (ks_bufs s) → Forall block_ok (ks_disk s) →
  wp binit (λ _ s', storage_step s s' ∧ ks_disk s' = ks_disk s ∧ ks_wtrace s' = ks_wtrace s ∧
    ring (ks_bufs s') (reverse (seq 0 NBUF)) ∧
    cache (ks_bufs s') (ks_disk s') (disk_view (ks_disk s)) ∅ ∅) s.
Proof.
  intros [Hlen Hbs] Hdk. unfold binit.
  wp_step. apply wp_upd_alter; [lia|]. wp_step. apply wp_upd_alter; [cbn; len; lia|].
  eapply wp_mono; [eapply (binit_loop_spec s _ _ [])|].
  { split; cbn [ks_bufs set_bufs]; [by eexists|by len|..].
    - assert (HEAD < length (ks_bufs s))%nat by lia. split.
      + by rewrite nx_alter_next, fn_lookup_insert by (len; lia).
      + by rewrite pv_alter, pv_alter_prev, fn_lookup_insert by done.
    - by rewrite !alter_fmap_id.
    - set_solver. }
  { rewrite app_nil_r. apply NoDup_seq. }
  { intros i. rewrite app_nil_r, elem_of_seq. lia. }
  rewrite app_nil_r. intros [] s' [(bs' & ->) Hlen' Hch Hfr Hdev]. cbn [ks_bufs set_bufs] in *.
  assert (Hring : ring bs' (reverse (seq 0 NBUF))).
  { split_and!; [done|apply reverse_Permutation|done]. }
  assert (Hslots : ∀ i c, slot bs' i c → b_flags c = 0 ∧ block_ok (b_data c) ∧ b_dev c = u32 (-1)).
  { intros i c [Hi Hc]. apply (f_equal (.!! i)) in Hfr. rewrite !list_lookup_fmap, Hc in Hfr.
    destruct (ks_bufs s !! i) as [c0|] eqn:E; [|done]. simpl in Hfr.
    apply (Forall_lookup_1 _ _ _ _ Hbs) in E as [Hf0 Hd0].
    specialize (Hdev i). rewrite Hc, elem_of_reverse, elem_of_seq in Hdev.
    specialize (Hdev ltac:(lia)). simpl in Hdev. injection Hfr as -> ->. injection Hdev as ->. done. }
  split_and!; [by apply storage_step_bufs|done|done|done|].
  assert (Hfl : ∀ i c, slot bs' i c → busy c = false ∧ valid c = false ∧ dirty c = false).
  { intros i c Hsl. unfold busy, valid, dirty. destruct (Hslots i c Hsl) as (-> & _). done. }
  split; simpl.
  - by eexists.
  - done.
  - intros i c Hsl. destruct (Hfl i c Hsl) as (H1 & H2 & H3).
    destruct (Hslots i c Hsl) as (_ & Hd & Hdv).
    split; rewrite ?H1, ?H2, ?H3, ?Hdv; try done. naive_solver.
  - intros i j bi bj Hi _ Hd. destruct (Hslots i bi Hi) as (_ & _ & Hdv). by rewrite Hdv in Hd.
  - intros x. split; [set_solver|]. intros (i & c & Hsl & Hb & _).
    destruct (Hfl i c Hsl). congruence.
  - intros x. split; [set_solver|]. intros (i & c & Hsl & Hb & _).
    destruct (Hfl i c Hsl). naive_solver congruence.
  - intros x d _ Hd _. unfold disk_view. by apply list_lookup_total_correct.
Qed.
