(* ===== verification/Log.v ===== *)
(** * Log: the write-ahead log (log.c)

    A system call that writes the file system runs between [begin_trans] and
    [commit_trans].  [log_write] copies each modified block to the log area of
    the disk and pins its buffer; the home locations are written only by
    [commit_trans], after the header that makes the transaction durable.

    The code comes first.  [txn] is the invariant of a running transaction
    over the buffer cache; the specifications of [bread], [log_write] and
    [brelse] in terms of [txn] are what the file system code uses. *)

From S2P Require Import Prelude Bytes CString Kernel Sched Ide Bio.

(** ** The superblock (fs.h, and readsb of fs.c) *)

Record superblock := mk_sb { sb_size : Z; sb_nblocks : Z; sb_ninodes : Z; sb_nlog : Z }.

Definition sb_of (d : list Z) : superblock :=
  mk_sb (get32 0 d) (get32 4 d) (get32 8 d) (get32 12 d).

(** ** The code

    [log] keeps sector numbers in signed integers; [bread] takes an unsigned one. *)

Section Code.
Context `{Ide}.

Definition readsb (dev : Z) : K superblock :=
  b ← bread dev 1;
  bf ← get_buf b;
  brelse b;;
  mret (sb_of (b_data bf)).

(** One turn of the loop of [install_trans]. *)
Definition install_block (tail : nat) : K () :=
  lg ← gets ks_log;
  lbuf ← bread (l_dev lg) (u32 (l_start lg + Z.of_nat tail + 1));
  sec ← the (l_sector lg !! tail);
  dbuf ← bread (l_dev lg) (u32 sec);
  lb ← get_buf lbuf;
  upd_buf dbuf (λ x, with_b_data (splice 0 (b_data lb) (b_data x)) x);;
  bwrite dbuf;;
  brelse lbuf;;
  brelse dbuf.

(** From entry [tail] on, with [n] entries to go. *)
Fixpoint install_loop (n : nat) (tail : nat) : K () :=
  match n with
  | O => mret ()
  | S n' => install_block tail;; install_loop n' (S tail)
  end.

Definition install_trans : K () :=
  lg ← gets ks_log; install_loop (Z.to_nat (l_n lg)) 0.

Fixpoint read_head_loop (d : list Z) (n : nat) (i : nat) : K () :=
  match n with
  | O => mret ()
  | S n' =>
      lg ← gets ks_log;
      _ ← the (l_sector lg !! i);
      modify (λ s, set_log (with_l_sector (<[i:=s32 (get32 (4 + 4 * i) d)]> (l_sector lg)) lg) s);;
      read_head_loop d n' (S i)
  end.

Definition read_head : K () :=
  lg ← gets ks_log;
  b ← bread (l_dev lg) (u32 (l_start lg));
  bf ← get_buf b;
  let n := s32 (get32 0 (b_data bf)) in
  modify (λ s, set_log (with_l_n n (ks_log s)) s);;
  read_head_loop (b_data bf) (Z.to_nat n) 0;;
  brelse b.

Fixpoint write_head_loop (b : nat) (n : nat) (i : nat) : K () :=
  match n with
  | O => mret ()
  | S n' =>
      lg ← gets ks_log;
      sec ← the (l_sector lg !! i);
      upd_buf b (λ x, with_b_data (put32 (4 + 4 * i) sec (b_data x)) x);;
      write_head_loop b n' (S i)
  end.

Definition write_head : K () :=
  lg ← gets ks_log;
  b ← bread (l_dev lg) (u32 (l_start lg));
  upd_buf b (λ x, with_b_data (put32 0 (l_n lg) (b_data x)) x);;
  write_head_loop b (Z.to_nat (l_n lg)) 0;;
  bwrite b;;
  brelse b.

Definition set_log_n (n : Z) : K () := modify (λ s, set_log (with_l_n n (ks_log s)) s).

Definition recover_from_log : K () :=
  read_head;; install_trans;; set_log_n 0;; write_head.

(** [sizeof(struct logheader)] is [4 + 4 * LOGSIZE]. *)
Definition initlog : K () :=
  if (BSIZE <=? 4 + 4 * LOGSIZE)%Z then panic "initlog: too big logheader" else
  sb ← readsb ROOTDEV;
  modify (λ s, set_log (with_l_dev ROOTDEV (with_l_size (s32 (sb_nlog sb))
    (with_l_start (s32 (sb_size sb - sb_nlog sb)) (ks_log s)))) s);;
  recover_from_log.

Definition begin_trans : K () :=
  acquire L_log;;
  lg ← gets ks_log;
  if l_busy lg then sleep ChLog L_log else
  modify (λ s, set_log (with_l_busy true (ks_log s)) s);;
  release L_log.

Definition commit_trans : K () :=
  lg ← gets ks_log;
  when (0 <? l_n lg) (write_head;; install_trans;; set_log_n 0;; write_head);;
  acquire L_log;;
  modify (λ s, set_log (with_l_busy false (ks_log s)) s);;
  wakeup ChLog;;
  release L_log.

(** The position of sector [x] among the [n] logged sectors, or [n]. *)
Definition log_slot (lg : log) (x : Z) : nat :=
  default (Z.to_nat (l_n lg))
    (find_from (λ y, u32 y =? x) 0 (take (Z.to_nat (l_n lg)) (l_sector lg))).

(** The copy of buffer [b] to sector [sec] of the log. *)
Definition log_copy (b : nat) (dev sec : Z) : K () :=
  lbuf ← bread dev sec;
  bf ← get_buf b;
  upd_buf lbuf (λ x, with_b_data (splice 0 (b_data bf) (b_data x)) x);;
  bwrite lbuf;;
  brelse lbuf.

Definition log_write (b : nat) : K () :=
  lg ← gets ks_log;
  if (LOGSIZE <=? l_n lg) || (l_size lg - 1 <=? l_n lg)
  then panic "too big a transaction" else
  if negb (l_busy lg) then panic "write outside of trans" else
  bf ← get_buf b;
  let i := log_slot lg (b_sector bf) in
  _ ← the (l_sector lg !! i);
  modify (λ s, set_log (with_l_sector (<[i:=s32 (b_sector bf)]> (l_sector lg)) lg) s);;
  log_copy b (b_dev bf) (u32 (l_start lg + Z.of_nat i + 1));;
  when (Z.of_nat i =? l_n lg) (set_log_n (l_n lg + 1));;
  upd_buf b (λ x, with_b_flags (Z.lor (b_flags x) B_DIRTY) x).

End Code.

(** ** Sequences of sector writes *)

Definition apply_writes (w : list (Z * list Z)) (dk : list (list Z)) : list (list Z) :=
  foldl (λ dk e, <[Z.to_nat e.1:=e.2]> dk) dk w.

Definition view_writes (w : list (Z * list Z)) (V : Z → list Z) : Z → list Z :=
  foldl (λ V e, <[e.1:=e.2]> V) V w.

Lemma apply_writes_app w1 w2 dk : apply_writes (w1 ++ w2) dk = apply_writes w2 (apply_writes w1 dk).
Proof. apply foldl_app. Qed.

Lemma view_writes_app w1 w2 V : view_writes (w1 ++ w2) V = view_writes w2 (view_writes w1 V).
Proof. apply foldl_app. Qed.

Lemma length_apply_writes w dk : length (apply_writes w dk) = length dk.
Proof. revert dk. induction w as [|e w IH]; intros dk; [done|]. simpl. rewrite IH. len. Qed.

Lemma apply_writes_ne w dk x :
  0 ≤ x → (∀ e, e ∈ w → 0 ≤ e.1 ∧ e.1 ≠ x) → apply_writes w dk !! Z.to_nat x = dk !! Z.to_nat x.
Proof.
  intros Hx. revert dk. induction w as [|e w IH]; intros dk Hw; [done|]. simpl.
  rewrite IH by (intros e' He'; apply Hw; by right).
  destruct (Hw e) as [? ?]; [by left|]. rewrite list_lookup_insert_ne; [done|lia].
Qed.

Lemma apply_writes_eq w dk x d :
  0 ≤ x → (Z.to_nat x < length dk)%nat → (∀ e, e ∈ w → 0 ≤ e.1) → NoDup w.*1 → (x, d) ∈ w →
  apply_writes w dk !! Z.to_nat x = Some d.
Proof.
  intros Hx Hlt. revert dk Hlt. induction w as [|e w IH]; intros dk Hlt Hp Hnd; [by intros ?%not_elem_of_nil|].
  simpl in Hnd. apply NoDup_cons in Hnd as [He Hnd]. intros [<-|Hin]%elem_of_cons; simpl in *.
  - rewrite apply_writes_ne; [by apply list_lookup_insert_eq|done|].
    intros e' He'. split; [apply Hp; by right|]. intros <-. apply He, list_elem_of_fmap. eauto.
  - apply IH; [len|intros ??; apply Hp; by right|done..].
Qed.

Lemma view_writes_ne w V x : (∀ e, e ∈ w → e.1 ≠ x) → view_writes w V x = V x.
Proof.
  revert V. induction w as [|e w IH]; intros V Hw; [done|]. simpl.
  rewrite IH by (intros e' He'; apply Hw; by right).
  apply fn_lookup_insert_ne. apply Hw. by left.
Qed.

Lemma view_writes_eq w V x d : NoDup w.*1 → (x, d) ∈ w → view_writes w V x = d.
Proof.
  revert V. induction w as [|e w IH]; intros V Hnd; [by intros ?%not_elem_of_nil|].
  simpl in Hnd. apply NoDup_cons in Hnd as [He Hnd]. intros [<-|Hin]%elem_of_cons; simpl in *.
  - rewrite view_writes_ne; [by apply fn_lookup_insert|].
    intros e' He' <-. apply He, list_elem_of_fmap. eauto.
  - by apply IH.
Qed.

(** [wrote s s' w]: between the two states exactly the writes [w] were made. *)
Definition wrote (s s' : kstate) (w : list (Z * list Z)) : Prop :=
  ks_disk s' = apply_writes w (ks_disk s) ∧ ks_wtrace s' = ks_wtrace s ++ w.

Lemma wrote_nil s s' : ks_disk s' = ks_disk s → ks_wtrace s' = ks_wtrace s → wrote s s' [].
Proof. intros ??. split; [done|]. by rewrite app_nil_r. Qed.

Lemma wrote_trans s1 s2 s3 w1 w2 : wrote s1 s2 w1 → wrote s2 s3 w2 → wrote s1 s3 (w1 ++ w2).
Proof.
  intros [D1 W1] [D2 W2]. split; [by rewrite apply_writes_app, <-D1|]. by rewrite W2, W1, app_assoc.
Qed.

Lemma wrote_length s s' w : wrote s s' w → length (ks_disk s') = length (ks_disk s).
Proof. intros [-> _]. apply length_apply_writes. Qed.

(** ** The header block *)

Fixpoint put_sectors (i : nat) (secs : list Z) (d : list Z) : list Z :=
  match secs with
  | [] => d
  | x :: r => put_sectors (S i) r (put32 (4 + 4 * i) x d)
  end.

(** The header block with count [n] and sectors [secs] over old contents [d]. *)
Definition hdr (n : Z) (secs : list Z) (d : list Z) : list Z := put_sectors 0 secs (put32 0 n d).

(** The count and the sectors a header block holds. *)
Definition hdr_n (d : list Z) : Z := s32 (get32 0 d).
Definition hdr_sec (d : list Z) (i : nat) : Z := s32 (get32 (4 + 4 * i) d).

Lemma block_ok_put32 off v d : block_ok d → block_ok (put32 off v d).
Proof. intros [? ?]. split; [by unfold put32; rewrite length_put_le|]. by apply bytes_ok_put_le. Qed.

Lemma put_sectors_ok i secs d : block_ok d → block_ok (put_sectors i secs d).
Proof. revert i d. induction secs; intros i d H; simpl; eauto using block_ok_put32. Qed.

Lemma hdr_ok n secs d : block_ok d → block_ok (hdr n secs d).
Proof. intros. by apply put_sectors_ok, block_ok_put32. Qed.

Lemma put_sectors_get off i secs d :
  length d = 512%nat → (4 + 4 * (i + length secs) ≤ 512)%nat → (off + 4 ≤ 4 + 4 * i)%nat →
  get32 off (put_sectors i secs d) = get32 off d.
Proof.
  revert i d. induction secs as [|x r IH]; intros i d Hd Hi Ho; [done|]. cbn [put_sectors length] in *.
  rewrite IH; [|unfold put32; rewrite length_put_le; lia|lia|lia].
  apply get_put32_ne; lia.
Qed.

Lemma put_sectors_get_sec i secs d j x :
  length d = 512%nat → (4 + 4 * (i + length secs) ≤ 512)%nat → secs !! j = Some x →
  get32 (4 + 4 * (i + j)) (put_sectors i secs d) = u32 x.
Proof.
  revert i j d. induction secs as [|y r IH]; intros i j d Hd Hi Hj; [done|]. cbn [put_sectors length] in *.
  destruct j as [|j]; simpl in Hj.
  - injection Hj as ->. rewrite Nat.add_0_r, put_sectors_get;
      [|unfold put32; rewrite length_put_le; lia|lia|lia].
    rewrite get_put32_eq by lia. done.
  - rewrite Nat.add_succ_r, <-Nat.add_succ_l. apply IH; [|lia|done].
    unfold put32. rewrite length_put_le. lia.
Qed.

Lemma hdr_n_hdr n secs d :
  length d = 512%nat → (length secs ≤ 10)%nat → 0 ≤ n < 2 ^ 31 → hdr_n (hdr n secs d) = n.
Proof.
  intros Hd Hl Hn. unfold hdr_n, hdr.
  rewrite put_sectors_get; [|unfold put32; rewrite length_put_le; lia|lia|lia].
  rewrite get_put32_eq by lia. rewrite u32_small by lia. apply s32_small. lia.
Qed.

Lemma hdr_sec_hdr n secs d i x :
  length d = 512%nat → (length secs ≤ 10)%nat → secs !! i = Some x → 0 ≤ x < 2 ^ 31 →
  hdr_sec (hdr n secs d) i = x.
Proof.
  intros Hd Hl Hi Hx. unfold hdr_sec, hdr. change (4 + 4 * i)%nat with (4 + 4 * (0 + i))%nat.
  rewrite (put_sectors_get_sec 0 _ _ _ x); [|unfold put32; rewrite length_put_le; lia|lia|done].
  rewrite u32_small by lia. apply s32_small. lia.
Qed.

(** ** The state of the log *)

(** Sectors in the log area. *)
Definition in_log (lg : log) (x : Z) : Prop := l_start lg ≤ x < l_start lg + l_size lg.

(** The sectors logged so far. *)
Definition lsec (lg : log) : list Z := take (Z.to_nat (l_n lg)) (l_sector lg).

(** A home location: a sector of the disk outside the log area. *)
Definition home (lg : log) (len : nat) (x : Z) : Prop := 0 ≤ x < Z.of_nat len ∧ ¬ in_log lg x.

Record log_ok (lg : log) (len : nat) : Prop := {
  lo_dev : l_dev lg = 1;
  lo_secs : length (l_sector lg) = 10%nat;
  lo_n : 0 ≤ l_n lg ≤ 10;
  lo_size : l_n lg ≤ l_size lg - 1;
  lo_start : 0 ≤ l_start lg;
  lo_end : l_start lg + l_size lg ≤ Z.of_nat len;
  lo_len : Z.of_nat len < 2 ^ 31;
  lo_nodup : NoDup (lsec lg);
  lo_home : Forall (home lg len) (lsec lg);
}.

(** The same log area: what stays fixed after [initlog]. *)
Definition same_area (lg lg' : log) : Prop :=
  l_start lg' = l_start lg ∧ l_size lg' = l_size lg ∧ l_dev lg' = l_dev lg.

(** What file system code may change while it runs: [storage_step] and the log. *)
Definition fs_step (s s' : kstate) : Prop :=
  same_area (ks_log s) (ks_log s') ∧ l_busy (ks_log s') = l_busy (ks_log s) ∧
  storage_step (set_log (ks_log s') s) s'.

Lemma storage_fs_step s s' : storage_step s s' → fs_step s s'.
Proof.
  intros H. pose proof (storage_log _ _ H) as E. split_and!; [|by rewrite E|].
  - by rewrite E.
  - destruct H as (ps & bs & d & w & ->). by exists ps, bs, d, w; destruct s.
Qed.

#[export] Instance fs_step_preorder : PreOrder fs_step.
Proof.
  split.
  - intros s. by apply storage_fs_step.
  - intros s1 s2 s3 ((A1&A2&A3) & B1 & p1 & b1 & d1 & w1 & E1) ((A4&A5&A6) & B2 & p2 & b2 & d2 & w2 & E2).
    split_and!; [split_and!; congruence|congruence|].
    exists p2, b2, d2, w2. rewrite E2 at 1. by rewrite E1.
Qed.

Lemma fs_step_log lg s :
  same_area (ks_log s) lg → l_busy lg = l_busy (ks_log s) → fs_step s (set_log lg s).
Proof. intros. split_and!; [done..|]. done. Qed.

(** [bio] depends on the log not at all and on the view pointwise. *)
Lemma bio_set_log lg s V B D : bio s V B D → bio (set_log lg s) V B D.
Proof. intros [? ? ?]. by split. Qed.

Lemma bio_ext s V V' B D : (∀ x, V x = V' x) → bio s V B D → bio s V' B D.
Proof.
  intros E [[Hr Hd Hsl Hu Hb Hdi Hv] ? ?]. split; [|done..]. split; try done.
  - intros i b Hs. destruct (Hsl i b Hs). split; try done. by rewrite <-E.
  - intros. rewrite <-E. eauto.
Qed.

Lemma brelse_held s V B D b x :
  bio s V B D → owned (ks_bufs s) b x → x ∈ D ∨ ks_disk s !! Z.to_nat x = Some (V x) →
  wp (brelse b) (λ _ s', storage_step s s' ∧ ks_disk s' = ks_disk s ∧ ks_wtrace s' = ks_wtrace s ∧
    bio s' V (B ∖ {[x]}) D ∧ (∀ c y, c ≠ b → owned (ks_bufs s) c y → owned (ks_bufs s') c y)) s.
Proof.
  intros Hs Ho Hx. destruct (ca_ring _ _ _ _ _ (bio_cache _ _ _ _ Hs)) as [l Hl].
  eapply wp_mono; [by eapply brelse_spec|]. simpl. tauto.
Qed.

Lemma lsec_lookup lg i x : lsec lg !! i = Some x → l_sector lg !! i = Some x.
Proof. intros H. by apply lookup_take_Some in H as [? _]. Qed.

Lemma length_lsec lg len : log_ok lg len → length (lsec lg) = Z.to_nat (l_n lg).
Proof. intros []. unfold lsec. len. Qed.

Lemma lsec_home lg len i x : log_ok lg len → lsec lg !! i = Some x → home lg len x.
Proof. intros H Hi. by eapply Forall_lookup_1; [apply (lo_home _ _ H)|]. Qed.

(** The writes of [install_trans] from entry [tail] on. *)
Fixpoint installs (start : Z) (tail : nat) (secs : list Z) (dk : list (list Z)) : list (Z * list Z) :=
  match secs with
  | [] => []
  | x :: r => (x, dk !!! Z.to_nat (start + Z.of_nat tail + 1)) :: installs start (S tail) r dk
  end.

Lemma installs_ext start tail secs dk dk' :
  (∀ i, (tail ≤ i < tail + length secs)%nat →
    dk !! Z.to_nat (start + Z.of_nat i + 1) = dk' !! Z.to_nat (start + Z.of_nat i + 1)) →
  installs start tail secs dk = installs start tail secs dk'.
Proof.
  revert tail. induction secs as [|x r IH]; intros tail E; [done|]. simpl in *.
  rewrite (IH (S tail)) by (intros; apply E; lia). do 2 f_equal.
  rewrite !list_lookup_total_alt. f_equal. apply E. lia.
Qed.

Lemma installs_keys start tail secs dk : (installs start tail secs dk).*1 = secs.
Proof. revert tail. induction secs as [|x r IH]; intros tail; [done|]. simpl. by rewrite IH. Qed.

Lemma elem_of_installs start tail secs dk e :
  e ∈ installs start tail secs dk ↔
  ∃ i, secs !! i = Some e.1 ∧ e.2 = dk !!! Z.to_nat (start + Z.of_nat (tail + i) + 1).
Proof.
  revert tail. induction secs as [|x r IH]; intros tail; simpl.
  - split; [by intros ?%not_elem_of_nil|]. by intros (i & ? & _).
  - rewrite elem_of_cons, IH. split.
    + intros [->|(i & ? & ->)]; [by exists 0%nat; rewrite Nat.add_0_r|].
      exists (S i). by rewrite Nat.add_succ_r.
    + intros ([|i] & Hi & E); simpl in Hi.
      * left. destruct e; simpl in *. rewrite Nat.add_0_r in E. by simplify_eq.
      * right. exists i. by rewrite Nat.add_succ_r in E.
Qed.

(** The sectors a header block lists, and what [recover_from_log] needs of it. *)
Definition hdr_secs (h : list Z) : list Z := hdr_sec h <$> seq 0 (Z.to_nat (hdr_n h)).

Record hdr_wf (lg : log) (len : nat) (h : list Z) : Prop := {
  hw_n : 0 ≤ hdr_n h ≤ 10;
  hw_size : hdr_n h ≤ l_size lg - 1;
  hw_nodup : NoDup (hdr_secs h);
  hw_home : Forall (home lg len) (hdr_secs h);
}.

(** The writes of a recovery of the disk [dk]. *)
Definition recover_writes (start : Z) (dk : list (list Z)) : list (Z * list Z) :=
  let h := dk !!! Z.to_nat start in
  installs start 0 (hdr_secs h) dk ++ [(start, hdr 0 [] h)].

Section Heads.
Context `{IdeSpec}.
Set Default Proof Using "All".

(** ** Writing and reading the header *)

Lemma write_head_loop_spec lg D b k i s V :
  ks_log s = lg → log_ok lg (length (ks_disk s)) →
  bio s V {[l_start lg]} D → owned (ks_bufs s) b (l_start lg) → (i + k = length (lsec lg))%nat →
  wp (write_head_loop b k i) (λ _ s', storage_step s s' ∧ ks_disk s' = ks_disk s ∧
    ks_wtrace s' = ks_wtrace s ∧
    bio s' (<[l_start lg:=put_sectors i (drop i (lsec lg)) (V (l_start lg))]> V) {[l_start lg]} D ∧
    owned (ks_bufs s') b (l_start lg)) s.
Proof.
  revert i s V. induction k as [|k IH]; intros i s V Hlg Hok Hs Ho Hik; cbn [write_head_loop].
  - wp_step. rewrite drop_ge by lia. split_and!; try done.
    eapply bio_ext; [|done]. intros x. simpl.
    destruct (decide (x = l_start lg)) as [->|]; by rewrite ?fn_lookup_insert, ?fn_lookup_insert_ne.
  - wp_steps. rewrite Hlg.
    destruct (lookup_lt_is_Some_2 (lsec lg) i ltac:(lia)) as [x Hx].
    eapply wp_the; [by apply lsec_lookup|]. apply wp_bind.
    eapply (modify_spec s V _ D Hs b _ (put32 (4 + 4 * i) x)); [done| |].
    { apply block_ok_put32. eapply view_ok; [by destruct Hs|by destruct Hok|].
      destruct Hok; lia. }
    intros s1 St1 Dk1 Tr1 Hs1 Ho1. pose proof (storage_log _ _ St1) as Lg1.
    eapply wp_mono.
    { apply IH; [congruence|by rewrite Dk1|done|by apply Ho1|lia]. }
    simpl. intros [] s2 (St2 & Dk2 & Tr2 & Hs2 & Ho2).
    split_and!; [by etrans|congruence|congruence| |done].
    eapply bio_ext; [|done]. intros y.
    destruct (decide (y = l_start lg)) as [->|].
    + rewrite !fn_lookup_insert. by rewrite (drop_S _ _ _ Hx).
    + by rewrite !fn_lookup_insert_ne.
Qed.

Lemma write_head_spec s V D :
  log_ok (ks_log s) (length (ks_disk s)) → bio s V ∅ D → l_start (ks_log s) ∉ D →
  (size D < NBUF)%nat →
  let h := hdr (l_n (ks_log s)) (lsec (ks_log s)) (V (l_start (ks_log s))) in
  wp write_head (λ _ s', storage_step s s' ∧ wrote s s' [(l_start (ks_log s), h)] ∧
    bio s' (<[l_start (ks_log s):=h]> V) ∅ D) s.
Proof.
  intros Hok Hs HD Hsz h. set (lg := ks_log s) in *. set (a := l_start lg) in *.
  assert (0 ≤ a < Z.of_nat (length (ks_disk s)) ∧ Z.of_nat (length (ks_disk s)) < 2 ^ 31) as [Ha Hl]
    by (unfold a; destruct Hok; lia).
  unfold write_head. wp_steps. fold lg. rewrite (lo_dev _ _ Hok). fold a. rewrite u32_small by lia.
  wp_call (bread_spec s V ∅ D Hs a); [set_solver| |lia|lia|].
  { rewrite union_empty_r_L, size_union by set_solver. rewrite size_singleton. lia. }
  intros b s1 (St1 & Dk1 & Tr1 & Hs1 & Ho1 & _). simpl. rewrite union_empty_r_L in Hs1.
  apply wp_bind. eapply (modify_spec s1 V _ D Hs1 b a (put32 0 (l_n lg))); [done| |].
  { apply block_ok_put32. eapply view_ok; [by destruct Hs|lia|lia]. }
  intros s2 St2 Dk2 Tr2 Hs2 Ho2.
  assert (ks_log s2 = lg) as Hlg2.
  { by rewrite (storage_log _ _ St2), (storage_log _ _ St1). }
  wp_call (write_head_loop_spec lg D b _ 0 s2 _ Hlg2); [congruence|done|by apply Ho2| |].
  { by rewrite (length_lsec _ _ Hok). }
  intros [] s3 (St3 & Dk3 & Tr3 & Hs3 & Ho3). simpl. fold a in Hs3, Ho3.
  wp_call (bwrite_spec _ _ _ _ Hs3 b a Ho3).
  intros [] s4 (St4 & Dk4 & Tr4 & Hs4 & Ho4). simpl. rewrite fn_lookup_insert in Dk4, Tr4.
  rewrite fn_lookup_insert in Dk4, Tr4, Hs4. rewrite drop_0 in Dk4, Tr4, Hs4. fold h in Dk4, Tr4, Hs4.
  rewrite difference_disjoint_L in Hs4 by set_solver.
  eapply wp_mono; [apply (brelse_held _ _ _ _ b a Hs4 (Ho4 _ _ Ho3))|].
  { right. rewrite Dk4, fn_lookup_insert. apply list_lookup_insert_eq. rewrite Dk3, Dk2, Dk1. lia. }
  intros [] s5 (St5 & Dk5 & Tr5 & Hs5 & _). split_and!.
  - do 4 (etrans; [done|]). done.
  - split; simpl; [|by rewrite Tr5, Tr4, Tr3, Tr2, Tr1]. by rewrite Dk5, Dk4, Dk3, Dk2, Dk1.
  - rewrite difference_diag_L in Hs5. eapply bio_ext; [|done]. intros y.
    destruct (decide (y = a)) as [->|]; [by rewrite !fn_lookup_insert|by rewrite !fn_lookup_insert_ne].
Qed.

(** ** Installing the logged blocks *)

Lemma install_block_spec lg tail x s V D :
  ks_log s = lg → log_ok lg (length (ks_disk s)) → bio s V ∅ D →
  lsec lg !! tail = Some x → (∀ y, y ∈ D → ¬ in_log lg y) → (size ({[x]} ∪ D) < NBUF)%nat →
  let d := ks_disk s !!! Z.to_nat (l_start lg + Z.of_nat tail + 1) in
  wp (install_block tail) (λ _ s', storage_step s s' ∧ wrote s s' [(x, d)] ∧
    bio s' (<[x:=d]> V) ∅ (D ∖ {[x]})) s.
Proof.
  intros Hlg Hok Hs Hx HD Hroom. cbn zeta. set (a := l_start lg + Z.of_nat tail + 1).
  pose proof (length_lsec _ _ Hok) as Hlen. pose proof (lookup_lt_Some _ _ _ Hx) as Htail.
  pose proof (lsec_home _ _ _ _ Hok Hx) as [Hx0 Hxl].
  assert (in_log lg a ∧ 0 ≤ a < Z.of_nat (length (ks_disk s)) ∧ Z.of_nat (length (ks_disk s)) < 2 ^ 31)
    as (Hal & Ha & Hdl) by (unfold a, in_log; destruct Hok; lia).
  assert (a ∉ D) as HaD by (intros ?%HD; done).
  assert (a ≠ x) as Hax by (intros ->; done).
  destruct (lookup_lt_is_Some_2 (ks_disk s) (Z.to_nat a) ltac:(lia)) as [d Hd].
  rewrite (list_lookup_total_correct _ _ _ Hd).
  assert (V a = d) as HV by (eapply view_clean; [apply Hs|set_solver|done|lia|done]).
  unfold install_block. wp_steps. rewrite Hlg, (lo_dev _ _ Hok). fold a. rewrite u32_small by lia.
  wp_call (bread_spec s V ∅ D Hs a); [set_solver| |lia|lia|].
  { rewrite union_empty_r_L, size_union by set_solver. rewrite size_singleton.
    enough (size D ≤ size ({[x]} ∪ D))%nat by lia. apply subseteq_size. set_solver. }
  intros lb s1 (St1 & Dk1 & Tr1 & Hs1 & Ho1 & _). rewrite union_empty_r_L in Hs1.
  wp_step. eapply wp_the; [by apply lsec_lookup|]. rewrite u32_small by lia.
  wp_call (bread_spec s1 V _ D Hs1 x); [set_solver| |lia|rewrite Dk1; lia|].
  { replace ({[x]} ∪ {[a]} ∪ D) with ({[a]} ∪ ({[x]} ∪ D)) by set_solver.
    rewrite size_union by set_solver. rewrite size_singleton. lia. }
  intros db s2 (St2 & Dk2 & Tr2 & Hs2 & Ho2 & Kp2).
  destruct (Kp2 _ _ Ho1) as [Hne Ho1'].
  destruct (owned_view _ _ _ _ _ (bio_cache _ _ _ _ Hs2) _ _ Ho1') as (bf & [_ Hbf] & Hbd & _).
  assert (block_ok d) as Hdok.
  { rewrite <-HV. eapply view_ok; [apply Hs|lia|lia]. }
  assert (block_ok (V x)) as Hxok by (eapply view_ok; [apply Hs|lia|lia]).
  wp_step. eapply wp_get_buf; [done|]. apply wp_bind.
  eapply (modify_spec s2 V _ D Hs2 db x (splice 0 (b_data bf))); [done| |].
  { rewrite Hbd, HV, splice_all; [done|]. by rewrite (proj1 Hdok), (proj1 Hxok). }
  rewrite Hbd, HV, splice_all by by rewrite (proj1 Hdok), (proj1 Hxok).
  intros s3 St3 Dk3 Tr3 Hs3 Ho3. wp_call (bwrite_spec _ _ _ _ Hs3 db x (Ho3 _ _ Ho2)).
  intros [] s4 (St4 & Dk4 & Tr4 & Hs4 & Ho4). rewrite fn_lookup_insert in Dk4, Tr4.
  wp_call (brelse_held _ _ _ _ lb a Hs4); [by apply Ho4, Ho3| |].
  { right. rewrite fn_lookup_insert_ne by done. rewrite Dk4, list_lookup_insert_ne by lia. congruence. }
  intros [] s5 (St5 & Dk5 & Tr5 & Hs5 & Ho5).
  wp_call (brelse_held _ _ _ _ db x Hs5); [by apply Ho5, Ho4, Ho3| |].
  { right. rewrite Dk5, Dk4, fn_lookup_insert. apply list_lookup_insert_eq. rewrite Dk3, Dk2, Dk1. lia. }
  intros [] s6 (St6 & Dk6 & Tr6 & Hs6 & _). split_and!.
  - do 5 (etrans; [done|]). done.
  - split; simpl; [by rewrite Dk6, Dk5, Dk4, Dk3, Dk2, Dk1|by rewrite Tr6, Tr5, Tr4, Tr3, Tr2, Tr1].
  - by replace (({[x]} ∪ {[a]}) ∖ {[a]} ∖ {[x]}) with (∅ : gset Z) in Hs6 by set_solver.
Qed.

Lemma install_loop_spec lg k tail s V D :
  ks_log s = lg → log_ok lg (length (ks_disk s)) → bio s V ∅ D →
  (tail + k = length (lsec lg))%nat → D ⊆ list_to_set (drop tail (lsec lg)) →
  (∀ x, x ∈ drop tail (lsec lg) → (size ({[x]} ∪ D) < NBUF)%nat) →
  let w := installs (l_start lg) tail (drop tail (lsec lg)) (ks_disk s) in
  wp (install_loop k tail) (λ _ s', storage_step s s' ∧ wrote s s' w ∧
    bio s' (view_writes w V) ∅ ∅) s.
Proof.
  revert tail s V D. induction k as [|k IH]; intros tail s V D Hlg Hok Hs Hk HD Hroom w;
    cbn [install_loop].
  { wp_step. subst w. rewrite drop_ge by lia. rewrite drop_ge in HD by lia.
    replace ∅ with D at 2 by set_solver. split_and!; [done|by apply wrote_nil|done]. }
  destruct (lookup_lt_is_Some_2 (lsec lg) tail ltac:(lia)) as [x Hx].
  pose proof (drop_S _ _ _ Hx) as Hdrop. pose proof (lsec_home _ _ _ _ Hok Hx) as [Hx0 Hxl].
  assert (∀ y, y ∈ D → ¬ in_log lg y) as HDh.
  { intros y Hy%HD. rewrite elem_of_list_to_set in Hy. apply list_elem_of_lookup_1 in Hy as [i Hy].
    rewrite lookup_drop in Hy. by destruct (lsec_home _ _ _ _ Hok Hy). }
  subst w. rewrite Hdrop in *. simpl in HD.
  wp_call (install_block_spec lg tail x s V D); [done..|apply Hroom; by left|].
  intros [] s1 (St1 & Wr1 & Hs1). simpl installs. set (d := ks_disk s !!! _) in *.
  pose proof (wrote_length _ _ _ Wr1) as Hlen.
  assert (installs (l_start lg) (S tail) (drop (S tail) (lsec lg)) (ks_disk s) =
    installs (l_start lg) (S tail) (drop (S tail) (lsec lg)) (ks_disk s1)) as ->.
  { apply installs_ext. intros i Hi. rewrite length_drop in Hi. destruct Wr1 as [-> _].
    pose proof (length_lsec _ _ Hok) as Hll. symmetry.
    apply apply_writes_ne; [destruct Hok; lia|]. intros e ->%list_elem_of_singleton. simpl.
    split; [lia|]. intros ->. apply Hxl. unfold in_log. destruct Hok. lia. }
  eapply wp_mono.
  { eapply (IH (S tail) s1 _ _); [by rewrite (storage_log _ _ St1)|by rewrite Hlen|done|lia|set_solver|].
    intros y Hy. eapply Nat.le_lt_trans; [|apply (Hroom y); by right]. apply subseteq_size. set_solver. }
  intros [] s2 (St2 & Wr2 & Hs2). split_and!; [by etrans|by apply (wrote_trans _ _ _ _ _ Wr1 Wr2)|done].
Qed.

(** ** Recovery *)

Lemma read_head_loop_spec d k i s :
  (i + k ≤ length (l_sector (ks_log s)))%nat →
  runs_to (read_head_loop d k i) s ()
    (set_log (with_l_sector (splice i (hdr_sec d <$> seq i k) (l_sector (ks_log s))) (ks_log s)) s).
Proof.
  revert i s. induction k as [|k IH]; intros i s Hi; cbn [read_head_loop].
  - apply runs_ret_eq. by destruct s as [????????????[]?????].
  - destruct (lookup_lt_is_Some_2 (l_sector (ks_log s)) i ltac:(lia)) as [x Hx].
    unfold runs_to, mbind, M_bind, gets. rewrite Hx. simpl. unfold modify.
    rewrite IH by (simpl; rewrite length_insert; lia).
    cbn [seq fmap list_fmap]. rewrite splice_cons. done.
Qed.

Lemma read_head_spec s V :
  log_ok (ks_log s) (length (ks_disk s)) → bio s V ∅ ∅ → 
  let lg := ks_log s in
  let h := ks_disk s !!! Z.to_nat (l_start lg) in
  hdr_wf lg (length (ks_disk s)) h →
  wp read_head (λ _ s', fs_step s s' ∧ wrote s s' [] ∧ bio s' V ∅ ∅ ∧
    log_ok (ks_log s') (length (ks_disk s)) ∧ lsec (ks_log s') = hdr_secs h) s.
Proof.
  intros Hok Hs lg h Hwf. fold lg in Hok. set (a := l_start lg) in *.
  assert (0 ≤ a < Z.of_nat (length (ks_disk s)) ∧ Z.of_nat (length (ks_disk s)) < 2 ^ 31) as [Ha Hl]
    by (unfold a; destruct Hok; lia).
  destruct (lookup_lt_is_Some_2 (ks_disk s) (Z.to_nat a) ltac:(lia)) as [h' Hh].
  pose proof (list_lookup_total_correct _ _ _ Hh) as Eh. fold h in Eh. subst h'.
  assert (V a = h) as HV by (eapply view_clean; [apply Hs|set_solver|set_solver|lia|done]).
  unfold read_head. wp_steps. fold lg. rewrite (lo_dev _ _ Hok). fold a. rewrite u32_small by lia.
  wp_call (bread_spec s V ∅ ∅ Hs a); [set_solver| |lia|lia|].
  { rewrite !union_empty_r_L, size_singleton. lia. }
  intros b s1 (St1 & Dk1 & Tr1 & Hs1 & Ho1 & _). rewrite union_empty_r_L in Hs1.
  destruct (owned_view _ _ _ _ _ (bio_cache _ _ _ _ Hs1) _ _ Ho1) as (bf & [_ Hbf] & Hbd & _).
  wp_step. eapply wp_get_buf; [done|]. rewrite Hbd, HV. fold (hdr_n h). wp_steps.
  pose proof (storage_log _ _ St1) as Lg1. rewrite Lg1. fold lg.
  set (lg1 := with_l_n (hdr_n h) lg).
  pose proof (lo_secs _ _ Hok) as Hsecs.
  eapply wp_of_runs.
  { apply read_head_loop_spec. simpl. rewrite Hsecs. destruct Hwf. lia. }
  simpl. set (lg2 := with_l_sector _ lg1).
  assert (lsec lg2 = hdr_secs h) as Hsec.
  { assert (length (hdr_secs h) = Z.to_nat (hdr_n h)) as Hlh by (unfold hdr_secs; len).
    etrans; [|apply (slice_splice_eq 0 (hdr_secs h) (l_sector lg))].
    - unfold lsec, slice. by rewrite drop_0, Hlh.
    - rewrite Hsecs, Hlh. destruct Hwf. lia. }
  eapply wp_mono; [apply (brelse_held _ V {[a]} ∅ b a)|].
  { by do 2 apply bio_set_log. } { done. } { right. simpl. by rewrite Dk1, HV. }
  intros [] s2 (St2 & Dk2 & Tr2 & Hs2 & _). rewrite difference_diag_L in Hs2. split_and!.
  - etrans; [by apply storage_fs_step|]. etrans; [|by apply storage_fs_step].
    change (fs_step s1 (set_log lg2 s1)). apply fs_step_log; rewrite Lg1; done.
  - apply wrote_nil; [by rewrite Dk2|by rewrite Tr2].
  - done.
  - rewrite (storage_log _ _ St2). simpl. destruct Hok, Hwf. split; try done.
    + simpl. rewrite length_splice. done.
    + by rewrite Hsec.
    + by rewrite Hsec.
  - by rewrite (storage_log _ _ St2).
Qed.

Lemma set_log_n_spec n s V B D :
  bio s V B D →
  wp (set_log_n n) (λ _ s', fs_step s s' ∧ wrote s s' [] ∧ bio s' V B D ∧
    ks_log s' = with_l_n n (ks_log s)) s.
Proof.
  intros Hs. unfold set_log_n. wp_step. split_and!; [by apply fs_step_log|by apply wrote_nil| |done].
  by apply bio_set_log.
Qed.

Lemma log_ok_reset lg len : log_ok lg len → log_ok (with_l_n 0 lg) len.
Proof. intros []. split; simpl; try done; try lia; constructor. Qed.

(** Installing all logged blocks and clearing the header: the second half of
    both [commit_trans] and [recover_from_log].  [h] is the header on disk. *)
Lemma install_clear_spec s V D h :
  let lg := ks_log s in
  log_ok lg (length (ks_disk s)) → bio s V ∅ D → D ⊆ list_to_set (lsec lg) →
  (∀ x, x ∈ lsec lg → (size ({[x]} ∪ D) < NBUF)%nat) →
  ks_disk s !! Z.to_nat (l_start lg) = Some h →
  let w := installs (l_start lg) 0 (lsec lg) (ks_disk s) ++ [(l_start lg, hdr 0 [] h)] in
  wp (install_trans;; set_log_n 0;; write_head) (λ _ s', fs_step s s' ∧ wrote s s' w ∧
    bio s' (view_writes w V) ∅ ∅ ∧ ks_log s' = with_l_n 0 lg) s.
Proof.
  intros lg Hok Hs HD Hroom Hh. cbn zeta. set (a := l_start lg) in *.
  assert (Hnot : a ∉ lsec lg).
  { intros [i Hi]%list_elem_of_lookup_1. destruct (lsec_home _ _ _ _ Hok Hi) as [_ []].
    unfold in_log, a. destruct Hok. lia. }
  assert (0 ≤ a) as Ha by by destruct Hok.
  assert (V a = h) as HV.
  { eapply view_clean; [apply Hs|set_solver| |done..]. intros Hin%HD. by rewrite elem_of_list_to_set in Hin. }
  unfold install_trans. wp_steps. fold lg.
  wp_call (install_loop_spec lg _ 0 s V D); [done|done|done| |by rewrite drop_0|by rewrite drop_0|].
  { by rewrite (length_lsec _ _ Hok). }
  rewrite drop_0. fold a. set (w := installs _ _ _ _). intros [] s1 (St1 & Wr1 & Hs1).
  pose proof (storage_log _ _ St1) as Lg1. pose proof (wrote_length _ _ _ Wr1) as Len1.
  wp_call (set_log_n_spec 0 s1 _ _ _ Hs1). intros [] s2 (St2 & Wr2 & Hs2 & Lg2).
  rewrite Lg1 in Lg2. fold lg in Lg2. pose proof (wrote_length _ _ _ Wr2) as Len2.
  assert (log_ok (ks_log s2) (length (ks_disk s2))) as Hok2.
  { rewrite Len2, Len1, Lg2. by apply log_ok_reset. }
  wp_call (write_head_spec s2 _ ∅ Hok2 Hs2); [set_solver|rewrite size_empty; lia|].
  rewrite Lg2. change (l_start (with_l_n 0 lg)) with a. change (l_n (with_l_n 0 lg)) with 0.
  change (lsec (with_l_n 0 lg)) with (@nil Z).
  assert (view_writes w V a = h) as ->.
  { rewrite view_writes_ne; [done|]. intros e He Ee. apply Hnot.
    rewrite <-(installs_keys a 0 (lsec lg) (ks_disk s)). apply list_elem_of_fmap. eauto. }
  intros [] s3 (St3 & Wr3 & Hs3). split_and!.
  - etrans; [by apply storage_fs_step|]. etrans; [done|]. by apply storage_fs_step.
  - apply (wrote_trans _ _ _ _ _ Wr1). apply (wrote_trans _ _ _ [] _ Wr2 Wr3).
  - by rewrite view_writes_app.
  - by rewrite (storage_log _ _ St3).
Qed.

Lemma recover_spec s V :
  let lg := ks_log s in
  let h := ks_disk s !!! Z.to_nat (l_start lg) in
  log_ok lg (length (ks_disk s)) → bio s V ∅ ∅ → hdr_wf lg (length (ks_disk s)) h →
  let w := recover_writes (l_start lg) (ks_disk s) in
  wp recover_from_log (λ _ s', fs_step s s' ∧ wrote s s' w ∧ bio s' (view_writes w V) ∅ ∅ ∧
    l_n (ks_log s') = 0 ∧ log_ok (ks_log s') (length (ks_disk s))) s.
Proof.
  intros lg h Hok Hs Hwf w. unfold recover_from_log.
  wp_call (read_head_spec s V Hok Hs Hwf).
  intros [] s1 (St1 & Wr1 & Hs1 & Hok1 & Hsec1). pose proof (wrote_length _ _ _ Wr1) as Len1.
  destruct (proj1 St1) as (Hst & _). destruct Wr1 as [Dk1 Tr1]. simpl in Dk1.
  eapply wp_mono.
  { apply (install_clear_spec s1 V ∅ h); [by rewrite Len1|done|set_solver| |].
    - intros x _. rewrite union_empty_r_L, size_singleton. lia.
    - rewrite Dk1, Hst. apply list_lookup_lookup_total_lt. destruct Hok. fold lg. lia. }
  rewrite Hsec1, Hst, Dk1. intros [] s2 (St2 & Wr2 & Hs2 & Lg2). split_and!.
  - by etrans.
  - by apply (wrote_trans s s1 s2 [] w).
  - done.
  - by rewrite Lg2.
  - rewrite Lg2. by apply log_ok_reset.
Qed.

End Heads.

(** ** Appending a block to the log *)

Lemma log_slot_cases lg len x :
  log_ok lg len → 0 ≤ x < 2 ^ 31 →
  lsec lg !! (log_slot lg x) = Some x ∨ ((x ∉ lsec lg) ∧ log_slot lg x = Z.to_nat (l_n lg)).
Proof.
  intros Hok Hx. unfold log_slot. fold (lsec lg).
  assert (∀ i y, lsec lg !! i = Some y → (u32 y =? x) = true → y = x) as Hinj.
  { intros i y Hy ?%Z.eqb_eq. pose proof (lsec_home _ _ _ _ Hok Hy) as [? _].
    rewrite u32_small in H; [done|]. destruct Hok. lia. }
  destruct (find_from _ 0 _) as [j|] eqn:E; simpl.
  - apply find_from_Some in E as (n & y & -> & Hy & Hp & _). left. simpl. rewrite Hy. f_equal. eauto.
  - right. split; [|done]. rewrite find_from_None in E. intros [i Hi]%list_elem_of_lookup_1.
    specialize (E i x Hi). simpl in E. rewrite u32_small, Z.eqb_refl in E by lia. done.
Qed.

(** The log after block [x] went to its slot. *)
Definition log_appended (lg : log) (x : Z) : log :=
  let i := log_slot lg x in
  with_l_n (if Z.of_nat i =? l_n lg then l_n lg + 1 else l_n lg)
    (with_l_sector (<[i:=s32 x]> (l_sector lg)) lg).

Lemma lsec_appended lg len x :
  log_ok lg len → 0 ≤ x < 2 ^ 31 → l_n lg < 10 →
  lsec (log_appended lg x) = if decide (x ∈ lsec lg) then lsec lg else lsec lg ++ [x].
Proof.
  intros Hok Hx Hn. pose proof (length_lsec _ _ Hok) as Hlen.
  pose proof (lo_secs _ _ Hok) as Hsl. pose proof (lo_n _ _ Hok) as Hn0.
  unfold lsec at 1, log_appended. simpl. rewrite s32_small by lia.
  destruct (log_slot_cases lg len x Hok Hx) as [Hi|[Hx' ->]].
  - pose proof (lookup_lt_Some _ _ _ Hi).
    rewrite decide_True by (by eapply list_elem_of_lookup_2).
    rewrite (proj2 (Z.eqb_neq _ _)) by lia.
    rewrite list_insert_id by by apply lsec_lookup. done.
  - rewrite decide_False by done. rewrite Z2Nat.id, Z.eqb_refl by lia.
    rewrite Z2Nat.inj_add by lia. change (Z.to_nat 1) with 1%nat. rewrite Nat.add_1_r.
    rewrite (take_S_r _ _ x) by (apply list_lookup_insert_eq; lia).
    by rewrite take_insert_ge by lia.
Qed.

Lemma log_appended_ok lg len x :
  log_ok lg len → home lg len x → l_n lg < 10 → l_n lg < l_size lg - 1 →
  log_ok (log_appended lg x) len.
Proof.
  intros Hok Hx Hn Hsz. assert (0 ≤ x < 2 ^ 31) as Hxr by (destruct Hx, Hok; lia).
  pose proof (lsec_appended lg len x Hok Hxr Hn) as E.
  assert (∀ y, home (log_appended lg x) len y ↔ home lg len y) as Hh by done.
  destruct Hok. split; try done; simpl.
  - by rewrite length_insert.
  - destruct (Z.eqb _ _); lia.
  - destruct (Z.eqb _ _); lia.
  - rewrite E. case_decide; [done|]. apply NoDup_app. split_and!; [done| |apply NoDup_singleton].
    by intros y Hy ->%list_elem_of_singleton.
  - rewrite E. case_decide; [done|]. apply Forall_app. split; [done|]. by apply Forall_singleton.
Qed.

Section Append.
Context `{IdeSpec}.
Set Default Proof Using "All".

Lemma pin_spec s V B D b x :
  bio s V B D → owned (ks_bufs s) b x →
  wp (upd_buf b (λ y, with_b_flags (Z.lor (b_flags y) B_DIRTY) y)) (λ _ s',
    storage_step s s' ∧ ks_disk s' = ks_disk s ∧ ks_wtrace s' = ks_wtrace s ∧
    bio s' V B ({[x]} ∪ D) ∧ (∀ c y, owned (ks_bufs s) c y → owned (ks_bufs s') c y)) s.
Proof.
  intros Hs (bf & Hb & Hdev & Hx & Hbusy & Hvalid). eapply wp_upd_buf; [apply Hb|].
  split_and!; [apply storage_step_bufs|done|done|..].
  - destruct Hs as [Hc ? ?]. split; [|done..]. simpl. rewrite <-Hx. by apply cache_pin.
  - intros c y Ho. destruct (decide (c = b)) as [->|].
    + destruct Ho as (bf' & Hb' & ? & ? & ? & ?). rewrite (slot_inj _ _ _ _ Hb' Hb) in *.
      eexists. split; [by eapply slot_insert_eq|]. unfold busy, valid in *. simpl.
      by autorewrite with flags.
    + by eapply owned_insert.
Qed.

Lemma log_copy_spec s V B D b x a :
  bio s V B D → owned (ks_bufs s) b x → a ∉ B → a ∉ D →
  0 ≤ a → (Z.to_nat a < length (ks_disk s))%nat → (size ({[a]} ∪ B ∪ D) ≤ NBUF)%nat →
  wp (log_copy b 1 a) (λ _ s', storage_step s s' ∧ wrote s s' [(a, V x)] ∧
    bio s' (<[a:=V x]> V) B D ∧ (∀ c y, owned (ks_bufs s) c y → owned (ks_bufs s') c y)) s.
Proof.
  intros Hs Ho HaB HaD Ha Hal Hroom. unfold log_copy.
  wp_call (bread_spec _ _ _ _ Hs a); [done..|].
  intros lb s1 (St1 & Dk1 & Tr1 & Hs1 & Ho1 & Kp1).
  destruct (Kp1 _ _ Ho) as [Hne Ho1'].
  destruct (owned_view _ _ _ _ _ (bio_cache _ _ _ _ Hs1) _ _ Ho1')
    as (bf & [_ Hbf] & Hbd & _ & _ & _ & _ & Hx0 & Hxl).
  wp_step. eapply wp_get_buf; [done|]. apply wp_bind. rewrite Hbd.
  assert (splice 0 (V x) (V a) = V x) as Hsp.
  { apply splice_all. rewrite (proj1 (view_ok _ _ _ _ _ (bio_cache _ _ _ _ Hs1) x Hx0 Hxl)).
    symmetry. apply (view_ok _ _ _ _ _ (bio_cache _ _ _ _ Hs) a); lia. }
  eapply (modify_spec s1 V _ D Hs1 lb a (splice 0 (V x))); [done| |]; rewrite Hsp.
  { by apply (view_ok _ _ _ _ _ (bio_cache _ _ _ _ Hs1)). }
  intros s2 St2 Dk2 Tr2 Hs2 Ho2. wp_call (bwrite_spec _ _ _ _ Hs2 lb a (Ho2 _ _ Ho1)).
  intros [] s3 (St3 & Dk3 & Tr3 & Hs3 & Ho3). rewrite fn_lookup_insert in Dk3, Tr3.
  replace (D ∖ {[a]}) with D in Hs3 by set_solver.
  wp_call (brelse_held _ _ _ _ lb a Hs3); [by apply Ho3, Ho2| |].
  { right. rewrite Dk3, fn_lookup_insert. apply list_lookup_insert_eq. rewrite Dk2, Dk1. lia. }
  intros [] s4 (St4 & Dk4 & Tr4 & Hs4 & Ho4). split_and!.
  - do 3 (etrans; [done|]). done.
  - split; simpl; [by rewrite Dk4, Dk3, Dk2, Dk1|by rewrite Tr4, Tr3, Tr2, Tr1].
  - by replace (({[a]} ∪ B) ∖ {[a]}) with B in Hs4 by set_solver.
  - intros c y Hc. destruct (Kp1 _ _ Hc). auto.
Qed.

(** The count goes up when the slot is a new one. *)
Lemma bump_spec lg x s :
  ks_log s = with_l_sector (<[log_slot lg x:=s32 x]> (l_sector lg)) lg →
  runs_to (when (Z.of_nat (log_slot lg x) =? l_n lg) (set_log_n (l_n lg + 1))) s ()
    (set_log (log_appended lg x) s).
Proof.
  intros E. unfold log_appended, runs_to, when, set_log_n, modify.
  destruct (Z.eqb _ _); [cbn beta; by rewrite E|].
  unfold mret, M_ret. f_equal. transitivity (set_log (ks_log s) s); [by destruct s|].
  rewrite E. by destruct lg.
Qed.

End Append.

(** ** Transactions

    [view s V B D]: the buffer cache represents the disk [V], up to the
    contents of the log area.

    [txn s V B P L]: a transaction is running.  [V] is the contents of every
    block as the file system sees it, [B] the blocks it holds, [P] those it
    has modified but not yet logged, [L] those it has logged.  The home
    locations on disk do not change until the commit. *)

Definition view (s : kstate) (V : Z → list Z) (B D : gset Z) : Prop :=
  ∃ V0, bio s V0 B D ∧ ∀ x, home (ks_log s) (length (ks_disk s)) x → V0 x = V x.

Record txn (s : kstate) (V : Z → list Z) (B P L : gset Z) : Prop := {
  tx_view : view s V B L;
  tx_ok : log_ok (ks_log s) (length (ks_disk s));
  tx_busy : l_busy (ks_log s) = true;
  tx_L : L = list_to_set (lsec (ks_log s));
  tx_clear : ∃ h, ks_disk s !! Z.to_nat (l_start (ks_log s)) = Some h ∧ hdr_n h = 0;
  tx_B : ∀ x, x ∈ B → home (ks_log s) (length (ks_disk s)) x;
  tx_P : P ⊆ B;
  tx_logged : ∀ i x, lsec (ks_log s) !! i = Some x → x ∉ P →
    ks_disk s !! Z.to_nat (l_start (ks_log s) + Z.of_nat i + 1) = Some (V x);
  tx_plain : ∀ x, x ∈ B → x ∉ L → x ∉ P → ks_disk s !! Z.to_nat x = Some (V x);
}.

(** No transaction is running. *)
Record idle (s : kstate) (V : Z → list Z) : Prop := {
  id_view : view s V ∅ ∅;
  id_ok : log_ok (ks_log s) (length (ks_disk s));
  id_n : l_n (ks_log s) = 0;
  id_busy : l_busy (ks_log s) = false;
  id_clear : ∃ h, ks_disk s !! Z.to_nat (l_start (ks_log s)) = Some h ∧ hdr_n h = 0;
}.

(** The home locations of two disks agree. *)
Definition same_home (lg : log) (dk dk' : list (list Z)) : Prop :=
  length dk' = length dk ∧
  ∀ x, home lg (length dk) x → dk' !! Z.to_nat x = dk !! Z.to_nat x.

#[export] Instance same_home_equiv lg : Equivalence (same_home lg).
Proof.
  split.
  - by intros dk.
  - intros dk dk' [E H]. split; [done|]. intros x Hx. rewrite E in Hx. symmetry. auto.
  - intros dk1 dk2 dk3 [E H] [E' H']. split; [congruence|]. intros x Hx.
    rewrite H', H; [done|done|]. by rewrite E.
Qed.

Lemma same_home_log lg dk x d : in_log lg x → 0 ≤ x → same_home lg dk (<[Z.to_nat x:=d]> dk).
Proof.
  intros Hx H0. split; [len|]. intros y [Hy Hyl]. apply list_lookup_insert_ne.
  intros E. apply Hyl. by replace y with x by lia.
Qed.

Section Txn.
Context (s : kstate) (V : Z → list Z) (B P L : gset Z) (Hs : txn s V B P L).
Set Default Proof Using "All".

Let lg := ks_log s.
Let len := length (ks_disk s).

Lemma txn_size : size L = Z.to_nat (l_n lg).
Proof.
  rewrite (tx_L _ _ _ _ _ Hs), size_list_to_set by apply (tx_ok _ _ _ _ _ Hs).
  apply (length_lsec _ _ (tx_ok _ _ _ _ _ Hs)).
Qed.

(** A clean unmodified block has its contents on disk. *)
Lemma txn_disk x : home lg len x → x ∉ L → x ∉ P → ks_disk s !! Z.to_nat x = Some (V x).
Proof.
  intros Hx HL HP. destruct (decide (x ∈ B)); [by apply (tx_plain _ _ _ _ _ Hs)|].
  destruct (tx_view _ _ _ _ _ Hs) as (V0 & Hb & HV). rewrite <-(HV _ Hx). destruct Hx as [Hx _].
  destruct (lookup_lt_is_Some_2 (ks_disk s) (Z.to_nat x)) as [d Hd]; [unfold len in Hx; lia|].
  rewrite Hd. f_equal. symmetry. eapply view_clean; [apply Hb|done|done|lia|done].
Qed.

Lemma txn_owned_in b x : owned (ks_bufs s) b x → x ∈ B ∧ home lg len x.
Proof.
  intros Ho. destruct (tx_view _ _ _ _ _ Hs) as (V0 & Hb & HV).
  pose proof (owned_busy _ _ _ _ _ (bio_cache _ _ _ _ Hb) _ _ Ho). split; [done|].
  by apply (tx_B _ _ _ _ _ Hs).
Qed.

(** What a held buffer contains. *)
Lemma txn_owned b x : owned (ks_bufs s) b x →
  ∃ bf, ks_bufs s !! b = Some bf ∧ b_data bf = V x ∧ b_sector bf = x ∧ b_dev bf = 1.
Proof.
  intros Ho. destruct (txn_owned_in b x Ho) as [HB Hx].
  destruct (tx_view _ _ _ _ _ Hs) as (V0 & Hb & HV).
  destruct (owned_view _ _ _ _ _ (bio_cache _ _ _ _ Hb) _ _ Ho) as (bf & [_ ?] & Hd & ? & ? & _).
  exists bf. rewrite (HV _ Hx) in Hd. done.
Qed.

Lemma txn_block_ok x : home lg len x → block_ok (V x).
Proof.
  intros Hx. destruct (tx_view _ _ _ _ _ Hs) as (V0 & Hb & HV). rewrite <-(HV _ Hx).
  destruct Hx as [Hx _]. unfold len in Hx. eapply view_ok; [apply Hb|lia|lia].
Qed.

Lemma txn_bread `{IdeSpec} x :
  home lg len x → x ∉ B → (size ({[x]} ∪ B ∪ L) ≤ NBUF)%nat →
  wp (bread 1 x) (λ b s', storage_step s s' ∧ ks_disk s' = ks_disk s ∧
    txn s' V ({[x]} ∪ B) P L ∧ owned (ks_bufs s') b x ∧ keeps s s' b) s.
Proof.
  intros Hx HB Hroom. pose proof (txn_disk x Hx) as Hdk. pose proof Hx as [Hxr _]. unfold len in Hxr.
  destruct (tx_view _ _ _ _ _ Hs) as (V0 & Hb0 & HV).
  wp_call (bread_spec _ _ _ _ Hb0 x); [done|done|lia|lia|].
  intros b s' (St & Dk & Tr & Hb & Ho & Kp). pose proof (storage_log _ _ St) as Lg.
  split_and!; try done. destruct Hs. split; rewrite ?Lg, ?Dk; try done; [|..|set_solver|].
  - exists V0. by rewrite Lg, Dk.
  - intros y [->%elem_of_singleton|Hy]%elem_of_union; auto.
  - intros y [->%elem_of_singleton|Hy]%elem_of_union; auto.
Qed.

Lemma txn_modify b x f (Q : () → kstate → Prop) :
  owned (ks_bufs s) b x → block_ok (f (V x)) →
  (∀ s', storage_step s s' → ks_disk s' = ks_disk s → txn s' (<[x:=f (V x)]> V) B ({[x]} ∪ P) L →
    (∀ c y, owned (ks_bufs s) c y → owned (ks_bufs s') c y) → Q () s') →
  wp (upd_buf b (λ y, with_b_data (f (b_data y)) y)) Q s.
Proof.
  intros Ho Hf HQ. destruct (txn_owned_in _ _ Ho) as [HB Hx].
  destruct (tx_view _ _ _ _ _ Hs) as (V0 & Hb0 & HV).
  eapply (modify_spec _ _ _ _ Hb0); [done|by rewrite (HV _ Hx)|]. rewrite (HV _ Hx).
  intros s' St Dk Tr Hb Hk. pose proof (storage_log _ _ St) as Lg. apply HQ; try done.
  destruct Hs. split; rewrite ?Lg, ?Dk; try done; [|set_solver|..].
  - eexists. split; [done|]. rewrite Lg, Dk. intros y Hy.
    destruct (decide (y = x)) as [->|]; [by rewrite !fn_lookup_insert|].
    rewrite !fn_lookup_insert_ne by done. auto.
  - intros i y Hi Hy. rewrite fn_lookup_insert_ne by set_solver. apply tx_logged0; set_solver.
  - intros y Hy HL HP. rewrite fn_lookup_insert_ne by set_solver. apply tx_plain0; set_solver.
Qed.

Lemma txn_brelse b x :
  owned (ks_bufs s) b x → x ∉ P →
  wp (brelse b) (λ _ s', storage_step s s' ∧ ks_disk s' = ks_disk s ∧ txn s' V (B ∖ {[x]}) P L ∧
    (∀ c y, c ≠ b → owned (ks_bufs s) c y → owned (ks_bufs s') c y)) s.
Proof.
  intros Ho HP. destruct (txn_owned_in _ _ Ho) as [HB Hx].
  destruct (tx_view _ _ _ _ _ Hs) as (V0 & Hb0 & HV).
  wp_call (brelse_held _ _ _ _ _ x Hb0); [done|..].
  { destruct (decide (x ∈ L)); [by left|right]. rewrite (HV _ Hx). by apply (tx_plain _ _ _ _ _ Hs). }
  intros [] s' (St & Dk & Tr & Hb & Hk). pose proof (storage_log _ _ St) as Lg. split_and!; try done.
  destruct Hs. split; rewrite ?Lg, ?Dk; try done; [|set_solver..].
  exists V0. by rewrite Lg, Dk.
Qed.

(** The invariant after block [x] was written to slot [log_slot lg x]. *)
Lemma log_write_txn x s' V' :
  let a := l_start lg + Z.of_nat (log_slot lg x) + 1 in
  home lg len x → x ∈ B → l_n lg < 10 → l_n lg < l_size lg - 1 →
  bio s' V' B ({[x]} ∪ L) → (∀ y, home lg len y → V' y = V y) →
  ks_log s' = log_appended lg x → ks_disk s' = <[Z.to_nat a:=V x]> (ks_disk s) →
  txn s' V B (P ∖ {[x]}) ({[x]} ∪ L).
Proof.
  intros a Hx HxB Hn Hsz Hb HV Lg Dk. pose proof (tx_ok _ _ _ _ _ Hs) as Hok. fold lg len in Hok.
  assert (0 ≤ x < 2 ^ 31) as Hxr by (destruct Hx, Hok; lia).
  pose proof (lsec_appended lg len x Hok Hxr Hn) as Hsec. pose proof (tx_L _ _ _ _ _ Hs) as HL.
  assert (∀ y, home (log_appended lg x) len y ↔ home lg len y) as Hh by done.
  assert (length (ks_disk s') = len) as Hlen by (rewrite Dk; len).
  pose proof (log_slot_cases lg len x Hok Hxr) as Hcases.
  assert (Hlook : ∀ j y, lsec (log_appended lg x) !! j = Some y →
    (j = log_slot lg x ∧ y = x) ∨ (j ≠ log_slot lg x ∧ lsec lg !! j = Some y ∧ y ≠ x)).
  { intros j y. rewrite Hsec. case_decide as Hin; [|].
    - destruct Hcases as [Hi|[]]; [|done]. intros Hj. destruct (decide (y = x)) as [->|].
      + left. split; [|done]. eapply NoDup_lookup; [apply (lo_nodup _ _ Hok)|done..].
      + right. split; [|done]. intros ->. congruence.
    - destruct Hcases as [Hi|[_ Hi]]; [by apply list_elem_of_lookup_2 in Hi|].
      rewrite <-(length_lsec _ _ Hok) in Hi. rewrite Hi. intros Hj.
      apply lookup_app_Some in Hj as [Hj|[Hge Hj]].
      + right. split; [apply lookup_lt_Some in Hj; lia|]. split; [done|]. intros ->.
        by apply list_elem_of_lookup_2 in Hj.
      + apply list_lookup_singleton_Some in Hj as [? <-]. left. split; [lia|done]. }
  destruct Hs. split; rewrite ?Lg, ?Hlen; try done.
  - exists V'. rewrite Lg, Hlen. done.
  - by apply log_appended_ok.
  - rewrite Hsec, HL. case_decide; [set_solver|]. rewrite list_to_set_app_L. simpl. set_solver.
  - destruct tx_clear0 as (h & Hh1 & Hh2). exists h. split; [|done]. rewrite Dk.
    rewrite list_lookup_insert_ne; [done|]. unfold a. simpl. destruct Hok. lia.
  - set_solver.
  - intros j y Hj HP. change (l_start (log_appended lg x)) with (l_start lg). rewrite Dk.
    destruct (Hlook j y Hj) as [[-> ->]|(Hne & Hj' & Hy)].
    + apply list_lookup_insert_eq. pose proof (log_appended_ok lg len x Hok Hx Hn Hsz) as Hok'.
      pose proof (lookup_lt_Some _ _ _ Hj) as Hlt. rewrite (length_lsec _ _ Hok') in Hlt.
      destruct Hok'. fold len. unfold a. simpl in *. lia.
    + rewrite list_lookup_insert_ne; [apply tx_logged0; set_solver|]. unfold a. destruct Hok. lia.
  - intros y Hy HyL HyP. rewrite Dk, list_lookup_insert_ne; [apply tx_plain0; set_solver|].
    destruct (tx_B0 y Hy) as [? Hyl]. intros E. apply Hyl. unfold in_log.
    destruct Hcases as [Hi%lookup_lt_Some|[_ Hi]]; [rewrite (length_lsec _ _ Hok) in Hi|];
      unfold a in E; fold lg; destruct Hok; lia.
Qed.

(** [log_write]: the block is logged, and nothing else of the view changes. *)
Lemma txn_log_write `{IdeSpec} b x :
  owned (ks_bufs s) b x → l_n lg < 10 → l_n lg < l_size lg - 1 → (size (B ∪ L) < NBUF)%nat →
  wp (log_write b) (λ _ s', fs_step s s' ∧ same_home lg (ks_disk s) (ks_disk s') ∧
    txn s' V B (P ∖ {[x]}) ({[x]} ∪ L) ∧
    (∀ c y, owned (ks_bufs s) c y → owned (ks_bufs s') c y)) s.
Proof.
  intros Ho Hn Hsz Hroom. destruct (txn_owned_in b x Ho) as [HxB Hx].
  destruct (txn_owned b x Ho) as (bf & Hbf & Hbd & Hbs & Hbdev).
  pose proof (tx_ok _ _ _ _ _ Hs) as Hok. fold lg len in Hok.
  assert (0 ≤ x < 2 ^ 31) as Hxr by (destruct Hx, Hok; lia).
  set (i := log_slot lg x).
  assert (i ≤ Z.to_nat (l_n lg))%nat as Hi.
  { unfold i. destruct (log_slot_cases lg len x Hok Hxr) as [Hi|[_ ->]]; [|lia].
    apply lookup_lt_Some in Hi. rewrite (length_lsec _ _ Hok) in Hi. lia. }
  pose proof (lo_secs _ _ Hok) as Hsl. pose proof (lo_n _ _ Hok) as Hn0.
  set (a := l_start lg + Z.of_nat i + 1).
  assert (in_log lg a ∧ 0 ≤ a < Z.of_nat len ∧ Z.of_nat len < 2 ^ 31) as (Hal & Ha & Hdl)
    by (unfold a, in_log; destruct Hok; lia).
  unfold log_write. wp_steps. fold lg.
  rewrite (proj2 (Z.leb_gt _ _) Hn), (proj2 (Z.leb_gt _ _) Hsz), (tx_busy _ _ _ _ _ Hs : l_busy lg = true).
  simpl. wp_step. eapply wp_get_buf; [done|]. rewrite Hbs, Hbdev. fold i a. rewrite u32_small by lia.
  wp_step. destruct (lookup_lt_is_Some_2 (l_sector lg) i ltac:(lia)) as [old Hold].
  eapply wp_the; [done|]. wp_steps.
  destruct (tx_view _ _ _ _ _ Hs) as (V0 & Hb0 & HV). set (lg1 := with_l_sector _ lg).
  assert (a ∉ B ∪ L) as HaBL.
  { intros [HaB|HaL]%elem_of_union; [by destruct (tx_B _ _ _ _ _ Hs a HaB)|].
    rewrite (tx_L _ _ _ _ _ Hs), elem_of_list_to_set in HaL.
    apply list_elem_of_lookup_1 in HaL as [j Hj]. by destruct (lsec_home _ _ _ _ Hok Hj). }
  wp_call (log_copy_spec (set_log lg1 s) V0 B L b x a (bio_set_log lg1 _ _ _ _ Hb0) Ho);
    [set_solver|set_solver|lia|simpl; fold len; lia| |].
  { rewrite <-union_assoc_L, size_union by set_solver. rewrite size_singleton. lia. }
  intros [] s1 (St1 & Wr1 & Hb1 & Ho1). rewrite (HV _ Hx) in Wr1, Hb1.
  pose proof (storage_log _ _ St1) as Lg1. wp_step. eapply wp_of_runs; [by apply bump_spec|].
  wp_call (pin_spec _ _ _ _ b x (bio_set_log (log_appended lg x) _ _ _ _ Hb1)); [by apply Ho1|].
  intros [] s2 (St2 & Dk2 & Tr2 & Hb2 & Ho2). pose proof (storage_log _ _ St2) as Lg2.
  assert (ks_disk s2 = <[Z.to_nat a:=V x]> (ks_disk s)) as Dk by by rewrite Dk2; simpl; rewrite (proj1 Wr1).
  split_and!.
  - transitivity (set_log lg1 s); [by apply fs_step_log|].
    etrans; [by apply storage_fs_step|]. etrans; [|by apply storage_fs_step].
    apply fs_step_log; by rewrite Lg1.
  - rewrite Dk. apply same_home_log; [done|lia].
  - eapply (log_write_txn x s2); [done..| |by rewrite Lg2|done].
    intros y Hy. rewrite fn_lookup_insert_ne; [by apply HV|]. intros <-. by destruct Hy.
  - intros c y Hc. apply Ho2. by apply Ho1.
Qed.

End Txn.

Lemma txn_readsb `{IdeSpec} s V B P L :
  txn s V B P L → home (ks_log s) (length (ks_disk s)) 1 → 1 ∉ B →
  (size ({[1%Z]} ∪ B ∪ L) ≤ NBUF)%nat →
  wp (readsb 1) (λ sb s', sb = sb_of (V 1) ∧ storage_step s s' ∧ ks_disk s' = ks_disk s ∧
    txn s' V B P L ∧ (∀ c y, owned (ks_bufs s) c y → owned (ks_bufs s') c y)) s.
Proof.
  intros Hs H1 HB Hroom. unfold readsb. wp_call (txn_bread _ _ _ _ _ Hs); [done..|].
  intros b s1 (St1 & Dk1 & Hs1 & Ho1 & Kp1).
  destruct (txn_owned _ _ _ _ _ Hs1 b 1 Ho1) as (bf & Hbf & Hbd & _).
  wp_step. eapply wp_get_buf; [done|]. wp_call (txn_brelse _ _ _ _ _ Hs1 b 1 Ho1).
  { intros HP. by apply (tx_P _ _ _ _ _ Hs) in HP. }
  intros [] s2 (St2 & Dk2 & Hs2 & Ho2). wp_step. rewrite Hbd. split_and!.
  - done.
  - by etrans.
  - congruence.
  - by replace (({[1%Z]} ∪ B) ∖ {[1%Z]}) with B in Hs2 by set_solver.
  - intros c y Hc. destruct (Kp1 _ _ Hc). auto.
Qed.

(** A transaction starts with nothing logged. *)
Lemma begin_spec s V :
  idle s V →
  wp begin_trans (λ _ s', s' = set_log (with_l_busy true (ks_log s)) s ∧ txn s' V ∅ ∅ ∅) s.
Proof.
  intros [(V0 & [Hc Hh Hcur] & HV) Hok Hn Hbusy Hclear]. unfold begin_trans. wp_step.
  apply wp_acquire; [rewrite Hh; set_solver|]. wp_steps. simpl. rewrite Hbusy. wp_steps.
  eapply wp_release; [simpl; by rewrite Hh|set_solver|]. simpl.
  assert (set_held [] (set_log (with_l_busy true (ks_log s)) (set_held (L_log :: ks_held s) s)) =
    set_log (with_l_busy true (ks_log s)) s) as ->.
  { destruct s. simpl in *. by subst. }
  assert (lsec (ks_log s) = []) as Hl by (unfold lsec; by rewrite Hn).
  split; [done|]. split; try done.
  - exists V0. by split.
  - by destruct Hok; split.
  - change (∅ = list_to_set (lsec (ks_log s)) :> gset Z). by rewrite Hl.
  - change (∀ i x, lsec (ks_log s) !! i = Some x → x ∉ (∅ : gset Z) → 
      ks_disk s !! Z.to_nat (l_start (ks_log s) + Z.of_nat i + 1) = Some (V x)). by rewrite Hl.
Qed.
