(* ===== verification/Crash.v ===== *)
(** * Crash: commit, recovery and crashes

    Whatever prefix of the sector writes of a commit reaches the disk, and
    however often recovery itself is interrupted, a recovery that completes
    leaves the home locations as they were before the transaction or as they
    are after it. *)

From S2P Require Import Prelude Bytes CString Kernel Sched Ide Bio Log.

(** ** Crashes

    A crash stops the machine between two sector writes, so the disk it
    leaves is the one after some prefix of the writes in progress.
    [recovered start dk] is what a complete recovery makes of the disk [dk]. *)

Definition recovered (start : Z) (dk : list (list Z)) : list (list Z) :=
  apply_writes (recover_writes start dk) dk.

Lemma length_recovered start dk : length (recovered start dk) = length dk.
Proof. apply length_apply_writes. Qed.

(** The log area lies within the disk. *)
Record area_ok (lg : log) (len : nat) : Prop := {
  ao_start : 0 ≤ l_start lg;
  ao_size : 1 ≤ l_size lg;
  ao_end : l_start lg + l_size lg ≤ Z.of_nat len;
  ao_len : Z.of_nat len < 2 ^ 31;
}.

Lemma log_area_ok lg len : log_ok lg len → area_ok lg len.
Proof. intros []. split; lia. Qed.

Section Recovered.
Context (lg : log) (dk : list (list Z)).
Context (Ha : area_ok lg (length dk)) (Hdk : Forall block_ok dk).
Set Default Proof Using "All".

Let start := l_start lg.
Let len := length dk.
Let h := dk !!! Z.to_nat start.

Lemma header_lookup : dk !! Z.to_nat start = Some h.
Proof. apply list_lookup_lookup_total_lt. destruct Ha. unfold start. lia. Qed.

Lemma header_ok : block_ok h.
Proof. eapply Forall_lookup_1; [done|apply header_lookup]. Qed.

Lemma hdr_n_cleared : hdr_n (hdr 0 [] h) = 0.
Proof. apply hdr_n_hdr; [apply header_ok|simpl; lia|lia]. Qed.

Section Wf.
Context (Hwf : hdr_wf lg (length dk) h).

Lemma start_not_home : ¬ home lg len start.
Proof. intros [_ []]. unfold in_log, start. destruct Ha. lia. Qed.

Lemma installs_home e : e ∈ installs start 0 (hdr_secs h) dk → home lg len e.1.
Proof.
  intros (i & Hi & _)%elem_of_installs. eapply Forall_lookup_1; [apply (hw_home _ _ _ Hwf)|done].
Qed.

(** Recovery copies logged blocks home and changes nothing else there. *)
Lemma recovered_logged x i :
  hdr_secs h !! i = Some x → recovered start dk !! Z.to_nat x = dk !! Z.to_nat (start + Z.of_nat i + 1).
Proof.
  intros Hi. assert (home lg len x) as Hx by (eapply Forall_lookup_1; [apply (hw_home _ _ _ Hwf)|done]).
  unfold recovered, recover_writes. fold h. rewrite apply_writes_app.
  rewrite apply_writes_ne; [|by destruct Hx as [[]]|].
  2: { intros e ->%list_elem_of_singleton. split; [by destruct Ha|]. simpl. intros <-.
       by destruct start_not_home. }
  assert (Z.to_nat (start + Z.of_nat i + 1) < length dk)%nat as Hlt.
  { apply lookup_lt_Some in Hi. unfold hdr_secs in Hi. rewrite length_fmap, length_seq in Hi.
    destruct Ha, Hwf. unfold start. lia. }
  rewrite (list_lookup_lookup_total_lt _ _ Hlt). apply apply_writes_eq.
  - by destruct Hx as [[]].
  - destruct Hx as [[]]. unfold len in *. lia.
  - intros e He%installs_home. by destruct He as [[]].
  - rewrite installs_keys. by destruct Hwf.
  - apply elem_of_installs. by exists i.
Qed.

Lemma recovered_other x :
  home lg len x → x ∉ hdr_secs h → recovered start dk !! Z.to_nat x = dk !! Z.to_nat x.
Proof.
  intros Hx Hn. unfold recovered, recover_writes. fold h. apply apply_writes_ne; [by destruct Hx as [[]]|].
  intros e [He| ->%list_elem_of_singleton]%elem_of_app.
  - split; [by apply installs_home in He as [[]]|]. intros <-. apply Hn.
    rewrite <-(installs_keys start 0 (hdr_secs h) dk). apply list_elem_of_fmap. eauto.
  - split; [by destruct Ha|]. simpl. intros <-. by destruct start_not_home.
Qed.

End Wf.

(** With an empty header recovery leaves the home locations alone. *)
Lemma recovered_empty : hdr_n h = 0 → same_home lg dk (recovered start dk).
Proof.
  intros Hn. assert (hdr_secs h = []) as E by (unfold hdr_secs; by rewrite Hn).
  split; [apply length_recovered|]. intros x Hx. apply recovered_other; [|done|rewrite E; set_solver].
  split; rewrite ?E, ?Hn; try lia; [by destruct Ha; lia|constructor|constructor].
Qed.

Lemma hdr_wf_empty h' : hdr_n h' = 0 → hdr_wf lg len h'.
Proof.
  intros Hn. assert (hdr_secs h' = []) as E by (unfold hdr_secs; by rewrite Hn).
  split; rewrite ?E, ?Hn; try lia; [by destruct Ha; lia|constructor|constructor].
Qed.

End Recovered.

Lemma area_ok_len lg dk w : area_ok lg (length dk) → area_ok lg (length (apply_writes w dk)).
Proof. by rewrite length_apply_writes. Qed.

Lemma apply_writes_ok w dk :
  Forall block_ok dk → (∀ e, e ∈ w → block_ok e.2) → Forall block_ok (apply_writes w dk).
Proof.
  revert dk. induction w as [|e w IH]; intros dk Hdk Hw; [done|]. simpl. apply IH.
  - apply Forall_insert; [done|]. apply Hw. by left.
  - intros e' He'. apply Hw. by right.
Qed.

Lemma recover_writes_ok lg dk e :
  area_ok lg (length dk) → Forall block_ok dk →
  hdr_wf lg (length dk) (dk !!! Z.to_nat (l_start lg)) →
  e ∈ recover_writes (l_start lg) dk → block_ok e.2.
Proof.
  intros Ha Hdk Hwf. unfold recover_writes. intros [He| ->%list_elem_of_singleton]%elem_of_app.
  - apply elem_of_installs in He as (i & Hi & ->). apply lookup_lt_Some in Hi.
    unfold hdr_secs in Hi. rewrite length_fmap, length_seq in Hi.
    eapply Forall_lookup_1; [done|]. apply list_lookup_lookup_total_lt. destruct Ha, Hwf. lia.
  - apply hdr_ok. eapply Forall_lookup_1; [done|]. by apply header_lookup.
Qed.

(** The disk a crash may leave during a recovery of [dk]. *)
Definition recovery_crash (start : Z) (dk dk' : list (list Z)) : Prop :=
  ∃ k, dk' = apply_writes (take k (recover_writes start dk)) dk.

(** What recovery relies on, and what a crash during recovery keeps. *)
Record recoverable (lg : log) (dk : list (list Z)) : Prop := {
  re_area : area_ok lg (length dk);
  re_ok : Forall block_ok dk;
  re_wf : hdr_wf lg (length dk) (dk !!! Z.to_nat (l_start lg));
}.

(** A crash before the header was cleared: the log is still there. *)
Lemma recover_prefix_early lg dk k :
  let h := dk !!! Z.to_nat (l_start lg) in
  let ins := installs (l_start lg) 0 (hdr_secs h) dk in
  let dk' := apply_writes (take k ins) dk in
  recoverable lg dk →
  (∀ x, in_log lg x → dk' !! Z.to_nat x = dk !! Z.to_nat x) ∧
  dk' !!! Z.to_nat (l_start lg) = h ∧
  (recoverable lg dk' → same_home lg (recovered (l_start lg) dk) (recovered (l_start lg) dk')).
Proof.
  intros h ins dk' [Ha Hdk Hwf]. fold h in Hwf.
  assert (Hlen : length dk' = length dk) by apply length_apply_writes.
  assert (Hhome : ∀ e, e ∈ take k ins → home lg (length dk) e.1 ∧ e.1 ∈ hdr_secs h).
  { intros e [i [He _]%lookup_take_Some]%list_elem_of_lookup_1. apply list_elem_of_lookup_2 in He.
    split; [by eapply installs_home|]. apply elem_of_installs in He as (j & Hj & _).
    by eapply list_elem_of_lookup_2. }
  assert (Hlog : ∀ x, in_log lg x → dk' !! Z.to_nat x = dk !! Z.to_nat x).
  { intros x Hx. apply apply_writes_ne; [destruct Ha, Hx; lia|].
    intros e [[? Hn] _]%Hhome. split; [lia|]. by intros <-. }
  assert (dk' !!! Z.to_nat (l_start lg) = h) as Eh.
  { unfold h. rewrite !list_lookup_total_alt, Hlog; [done|]. unfold in_log. destruct Ha. lia. }
  split_and!; [done..|]. intros [Ha' Hdk' Hwf']. split; [by rewrite !length_recovered|].
  rewrite length_recovered. intros x Hx.
  destruct (decide (x ∈ hdr_secs h)) as [[i Hi]%list_elem_of_lookup_1|Hn].
  - rewrite (recovered_logged lg dk' Ha' Hdk' Hwf' x i) by by rewrite Eh.
    rewrite (recovered_logged lg dk Ha Hdk Hwf x i Hi). apply Hlog.
    apply lookup_lt_Some in Hi. unfold hdr_secs in Hi. rewrite length_fmap, length_seq in Hi.
    unfold in_log. destruct Ha, Hwf. lia.
  - rewrite (recovered_other lg dk' Ha' Hdk' Hwf' x);
      [|by rewrite Hlen|by rewrite Eh].
    rewrite (recovered_other lg dk Ha Hdk Hwf x Hx Hn). apply apply_writes_ne; [by destruct Hx as [[]]|].
    intros e [[[]] ?]%Hhome. split; [done|]. by intros <-.
Qed.

Lemma recover_prefix lg dk dk' :
  recoverable lg dk → recovery_crash (l_start lg) dk dk' →
  recoverable lg dk' ∧ same_home lg (recovered (l_start lg) dk) (recovered (l_start lg) dk').
Proof.
  intros Hr [k ->]. pose proof Hr as [Ha Hdk Hwf]. set (start := l_start lg) in *.
  set (w := recover_writes start dk). set (dk' := apply_writes (take k w) dk).
  set (ins := installs start 0 (hdr_secs (dk !!! Z.to_nat start)) dk).
  assert (Hlen : length dk' = length dk) by apply length_apply_writes.
  assert (Forall block_ok dk') as Hdk'.
  { apply apply_writes_ok; [done|]. intros e [i [He _]%lookup_take_Some]%list_elem_of_lookup_1.
    eapply recover_writes_ok; [done..|]. by eapply list_elem_of_lookup_2. }
  destruct (decide (k ≤ length ins)%nat) as [Hk|Hk].
  - assert (dk' = apply_writes (take k ins) dk) as Edk.
    { unfold dk', w, recover_writes. fold ins. by rewrite take_app_le by lia. }
    destruct (recover_prefix_early lg dk k Hr) as (_ & Eh & Hsame). fold start ins in Eh, Hsame.
    rewrite <-Edk in Eh, Hsame. assert (recoverable lg dk') as Hr' by (split; fold start; by rewrite ?Hlen, ?Eh).
    auto.
  - assert (dk' = recovered start dk) as Edk.
    { unfold dk', recovered. fold w. rewrite take_ge; [done|]. unfold w, recover_writes. fold ins. len. }
    assert (dk' !! Z.to_nat start = Some (hdr 0 [] (dk !!! Z.to_nat start))) as Eh.
    { rewrite Edk. unfold recovered, recover_writes. rewrite apply_writes_app.
      apply list_lookup_insert_eq. rewrite length_apply_writes. simpl. destruct Ha. unfold start. lia. }
    apply list_lookup_total_correct in Eh. pose proof (hdr_n_cleared lg dk Ha Hdk) as Hn.
    fold start in Hn. rewrite <-Eh in Hn. split.
    + split; [by rewrite Hlen|done|]. rewrite Hlen. by eapply hdr_wf_empty.
    + rewrite <-Edk. apply recovered_empty; [by rewrite Hlen|done|done].
Qed.

(** Any number of crashed recoveries, then a complete one. *)
Lemma recover_crashes lg dk dk' :
  recoverable lg dk → rtc (recovery_crash (l_start lg)) dk dk' →
  recoverable lg dk' ∧ same_home lg (recovered (l_start lg) dk) (recovered (l_start lg) dk').
Proof.
  intros Hr Hc. induction Hc as [dk|dk1 dk2 dk3 H12 _ IH]; [done|].
  destruct (recover_prefix _ _ _ Hr H12) as [Hr2 Hs2]. destruct (IH Hr2) as [Hr3 Hs3].
  split; [done|]. by etrans.
Qed.

(** ** Commit *)

(** The writes of [commit_trans] in state [s]: the header, and then what a
    recovery from that header would write. *)
Definition commit_header (s : kstate) : list Z :=
  let lg := ks_log s in hdr (l_n lg) (lsec lg) (ks_disk s !!! Z.to_nat (l_start lg)).

Definition commit_writes (s : kstate) : list (Z * list Z) :=
  let lg := ks_log s in
  if 0 <? l_n lg then
    (l_start lg, commit_header s) ::
    recover_writes (l_start lg) (<[Z.to_nat (l_start lg):=commit_header s]> (ks_disk s))
  else [].

Lemma hdr_secs_hdr lg len d :
  log_ok lg len → length d = 512%nat → hdr_secs (hdr (l_n lg) (lsec lg) d) = lsec lg.
Proof.
  intros Hok Hd. pose proof (length_lsec _ _ Hok) as Hlen. unfold hdr_secs.
  rewrite hdr_n_hdr; [|done|destruct Hok; lia|destruct Hok; lia].
  apply list_eq. intros i. destruct (lsec lg !! i) as [x|] eqn:Hi.
  - pose proof (lsec_home _ _ _ _ Hok Hi) as [Hx _]. pose proof (lookup_lt_Some _ _ _ Hi).
    rewrite list_lookup_fmap, lookup_seq_lt by lia. simpl. f_equal.
    apply hdr_sec_hdr; [done|destruct Hok; lia|done|destruct Hok; lia].
  - apply lookup_ge_None_1 in Hi. apply lookup_ge_None_2. rewrite length_fmap, length_seq. lia.
Qed.

Section Commit.
Context (s : kstate) (V : Z → list Z) (L : gset Z) (Hs : txn s V ∅ ∅ L).
Set Default Proof Using "All".

Let lg := ks_log s.
#[local] Abbreviation start := (l_start lg).
Let h := commit_header s.
Let dk1 := <[Z.to_nat start:=h]> (ks_disk s).

Lemma commit_area : area_ok lg (length (ks_disk s)).
Proof. apply log_area_ok, (tx_ok _ _ _ _ _ Hs). Qed.

Lemma txn_disk_ok : Forall block_ok (ks_disk s).
Proof. destruct (tx_view _ _ _ _ _ Hs) as (V0 & Hb & _). apply Hb. Qed.

Lemma old_header_ok : block_ok (ks_disk s !!! Z.to_nat start).
Proof. apply (header_ok lg); [apply commit_area|apply txn_disk_ok]. Qed.

Lemma commit_header_secs : hdr_secs h = lsec lg.
Proof. eapply hdr_secs_hdr; [apply (tx_ok _ _ _ _ _ Hs)|apply old_header_ok]. Qed.

Lemma committed_header : dk1 !!! Z.to_nat start = h.
Proof.
  apply list_lookup_total_correct, list_lookup_insert_eq. destruct commit_area. lia.
Qed.

(** After the header is written the transaction can be recovered. *)
Lemma committed_recoverable : recoverable lg dk1.
Proof.
  pose proof (tx_ok _ _ _ _ _ Hs) as Hok. fold lg in Hok. unfold dk1. split.
  - rewrite length_insert. apply commit_area.
  - apply Forall_insert; [apply txn_disk_ok|]. apply hdr_ok, old_header_ok.
  - fold dk1. rewrite committed_header. unfold dk1. rewrite length_insert.
    assert (hdr_n h = l_n lg) as Hn.
    { unfold h, commit_header. cbn zeta. fold lg. apply hdr_n_hdr; [apply old_header_ok|rewrite (length_lsec _ _ Hok); destruct Hok; lia|destruct Hok; lia]. }
    split; rewrite ?Hn, ?commit_header_secs; apply Hok.
Qed.

(** A recovery from the committed header installs the transaction. *)
Lemma committed_recovers x :
  home lg (length (ks_disk s)) x → recovered start dk1 !! Z.to_nat x = Some (V x).
Proof.
  intros Hx. destruct committed_recoverable as [Ha Hdk Hwf].
  assert (length dk1 = length (ks_disk s)) as Hlen by (unfold dk1; len).
  pose proof committed_header as Eh. pose proof commit_header_secs as Es.
  destruct (decide (x ∈ lsec lg)) as [[i Hi]%list_elem_of_lookup_1|Hn].
  - rewrite (recovered_logged lg dk1 Ha Hdk Hwf x i) by (by rewrite Eh, Es).
    unfold dk1. rewrite list_lookup_insert_ne; [|destruct Ha; lia].
    apply (tx_logged _ _ _ _ _ Hs); [done|set_solver].
  - rewrite (recovered_other lg dk1 Ha Hdk Hwf x); [|by rewrite Hlen|by rewrite Eh, Es].
    unfold dk1. rewrite list_lookup_insert_ne.
    + apply (txn_disk _ _ _ _ _ Hs); [done| |set_solver].
      rewrite (tx_L _ _ _ _ _ Hs). by rewrite elem_of_list_to_set.
    + intros E. destruct Hx as [? Hxl]. apply Hxl. unfold in_log. destruct Ha. fold lg. lia.
Qed.

(** Crashes during [commit_trans], with any number of crashed recoveries. *)
Lemma commit_crash k dk :
  rtc (recovery_crash start) (apply_writes (take k (commit_writes s)) (ks_disk s)) dk →
  recoverable lg dk ∧
  (same_home lg (ks_disk s) (recovered start dk) ∨
   ∀ x, home lg (length (ks_disk s)) x → recovered start dk !! Z.to_nat x = Some (V x)).
Proof.
  intros Hc.
  assert (Hold : apply_writes (take k (commit_writes s)) (ks_disk s) = ks_disk s →
    recoverable lg dk ∧ same_home lg (ks_disk s) (recovered start dk)).
  { intros E. rewrite E in Hc. destruct (tx_clear _ _ _ _ _ Hs) as (h0 & Hh0 & Hn0).
    apply list_lookup_total_correct in Hh0. fold lg in Hh0.
    assert (recoverable lg (ks_disk s)) as Hr.
    { split; [apply commit_area|apply txn_disk_ok|]. rewrite Hh0.
      by eapply hdr_wf_empty; [apply commit_area|apply txn_disk_ok|]. }
    destruct (recover_crashes _ _ _ Hr Hc) as [Hr' Hsame]. split; [done|].
    etrans; [|done]. apply recovered_empty; [apply commit_area|apply txn_disk_ok|].
    by rewrite Hh0. }
  unfold commit_writes in Hold, Hc. fold lg h in Hold, Hc. destruct (0 <? l_n lg); [|].
  2: { rewrite take_nil in Hold. destruct (Hold eq_refl). auto. }
  destruct k as [|k]; [destruct (Hold eq_refl); auto|]. clear Hold. simpl in Hc. fold dk1 in Hc.
  destruct (recover_crashes lg dk1 dk committed_recoverable) as [Hr' Hsame].
  { eapply rtc_l; [|done]. by exists k. }
  split; [done|]. right. intros x Hx. rewrite <-(committed_recovers x Hx). apply Hsame.
  rewrite length_recovered. unfold dk1. by rewrite length_insert.
Qed.

Section Run.
Context `{IdeSpec}.
Set Default Proof Using "All".

(** The first part of [commit_trans] makes exactly the writes of [commit_writes]. *)
Lemma commit_writes_spec :
  (size L < NBUF)%nat → 0 < l_n lg →
  wp (write_head;; install_trans;; set_log_n 0;; write_head) (λ _ s',
    fs_step s s' ∧ wrote s s' (commit_writes s) ∧ (∃ V', bio s' V' ∅ ∅) ∧
    ks_log s' = with_l_n 0 lg) s.
Proof.
  intros Hsz Hn. pose proof (tx_ok _ _ _ _ _ Hs) as Hok. fold lg in Hok.
  destruct (tx_view _ _ _ _ _ Hs) as (V0 & Hb & HV).
  pose proof (tx_L _ _ _ _ _ Hs) as HL. fold lg in HL.
  assert (start ∉ L) as HsL.
  { rewrite HL, elem_of_list_to_set. intros [i Hi]%list_elem_of_lookup_1.
    destruct (lsec_home _ _ _ _ Hok Hi) as [_ []]. unfold in_log. destruct Hok. lia. }
  pose proof (header_lookup lg (ks_disk s) commit_area txn_disk_ok) as Hh0.
  assert (V0 start = ks_disk s !!! Z.to_nat start) as HV0.
  { eapply view_clean; [apply Hb|set_solver|done|by destruct Hok|done]. }
  wp_call (write_head_spec s V0 L Hok Hb HsL Hsz). fold lg. rewrite HV0. fold h.
  change (hdr (l_n lg) (lsec lg) (ks_disk s !!! Z.to_nat start)) with h.
  intros [] s1 (St1 & Wr1 & Hb1). pose proof (storage_log _ _ St1) as Lg1. fold lg in Lg1.
  assert (ks_disk s1 = dk1) as Dk1 by apply Wr1.
  pose proof (wrote_length _ _ _ Wr1) as Len1.
  eapply wp_mono.
  { apply (install_clear_spec s1 (<[start:=h]> V0) L h); rewrite ?Lg1, ?Len1; [done|done|by rewrite HL| |].
    - intros x Hx. assert (x ∈ L) by (by rewrite HL, elem_of_list_to_set).
      by replace ({[x]} ∪ L) with L by set_solver.
    - rewrite Dk1, <-committed_header. apply header_lookup; apply committed_recoverable. }
  rewrite Lg1, Dk1. intros [] s2 (St2 & Wr2 & Hb2 & Lg2). split_and!.
  - etrans; [by apply storage_fs_step|done].
  - unfold commit_writes. fold lg h dk1. rewrite (proj2 (Z.ltb_lt _ _) Hn).
    change (?e :: ?w) with ([e] ++ w). eapply wrote_trans; [done|].
    unfold recover_writes. rewrite committed_header, commit_header_secs. done.
  - eauto.
  - done.
Qed.

(** The disk after all writes of the commit. *)
Lemma commit_writes_home x :
  home lg (length (ks_disk s)) x →
  apply_writes (commit_writes s) (ks_disk s) !! Z.to_nat x = Some (V x).
Proof.
  intros Hx. unfold commit_writes. fold lg h dk1. destruct (Z.ltb_spec 0 (l_n lg)).
  - by apply committed_recovers.
  - simpl. apply (txn_disk _ _ _ _ _ Hs); [done| |set_solver].
    rewrite (tx_L _ _ _ _ _ Hs). unfold lsec. fold lg. rewrite Z2Nat.nonpos by lia. set_solver.
Qed.

Lemma commit_writes_clear :
  ∃ h', apply_writes (commit_writes s) (ks_disk s) !! Z.to_nat start = Some h' ∧ hdr_n h' = 0.
Proof.
  unfold commit_writes. fold lg h dk1. destruct (0 <? l_n lg); [|by apply (tx_clear _ _ _ _ _ Hs)].
  destruct committed_recoverable as [Ha Hdk _]. exists (hdr 0 [] (dk1 !!! Z.to_nat start)). split.
  - simpl. fold dk1. unfold recover_writes. rewrite apply_writes_app. apply list_lookup_insert_eq.
    rewrite length_apply_writes. simpl. destruct Ha. lia.
  - by apply hdr_n_cleared.
Qed.

(** [commit_trans] ends the transaction: every home location holds the
    block as the transaction left it. *)
Lemma commit_spec :
  (size L < NBUF)%nat →
  wp commit_trans (λ _ s', wrote s s' (commit_writes s) ∧ idle s' V ∧
    (∀ x, home lg (length (ks_disk s)) x → ks_disk s' !! Z.to_nat x = Some (V x)) ∧
    same_area lg (ks_log s') ∧ storage_step (set_log (ks_log s') s) s') s.
Proof.
  intros Hsz. pose proof (tx_ok _ _ _ _ _ Hs) as Hok. fold lg in Hok.
  unfold commit_trans. wp_steps. fold lg.
  apply wp_mono with (P := λ _ s', fs_step s s' ∧ wrote s s' (commit_writes s) ∧
    (∃ V', bio s' V' ∅ ∅) ∧ ks_log s' = with_l_n 0 lg).
  { apply wp_when; [intros ?%Z.ltb_lt; by apply commit_writes_spec|]. intros Hn.
    assert (l_n lg = 0) as Hn0 by (apply Z.ltb_ge in Hn; destruct Hok; lia).
    destruct (tx_view _ _ _ _ _ Hs) as (V0 & Hb & _). split_and!; [done|..].
    - unfold commit_writes. fold lg. rewrite Hn. by apply wrote_nil.
    - exists V0. rewrite (tx_L _ _ _ _ _ Hs) in Hb. unfold lsec in Hb. fold lg in Hb.
      by rewrite Hn0 in Hb.
    - fold lg. rewrite <-Hn0. by destruct lg. }
  intros [] s1 (St1 & Wr1 & (V' & Hb1) & Lg1). destruct Hb1 as [Hc1 Hh1 Hcur1].
  wp_step. apply wp_acquire; [rewrite Hh1; set_solver|]. wp_steps.
  apply wp_wakeup; [simpl; rewrite Hh1; set_solver|].
  eapply wp_release; [simpl; by rewrite Hh1|set_solver|]. simpl.
  set (s' := set_held [] _). pose proof (wrote_length _ _ _ Wr1) as Len1.
  assert (bio s' V' ∅ ∅) as Hb' by by split.
  assert (Hhome : ∀ x, home lg (length (ks_disk s)) x → ks_disk s1 !! Z.to_nat x = Some (V x)).
  { intros x Hx. rewrite (proj1 Wr1). by apply commit_writes_home. }
  split_and!; [done| |done|by rewrite Lg1|].
  - split; try done; simpl; rewrite ?Lg1, ?Len1.
    + exists V'. split; [done|]. simpl. rewrite Lg1, Len1. intros x Hx.
      eapply view_clean; [apply Hb'|set_solver|set_solver|by destruct Hx as [[]]|by apply Hhome].
    + apply log_ok_reset in Hok. by destruct Hok; split.
    + done.
    + rewrite (proj1 Wr1). apply commit_writes_clear.
  - pose proof (storage_step_inv _ _ (proj2 (proj2 St1))) as E. simpl in E.
    destruct (tx_view _ _ _ _ _ Hs) as (V0 & Hb0 & _). pose proof (bio_held _ _ _ _ Hb0) as Hh0.
    apply storage_step_intro; unfold s'; simpl; try tauto. congruence.
Qed.

End Run.

End Commit.

(** ** Booting *)

(** The state in which the first process calls [initlog]: the buffer cache
    is as [binit] left it, and [log] is still zero. *)
Record booting (s : kstate) : Prop := {
  bt_bio : bio s (disk_view (ks_disk s)) ∅ ∅;
  bt_n : l_n (ks_log s) = 0;
  bt_busy : l_busy (ks_log s) = false;
  bt_secs : length (l_sector (ks_log s)) = 10%nat;
}.

(** The disk's superblock places the log as [lg] has it. *)
Definition sb_places (lg : log) (dk : list (list Z)) : Prop :=
  let sb := sb_of (dk !!! 1%nat) in
  s32 (sb_size sb - sb_nlog sb) = l_start lg ∧ s32 (sb_nlog sb) = l_size lg.

Section Boot.
Context `{IdeSpec}.
Set Default Proof Using "All".

Lemma initlog_spec lg s :
  booting s → recoverable lg (ks_disk s) → sb_places lg (ks_disk s) → (1 < length (ks_disk s))%nat →
  wp initlog (λ _ s', wrote s s' (recover_writes (l_start lg) (ks_disk s)) ∧
    ks_disk s' = recovered (l_start lg) (ks_disk s) ∧
    same_area (with_l_dev 1 lg) (ks_log s') ∧ ks_inodes s' = ks_inodes s ∧ idle s' (disk_view (ks_disk s'))) s.
Proof.
  intros [Hb Hn Hbusy Hsecs] [Ha Hdk Hwf] [Hst Hsz] H1. unfold initlog.
  rewrite (proj2 (Z.leb_gt _ _)) by lia.
  assert (ks_disk s !! Z.to_nat 1 = Some (ks_disk s !!! 1%nat)) as Hd1.
  { by apply list_lookup_lookup_total_lt. }
  unfold readsb. apply wp_bind. wp_call (bread_spec _ _ _ _ Hb 1); [set_solver| |lia|lia|].
  { rewrite !union_empty_r_L, size_singleton. lia. }
  intros b s1 (St1 & Dk1 & Tr1 & Hb1 & Ho1 & _).
  destruct (owned_view _ _ _ _ _ (bio_cache _ _ _ _ Hb1) _ _ Ho1) as (bf & [_ Hbf] & Hbd & _).
  wp_step. eapply wp_get_buf; [done|].
  wp_call (brelse_held _ _ _ _ b 1 Hb1 Ho1); [right; by rewrite Dk1|].
  intros [] s2 (St2 & Dk2 & Tr2 & Hb2 & _). wp_steps. rewrite Hbd.
  change (disk_view (ks_disk s) 1) with (ks_disk s !!! 1%nat). rewrite Hst, Hsz.
  replace (({[1]} ∪ ∅) ∖ {[1]} : gset Z) with (∅ : gset Z) in Hb2 by set_solver.
  assert (ks_log s2 = ks_log s) as Lg2 by by rewrite (storage_log _ _ St2), (storage_log _ _ St1).
  rewrite Lg2. set (lg' := with_l_dev 1 (with_l_size _ _)). set (s3 := set_log lg' s2).
  assert (ks_disk s3 = ks_disk s) as Dk3 by (simpl; congruence).
  assert (log_ok lg' (length (ks_disk s))) as Hok.
  { assert (lsec lg' = []) as El by (unfold lsec; change (l_n lg') with (l_n (ks_log s)); by rewrite Hn).
    destruct Ha. split; simpl; rewrite ?El, ?Hn; try done; try lia; constructor. }
  eapply wp_mono.
  { apply (recover_spec s3 (disk_view (ks_disk s))); rewrite ?Dk3; [done|by apply bio_set_log|by destruct Hwf; split]. }
  simpl. rewrite Dk2, Dk1. intros [] s4 (St4 & Wr4 & Hb4 & Hn4 & Hok4).
  assert (ks_disk s4 = recovered (l_start lg) (ks_disk s)) as Dk4.
  { destruct Wr4 as [-> _]. simpl. by rewrite Dk2, Dk1. }
  destruct St4 as ((A1 & A2 & A3) & B1 & St4). split_and!; [|done|done| |].
  - destruct Wr4 as [Wd Wt]. split; [rewrite Wd; simpl; congruence|rewrite Wt; simpl; congruence].
  - by rewrite (storage_inodes _ _ St4), (storage_inodes _ _ St2 : ks_inodes (set_log _ s3) = _), (storage_inodes _ _ St1).
  - split; [|by rewrite Dk4, length_recovered|done|by rewrite B1|].
    + exists (view_writes (recover_writes (l_start lg) (ks_disk s)) (disk_view (ks_disk s))).
      split; [done|]. intros x [[Hx0 Hx] _]. eapply view_clean; [apply Hb4|set_solver|set_solver|done|].
      apply list_lookup_lookup_total_lt. lia.
    + rewrite A1. simpl. rewrite Dk4. exists (hdr 0 [] (ks_disk s !!! Z.to_nat (l_start lg))). split.
      * unfold recovered, recover_writes. rewrite apply_writes_app. apply list_lookup_insert_eq.
        rewrite length_apply_writes. simpl. destruct Ha. lia.
      * by apply hdr_n_cleared.
Qed.

End Boot.

(** A sector that is not logged is out of reach of recovery and its crashes. *)
Lemma crash_untouched lg dk dk' x :
  recoverable lg dk → recovery_crash (l_start lg) dk dk' → home lg (length dk) x →
  x ∉ hdr_secs (dk !!! Z.to_nat (l_start lg)) →
  dk' !! Z.to_nat x = dk !! Z.to_nat x ∧ x ∉ hdr_secs (dk' !!! Z.to_nat (l_start lg)).
Proof.
  intros Hr [k ->] Hx Hn. pose proof Hr as [Ha Hdk Hwf].
  set (ins := installs (l_start lg) 0 (hdr_secs (dk !!! Z.to_nat (l_start lg))) dk).
  split.
  - apply apply_writes_ne; [by destruct Hx as [[]]|].
    intros e [i [He _]%lookup_take_Some]%list_elem_of_lookup_1. apply list_elem_of_lookup_2 in He.
    unfold recover_writes in He. apply elem_of_app in He as [He| ->%list_elem_of_singleton].
    + split; [by eapply installs_home in He as [[]]|]. intros <-. apply Hn.
      rewrite <-(installs_keys (l_start lg) 0 _ dk). apply list_elem_of_fmap. eauto.
    + split; [by destruct Ha|]. simpl. intros <-. by eapply start_not_home.
  - destruct (decide (k ≤ length ins)%nat) as [Hk|Hk].
    + unfold recover_writes. fold ins. rewrite take_app_le by lia.
      destruct (recover_prefix_early lg dk k Hr) as (_ & E & _). fold ins in E. by rewrite E.
    + rewrite take_ge by (unfold recover_writes; fold ins; len). unfold recover_writes.
      rewrite apply_writes_app. simpl. rewrite list_lookup_total_insert_eq.
      * unfold hdr_secs. by rewrite hdr_n_cleared; [apply not_elem_of_nil|..].
      * rewrite length_apply_writes. destruct Ha. lia.
Qed.

Lemma crashes_untouched lg dk dk' x :
  recoverable lg dk → rtc (recovery_crash (l_start lg)) dk dk' → home lg (length dk) x →
  x ∉ hdr_secs (dk !!! Z.to_nat (l_start lg)) → dk' !! Z.to_nat x = dk !! Z.to_nat x.
Proof.
  intros Hr Hc. induction Hc as [dk|dk1 dk2 dk3 H12 _ IH]; intros Hx Hn; [done|].
  destruct (crash_untouched _ _ _ _ Hr H12 Hx Hn) as [E Hn2].
  destruct (recover_prefix _ _ _ Hr H12) as [Hr2 [Hlen _]]. rewrite !length_recovered in Hlen.
  rewrite <-E. apply IH; [done|by rewrite Hlen|done].
Qed.

(** The disk after a prefix of the commit's writes still has a sector that was
    not logged, and would not recover it. *)
Lemma commit_prefix_untouched s V L k x :
  txn s V ∅ ∅ L → home (ks_log s) (length (ks_disk s)) x → x ∉ L →
  let dk0 := apply_writes (take k (commit_writes s)) (ks_disk s) in
  dk0 !! Z.to_nat x = ks_disk s !! Z.to_nat x ∧ x ∉ hdr_secs (dk0 !!! Z.to_nat (l_start (ks_log s))).
Proof.
  intros Hs Hx HxL dk0. set (lg := ks_log s) in *.
  assert (Hold : dk0 = ks_disk s → dk0 !! Z.to_nat x = ks_disk s !! Z.to_nat x ∧
    x ∉ hdr_secs (dk0 !!! Z.to_nat (l_start lg))).
  { intros ->. split; [done|]. destruct (tx_clear _ _ _ _ _ Hs) as (h & Hh & Hn).
    apply list_lookup_total_correct in Hh. fold lg in Hh. rewrite Hh. unfold hdr_secs. rewrite Hn.
    apply not_elem_of_nil. }
  unfold dk0, commit_writes in *. fold lg in Hold |- *. destruct (0 <? l_n lg); [|by rewrite take_nil in *; auto].
  destruct k as [|k]; [by auto|]. simpl. clear Hold. set (dk1 := <[_:=_]> (ks_disk s)).
  assert (dk1 !! Z.to_nat x = ks_disk s !! Z.to_nat x) as <-.
  { apply list_lookup_insert_ne. intros E. destruct Hx as [? []]. unfold in_log.
    destruct (commit_area s V L Hs). fold lg in ao_start0, ao_size0, ao_end0. lia. }
  eapply crash_untouched; [by eapply committed_recoverable|by exists k|unfold dk1; by rewrite length_insert|].
  pose proof (committed_header s V L Hs) as Eh. fold lg dk1 in Eh. rewrite Eh.
  rewrite (commit_header_secs s V L Hs). rewrite (tx_L _ _ _ _ _ Hs) in HxL.
  by rewrite elem_of_list_to_set in HxL.
Qed.

(** The same after crashed recoveries. *)
Lemma commit_crash_untouched s V L k dk x :
  txn s V ∅ ∅ L → home (ks_log s) (length (ks_disk s)) x → x ∉ L →
  rtc (recovery_crash (l_start (ks_log s))) (apply_writes (take k (commit_writes s)) (ks_disk s)) dk →
  dk !! Z.to_nat x = ks_disk s !! Z.to_nat x ∧ length dk = length (ks_disk s).
Proof.
  intros Hs Hx HxL Hc. destruct (commit_prefix_untouched s V L k x Hs Hx HxL) as [E Hn].
  set (dk0 := apply_writes _ _) in *. destruct (commit_crash s V L Hs k dk0 ltac:(done)) as [Hr0 _].
  assert (Hlen0 : length dk0 = length (ks_disk s)) by apply length_apply_writes.
  destruct (recover_crashes _ _ _ Hr0 Hc) as [_ [Hlen _]]. rewrite !length_recovered in Hlen.
  split; [|by rewrite Hlen]. rewrite <-E. eapply crashes_untouched; [done..|by rewrite Hlen0|done].
Qed.

(** ** Crashes while booting *)

Section Crashes.
Context `{IdeSpec}.
Set Default Proof Using "All".

(** A boot from the disk [dk] that is cut short in [initlog]: some of the sector
    writes that [initlog] makes are on the disk, in the order it makes them. *)
Definition boot_crash (dk dk' : list (list Z)) : Prop :=
  ∃ b b' w k, booting b ∧ ks_disk b = dk ∧ runs_to initlog b () b' ∧ wrote b b' w ∧
    dk' = apply_writes (take k w) dk.

(** [initlog] writes what [recover_writes] says. *)
Lemma boot_crash_recovery lg dk dk' :
  recoverable lg dk → sb_places lg dk → (1 < length dk)%nat → boot_crash dk dk' →
  recovery_crash (l_start lg) dk dk'.
Proof.
  intros Hr Hsb Hlen (b & b' & w & k & Hb & <- & Hrun & [_ Wt] & ->). exists k.
  destruct (proj1 (wp_runs _ _ _) (initlog_spec lg b Hb Hr Hsb Hlen)) as ([] & b2 & Hrun2 & [_ Wt2] & _).
  destruct (runs_det _ _ _ _ _ _ Hrun Hrun2) as [_ <-]. rewrite Wt in Wt2. by apply app_inv_head in Wt2 as ->.
Qed.

Lemma sb_places_same lg dk dk' : dk' !! 1%nat = dk !! 1%nat → sb_places lg dk → sb_places lg dk'.
Proof. unfold sb_places. rewrite !list_lookup_total_alt. by intros ->. Qed.

Lemma boot_crashes_recovery lg dk dk' :
  recoverable lg dk → sb_places lg dk → home lg (length dk) 1 → 1 ∉ hdr_secs (dk !!! Z.to_nat (l_start lg)) →
  rtc boot_crash dk dk' → rtc (recovery_crash (l_start lg)) dk dk'.
Proof.
  intros Hr Hsb H1 Hn Hc. induction Hc as [|dk dk1 dk2 H01 _ IH]; [done|].
  assert (recovery_crash (l_start lg) dk dk1) as Hc1.
  { apply boot_crash_recovery; [done..|destruct H1; lia|done]. }
  destruct (crash_untouched _ _ _ _ Hr Hc1 H1 Hn) as [E Hn1].
  destruct (recover_prefix _ _ _ Hr Hc1) as [Hr1 [Hlen _]]. rewrite !length_recovered in Hlen.
  eapply rtc_l; [exact Hc1|]. apply IH; [done| |by rewrite Hlen|done]. by eapply sb_places_same.
Qed.

End Crashes.

(** Between transactions the buffer cache shows the disk. *)
Lemma idle_bio s V : idle s V → bio s (disk_view (ks_disk s)) ∅ ∅.
Proof.
  intros [(V0 & [Hc Hh Hr] & _) _ _ _ _]. split; [|done..]. eapply cache_ext; [|exact Hc]. intros x Hx Hl.
  destruct (lookup_lt_is_Some_2 _ _ Hl) as [d Hd]. rewrite (view_clean _ _ _ _ _ Hc x d) by (done || set_solver).
  by apply list_lookup_total_correct.
Qed.

(** Recovery of a log that was never used writes the header it found. *)
Lemma recovered_unused start dk : dk !! Z.to_nat start = Some (replicate 512 0) → recovered start dk = dk.
Proof.
  intros H. unfold recovered, recover_writes. rewrite (list_lookup_total_correct _ _ _ H).
  change (hdr_secs (replicate 512 0)) with (@nil Z). by apply list_insert_id.
Qed.

(** [binit] and the choice of the first process bring about that state. *)
Lemma bss_fresh dk : fresh_bufs (ks_bufs (bss dk)).
Proof.
  split; [done|]. apply Forall_replicate. split; [done|]. apply (bool_decide_unpack _). by vm_compute.
Qed.

Lemma binit_boots dk p : Forall block_ok dk →
  wp binit (λ _ s, booting (set_cur (Some p) s) ∧ ks_disk s = dk ∧ ks_inodes s = ks_inodes (bss dk) ∧
    ks_wtrace s = []) (bss dk).
Proof.
  intros Hdk. eapply wp_mono; [apply (binit_spec (bss dk) (bss_fresh dk) Hdk)|].
  intros [] s (St & Dk & Tr & _ & Hc). rewrite (Dk : ks_disk s = dk) in Hc.
  pose proof (storage_log _ _ St) as Lg. pose proof (storage_held _ _ St) as Hh.
  split_and!; [|done|apply (storage_inodes _ _ St)|done]. split; simpl; rewrite ?Lg; try done. split; simpl; rewrite ?Dk; done.
Qed.

(** ** An example: a disk of 32 sectors, the last 11 of them the log

    The superblock announces 8 inodes, so that the inodes are in sector 2 and
    the bitmap is sector 4; sectors 0 to 5 are marked as used.  Sector 5 holds
    a directory with the entries "." and "ab". *)

Module Example.
Import Memide.

Definition zeros : list Z := replicate 512 0.
Definition sblock : list Z := put32 0 32 (put32 4 16 (put32 8 8 (put32 12 11 zeros))).
Definition bitmap : list Z := <[0%nat:=63]> zeros.
Definition dirblock : list Z :=
  splice 0 ([1; 0; 46] ++ replicate 13 0 ++ [2; 0; 97; 98]) zeros.
Definition disk : list (list Z) :=
  <[1%nat:=sblock]> (<[4%nat:=bitmap]> (<[5%nat:=dirblock]> (replicate 32 zeros))).
Definition area : log := mk_log 21 11 false 1 0 (replicate 10 0).

(** The disk after recovery, and its blocks. *)
Definition disk1 : list (list Z) := recovered 21 disk.
Definition V1 : Z → list Z := disk_view disk1.

Lemma disk_ok : Forall block_ok disk.
Proof. apply (bool_decide_unpack _). by vm_compute. Qed.

Lemma disk_recoverable : recoverable area disk.
Proof.
  split; [split; simpl; lia|apply disk_ok|]. apply (hdr_wf_empty area disk); [split; simpl; lia|apply disk_ok|].
  by vm_compute.
Qed.

(** A kernel that has recovered such a disk. *)
Lemma recovers dk : recoverable area dk → sb_places area dk → (1 < length dk)%nat →
  ∃ s, idle s (disk_view (recovered 21 dk)) ∧ ks_disk s = recovered 21 dk ∧ l_start (ks_log s) = 21 ∧ l_size (ks_log s) = 11.
Proof.
  intros Hr Hsb Hlen. destruct (proj1 (wp_runs _ _ _) (binit_boots dk 0 (re_ok _ _ Hr))) as ([] & s0 & _ & Hb & Dk & _).
  destruct (proj1 (wp_runs _ _ _) (initlog_spec area (set_cur (Some 0%nat) s0) Hb ltac:(simpl; by rewrite Dk) ltac:(simpl; by rewrite Dk)
    ltac:(simpl; by rewrite Dk))) as ([] & s1 & _ & _ & Dk1 & (A1 & A2 & _) & _ & Hidle).
  simpl in Dk1. rewrite Dk in Dk1. rewrite Dk1 in Hidle. by exists s1.
Qed.

(** A transaction that has just begun. *)
Lemma fresh_txn : ∃ s, txn s V1 ∅ ∅ ∅ ∧ ks_disk s = disk1 ∧
  l_start (ks_log s) = 21 ∧ l_size (ks_log s) = 11 ∧ l_n (ks_log s) = 0.
Proof.
  destruct (recovers disk disk_recoverable ltac:(by vm_compute) ltac:(vm_compute; lia)) as (s & Hidle & Dk & A1 & A2).
  destruct (proj1 (wp_runs _ _ _) (begin_spec _ _ Hidle)) as ([] & s2 & _ & -> & H2).
  eexists. split; [exact H2|]. split_and!; try done. by apply (id_n _ _ Hidle).
Qed.

Lemma disk1_length : length disk1 = 32%nat.
Proof. by vm_compute. Qed.

Lemma fresh_home s x :
  ks_disk s = disk1 → l_start (ks_log s) = 21 → l_size (ks_log s) = 11 → 0 ≤ x < 21 →
  home (ks_log s) (length (ks_disk s)) x.
Proof.
  intros -> E1 E2 Hx. rewrite disk1_length. unfold home, in_log. rewrite E1, E2. lia.
Qed.

(** A transaction that has logged a change of sector 5. *)
Lemma one_block_txn : ∃ s V, txn s V ∅ ∅ {[5]} ∧ sb_places (ks_log s) (ks_disk s) ∧
  home (ks_log s) (length (ks_disk s)) 1 ∧ V 5 ≠ zeros.
Proof.
  destruct fresh_txn as (s2 & H2 & Dk2 & A1 & A2 & Hn). pose proof (fresh_home s2) as Hhome.
  destruct (proj1 (wp_runs _ _ _) (txn_bread _ _ _ _ _ H2 5 ltac:(apply Hhome; done)
    ltac:(set_solver) ltac:(rewrite !union_empty_r_L, size_singleton; lia)))
    as (b & s3 & _ & St3 & Dk3 & H3 & Ho3 & _).
  pose proof (storage_log _ _ St3) as Lg3.
  pose proof (txn_modify _ _ _ _ _ H3 b 5 (λ _, replicate 512 7)
    (λ _ s', ks_disk s' = ks_disk s3 ∧ ks_log s' = ks_log s3 ∧ owned (ks_bufs s') b 5 ∧
       txn s' (<[5:=replicate 512 7]> V1) ({[5]} ∪ ∅) ({[5]} ∪ ∅) ∅) Ho3
    ltac:(apply (bool_decide_unpack _); by vm_compute)
    ltac:(intros; split_and!; eauto using storage_log)) as Hm.
  destruct (proj1 (wp_runs _ _ _) Hm) as ([] & s4 & _ & Dk4 & Lg4 & Ho4 & H4). clear Hm.
  rewrite Lg3 in Lg4. rewrite Dk3, Dk2 in Dk4.
  destruct (proj1 (wp_runs _ _ _) (txn_log_write _ _ _ _ _ H4 b 5 Ho4
    ltac:(rewrite Lg4; simpl; lia) ltac:(rewrite Lg4; simpl; rewrite A2, Hn; lia)
    ltac:(rewrite !union_empty_r_L, size_singleton; lia)))
    as ([] & s5 & _ & ((B1 & B2 & _) & _) & [Len5 Sh5] & H5 & Ho5).
  destruct (proj1 (wp_runs _ _ _) (txn_brelse _ _ _ _ _ H5 b 5 (Ho5 _ _ Ho4) ltac:(set_solver)))
    as ([] & s6 & _ & St6 & Dk6 & H6 & _).
  pose proof (storage_log _ _ St6) as Lg6.
  exists s6, (<[5:=replicate 512 7]> V1).
  replace (({[5%Z]} ∪ ∅) ∖ {[5%Z]}) with (∅ : gset Z) in H6 by set_solver.
  replace ({[5%Z]} ∪ ∅) with ({[5]} : gset Z) in H6 by set_solver.
  rewrite Lg4 in B1, B2, Sh5. rewrite Dk4 in Len5, Sh5.
  assert (home (ks_log s2) (length disk1) 1) as H1 by by rewrite <-Dk2; apply Hhome.
  split_and!; [done| | |by rewrite fn_lookup_insert].
  - unfold sb_places. rewrite Lg6, Dk6, B1, B2, A1, A2.
    rewrite (list_lookup_total_alt (ks_disk s5)), (Sh5 1 H1 : ks_disk s5 !! 1%nat = _).
    by vm_compute.
  - rewrite Lg6, Dk6, Len5. unfold home, in_log in *. by rewrite B1, B2.
Qed.

End Example.

(** ** The theorem *)

(** C1: a commit is atomic with respect to crashes.  Let the machine stop
    after any prefix of the sector writes of [commit_trans], reboot, stop again
    any number of times after any prefix of the sector writes that [initlog]
    makes, and finally run [initlog] to its end: then the home locations are all
    as they were before the transaction, or all as the transaction left them. *)
Theorem commit_atomic `{IdeSpec} s V L :
  txn s V ∅ ∅ L → (size L < NBUF)%nat →
  sb_places (ks_log s) (ks_disk s) → home (ks_log s) (length (ks_disk s)) 1 → 1 ∉ L →
  wp commit_trans (λ _ s', ∃ w, wrote s s' w ∧
    ∀ k dk, rtc boot_crash (apply_writes (take k w) (ks_disk s)) dk →
    ∀ b, booting b → ks_disk b = dk →
    wp initlog (λ _ b', same_home (ks_log s) (ks_disk s) (ks_disk b') ∨
      (∀ x, home (ks_log s) (length (ks_disk s)) x → ks_disk b' !! Z.to_nat x = Some (V x))) b) s.
Proof.
  intros Hs Hsz Hsb H1 H1L. eapply wp_mono; [by apply (commit_spec s V L Hs)|].
  intros [] s' (Wr & _). exists (commit_writes s). split; [done|]. intros k dk Hbc b Hb Hdk.
  destruct (commit_prefix_untouched s V L k 1 Hs H1 H1L) as [E0 N0].
  assert (rtc (recovery_crash (l_start (ks_log s))) (apply_writes (take k (commit_writes s)) (ks_disk s)) dk) as Hc.
  { destruct (commit_crash s V L Hs k _ (rtc_refl _ _)) as [Hr0 _].
    apply boot_crashes_recovery; [done| |by rewrite length_apply_writes|done..]. by eapply sb_places_same. }
  destruct (commit_crash s V L Hs k dk Hc) as [Hr Hcases].
  destruct (commit_crash_untouched s V L k dk 1 Hs H1 H1L Hc) as [E1 Hlen].
  eapply wp_mono; [apply (initlog_spec (ks_log s) b Hb); rewrite Hdk; [done| |]|].
  - by eapply sb_places_same.
  - rewrite Hlen. destruct H1. lia.
  - rewrite Hdk. intros [] b' (_ & -> & _). done.
Qed.

Import Memide.

Lemma commit_atomic_witness :
  ∃ s V, txn s V ∅ ∅ {[5]} ∧ V 5 ≠ Example.zeros ∧
  wp commit_trans (λ _ s', ∃ w, wrote s s' w ∧
    ∀ k dk, rtc boot_crash (apply_writes (take k w) (ks_disk s)) dk →
    ∀ b, booting b → ks_disk b = dk →
    wp initlog (λ _ b', same_home (ks_log s) (ks_disk s) (ks_disk b') ∨
      (∀ x, home (ks_log s) (length (ks_disk s)) x → ks_disk b' !! Z.to_nat x = Some (V x))) b) s.
Proof.
  destruct Example.one_block_txn as (s & V & Hs & Hsb & H1 & HV). exists s, V.
  split; [done|]. split; [done|].
  apply (commit_atomic s V {[5]} Hs); [rewrite size_singleton; lia|done|done|set_solver].
Defined.
