(* ===== verification/Block.v ===== *)
(** * Block: the block allocator (fs.c)

    [bzero], [balloc] and [bfree], the bitmap of free blocks they keep, and
    the rules for reading and updating a block inside a transaction that the
    rest of the file system code uses. *)

From S2P Require Import Prelude Bytes CString Kernel Sched Ide Bio Log Crash.

(** ** The code *)

(** Block containing the bit for block [b]. *)
Definition BBLOCK (b ninodes : Z) : Z := u32 (b / BPB + ninodes / IPB + 3).

(** [bp->data[bi/8] & m] with [m = 1 << (bi % 8)]. *)
Definition bit_mask (bi : Z) : Z := Z.shiftl 1 (bi mod 8).
Definition bit_test (d : list Z) (bi : Z) : Z := Z.land (d !!! Z.to_nat (bi / 8)) (bit_mask bi).
Definition bit_set (bi : Z) (d : list Z) : list Z :=
  alter (λ v, Z.lor v (bit_mask bi)) (Z.to_nat (bi / 8)) d.
Definition bit_clear (bi : Z) (d : list Z) : list Z :=
  alter (λ v, Z.land v (Z.lnot (bit_mask bi))) (Z.to_nat (bi / 8)) d.

(** The inner loop of [balloc]: the first free bit from [bi] on, with [n]
    iterations to go. *)
Fixpoint scan_free (d : list Z) (b size bi : Z) (n : nat) : option Z :=
  match n with
  | O => None
  | S n' =>
      if (bi <? BPB) && (b + bi <? size) then
        if bit_test d bi =? 0 then Some bi else scan_free d b size (bi + 1) n'
      else None
  end.

Section Code.
Context `{Ide}.

Definition bzero (dev bno : Z) : K () :=
  bp ← bread dev (u32 bno);
  upd_buf bp (λ x, with_b_data (replicate 512 0) x);;
  log_write bp;;
  brelse bp.

Fixpoint balloc_loop (dev : Z) (sb : superblock) (b : Z) (fuel : nat) : K Z :=
  match fuel with
  | O => panic "balloc: out of blocks"
  | S fuel' =>
      if negb (b <? sb_size sb) then panic "balloc: out of blocks" else
      bp ← bread dev (BBLOCK b (sb_ninodes sb));
      bf ← get_buf bp;
      match scan_free (b_data bf) b (sb_size sb) 0 4096 with
      | Some bi =>
          upd_buf bp (λ x, with_b_data (bit_set bi (b_data x)) x);;
          log_write bp;;
          brelse bp;;
          bzero dev (b + bi);;
          mret (b + bi)
      | None => brelse bp;; balloc_loop dev sb (b + BPB) fuel'
      end
  end.

(** The loop makes at most [size / BPB + 1] turns. *)
Definition balloc (dev : Z) : K Z :=
  sb ← readsb dev;
  balloc_loop dev sb 0 (Z.to_nat (sb_size sb / BPB + 1)).

Definition bfree (dev b : Z) : K () :=
  sb ← readsb dev;
  bp ← bread dev (BBLOCK b (sb_ninodes sb));
  let bi := b mod BPB in
  bf ← get_buf bp;
  if bit_test (b_data bf) bi =? 0 then panic "freeing free block" else
  upd_buf bp (λ x, with_b_data (bit_clear bi (b_data x)) x);;
  log_write bp;;
  brelse bp.

End Code.

(** ** Bits of a bitmap block *)

(** Bit [i] of a block, as a truth value. *)
Definition bit (d : list Z) (i : Z) : bool := Z.testbit (d !!! Z.to_nat (i / 8)) (i mod 8).

Lemma bit_mask_pow i : bit_mask i = 2 ^ (i mod 8).
Proof. unfold bit_mask. rewrite Z.shiftl_1_l. done. Qed.

Lemma bit_test_zero d i : (bit_test d i =? 0) = negb (bit d i).
Proof.
  unfold bit_test, bit. rewrite bit_mask_pow.
  pose proof (hasb_pow2 (d !!! Z.to_nat (i / 8)) (i mod 8) ltac:(apply Z.mod_pos_bound; lia)) as E.
  unfold hasb in E. rewrite <-E. by destruct (Z.eqb _ _).
Qed.

Section Bits.
Context (d : list Z) (Hd : block_ok d).
Set Default Proof Using "All".

Lemma byte_at i : 0 ≤ i < 4096 → is_byte (d !!! Z.to_nat (i / 8)) ∧ (Z.to_nat (i / 8) < length d)%nat.
Proof.
  intros Hi. assert (Z.to_nat (i / 8) < length d)%nat as Hl.
  { rewrite (proj1 Hd). assert (i / 8 < 512) by (apply Z.div_lt_upper_bound; lia). lia. }
  split; [|done]. eapply Forall_lookup_1; [apply Hd|]. by apply list_lookup_lookup_total_lt.
Qed.

Lemma bit_alter f i j :
  0 ≤ i < 4096 → 0 ≤ j < 4096 →
  bit (alter f (Z.to_nat (i / 8)) d) j =
    if decide (i / 8 = j / 8) then Z.testbit (f (d !!! Z.to_nat (j / 8))) (j mod 8) else bit d j.
Proof.
  intros Hi Hj. destruct (byte_at i Hi) as [_ Hl]. destruct (byte_at j Hj) as [_ Hl'].
  unfold bit. case_decide as E.
  - rewrite E. rewrite list_lookup_total_alt, list_lookup_alter_eq.
    by rewrite (list_lookup_lookup_total_lt d) by done.
  - assert (Z.to_nat (i / 8) ≠ Z.to_nat (j / 8)).
    { intros E'. apply E. apply Z2Nat.inj in E'; [done|apply Z.div_pos; lia|apply Z.div_pos; lia]. }
    by rewrite !list_lookup_total_alt, list_lookup_alter_ne.
Qed.

Lemma same_bit i j : i / 8 = j / 8 → i mod 8 = j mod 8 → i = j.
Proof. intros E1 E2. rewrite (Z.div_mod i 8), (Z.div_mod j 8) by lia. congruence. Qed.

Lemma bit_set_spec i j :
  0 ≤ i < 4096 → 0 ≤ j < 4096 → bit (bit_set i d) j = bool_decide (i = j) || bit d j.
Proof.
  intros Hi Hj. unfold bit_set. rewrite bit_alter by done. case_decide as E.
  - rewrite bit_mask_pow, Z.lor_spec, Z.pow2_bits_eqb by (apply Z.mod_pos_bound; lia).
    rewrite orb_comm. f_equal. destruct (Z.eqb_spec (i mod 8) (j mod 8)) as [E'|E'].
    + symmetry. apply bool_decide_true. by apply same_bit.
    + symmetry. apply bool_decide_false. congruence.
  - rewrite bool_decide_false by congruence. done.
Qed.

Lemma bit_clear_spec i j :
  0 ≤ i < 4096 → 0 ≤ j < 4096 → bit (bit_clear i d) j = bool_decide (i ≠ j) && bit d j.
Proof.
  intros Hi Hj. unfold bit_clear. rewrite bit_alter by done. case_decide as E.
  - rewrite bit_mask_pow, Z.land_spec, Z.lnot_spec, Z.pow2_bits_eqb by (apply Z.mod_pos_bound; lia).
    rewrite andb_comm. f_equal. destruct (Z.eqb_spec (i mod 8) (j mod 8)) as [E'|E']; simpl.
    + symmetry. apply bool_decide_false. intros Hne. by apply Hne, same_bit.
    + symmetry. apply bool_decide_true. congruence.
  - rewrite bool_decide_true by congruence. done.
Qed.

Lemma is_byte_bits v : is_byte v ↔ 0 ≤ v ∧ ∀ k, 8 ≤ k → Z.testbit v k = false.
Proof.
  unfold is_byte. split.
  - intros [H1 H2]. split; [done|]. intros k Hk. destruct (decide (v = 0)) as [->|]; [apply Z.bits_0|].
    apply Z.bits_above_log2; [done|]. apply Z.log2_lt_pow2; [lia|].
    eapply Z.lt_le_trans; [exact H2|]. change 256 with (2 ^ 8). apply Z.pow_le_mono_r; lia.
  - intros [H1 H2]. split; [done|]. destruct (decide (v = 0)) as [->|]; [lia|].
    change 256 with (2 ^ 8). apply Z.log2_lt_pow2; [lia|]. destruct (Z.lt_ge_cases (Z.log2 v) 8); [done|].
    specialize (H2 (Z.log2 v) ltac:(lia)). by rewrite Z.bit_log2 in H2 by lia.
Qed.

Lemma byte_lor v w : is_byte v → is_byte w → is_byte (Z.lor v w).
Proof.
  rewrite !is_byte_bits. intros [? Hv] [? Hw]. split; [by apply Z.lor_nonneg|].
  intros k Hk. by rewrite Z.lor_spec, Hv, Hw.
Qed.

Lemma byte_land v w : is_byte v → is_byte (Z.land v w).
Proof.
  rewrite !is_byte_bits. intros [? Hv]. split; [apply Z.land_nonneg; by left|].
  intros k Hk. by rewrite Z.land_spec, Hv.
Qed.

Lemma bit_mask_byte i : is_byte (bit_mask i).
Proof.
  rewrite bit_mask_pow. pose proof (Z.mod_pos_bound i 8 ltac:(lia)) as Hm.
  split; [apply Z.pow_nonneg; lia|]. change 256 with (2 ^ 8). apply Z.pow_lt_mono_r; lia.
Qed.

Lemma bit_set_ok i : block_ok (bit_set i d).
Proof.
  destruct Hd as [Hl Hb]. split; [unfold bit_set; len|]. apply Forall_alter; [done|].
  intros v _ Hv. apply byte_lor; [done|apply bit_mask_byte].
Qed.

Lemma bit_clear_ok i : block_ok (bit_clear i d).
Proof.
  destruct Hd as [Hl Hb]. split; [unfold bit_clear; len|]. apply Forall_alter; [done|].
  intros v _ Hv. by apply byte_land.
Qed.

(** Clearing a bit just set gives the block back. *)
Lemma bit_clear_set i : 0 ≤ i < 4096 → bit d i = false → bit_clear i (bit_set i d) = d.
Proof.
  intros Hi Hbit. unfold bit_clear, bit_set. rewrite list_alter_alter_eq.
  destruct (byte_at i Hi) as [_ Hl].
  rewrite (alter_insert _ _ _ _ (list_lookup_lookup_total_lt _ _ Hl)). apply list_insert_id.
  rewrite (list_lookup_lookup_total_lt _ _ Hl). f_equal. simpl. rewrite bit_mask_pow.
  pose proof (Z.mod_pos_bound i 8 ltac:(lia)) as Hm. apply Z.bits_inj'. intros k Hk.
  rewrite Z.land_spec, Z.lnot_spec, Z.lor_spec, Z.pow2_bits_eqb by lia.
  unfold bit in Hbit. destruct (Z.eqb_spec (i mod 8) k) as [<-|].
  - by rewrite Hbit, andb_false_r.
  - by rewrite orb_false_r, andb_true_r.
Qed.

End Bits.

(** ** The inner loop *)

Lemma scan_free_Some d b size bi n r :
  scan_free d b size bi n = Some r →
  bi ≤ r < BPB ∧ b + r < size ∧ bit d r = false ∧ ∀ j, bi ≤ j < r → bit d j = true.
Proof.
  revert bi. induction n as [|n IH]; intros bi; simpl; [done|].
  destruct (Z.ltb_spec bi BPB) as [H1|], (Z.ltb_spec (b + bi) size) as [H2|]; simpl; try done.
  rewrite bit_test_zero. destruct (bit d bi) eqn:E; simpl.
  - intros (? & ? & ? & Hall)%IH. split_and!; try done; try lia.
    intros j Hj. destruct (decide (j = bi)) as [->|]; [done|]. apply Hall. lia.
  - intros [= ->]. split_and!; try done; try lia.
Qed.

Lemma scan_free_None d b size bi n :
  scan_free d b size bi n = None → 4096 ≤ bi + Z.of_nat n →
  ∀ j, bi ≤ j < BPB → b + j < size → bit d j = true.
Proof.
  revert bi. induction n as [|n IH]; intros bi; cbn [scan_free]; [intros _ ? ?; lia|].
  destruct (Z.ltb_spec bi BPB) as [H1|], (Z.ltb_spec (b + bi) size) as [H2|]; simpl; try (intros; lia).
  rewrite bit_test_zero. destruct (bit d bi) eqn:E; simpl; [|done].
  intros Hn Hb j Hj Hs. destruct (decide (j = bi)) as [->|]; [done|]. apply (IH (bi + 1)); try done; lia.
Qed.

(** ** Blocks inside a transaction

    [carries s s']: what every step of a transaction leaves alone, the home
    locations on disk and the buffers already held. *)

Definition carries (s s' : kstate) : Prop :=
  fs_step s s' ∧ same_home (ks_log s) (ks_disk s) (ks_disk s') ∧
  ∀ c y, owned (ks_bufs s) c y → owned (ks_bufs s') c y.

Lemma home_area lg lg' len x : same_area lg lg' → home lg' len x ↔ home lg len x.
Proof. intros (E1 & E2 & _). unfold home, in_log. by rewrite E1, E2. Qed.

#[export] Instance carries_preorder : PreOrder carries.
Proof.
  split.
  - by intros s.
  - intros s1 s2 s3 (F1 & [L1 H1] & O1) (F2 & [L2 H2] & O2). split_and!; [by etrans| |by auto].
    split; [congruence|]. intros x Hx. rewrite H2, H1; [done|done|].
    rewrite L1. by apply (home_area (ks_log s1)); [apply F1|].
Qed.

(** As [carries], except for the buffer [b], which was released. *)
Definition releases (b : nat) (s s' : kstate) : Prop :=
  fs_step s s' ∧ same_home (ks_log s) (ks_disk s) (ks_disk s') ∧
  ∀ c y, c ≠ b → owned (ks_bufs s) c y → owned (ks_bufs s') c y.

Lemma carries_releases b s1 s2 s3 : carries s1 s2 → releases b s2 s3 → releases b s1 s3.
Proof.
  intros (F1 & [L1 H1] & O1) (F2 & [L2 H2] & O2). split_and!; [by etrans| |by auto].
  split; [congruence|]. intros x Hx. rewrite H2, H1; [done|done|].
  rewrite L1. by apply (home_area (ks_log s1)); [apply F1|].
Qed.

Lemma releases_carries b s1 s2 s3 :
  carries s1 s2 → (∀ c y, owned (ks_bufs s1) c y → c ≠ b) → releases b s2 s3 → carries s1 s3.
Proof.
  intros C Hb R. destruct (carries_releases _ _ _ _ C R) as (F & S & O). split_and!; eauto.
Qed.

Lemma storage_carries s s' :
  storage_step s s' → ks_disk s' = ks_disk s →
  (∀ c y, owned (ks_bufs s) c y → owned (ks_bufs s') c y) → carries s s'.
Proof. intros St Dk Ho. split_and!; [by apply storage_fs_step|by rewrite Dk|done]. Qed.

Lemma carries_home s s' x :
  carries s s' → home (ks_log s) (length (ks_disk s)) x → home (ks_log s') (length (ks_disk s')) x.
Proof. intros (F & [L _] & _) Hx. rewrite L. by apply (home_area (ks_log s)); [apply F|]. Qed.

(** Room for [n] more blocks in the log and [c] more in the buffer cache. *)
Record room (s : kstate) (B L : gset Z) (n : Z) (c : nat) : Prop := {
  rm_log : l_n (ks_log s) + n ≤ 10;
  rm_area : l_n (ks_log s) + n ≤ l_size (ks_log s) - 1;
  rm_cache : (size (B ∪ L) + c < NBUF)%nat;
}.

Lemma room_mono s B L n c n' c' : room s B L n c → n' ≤ n → (c' ≤ c)%nat → room s B L n' c'.
Proof. intros [] ? ?. split; lia. Qed.

Lemma room_bread s s' B L n c x :
  room s B L n (S c) → ks_log s' = ks_log s → room s' ({[x]} ∪ B) L n c.
Proof.
  intros [] E. split; rewrite ?E; try lia. rewrite <-union_assoc_L.
  pose proof (size_union_alt ({[x]} : gset Z) (B ∪ L)) as Hs. rewrite size_singleton in Hs.
  pose proof (subseteq_size ((B ∪ L) ∖ {[x]}) (B ∪ L) ltac:(set_solver)). lia.
Qed.

Lemma room_room s B L n c x : room s B L n (S c) → (size ({[x]} ∪ B ∪ L) ≤ NBUF)%nat.
Proof. intros H. pose proof (room_bread s s B L n c x H eq_refl) as [_ _ ?]. lia. Qed.

Section Txns.
Context `{IdeSpec}.
Set Default Proof Using "All".

Lemma get_block s V B P L x n c :
  txn s V B P L → home (ks_log s) (length (ks_disk s)) x → x ∉ B → room s B L n (S c) →
  wp (bread 1 x) (λ b s', carries s s' ∧ ks_disk s' = ks_disk s ∧ txn s' V ({[x]} ∪ B) P L ∧
    owned (ks_bufs s') b x ∧ room s' ({[x]} ∪ B) L n c ∧ (∀ c y, owned (ks_bufs s) c y → c ≠ b)) s.
Proof.
  intros Hs Hx HB Hr. eapply wp_mono; [apply (txn_bread _ _ _ _ _ Hs); [done..|by eapply room_room]|].
  intros b s' (St & Dk & Hs' & Ho & Kp). split_and!; try done.
  - apply storage_carries; [done..|]. intros c' y Hc'. by apply Kp.
  - eapply room_bread; [done|]. by apply storage_log.
  - intros c' y Hc'. by apply Kp in Hc' as [].
Qed.

(** Giving back an unmodified block. *)
Lemma put_block s V B P L b x n c :
  txn s V ({[x]} ∪ B) P L → x ∉ B → x ∉ P → owned (ks_bufs s) b x → room s B L n c →
  wp (brelse b) (λ _ s', releases b s s' ∧ txn s' V B P L ∧ room s' B L n c) s.
Proof.
  intros Hs HB HP Ho Hr. eapply wp_mono; [by apply (txn_brelse _ _ _ _ _ Hs)|].
  intros [] s' (St & Dk & Hs' & Hk). replace (({[x]} ∪ B) ∖ {[x]}) with B in Hs' by set_solver.
  split_and!; [split_and!; [by apply storage_fs_step|by rewrite Dk|done]|done|].
  destruct Hr. split; rewrite ?(storage_log _ _ St); done.
Qed.

(** Logging a modified block and giving it back. *)
Lemma log_block s V B P L b x n c :
  txn s V ({[x]} ∪ B) ({[x]} ∪ P) L → x ∉ B → x ∉ P → owned (ks_bufs s) b x →
  room s ({[x]} ∪ B) L (n + 1) c → 0 ≤ n →
  wp (log_write b;; brelse b) (λ _ s', releases b s s' ∧ txn s' V B P ({[x]} ∪ L) ∧ room s' B ({[x]} ∪ L) n c) s.
Proof.
  intros Hs HB HP Ho [Hr1 Hr2 Hr3] Hn.
  wp_call (txn_log_write _ _ _ _ _ Hs b x Ho); [lia|lia|lia|].
  intros [] s1 (F1 & Sh1 & Hs1 & Ho1).
  eapply wp_mono; [apply (txn_brelse _ _ _ _ _ Hs1 b x (Ho1 _ _ Ho)); set_solver|].
  intros [] s2 (St2 & Dk2 & Hs2 & Ho2). split_and!.
  - split_and!; [|by rewrite Dk2|].
    + etrans; [done|]. by apply storage_fs_step.
    + intros c' y Hne Hc'. apply Ho2; [done|]. by apply Ho1.
  - replace (({[x]} ∪ B) ∖ {[x]}) with B in Hs2 by set_solver.
    replace (({[x]} ∪ P) ∖ {[x]}) with P in Hs2 by set_solver. done.
  - pose proof (txn_size _ _ _ _ _ Hs) as Z0. pose proof (txn_size _ _ _ _ _ Hs2) as Z2.
    destruct (tx_ok _ _ _ _ _ Hs) as [? ? N0 _ _ _ _ _ _]. destruct (tx_ok _ _ _ _ _ Hs2) as [? ? N2 _ _ _ _ _ _].
    pose proof (size_union_alt ({[x]} : gset Z) L) as Hsu. rewrite size_singleton in Hsu.
    pose proof (subseteq_size (L ∖ {[x]}) L ltac:(set_solver)).
    cbn zeta in Z0, Z2. rewrite (storage_log _ _ St2) in Z2, N2. destruct F1 as ((_ & E & _) & _).
    split; rewrite ?(storage_log _ _ St2); [lia|lia|]. by replace (B ∪ ({[x]} ∪ L)) with ({[x]} ∪ B ∪ L) by set_solver.
Qed.

(** Modifying, logging and giving back a block. *)
Lemma update_block f s V B P L b x n c :
  txn s V ({[x]} ∪ B) P L → x ∉ B → owned (ks_bufs s) b x → block_ok (f (V x)) → P ⊆ B →
  room s ({[x]} ∪ B) L (n + 1) c → 0 ≤ n →
  wp (upd_buf b (λ y, with_b_data (f (b_data y)) y);; log_write b;; brelse b) (λ _ s',
    releases b s s' ∧ txn s' (<[x:=f (V x)]> V) B P ({[x]} ∪ L) ∧ room s' B ({[x]} ∪ L) n c) s.
Proof.
  intros Hs HB Ho Hf HP Hr Hn. apply wp_bind. eapply (txn_modify _ _ _ _ _ Hs); [done..|].
  intros s1 St1 Dk1 Hs1 Ho1.
  eapply wp_mono; [eapply (log_block s1 _ B P L b x n c)|]; try done; [set_solver|by apply Ho1| |].
  { destruct Hr. split; rewrite ?(storage_log _ _ St1); done. }
  intros [] s2 (R2 & Hs2 & Hr2). split_and!; [|done..].
  eapply carries_releases; [by apply storage_carries|done].
Qed.

Lemma bzero_spec s V B P L x n c :
  txn s V B P L → home (ks_log s) (length (ks_disk s)) x → x ∉ B →
  room s B L (n + 1) (S c) → 0 ≤ n →
  wp (bzero 1 x) (λ _ s', carries s s' ∧ txn s' (<[x:=replicate 512 0]> V) B P ({[x]} ∪ L) ∧
    room s' B ({[x]} ∪ L) n c) s.
Proof.
  intros Hs Hx HB Hr Hn. unfold bzero. rewrite u32_small by (destruct Hx, (tx_ok _ _ _ _ _ Hs); lia).
  wp_call (get_block s V B P L x _ c Hs); [done..|].
  intros b s1 (C1 & Dk1 & Hs1 & Ho1 & Hr1 & Hne).
  eapply wp_mono; [apply (update_block (λ _, replicate 512 0) s1 V B P L b x n c)|]; try done.
  { apply (bool_decide_unpack _). by vm_compute. }
  { by apply (tx_P _ _ _ _ _ Hs). }
  intros [] s2 (R2 & Hs2 & Hr2). split_and!; [|done..]. by eapply releases_carries.
Qed.

Lemma readsb_spec s V B P L n c :
  txn s V B P L → home (ks_log s) (length (ks_disk s)) 1 → 1 ∉ B → room s B L n (S c) →
  wp (readsb 1) (λ sb s', sb = sb_of (V 1) ∧ carries s s' ∧ txn s' V B P L ∧
    room s' B L n (S c)) s.
Proof.
  intros Hs H1 HB Hr. eapply wp_mono; [apply (txn_readsb s V B P L); [done..|by eapply room_room]|].
  intros sb s' (-> & St & Dk & Hs' & Ho). split_and!; [done|by apply storage_carries|done|].
  destruct Hr. split; rewrite ?(storage_log _ _ St); done.
Qed.

End Txns.

(** ** The allocator

    [used V b]: block [b] is marked as in use in the bitmap of the disk [V]. *)

Definition map_block (V : Z → list Z) (b : Z) : Z := BBLOCK b (sb_ninodes (sb_of (V 1))).
Definition used (V : Z → list Z) (b : Z) : bool := bit (V (map_block V b)) (b mod BPB).

(** The disk after block [y] was allocated, and after it was freed. *)
Definition alloc_view (y : Z) (V : Z → list Z) : Z → list Z :=
  <[y:=replicate 512 0]> (<[map_block V y:=bit_set (y mod BPB) (V (map_block V y))]> V).
Definition free_view (y : Z) (V : Z → list Z) : Z → list Z :=
  <[map_block V y:=bit_clear (y mod BPB) (V (map_block V y))]> V.

(** The superblock and the bitmap are where the superblock says. *)
Record layout (s : kstate) (V : Z → list Z) : Prop := {
  ly_sb : home (ks_log s) (length (ks_disk s)) 1;
  ly_size : 0 ≤ sb_size (sb_of (V 1)) < 2 ^ 31;
  ly_map : ∀ b, 0 ≤ b < sb_size (sb_of (V 1)) → home (ks_log s) (length (ks_disk s)) (map_block V b);
}.

Lemma layout_carries s s' V : carries s s' → layout s V → layout s' V.
Proof. intros C []. split; eauto using carries_home. Qed.

Lemma first_free_in d V b size y :
  (∀ j, b ≤ j < b + 4096 → used V j = bit d (j - b)) → 0 ≤ b → b mod 4096 = 0 →
  b ≤ y → y < size → used V y = false → (∀ j, 0 ≤ j < y → used V j = true) →
  scan_free d b size 0 4096 = if y <? b + 4096 then Some (y - b) else None.
Proof.
  intros Hd Hb0 Hb Hy Hys Hfree Hbefore. destruct (scan_free d b size 0 4096) as [r|] eqn:E.
  - apply scan_free_Some in E as (Hr & Hrs & Hbit & Hall).
    destruct (Z.ltb_spec y (b + 4096)).
    + f_equal. destruct (Z.lt_trichotomy r (y - b)) as [Hlt|[->|Hgt]]; [|lia|].
      * specialize (Hbefore (b + r) ltac:(lia)). rewrite Hd in Hbefore by lia.
        replace (b + r - b) with r in Hbefore by lia. congruence.
      * specialize (Hall (y - b) ltac:(lia)). rewrite Hd in Hfree by lia. congruence.
    + specialize (Hbefore (b + r) ltac:(lia)). rewrite Hd in Hbefore by lia.
      replace (b + r - b) with r in Hbefore by lia. congruence.
  - destruct (Z.ltb_spec y (b + 4096)); [|done].
    pose proof (scan_free_None _ _ _ _ _ E ltac:(lia) (y - b) ltac:(lia) ltac:(lia)) as Hu.
    rewrite Hd in Hfree by lia. congruence.
Qed.

Lemma map_block_base V b j :
  0 ≤ b → b mod 4096 = 0 → b ≤ j < b + 4096 → map_block V j = map_block V b ∧ j mod BPB = j - b.
Proof.
  intros H0 Hb Hj. unfold map_block, BBLOCK.
  pose proof (Z.div_mod b 4096 ltac:(lia)). pose proof (Z.div_mod j 4096 ltac:(lia)).
  pose proof (Z.mod_pos_bound j 4096 ltac:(lia)).
  assert (j / BPB = b / BPB) as -> by (simpl; nia). split; [done|]. simpl in *. nia.
Qed.

Section Alloc.
Context `{IdeSpec}.
Set Default Proof Using "All".

Lemma balloc_loop_spec fuel b y s V B P L n c :
  txn s V B P L → layout s V → (∀ j, 0 ≤ j ≤ y → map_block V j ∉ B) →
  home (ks_log s) (length (ks_disk s)) y → y ∉ B → room s B L (n + 2) (S (S c)) → 0 ≤ n →
  0 ≤ b → b mod 4096 = 0 → b ≤ y < sb_size (sb_of (V 1)) → y < b + 4096 * Z.of_nat fuel →
  used V y = false → (∀ j, 0 ≤ j < y → used V j = true) →
  wp (balloc_loop 1 (sb_of (V 1)) b fuel) (λ r s', r = y ∧ carries s s' ∧
    txn s' (alloc_view y V) B P ({[y]} ∪ ({[map_block V y]} ∪ L)) ∧
    room s' B ({[y]} ∪ ({[map_block V y]} ∪ L)) n c) s.
Proof.
  revert b s. induction fuel as [|fuel IH];
    intros b s Hs Hly HmB Hy HyB Hr Hn Hb0 Hb Hby Hfuel Hfree Hbefore; [lia|].
  cbn [balloc_loop]. rewrite (proj2 (Z.ltb_lt _ _)) by lia. cbn [negb].
  fold (map_block V b). set (x := map_block V b).
  assert (home (ks_log s) (length (ks_disk s)) x) as Hx by (apply (ly_map _ _ Hly); lia).
  assert (x ∉ B) as HxB by (apply HmB; lia).
  wp_call (get_block s V B P L x _ _ Hs Hx HxB Hr).
  intros bp s1 (C1 & Dk1 & Hs1 & Ho1 & Hr1 & Hne1).
  destruct (txn_owned _ _ _ _ _ Hs1 bp x Ho1) as (bf & Hbf & Hbd & _).
  pose proof (txn_block_ok _ _ _ _ _ Hs x Hx) as Hok.
  wp_step. eapply wp_get_buf; [done|]. rewrite Hbd.
  rewrite (first_free_in (V x) V b _ y); try done; try lia.
  2: { intros j Hj. destruct (map_block_base V b j Hb0 Hb Hj) as [E1 E2]. unfold used. by rewrite E1, E2. }
  destruct (Z.ltb_spec y (b + 4096)) as [Hin|Hout].
  - destruct (map_block_base V b y Hb0 Hb ltac:(lia)) as [E1 E2]. fold x in E1. simpl in E2.
    apply wp_seq3. eapply wp_mono.
    { apply (update_block (bit_set (y - b)) s1 V B P L bp x (n + 1) (S c)); try done; try lia.
      - by apply bit_set_ok.
      - by apply (tx_P _ _ _ _ _ Hs).
      - by replace (n + 1 + 1) with (n + 2) by lia. }
    intros [] s2 (R2 & Hs2 & Hr2). assert (carries s s2) as C2 by (by eapply releases_carries).
    replace (b + (y - b)) with y by lia.
    wp_call (bzero_spec s2 _ B P _ y n c Hs2); try done; [by eapply carries_home|].
    intros [] s3 (C3 & Hs3 & Hr3). wp_step. rewrite E1. split_and!; try done.
    + by etrans.
    + unfold alloc_view. rewrite E1, E2. done.
  - wp_call (put_block s1 V B P L bp x (n + 2) (S (S c)) Hs1); try done.
    { intros HP. by apply (tx_P _ _ _ _ _ Hs) in HP. }
    { destruct Hr. destruct C1 as (((_ & E & _) & _) & _).
      pose proof (txn_size _ _ _ _ _ Hs) as Z0. pose proof (txn_size _ _ _ _ _ Hs1) as Z1. cbn zeta in Z0, Z1.
      destruct (tx_ok _ _ _ _ _ Hs), (tx_ok _ _ _ _ _ Hs1). split; [lia|lia|done]. }
    intros [] s2 (R2 & Hs2 & Hr2). assert (carries s s2) as C2 by (by eapply releases_carries).
    eapply wp_mono.
    { eapply (IH (b + 4096) s2); try done; try lia; [by eapply layout_carries|by eapply carries_home|].
      rewrite Z.add_mod, Hb by lia. done. }
    intros r s3 (-> & C3 & Hs3 & Hr3). split_and!; try done. by etrans.
Qed.

(** [balloc] hands out the first free block, zeroed and marked as used. *)
Lemma balloc_spec y s V B P L n c :
  txn s V B P L → layout s V → 1 ∉ B → (∀ j, 0 ≤ j ≤ y → map_block V j ∉ B) →
  home (ks_log s) (length (ks_disk s)) y → y ∉ B → room s B L (n + 2) (S (S c)) → 0 ≤ n →
  0 ≤ y < sb_size (sb_of (V 1)) → used V y = false → (∀ j, 0 ≤ j < y → used V j = true) →
  wp (balloc 1) (λ r s', r = y ∧ carries s s' ∧
    txn s' (alloc_view y V) B P ({[y]} ∪ ({[map_block V y]} ∪ L)) ∧
    room s' B ({[y]} ∪ ({[map_block V y]} ∪ L)) n c) s.
Proof.
  intros Hs Hly H1 HmB Hy HyB Hr Hn Hys Hfree Hbefore. unfold balloc.
  wp_call (readsb_spec s V B P L _ _ Hs (ly_sb _ _ Hly) H1 Hr).
  intros sb s1 (-> & C1 & Hs1 & Hr1). eapply wp_mono.
  { apply (balloc_loop_spec _ 0 y s1 V B P L n c); try done; try lia;
      [by eapply layout_carries|by eapply carries_home|].
    pose proof (Z.mul_succ_div_gt (sb_size (sb_of (V 1))) 4096 ltac:(lia)).
    pose proof (Z.div_pos (sb_size (sb_of (V 1))) 4096 ltac:(lia) ltac:(lia)). lia. }
  intros r s2 (-> & C2 & Hs2 & Hr2). split_and!; try done. by etrans.
Qed.

(** [bfree] of a block in use marks it as free and changes nothing else. *)
Lemma bfree_spec y s V B P L n c :
  txn s V B P L → layout s V → 1 ∉ B → map_block V y ∉ B → room s B L (n + 1) (S c) → 0 ≤ n →
  0 ≤ y < sb_size (sb_of (V 1)) → used V y = true →
  wp (bfree 1 y) (λ _ s', carries s s' ∧ txn s' (free_view y V) B P ({[map_block V y]} ∪ L) ∧
    room s' B ({[map_block V y]} ∪ L) n c) s.
Proof.
  intros Hs Hly H1 HmB Hr Hn Hys Hused. unfold bfree.
  wp_call (readsb_spec s V B P L _ _ Hs (ly_sb _ _ Hly) H1 Hr).
  intros sb s1 (-> & C1 & Hs1 & Hr1). fold (map_block V y). set (x := map_block V y) in *.
  assert (home (ks_log s1) (length (ks_disk s1)) x) as Hx.
  { eapply carries_home; [done|]. by apply (ly_map _ _ Hly). }
  wp_call (get_block s1 V B P L x _ _ Hs1 Hx HmB Hr1).
  intros bp s2 (C2 & Dk2 & Hs2 & Ho2 & Hr2 & Hne2).
  destruct (txn_owned _ _ _ _ _ Hs2 bp x Ho2) as (bf & Hbf & Hbd & _).
  wp_step. eapply wp_get_buf; [done|]. rewrite Hbd, bit_test_zero.
  unfold used in Hused. fold x in Hused. rewrite Hused. simpl.
  eapply wp_mono.
  { apply (update_block (bit_clear (y mod 4096)) s2 V B P L bp x n c); try done.
    - apply bit_clear_ok. by apply (txn_block_ok _ _ _ _ _ Hs1).
    - by apply (tx_P _ _ _ _ _ Hs). }
  intros [] s3 (R3 & Hs3 & Hr3). split_and!; [|done..]. etrans; [done|]. by eapply releases_carries.
Qed.

End Alloc.

(** ** The bitmap as a set of blocks *)

Lemma map_block_val V b :
  0 ≤ b < 2 ^ 31 → block_ok (V 1) →
  map_block V b = b / 4096 + sb_ninodes (sb_of (V 1)) / 8 + 3.
Proof.
  intros Hb [_ Hok]. unfold map_block, BBLOCK. simpl. apply u32_small.
  pose proof (get32_range 8 (V 1) Hok) as Hn.
  pose proof (Z.div_pos b 4096 ltac:(lia) ltac:(lia)).
  pose proof (Z.div_pos (get32 8 (V 1)) 8 ltac:(lia) ltac:(lia)).
  pose proof (Z.div_lt_upper_bound b 4096 (2 ^ 19) ltac:(lia) ltac:(lia)).
  pose proof (Z.div_lt_upper_bound (get32 8 (V 1)) 8 (2 ^ 29) ltac:(lia) ltac:(lia)). lia.
Qed.

Lemma map_block_ne1 V b : 0 ≤ b < 2 ^ 31 → block_ok (V 1) → map_block V b ≠ 1.
Proof.
  intros Hb Hok. rewrite map_block_val by done. destruct Hok as [_ Hok].
  pose proof (get32_range 8 (V 1) Hok) as Hn.
  pose proof (Z.div_pos b 4096 ltac:(lia) ltac:(lia)).
  pose proof (Z.div_pos (get32 8 (V 1)) 8 ltac:(lia) ltac:(lia)). simpl. lia.
Qed.

(** A change of one bit of the bitmap, at block [y], is a change of [used] at [y] only. *)
Lemma used_update V y b d :
  block_ok (V 1) → 0 ≤ y < 2 ^ 31 → 0 ≤ b < 2 ^ 31 →
  (∀ j, 0 ≤ j < 4096 → j ≠ y mod 4096 → bit d j = bit (V (map_block V y)) j) →
  used (<[map_block V y:=d]> V) b = if decide (b = y) then bit d (y mod 4096) else used V b.
Proof.
  intros Hok Hy Hb Hd. set (V' := <[map_block V y:=d]> V).
  assert (∀ j, map_block V' j = map_block V j) as Hm.
  { intros j. unfold map_block, V'. rewrite fn_lookup_insert_ne; [done|]. by apply map_block_ne1. }
  unfold used. rewrite Hm. unfold V'. case_decide as E; [subst; by rewrite fn_lookup_insert|].
  destruct (decide (map_block V b = map_block V y)) as [Em|Em].
  - rewrite Em, fn_lookup_insert. apply Hd; [by apply Z.mod_pos_bound|]. intros Emod. apply E.
    rewrite !map_block_val in Em by done.
    rewrite (Z.div_mod b 4096), (Z.div_mod y 4096) by lia. simpl in Emod. lia.
  - by rewrite fn_lookup_insert_ne by done.
Qed.

Lemma used_alloc V y b :
  block_ok (V 1) → block_ok (V (map_block V y)) → 0 ≤ y < 2 ^ 31 → 0 ≤ b < 2 ^ 31 →
  y ≠ 1 → y ≠ map_block V b →
  used (alloc_view y V) b = bool_decide (b = y) || used V b.
Proof.
  intros Hok Hmok Hy Hb H1 Hm. unfold alloc_view. set (V' := <[map_block V y:=_]> V).
  assert (∀ j, map_block V' j = map_block V j) as Hm'.
  { intros j. unfold map_block, V'. rewrite fn_lookup_insert_ne; [done|]. by apply map_block_ne1. }
  assert (used (<[y:=replicate 512 0]> V') b = used V' b) as ->.
  { unfold used, map_block. rewrite (fn_lookup_insert_ne V' y 1) by done.
    fold (map_block V' b). rewrite Hm'. by rewrite fn_lookup_insert_ne by done. }
  pose proof (Z.mod_pos_bound y 4096 ltac:(lia)) as Hym.
  unfold V'. rewrite used_update; try done.
  - case_decide as E; [subst; rewrite bool_decide_true by done|by rewrite bool_decide_false by done].
    rewrite bit_set_spec by done. by rewrite bool_decide_true by done.
  - intros j Hj Hne. rewrite bit_set_spec by done. by rewrite bool_decide_false by congruence.
Qed.

Lemma used_free V y b :
  block_ok (V 1) → block_ok (V (map_block V y)) → 0 ≤ y < 2 ^ 31 → 0 ≤ b < 2 ^ 31 →
  used (free_view y V) b = bool_decide (b ≠ y) && used V b.
Proof.
  intros Hok Hmok Hy Hb. unfold free_view. pose proof (Z.mod_pos_bound y 4096 ltac:(lia)) as Hym.
  rewrite used_update; try done.
  - case_decide as E; [subst; rewrite bool_decide_false by naive_solver|by rewrite bool_decide_true by done].
    rewrite bit_clear_spec by done. by rewrite bool_decide_false by naive_solver.
  - intros j Hj Hne. rewrite bit_clear_spec by done. by rewrite bool_decide_true by congruence.
Qed.

(** C2: [balloc] returns a block that was free.  Afterwards that block is
    marked as used and is all zeros, no other block's mark has changed, and
    neither has the contents of any block but it and the bitmap. *)
Theorem balloc_fresh `{IdeSpec} y s V B P L n c :
  txn s V B P L → layout s V → 1 ∉ B → (∀ j, 0 ≤ j ≤ y → map_block V j ∉ B) →
  home (ks_log s) (length (ks_disk s)) y → y ∉ B → room s B L (n + 2) (S (S c)) → 0 ≤ n →
  0 ≤ y < sb_size (sb_of (V 1)) → used V y = false → (∀ j, 0 ≤ j < y → used V j = true) →
  y ≠ 1 → (∀ j, 0 ≤ j < sb_size (sb_of (V 1)) → y ≠ map_block V j) →
  wp (balloc 1) (λ r s', used V r = false ∧ ∃ V' L', txn s' V' B P L' ∧ V' r = replicate 512 0 ∧
    (∀ b, 0 ≤ b < sb_size (sb_of (V 1)) → used V' b = bool_decide (b = r) || used V b) ∧
    (∀ x, x ≠ r → x ≠ map_block V r → V' x = V x)) s.
Proof.
  intros Hs Hly H1 HmB Hy HyB Hr Hn Hys Hfree Hbefore Hy1 Hym.
  pose proof (ly_size _ _ Hly). eapply wp_mono; [by apply (balloc_spec y s V B P L n c)|].
  intros r s' (-> & _ & Hs' & _). split; [done|]. eexists _, _. split; [exact Hs'|]. split_and!.
  - apply fn_lookup_insert.
  - intros b Hb. apply used_alloc; try lia; auto; apply (txn_block_ok _ _ _ _ _ Hs);
      [apply Hly|by apply Hly].
  - intros x Hx Hxm. unfold alloc_view. by rewrite !fn_lookup_insert_ne by done.
Qed.

Module BlockExample.
Import Memide Crash.Example.

Lemma map_block_V1 j : 0 ≤ j < 32 → map_block V1 j = 4.
Proof.
  intros Hj. rewrite map_block_val; [|lia|apply (bool_decide_unpack _); by vm_compute].
  assert (sb_ninodes (sb_of (V1 1)) = 8) as -> by by vm_compute.
  rewrite Z.div_small by lia. done.
Qed.

Lemma V1_layout s :
  ks_disk s = disk1 → l_start (ks_log s) = 21 → l_size (ks_log s) = 11 → layout s V1.
Proof.
  intros Dk E1 E2. assert (sb_size (sb_of (V1 1)) = 32) as Hsz by by vm_compute.
  split; rewrite ?Hsz; [by apply fresh_home|lia|]. intros b Hb. rewrite map_block_V1 by done.
  by apply fresh_home.
Qed.

Lemma used_V1 : (∀ j, 0 ≤ j < 6 → used V1 j = true) ∧ used V1 6 = false.
Proof.
  split; [|by vm_compute]. intros j Hj.
  assert (j = 0 ∨ j = 1 ∨ j = 2 ∨ j = 3 ∨ j = 4 ∨ j = 5) as E by lia.
  destruct E as [-> |[-> |[-> |[-> |[-> | ->]]]]]; by vm_compute.
Qed.

Lemma empty_room s : l_n (ks_log s) = 0 → l_size (ks_log s) = 11 → room s ∅ ∅ 9 8.
Proof. intros E1 E2. split; rewrite ?E1, ?E2; [lia|lia|]. rewrite union_empty_l_L, size_empty. lia. Qed.

End BlockExample.

Import Memide.

Lemma balloc_fresh_witness :
  ∃ s, txn s Example.V1 ∅ ∅ ∅ ∧
  wp (balloc 1) (λ r s', used Example.V1 r = false ∧ ∃ V' L', txn s' V' ∅ ∅ L' ∧
    V' r = replicate 512 0 ∧
    (∀ b, 0 ≤ b < sb_size (sb_of (Example.V1 1)) →
      used V' b = bool_decide (b = r) || used Example.V1 b) ∧
    (∀ x, x ≠ r → x ≠ map_block Example.V1 r → V' x = Example.V1 x)) s.
Proof.
  destruct Example.fresh_txn as (s & Hs & Dk & E1 & E2 & E3). exists s. split; [done|].
  destruct BlockExample.used_V1 as [U1 U2].
  apply (balloc_fresh 6 s Example.V1 ∅ ∅ ∅ 7 6 Hs); try done; try lia.
  - by apply BlockExample.V1_layout.
  - by apply Example.fresh_home.
  - by apply BlockExample.empty_room.
  - intros j Hj. by rewrite BlockExample.map_block_V1.
Defined.
