(* ===== verification/Inode.v ===== *)
(** * Inode: inodes and their contents (fs.c)

    The cache of inodes, the mapping from a file's blocks to disk blocks, and
    reading and writing a file's contents. *)

From S2P Require Import Prelude Bytes CString Kernel Sched Ide Bio Log Crash Block.

(** ** On-disk inodes (fs.h) *)

(** Block containing inode [i], and the byte offset of the inode in it. *)
Definition IBLOCK (i : Z) : Z := u32 (i / IPB + 2).
Definition ioff (i : Z) : nat := Z.to_nat (64 * (i mod IPB)).

(** [struct dinode]. *)
Record dinode := mk_dinode {
  di_type : Z; di_major : Z; di_minor : Z; di_nlink : Z; di_size : Z; di_addrs : list Z }.

Definition get_dinode (o : nat) (d : list Z) : dinode :=
  mk_dinode (s16 (get16 o d)) (s16 (get16 (o + 2) d)) (s16 (get16 (o + 4) d))
    (s16 (get16 (o + 6) d)) (get32 (o + 8) d)
    ((λ k, get32 (o + 12 + 4 * k) d) <$> seq 0 12).

(** Copying the fields of an in-memory inode to the disk inode at offset [o].
    [sizeof(ip->addrs)] is 48: twelve addresses. *)
Fixpoint put_addrs (o : nat) (addrs : list Z) (d : list Z) : list Z :=
  match addrs with
  | [] => d
  | a :: r => put_addrs (o + 4) r (put32 o a d)
  end.

Definition put_dinode (o : nat) (ip : inode) (d : list Z) : list Z :=
  put_addrs (o + 12) (i_addrs ip)
    (put32 (o + 8) (i_size ip) (put16 (o + 6) (i_nlink ip) (put16 (o + 4) (i_minor ip)
      (put16 (o + 2) (i_major ip) (put16 o (i_type ip) d))))).

(** [struct stat]. *)
Record stat := mk_stat {
  st_type : Z; st_dev : Z; st_ino : Z; st_nlink : Z; st_size : Z }.

(** ** Device functions

    [devsw[major].read] and [devsw[major].write]; the console is the only
    device, and its functions call back into this file. *)

Class Devsw := {
  devread : nat → Z → K (Z * list Z);
  devwrite : nat → list Z → Z → K Z;
}.

(** ** The code *)

Section Code.
Context `{Ide} `{Devsw}.

(** [ip->addrs[k]].  The array has [NDIRECT + 1 = 12] elements and ends the
    structure: it begins at byte 28 of 76, after four words, four shorts and
    the size.  Element [NDIRECT + 1] is at byte 28 + 4 * 12 = 76, the first word
    of the next element of [icache.inode], its [dev]. *)
Definition get_addr (ip k : nat) : K Z :=
  if decide (k < 12)%nat then i ← get_inode ip; the (i_addrs i !! k)
  else if decide (k = 12)%nat then i ← get_inode (S ip); mret (i_dev i)
  else fault.

Definition set_addr (ip k : nat) (v : Z) : K () :=
  if decide (k < 12)%nat then upd_inode ip (λ i, with_i_addrs (<[k:=v]> (i_addrs i)) i)
  else if decide (k = 12)%nat then upd_inode (S ip) (with_i_dev v)
  else fault.

(** The scan of [iget]: the entry for ([dev], [inum]), or else the first
    free entry. *)
Fixpoint iget_scan (dev inum : Z) (l : list inode) (i : nat) (empty : option nat) : option nat * option nat :=
  match l with
  | [] => (None, empty)
  | x :: l' =>
      if (0 <? i_ref x) && (i_dev x =? dev) && (i_inum x =? inum) then (Some i, empty)
      else iget_scan dev inum l' (S i)
             (match empty with
              | None => if i_ref x =? 0 then Some i else None
              | Some _ => empty
              end)
  end.

Definition iget (dev inum : Z) : K nat :=
  acquire L_icache;;
  l ← gets ks_inodes;
  match iget_scan dev inum l 0 None with
  | (Some ip, _) =>
      upd_inode ip (λ x, with_i_ref (i_ref x + 1) x);;
      release L_icache;;
      mret ip
  | (None, None) => panic "iget: no inodes"
  | (None, Some ip) =>
      upd_inode ip (with_i_dev dev);;
      upd_inode ip (with_i_inum inum);;
      upd_inode ip (with_i_ref 1);;
      upd_inode ip (with_i_flags 0);;
      release L_icache;;
      mret ip
  end.

Fixpoint ialloc_loop (dev type ninodes inum : Z) (fuel : nat) : K nat :=
  match fuel with
  | O => panic "ialloc: no inodes"
  | S fuel' =>
      if negb (inum <? ninodes) then panic "ialloc: no inodes" else
      bp ← bread dev (IBLOCK inum);
      bf ← get_buf bp;
      let o := ioff inum in
      if di_type (get_dinode o (b_data bf)) =? 0 then
        upd_buf bp (λ x, with_b_data (put16 o type (splice o (replicate 64 0) (b_data x))) x);;
        log_write bp;;
        brelse bp;;
        iget dev inum
      else brelse bp;; ialloc_loop dev type ninodes (inum + 1) fuel'
  end.

Definition ialloc (dev type : Z) : K nat :=
  sb ← readsb dev;
  ialloc_loop dev type (sb_ninodes sb) 1 (Z.to_nat (sb_ninodes sb)).

Definition iupdate (ip : nat) : K () :=
  i ← get_inode ip;
  bp ← bread (i_dev i) (IBLOCK (i_inum i));
  i ← get_inode ip;
  upd_buf bp (λ x, with_b_data (put_dinode (ioff (i_inum i)) i (b_data x)) x);;
  log_write bp;;
  brelse bp.

Definition idup (ip : nat) : K nat :=
  acquire L_icache;;
  upd_inode ip (λ x, with_i_ref (i_ref x + 1) x);;
  release L_icache;;
  mret ip.

(** The fields [ilock] copies from the disk inode. *)
Definition load_inode (di : dinode) (i : inode) : inode :=
  with_i_addrs (di_addrs di) (with_i_size (di_size di) (with_i_nlink (di_nlink di)
    (with_i_minor (di_minor di) (with_i_major (di_major di) (with_i_type (di_type di) i))))).

Definition ilock (ip : nat) : K () :=
  i ← get_inode ip;
  if i_ref i <? 1 then panic "ilock" else
  acquire L_icache;;
  i ← get_inode ip;
  if hasb (i_flags i) I_BUSY then sleep (ChInode ip) L_icache else
  upd_inode ip (λ x, with_i_flags (Z.lor (i_flags x) I_BUSY) x);;
  release L_icache;;
  i ← get_inode ip;
  when (negb (hasb (i_flags i) I_VALID)) (
    bp ← bread (i_dev i) (IBLOCK (i_inum i));
    bf ← get_buf bp;
    upd_inode ip (load_inode (get_dinode (ioff (i_inum i)) (b_data bf)));;
    brelse bp;;
    upd_inode ip (λ x, with_i_flags (Z.lor (i_flags x) I_VALID) x);;
    i ← get_inode ip;
    when (i_type i =? 0) (panic "ilock: no type")).

Definition iunlock (ip : nat) : K () :=
  i ← get_inode ip;
  if negb (hasb (i_flags i) I_BUSY) || (i_ref i <? 1) then panic "iunlock" else
  acquire L_icache;;
  upd_inode ip (λ x, with_i_flags (Z.land (i_flags x) (Z.lnot I_BUSY)) x);;
  wakeup (ChInode ip);;
  release L_icache.

(** ** Contents *)

Definition bmap_direct (ip : nat) (bn : nat) : K Z :=
  addr ← get_addr ip bn;
  if addr =? 0 then
    i ← get_inode ip;
    addr ← balloc (i_dev i);
    set_addr ip bn addr;;
    mret addr
  else mret addr.

(** Entry [idx] of the block of addresses in buffer [bp], allocated if it is zero. *)
Definition bmap_entry (ip : nat) (bp : nat) (idx : nat) : K Z :=
  bf ← get_buf bp;
  let addr := get32 (4 * idx) (b_data bf) in
  if addr =? 0 then
    i ← get_inode ip;
    addr ← balloc (i_dev i);
    upd_buf bp (λ x, with_b_data (put32 (4 * idx) addr (b_data x)) x);;
    log_write bp;;
    mret addr
  else mret addr.

Definition bmap (ip : nat) (bn : Z) : K Z :=
  if bn <? NDIRECT then bmap_direct ip (Z.to_nat bn)
  else
    let bn := bn - NDIRECT in
    if bn <? NINDIRECT then
      addr ← bmap_direct ip 11;
      i ← get_inode ip;
      bp ← bread (i_dev i) addr;
      addr ← bmap_entry ip bp (Z.to_nat bn);
      brelse bp;;
      mret addr
    else
      let bn := bn - NINDIRECT in
      if bn <? NINDIRECT * NINDIRECT then
        addr ← bmap_direct ip 12;
        i ← get_inode ip;
        bp ← bread (i_dev i) addr;
        addr ← bmap_entry ip bp (Z.to_nat (bn / NINDIRECT));
        i ← get_inode ip;
        secBp ← bread (i_dev i) addr;
        addr ← bmap_entry ip secBp (Z.to_nat (bn mod NINDIRECT));
        brelse secBp;;
        brelse bp;;
        mret addr
      else panic "bmap: out of range".

(** The two loops of [itrunc]: [i] is the index, [n] the number of turns to go. *)
Fixpoint itrunc_direct (ip : nat) (i n : nat) : K () :=
  match n with
  | O => mret ()
  | S n' =>
      addr ← get_addr ip i;
      when (negb (addr =? 0)) (
        x ← get_inode ip;
        bfree (i_dev x) addr;;
        set_addr ip i 0);;
      itrunc_direct ip (S i) n'
  end.

Fixpoint itrunc_indirect (ip bp : nat) (j n : nat) : K () :=
  match n with
  | O => mret ()
  | S n' =>
      bf ← get_buf bp;
      let a := get32 (4 * j) (b_data bf) in
      when (negb (a =? 0)) (x ← get_inode ip; bfree (i_dev x) a);;
      itrunc_indirect ip bp (S j) n'
  end.

Definition itrunc (ip : nat) : K () :=
  itrunc_direct ip 0 11;;
  addr ← get_addr ip 11;
  when (negb (addr =? 0)) (
    x ← get_inode ip;
    bp ← bread (i_dev x) addr;
    itrunc_indirect ip bp 0 128;;
    brelse bp;;
    x ← get_inode ip;
    addr ← get_addr ip 11;
    bfree (i_dev x) addr;;
    set_addr ip 11 0);;
  upd_inode ip (with_i_size 0);;
  iupdate ip.

Definition iput (ip : nat) : K () :=
  acquire L_icache;;
  i ← get_inode ip;
  when ((i_ref i =? 1) && hasb (i_flags i) I_VALID && (i_nlink i =? 0)) (
    if hasb (i_flags i) I_BUSY then panic "iput busy" else
    upd_inode ip (λ x, with_i_flags (Z.lor (i_flags x) I_BUSY) x);;
    release L_icache;;
    itrunc ip;;
    upd_inode ip (with_i_type 0);;
    iupdate ip;;
    acquire L_icache;;
    upd_inode ip (with_i_flags 0);;
    wakeup (ChInode ip));;
  upd_inode ip (λ x, with_i_ref (i_ref x - 1) x);;
  release L_icache.

Definition iunlockput (ip : nat) : K () := iunlock ip;; iput ip.

Definition stati (ip : nat) : K stat :=
  i ← get_inode ip;
  mret (mk_stat (i_type i) (i_dev i) (i_inum i) (i_nlink i) (i_size i)).

(** [devsw[major]] has functions. *)
Definition has_dev (major : Z) : K bool :=
  l ← gets ks_devsw;
  mret (negb ((major <? 0) || (NDEV <=? major)) && default false (l !! Z.to_nat major)).

(** The length of the piece of a transfer that lies in one block. *)
Definition chunk (off left : Z) : Z := Z.min left (BSIZE - off mod BSIZE).

Fixpoint readi_loop (ip : nat) (off left : Z) (acc : list Z) (fuel : nat) : K (list Z) :=
  match fuel with
  | O => fault
  | S fuel' =>
      if negb (0 <? left) then mret acc else
      addr ← bmap ip (off / BSIZE);
      i ← get_inode ip;
      bp ← bread (i_dev i) addr;
      let m := chunk off left in
      bf ← get_buf bp;
      brelse bp;;
      readi_loop ip (off + m) (left - m)
        (acc ++ slice (Z.to_nat (off mod BSIZE)) (Z.to_nat m) (b_data bf)) fuel'
  end.

(** The return value and the bytes stored at [dst].  A transfer of [n] bytes
    touches at most [n / BSIZE + 2] blocks. *)
Definition readi (ip : nat) (off n : Z) : K (Z * list Z) :=
  i ← get_inode ip;
  if i_type i =? T_DEV then
    d ← has_dev (i_major i);
    if (d : bool) then devread ip n else mret (-1, [])
  else
    if (i_size i <? off) || (u32 (off + n) <? off) then mret (-1, []) else
    let n := if i_size i <? u32 (off + n) then i_size i - off else n in
    data ← readi_loop ip off n [] (Z.to_nat (n / BSIZE + 3));
    mret (n, data).

Fixpoint writei_loop (ip : nat) (src : list Z) (off left : Z) (fuel : nat) : K Z :=
  match fuel with
  | O => fault
  | S fuel' =>
      if negb (0 <? left) then mret off else
      addr ← bmap ip (off / BSIZE);
      i ← get_inode ip;
      bp ← bread (i_dev i) addr;
      let m := chunk off left in
      upd_buf bp (λ x, with_b_data
        (splice (Z.to_nat (off mod BSIZE)) (take (Z.to_nat m) src) (b_data x)) x);;
      log_write bp;;
      brelse bp;;
      writei_loop ip (drop (Z.to_nat m) src) (off + m) (left - m) fuel'
  end.

(** [src] has at least [n] bytes. *)
Definition writei (ip : nat) (src : list Z) (off n : Z) : K Z :=
  i ← get_inode ip;
  if i_type i =? T_DEV then
    d ← has_dev (i_major i);
    if (d : bool) then devwrite ip src n else mret (-1)
  else
    if (i_size i <? off) || (u32 (off + n) <? off) then mret (-1) else
    if MAXFILE * BSIZE <? u32 (off + n) then mret (-1) else
    off ← writei_loop ip src off n (Z.to_nat (n / BSIZE + 3));
    i ← get_inode ip;
    when ((0 <? n) && (i_size i <? off)) (
      upd_inode ip (with_i_size off);;
      iupdate ip);;
    mret n.

End Code.

(** ** Reading a file

    The blocks of a file as its inode and the disk [V] give them, for the
    direct and the singly indirect ones, and the bytes in them. *)

Definition fblock (V : Z → list Z) (i : inode) (k : Z) : Z :=
  if k <? NDIRECT then i_addrs i !!! Z.to_nat k
  else get32 (4 * Z.to_nat (k - NDIRECT)) (V (i_addrs i !!! 11%nat)).

Definition fbyte (V : Z → list Z) (i : inode) (j : Z) : Z :=
  V (fblock V i (j / BSIZE)) !!! Z.to_nat (j mod BSIZE).

Definition fbytes (V : Z → list Z) (i : inode) (off : Z) (n : nat) : list Z :=
  (λ j, fbyte V i (off + Z.of_nat j)) <$> seq 0 n.

(** Block [a] can be read: it is an allocated block of the disk nobody holds. *)
Definition readable (s : kstate) (B : gset Z) (a : Z) : Prop :=
  a ≠ 0 ∧ 0 ≤ a ∧ (Z.to_nat a < length (ks_disk s))%nat ∧ a ∉ B.

(** The first [k] blocks of the file are mapped. *)
Definition mapped (s : kstate) (V : Z → list Z) (B : gset Z) (i : inode) (k : Z) : Prop :=
  k ≤ NDIRECT + NINDIRECT ∧ length (i_addrs i) = 12%nat ∧
  (∀ j, 0 ≤ j < k → readable s B (fblock V i j)) ∧
  (NDIRECT < k → readable s B (i_addrs i !!! 11%nat)).

Lemma readable_step s s' B a : length (ks_disk s') = length (ks_disk s) → readable s B a → readable s' B a.
Proof. intros E. unfold readable. by rewrite E. Qed.

Lemma length_fbytes V i off n : length (fbytes V i off n) = n.
Proof. unfold fbytes. len. Qed.

Lemma fbytes_app V i off n m :
  fbytes V i off (n + m) = fbytes V i off n ++ fbytes V i (off + Z.of_nat n) m.
Proof.
  unfold fbytes. rewrite seq_app, fmap_app. f_equal. simpl.
  rewrite <-(Nat.add_0_r n) at 1. rewrite <-fmap_add_seq, <-list_fmap_compose.
  apply list_fmap_ext. intros j x _. simpl. f_equal. lia.
Qed.

(** A piece within one block. *)
Lemma fbytes_slice V i off m :
  0 ≤ off → 0 ≤ m → off mod 512 + m ≤ 512 → length (V (fblock V i (off / 512))) = 512%nat →
  slice (Z.to_nat (off mod 512)) (Z.to_nat m) (V (fblock V i (off / 512))) =
  fbytes V i off (Z.to_nat m).
Proof.
  intros Ho Hm Hle Hlen. pose proof (Z.mod_pos_bound off 512 ltac:(lia)) as Hmod.
  pose proof (Z.div_mod off 512 ltac:(lia)) as Hdm.
  apply list_eq. intros j. rewrite lookup_slice. case_decide as Hj.
  - unfold fbytes. rewrite list_lookup_fmap, lookup_seq_lt by done. simpl.
    assert ((off + Z.of_nat j) / 512 = off / 512) as Eq by (symmetry; apply (Z.div_unique_pos _ _ _ (off mod 512 + Z.of_nat j)); lia).
    assert ((off + Z.of_nat j) mod 512 = off mod 512 + Z.of_nat j) as Em by (symmetry; apply (Z.mod_unique_pos _ _ (off / 512)); lia).
    unfold fbyte. simpl. rewrite Eq, Em.
    rewrite Z2Nat.inj_add, Nat2Z.id by lia. apply list_lookup_lookup_total_lt. lia.
  - symmetry. apply lookup_ge_None_2. rewrite length_fbytes. lia.
Qed.

Section Read.
Context `{IdeSpec} `{Devsw}.
Set Default Proof Using "All".

(** Reading a block. *)
Lemma fetch_spec s V B D x :
  bio s V B D → readable s B x → (size (B ∪ D) < NBUF)%nat →
  wp (bread 1 x) (λ b s1, ∃ bf, ks_bufs s1 !! b = Some bf ∧ b_data bf = V x ∧
    storage_step s s1 ∧ ks_disk s1 = ks_disk s ∧ ks_wtrace s1 = ks_wtrace s ∧ bio s1 V ({[x]} ∪ B) D ∧
    owned (ks_bufs s1) b x ∧ keeps s s1 b ∧ (x ∈ D ∨ ks_disk s !! Z.to_nat x = Some (V x))) s.
Proof.
  intros Hs (Hx0 & Hx & Hlt & HB) Hsz. eapply wp_mono; [apply (bread_spec s V B D Hs x); try done|].
  { rewrite <-union_assoc_L. pose proof (size_union_alt ({[x]} : gset Z) (B ∪ D)) as E.
    rewrite size_singleton in E. pose proof (subseteq_size ((B ∪ D) ∖ {[x]}) (B ∪ D) ltac:(set_solver)). lia. }
  intros b s1 (St & Dk & Tr & Hs1 & Ho & Kp).
  destruct (owned_view _ _ _ _ _ (bio_cache _ _ _ _ Hs1) _ _ Ho) as (bf & [_ Hbf] & Hbd & _).
  exists bf. split_and!; try done. destruct (decide (x ∈ D)) as [|HD]; [by left|right].
  destruct (lookup_lt_is_Some_2 _ _ Hlt) as [d Hd]. rewrite Hd. f_equal. symmetry.
  eapply view_clean; [apply Hs|done..].
Qed.

(** Reading a block and giving it back. *)
Lemma peek_spec s V B D x :
  bio s V B D → readable s B x → (size (B ∪ D) < NBUF)%nat →
  wp (bread 1 x) (λ b s1, ∃ bf, ks_bufs s1 !! b = Some bf ∧ b_data bf = V x ∧
    storage_step s s1 ∧ bio s1 V ({[x]} ∪ B) D ∧ owned (ks_bufs s1) b x ∧
    wp (brelse b) (λ _ s', storage_step s s' ∧ ks_disk s' = ks_disk s ∧
      ks_wtrace s' = ks_wtrace s ∧ bio s' V B D ∧
      (∀ c y, owned (ks_bufs s) c y → owned (ks_bufs s') c y)) s1) s.
Proof.
  intros Hs Hr Hsz. eapply wp_mono; [by apply fetch_spec|].
  intros b s1 (bf & Hbf & Hbd & St & Dk & Tr & Hs1 & Ho & Kp & Hx).
  exists bf. split_and!; try done. eapply wp_mono; [apply (brelse_held _ _ _ _ b x Hs1 Ho); by rewrite Dk|].
  intros [] s2 (St2 & Dk2 & Tr2 & Hs2 & Hk). split_and!; [by etrans|congruence|congruence| |].
  - destruct Hr as (_ & _ & _ & HB). by replace (({[x]} ∪ B) ∖ {[x]}) with B in Hs2 by set_solver.
  - intros c y Hc. destruct (Kp _ _ Hc). auto.
Qed.

(** [bmap] of a block that is mapped finds it and changes nothing. *)
Lemma bmap_mapped s V B D ip i k :
  bio s V B D → ks_inodes s !! ip = Some i → i_dev i = 1 → (size (B ∪ D) < NBUF)%nat →
  mapped s V B i (k + 1) → 0 ≤ k →
  wp (bmap ip k) (λ r s', r = fblock V i k ∧ storage_step s s' ∧ ks_disk s' = ks_disk s ∧
    ks_wtrace s' = ks_wtrace s ∧ bio s' V B D ∧
    (∀ c y, owned (ks_bufs s) c y → owned (ks_bufs s') c y)) s.
Proof.
  intros Hs Hi Hdev Hsz (Hk & Hlen & Hblk & Hind) Hk0. unfold bmap.
  pose proof (Hblk k ltac:(lia)) as Ha. pose proof Ha as [Ha0 _]. unfold fblock in Ha0.
  destruct (Z.ltb_spec k NDIRECT) as [Hd|Hd].
  - unfold bmap_direct, get_addr. rewrite decide_True by lia. wp_steps.
    eapply wp_get_inode; [done|]. eapply wp_the; [by apply list_lookup_lookup_total_lt; lia|].
    rewrite (proj2 (Z.eqb_neq _ _) Ha0). wp_step. unfold fblock. by rewrite (proj2 (Z.ltb_lt _ _) Hd).
  - rewrite (proj2 (Z.ltb_lt (k - NDIRECT) NINDIRECT)) by lia.
    pose proof (Hind ltac:(lia)) as Hr11. pose proof Hr11 as [H11 _].
    unfold bmap_direct, get_addr. rewrite decide_True by lia. wp_steps.
    eapply wp_get_inode; [done|]. eapply wp_the; [by apply list_lookup_lookup_total_lt; lia|].
    rewrite (proj2 (Z.eqb_neq _ _) H11). wp_steps. eapply wp_get_inode; [done|]. rewrite Hdev.
    wp_call (peek_spec s V B D _ Hs Hr11 Hsz).
    intros b s1 (bf & Hbf & Hbd & St1 & _ & _ & Hrel). unfold bmap_entry. wp_steps.
    eapply wp_get_buf; [done|]. rewrite Hbd. rewrite (proj2 (Z.eqb_neq _ _) Ha0). wp_steps.
    eapply wp_mono; [exact Hrel|]. intros [] s2 Hpost. wp_step. split; [|done].
    unfold fblock. by rewrite (proj2 (Z.ltb_ge _ _)) by lia.
Qed.

Lemma readi_loop_spec fuel s V B D ip i off left acc :
  bio s V B D → ks_inodes s !! ip = Some i → i_dev i = 1 → (size (B ∪ D) < NBUF)%nat →
  mapped s V B i ((off + left + 511) / 512) → 0 ≤ off → 0 ≤ left →
  (0 < fuel)%nat → (0 < left → off mod 512 + left ≤ 512 * (Z.of_nat fuel - 1)) →
  wp (readi_loop ip off left acc fuel) (λ r s', r = acc ++ fbytes V i off (Z.to_nat left) ∧
    storage_step s s' ∧ ks_disk s' = ks_disk s ∧ ks_wtrace s' = ks_wtrace s ∧ bio s' V B D ∧
    (∀ c y, owned (ks_bufs s) c y → owned (ks_bufs s') c y)) s.
Proof.
  revert s off left acc. induction fuel as [|fuel IH]; intros s off left acc Hs Hi Hdev Hsz Hm Ho Hl Hf0 Hf;
    [lia|].
  cbn [readi_loop]. destruct (Z.ltb_spec 0 left) as [Hleft|Hleft]; cbn [negb].
  2: { wp_step. replace left with 0 by lia. by rewrite app_nil_r. }
  specialize (Hf Hleft). pose proof (Z.mod_pos_bound off 512 ltac:(lia)) as Hmod. pose proof (Z.div_mod off 512 ltac:(lia)) as Hdm.
  assert (0 ≤ off / 512 < (off + left + 511) / 512) as Hk.
  { split; [apply Z.div_pos; lia|]. apply (Z.lt_le_trans _ (off / 512 + 1)); [lia|]. apply Z.div_le_lower_bound; lia. }
  assert (mapped s V B i (off / 512 + 1)) as Hm'.
  { destruct Hm as (M1 & M2 & M3 & M4). split_and!; [lia|done|intros; apply M3; lia|intros; apply M4; lia]. }
  wp_call (bmap_mapped s V B D ip i (off / 512) Hs Hi Hdev Hsz Hm' ltac:(lia)).
  intros r s1 (-> & St1 & Dk1 & Tr1 & Hs1 & Ow1). set (x := fblock V i (off / 512)).
  wp_step. eapply wp_get_inode; [by rewrite (storage_inodes _ _ St1)|]. rewrite Hdev.
  assert (readable s B x) as Hr by (apply Hm'; lia).
  wp_call (peek_spec s1 V B D x Hs1); [by eapply readable_step; [rewrite Dk1|]|done|].
  intros b s2 (bf & Hbf & Hbd & St2 & _ & _ & Hrel). wp_step. eapply wp_get_buf; [done|].
  wp_step. eapply wp_mono; [exact Hrel|]. intros [] s3 (St3 & Dk3 & Tr3 & Hs3 & Ow3).
  set (m := chunk off left). assert (0 < m ≤ left ∧ off mod 512 + m ≤ 512) as [Hm0 Hm1] by (unfold m, chunk; lia).
  assert (length (V x) = 512%nat) as Hlen.
  { destruct Hr as (_ & ? & ? & _). eapply (view_ok _ _ _ _ _ (bio_cache _ _ _ _ Hs)); done. }
  rewrite Hbd. eapply wp_mono.
  { eapply (IH s3 (off + m) (left - m)); try done; try lia.
    - by rewrite (storage_inodes _ _ St3), (storage_inodes _ _ St1).
    - replace (off + m + (left - m) + 511) with (off + left + 511) by lia.
      destruct Hm as (M1 & M2 & M3 & M4). split_and!; [done|done|intros j Hj|intros Hj];
        (eapply readable_step; [by rewrite Dk3, Dk1|]); auto.
    - intros Hne. assert (m = 512 - off mod 512) as Em by (unfold m, chunk in *; lia).
      replace (off + m) with ((off / 512 + 1) * 512) by lia. rewrite Z.mod_mul by lia. lia. }
  intros r s4 (-> & St4 & Dk4 & Tr4 & Hs4 & Ow4). split_and!.
  - rewrite <-app_assoc. f_equal. unfold x. rewrite fbytes_slice by (done || lia).
    replace (Z.to_nat left) with (Z.to_nat m + Z.to_nat (left - m))%nat by lia.
    rewrite fbytes_app. do 2 f_equal. lia.
  - do 2 (etrans; [done|]). done.
  - congruence.
  - congruence.
  - done.
  - auto.
Qed.

(** [readi] of an ordinary file returns the bytes from [off] on, cut at the
    end of the file; it changes nothing but the buffer cache. *)
Lemma readi_spec s V B D ip i off n :
  bio s V B D → ks_inodes s !! ip = Some i → i_dev i = 1 → i_type i ≠ T_DEV →
  (size (B ∪ D) < NBUF)%nat → mapped s V B i ((i_size i + 511) / 512) →
  0 ≤ off ≤ i_size i → 0 ≤ n → off + n < 2 ^ 32 →
  wp (readi ip off n) (λ r s', r = (Z.min n (i_size i - off), fbytes V i off (Z.to_nat (Z.min n (i_size i - off)))) ∧
    storage_step s s' ∧ ks_disk s' = ks_disk s ∧ ks_wtrace s' = ks_wtrace s ∧ bio s' V B D ∧
    (∀ c y, owned (ks_bufs s) c y → owned (ks_bufs s') c y)) s.
Proof.
  intros Hs Hi Hdev Htype Hsz Hm Hoff Hn Hov. unfold readi. wp_step. eapply wp_get_inode; [done|].
  rewrite (proj2 (Z.eqb_neq _ _) Htype). rewrite u32_small by lia.
  rewrite (proj2 (Z.ltb_ge _ _)), (proj2 (Z.ltb_ge (off + n) off)) by lia. cbn [orb].
  set (m := if i_size i <? off + n then i_size i - off else n).
  assert (m = Z.min n (i_size i - off)) as Em by (unfold m; destruct (Z.ltb_spec (i_size i) (off + n)); lia).
  pose proof (Z.mod_pos_bound off 512 ltac:(lia)).
  pose proof (Z.div_pos m 512 ltac:(lia) ltac:(lia)). pose proof (Z.mul_succ_div_gt m 512 ltac:(lia)).
  wp_call (readi_loop_spec (Z.to_nat (m / BSIZE + 3)) s V B D ip i off m []); try done; try lia.
  { destruct Hm as (M1 & M2 & M3 & M4).
    assert ((off + m + 511) / 512 ≤ (i_size i + 511) / 512) by (apply Z.div_le_mono; lia).
    split_and!; [lia|done|intros; apply M3; lia|intros; apply M4; lia]. }
  intros r s' (-> & Hpost). wp_step. rewrite <-Em. done.
Qed.

(** A read that starts past the end of the file, or whose end does not fit in
    32 bits, fails. *)
Lemma readi_out_of_range s ip i off n :
  ks_inodes s !! ip = Some i → i_type i ≠ T_DEV → i_size i < off ∨ u32 (off + n) < off →
  readi ip off n s = Ok (-1, []) s.
Proof.
  intros Hi Htype Hbad. unfold readi, mbind, M_bind, get_inode. rewrite Hi.
  rewrite (proj2 (Z.eqb_neq _ _) Htype).
  destruct (Z.ltb_spec (i_size i) off), (Z.ltb_spec (u32 (off + n)) off); simpl; try done; lia.
Qed.

End Read.

(** ** Writing a file *)

(** The first [K] blocks of the file are home blocks, nobody holds them, and
    they and the block of addresses are all different. *)
Record file_ok (s : kstate) (V : Z → list Z) (B : gset Z) (i : inode) (K : Z) : Prop := {
  fo_K : 0 ≤ K ≤ NDIRECT + NINDIRECT;
  fo_len : length (i_addrs i) = 12%nat;
  fo_dev : i_dev i = 1;
  fo_block : ∀ k, 0 ≤ k < K → readable s B (fblock V i k) ∧ home (ks_log s) (length (ks_disk s)) (fblock V i k);
  fo_ind : NDIRECT < K → readable s B (i_addrs i !!! 11%nat) ∧
    home (ks_log s) (length (ks_disk s)) (i_addrs i !!! 11%nat);
  fo_inj : ∀ j k, 0 ≤ j < K → 0 ≤ k < K → fblock V i j = fblock V i k → j = k;
  fo_ne : NDIRECT < K → ∀ k, 0 ≤ k < K → fblock V i k ≠ i_addrs i !!! 11%nat;
}.

(** [V'] is [V] with [src] written to the file at [off]. *)
Record written (V V' : Z → list Z) (i : inode) (K off : Z) (src : list Z) : Prop := {
  wr_byte : ∀ j, 0 ≤ j < 512 * K → fbyte V' i j =
    if decide (off ≤ j < off + Z.of_nat (length src)) then src !!! Z.to_nat (j - off) else fbyte V i j;
  wr_block : ∀ k, 0 ≤ k < K → fblock V' i k = fblock V i k;
  wr_other : ∀ x, (∀ k, 0 ≤ k < K → x ≠ fblock V i k) → V' x = V x;
}.

Lemma carries_files s s' : carries s s' → ks_files s' = ks_files s.
Proof. intros ((_ & _ & St) & _). by rewrite (storage_files _ _ St). Qed.

Lemma carries_inodes s s' : carries s s' → ks_inodes s' = ks_inodes s.
Proof. intros ((_ & _ & St) & _). by rewrite (storage_inodes _ _ St). Qed.

Lemma carries_length s s' : carries s s' → length (ks_disk s') = length (ks_disk s).
Proof. by intros (_ & [E _] & _). Qed.

Lemma file_ok_carries s s' V V' B i K off src :
  carries s s' → written V V' i K off src → file_ok s V B i K → file_ok s' V' B i K.
Proof.
  intros C [W1 W2 W3] []. pose proof (carries_length _ _ C) as E. split; try done.
  - intros k Hk. rewrite W2 by done. destruct (fo_block0 k Hk).
    split; [by eapply readable_step|by eapply carries_home].
  - intros Hk. destruct (fo_ind0 Hk). split; [by eapply readable_step|by eapply carries_home].
  - intros j k Hj Hk. rewrite !W2 by done. auto.
  - intros Hd k Hk. rewrite W2 by done. auto.
Qed.

(** Writing within one block of the file. *)
Lemma written_block s V B i K off src :
  file_ok s V B i K → 0 ≤ off → off / 512 < K → off mod 512 + Z.of_nat (length src) ≤ 512 →
  let x := fblock V i (off / 512) in length (V x) = 512%nat →
  written V (<[x:=splice (Z.to_nat (off mod 512)) src (V x)]> V) i K off src.
Proof.
  intros Hf Ho HoK Hlen x Hx. set (V' := <[x:=_]> V).
  pose proof (Z.div_pos off 512 ltac:(lia) ltac:(lia)) as Hq.
  pose proof (Z.mod_pos_bound off 512 ltac:(lia)) as Hmod. pose proof (Z.div_mod off 512 ltac:(lia)) as Hdm.
  assert (Hblk : ∀ k, 0 ≤ k < K → fblock V' i k = fblock V i k).
  { intros k Hk. unfold fblock. destruct (Z.ltb_spec k NDIRECT); [done|].
    unfold V'. rewrite fn_lookup_insert_ne; [done|]. apply (fo_ne _ _ _ _ _ Hf); lia. }
  split; [|done|].
  - intros j Hj. pose proof (Z.div_mod j 512 ltac:(lia)) as Hjd.
    pose proof (Z.mod_pos_bound j 512 ltac:(lia)) as Hjm.
    assert (0 ≤ j / 512 < K) as Hjk by (split; [apply Z.div_pos; lia|apply Z.div_lt_upper_bound; lia]).
    unfold fbyte. rewrite Hblk by done. unfold V'.
    destruct (decide (j / 512 = off / 512)) as [Ej|Ej].
    + simpl. rewrite Ej. fold x. rewrite fn_lookup_insert.
      rewrite !list_lookup_total_alt, lookup_splice by lia. 
      repeat case_decide; try lia; do 2 f_equal; lia.
    + rewrite fn_lookup_insert_ne.
      * case_decide as Hin; [|done]. exfalso. apply Ej.
        apply (Z.div_unique_pos _ _ _ (off mod 512 + (j - off))); lia.
      * intros E. apply Ej. symmetry. by apply (fo_inj _ _ _ _ _ Hf).
  - intros y Hy. apply fn_lookup_insert_ne. intros E. apply (Hy (off / 512)); [lia|done].
Qed.

Section Write.
Context `{IdeSpec} `{Devsw}.
Set Default Proof Using "All".

Lemma txn_bmap s V B P L ip i K k n c :
  txn s V B P L → ks_inodes s !! ip = Some i → file_ok s V B i K → 0 ≤ k < K →
  room s B L n (S c) →
  wp (bmap ip k) (λ r s', r = fblock V i k ∧ carries s s' ∧ txn s' V B P L ∧ room s' B L n (S c)) s.
Proof.
  intros Hs Hi Hf Hk [R1 R2 R3]. destruct (tx_view _ _ _ _ _ Hs) as (V0 & Hb & HV).
  assert (∀ j, 0 ≤ j < K → fblock V0 i j = fblock V i j) as Hblk.
  { intros j Hj. unfold fblock. destruct (Z.ltb_spec j NDIRECT); [done|].
    rewrite HV; [done|]. apply (fo_ind _ _ _ _ _ Hf). lia. }
  eapply wp_mono.
  { apply (bmap_mapped s V0 B L ip i k); try done; [apply Hf|lia| |lia].
    split_and!; [destruct Hf; lia|apply Hf|intros j Hj|intros Hj].
    - rewrite Hblk by lia. apply Hf. lia.
    - apply Hf. lia. }
  intros r s' (-> & St & Dk & Tr & Hb' & Ho). pose proof (storage_log _ _ St) as Lg.
  split_and!; [by apply Hblk|by apply storage_carries| |split; by rewrite ?Lg].
  destruct Hs. split; rewrite ?Lg, ?Dk; try done. exists V0. by rewrite Lg, Dk.
Qed.

(** The number of blocks a transfer of [left] bytes at [off] touches. *)
Definition nblocks (off left : Z) : Z := (off mod 512 + left + 511) / 512.

Lemma nblocks_step off left :
  0 ≤ off → 0 < left → let m := chunk off left in
  1 ≤ nblocks off left ∧ (0 < left - m → nblocks off left = 1 + nblocks (off + m) (left - m)).
Proof.
  intros Ho Hl m. pose proof (Z.mod_pos_bound off 512 ltac:(lia)) as Hmod.
  pose proof (Z.div_mod off 512 ltac:(lia)) as Hdm. unfold nblocks. split.
  - apply Z.div_le_lower_bound; lia.
  - intros Hm. assert (m = 512 - off mod 512) as Em by (unfold m, chunk in *; lia).
    replace (off + m) with ((off / 512 + 1) * 512) by lia.
    rewrite Z.mod_mul by lia. rewrite <-Z.div_add_l by lia. f_equal. lia.
Qed.

End Write.

(** ** The on-disk format of an inode *)

Section Format.
Implicit Types (d : list Z) (o : nat) (ip : inode).

Lemma length_put_addrs o l d : length (put_addrs o l d) = length d.
Proof. revert o d. induction l; intros o d; simpl; [done|]. rewrite IHl. apply length_put_le. Qed.

Lemma put_addrs_ne m off o l d :
  (o + 4 * length l ≤ length d)%nat → (off + m ≤ o ∨ o + 4 * length l ≤ off)%nat →
  get_le m off (put_addrs o l d) = get_le m off d.
Proof.
  revert o d. induction l as [|a l IH]; intros o d Hl Hd; simpl in *; [done|].
  rewrite IH by (unfold put32; rewrite ?length_put_le; lia).
  apply get_put_le_ne; lia.
Qed.

Lemma put_addrs_eq o l d k a :
  (o + 4 * length l ≤ length d)%nat → l !! k = Some a →
  get32 (o + 4 * k) (put_addrs o l d) = u32 a.
Proof.
  revert o d k. induction l as [|b l IH]; intros o d k Hl Hk; cbn [put_addrs length] in *; [done|].
  destruct k as [|k]; simpl in Hk.
  - injection Hk as ->. replace (o + 4 * 0)%nat with o by lia. unfold get32.
    rewrite put_addrs_ne by (unfold put32; rewrite ?length_put_le; lia).
    apply get_put32_eq. lia.
  - replace (o + 4 * S k)%nat with (o + 4 + 4 * k)%nat by lia.
    apply IH; [unfold put32; rewrite ?length_put_le; lia|done].
Qed.

Lemma put_addrs_ok o l d : bytes_ok d → bytes_ok (put_addrs o l d).
Proof. revert o d. induction l; intros o d Hd; simpl; [done|]. by apply IHl, bytes_ok_put_le. Qed.

Lemma put_dinode_ok o ip d : block_ok d → block_ok (put_dinode o ip d).
Proof.
  intros [Hl Hb]. unfold put_dinode, put16, put32. split.
  - by rewrite length_put_addrs, !length_put_le.
  - apply put_addrs_ok. by repeat apply bytes_ok_put_le.
Qed.

(** The fields have the widths of the C structure. *)
Record inode_wf ip : Prop := {
  iw_type : - 2 ^ 15 ≤ i_type ip < 2 ^ 15;
  iw_major : - 2 ^ 15 ≤ i_major ip < 2 ^ 15;
  iw_minor : - 2 ^ 15 ≤ i_minor ip < 2 ^ 15;
  iw_nlink : - 2 ^ 15 ≤ i_nlink ip < 2 ^ 15;
  iw_size : 0 ≤ i_size ip < 2 ^ 32;
  iw_len : length (i_addrs ip) = 12%nat;
  iw_addrs : Forall (λ a, 0 ≤ a < 2 ^ 32) (i_addrs ip);
}.

Lemma s16_mod v : - 2 ^ 15 ≤ v < 2 ^ 15 → s16 (v mod 2 ^ 16) = v.
Proof.
  intros Hv. transitivity (s16 v); [|by apply s16_small].
  unfold s16, signed. by rewrite Z.mod_mod by lia.
Qed.

Lemma get_put_dinode o ip d :
  length d = 512%nat → (o + 64 ≤ 512)%nat → inode_wf ip →
  get_dinode o (put_dinode o ip d) =
  mk_dinode (i_type ip) (i_major ip) (i_minor ip) (i_nlink ip) (i_size ip) (i_addrs ip).
Proof.
  intros Hd Ho []. unfold get_dinode, put_dinode. f_equal.
  1-4: unfold get16; rewrite put_addrs_ne by (unfold put16, put32; rewrite ?length_put_le; lia);
    unfold put16, put32; rewrite ?get_put_le_ne, get_put_le_eq by (rewrite ?length_put_le; lia);
    by apply s16_mod.
  - unfold get32. rewrite put_addrs_ne by (unfold put16, put32; rewrite ?length_put_le; lia).
    unfold put16, put32. rewrite get_put_le_eq by (rewrite ?length_put_le; lia). by apply Z.mod_small.
  - apply list_eq. intros k. destruct (i_addrs ip !! k) as [a|] eqn:Ha.
    + pose proof (lookup_lt_Some _ _ _ Ha). rewrite list_lookup_fmap, lookup_seq_lt by lia.
      cbn [fmap option_fmap option_map]. f_equal. simpl Nat.add.
      rewrite (put_addrs_eq _ _ _ k a); [|unfold put16, put32; rewrite ?length_put_le; lia|done].
      apply u32_small. by eapply Forall_lookup_1 in iw_addrs0.
    + apply lookup_ge_None_1 in Ha. apply lookup_ge_None_2. rewrite length_fmap, length_seq. lia.
Qed.

Lemma get_put_dinode_ne o o' ip d :
  length d = 512%nat → (o + 64 ≤ 512)%nat → length (i_addrs ip) = 12%nat →
  (o' + 64 ≤ o ∨ o + 64 ≤ o')%nat → get_dinode o' (put_dinode o ip d) = get_dinode o' d.
Proof.
  intros Hd Ho Hl Hne. unfold get_dinode, put_dinode.
  assert (∀ m off, (o' ≤ off)%nat → (off + m ≤ o' + 64)%nat →
    get_le m off (put_addrs (o + 12) (i_addrs ip) (put32 (o + 8) (i_size ip)
      (put16 (o + 6) (i_nlink ip) (put16 (o + 4) (i_minor ip) (put16 (o + 2) (i_major ip)
        (put16 o (i_type ip) d)))))) = get_le m off d) as E.
  { intros m off H1 H2. rewrite put_addrs_ne by (unfold put16, put32; rewrite ?length_put_le; lia).
    unfold put16, put32. by rewrite !get_put_le_ne by (rewrite ?length_put_le; lia). }
  unfold get16, get32. f_equal; try (rewrite E by lia; done).
  apply list_fmap_ext. intros k x [-> ?]%lookup_seq. by rewrite E by lia.
Qed.

End Format.

(** The disk inode number [inum] of the disk [V]. *)
Definition dinode_at (V : Z → list Z) (inum : Z) : dinode := get_dinode (ioff inum) (V (IBLOCK inum)).

Lemma ioff_bound inum : (ioff inum + 64 ≤ 512)%nat.
Proof. unfold ioff. pose proof (Z.mod_pos_bound inum 8 ltac:(lia)). simpl. lia. Qed.

(** Writing back an inode leaves the others of its block alone. *)
Lemma dinode_at_other V inum ip n :
  length (V (IBLOCK inum)) = 512%nat → length (i_addrs ip) = 12%nat → 0 ≤ inum < 2 ^ 32 → 0 ≤ n < 2 ^ 32 → n ≠ inum →
  dinode_at (<[IBLOCK inum:=put_dinode (ioff inum) ip (V (IBLOCK inum))]> V) n = dinode_at V n.
Proof.
  intros Hl Ha Hi Hi' E. unfold dinode_at. pose proof (ioff_bound inum).
  destruct (decide (IBLOCK inum = IBLOCK n)) as [Eb|]; [|by rewrite fn_lookup_insert_ne].
  rewrite <-Eb, fn_lookup_insert. apply get_put_dinode_ne; try done.
  assert (∀ x, 0 ≤ x < 2 ^ 32 → IBLOCK x = x / 8 + 2) as HB.
  { intros x Hx. unfold IBLOCK. simpl. pose proof (Z.div_pos x 8 ltac:(lia) ltac:(lia)).
    pose proof (Z.div_lt_upper_bound x 8 (2 ^ 29) ltac:(lia) ltac:(lia)). apply u32_small. lia. }
  rewrite !HB in Eb by done. unfold ioff. simpl.
  pose proof (Z.div_mod inum 8 ltac:(lia)). pose proof (Z.div_mod n 8 ltac:(lia)).
  pose proof (Z.mod_pos_bound inum 8 ltac:(lia)). pose proof (Z.mod_pos_bound n 8 ltac:(lia)). lia.
Qed.

(** A change outside the file's blocks. *)
Lemma fblock_outside V i K x d k :
  (NDIRECT < K → i_addrs i !!! 11%nat ≠ x) → 0 ≤ k < K → fblock (<[x:=d]> V) i k = fblock V i k.
Proof.
  intros H11 Hk. unfold fblock. destruct (Z.ltb_spec k NDIRECT); [done|].
  rewrite fn_lookup_insert_ne; [done|]. intros E. apply H11; [lia|done].
Qed.

Lemma fbyte_outside V i K x d j :
  (NDIRECT < K → i_addrs i !!! 11%nat ≠ x) → (∀ k, 0 ≤ k < K → fblock V i k ≠ x) →
  0 ≤ j < 512 * K → fbyte (<[x:=d]> V) i j = fbyte V i j.
Proof.
  intros H11 Hb Hj. assert (0 ≤ j / 512 < K) as Hk by (split; [apply Z.div_pos; lia|apply Z.div_lt_upper_bound; lia]).
  unfold fbyte. rewrite (fblock_outside V i K) by done. rewrite fn_lookup_insert_ne; [done|].
  intros E. by apply (Hb (j / 512)).
Qed.

Section Update.
Context `{IdeSpec} `{Devsw}.
Set Default Proof Using "All".

Lemma iupdate_spec s V B P L ip i n c :
  txn s V B P L → ks_inodes s !! ip = Some i → i_dev i = 1 →
  home (ks_log s) (length (ks_disk s)) (IBLOCK (i_inum i)) → IBLOCK (i_inum i) ∉ B →
  room s B L (n + 1) (S c) → 0 ≤ n →
  let x := IBLOCK (i_inum i) in
  wp (iupdate ip) (λ _ s', carries s s' ∧
    txn s' (<[x:=put_dinode (ioff (i_inum i)) i (V x)]> V) B P ({[x]} ∪ L) ∧
    room s' B ({[x]} ∪ L) n c) s.
Proof.
  intros Hs Hi Hdev Hx HxB Hr Hn x. unfold iupdate. wp_step. eapply wp_get_inode; [done|]. rewrite Hdev.
  wp_call (get_block s V B P L x _ c Hs Hx HxB Hr).
  intros b s1 (C1 & Dk1 & Hs1 & Ho1 & Hr1 & Hne1). wp_step.
  eapply wp_get_inode; [by rewrite (carries_inodes _ _ C1)|].
  eapply wp_mono.
  { apply (update_block (put_dinode (ioff (i_inum i)) i) s1 V B P L b x n c); try done.
    - apply put_dinode_ok. by apply (txn_block_ok _ _ _ _ _ Hs).
    - by apply (tx_P _ _ _ _ _ Hs). }
  intros [] s2 (R2 & Hs2 & Hr2). split_and!; [|done..]. by eapply releases_carries.
Qed.

End Update.

(** ** What the file system promises of a file's contents *)

(** Views that agree on the home locations agree on the file. *)
Lemma file_view s V V0 B i K : file_ok s V B i K → (∀ x, home (ks_log s) (length (ks_disk s)) x → V0 x = V x) →
  (∀ k, 0 ≤ k < K → fblock V0 i k = fblock V i k) ∧ ∀ j, 0 ≤ j < 512 * K → fbyte V0 i j = fbyte V i j.
Proof.
  intros Hf HV. assert (Hblk : ∀ k, 0 ≤ k < K → fblock V0 i k = fblock V i k).
  { intros k Hk. unfold fblock. destruct (Z.ltb_spec k NDIRECT); [done|].
    rewrite HV; [done|]. apply (fo_ind _ _ _ _ _ Hf). lia. }
  split; [done|]. intros j Hj. assert (0 ≤ j / 512 < K) as Hk by (split; [apply Z.div_pos; lia|apply Z.div_lt_upper_bound; lia]).
  unfold fbyte. rewrite Hblk by done. rewrite HV; [done|]. by apply Hf.
Qed.

(** Reading in terms of the transaction's view. *)
Lemma view_readi `{IdeSpec} `{Devsw} s V B L ip i K off n :
  view s V B L → ks_inodes s !! ip = Some i → i_type i ≠ T_DEV → file_ok s V B i K →
  i_size i ≤ 512 * K → (size (B ∪ L) < NBUF)%nat →
  0 ≤ off ≤ i_size i → 0 ≤ n → off + n < 2 ^ 32 →
  let m := Z.min n (i_size i - off) in
  wp (readi ip off n) (λ r s', r = (m, fbytes V i off (Z.to_nat m)) ∧ storage_step s s' ∧ ks_disk s' = ks_disk s ∧ view s' V B L) s.
Proof.
  intros Hs Hi Htype Hf Hsz Hroom Hoff Hn Hov m.
  destruct Hs as (V0 & Hb & HV).
  destruct (file_view s V V0 B i K Hf HV) as [Hblk Hbyte].
  assert ((i_size i + 511) / 512 ≤ K) as HK by (apply Z.lt_succ_r, Z.div_lt_upper_bound; lia).
  eapply wp_mono.
  { apply (readi_spec s V0 B L ip i off n); try done; [apply Hf|].
    split_and!; [destruct Hf; lia|apply Hf|intros j Hj|intros Hj].
    - rewrite Hblk by lia. apply Hf. lia.
    - apply Hf. lia. }
  intros r s' (-> & St & Dk & Tr & Hb' & Ho). pose proof (storage_log _ _ St) as Lg. fold m. split_and!; [|done|done|].
  - f_equal. apply list_fmap_ext. intros j x [-> Hj]%lookup_seq. apply Hbyte. lia.
  - exists V0. by rewrite Lg, Dk.
Qed.

Lemma txn_readi `{IdeSpec} `{Devsw} s V B P L ip i K off n :
  txn s V B P L → ks_inodes s !! ip = Some i → i_type i ≠ T_DEV → file_ok s V B i K →
  i_size i ≤ 512 * K → (size (B ∪ L) < NBUF)%nat →
  0 ≤ off ≤ i_size i → 0 ≤ n → off + n < 2 ^ 32 →
  let m := Z.min n (i_size i - off) in
  wp (readi ip off n) (λ r s', r = (m, fbytes V i off (Z.to_nat m)) ∧ txn s' V B P L) s.
Proof.
  intros Hs Hi Htype Hf Hsz Hroom Hoff Hn Hov m.
  eapply wp_mono; [by apply (view_readi s V B L ip i K off n (tx_view _ _ _ _ _ Hs))|].
  intros r s' (-> & St & Dk & Hv). pose proof (storage_log _ _ St) as Lg. split; [done|]. destruct Hs. split; rewrite ?Lg, ?Dk; done.
Qed.

Module InodeExample.
Import Memide Crash.Example.

(** A kernel without devices. *)
#[export] Instance no_device : Devsw := {|
  devread _ _ := mret (-1, []);
  devwrite _ _ _ := mret (-1);
|}.

(** A file of three bytes in sector 7. *)
Definition ino : inode := mk_inode 1 1 1 3 2 0 0 1 3 (7 :: replicate 11 0).

Lemma txn_set_inodes s l V B P L : txn s V B P L → txn (set_inodes l s) V B P L.
Proof. intros [(V0 & [] & ?)]. split; try done. exists V0. by split; [split|]. Qed.

End InodeExample.
