(* ===== verification/Grow.v ===== *)
(** * Grow: writing a file that needs new blocks (fs.c)

    [bmap] allocates the blocks a file does not have, so that [writei] can
    extend a file.  The log blocks of a transaction are counted by the set of
    the blocks it touches: writing a block again costs nothing. *)

From S2P Require Import Prelude Bytes CString Kernel Sched Ide Bio Log Crash Block Inode.

#[local] Arguments replicate : simpl never.

Abbreviation nblk V := (sb_size (sb_of (V 1))).

(** The places on disk stay, and so does the table of open files. *)
Definition placed (s s' : kstate) : Prop :=
  same_area (ks_log s) (ks_log s') ∧ length (ks_disk s') = length (ks_disk s) ∧ ks_files s' = ks_files s.

#[export] Instance placed_preorder : PreOrder placed.
Proof.
  split; [by intros s|]. intros s1 s2 s3 ((A1 & A2 & A3) & B & C) ((D1 & D2 & D3) & E & F).
  split_and!; [split_and!; congruence|congruence..].
Qed.

Lemma carries_placed s s' : carries s s' → placed s s'.
Proof. intros C. split_and!; [apply C|by apply carries_length|by apply carries_files]. Qed.

Lemma placed_home s s' x :
  placed s s' → home (ks_log s) (length (ks_disk s)) x → home (ks_log s') (length (ks_disk s')) x.
Proof. intros (A & L & _) Hx. rewrite L. by apply (home_area (ks_log s)). Qed.

Lemma placed_readable s s' x : placed s s' → readable s ∅ x → readable s' ∅ x.
Proof. intros (_ & L & _). by apply readable_step. Qed.

Lemma placed_layout s s' V : placed s s' → layout s V → layout s' V.
Proof. intros C []. split; eauto using placed_home. Qed.

(** ** Free blocks *)

(** The bitmap marks the superblock, itself and everything that is no home block
    as used, and everything below block [c], where a block of the bitmap
    begins. *)
Record alloc_ok (s : kstate) (V : Z → list Z) (c : Z) : Prop := {
  al_layout : layout s V;
  al_low : 1 < nblk V ∧ used V 0 = true ∧ used V 1 = true;
  al_map : ∀ j, 0 ≤ j < nblk V → 0 ≤ map_block V j < nblk V ∧ used V (map_block V j) = true;
  al_home : ∀ b, 0 ≤ b < nblk V → used V b = false → home (ks_log s) (length (ks_disk s)) b;
  al_base : 0 ≤ c < nblk V ∧ c mod 4096 = 0;
  al_full : ∀ b, 0 ≤ b < c → used V b = true;
}.

(** At least [n] blocks are free under the block of the bitmap that begins at [c]. *)
Definition free (V : Z → list Z) (c : Z) (n : nat) : Prop :=
  ∃ F : gset Z, (n ≤ size F)%nat ∧ ∀ b, b ∈ F → c ≤ b < c + 4096 ∧ b < nblk V ∧ used V b = false.

Lemma free_mono V c n m : free V c n → (m ≤ n)%nat → free V c m.
Proof. intros (F & Hn & HF) Hm. exists F. split; [lia|done]. Qed.

Lemma least_unused V (n : nat) : used V (Z.of_nat n) = false →
  ∃ y, 0 ≤ y ≤ Z.of_nat n ∧ used V y = false ∧ ∀ j, 0 ≤ j < y → used V j = true.
Proof.
  induction (lt_wf n) as [n _ IH]. intros Hn.
  destruct (decide (Exists (λ j : nat, used V (Z.of_nat j) = false) (seq 0 n))) as [Hex|Hall].
  - apply Exists_exists in Hex as (j & Hj%elem_of_seq & Hu). destruct (IH j ltac:(lia) Hu) as (y & Hy & ?).
    exists y. split; [lia|done].
  - exists (Z.of_nat n). split_and!; [lia|lia|done|]. intros j Hj. apply not_false_is_true. intros Hu. apply Hall.
    apply Exists_exists. exists (Z.to_nat j). rewrite Z2Nat.id by lia. split; [|done]. apply elem_of_seq. lia.
Qed.

Section Marks.
Context (s : kstate) (V : Z → list Z) (c : Z) (Ha : alloc_ok s V c).
#[local] Set Default Proof Using "All".

(** The block [balloc] takes. *)
Lemma first_free n : free V c (S n) →
  ∃ y, c ≤ y < c + 4096 ∧ 1 < y < nblk V ∧ used V y = false ∧ (∀ j, 0 ≤ j < y → used V j = true) ∧
    (∀ j, 0 ≤ j < nblk V → y ≠ map_block V j).
Proof.
  destruct Ha as [Hly (Hn1 & H0 & H1) Hm Hh [Hb Hmod] Hf]. intros (F & Hn & HF).
  destruct (set_choose_L F) as [b Hbf]; [intros ->; rewrite size_empty in Hn; lia|].
  destruct (HF b Hbf) as (Hbc & Hbs & Hu).
  destruct (least_unused V (Z.to_nat b)) as (y & Hy & Huy & Hlow); [by rewrite Z2Nat.id by lia|].
  rewrite Z2Nat.id in Hy by lia. exists y. assert (c ≤ y).
  { destruct (Z.le_gt_cases c y); [done|]. rewrite Hf in Huy by lia. done. }
  assert (y ≠ 0 ∧ y ≠ 1) by (split; intros ->; congruence).
  split_and!; try lia; try done. intros j Hj ->. destruct (Hm j Hj). congruence.
Qed.

Lemma map_base b : c ≤ b < c + 4096 → map_block V b = map_block V c.
Proof. intros Hb. destruct (al_base _ _ _ Ha). by destruct (map_block_base V c b); [lia|..]. Qed.

(** A view in which the superblock is the same, and the marks are those of [V] but
    for some blocks that were free. *)
Lemma alloc_ok_marks s' V' :
  placed s s' → V' 1 = V 1 → (∀ b, 0 ≤ b < nblk V → used V b = true → used V' b = true) → alloc_ok s' V' c.
Proof.
  intros C E Hu. destruct Ha as [Hly (Hn1 & H0 & H1) Hm Hh Hb Hf].
  assert (∀ b, map_block V' b = map_block V b) as Em by (intros b; unfold map_block; by rewrite E).
  destruct (placed_layout _ _ _ C Hly) as [L1 L2 L3]. split; rewrite ?E; try done.
  - split; rewrite ?E; try done. intros b. rewrite Em. auto.
  - split_and!; [done|by apply Hu; [lia|]..].
  - intros j Hj. rewrite Em. destruct (Hm j Hj). auto.
  - intros b Hb' Hu'. eapply placed_home; [done|]. apply Hh; [done|]. apply not_true_is_false. intros Hu2.
    by rewrite (Hu b Hb' Hu2) in Hu'.
  - intros b Hb'. apply Hu; [lia|]. by apply Hf.
Qed.

End Marks.

(** A change of a block that is neither the superblock nor of the bitmap. *)
Lemma plain_used V x d b : x ≠ 1 → x ≠ map_block V b → used (<[x:=d]> V) b = used V b.
Proof. intros Hx Hm. unfold used, map_block. rewrite (fn_lookup_insert_ne V x 1) by done. by rewrite fn_lookup_insert_ne. Qed.

Lemma plain_alloc s s' V c x d :
  alloc_ok s V c → placed s s' → x ≠ 1 → (∀ b, 0 ≤ b < nblk V → x ≠ map_block V b) → alloc_ok s' (<[x:=d]> V) c.
Proof.
  intros Ha C Hx Hm. eapply alloc_ok_marks; [done..|by apply fn_lookup_insert_ne|].
  intros b Hb. rewrite plain_used by auto. done.
Qed.

Lemma plain_free V c x d n :
  x ≠ 1 → (∀ b, 0 ≤ b < nblk V → x ≠ map_block V b) → 0 ≤ c → free V c n → free (<[x:=d]> V) c n.
Proof.
  intros Hx Hm Hc (F & Hn & HF). exists F. split; [done|]. intros b Hb. destruct (HF b Hb) as (H1 & H2 & H3).
  rewrite fn_lookup_insert_ne by done. rewrite plain_used by (try apply Hm; lia || done). done.
Qed.

(** ** Counting the blocks of a transaction *)

(** The transaction holds and has logged blocks of [T] only, and may touch [n]
    more.  There are at most 8 in all, which fit into a log of 10 blocks and
    leave room in the cache. *)
Record quota (s : kstate) (B L T : gset Z) (n : nat) : Prop := {
  qt_log : 10 ≤ l_size (ks_log s);
  qt_sub : B ∪ L ⊆ T;
  qt_size : (size T + n ≤ 8)%nat;
}.

Lemma quota_room s V B P L T n : txn s V B P L → quota s B L T n → room s B L (1 + Z.min 1 (Z.of_nat n)) (1 + Nat.min 1 n).
Proof.
  intros Hs [Hl Hsub Hsz]. pose proof (txn_size _ _ _ _ _ Hs) as E. cbn zeta in E.
  pose proof (subseteq_size L T ltac:(set_solver)). pose proof (subseteq_size (B ∪ L) T Hsub).
  destruct (tx_ok _ _ _ _ _ Hs). split; lia.
Qed.

Lemma size_add (x : Z) (T : gset Z) : (size ({[x]} ∪ T) ≤ S (size T))%nat.
Proof.
  pose proof (size_union_alt ({[x]} : gset Z) T) as E. rewrite size_singleton in E.
  pose proof (subseteq_size (T ∖ {[x]}) T ltac:(set_solver)). lia.
Qed.

Lemma quota_step s s' B B' L L' T T' n n' x :
  quota s B L T n → l_size (ks_log s') = l_size (ks_log s) → B' ∪ L' ⊆ T' →
  (T' ⊆ T ∧ (n' ≤ n)%nat) ∨ (T' ⊆ {[x]} ∪ T ∧ (n' < n)%nat) → quota s' B' L' T' n'.
Proof.
  intros [Hl _ Hsz] E Hsub HT. pose proof (size_add x T). split; [lia|done|].
  destruct HT as [[HT Hn]|[HT Hn]]; pose proof (subseteq_size _ _ HT); lia.
Qed.

Lemma carries_size s s' : carries s s' → l_size (ks_log s') = l_size (ks_log s).
Proof. by intros (((_ & E & _) & _) & _). Qed.

(** ** Allocating *)

Section Alloc.
Context `{IdeSpec}.
#[local] Set Default Proof Using "All".

(** [balloc] in terms of the marks: the block [y] was free, and was not of the
    bitmap; nothing but it and the bitmap changed. *)
Record allocated (V : Z → list Z) (c : Z) (y : Z) (s' : kstate) (V' : Z → list Z) : Prop := {
  ad_range : 1 < y < nblk V;
  ad_free : used V y = false;
  ad_home : home (ks_log s') (length (ks_disk s')) y;
  ad_zero : V' y = replicate 512 0;
  ad_sb : V' 1 = V 1;
  ad_used : ∀ b, 0 ≤ b < nblk V → used V' b = bool_decide (b = y) || used V b;
  ad_other : ∀ x, x ≠ y → x ≠ map_block V c → V' x = V x;
  ad_ok : alloc_ok s' V' c;
}.

Lemma allocated_free V c y s' V' n : 0 ≤ c → allocated V c y s' V' → free V c (S n) → free V' c n.
Proof.
  intros Hc [] (F & Hn & HF). exists (F ∖ {[y]}). split.
  - rewrite size_difference_alt. pose proof (subseteq_size (F ∩ {[y]}) {[y]} ltac:(set_solver)) as Hs.
    rewrite size_singleton in Hs. lia.
  - intros b Hb. destruct (HF b ltac:(set_solver)) as (H1 & H2 & H3). rewrite ad_sb0, ad_used0 by lia.
    rewrite bool_decide_false by set_solver. done.
Qed.

Lemma balloc_grow s V B P L T n N c :
  txn s V B P L → alloc_ok s V c → quota s B L T (S n) → map_block V c ∈ T → free V c (S N) →
  (∀ b, b ∈ B → 0 ≤ b < nblk V ∧ used V b = true ∧ b ≠ 1 ∧ ∀ j, 0 ≤ j < nblk V → b ≠ map_block V j) →
  wp (balloc 1) (λ y s', carries s s' ∧ ∃ V' L', txn s' V' B P L' ∧ quota s' B L' ({[y]} ∪ T) n ∧
    allocated V c y s' V') s.
Proof.
  intros Hs Ha Hq HT Hf HB. destruct (first_free s V c Ha N Hf) as (y & Hyc & Hy & Hu & Hlow & Hym).
  pose proof (map_base s V c Ha y Hyc) as Em. pose proof (quota_room _ _ _ _ _ _ _ Hs Hq) as Hr.
  pose proof (al_layout _ _ _ Ha) as Hly. pose proof (ly_size _ _ Hly) as Hsz.
  eapply wp_mono.
  { apply (balloc_spec y s V B P L 0 0 Hs Hly); try done; try lia.
    - intros H1. by destruct (HB _ H1) as (_ & _ & ? & _).
    - intros j Hj Hin. destruct (HB _ Hin) as (_ & _ & _ & Hne). apply (Hne j); [lia|done].
    - apply (al_home _ _ _ Ha); [lia|done].
    - intros Hin. destruct (HB _ Hin) as (_ & ? & _). congruence.
    - eapply room_mono; [exact Hr|lia|lia]. }
  intros r s' (-> & C & Hs' & _). split; [done|]. rewrite Em in Hs'. eexists _, _. split; [exact Hs'|]. split.
  - eapply (quota_step s s' B B L _ T _ (S n) n y Hq); [by apply carries_size| |right; split; [done|lia]].
    pose proof (qt_sub _ _ _ _ _ Hq). set_solver.
  - pose proof (al_base _ _ _ Ha) as [Hc _].
    assert (∀ x, home (ks_log s) (length (ks_disk s)) x → block_ok (V x)) as Hok by (intros; by eapply txn_block_ok).
    assert (block_ok (V 1)) as Hok1 by apply Hok, Hly.
    assert (map_block V c ≠ 1) as Hmc by (apply map_block_ne1; [lia|done]).
    assert (alloc_view y V 1 = V 1) as E1 by (unfold alloc_view; rewrite Em, !fn_lookup_insert_ne by lia; done).
    assert (∀ b, 0 ≤ b < nblk V → used (alloc_view y V) b = bool_decide (b = y) || used V b) as Eu.
    { intros b Hb. apply used_alloc; try done; try lia; [|by apply Hym]. rewrite Em. by apply Hok, Hly. }
    split; try done.
    + eapply carries_home; [done|]. apply (al_home _ _ _ Ha); [lia|done].
    + apply fn_lookup_insert.
    + intros x Hxy Hxm. unfold alloc_view. by rewrite Em, !fn_lookup_insert_ne by done.
    + eapply alloc_ok_marks; [done|by apply carries_placed|done|]. intros b Hb Hb1. rewrite Eu, Hb1 by done. by rewrite orb_true_r.
Qed.

End Alloc.

(** ** Files that grow *)

(** A block in use that is neither the superblock nor of the bitmap. *)
Definition marked (V : Z → list Z) (x : Z) : Prop :=
  0 ≤ x < nblk V ∧ used V x = true ∧ x ≠ 1 ∧ ∀ j, 0 ≤ j < nblk V → x ≠ map_block V j.

Lemma marked_mono V V' x : V' 1 = V 1 → (∀ b, 0 ≤ b < nblk V → used V b = true → used V' b = true) →
  marked V x → marked V' x.
Proof.
  intros E Hu (H1 & H2 & H3 & H4). unfold marked, map_block. rewrite E. split_and!; try done; [apply H1..|by apply Hu].
Qed.

(** The blocks of a file: [K] blocks of data, and the block of addresses. *)
Definition fblocks (V : Z → list Z) (i : inode) (K x : Z) : Prop :=
  (∃ k, 0 ≤ k < K ∧ x = fblock V i k) ∨ (x ≠ 0 ∧ x = i_addrs i !!! 11%nat).

(** The file of the inode [i] has [K] blocks and no more. *)
Record growing (s : kstate) (V : Z → list Z) (c : Z) (i : inode) (K : Z) : Prop := {
  gw_file : file_ok s V ∅ i K;
  gw_alloc : alloc_ok s V c;
  gw_marked : ∀ x, fblocks V i K x → marked V x ∧ x ≠ IBLOCK (i_inum i);
  gw_inode : home (ks_log s) (length (ks_disk s)) (IBLOCK (i_inum i)) ∧ marked V (IBLOCK (i_inum i));
  gw_direct : ∀ k, K ≤ k < NDIRECT → i_addrs i !!! Z.to_nat k = 0;
  gw_ind : i_addrs i !!! 11%nat ≠ 0 → home (ks_log s) (length (ks_disk s)) (i_addrs i !!! 11%nat) ∧
    (∀ k, 0 ≤ k < K → fblock V i k ≠ i_addrs i !!! 11%nat) ∧
    ∀ k, Z.max K NDIRECT ≤ k < NDIRECT + NINDIRECT → fblock V i k = 0;
}.

Lemma growing_placed s s' V c i K : placed s s' → growing s V c i K → growing s' V c i K.
Proof.
  intros Pl [[F1 F2 F3 F4 F5 F6 F7] G2 G3 [G4 G4'] G5 G6]. split; try done.
  - split; try done; [intros k Hk; destruct (F4 k Hk)|intros Hk; destruct (F5 Hk)]; eauto using placed_readable, placed_home.
  - by eapply alloc_ok_marks.
  - split; [by eapply placed_home|done].
  - intros Ha. destruct (G6 Ha) as (? & ? & ?). split_and!; try done. by eapply placed_home.
Qed.

(** From [V] and [i] to [V'] and [i'], the file was extended to [K'] blocks, with
    [src] written at [off]; what is new and not written is zero.  Blocks in use
    that are not the file's are as they were, but for the bitmap and, if [u], the
    block of the inode: then the inode, whose size may be new, was written back. *)
Record grown (u : bool) (V : Z → list Z) (c : Z) (i : inode) (K : Z) (V' : Z → list Z) (i' : inode) (K' off : Z) (src : list Z) : Prop := {
  gn_K : K ≤ K';
  gn_inode : i' = with_i_size (i_size i') (with_i_addrs (i_addrs i') i);
  gn_size : u = false → i_size i' = i_size i;
  gn_block : ∀ k, 0 ≤ k < K → fblock V' i' k = fblock V i k;
  gn_ind : i_addrs i !!! 11%nat ≠ 0 → i_addrs i' !!! 11%nat = i_addrs i !!! 11%nat;
  gn_sb : V' 1 = V 1;
  gn_used : ∀ b, 0 ≤ b < nblk V → used V b = true → used V' b = true;
  gn_new : ∀ x, fblocks V' i' K' x → fblocks V i K x ∨ 0 ≤ x < nblk V ∧ used V x = false;
  gn_other : ∀ x, 0 ≤ x < nblk V → used V x = true → ¬ fblocks V i K x → x ≠ map_block V c →
    (u = true → x ≠ IBLOCK (i_inum i)) → V' x = V x;
  gn_byte : ∀ j, 0 ≤ j < 512 * K' → fbyte V' i' j =
    if decide (off ≤ j < off + Z.of_nat (length src)) then src !!! Z.to_nat (j - off)
    else if j <? 512 * K then fbyte V i j else 0;
}.

Lemma grown_refl V c i K off : grown false V c i K V i K off [].
Proof.
  split; try done; [by destruct i|by left|]. intros j Hj. rewrite decide_False by (simpl; lia).
  by rewrite (proj2 (Z.ltb_lt _ _)) by lia.
Qed.

Lemma grown_upd V c i K V' i' K' off src : grown false V c i K V' i' K' off src → grown true V c i K V' i' K' off src.
Proof. intros []. split; try done. intros x ? ? ? ? _. by apply gn_other0. Qed.

Lemma grown_trans u u' V c i K V1 i1 K1 V2 i2 K2 off a b :
  grown u V c i K V1 i1 K1 off a → grown u' V1 c i1 K1 V2 i2 K2 (off + Z.of_nat (length a)) b →
  (a = [] ∨ off + Z.of_nat (length a) ≤ 512 * K1) → 0 ≤ off → grown (u || u') V c i K V2 i2 K2 off (a ++ b).
Proof.
  intros [A1 A2 A2' A3 A4 A5 A6 A7 A8 A9] [B1 B2 B2' B3 B4 B5 B6 B7 B8 B9] Hfit Ho.
  assert (map_block V1 c = map_block V c) as Em by (unfold map_block; by rewrite A5). rewrite A5, Em in *. split.
  - lia.
  - rewrite B2 at 1. rewrite A2. done.
  - intros [-> ->]%orb_false_iff. rewrite B2', A2'; done.
  - intros k Hk. rewrite B3, A3 by lia. done.
  - intros H11. rewrite B4, A4; [done|done|by rewrite A4].
  - congruence.
  - auto.
  - intros x [Hx|[Hr Hx]]%B7; [by apply A7|]. right. split; [done|]. apply not_true_is_false. intros Hu.
    by rewrite A6 in Hx.
  - intros x Hr Hu Hn Hm Hi. rewrite A2 in B8. rewrite B8, A8; try done.
    + intros ->. by apply Hi.
    + by apply A6.
    + intros [Hx|[_ Hx]]%A7; [done|congruence].
    + intros ->. apply Hi, orb_true_r.
  - intros j Hj. rewrite B9 by done. rewrite length_app, Nat2Z.inj_add. destruct (decide (off ≤ j < off + Z.of_nat (length a))) as [Ha|Ha].
    + rewrite decide_False, decide_True by lia. destruct Hfit as [->|Hfit]; [simpl in Ha; lia|].
      rewrite (proj2 (Z.ltb_lt _ _)), A9, decide_True by lia. by rewrite lookup_total_app_l by lia.
    + destruct (decide (off + Z.of_nat (length a) ≤ j < off + Z.of_nat (length a) + Z.of_nat (length b))) as [Hb|Hb].
      * rewrite decide_True by lia. rewrite lookup_total_app_r by lia. f_equal. lia.
      * rewrite (decide_False (P := off ≤ j < _)) by lia. destruct (Z.ltb_spec j (512 * K1)) as [H1|H1].
        -- by rewrite A9, decide_False by lia.
        -- by rewrite (proj2 (Z.ltb_ge _ _)) by lia.
Qed.

(** The bytes of a file whose blocks stay and whose new blocks are zero. *)
Lemma zero_extended V i K V' i' K' :
  (∀ k, 0 ≤ k < K → fblock V' i' k = fblock V i k ∧ V' (fblock V i k) = V (fblock V i k)) →
  (∀ k, K ≤ k < K' → V' (fblock V' i' k) = replicate 512 0) →
  ∀ j, 0 ≤ j < 512 * K' → fbyte V' i' j = if j <? 512 * K then fbyte V i j else 0.
Proof.
  intros Hold Hnew j Hj. pose proof (Z.mod_pos_bound j 512 ltac:(lia)). unfold fbyte. simpl.
  destruct (Z.ltb_spec j (512 * K)) as [HK|HK].
  - destruct (Hold (j / 512)) as [-> ->]; [|done]. split; [apply Z.div_pos; lia|apply Z.div_lt_upper_bound; lia].
  - rewrite Hnew by (split; [apply Z.div_le_lower_bound; lia|apply Z.div_lt_upper_bound; lia]).
    rewrite list_lookup_total_alt, lookup_replicate_2 by lia. done.
Qed.

Lemma fblock_low V i k : 0 ≤ k < NDIRECT → fblock V i k = i_addrs i !!! Z.to_nat k.
Proof. intros Hk. unfold fblock. by rewrite (proj2 (Z.ltb_lt _ _)) by lia. Qed.

Lemma fblock_high V i k : NDIRECT ≤ k → fblock V i k = get32 (4 * Z.to_nat (k - NDIRECT)) (V (i_addrs i !!! 11%nat)).
Proof. intros Hk. unfold fblock. by rewrite (proj2 (Z.ltb_ge _ _)) by lia. Qed.

(** ** One more block *)

Section Grow.
Context (s : kstate) (V : Z → list Z) (c : Z) (i : inode) (K : Z) (G : growing s V c i K).
#[local] Set Default Proof Using "G".

Lemma file_marked k : 0 ≤ k < K → marked V (fblock V i k) ∧ fblock V i k ≠ IBLOCK (i_inum i).
Proof. intros Hk. apply (gw_marked _ _ _ _ _ G). left. eauto. Qed.

Lemma ind_marked : i_addrs i !!! 11%nat ≠ 0 → marked V (i_addrs i !!! 11%nat) ∧ i_addrs i !!! 11%nat ≠ IBLOCK (i_inum i).
Proof. intros Hk. apply (gw_marked _ _ _ _ _ G). by right. Qed.

Lemma ind_present : NDIRECT < K → i_addrs i !!! 11%nat ≠ 0.
Proof. intros HK. by apply (gw_file _ _ _ _ _ G) in HK as [[? _] _]. Qed.

Context (y : Z) (s' : kstate) (V' : Z → list Z) (A : allocated V c y s' V') (Pl : placed s s').
#[local] Set Default Proof Using "All".

Lemma alloc_keeps x : marked V x → V' x = V x ∧ marked V' x ∧ x ≠ y.
Proof.
  intros Hx. pose proof Hx as (H1 & H2 & H3 & H4). destruct A. assert (x ≠ y) by congruence. split_and!; [|..|done].
  - apply ad_other0; [done|]. apply H4. apply G.
  - eapply marked_mono; [done| |done]. intros b Hb Hu. rewrite ad_used0, Hu by done. apply orb_true_r.
Qed.

Lemma alloc_mono b : 0 ≤ b < nblk V → used V b = true → used V' b = true.
Proof. intros Hb Hu. destruct A. rewrite ad_used0, Hu by done. apply orb_true_r. Qed.

Lemma alloc_new : marked V' y.
Proof.
  destruct A. unfold marked, map_block. rewrite ad_sb0. split_and!; [lia|lia| |lia|].
  - rewrite ad_used0, bool_decide_true by (done || lia). done.
  - intros j Hj E. destruct (al_map _ _ _ (gw_alloc _ _ _ _ _ G) j Hj). unfold map_block in *. congruence.
Qed.

Lemma new_readable : readable s' ∅ y ∧ home (ks_log s') (length (ks_disk s')) y.
Proof. destruct A. pose proof ad_home0 as [Hr _]. split; [|done]. split_and!; [lia|lia|lia|set_solver]. Qed.

(** A file whose old blocks are where they were, with the same contents. *)
Lemma alloc_old k : 0 ≤ k < K → V' (fblock V i k) = V (fblock V i k) ∧ fblock V i k ≠ y ∧
  readable s' ∅ (fblock V i k) ∧ home (ks_log s') (length (ks_disk s')) (fblock V i k).
Proof.
  intros Hk. destruct (alloc_keeps _ (proj1 (file_marked k Hk))) as (? & _ & ?).
  destruct (fo_block _ _ _ _ _ (gw_file _ _ _ _ _ G) k Hk). split_and!; try done; eauto using placed_readable, placed_home.
Qed.

(** A new address in slot [n] of the inode. *)
Section Slot.
Context (n : nat) (Hn : (n < 12)%nat) (H0 : i_addrs i !!! n = 0).
Context (Hslot : n = 11%nat ∧ K ≤ NDIRECT ∨ n = Z.to_nat K ∧ 0 ≤ K < NDIRECT).
Let i' := with_i_addrs (<[n:=y]> (i_addrs i)) i.
Let K' := if decide (n = 11%nat) then K else K + 1.

Lemma slot_fblock k : 0 ≤ k < K → fblock V' i' k = fblock V i k.
Proof.
  intros Hk. destruct (Z.lt_ge_cases k NDIRECT) as [Hd|Hd].
  - rewrite !fblock_low by lia. cbn. rewrite list_lookup_total_insert_ne by lia. done.
  - destruct Hslot; lia.
Qed.

Lemma slot_new k : K ≤ k < K' → k = K ∧ fblock V' i' k = y.
Proof.
  unfold K'. intros Hk. case_decide; [lia|]. destruct Hslot as [[? _]|[-> HK]]; [lia|]. assert (k = K) as -> by lia.
  split; [done|]. rewrite fblock_low by lia. cbn. apply list_lookup_total_insert_eq.
  rewrite (fo_len _ _ _ _ _ (gw_file _ _ _ _ _ G)). lia.
Qed.

Lemma slot_blocks x : fblocks V' i' K' x → fblocks V i K x ∨ x = y.
Proof.
  pose proof (fo_len _ _ _ _ _ (gw_file _ _ _ _ _ G)). intros [(k & Hk & ->)|[Hx ->]].
  - destruct (Z.lt_ge_cases k K) as [Hlt|Hge]; [left; left; exists k; split; [lia|by apply slot_fblock; lia]|].
    destruct (slot_new k ltac:(lia)) as [_ ->]. by right.
  - cbn in *. destruct (decide (n = 11%nat)) as [->|]; [right; apply list_lookup_total_insert_eq; lia|].
    rewrite list_lookup_total_insert_ne in * by done. left. by right.
Qed.

Lemma slot_grown off : grown false V c i K V' i' K' off [].
Proof.
  assert (K ≤ K') as HK by (unfold K'; case_decide; lia). pose proof A as []. split; try done.
  - intros k Hk. by apply slot_fblock.
  - intros H11. cbn. apply list_lookup_total_insert_ne. congruence.
  - apply alloc_mono.
  - intros x [Hx|Hx]%slot_blocks; [by left|]. right. subst. split; [lia|done].
  - intros x Hx Hu _ Hm _. apply ad_other0; [congruence|done].
  - intros j Hj. rewrite decide_False by (simpl; lia). apply (zero_extended V i K V' i' K'); [|..|done].
    + intros k Hk. split; [by apply slot_fblock|by apply alloc_old].
    + intros k Hk. destruct (slot_new k Hk) as [_ ->]. done.
Qed.

Lemma slot_at k : 0 ≤ k < K' → 0 ≤ k < K ∧ fblock V' i' k = fblock V i k ∨ K ≤ k ∧ k = K ∧ fblock V' i' k = y.
Proof.
  intros Hk. destruct (Z.lt_ge_cases k K); [left; split; [lia|apply slot_fblock; lia]|].
  right. split; [lia|]. apply slot_new. lia.
Qed.

Lemma slot_K : K ≤ K' ≤ NDIRECT.
Proof. unfold K'. case_decide; destruct Hslot as [[? ?]|[? ?]]; lia. Qed.

Lemma slot_file : file_ok s' V' ∅ i' K'.
Proof.
  pose proof slot_K as HK'. pose proof (gw_file _ _ _ _ _ G) as [F1 F2 F3 F4 F5 F6 F7]. split; try done; try lia.
  - cbn. by rewrite length_insert.
  - intros k Hk. destruct (slot_at k Hk) as [[Hk' ->]|(_ & _ & ->)]; [by apply alloc_old|apply new_readable].
  - intros j k Hj Hk. destruct (slot_at j Hj) as [[Hj' ->]|(_ & -> & ->)], (slot_at k Hk) as [[Hk' ->]|(_ & -> & ->)]; try done.
    + by apply F6.
    + intros E. by destruct (alloc_old j Hj') as (_ & [] & _).
    + intros E. by destruct (alloc_old k Hk') as (_ & [] & _).
Qed.

Lemma slot_ind : i_addrs i' !!! 11%nat ≠ 0 → home (ks_log s') (length (ks_disk s')) (i_addrs i' !!! 11%nat) ∧
  (∀ k, 0 ≤ k < K' → fblock V' i' k ≠ i_addrs i' !!! 11%nat) ∧
  ∀ k, Z.max K' NDIRECT ≤ k < NDIRECT + NINDIRECT → fblock V' i' k = 0.
Proof.
  pose proof slot_K as HK'. pose proof (fo_len _ _ _ _ _ (gw_file _ _ _ _ _ G)) as Hlen. destruct (Nat.eq_dec n 11) as [E|E].
  - assert (i_addrs i' !!! 11%nat = y) as Ey by (cbn; rewrite E; apply list_lookup_total_insert_eq; lia).
    rewrite Ey. intros _. split_and!; [apply new_readable|..].
    + assert (K' = K) as EK by (unfold K'; by rewrite decide_True). intros k Hk. rewrite slot_fblock by lia. apply alloc_old. lia.
    + intros k Hk. rewrite fblock_high by lia. rewrite Ey. destruct A as [_ _ _ ->]. apply get_le_zeros.
  - assert (i_addrs i' !!! 11%nat = i_addrs i !!! 11%nat) as Ei by (cbn; by rewrite list_lookup_total_insert_ne).
    rewrite Ei. intros H11. destruct (gw_ind _ _ _ _ _ G H11) as (I1 & I2 & I3).
    destruct (alloc_keeps _ (proj1 (ind_marked H11))) as (E11 & _ & Hne). split_and!; [by eapply placed_home|..].
    + intros k Hk. destruct (slot_at k Hk) as [[Hk' ->]|(_ & _ & ->)]; [by apply I2|done].
    + intros k Hk. rewrite fblock_high by lia. rewrite Ei, E11, <-fblock_high by lia. apply I3. lia.
Qed.

Lemma slot_growing : growing s' V' c i' K'.
Proof.
  pose proof slot_K as HK'. pose proof (gw_inode _ _ _ _ _ G) as [Hih Him].
  destruct (alloc_keeps _ Him) as (_ & Him' & Hiy). split.
  - apply slot_file.
  - apply A.
  - intros x [Hx| ->]%slot_blocks; [|split; [apply alloc_new|by apply not_eq_sym]].
    apply (gw_marked _ _ _ _ _ G) in Hx as [Hx ?]. split; [by apply alloc_keeps|done].
  - split; [by eapply placed_home|done].
  - intros k Hk. cbn. rewrite list_lookup_total_insert_ne; [apply (gw_direct _ _ _ _ _ G); lia|].
    unfold K' in Hk. case_decide; destruct Hslot as [[? ?]|[? ?]]; lia.
  - apply slot_ind.
Qed.

End Slot.

(** A new address in the block of addresses. *)
Section Entry.
Context (HK : NDIRECT ≤ K < NDIRECT + NINDIRECT) (H11 : i_addrs i !!! 11%nat ≠ 0).
Context (s2 : kstate) (Pl2 : placed s' s2) (Hok : block_ok (V (i_addrs i !!! 11%nat))).
Let a := i_addrs i !!! 11%nat.
Let V2 := <[a:=put32 (4 * Z.to_nat (K - NDIRECT)) y (V' a)]> V'.

Lemma entry_ind : V' a = V a ∧ marked V a ∧ marked V' a ∧ a ≠ y.
Proof. pose proof (proj1 (ind_marked H11)) as Hm. by destruct (alloc_keeps _ Hm) as (? & ? & ?). Qed.

Lemma grown_view x : x ≠ a → V2 x = V' x.
Proof. intros Hx. by apply fn_lookup_insert_ne. Qed.

Lemma entry_sb : V2 1 = V 1.
Proof. destruct entry_ind as (_ & (_ & _ & ? & _) & _), A. rewrite grown_view; [done|by apply not_eq_sym]. Qed.

Lemma entry_mono b : 0 ≤ b < nblk V → used V b = true → used V2 b = true.
Proof.
  intros Hb Hu. destruct entry_ind as (_ & (_ & _ & ? & Hm) & _). unfold V2. rewrite plain_used; [by apply alloc_mono|done|].
  destruct A. unfold map_block. rewrite ad_sb0. by apply Hm.
Qed.

Lemma grown_fblock k : 0 ≤ k < NDIRECT + NINDIRECT → fblock V2 i k = if decide (k = K) then y else fblock V i k.
Proof.
  intros Hk. destruct (Z.lt_ge_cases k NDIRECT) as [Hd|Hd].
  - rewrite decide_False, !fblock_low by lia. done.
  - rewrite !fblock_high by lia. fold a. unfold V2. rewrite fn_lookup_insert. destruct entry_ind as (-> & _).
    pose proof Hok as [Hlen _]. fold a in Hlen. case_decide as E.
    + subst k. rewrite get_put32_eq by lia. apply u32_small. destruct A, (ly_size _ _ (al_layout _ _ _ (gw_alloc _ _ _ _ _ G))). lia.
    + apply get_put32_ne; lia.
Qed.

Lemma entry_at k : 0 ≤ k < K + 1 → 0 ≤ k < K ∧ fblock V2 i k = fblock V i k ∨ k = K ∧ fblock V2 i k = y.
Proof. intros Hk. rewrite grown_fblock by lia. case_decide; [by right|]. left. split; [lia|done]. Qed.

Lemma entry_blocks x : fblocks V2 i (K + 1) x → fblocks V i K x ∨ x = y.
Proof.
  intros [(k & Hk & ->)|Hx]; [|left; by right]. destruct (entry_at k Hk) as [[Hk' ->]|[_ ->]]; [left; left; eauto|by right].
Qed.

Lemma entry_grown off : grown false V c i K V2 i (K + 1) off [].
Proof.
  destruct (gw_ind _ _ _ _ _ G H11) as (I1 & I2 & I3). destruct entry_ind as (Ea & _ & _ & Hay). pose proof A as [].
  split; try done; try lia.
  - by destruct i.
  - intros k Hk. rewrite grown_fblock by lia. by rewrite decide_False by lia.
  - apply entry_sb.
  - apply entry_mono.
  - intros x [Hx| ->]%entry_blocks; [by left|]. right. split; [lia|done].
  - intros x Hx Hu Hn Hm _. rewrite grown_view; [apply ad_other0; [congruence|done]|]. intros ->. apply Hn. by right.
  - intros j Hj. rewrite decide_False by (simpl; lia). apply (zero_extended V i K V2 i (K + 1)); [|..|done].
    + intros k Hk. rewrite grown_fblock, decide_False by lia. split; [done|]. rewrite grown_view by by apply I2. by apply alloc_old.
    + intros k Hk. assert (k = K) as -> by lia. rewrite grown_fblock, decide_True by lia.
      rewrite grown_view by by apply not_eq_sym. done.
Qed.

Lemma entry_file : file_ok s2 V2 ∅ i (K + 1).
Proof.
  destruct (gw_ind _ _ _ _ _ G H11) as (I1 & I2 & I3). destruct entry_ind as (Ea & _ & _ & Hay).
  pose proof (gw_file _ _ _ _ _ G) as [F1 F2 F3 F4 F5 F6 F7]. split; try done; try lia.
  - intros k Hk. destruct (entry_at k Hk) as [[Hk' ->]|[_ ->]].
    + destruct (alloc_old k Hk') as (_ & _ & ? & ?). eauto using placed_readable, placed_home.
    + destruct new_readable. eauto using placed_readable, placed_home.
  - intros _. assert (home (ks_log s2) (length (ks_disk s2)) a) as Hh by (eapply placed_home; [done|]; by eapply placed_home).
    split; [|done]. destruct Hh as [Hr _]. split_and!; [done|lia|lia|set_solver].
  - intros j k Hj Hk. destruct (entry_at j Hj) as [[Hj' ->]|[-> ->]], (entry_at k Hk) as [[Hk' ->]|[-> ->]]; try done.
    + by apply F6.
    + intros E. by destruct (alloc_old j Hj') as (_ & [] & _).
    + intros E. by destruct (alloc_old k Hk') as (_ & [] & _).
  - intros _ k Hk. destruct (entry_at k Hk) as [[Hk' ->]|[_ ->]]; [by apply I2|by apply not_eq_sym].
Qed.

Lemma entry_growing : growing s2 V2 c i (K + 1).
Proof.
  destruct (gw_ind _ _ _ _ _ G H11) as (I1 & I2 & I3). pose proof (gw_inode _ _ _ _ _ G) as [Hih Him].
  assert (∀ x, marked V x → marked V2 x) as Hmk by (intros x; apply marked_mono; [apply entry_sb|apply entry_mono]).
  assert (marked V2 y) as Hy.
  { eapply (marked_mono V'); [apply entry_sb || (rewrite entry_sb; by destruct A)| |apply alloc_new].
    intros b Hb Hu. destruct entry_ind as (_ & _ & (_ & _ & ? & Hm) & _). unfold V2. rewrite plain_used by auto. done. }
  destruct (alloc_keeps _ Him) as (_ & _ & Hiy). split.
  - apply entry_file.
  - eapply alloc_ok_marks; [apply G|by etrans|apply entry_sb|apply entry_mono].
  - intros x [Hx| ->]%entry_blocks; [|split; [done|by apply not_eq_sym]].
    apply (gw_marked _ _ _ _ _ G) in Hx as [Hx ?]. auto.
  - split; [|by auto]. eapply placed_home; [done|]. by eapply placed_home.
  - intros k Hk. lia.
  - intros _. split_and!; [eapply placed_home; [done|]; by eapply placed_home|by apply entry_file; lia|].
    intros k Hk. rewrite grown_fblock, decide_False by lia. apply I3. lia.
Qed.

End Entry.
End Grow.

(** ** Mapping a block *)

(** What is to be allocated for the block of addresses, in a file that is to have
    [E] blocks. *)
Definition ind_need (i : inode) (E : Z) : nat :=
  if decide (i_addrs i !!! 11%nat = 0 ∧ NDIRECT < E) then 1 else 0.

(** A transaction that writes the file of inode entry [ip], which has [K] blocks and
    is to have at most [E]: it may still touch [n] blocks of data, and there are
    enough free blocks. *)
Record writing (s : kstate) (V : Z → list Z) (L T : gset Z) (c : Z) (ip : nat) (i : inode) (K : Z) (n : nat) (E : Z) : Prop := {
  wg_txn : txn s V ∅ ∅ L;
  wg_inode : ks_inodes s !! ip = Some i;
  wg_file : growing s V c i K;
  wg_quota : quota s ∅ L T (n + ind_need i E);
  wg_free : free V c (Z.to_nat (E - K) + ind_need i E);
  wg_map : map_block V c ∈ T;
  wg_iblock : IBLOCK (i_inum i) ∈ T;
  wg_ind : i_addrs i !!! 11%nat ≠ 0 → i_addrs i !!! 11%nat ∈ T;
}.

Lemma txn_inodes s l V B P L : txn s V B P L → txn (set_inodes l s) V B P L.
Proof. intros [(V0 & [] & ?)]. split; try done. exists V0. by split; [split|]. Qed.

Lemma allocated_inodes V c y s' V' l : allocated V c y s' V' → allocated V c y (set_inodes l s') V'.
Proof. intros []. split; try done. by eapply alloc_ok_marks. Qed.

Section Bmap.
Context `{IdeSpec}.
#[local] Set Default Proof Using "All".

Lemma slot_alloc s V L T ip i c K n N (k : nat) :
  txn s V ∅ ∅ L → ks_inodes s !! ip = Some i → growing s V c i K → quota s ∅ L T (S n) → map_block V c ∈ T →
  free V c (S N) → (k < 12)%nat → i_addrs i !!! k = 0 →
  wp (bmap_direct ip k) (λ y s', placed s s' ∧ ks_inodes s' = <[ip:=with_i_addrs (<[k:=y]> (i_addrs i)) i]> (ks_inodes s) ∧
    ∃ V' L', txn s' V' ∅ ∅ L' ∧ quota s' ∅ L' ({[y]} ∪ T) n ∧ allocated V c y s' V' ∧ free V' c N) s.
Proof.
  intros Hs Hi G Hq HT Hf Hk H0'. pose proof (fo_len _ _ _ _ _ (gw_file _ _ _ _ _ G)) as Hlen.
  unfold bmap_direct, get_addr. rewrite decide_True by done. wp_steps. eapply wp_get_inode; [done|].
  eapply wp_the; [by apply list_lookup_lookup_total_lt; lia|]. rewrite H0'. cbn [Z.eqb]. wp_steps.
  eapply wp_get_inode; [done|]. rewrite (fo_dev _ _ _ _ _ (gw_file _ _ _ _ _ G)).
  wp_call (balloc_grow s V ∅ ∅ L T n N c Hs (gw_alloc _ _ _ _ _ G) Hq HT Hf); [set_solver|].
  intros y s1 (C1 & V' & L' & Hs1 & Hq1 & A). unfold set_addr. rewrite decide_True by done. wp_step.
  eapply wp_upd_inode; [by rewrite (carries_inodes _ _ C1)|]. wp_step. rewrite (carries_inodes _ _ C1).
  split; [by apply (carries_placed _ _ C1)|]. split; [done|]. exists V', L'. split_and!.
  - by apply txn_inodes.
  - by destruct Hq1.
  - by apply allocated_inodes.
  - eapply allocated_free; [|done..]. apply (al_base _ _ _ (gw_alloc _ _ _ _ _ G)).
Qed.

(** Allocating entry [idx] of the block of addresses [a], which is then held. *)
Lemma entry_hold {A} s V B L T ip i c n N a (idx : nat) (k : nat → Z → M kstate A) (Q : A → kstate → Prop) :
  txn s V B ∅ L → ks_inodes s !! ip = Some i → i_dev i = 1 → alloc_ok s V c → quota s B L T (S n) →
  map_block V c ∈ T → a ∈ T → free V c (S N) → (∀ b, b ∈ {[a]} ∪ B → marked V b) → a ∉ B →
  home (ks_log s) (length (ks_disk s)) a → get32 (4 * idx) (V a) = 0 →
  (∀ b y s1 V1 s' L', carries s s' → placed s s1 → allocated V c y s1 V1 → placed s1 s' → free V1 c N →
    txn s' (<[a:=put32 (4 * idx) y (V1 a)]> V1) ({[a]} ∪ B) ∅ L' → quota s' ({[a]} ∪ B) L' ({[y]} ∪ T) n →
    owned (ks_bufs s') b a → (∀ c x, owned (ks_bufs s) c x → c ≠ b) → wp (k b y) Q s') →
  wp (i ← get_inode ip;
      bp ← bread (i_dev i) a;
      addr ← bmap_entry ip bp idx;
      k bp addr) Q s.
Proof.
  intros Hs Hi Hdev Ha Hq HT HaT Hf HB HaB Hah H0' HQ. pose proof (HB a ltac:(set_solver)) as Hm.
  wp_step. eapply wp_get_inode; [done|]. rewrite Hdev.
  wp_call (get_block s V B ∅ L a 1 0 Hs Hah HaB); [eapply room_mono; [by eapply quota_room|lia|lia]|].
  intros b s1 (C1 & Dk1 & Hs1 & Ho1 & _ & Hne1). pose proof (carries_placed _ _ C1) as Pl1.
  destruct (txn_owned _ _ _ _ _ Hs1 b a Ho1) as (bf & Hbf & Hbd & _).
  apply wp_bind. unfold bmap_entry. wp_step. eapply wp_get_buf; [done|]. rewrite Hbd, H0'.
  cbn [Z.eqb]. wp_step. eapply wp_get_inode; [by rewrite (carries_inodes _ _ C1)|]. rewrite Hdev.
  pose proof (qt_sub _ _ _ _ _ Hq) as Hsub.
  assert (quota s1 ({[a]} ∪ B) L T (S n)) as Hq1.
  { eapply (quota_step _ _ _ _ _ _ _ _ _ _ 0 Hq); [by apply carries_size|set_solver|left; split; [done|lia]]. }
  wp_call (balloc_grow s1 V ({[a]} ∪ B) ∅ L T n N c Hs1); try done.
  { eapply alloc_ok_marks; [apply Ha|done..]. }
  intros y s2 (C2 & V1 & L1 & Hs2 & Hq2 & Al). pose proof (carries_placed _ _ C2) as Pl2.
  assert (V1 a = V a) as Ea.
  { destruct Al, Hm as (_ & ? & _ & Hmap). apply ad_other0; [congruence|]. apply Hmap, (al_base _ _ _ Ha). }
  assert (owned (ks_bufs s2) b a) as Ho2 by by apply C2.
  wp_step. eapply (txn_modify _ _ _ _ _ Hs2 b a (put32 (4 * idx) y) _ Ho2).
  { apply block_ok_put32. rewrite Ea. by apply (txn_block_ok _ _ _ _ _ Hs). }
  intros s3 St3 Dk3 Hs3 Ho3. pose proof (storage_carries _ _ St3 Dk3 Ho3) as C3.
  assert (quota s3 ({[a]} ∪ B) L1 ({[y]} ∪ T) n) as Hq3.
  { eapply (quota_step _ _ _ _ _ _ _ _ _ _ 0 Hq2); [by apply carries_size|apply Hq2|left; split; [done|lia]]. }
  pose proof (quota_room _ _ _ _ _ _ _ Hs3 Hq3) as [R1 R2 R3].
  wp_call (txn_log_write _ _ _ _ _ Hs3 b a (Ho3 _ _ Ho2)); [lia|lia|lia|].
  intros [] s4 (F4 & Sh4 & Hs4 & Ho4). wp_steps. assert (carries s3 s4) as C4 by done.
  replace (({[a]} ∪ ∅) ∖ {[a]}) with (∅ : gset Z) in Hs4 by set_solver. pose proof (transitivity C3 C4) as C34.
  apply (HQ b y s2 V1 s4 ({[a]} ∪ L1)); try done.
  - by do 2 (etrans; [done|]).
  - by etrans.
  - by apply carries_placed.
  - eapply allocated_free; [|done..]. apply (al_base _ _ _ Ha).
  - pose proof (qt_sub _ _ _ _ _ Hq3). eapply (quota_step _ _ _ _ _ _ _ _ _ _ 0 Hq3); [by apply carries_size|set_solver|left; split; [done|lia]].
  - by apply Ho4, Ho3.
Qed.

Lemma entry_alloc s V L T ip i c K n N :
  let a := i_addrs i !!! 11%nat in
  txn s V ∅ ∅ L → ks_inodes s !! ip = Some i → growing s V c i K → quota s ∅ L T (S n) → map_block V c ∈ T →
  free V c (S N) → NDIRECT ≤ K < NDIRECT + NINDIRECT → a ≠ 0 → a ∈ T →
  wp (i ← get_inode ip;
      bp ← bread (i_dev i) a;
      addr ← bmap_entry ip bp (Z.to_nat (K - NDIRECT));
      brelse bp;;
      mret addr)
    (λ y s', ks_inodes s' = ks_inodes s ∧ ∃ s1 V1 L', placed s s1 ∧ allocated V c y s1 V1 ∧ placed s1 s' ∧
      txn s' (<[a:=put32 (4 * Z.to_nat (K - NDIRECT)) y (V1 a)]> V1) ∅ ∅ L' ∧ quota s' ∅ L' ({[y]} ∪ T) n ∧ free V1 c N) s.
Proof.
  intros a Hs Hi G Hq HT Hf HK Ha HaT. destruct (gw_ind _ _ _ _ _ G Ha) as (Hah & _ & Hrest). fold a in Hah.
  pose proof (proj1 (ind_marked s V c i K G Ha)) as Hm. fold a in Hm.
  assert (get32 (4 * Z.to_nat (K - NDIRECT)) (V a) = 0) as H0' by (rewrite <-(Hrest K) by lia; symmetry; apply fblock_high; lia).
  apply (entry_hold s V ∅ L T ip i c n N a (Z.to_nat (K - NDIRECT)) (λ bp addr, brelse bp;; mret addr)); try done; [apply G|apply G|set_solver|].
  intros b y s1 V1 s4 L' C4 Pl1 Al Pl2 Hf' Hs4 Hq4 Ho4 _. rewrite union_empty_r_L in *.
  wp_call (txn_brelse _ _ _ _ _ Hs4 b a Ho4); [set_solver|]. intros [] s5 (St5 & Dk5 & Hs5 & _). wp_step.
  replace ({[a]} ∖ {[a]}) with (∅ : gset Z) in Hs5 by set_solver.
  assert (placed s4 s5) as Pl5.
  { split_and!; [by rewrite (storage_log _ _ St5)|by rewrite Dk5|by apply (storage_files _ _ St5)]. }
  split; [by rewrite (storage_inodes _ _ St5), (carries_inodes _ _ C4)|].
  exists s1, V1, L'. split_and!; [done|done|by etrans|done| |done].
  pose proof (qt_sub _ _ _ _ _ Hq4). eapply (quota_step _ _ _ _ _ _ _ _ _ _ 0 Hq4); [by rewrite (storage_log _ _ St5)|set_solver|left; split; [done|lia]].
Qed.

Context `{Devsw}.

(** What a step of the transaction did. *)
Record wrote_file (u : bool) (s : kstate) (V : Z → list Z) (c : Z) (ip : nat) (i : inode) (K : Z)
    (s' : kstate) (V' : Z → list Z) (i' : inode) (K' off : Z) (src : list Z) : Prop := {
  wf_placed : placed s s';
  wf_inodes : ks_inodes s' = <[ip:=i']> (ks_inodes s);
  wf_grown : grown u V c i K V' i' K' off src;
}.

Lemma wrote_file_trans u u' s V c ip i K s1 V1 i1 K1 s2 V2 i2 K2 off a b :
  wrote_file u s V c ip i K s1 V1 i1 K1 off a → wrote_file u' s1 V1 c ip i1 K1 s2 V2 i2 K2 (off + Z.of_nat (length a)) b →
  a = [] ∨ off + Z.of_nat (length a) ≤ 512 * K1 → 0 ≤ off → wrote_file (u || u') s V c ip i K s2 V2 i2 K2 off (a ++ b).
Proof.
  intros [P1 I1 G1] [P2 I2 G2] Hfit Ho. split; [by etrans|by rewrite I2, I1, list_insert_insert_eq|by eapply grown_trans].
Qed.

Lemma ind_step s V L T c ip i K n E off :
  writing s V L T c ip i K n E → NDIRECT < E → K ≤ NDIRECT ∨ i_addrs i !!! 11%nat ≠ 0 →
  wp (bmap_direct ip 11) (λ a s', ∃ V' L' T' i', writing s' V' L' T' c ip i' K n E ∧
    wrote_file false s V c ip i K s' V' i' K off [] ∧ a = i_addrs i' !!! 11%nat ∧ a ≠ 0) s.
Proof.
  intros [Hs Hi G Hq Hf Tm Ti Ta] HE HK. pose proof (fo_len _ _ _ _ _ (gw_file _ _ _ _ _ G)) as Hlen.
  pose proof (lookup_lt_Some _ _ _ Hi) as Hlt.
  destruct (decide (i_addrs i !!! 11%nat = 0)) as [E0|E0].
  - assert (ind_need i E = 1%nat) as En by (unfold ind_need; by rewrite decide_True). rewrite En in Hq, Hf.
    eapply wp_mono.
    { apply (slot_alloc s V L T ip i c K n (Z.to_nat (E - K)) 11); try done; [|..|lia].
      - by replace (S n) with (n + 1)%nat by lia.
      - by replace (S (Z.to_nat (E - K))) with (Z.to_nat (E - K) + 1)%nat by lia. }
    intros y s' (Pl & Ein & V' & L' & Hs' & Hq' & A & Hf').
    assert (K ≤ NDIRECT) as HK' by (destruct HK; [lia|done]).
    pose proof (slot_growing s V c i K G y s' V' A Pl 11 ltac:(lia) E0 ltac:(left; lia)) as G'.
    pose proof (slot_grown s V c i K G y s' V' A Pl 11 ltac:(lia) E0 ltac:(left; lia) off) as Gn. cbv zeta in G', Gn.
    rewrite (decide_True (P := 11%nat = 11%nat)) in G', Gn by done. set (i' := with_i_addrs _ i) in *.
    assert (i_addrs i' !!! 11%nat = y) as Ey by (cbn; apply list_lookup_total_insert_eq; lia).
    assert (y ≠ 0) as Hy by (destruct A; lia).
    assert (ind_need i' E = 0%nat) as En' by (unfold ind_need; rewrite decide_False; [done|rewrite Ey; naive_solver]).
    assert (map_block V' c = map_block V c) as Em by (unfold map_block; destruct A as [_ _ _ _ ->]; done).
    exists V', L', ({[y]} ∪ T), i'. split; [|by split]. split; rewrite ?En', ?Ey, ?Em, ?Nat.add_0_r; try done; try set_solver.
    rewrite Ein. by apply list_lookup_insert_eq.
  - unfold bmap_direct, get_addr. rewrite decide_True by lia. wp_steps. eapply wp_get_inode; [done|].
    eapply wp_the; [by apply list_lookup_lookup_total_lt; lia|]. rewrite (proj2 (Z.eqb_neq _ _) E0). wp_step.
    exists V, L, T, i. split; [done|]. split; [|done]. split; [done|by rewrite list_insert_id|apply grown_refl].
Qed.

Lemma entry_step s V L T c ip i K n E off :
  writing s V L T c ip i K (S n) E → NDIRECT ≤ K < E → E ≤ NDIRECT + NINDIRECT → i_addrs i !!! 11%nat ≠ 0 →
  wp (i' ← get_inode ip;
      bp ← bread (i_dev i') (i_addrs i !!! 11%nat);
      addr ← bmap_entry ip bp (Z.to_nat (K - NDIRECT));
      brelse bp;;
      mret addr)
    (λ y s', ∃ V' L' T', writing s' V' L' T' c ip i (K + 1) n E ∧
      wrote_file false s V c ip i K s' V' i (K + 1) off [] ∧ y = fblock V' i K ∧ y ∈ T') s.
Proof.
  intros [Hs Hi G Hq Hf Tm Ti Ta] HK HE E0. specialize (Ta E0).
  assert (ind_need i E = 0%nat) as En by (unfold ind_need; rewrite decide_False; [done|naive_solver]). rewrite En, Nat.add_0_r in *.
  destruct (gw_ind _ _ _ _ _ G E0) as (Hah & _). pose proof (txn_block_ok _ _ _ _ _ Hs _ Hah) as Hok.
  eapply wp_mono.
  { apply (entry_alloc s V L T ip i c K n (Z.to_nat (E - (K + 1)))); try done; [|lia].
    by replace (S (Z.to_nat (E - (K + 1)))) with (Z.to_nat (E - K)) by lia. }
  intros y s' (Ein & s1 & V1 & L' & Pl1 & A & Pl2 & Hs' & Hq' & Hf').
  pose proof (entry_growing s V c i K G y s1 V1 A Pl1 ltac:(lia) E0 s' Pl2 Hok) as G'.
  pose proof (entry_grown s V c i K G y s1 V1 A Pl1 ltac:(lia) E0 s' Pl2 Hok off) as Gn.
  pose proof (grown_fblock s V c i K G y s1 V1 A Pl1 ltac:(lia) E0 s' Pl2 Hok K ltac:(lia)) as Ey. cbv zeta in G', Gn, Ey.
  rewrite decide_True in Ey by done. set (V' := <[_:=_]> V1) in *.
  destruct (entry_ind s V c i K G y s1 V1 A Pl1 ltac:(lia) E0 s' Pl2 Hok) as (_ & _ & (_ & _ & Ha1 & Ham) & _).
  assert (map_block V' c = map_block V c) as Em by (unfold map_block; by rewrite (gn_sb _ _ _ _ _ _ _ _ _ _ Gn)).
  exists V', L', ({[y]} ∪ T). split; [|split; [|split; [done|set_solver]]].
  - split; rewrite ?Em, ?En, ?Nat.add_0_r; try done; [by rewrite Ein|..|set_solver|set_solver|set_solver].
    apply plain_free; [done|done| |done]. apply (al_base _ _ _ (gw_alloc _ _ _ _ _ G)).
  - split; [by etrans|by rewrite Ein, list_insert_id|done].
Qed.

Lemma direct_step s V L T c ip i K n E off :
  writing s V L T c ip i K (S n) E → 0 ≤ K < NDIRECT → K < E →
  wp (bmap_direct ip (Z.to_nat K)) (λ y s', ∃ V' L' T' i', writing s' V' L' T' c ip i' (K + 1) n E ∧
    wrote_file false s V c ip i K s' V' i' (K + 1) off [] ∧ y = fblock V' i' K ∧ y ∈ T') s.
Proof.
  intros [Hs Hi G Hq Hf Tm Ti Ta] HK HE. pose proof (fo_len _ _ _ _ _ (gw_file _ _ _ _ _ G)) as Hlen.
  pose proof (lookup_lt_Some _ _ _ Hi) as Hlt. pose proof (gw_direct _ _ _ _ _ G K ltac:(lia)) as E0.
  eapply wp_mono.
  { apply (slot_alloc s V L T ip i c K (n + ind_need i E) (Z.to_nat (E - (K + 1)) + ind_need i E) (Z.to_nat K)); try done; [|lia].
    by replace (S (Z.to_nat (E - (K + 1)) + ind_need i E)) with (Z.to_nat (E - K) + ind_need i E)%nat by lia. }
  intros y s' (Pl & Ein & V' & L' & Hs' & Hq' & A & Hf').
  pose proof (slot_growing s V c i K G y s' V' A Pl (Z.to_nat K) ltac:(lia) E0 ltac:(right; lia)) as G'.
  pose proof (slot_grown s V c i K G y s' V' A Pl (Z.to_nat K) ltac:(lia) E0 ltac:(right; lia) off) as Gn. cbv zeta in G', Gn.
  rewrite (decide_False (P := Z.to_nat K = 11%nat)) in G', Gn by lia. set (i' := with_i_addrs _ i) in *.
  assert (i_addrs i' !!! 11%nat = i_addrs i !!! 11%nat) as E11 by (cbn; apply list_lookup_total_insert_ne; lia).
  assert (ind_need i' E = ind_need i E) as En by (unfold ind_need; by rewrite E11).
  assert (map_block V' c = map_block V c) as Em by (unfold map_block; by rewrite (gn_sb _ _ _ _ _ _ _ _ _ _ Gn)).
  exists V', L', ({[y]} ∪ T), i'. split; [|split; [by split|split; [|set_solver]]].
  - split; rewrite ?En, ?Em, ?E11; try done; try set_solver. rewrite Ein. by apply list_lookup_insert_eq.
  - rewrite fblock_low by lia. cbn. symmetry. apply list_lookup_total_insert_eq. lia.
Qed.

(** [bmap] of a block the file has, or of the one after its last. *)
Lemma bmap_step s V L T c ip i K n E k off :
  writing s V L T c ip i K (S n) E → 0 ≤ k ≤ K → k < E → E ≤ NDIRECT + NINDIRECT → 0 ≤ off →
  let K' := Z.max K (k + 1) in
  wp (bmap ip k) (λ y s', ∃ V' L' T' i', writing s' V' L' T' c ip i' K' n E ∧
    wrote_file false s V c ip i K s' V' i' K' off [] ∧ y = fblock V' i' k ∧ y ∈ T' ∧ (k < K → i' = i)) s.
Proof.
  intros W Hk HkE HE Ho K'. destruct (Z.lt_ge_cases k K) as [Hlt|Hge].
  - pose proof W as [Hs Hi G Hq Hf Tm Ti Ta]. assert (K' = K) as -> by (unfold K'; lia).
    eapply wp_mono.
    { apply (txn_bmap s V ∅ ∅ L ip i K k 1 0 Hs Hi (gw_file _ _ _ _ _ G)); [lia|].
      eapply room_mono; [by eapply quota_room|lia|lia]. }
    intros y s' (-> & C & Hs' & _). pose proof (carries_placed _ _ C) as Pl.
    exists V, L, ({[fblock V i k]} ∪ T), i. split; [|split; [|split; [done|split; [set_solver|done]]]].
    + pose proof (qt_sub _ _ _ _ _ Hq). split; try done; try set_solver.
      * by rewrite (carries_inodes _ _ C).
      * by eapply growing_placed.
      * eapply (quota_step _ _ _ _ _ _ _ _ _ _ (fblock V i k) Hq); [by apply carries_size|set_solver|right; split; [done|lia]].
    + split; [done|by rewrite (carries_inodes _ _ C), list_insert_id|apply grown_refl].
  - assert (k = K) as -> by lia. assert (K' = K + 1) as -> by (unfold K'; lia). unfold bmap.
    destruct (Z.ltb_spec K NDIRECT) as [Hd|Hd].
    + eapply wp_mono; [apply (direct_step s V L T c ip i K n E off W); lia|].
      intros y s' (V' & L' & T' & i' & ? & ? & ? & ?). exists V', L', T', i'. split_and!; try done. lia.
    + rewrite (proj2 (Z.ltb_lt (K - NDIRECT) NINDIRECT)) by lia.
      wp_call (ind_step s V L T c ip i K (S n) E off W); [lia| |].
      { destruct (Z.le_gt_cases K NDIRECT); [by left|right]. by apply (ind_present _ _ _ _ _ (wg_file _ _ _ _ _ _ _ _ _ _ W)). }
      intros a s1 (V1 & L1 & T1 & i1 & W1 & F1 & -> & H11).
      eapply wp_mono; [apply (entry_step s1 V1 L1 T1 c ip i1 K n E (off + Z.of_nat 0) W1); done || lia|].
      intros y s' (V' & L' & T' & W' & F' & -> & HT). exists V', L', T', i1. split_and!; try done; [|lia].
      eapply (wrote_file_trans false false _ _ _ _ _ _ _ _ _ _ _ _ _ _ off [] [] F1 F'); [by left|done].
Qed.

End Bmap.

(** ** Writing a block *)

Section Put.
Context (s : kstate) (V : Z → list Z) (c : Z) (i : inode) (K : Z) (G : growing s V c i K).
Context (off : Z) (src : list Z) (Ho : 0 ≤ off) (HoK : off / 512 < K) (Hlen : off mod 512 + Z.of_nat (length src) ≤ 512).
Context (Hblk : block_ok (V (fblock V i (off / 512)))).
#[local] Set Default Proof Using "All".
Let x := fblock V i (off / 512).
Let V' := <[x:=splice (Z.to_nat (off mod 512)) src (V x)]> V.

Lemma put_index : 0 ≤ off / 512 < K.
Proof. split; [apply Z.div_pos; lia|done]. Qed.

Lemma put_plain : x ≠ 1 ∧ ∀ b, 0 ≤ b < nblk V → x ≠ map_block V b.
Proof. destruct (file_marked s V c i K G _ put_index) as [(_ & _ & ? & ?) _]. done. Qed.

Lemma put_written : written V V' i K off src.
Proof. apply (written_block s V ∅ i K off src); [apply G|done..|apply Hblk]. Qed.

Lemma put_used b : 0 ≤ b < nblk V → used V' b = used V b.
Proof. intros Hb. destruct put_plain. apply plain_used; auto. Qed.

Lemma put_blocks y : fblocks V' i K y ↔ fblocks V i K y.
Proof.
  unfold fblocks. split; (intros [(k & Hk & ->)|?]; [left; exists k; split; [done|]|by right]);
    rewrite (wr_block _ _ _ _ _ _ put_written) by done; done.
Qed.

Lemma put_grown : grown false V c i K V' i K off src.
Proof.
  pose proof put_written as [W1 W2 W3]. split; try done.
  - by destruct i.
  - apply fn_lookup_insert_ne. apply put_plain.
  - intros b Hb. by rewrite put_used.
  - intros y. rewrite put_blocks. by left.
  - intros y _ _ Hn _ _. apply W3. intros k Hk ->. apply Hn. left. eauto.
  - intros j Hj. rewrite W1 by done. case_decide; [done|]. by rewrite (proj2 (Z.ltb_lt _ _)) by lia.
Qed.

Lemma put_growing s' : carries s s' → growing s' V' c i K.
Proof.
  intros C. pose proof (carries_placed _ _ C) as Pl. destruct put_plain as [H1 Hm]. pose proof G as [G1 G2 G3 G4 G5 G6].
  assert (∀ y, marked V y → marked V' y) as Hmk.
  { intros y. apply marked_mono; [by apply fn_lookup_insert_ne|]. intros b Hb. by rewrite put_used. }
  split; try done.
  - by eapply file_ok_carries; [|apply put_written|].
  - by eapply plain_alloc.
  - intros y Hy%put_blocks. apply G3 in Hy as [? ?]. auto.
  - destruct G4. split; [by eapply placed_home|auto].
  - intros Ha. destruct (G6 Ha) as (I1 & I2 & I3). split_and!; [by eapply placed_home|..].
    + intros k Hk. rewrite (wr_block _ _ _ _ _ _ put_written) by done. by apply I2.
    + intros k Hk. rewrite <-(I3 k Hk), !fblock_high by lia. unfold V'. rewrite fn_lookup_insert_ne; [done|].
      intros E. by apply (I2 _ put_index).
Qed.

End Put.

Section Write.
Context `{IdeSpec} `{Devsw}.
#[local] Set Default Proof Using "All".

(** One block: what [writei] does with the block that [bmap] returned. *)
Lemma put_step {A} s V L T c ip i K n E off src (k : M kstate A) (Q : A → kstate → Prop) :
  let x := fblock V i (off / 512) in
  writing s V L T c ip i K n E → bytes_ok src → 0 ≤ off → off / 512 < K → off mod 512 + Z.of_nat (length src) ≤ 512 → x ∈ T →
  (∀ s' V' L', writing s' V' L' T c ip i K n E → wrote_file false s V c ip i K s' V' i K off src → wp k Q s') →
  wp (i ← get_inode ip;
      bp ← bread (i_dev i) x;
      upd_buf bp (λ y, with_b_data (splice (Z.to_nat (off mod 512)) src (b_data y)) y);;
      log_write bp;;
      brelse bp;;
      k) Q s.
Proof.
  intros x W Hsrc Ho HoK Hlen HxT HQ. pose proof W as [Hs Hi G Hq Hf Tm Ti Ta].
  assert (0 ≤ off / 512 < K) as Hk by (split; [apply Z.div_pos; lia|done]).
  destruct (fo_block _ _ _ _ _ (gw_file _ _ _ _ _ G) _ Hk) as [_ Hxh]. fold x in Hxh.
  pose proof (txn_block_ok _ _ _ _ _ Hs x Hxh) as Hxok. pose proof (quota_room _ _ _ _ _ _ _ Hs Hq) as Hr.
  wp_step. eapply wp_get_inode; [done|]. rewrite (fo_dev _ _ _ _ _ (gw_file _ _ _ _ _ G)).
  wp_call (get_block s V ∅ ∅ L x 1 0 Hs Hxh); [set_solver|eapply room_mono; [exact Hr|lia|lia]|].
  intros b s1 (C1 & Dk1 & Hs1 & Ho1 & Hr1 & Hne1). apply wp_seq3. eapply wp_mono.
  { apply (update_block (splice (Z.to_nat (off mod 512)) src) s1 V ∅ ∅ L b x 0 0 Hs1); try done; try lia.
    destruct Hxok as [Hl Hb]. split; [by rewrite length_splice|]. by apply Forall_splice. }
  intros [] s2 (R2 & Hs2 & _). assert (carries s s2) as C2 by (by eapply releases_carries).
  apply (HQ s2 (<[x:=splice (Z.to_nat (off mod 512)) src (V x)]> V) ({[x]} ∪ L)).
  - pose proof (put_plain s V c i K G off src Ho HoK Hlen Hxok) as [Hx1 Hm].
    assert (map_block (<[x:=splice (Z.to_nat (off mod 512)) src (V x)]> V) c = map_block V c) as Em.
    { unfold map_block. by rewrite fn_lookup_insert_ne. }
    split; rewrite ?Em; try done.
    + by rewrite (carries_inodes _ _ C2).
    + by apply (put_growing s V c i K G off src).
    + pose proof (qt_sub _ _ _ _ _ Hq). eapply (quota_step _ _ _ _ _ _ _ _ _ _ 0 Hq); [by apply carries_size|set_solver|left; split; [done|lia]].
    + apply plain_free; [done|done| |done]. apply (al_base _ _ _ (gw_alloc _ _ _ _ _ G)).
  - split; [by apply carries_placed|by rewrite (carries_inodes _ _ C2), list_insert_id|by apply put_grown with s].
Qed.

Lemma writei_loop_grow fuel : ∀ s V L T c ip i K src off nb E,
  let left := Z.of_nat (length src) in
  writing s V L T c ip i K nb E → bytes_ok src → 0 ≤ off ≤ 512 * K → off + left ≤ 512 * E → E ≤ NDIRECT + NINDIRECT →
  (0 < left → nblocks off left ≤ Z.of_nat nb) → (0 < fuel)%nat → (0 < left → off mod 512 + left ≤ 512 * (Z.of_nat fuel - 1)) →
  wp (writei_loop ip src off left fuel) (λ r s', r = off + left ∧ ∃ V' L' T' i' K', writing s' V' L' T' c ip i' K' 0 E ∧
    wrote_file false s V c ip i K s' V' i' K' off src ∧ off + left ≤ 512 * K' ∧ (i' = i ∧ K' = K ∨ 512 * K < off + left)) s.
Proof.
  induction fuel as [|fuel IH]; intros s V L T c ip i K src off nb E left W Hsrc Hoff HE HE' Hnb Hf0 Hfuel; [lia|].
  cbn [writei_loop]. destruct (Z.ltb_spec 0 left) as [Hleft|Hleft]; cbn [negb].
  2: { wp_step. assert (src = []) as E0 by (destruct src; [done|unfold left in *; simpl in *; lia]). split; [lia|].
       exists V, L, T, i, K. split_and!; [| |lia|by left].
       - destruct W. split; try done. destruct wg_quota0. split; try done. lia.
       - subst src. split; [done|by rewrite list_insert_id; [|apply W]|apply grown_refl]. }
  specialize (Hfuel Hleft). specialize (Hnb Hleft).
  pose proof (Z.mod_pos_bound off 512 ltac:(lia)) as Hmod. pose proof (Z.div_mod off 512 ltac:(lia)) as Hdm.
  assert (0 ≤ off / 512 ≤ K ∧ off / 512 < E) as [Hk HkE].
  { split; [split; [apply Z.div_pos; lia|apply Z.lt_succ_r, Z.div_lt_upper_bound; lia]|apply Z.div_lt_upper_bound; lia]. }
  destruct (nblocks_step off left ltac:(lia) Hleft) as [Hnb1 Hnb2]. destruct nb as [|nb]; [lia|].
  set (m := chunk off left) in *. assert (0 < m ≤ left ∧ off mod 512 + m ≤ 512) as [Hm0 Hm1] by (unfold m, chunk; lia).
  wp_call (bmap_step s V L T c ip i K nb E (off / 512) off W Hk HkE HE'); [lia|]. set (K1 := Z.max K (off / 512 + 1)).
  intros y s1 (V1 & L1 & T1 & i1 & W1 & F1 & -> & HyT & Hi1).
  set (src1 := take (Z.to_nat m) src). assert (length src1 = Z.to_nat m) as Hl1 by (unfold src1; len).
  apply (put_step s1 V1 L1 T1 c ip i1 K1 nb E off src1); try done; try lia; [by apply Forall_take|].
  intros s2 V2 L2 W2 F2. assert (Z.of_nat (length (drop (Z.to_nat m) src)) = left - m) as Hl2 by (unfold left; len).
  assert (wrote_file false s V c ip i K s2 V2 i1 K1 off src1) as F12.
  { eapply (wrote_file_trans false false _ _ _ _ _ _ _ _ _ _ _ _ _ _ off [] src1 F1); [|by left|lia]. by rewrite Z.add_0_r. }
  eapply wp_mono.
  { rewrite <-Hl2. eapply (IH s2 V2 L2 T1 c ip i1 K1 (drop (Z.to_nat m) src) (off + m) nb E W2); rewrite ?Hl2; try lia.
    - by apply Forall_drop.
    - intros Hne. assert (m = 512 - off mod 512) as Em by (unfold m, chunk in *; lia).
      replace (off + m) with ((off / 512 + 1) * 512) by lia. rewrite Z.mod_mul by lia. lia. }
  intros r s3 (-> & V3 & L3 & T3 & i3 & K3 & W3 & F3 & Hend & Hsame). rewrite Hl2 in *. split; [lia|].
  exists V3, L3, T3, i3, K3. split_and!; [done| |lia|].
  - rewrite <-(take_drop (Z.to_nat m) src). fold src1. eapply (wrote_file_trans false false); [exact F12| |right; lia|lia].
    rewrite Hl1. by replace (Z.of_nat (Z.to_nat m)) with m by lia.
  - destruct (Z.lt_ge_cases (off / 512) K) as [Hlt|Hge]; [|right; lia].
    assert (K1 = K) as EK by (unfold K1; lia). rewrite Hi1, EK in Hsame by done.
    destruct Hsame as [?|?]; [by left|right; lia].
Qed.

(** Writing the inode back does not touch the file. *)
Lemma inode_view s V c i K V1 i1 :
  growing s V c i K → i_addrs i1 = i_addrs i → (∀ y, y ≠ IBLOCK (i_inum i) → V1 y = V y) →
  (∀ k, 0 ≤ k < K → fblock V1 i1 k = fblock V i k) ∧ ∀ j, 0 ≤ j < 512 * K → fbyte V1 i1 j = fbyte V i j.
Proof.
  intros G Ea Hout. assert (∀ k, 0 ≤ k < K → fblock V1 i1 k = fblock V i k) as Hb.
  { intros k Hk. unfold fblock. rewrite Ea. destruct (Z.ltb_spec k NDIRECT); [done|]. rewrite Hout; [done|].
    apply (ind_marked _ _ _ _ _ G). apply (ind_present _ _ _ _ _ G). lia. }
  split; [done|]. intros j Hj.
  assert (0 ≤ j / 512 < K) as Hk by (split; [apply Z.div_pos; lia|apply Z.div_lt_upper_bound; lia]).
  unfold fbyte. simpl. rewrite Hb, Hout; [done|by apply (file_marked _ _ _ _ _ G)|done].
Qed.

(** The inode is written back. *)
Lemma growing_iblock s s' V c i K z d :
  growing s V c i K → placed s s' → growing s' (<[IBLOCK (i_inum i):=d]> V) c (with_i_size z i) K.
Proof.
  intros G Pl. pose proof G as [[F1 F2 F3 F4 F5 F6 F7] G2 G3 [G4 G4'] G5 G6]. set (x := IBLOCK (i_inum i)) in *. set (V' := <[x:=d]> V).
  pose proof G4' as (_ & _ & Hx1 & Hxm).
  assert (NDIRECT < K → i_addrs i !!! 11%nat ≠ x) as H11.
  { intros HK. apply (G3 (i_addrs i !!! 11%nat)). right. split; [by apply (ind_present s V c i K)|done]. }
  assert (∀ k, 0 ≤ k < K → fblock V' (with_i_size z i) k = fblock V i k) as Eb.
  { intros k Hk. by apply (fblock_outside V i K x d k H11 Hk). }
  assert (∀ y, marked V y → marked V' y) as Hmk.
  { intros y. apply marked_mono; [by apply fn_lookup_insert_ne|]. intros b Hb. unfold V'. rewrite plain_used by auto. done. }
  split.
  - split; try done.
    + intros k Hk. rewrite Eb by done. destruct (F4 k Hk). eauto using placed_readable, placed_home.
    + intros Hk. destruct (F5 Hk). eauto using placed_readable, placed_home.
    + intros j k Hj Hk. rewrite !Eb by done. by apply F6.
    + intros Hk k Hk'. rewrite Eb by done. by apply F7.
  - by eapply plain_alloc.
  - intros y Hy. assert (fblocks V i K y) as Hy'.
    { destruct Hy as [(k & Hk & ->)|Hy]; [left; exists k; by rewrite Eb|by right]. }
    destruct (G3 y Hy'). auto.
  - split; [by eapply placed_home|by apply Hmk].
  - done.
  - intros Ha. destruct (G6 Ha) as (I1 & I2 & I3). split_and!; [by eapply placed_home|..].
    + intros k Hk. rewrite Eb by done. by apply I2.
    + intros k Hk. rewrite <-(I3 k Hk), !fblock_high by lia. cbn. unfold V'. rewrite fn_lookup_insert_ne; [done|].
      apply not_eq_sym, (G3 (i_addrs i !!! 11%nat)). by right.
Qed.

Lemma iblock_grown s V c i K z d off :
  growing s V c i K → grown true V c i K (<[IBLOCK (i_inum i):=d]> V) (with_i_size z i) K off [].
Proof.
  intros G. pose proof (gw_inode _ _ _ _ _ G) as [_ (_ & _ & Hx1 & Hxm)].
  destruct (inode_view s V c i K (<[IBLOCK (i_inum i):=d]> V) (with_i_size z i) G eq_refl) as [Eb Ej].
  { intros y Hy. by apply fn_lookup_insert_ne. }
  split; try done.
  - by apply fn_lookup_insert_ne.
  - intros b Hb. rewrite plain_used by auto. done.
  - intros x [(k & Hk & ->)|Hx]; left; [left; exists k; by rewrite Eb|by right].
  - intros x _ _ _ _ Hx. by apply fn_lookup_insert_ne, not_eq_sym, Hx.
  - intros j Hj. rewrite decide_False by (simpl; lia). rewrite (proj2 (Z.ltb_lt _ _)) by lia. by apply Ej.
Qed.

(** The inode on disk is the one in memory. *)
Definition di_of (i : inode) : dinode := mk_dinode (i_type i) (i_major i) (i_minor i) (i_nlink i) (i_size i) (i_addrs i).

(** The other inodes are as they were. *)
Definition same_inodes (V : Z → list Z) (i : inode) (K : Z) (V' : Z → list Z) : Prop :=
  0 ≤ i_inum i < 2 ^ 32 → ∀ n, 0 ≤ n < 2 ^ 32 → n ≠ i_inum i → marked V (IBLOCK n) → ¬ fblocks V i K (IBLOCK n) →
  dinode_at V' n = dinode_at V n.

Lemma grown_inodes s V c i K V' i' K' off src :
  growing s V c i K → grown false V c i K V' i' K' off src → same_inodes V i K V'.
Proof.
  intros G Gn _ n _ _ (M1 & M2 & _ & M4) Hf. unfold dinode_at. f_equal.
  apply (gn_other _ _ _ _ _ _ _ _ _ _ Gn); try done. apply M4, (al_base _ _ _ (gw_alloc _ _ _ _ _ G)).
Qed.

(** The end of [writei]: the size has changed, and the inode is written back. *)
Lemma write_back s V L T c ip i K n E z off :
  writing s V L T c ip i K n E →
  wp (iupdate ip) (λ _ s', ∃ V' L', writing s' V' L' T c ip (with_i_size z i) K n E ∧
      wrote_file true s V c ip i K s' V' (with_i_size z i) K off [] ∧
      (inode_wf (with_i_size z i) → dinode_at V' (i_inum i) = di_of (with_i_size z i)) ∧
      ∀ n, 0 ≤ i_inum i < 2 ^ 32 → 0 ≤ n < 2 ^ 32 → n ≠ i_inum i → dinode_at V' n = dinode_at V n)
    (set_inodes (<[ip:=with_i_size z i]> (ks_inodes s)) s).
Proof.
  intros [Hs Hi G Wq Wf Wm Wi Wa]. set (i2 := with_i_size z i). set (s2 := set_inodes _ s).
  assert (txn s2 V ∅ ∅ L) as Hs2 by by apply txn_inodes. pose proof (lookup_lt_Some _ _ _ Hi) as Hlt.
  assert (ks_inodes s2 !! ip = Some i2) as Hi2 by by apply list_lookup_insert_eq.
  pose proof (gw_inode _ _ _ _ _ G) as [Hih (_ & _ & Hx1 & Hxm)].
  eapply wp_mono.
  { apply (iupdate_spec s2 V ∅ ∅ L ip i2 0 0 Hs2 Hi2); try done; [apply G|].
    destruct (quota_room _ _ _ _ _ _ _ Hs Wq). split; cbn; lia. }
  intros [] s3 (C3 & Hs3 & _). change (i_inum i2) with (i_inum i) in Hs3. set (x := IBLOCK (i_inum i)) in *.
  set (V' := <[x:=_]> V) in *. exists V', ({[x]} ∪ L). pose proof (carries_placed _ _ C3) as Pl.
  assert (map_block V' c = map_block V c) as Em by (unfold map_block, V'; by rewrite fn_lookup_insert_ne). split_and!.
  - split; rewrite ?Em; try done.
    + by rewrite (carries_inodes _ _ C3).
    + by eapply growing_iblock.
    + pose proof (qt_sub _ _ _ _ _ Wq). eapply (quota_step s2 _ _ _ _ _ _ _ _ _ 0); [by destruct Wq|by apply carries_size|set_solver|left; split; [done|done]].
    + apply plain_free; [done|done| |done]. apply (al_base _ _ _ (gw_alloc _ _ _ _ _ G)).
  - split; [done|by rewrite (carries_inodes _ _ C3)|by eapply iblock_grown].
  - intros Hwf. unfold dinode_at, V'. fold x. rewrite fn_lookup_insert. apply get_put_dinode; [|apply ioff_bound|done].
    by apply (txn_block_ok _ _ _ _ _ Hs).
  - intros n' Hn Hn' Hne. apply dinode_at_other; try done; [|apply (gw_file _ _ _ _ _ G)].
    by apply (txn_block_ok _ _ _ _ _ Hs).
Qed.

(** [writei] of [src] at an offset within the file. *)
Lemma writei_grow s V L T c ip i K src off nb E :
  let m := Z.of_nat (length src) in
  writing s V L T c ip i K nb E → i_type i ≠ T_DEV → bytes_ok src → 0 ≤ off ≤ i_size i → i_size i ≤ 512 * K →
  off + m ≤ 512 * E → E ≤ NDIRECT + NINDIRECT → nblocks off m ≤ Z.of_nat nb →
  wp (writei ip src off m) (λ r s', r = m ∧ ∃ V' L' T' i' K', writing s' V' L' T' c ip i' K' 0 E ∧
    wrote_file true s V c ip i K s' V' i' K' off src ∧ i_size i' = Z.max (i_size i) (off + m) ∧ off + m ≤ 512 * K' ∧
    (inode_wf i' → dinode_at V (i_inum i) = di_of i → dinode_at V' (i_inum i) = di_of i') ∧ same_inodes V i K V') s.
Proof.
  intros m W Htype Hsrc Hoff Hsz HE HE' Hnb. pose proof (wg_file _ _ _ _ _ _ _ _ _ _ W) as G. unfold writei. wp_step. eapply wp_get_inode; [apply W|].
  rewrite (proj2 (Z.eqb_neq _ _) Htype). rewrite u32_small by (unfold m in *; lia).
  rewrite (proj2 (Z.ltb_ge _ _)), (proj2 (Z.ltb_ge (off + m) off)) by (unfold m in *; lia). cbn [orb].
  rewrite (proj2 (Z.ltb_ge _ _)) by lia.
  pose proof (Z.mod_pos_bound off 512 ltac:(lia)).
  pose proof (Z.div_pos m 512 ltac:(lia) ltac:(lia)). pose proof (Z.mul_succ_div_gt m 512 ltac:(lia)).
  wp_call (writei_loop_grow (Z.to_nat (m / BSIZE + 3)) s V L T c ip i K src off nb E W); try done; try (fold m; lia).
  fold m. intros r s1 (-> & V1 & L1 & T1 & i1 & K1 & W1 & F1 & Hend & Hsame). pose proof F1 as [Pl In Gn].
  pose proof (gn_size _ _ _ _ _ _ _ _ _ _ Gn eq_refl) as Es. pose proof (gn_inode _ _ _ _ _ _ _ _ _ _ Gn) as Ei.
  assert (i_inum i1 = i_inum i) as En by (rewrite Ei; done). pose proof (grown_inodes _ _ _ _ _ _ _ _ _ _ G Gn) as Hin.
  wp_step. eapply wp_get_inode; [apply W1|]. rewrite Es. wp_step. apply wp_when.
  - intros [Hm Hgt]%andb_prop. apply Z.ltb_lt in Hm, Hgt. wp_step. eapply wp_upd_inode; [apply W1|].
    wp_call (write_back s1 V1 L1 T1 c ip i1 K1 0 E (off + m) (off + m) W1).
    intros [] s2 (V2 & L2 & W2 & F2 & D2 & O2). wp_step. split; [done|]. exists V2, L2, T1, (with_i_size (off + m) i1), K1.
    rewrite En in D2, O2. split_and!; [done| |simpl; lia|done|by intros Hwf _; apply D2|].
    2: { intros Hr n Hn Hne Hmk Hf. rewrite O2 by done. by apply Hin. }
    rewrite <-(app_nil_r src). eapply (wrote_file_trans false true); [exact F1|exact F2|by right|lia].
  - intros Hno. wp_step. split; [done|]. apply andb_false_iff in Hno as Hn. rewrite !Z.ltb_ge in Hn.
    destruct Hsame as [[-> ->]|]; [|lia]. exists V1, L1, T1, i, K. split_and!; try done; [|lia|].
    + destruct F1. split; [done..|by apply grown_upd].
    + intros _ <-. unfold dinode_at. f_equal.
      pose proof (gw_inode _ _ _ _ _ G) as [_ (Q1 & Q2 & _ & Q4)]. apply (gn_other _ _ _ _ _ _ _ _ _ _ Gn); try done.
      * intros Hx. by destruct (gw_marked _ _ _ _ _ G _ Hx).
      * apply Q4, (al_base _ _ _ (gw_alloc _ _ _ _ _ G)).
Qed.

(** A transaction that has just begun has room for four blocks of data. *)
Lemma writing_start s V c ip i K E :
  txn s V ∅ ∅ ∅ → 10 ≤ l_size (ks_log s) → ks_inodes s !! ip = Some i → growing s V c i K →
  free V c (Z.to_nat (E - K) + ind_need i E) → ∃ T, writing s V ∅ T c ip i K 4 E.
Proof.
  intros Hs Hl Hi G Hf. set (a := i_addrs i !!! 11%nat).
  exists ({[map_block V c; IBLOCK (i_inum i)]} ∪ if decide (a = 0) then ∅ else {[a]}).
  split; try done; [|set_solver|set_solver|intros Ha; fold a in Ha; rewrite decide_False by done; set_solver].
  split; [done|set_solver|]. pose proof (size_add (map_block V c) {[IBLOCK (i_inum i)]}) as H2. rewrite size_singleton in H2.
  set (T := {[_; _]} : gset Z) in *. unfold ind_need. fold a. case_decide as Ha.
  - rewrite union_empty_r_L. case_decide; lia.
  - rewrite decide_False by naive_solver. pose proof (size_add a T). rewrite (union_comm_L T). lia.
Qed.

End Write.

(** ** What is read after a write *)

(** [old] with [src] put in at [off], and made longer if need be. *)
Definition patch (off : Z) (src old : list Z) : list Z :=
  take (Z.to_nat off) old ++ src ++ drop (Z.to_nat off + length src) old.

Lemma length_patch off src old : 0 ≤ off ≤ Z.of_nat (length old) →
  Z.of_nat (length (patch off src old)) = Z.max (Z.of_nat (length old)) (off + Z.of_nat (length src)).
Proof. intros Ho. unfold patch. rewrite !length_app, length_take, length_drop. lia. Qed.

Lemma lookup_patch off src old j : 0 ≤ off ≤ Z.of_nat (length old) → (j < length (patch off src old))%nat →
  patch off src old !!! j =
    if decide (off ≤ Z.of_nat j < off + Z.of_nat (length src)) then src !!! Z.to_nat (Z.of_nat j - off) else old !!! j.
Proof.
  intros Ho Hj. pose proof (length_patch off src old Ho). unfold patch. rewrite list_lookup_total_alt.
  destruct (decide (Z.of_nat j < off)) as [H1|H1].
  - rewrite lookup_app_l, lookup_take_lt by len. rewrite decide_False by lia. by rewrite list_lookup_total_alt.
  - rewrite lookup_app_r by len. rewrite length_take. destruct (decide (Z.of_nat j < off + Z.of_nat (length src))) as [H2|H2].
    + rewrite lookup_app_l, decide_True by lia. rewrite list_lookup_total_alt. do 2 f_equal. lia.
    + rewrite lookup_app_r, decide_False by lia. rewrite lookup_drop, (list_lookup_total_alt old). do 2 f_equal. lia.
Qed.

Lemma fbytes_total V i n j : (j < n)%nat → fbytes V i 0 n !!! j = fbyte V i (Z.of_nat j).
Proof. intros Hj. unfold fbytes. rewrite list_lookup_total_alt, list_lookup_fmap, lookup_seq_lt by done. done. Qed.

Section ReadBack.
Context `{IdeSpec} `{Devsw}.
#[local] Set Default Proof Using "All".

(** A file whose bytes are [l]. *)
Lemma readi_bytes s V L T c ip i K n E l o k :
  writing s V L T c ip i K n E → i_type i ≠ T_DEV → i_size i ≤ 512 * K → Z.of_nat (length l) = i_size i →
  (∀ j, 0 ≤ j < i_size i → fbyte V i j = l !!! Z.to_nat j) → 0 ≤ o → 0 ≤ k → o + k ≤ i_size i →
  wp (readi ip o k) (λ r _, r = (k, slice (Z.to_nat o) (Z.to_nat k) l)) s.
Proof.
  intros [Hs Hi G Hq _ _ _ _] Hty Hsz Hlen Hb Ho Hk Hok. pose proof (fo_K _ _ _ _ _ (gw_file _ _ _ _ _ G)).
  eapply wp_mono.
  { apply (txn_readi s V ∅ ∅ L ip i K o k Hs Hi Hty (gw_file _ _ _ _ _ G) Hsz); try lia.
    destruct (quota_room _ _ _ _ _ _ _ Hs Hq). lia. }
  intros r s' [-> _]. rewrite Z.min_l by lia. f_equal. apply list_eq. intros j. rewrite lookup_slice. unfold fbytes.
  rewrite list_lookup_fmap. case_decide as Hj.
  - rewrite lookup_seq_lt by done. cbn. rewrite Hb by lia. rewrite list_lookup_lookup_total_lt by lia. do 2 f_equal. lia.
  - by rewrite lookup_seq_ge by lia.
Qed.


End ReadBack.

(** ** An example: a file of one full block, and a write across its end

    The bitmap marks sectors 0 to 6, of which the last is the file's, and the
    log in sectors 21 to 31. *)

Module GrowExample.
Import Memide Crash.Example InodeExample.

Definition gdisk : list (list Z) :=
  <[4%nat:=splice 0 [0x7f; 0; 0xe0; 0xff] zeros]> (<[6%nat:=replicate 512 97]> disk).
Definition gV : Z → list Z := disk_view (recovered 21 gdisk).
Definition gino : inode := mk_inode 1 1 1 3 2 0 0 1 512 (6 :: replicate 11 0).
Definition gsrc : list Z := [104; 105; 33; 10].

Lemma gdisk_recoverable : recoverable area gdisk.
Proof.
  assert (Forall block_ok gdisk) as Hok by (apply (bool_decide_unpack _); by vm_compute).
  split; [split; simpl; lia|done|]. apply (hdr_wf_empty area gdisk); [split; simpl; lia|done|]. by vm_compute.
Qed.

Lemma below_32 (P : Z → Prop) `{∀ b, Decision (P b)} : forallb (λ b, bool_decide (P b)) (seqZ 0 32) = true → ∀ b, 0 ≤ b < 32 → P b.
Proof.
  intros Hall b Hb. rewrite forallb_forall in Hall. apply (bool_decide_unpack _).
  rewrite (Hall b); [done|]. apply list_elem_of_In, elem_of_seqZ. lia.
Qed.

Lemma gV_map b : 0 ≤ b < 32 → map_block gV b = 4.
Proof. apply (below_32 (λ b, map_block gV b = 4)). by vm_compute. Qed.

Lemma gV_used b : 0 ≤ b < 32 → used gV b = (b <=? 6) || (21 <=? b).
Proof. apply (below_32 (λ b, used gV b = (b <=? 6) || (21 <=? b))). by vm_compute. Qed.

Section State.
Context (s : kstate) (Hh : ∀ x, 0 ≤ x < 21 → home (ks_log s) (length (ks_disk s)) x) (Hl : length (ks_disk s) = 32%nat).
#[local] Set Default Proof Using "All".

Lemma gV_alloc : alloc_ok s gV 0.
Proof.
  assert (nblk gV = 32) as Hn by by vm_compute. split; rewrite ?Hn; try done; try lia.
  - split; rewrite ?Hn; [apply Hh; lia|lia|]. intros b Hb. rewrite gV_map by done. by apply Hh.
  - intros j Hj. rewrite gV_map by done. split; [lia|done].
  - intros b Hb. rewrite gV_used by done. intros [?%Z.leb_gt ?%Z.leb_gt]%orb_false_iff. apply Hh. lia.
Qed.

Lemma gV_growing : growing s gV 0 gino 1.
Proof.
  assert (nblk gV = 32) as Hn by by vm_compute.
  assert (∀ x, x = 2 ∨ x = 6 → marked gV x) as Hm.
  { intros x Hx. unfold marked. rewrite Hn. split_and!; [lia|lia| |lia|].
    { rewrite gV_used by lia. by destruct Hx as [->| ->]. }
   
    intros j Hj. rewrite gV_map by done. lia. }
  split; try done.
  - split; simpl; try lia; try done.
    + intros k Hk. replace k with 0 by lia. split; [|by apply Hh]. split_and!; [done|done| |set_solver]. rewrite Hl. vm_compute. lia.
  - apply gV_alloc.
  - intros x [(k & Hk & ->)|[H0 ->]]; [|done]. replace k with 0 by lia. split; [|done]. apply Hm. by right.
  - split; [by apply Hh|]. apply Hm. by left.
  - intros k Hk. cbn. assert (Forall (λ k, (6 :: replicate 11 0) !!! Z.to_nat k = 0) (seqZ 1 11)) as Hall by by repeat constructor.
    rewrite Forall_forall in Hall. apply Hall, elem_of_seqZ. lia.
Qed.

End State.

Lemma file_writing (n : nat) E : (n ≤ 6)%nat → E ≤ 4 → ∃ s L T, writing s gV L T 0 0 gino 1 n E.
Proof.
  intros Hn HE. assert (ind_need gino E = 0%nat) as Ei by (unfold ind_need; rewrite decide_False; [done|lia]).
  destruct (recovers gdisk gdisk_recoverable ltac:(by vm_compute) ltac:(vm_compute; lia)) as (s & Hidle & Dk & A1 & A2).
  destruct (proj1 (wp_runs _ _ _) (begin_spec _ _ Hidle)) as ([] & s2 & _ & -> & H2). set (s2 := set_log _ s) in H2.
  assert (length (ks_disk s) = 32%nat) as Len by (rewrite Dk; by vm_compute).
  exists (set_inodes [gino] s2), ∅, {[4; 2]}. split.
  - by apply txn_inodes.
  - done.
  - apply gV_growing; [|done]. intros x Hx. unfold home, in_log. simpl. rewrite Len, A1, A2. lia.
  - split; [simpl; lia|set_solver|]. rewrite Ei.
    rewrite size_union, !size_singleton by set_solver. lia.
  - exists {[7; 8; 9]}. rewrite Ei, !size_union, !size_singleton by set_solver. split; [lia|].
    intros b Hb. rewrite !elem_of_union, !elem_of_singleton in Hb. rewrite gV_used by lia. change (nblk gV) with 32.
    split_and!; lia.
  - rewrite gV_map by lia. set_solver.
  - change (IBLOCK (i_inum gino)) with 2. set_solver.
  - done.
Qed.

End GrowExample.

Import Memide InodeExample.

