(* ===== verification/Icache.v ===== *)
(** * Icache: the inode cache (fs.c)

    [iget], [idup], [ilock], [iunlock] and [iput] keep one entry per inode in
    use and count its references; [I_BUSY] is a lock on an entry.  The last
    section is about the entry that [bmap] shares with its neighbour. *)

From S2P Require Import Prelude Bytes CString Kernel Sched Ide Bio Log Crash Block Inode Grow.

(** ** One entry per inode *)

Record icache_ok (l : list inode) : Prop := {
  ic_ref : ∀ i x, l !! i = Some x → 0 ≤ i_ref x;
  ic_uniq : ∀ i j x y, l !! i = Some x → l !! j = Some y → 0 < i_ref x → 0 < i_ref y →
    i_dev x = i_dev y → i_inum x = i_inum y → i = j;
}.

(** Entry [x] caches inode [inum] of device [dev]. *)
Definition caches (dev inum : Z) (x : inode) : bool :=
  (0 <? i_ref x) && (i_dev x =? dev) && (i_inum x =? inum).

Lemma caches_spec dev inum x : caches dev inum x = true ↔ 0 < i_ref x ∧ i_dev x = dev ∧ i_inum x = inum.
Proof. unfold caches. rewrite !andb_true_iff, Z.ltb_lt, !Z.eqb_eq. tauto. Qed.

Lemma iget_scan_spec dev inum l i e :
  iget_scan dev inum l i e =
  match find_from (caches dev inum) i l with
  | Some j => (Some j, (iget_scan dev inum l i e).2)
  | None => (None, match e with Some _ => e | None => find_from (λ x, i_ref x =? 0) i l end)
  end.
Proof.
  revert i e. induction l as [|x l IH]; intros i e; simpl; [by destruct e|].
  change ((0 <? i_ref x) && (i_dev x =? dev) && (i_inum x =? inum)) with (caches dev inum x).
  destruct (caches dev inum x); [done|]. rewrite IH.
  destruct (find_from (caches dev inum) (S i) l); [done|]. destruct e; [done|].
  by destruct (i_ref x =? 0).
Qed.

(** What [iget] does to the table, as a function. *)
Definition iget_entry (dev inum : Z) (l : list inode) : option (nat * inode) :=
  match find_from (caches dev inum) 0 l with
  | Some ip => x ← l !! ip; Some (ip, with_i_ref (i_ref x + 1) x)
  | None =>
      ip ← find_from (λ x, i_ref x =? 0) 0 l; x ← l !! ip;
      Some (ip, with_i_flags 0 (with_i_ref 1 (with_i_inum inum (with_i_dev dev x))))
  end.

(** Taking and dropping one lock around a change of the inode table. *)
Lemma unlocked_inodes lk l s :
  ks_held s = [] → set_held [] (set_inodes l (set_held (lk :: ks_held s) s)) = set_inodes l s.
Proof. intros H. destruct s. simpl in *. by subst. Qed.

Ltac wp_lock := apply wp_acquire; [simpl; set_solver|].

Lemma find_from_lookup {A} (p : A → bool) l i :
  find_from p 0 l = Some i → ∃ x, l !! i = Some x ∧ p x = true ∧ ∀ j y, (j < i)%nat → l !! j = Some y → p y = false.
Proof. intros (n & x & -> & Hx & Hp & Hn)%find_from_Some. simpl. eauto. Qed.

Lemma iget_wp dev inum s ip x :
  ks_held s = [] → iget_entry dev inum (ks_inodes s) = Some (ip, x) →
  wp (iget dev inum) (λ r s', r = ip ∧ s' = set_inodes (<[ip:=x]> (ks_inodes s)) s) s.
Proof.
  intros Hh He. unfold iget. wp_step. apply wp_acquire; [rewrite Hh; set_solver|]. wp_steps.
  rewrite iget_scan_spec. change (ks_inodes (set_held _ s)) with (ks_inodes s). unfold iget_entry in He.
  destruct (find_from (caches dev inum) 0 (ks_inodes s)) as [j|] eqn:E.
  - apply find_from_lookup in E as (x0 & Hx0 & _). rewrite Hx0 in He. simpl in He. simplify_eq.
    wp_step. eapply wp_upd_inode; [done|]. wp_step. eapply wp_release; [simpl; by rewrite Hh|set_solver|].
    wp_step. split; [done|]. by apply unlocked_inodes.
  - destruct (find_from (λ x, i_ref x =? 0) 0 (ks_inodes s)) as [j|] eqn:E'; [|done].
    apply find_from_lookup in E' as (x0 & Hx0 & _). simpl in He. rewrite Hx0 in He. simpl in He. simplify_eq.
    pose proof (lookup_lt_Some _ _ _ Hx0) as Hlt.
    wp_step. eapply wp_upd_inode; [done|]. wp_step. eapply wp_upd_inode; [by apply list_lookup_insert_eq|].
    wp_step. eapply wp_upd_inode; [apply list_lookup_insert_eq; simpl; len|].
    wp_step. eapply wp_upd_inode; [apply list_lookup_insert_eq; simpl; len|].
    wp_step. eapply wp_release; [simpl; by rewrite Hh|set_solver|].
    wp_step. split; [done|]. simpl. rewrite !list_insert_insert_eq. by apply unlocked_inodes.
Qed.

Lemma iget_full dev inum s :
  ks_held s = [] → iget_entry dev inum (ks_inodes s) = None →
  iget dev inum s = Panic "iget: no inodes".
Proof.
  intros Hh He. unfold iget, acquire, holding, mbind at 1, M_bind at 1, gets at 1. 
  unfold mbind at 1, M_bind at 1. rewrite Hh, bool_decide_false by set_solver.
  unfold modify, mbind, M_bind, gets. simpl. rewrite iget_scan_spec. unfold iget_entry in He.
  destruct (find_from (caches dev inum) 0 (ks_inodes s)) as [j|] eqn:E.
  - apply find_from_lookup in E as (x0 & Hx0 & _). by rewrite Hx0 in He.
  - destruct (find_from (λ x, i_ref x =? 0) 0 (ks_inodes s)) as [j|] eqn:E'; [|done].
    apply find_from_lookup in E' as (x0 & Hx0 & _). simpl in He. by rewrite Hx0 in He.
Qed.

(** The entry [iget] returns is for the inode asked for; the table still has
    one entry per inode. *)
Lemma iget_entry_ok dev inum l ip x :
  icache_ok l → iget_entry dev inum l = Some (ip, x) →
  caches dev inum x = true ∧ icache_ok (<[ip:=x]> l) ∧ (ip < length l)%nat ∧
  find_from (caches dev inum) 0 (<[ip:=x]> l) = Some ip.
Proof.
  intros Hok He. assert (∃ x0, l !! ip = Some x0 ∧ caches dev inum x = true ∧ 0 ≤ i_ref x ∧
    (∀ j y, j ≠ ip → l !! j = Some y → 0 < i_ref y → ¬ (i_dev y = dev ∧ i_inum y = inum)) ∧
    ∀ j y, (j < ip)%nat → l !! j = Some y → caches dev inum y = false) as (x0 & Hx0 & Hx & Hr & Hno & Hbefore).
  { unfold iget_entry in He. destruct (find_from (caches dev inum) 0 l) as [j|] eqn:E.
    - apply find_from_lookup in E as (x0 & Hx0 & Hc & Hb). rewrite Hx0 in He. simpl in He. simplify_eq.
      apply caches_spec in Hc as (R0 & D0 & I0). exists x0. split_and!; [done| |simpl; lia| |done].
      + apply caches_spec. simpl. split_and!; [lia|done..].
      + intros j y Hne Hy Hry [Ed Ei]. apply Hne. eapply (ic_uniq l Hok); eauto; congruence.
    - destruct (find_from (λ x, i_ref x =? 0) 0 l) as [j|] eqn:E'; [|done].
      apply find_from_lookup in E' as (x0 & Hx0 & _). simpl in He. rewrite Hx0 in He. simpl in He. simplify_eq.
      rewrite find_from_None in E. exists x0. split_and!; [done| |simpl; lia| |by eauto].
      + apply caches_spec. simpl. split_and!; [lia|done..].
      + intros j y Hne Hy Hry [Ed Ei]. specialize (E _ _ Hy).
        assert (caches dev inum y = true) by (by apply caches_spec). congruence. }
  pose proof (lookup_lt_Some _ _ _ Hx0) as Hlt. apply caches_spec in Hx as Hx'. split_and!; [done| |done|].
  - assert (∀ j y, <[ip:=x]> l !! j = Some y → (j = ip ∧ y = x) ∨ (j ≠ ip ∧ l !! j = Some y)) as Hl.
    { intros j y Hj. apply list_lookup_insert_Some in Hj. naive_solver. }
    split.
    + intros j y [[-> ->]|[_ Hy]]%Hl; [done|]. by eapply (ic_ref l Hok).
    + intros j k y z [[-> ->]|[Nj Hy]]%Hl [[-> ->]|[Nk Hz]]%Hl Ry Rz Ed Ei.
      * done.
      * exfalso. apply (Hno k z); try done. destruct Hx' as (_ & <- & <-). split; congruence.
      * exfalso. apply (Hno j y); try done. destruct Hx' as (_ & <- & <-). split; congruence.
      * by eapply (ic_uniq l Hok).
  - apply find_from_Some. exists ip, x. split_and!; [done|by apply list_lookup_insert_eq|done|].
    intros m y Hm. rewrite list_lookup_insert_ne by lia. eauto.
Qed.

(** C4: [iget] keeps one cache entry per inode: a second [iget] of an inode
    returns the entry of the first, whose reference count then is one more,
    and the table is as well formed as it was. *)
Theorem iget_same_entry dev inum s ip x :
  ks_held s = [] → icache_ok (ks_inodes s) → iget_entry dev inum (ks_inodes s) = Some (ip, x) →
  wp (a ← iget dev inum; b ← iget dev inum; mret (a, b)) (λ r s', r = (ip, ip) ∧
    icache_ok (ks_inodes s') ∧
    ks_inodes s' = <[ip:=with_i_ref (i_ref x + 1) x]> (ks_inodes s) ∧
    caches dev inum x = true) s.
Proof.
  intros Hh Hok He. destruct (iget_entry_ok _ _ _ _ _ Hok He) as (Hc & Hok1 & Hlt & Hf).
  wp_call (iget_wp dev inum s ip x Hh He). intros r s1 [-> ->].
  assert (iget_entry dev inum (<[ip:=x]> (ks_inodes s)) = Some (ip, with_i_ref (i_ref x + 1) x)) as He1.
  { unfold iget_entry. rewrite Hf. simpl. by rewrite list_lookup_insert_eq. }
  destruct (iget_entry_ok _ _ _ _ _ Hok1 He1) as (_ & Hok2 & _).
  rewrite list_insert_insert_eq in Hok2.
  wp_call (iget_wp dev inum (set_inodes (<[ip:=x]> (ks_inodes s)) s) ip _); [done..|].
  intros r s2 [-> ->]. wp_step. simpl. rewrite list_insert_insert_eq. done.
Qed.

Lemma iget_same_entry_witness :
  wp (a ← iget 1 1; b ← iget 1 1; mret (a, b)) (λ r s', r = (0, 0)%nat ∧
    icache_ok (ks_inodes s') ∧
    ks_inodes s' = <[0%nat:=mk_inode 1 1 2 0 0 0 0 0 0 (replicate 12 0)]> (ks_inodes (bss [])) ∧
    caches 1 1 (mk_inode 1 1 1 0 0 0 0 0 0 (replicate 12 0)) = true) (bss []).
Proof.
  apply (iget_same_entry 1 1 (bss []) 0 (mk_inode 1 1 1 0 0 0 0 0 0 (replicate 12 0))); [done| |by vm_compute].
  split.
  - by intros i x [-> _]%lookup_replicate_1.
  - intros i j x y [-> _]%lookup_replicate_1 _ Hx. by vm_compute in Hx.
Defined.

(** ** Locking an entry *)

Section Locking.
Context `{Ide}.

Lemma ilock_busy ip i p pr s :
  ks_held s = [] → ks_cur s = Some p → ks_procs s !! p = Some pr →
  ks_inodes s !! ip = Some i → 1 ≤ i_ref i → hasb (i_flags i) I_BUSY = true →
  ilock ip s = Sleep (set_procs (<[p:=with_p_state SLEEPING (with_p_chan (Some (ChInode ip)) pr)]>
    (ks_procs s)) (set_held [L_ptable] s)).
Proof.
  intros Hh Hc Hp Hi Hr Hb. unfold ilock. erewrite bind_runs by by apply get_inode_runs.
  rewrite (proj2 (Z.ltb_ge _ _) Hr). erewrite bind_runs by (apply acquire_runs; rewrite Hh; set_solver).
  erewrite bind_runs by by apply get_inode_runs. rewrite Hb.
  rewrite (sleep_runs (ChInode ip) L_icache p pr); [done|done|simpl; by rewrite Hh|done|done].
Qed.

Lemma iunlock_spec ip i s :
  ks_held s = [] → ks_inodes s !! ip = Some i → 1 ≤ i_ref i → hasb (i_flags i) I_BUSY = true →
  wp (iunlock ip) (λ _ s', s' = set_procs (wakeup1_proc (ChInode ip) <$> ks_procs s)
    (set_inodes (<[ip:=with_i_flags (Z.land (i_flags i) (Z.lnot I_BUSY)) i]> (ks_inodes s)) s)) s.
Proof.
  intros Hh Hi Hr Hb. unfold iunlock. wp_step. eapply wp_get_inode; [done|].
  rewrite Hb, (proj2 (Z.ltb_ge _ _) Hr). cbn [negb orb]. wp_step.
  apply wp_acquire; [rewrite Hh; set_solver|]. wp_step. eapply wp_upd_inode; [done|]. wp_step.
  apply wp_wakeup; [simpl; rewrite Hh; set_solver|].
  eapply wp_release; [simpl; by rewrite Hh|set_solver|]. destruct s. simpl in *. by subst.
Qed.

(** Locking an inode that is free and already read from disk. *)
Lemma ilock_spec ip i s :
  ks_held s = [] → ks_inodes s !! ip = Some i → 1 ≤ i_ref i → hasb (i_flags i) I_BUSY = false →
  hasb (i_flags i) I_VALID = true →
  wp (ilock ip) (λ _ s', s' =
    set_inodes (<[ip:=with_i_flags (Z.lor (i_flags i) I_BUSY) i]> (ks_inodes s)) s) s.
Proof.
  intros Hh Hi Hr Hb Hv. pose proof (lookup_lt_Some _ _ _ Hi).
  unfold ilock. wp_step. eapply wp_get_inode; [done|]. rewrite (proj2 (Z.ltb_ge _ _) Hr). wp_step.
  apply wp_acquire; [rewrite Hh; set_solver|]. wp_step. eapply wp_get_inode; [done|]. rewrite Hb. wp_step.
  eapply wp_upd_inode; [done|]. wp_step. eapply (wp_release _ []); [simpl; by rewrite Hh|set_solver|].
  wp_step. eapply wp_get_inode; [by apply list_lookup_insert_eq|]. simpl. autorewrite with flags. rewrite Hv.
  unfold when. cbn [negb]. wp_step. destruct s. simpl in *. by subst.
Qed.

(** A process that finds an inode locked sleeps on it without changing the
    table, and is runnable again, with the inode unlocked, once the holder
    calls [iunlock]: the wakeup is not lost. *)
Theorem ilock_sleep_iunlock_wakes ip i p pr q s :
  ks_held s = [] → ks_cur s = Some p → ks_procs s !! p = Some pr →
  ks_inodes s !! ip = Some i → 1 ≤ i_ref i → hasb (i_flags i) I_BUSY = true →
  ∃ s1, ilock ip s = Sleep s1 ∧ ks_inodes s1 = ks_inodes s ∧
    (p_state <$> ks_procs s1 !! p) = Some SLEEPING ∧
    wp (iunlock ip) (λ _ s2,
      (p_state <$> ks_procs s2 !! p) = Some RUNNABLE ∧
      ((λ x, hasb (i_flags x) I_BUSY) <$> ks_inodes s2 !! ip) = Some false)
      (set_cur q (set_held [] s1)).
Proof.
  intros Hh Hc Hp Hi Hr Hb. pose proof (lookup_lt_Some _ _ _ Hp). pose proof (lookup_lt_Some _ _ _ Hi).
  eexists. split; [by eapply ilock_busy|]. simpl. split; [done|].
  rewrite list_lookup_insert_eq by done. split; [done|].
  eapply wp_mono; [by eapply (iunlock_spec ip i)|]. simpl. intros [] s2 ->. simpl.
  rewrite list_lookup_fmap, !list_lookup_insert_eq by done. simpl. split; [|by rewrite flag_clear_0_0].
  unfold wakeup1_proc. by rewrite bool_decide_true.
Qed.

End Locking.

Import Memide.

Lemma ilock_sleep_iunlock_wakes_witness :
  let i := mk_inode 1 1 2 1 2 0 0 1 0 (replicate 12 0) in
  let s := set_cur (Some 3%nat) (set_inodes [i] (bss [])) in
  ∃ s1, ilock 0 s = Sleep s1 ∧ ks_inodes s1 = ks_inodes s ∧
    (p_state <$> ks_procs s1 !! 3%nat) = Some SLEEPING ∧
    wp (iunlock 0) (λ _ s2,
      (p_state <$> ks_procs s2 !! 3%nat) = Some RUNNABLE ∧
      ((λ x, hasb (i_flags x) I_BUSY) <$> ks_inodes s2 !! 0%nat) = Some false)
      (set_cur (Some 5%nat) (set_held [] s1)).
Proof.
  intros i s. apply (ilock_sleep_iunlock_wakes 0 i 3 zero_proc (Some 5%nat) s); try done.
Defined.

(** ** References *)

Lemma idup_spec ip i s :
  ks_held s = [] → ks_inodes s !! ip = Some i →
  wp (idup ip) (λ r s', r = ip ∧ s' = set_inodes (<[ip:=with_i_ref (i_ref i + 1) i]> (ks_inodes s)) s) s.
Proof.
  intros Hh Hi. unfold idup. wp_step. apply wp_acquire; [rewrite Hh; set_solver|]. wp_step.
  eapply wp_upd_inode; [done|]. wp_step. eapply wp_release; [simpl; by rewrite Hh|set_solver|].
  wp_step. split; [done|]. by apply unlocked_inodes.
Qed.

(** [iput] of a reference that is not the last one to an unlinked inode. *)
Lemma iput_spec `{Ide} ip i s :
  ks_held s = [] → ks_inodes s !! ip = Some i →
  (i_ref i =? 1) && hasb (i_flags i) I_VALID && (i_nlink i =? 0) = false →
  wp (iput ip) (λ _ s', s' = set_inodes (<[ip:=with_i_ref (i_ref i - 1) i]> (ks_inodes s)) s) s.
Proof.
  intros Hh Hi Hno. unfold iput. wp_step. apply wp_acquire; [rewrite Hh; set_solver|]. wp_step.
  eapply wp_get_inode; [done|]. rewrite Hno. wp_step. unfold when. do 2 wp_step. eapply wp_upd_inode; [done|].
  eapply wp_release; [simpl; by rewrite Hh|set_solver|]. by apply unlocked_inodes.
Qed.

(** ** The thirteenth address

    The disk inode has [NDIRECT + 2] addresses, the in-memory one
    [NDIRECT + 1].  [bmap] keeps the doubly indirect block in element
    [NDIRECT + 1], which is the [dev] field of the next cache entry. *)

Section Double.
Context `{IdeSpec}.
#[local] Set Default Proof Using "All".

(** Allocating the doubly indirect block. *)
Lemma thirteenth_alloc ip i nx s V L T c n N :
  txn s V ∅ ∅ L → alloc_ok s V c → quota s ∅ L T (S n) → map_block V c ∈ T → free V c (S N) →
  ks_inodes s !! ip = Some i → i_dev i = 1 → ks_inodes s !! S ip = Some nx → i_dev nx = 0 →
  wp (bmap_direct ip 12) (λ y s', ks_inodes s' = <[S ip:=with_i_dev y nx]> (ks_inodes s) ∧ ∃ V' L', txn s' V' ∅ ∅ L' ∧
    quota s' ∅ L' ({[y]} ∪ T) n ∧ allocated V c y s' V' ∧ free V' c N) s.
Proof.
  intros Hs Ha Hq HT Hf Hi Hdev Hnx Hnx0. unfold bmap_direct, get_addr.
  rewrite decide_False, decide_True by lia. wp_steps. eapply wp_get_inode; [done|]. wp_step.
  rewrite Hnx0. cbn [Z.eqb]. wp_step. eapply wp_get_inode; [done|]. rewrite Hdev.
  wp_call (balloc_grow s V ∅ ∅ L T n N c Hs Ha Hq HT Hf); [set_solver|].
  intros y s1 (C1 & V' & L' & Hs1 & Hq1 & Al). unfold set_addr. rewrite decide_False, decide_True by lia. wp_step.
  eapply wp_upd_inode; [by rewrite (carries_inodes _ _ C1)|]. wp_step. rewrite (carries_inodes _ _ C1).
  split; [done|]. exists V', L'. split_and!.
  - by apply txn_inodes.
  - by destruct Hq1.
  - by apply allocated_inodes.
  - eapply allocated_free; [|done..]. apply (al_base _ _ _ Ha).
Qed.

(** A block just allocated is in use, and not of the bitmap. *)
Lemma allocated_marked s V c y s' V' : alloc_ok s V c → allocated V c y s' V' → marked V' y.
Proof.
  intros Ha [A1 A2 A3 A4 A5 A6 A7 A8]. unfold marked, map_block. rewrite A5. split_and!; [lia|lia| |lia|].
  - rewrite A6, bool_decide_true by (done || lia). done.
  - intros j Hj E. destruct (al_map _ _ _ Ha j Hj). unfold map_block in *. congruence.
Qed.

Lemma allocated_keeps V c y s' V' x : allocated V c y s' V' → marked V x → x ≠ y ∧ marked V' x.
Proof.
  intros [A1 A2 A3 A4 A5 A6 A7 A8] Hx. pose proof Hx as (_ & Hu & _). split; [congruence|]. eapply marked_mono; [done| |done].
  intros b Hb Hb'. rewrite A6, Hb' by done. apply orb_true_r.
Qed.


End Double.

