(* ===== verification/Dir.v ===== *)
(** * Dir: directories and path names (fs.c)

    A directory is a file of 16-byte entries; a path is a string of elements
    separated by slashes. *)

From S2P Require Import Prelude Bytes CString Kernel Sched Ide Bio Log Crash Block Inode Icache.

(** ** Directory entries (fs.h)

    [struct dirent]: a 16-bit inode number and a name of [DIRSIZ] bytes. *)

Definition de_inum (de : list Z) : Z := get16 0 de.
Definition de_name (de : list Z) : list Z := drop 2 de.

Definition namecmp (s t : list Z) : option Z := strncmp s t DIRSIZ.

(** ** Path elements

    Paths are the memory from a pointer on; [None] is an access beyond it. *)

Fixpoint skip_slash (p : list Z) : option (list Z) :=
  match p with
  | [] => None
  | c :: r => if c =? 47 then skip_slash r else Some p
  end.

(** The length of the element at the front of [p], and what follows it. *)
Fixpoint scan_elem (p : list Z) : option (nat * list Z) :=
  match p with
  | [] => None
  | c :: r =>
      if (c =? 47) || (c =? 0) then Some (O, p)
      else '(n, q) ← scan_elem r; Some (S n, q)
  end.

(** [skipelem]: the rest of the path and the new contents of [name], or
    [None] (a null pointer) if there is no element. *)
Definition skipelem (path name : list Z) : option (option (list Z * list Z)) :=
  path ← skip_slash path;
  c ← head path;
  if c =? 0 then Some None else
  '(len, rest) ← scan_elem path;
  let name' :=
    if decide (DIRSIZ ≤ len)%nat then splice 0 (take DIRSIZ path) name
    else <[len:=0]> (splice 0 (take len path) name) in
  rest ← skip_slash rest;
  Some (Some (rest, name')).

Section Code.
Context `{Ide} `{Devsw}.

(** The index of the inode found and the offset of its entry. *)
Fixpoint dirlookup_loop (dp : nat) (name : list Z) (off : Z) (fuel : nat) : K (option (nat * Z)) :=
  match fuel with
  | O => fault
  | S fuel' =>
      d ← get_inode dp;
      if negb (off <? i_size d) then mret None else
      de ← readi dp off 16;
      if negb (de.1 =? 16) then panic "dirlink read" else
      if de_inum de.2 =? 0 then dirlookup_loop dp name (u32 (off + 16)) fuel' else
      c ← the (namecmp name (de_name de.2));
      if c =? 0 then
        ip ← iget (i_dev d) (de_inum de.2);
        mret (Some (ip, off))
      else dirlookup_loop dp name (u32 (off + 16)) fuel'
  end.

(** The loop reads at most [size / 16 + 1] entries. *)
Definition dirlookup (dp : nat) (name : list Z) : K (option (nat * Z)) :=
  d ← get_inode dp;
  if negb (i_type d =? T_DIR) then panic "dirlookup not DIR" else
  dirlookup_loop dp name 0 (Z.to_nat (i_size d / 16 + 2)).

(** The offset of the first entry whose inode number is zero, or the end. *)
Fixpoint dirlink_loop (dp : nat) (off : Z) (fuel : nat) : K Z :=
  match fuel with
  | O => fault
  | S fuel' =>
      d ← get_inode dp;
      if negb (off <? i_size d) then mret off else
      de ← readi dp off 16;
      if negb (de.1 =? 16) then panic "dirlink read" else
      if de_inum de.2 =? 0 then mret off else dirlink_loop dp (off + 16) fuel'
  end.

(** The new entry; [strncpy] and the assignment to [inum] fill all of it. *)
Definition new_dirent (name : list Z) (inum : Z) : option (list Z) :=
  de ← strncpy (replicate 16 0) 2 name DIRSIZ;
  Some (put16 0 inum de).

Definition dirlink (dp : nat) (name : list Z) (inum : Z) : K Z :=
  r ← dirlookup dp name;
  match r with
  | Some (ip, _) => iput ip;; mret (-1)
  | None =>
      d ← get_inode dp;
      off ← dirlink_loop dp 0 (Z.to_nat (i_size d / 16 + 2));
      de ← the (new_dirent name inum);
      n ← writei dp de off 16;
      if negb (n =? 16) then panic "dirlink" else mret 0
  end.

(** The loop of [namex]: the inode found and the contents of [name]. *)
Fixpoint namex_loop (ip : nat) (path : list Z) (nameiparent : bool) (name : list Z) (fuel : nat) :
  K (option nat * list Z) :=
  match fuel with
  | O => fault
  | S fuel' =>
      e ← the (skipelem path name);
      match e with
      | None =>
          if nameiparent then iput ip;; mret (None, name) else mret (Some ip, name)
      | Some (path, name) =>
          ilock ip;;
          i ← get_inode ip;
          if negb (i_type i =? T_DIR) then iunlockput ip;; mret (None, name) else
          c ← the (head path);
          if nameiparent && (c =? 0) then iunlock ip;; mret (Some ip, name) else
          next ← dirlookup ip name;
          match next with
          | None => iunlockput ip;; mret (None, name)
          | Some (next, _) => iunlockput ip;; namex_loop next path nameiparent name fuel'
          end
      end
  end.

(** Every turn of the loop consumes a character of the path. *)
Definition namex (path : list Z) (nameiparent : bool) (name : list Z) : K (option nat * list Z) :=
  c ← the (head path);
  ip ← (if c =? 47 then iget ROOTDEV ROOTINO
        else p ← myproc; pr ← get_proc p; cwd ← the (p_cwd pr); idup cwd);
  namex_loop ip path nameiparent name (S (length path)).

Definition namei (path : list Z) : K (option nat) :=
  r ← namex path false (replicate DIRSIZ 0); mret r.1.

Definition nameiparent (path name : list Z) : K (option nat * list Z) := namex path true name.

End Code.

(** ** skipelem

    [components s]: the elements of the path [s], the nonempty strings
    between its slashes. *)

Fixpoint span_elem (s : list Z) : list Z * list Z :=
  match s with
  | [] => ([], [])
  | c :: r => if c =? 47 then ([], s) else let '(a, b) := span_elem r in (c :: a, b)
  end.

Fixpoint comps (s cur : list Z) : list (list Z) :=
  match s with
  | [] => match cur with [] => [] | _ => [cur] end
  | c :: r =>
      if c =? 47 then match cur with [] => comps r [] | _ => cur :: comps r [] end
      else comps r (cur ++ [c])
  end.

Definition components (s : list Z) : list (list Z) := comps s [].

(** [s] without its leading slashes. *)
Fixpoint drop_slash (s : list Z) : list Z :=
  match s with
  | [] => []
  | c :: r => if c =? 47 then drop_slash r else s
  end.

Lemma comps_span s cur : cur ≠ [] → comps s cur = (cur ++ (span_elem s).1) :: components (span_elem s).2.
Proof.
  revert cur. induction s as [|c r IH]; intros cur Hcur; simpl; [rewrite app_nil_r; by destruct cur|].
  unfold components. destruct (c =? 47) eqn:E; simpl.
  - rewrite app_nil_r, E. by destruct cur.
  - rewrite IH by (by destruct cur). destruct (span_elem r). simpl. by rewrite <-app_assoc.
Qed.

Lemma components_cons c r :
  c ≠ 47 → components (c :: r) = (c :: (span_elem r).1) :: components (span_elem r).2.
Proof.
  intros Hc. unfold components at 1. simpl. rewrite (proj2 (Z.eqb_neq _ _) Hc). by rewrite comps_span.
Qed.

Lemma components_drop_slash s : components (drop_slash s) = components s.
Proof.
  induction s as [|c r IH]; simpl; [done|]. destruct (c =? 47) eqn:E; [|done].
  rewrite IH. unfold components. simpl. by rewrite E.
Qed.

Lemma drop_slash_head s c r : drop_slash s = c :: r → c ≠ 47.
Proof.
  induction s as [|c' r' IH]; simpl; [done|]. destruct (Z.eqb_spec c' 47); [done|]. by intros [= <- _].
Qed.

Lemma drop_slash_not_elem z s : z ∉ s → z ∉ drop_slash s.
Proof.
  induction s as [|c r IH]; simpl; [done|]. rewrite not_elem_of_cons. intros [Hc Hr].
  destruct (c =? 47); [by apply IH|]. by apply not_elem_of_cons.
Qed.

(** A C string: its characters, a zero, and the memory that follows. *)
Definition cstring (s junk : list Z) : list Z := s ++ 0 :: junk.

Lemma skip_slash_spec s junk : skip_slash (cstring s junk) = Some (cstring (drop_slash s) junk).
Proof.
  unfold cstring. induction s as [|c r IH]; simpl; [done|]. by destruct (c =? 47).
Qed.

Lemma scan_elem_spec s junk :
  0 ∉ s → scan_elem (cstring s junk) = Some (length (span_elem s).1, cstring (span_elem s).2 junk).
Proof.
  unfold cstring. induction s as [|c r IH]; intros H0; simpl; [done|].
  apply not_elem_of_cons in H0 as [Hc Hr]. destruct (c =? 47) eqn:E; simpl; [done|].
  rewrite (proj2 (Z.eqb_neq _ _)) by congruence. rewrite IH by done. by destruct (span_elem r).
Qed.

Lemma span_elem_app s : (span_elem s).1 ++ (span_elem s).2 = s.
Proof.
  induction s as [|c r IH]; simpl; [done|]. destruct (c =? 47); [done|]. destruct (span_elem r).
  simpl in *. by rewrite IH.
Qed.

Lemma cstr_full n a r : 0 ∉ a → length a = n → cstr n (a ++ r) = a.
Proof.
  revert n. induction a as [|c a IH]; intros n H0 <-; simpl in *; [done|].
  apply not_elem_of_cons in H0 as [Hc Ha]. rewrite (proj2 (Z.eqb_neq _ _)) by congruence.
  f_equal. by apply IH.
Qed.

(** The contents of [name] after an element [a] was copied to it. *)
Lemma copied_name a b name :
  0 ∉ a → length name = DIRSIZ →
  let name' := if decide (DIRSIZ ≤ length a)%nat then splice 0 (take DIRSIZ (a ++ b)) name
               else <[length a:=0]> (splice 0 (take (length a) (a ++ b)) name) in
  length name' = DIRSIZ ∧ cstr DIRSIZ name' = take DIRSIZ a.
Proof.
  intros H0 Hn. cbn zeta. case_decide as Hl.
  - rewrite length_splice. split; [done|]. rewrite take_app_le by done.
    rewrite splice_all by (rewrite length_take; lia). rewrite <-(app_nil_r (take DIRSIZ a)) at 1.
    apply cstr_full; [|rewrite length_take; lia]. intros Hin. apply H0.
    rewrite <-(take_drop DIRSIZ a). apply elem_of_app. by left.
  - rewrite length_insert, length_splice. split; [done|]. rewrite take_app_length.
    rewrite splice_front by lia. rewrite (take_ge a) by lia.
    destruct (drop (length a) name) as [|z l] eqn:E.
    { apply (f_equal length) in E. rewrite length_drop in E. simpl in E. lia. }
    rewrite insert_app_r_alt by lia. rewrite Nat.sub_diag. cbn [insert list_insert]. apply cstr_app; [done|lia].
Qed.

(** [skipelem] splits a path as its comment says.  It returns null exactly
    when the path has no element; otherwise [name] holds the first element cut
    to [DIRSIZ] characters, and the path returned has the remaining elements
    and no leading slash. *)
Lemma skipelem_components s junk name :
  0 ∉ s → length name = DIRSIZ →
  match components s with
  | [] => skipelem (cstring s junk) name = Some None
  | a :: rest => ∃ s' name',
      skipelem (cstring s junk) name = Some (Some (cstring s' junk, name')) ∧
      components s' = rest ∧ head s' ≠ Some 47 ∧ (0 ∉ s') ∧
      length name' = DIRSIZ ∧ cstr DIRSIZ name' = take DIRSIZ a
  end.
Proof.
  intros H0 Hname. rewrite <-components_drop_slash. unfold skipelem. rewrite skip_slash_spec. simpl.
  pose proof (drop_slash_not_elem 0 s H0) as Ht.
  destruct (drop_slash s) as [|c r] eqn:Et; [done|]. pose proof (drop_slash_head _ _ _ Et) as Hc.
  rewrite components_cons by done. apply not_elem_of_cons in Ht as Ht'. destruct Ht' as [Hc0 Hr].
  pose proof (scan_elem_spec (c :: r) junk Ht) as Hscan. pose proof (span_elem_app r) as Happ.
  simpl in Hscan. rewrite (proj2 (Z.eqb_neq _ _) Hc) in Hscan.
  destruct (span_elem r) as [a b]. simpl in *.
  assert ((c =? 0) = false) as Ec0 by (by apply Z.eqb_neq).
  unfold cstring in *. simpl in *. rewrite Ec0 in Hscan |- *. rewrite (proj2 (Z.eqb_neq _ _) Hc). simpl in *.
  rewrite Hscan. simpl.
  fold (cstring b junk). rewrite skip_slash_spec. simpl.
  assert ((0 ∉ c :: a) ∧ (0 ∉ b)) as [Ha Hb] by (subst r; set_solver).
  eexists (drop_slash b), _. split; [done|]. rewrite components_drop_slash. split; [done|].
  split; [|split].
  - destruct (drop_slash b) eqn:Eb; [done|]. simpl. apply drop_slash_head in Eb. congruence.
  - by apply drop_slash_not_elem.
  - pose proof (copied_name (c :: a) (b ++ 0 :: junk) name Ha Hname) as Hcopy.
    rewrite <-Happ, <-app_assoc. exact Hcopy.
Qed.

(** ** dirlookup *)

(** The [n] entries of a directory, and whether one is for [name]. *)
Definition dirents (V : Z → list Z) (i : inode) (n : nat) : list (list Z) :=
  (λ k, fbytes V i (16 * Z.of_nat k) 16) <$> seq 0 n.

Definition is_entry (name : list Z) (de : list Z) : bool :=
  negb (de_inum de =? 0) && bool_decide (cstr DIRSIZ name = cstr DIRSIZ (de_name de)).

Lemma cstr_ok_full n p : (n ≤ length p)%nat → cstr_ok n p = true.
Proof.
  revert p. induction n as [|n IH]; intros [|c p] H; simpl in *; try done; [lia|].
  destruct (c =? 0); [done|]. apply IH. lia.
Qed.

Lemma namecmp_spec name de :
  cstr_ok DIRSIZ name = true → length de = 16%nat →
  ∃ c, namecmp name (de_name de) = Some c ∧
    (c =? 0) = bool_decide (cstr DIRSIZ name = cstr DIRSIZ (de_name de)).
Proof.
  intros Hn Hd. destruct (strncmp_spec name (de_name de) DIRSIZ Hn) as (c & Hc & E).
  { apply cstr_ok_full. unfold de_name. rewrite length_drop. lia. }
  exists c. split; [done|]. destruct (Z.eqb_spec c 0) as [H0|H0].
  - symmetry. apply bool_decide_true. by apply E.
  - symmetry. apply bool_decide_false. intros ?. by apply H0, E.
Qed.

Lemma iget_entry_free dev inum l j x :
  l !! j = Some x → i_ref x = 0 → is_Some (iget_entry dev inum l).
Proof.
  intros Hj Hr. unfold iget_entry. destruct (find_from (caches dev inum) 0 l) as [k|] eqn:E.
  - apply find_from_lookup in E as (y & -> & _). simpl. eauto.
  - destruct (find_from (λ x, i_ref x =? 0) 0 l) as [k|] eqn:E'.
    + apply find_from_lookup in E' as (y & Hy & _). simpl. rewrite Hy. simpl. eauto.
    + rewrite find_from_None in E'. specialize (E' _ _ Hj). simpl in E'. by rewrite Hr in E'.
Qed.

Section Lookup.
Context `{IdeSpec} `{Devsw}.
Set Default Proof Using "All".

(** What [dirlookup] returns and does to the inode cache. *)
Definition lookup_post (V : Z → list Z) (i : inode) (found : option nat) (s : kstate)
    (r : option (nat * Z)) (s' : kstate) : Prop :=
  match found with
  | None => r = None ∧ ks_inodes s' = ks_inodes s
  | Some k => ∃ ip x,
      iget_entry 1 (de_inum (fbytes V i (16 * Z.of_nat k) 16)) (ks_inodes s) = Some (ip, x) ∧
      r = Some (ip, 16 * Z.of_nat k) ∧ ks_inodes s' = <[ip:=x]> (ks_inodes s)
  end.

Lemma dirlookup_loop_spec V B D i name dp free fx k m fuel s :
  bio s V B D → ks_inodes s !! dp = Some i → i_dev i = 1 → i_type i = T_DIR →
  i_size i = 16 * Z.of_nat (k + m) → i_size i < 2 ^ 31 →
  (size (B ∪ D) < NBUF)%nat → mapped s V B i ((i_size i + 511) / 512) → cstr_ok DIRSIZ name = true →
  ks_inodes s !! free = Some fx → i_ref fx = 0 → (m < fuel)%nat →
  wp (dirlookup_loop dp name (16 * Z.of_nat k) fuel) (λ r s',
    lookup_post V i (find_from (is_entry name) k (drop k (dirents V i (k + m)))) s r s' ∧
    ks_disk s' = ks_disk s ∧ ks_wtrace s' = ks_wtrace s ∧ ks_log s' = ks_log s ∧ bio s' V B D) s.
Proof.
  intros Hs Hi Hdev Htype. revert k fuel s Hs Hi.
  induction m as [|m IH]; intros k fuel s Hs Hi Hsize Hlt Hsz Hm Hname Hfree Hfx Hfuel.
  - destruct fuel as [|fuel]; [lia|]. cbn [dirlookup_loop]. wp_step. eapply wp_get_inode; [done|].
    rewrite (proj2 (Z.ltb_ge _ _)) by lia. cbn [negb]. wp_step.
    rewrite drop_ge by (unfold dirents; rewrite length_fmap, length_seq; lia). done.
  - destruct fuel as [|fuel]; [lia|]. cbn [dirlookup_loop]. wp_step. eapply wp_get_inode; [done|].
    rewrite (proj2 (Z.ltb_lt _ _)) by lia. cbn [negb].
    wp_call (readi_spec s V B D dp i (16 * Z.of_nat k) 16); try done; try lia.
    replace (Z.min 16 (i_size i - 16 * Z.of_nat k)) with 16 by lia. change (Z.to_nat 16) with 16%nat.
    intros r s1 (-> & St1 & Dk1 & Tr1 & Hs1 & _). cbn [fst snd].
    set (de := fbytes V i (16 * Z.of_nat k) 16).
    assert (drop k (dirents V i (k + S m)) = de :: drop (S k) (dirents V i (k + S m))) as Hdrop.
    { apply drop_S. unfold dirents. rewrite list_lookup_fmap, lookup_seq_lt by lia. done. }
    assert (length de = 16%nat) as Hde by apply length_fbytes.
    assert (i_inodes1 : ks_inodes s1 = ks_inodes s) by apply (storage_inodes _ _ St1).
    assert (u32 (16 * Z.of_nat k + 16) = 16 * Z.of_nat (S k)) as Eoff by (rewrite u32_small; lia).
    rewrite Hdrop. cbn [find_from]. unfold is_entry at 1. cbn [Z.eqb negb Pos.eqb].
    destruct (namecmp_spec name de Hname Hde) as (c & Hc & Ec).
    assert (Hnext : wp (dirlookup_loop dp name (u32 (16 * Z.of_nat k + 16)) fuel) (λ r s',
      lookup_post V i (find_from (is_entry name) (S k) (drop (S k) (dirents V i (k + S m)))) s r s' ∧
      ks_disk s' = ks_disk s ∧ ks_wtrace s' = ks_wtrace s ∧ ks_log s' = ks_log s ∧ bio s' V B D) s1).
    { rewrite Eoff. eapply wp_mono.
      - eapply (IH (S k) fuel s1); try done; rewrite ?i_inodes1; try done; try lia.
        destruct Hm as (M1 & M2 & M3 & M4). split_and!; [done|done|intros j Hj|intros Hj];
          (eapply readable_step; [by rewrite Dk1|]); auto.
      - intros r s2 (Hpost & Dk2 & Tr2 & Lg2 & Hs2). pose proof (storage_log _ _ St1). replace (S k + m)%nat with (k + S m)%nat in Hpost by lia.
        unfold lookup_post in *. rewrite i_inodes1 in Hpost. split_and!; try congruence; done. }
    destruct (Z.eqb_spec (de_inum de) 0) as [Hz|Hz]; cbn [negb andb]; [exact Hnext|].
    wp_step. eapply wp_the; [done|]. rewrite Ec. case_bool_decide as Hcmp; [|exact Hnext].
    destruct (iget_entry_free 1 (de_inum de) _ _ _ Hfree Hfx) as [[ip x] Hget]. rewrite Hdev.
    wp_call (iget_wp 1 (de_inum de) s1 ip x); [apply (bio_held _ _ _ _ Hs1)|by rewrite i_inodes1|].
    intros r s2 [-> ->]. wp_step. split_and!; try done; [|by apply (storage_log _ _ St1)|].
    + exists ip, x. simpl. by rewrite i_inodes1.
    + destruct Hs1. by split.
Qed.

(** [dirlookup] searches a directory.  It returns null if no entry has the
    name, and otherwise a reference to the inode of the first entry that has
    it together with the offset of that entry; the disk does not change. *)
Lemma dirlookup_finds V B D i name dp free fx n s :
  bio s V B D → ks_inodes s !! dp = Some i → i_dev i = 1 → i_type i = T_DIR →
  i_size i = 16 * Z.of_nat n → i_size i < 2 ^ 31 →
  (size (B ∪ D) < NBUF)%nat → mapped s V B i ((i_size i + 511) / 512) → cstr_ok DIRSIZ name = true →
  ks_inodes s !! free = Some fx → i_ref fx = 0 →
  wp (dirlookup dp name) (λ r s',
    lookup_post V i (find_from (is_entry name) 0 (dirents V i n)) s r s' ∧
    ks_disk s' = ks_disk s ∧ ks_wtrace s' = ks_wtrace s ∧ ks_log s' = ks_log s ∧ bio s' V B D) s.
Proof.
  intros Hs Hi Hdev Htype Hsize Hlt Hsz Hm Hname Hfree Hfx. unfold dirlookup. wp_step.
  eapply wp_get_inode; [done|]. rewrite Htype. cbn [Z.eqb Pos.eqb negb].
  apply (dirlookup_loop_spec V B D i name dp free fx 0 n); try done.
  rewrite Hsize. rewrite Z.mul_comm, Z.div_mul by lia. lia.
Qed.

End Lookup.
