(* ===== verification/Path.v ===== *)
(** * Path: path lookup through directories, the inode cache and the disk (fs.c)

    [resolve] says what a path means on a disk: the inode reached from a
    starting directory by looking up one element after the other.  The theorem
    is that [namex] (so [namei] and [nameiparent]) computes it, through
    [iget], [ilock], [dirlookup] and [iput], and leaks no reference. *)

From S2P Require Import Prelude Bytes CString Kernel Sched Ide Bio Log Crash Block Inode Icache Dir.

(** ** What a path means *)

(** Inode [inum] of the disk [V], as [ilock] reads it. *)
Definition ino (V : Z → list Z) (inum : Z) : inode := load_inode (dinode_at V inum) zero_inode.

(** A directory entry for the path element [a], of which 14 characters count. *)
Definition entry_for (a de : list Z) : bool :=
  negb (de_inum de =? 0) && bool_decide (take DIRSIZ a = cstr DIRSIZ (de_name de)).

Definition entries_of (V : Z → list Z) (inum : Z) : list (list Z) :=
  dirents V (ino V inum) (Z.to_nat (i_size (ino V inum) / 16)).

(** The inode number directory [inum] has for [a]. *)
Definition child (V : Z → list Z) (inum : Z) (a : list Z) : option Z :=
  k ← find_from (entry_for a) 0 (entries_of V inum); de ← entries_of V inum !! k; Some (de_inum de).

(** The inode a path leads to, or with [parent] the directory that holds its
    last element. *)
Fixpoint resolve (V : Z → list Z) (parent : bool) (inum : Z) (cs : list (list Z)) : option Z :=
  match cs with
  | [] => if parent then None else Some inum
  | a :: rest =>
      if negb (i_type (ino V inum) =? T_DIR) then None
      else if parent && bool_decide (rest = []) then Some inum
      else n ← child V inum a; resolve V parent n rest
  end.

(** ** What the lookup relies on *)

(** The inodes [P] of the disk are in use and linked, their directories can be
    read and name inodes in [P] only. *)
Record tree (s : kstate) (V : Z → list Z) (B : gset Z) (P : Z → Prop) : Prop := {
  tr_block : ∀ inum, P inum → readable s B (IBLOCK inum);
  tr_used : ∀ inum, P inum → i_type (ino V inum) ≠ 0 ∧ i_nlink (ino V inum) ≠ 0;
  tr_size : ∀ inum, P inum → i_type (ino V inum) = T_DIR →
    i_size (ino V inum) mod 16 = 0 ∧ 0 ≤ i_size (ino V inum) < 2 ^ 31;
  tr_mapped : ∀ inum, P inum → i_type (ino V inum) = T_DIR →
    mapped s V B (ino V inum) ((i_size (ino V inum) + 511) / 512);
  tr_closed : ∀ inum de, P inum → i_type (ino V inum) = T_DIR →
    de ∈ entries_of V inum → de_inum de ≠ 0 → P (de_inum de);
}.

(** An entry in use is locked if [busy]; it agrees with the disk if it is valid. *)
Record cached (V : Z → list Z) (busy : bool) (x : inode) : Prop := {
  cd_dev : i_dev x = 1;
  cd_busy : hasb (i_flags x) I_BUSY = busy;
  cd_loaded : hasb (i_flags x) I_VALID = true → load_inode (dinode_at V (i_inum x)) x = x;
}.

(** The inode table: of the entries in use at most [lk] is locked. *)
Record table (V : Z → list Z) (l : list inode) (lk : option nat) : Prop := {
  tb_ok : icache_ok l;
  tb_cached : ∀ j x, l !! j = Some x → 0 < i_ref x → cached V (bool_decide (lk = Some j)) x;
  tb_lock : ∀ j, lk = Some j → ∃ x, l !! j = Some x ∧ 0 < i_ref x ∧ hasb (i_flags x) I_VALID = true;
}.

(** The references of [l] are those of [l0] and one more for each element of [E]. *)
Fixpoint times (j : nat) (E : list nat) : Z :=
  match E with [] => 0 | e :: E => (if decide (e = j) then 1 else 0) + times j E end.

Record refs (l0 l : list inode) (E : list nat) : Prop := {
  rf_len : length l = length l0;
  rf_ref : ∀ j y, l0 !! j = Some y → ∃ x, l !! j = Some x ∧ i_ref x = i_ref y + times j E ∧
    (0 < i_ref y → i_dev x = i_dev y ∧ i_inum x = i_inum y);
}.

(** Only the buffer cache and the inode table changed. *)
Record quiet (s s' : kstate) : Prop := {
  qu_disk : ks_disk s' = ks_disk s;
  qu_trace : ks_wtrace s' = ks_wtrace s;
  qu_log : ks_log s' = ks_log s;
}.

#[export] Instance quiet_preorder : PreOrder quiet.
Proof. split; [done|]. intros s1 s2 s3 [] []. split; congruence. Qed.

Lemma quiet_storage s s' : storage_step s s' → ks_disk s' = ks_disk s → ks_wtrace s' = ks_wtrace s → quiet s s'.
Proof. intros St Dk Tr. split; [done..|]. by apply storage_log. Qed.

(** ** The table under the operations *)

(** Any change of an entry that gives up a reference or keeps the inode. *)
Lemma icache_ok_update l ip x x' :
  icache_ok l → l !! ip = Some x → 0 ≤ i_ref x' →
  (0 < i_ref x' → 0 < i_ref x ∧ i_dev x' = i_dev x ∧ i_inum x' = i_inum x) → icache_ok (<[ip:=x']> l).
Proof.
  intros [Hr Hu] Hx H0 Hs.
  assert (∀ j y, <[ip:=x']> l !! j = Some y → (j = ip ∧ y = x') ∨ (j ≠ ip ∧ l !! j = Some y)) as Hl.
  { intros j y Hj. apply list_lookup_insert_Some in Hj. naive_solver. }
  split.
  - intros j y [[-> ->]|[_ Hy]]%Hl; [done|eauto].
  - intros j k y z [[-> ->]|[Nj Hy]]%Hl [[-> ->]|[Nk Hz]]%Hl Ry Rz Ed Ei; [done| | |by eauto].
    + destruct (Hs Ry) as (? & ? & ?). apply (Hu ip k x z); try done; congruence.
    + destruct (Hs Rz) as (? & ? & ?). apply (Hu j ip y x); try done; congruence.
Qed.

Lemma times_app j E E' : times j (E ++ E') = times j E + times j E'.
Proof. induction E as [|e E IH]; simpl; [done|]. rewrite IH. lia. Qed.

Lemma times_pos j E : 0 ≤ times j E.
Proof. induction E as [|e E IH]; simpl; [done|]. destruct (decide (e = j)); lia. Qed.

Lemma refs_self l : refs l l [].
Proof. split; [done|]. intros j y Hy. exists y. split_and!; [done|simpl; lia|done]. Qed.

(** Replacing entry [ip] of [l], where [d] is the change of its references. *)
Lemma refs_insert l0 l E E' ip x x' d :
  refs l0 l E → l !! ip = Some x → i_ref x' = i_ref x + d →
  (∀ j, times j E' = times j E + (if decide (ip = j) then d else 0)) →
  (0 < i_ref x → i_dev x' = i_dev x ∧ i_inum x' = i_inum x) → refs l0 (<[ip:=x']> l) E'.
Proof.
  intros [Hl Hr] Hx Er Et Es. split; [by rewrite length_insert|]. intros j y Hy.
  destruct (Hr j y Hy) as (z & Hz & Rz & Sz). specialize (Et j). destruct (decide (ip = j)) as [->|Hne].
  - exists x'. simplify_eq. rewrite list_lookup_insert_eq by (by eapply lookup_lt_Some).
    pose proof (times_pos j E). split_and!; [done|lia|]. intros Hp. destruct (Es ltac:(lia)), (Sz Hp). split; congruence.
  - exists z. rewrite list_lookup_insert_ne by done. split_and!; [done|lia|done].
Qed.

Lemma refs_held l0 l E ip : icache_ok l0 → refs l0 l E → ip ∈ E → (ip < length l)%nat →
  ∃ x, l !! ip = Some x ∧ 0 < i_ref x.
Proof.
  intros [H0 _] [Hl Hr] Hin Hlt. destruct (lookup_lt_is_Some_2 l0 ip) as [y Hy]; [lia|].
  destruct (Hr _ _ Hy) as (x & Hx & Rx & _). exists x. split; [done|]. specialize (H0 _ _ Hy).
  apply list_elem_of_split in Hin as (E1 & E2 & ->). rewrite times_app in Rx. simpl in Rx. rewrite decide_True in Rx by done.
  pose proof (times_pos ip E1). pose proof (times_pos ip E2). lia.
Qed.

(** With two free entries there is one while a single reference is taken. *)
Lemma refs_free l0 l e f g y z : refs l0 l [e] → f ≠ g → l0 !! f = Some y → l0 !! g = Some z →
  i_ref y = 0 → i_ref z = 0 → ∃ k x, l !! k = Some x ∧ i_ref x = 0.
Proof.
  intros [_ Hr] Hne Hf Hg Ry Rz. destruct (Hr _ _ Hf) as (x & Hx & Ex & _), (Hr _ _ Hg) as (x' & Hx' & Ex' & _). simpl in *.
  destruct (decide (e = f)) as [->|].
  - exists g, x'. rewrite decide_False in Ex' by done. split; [done|lia].
  - exists f, x. split; [done|lia].
Qed.

(** What [iget] does. *)
Lemma iget_entry_cases dev inum l ip x : iget_entry dev inum l = Some (ip, x) →
  ∃ y, l !! ip = Some y ∧ i_ref x = i_ref y + 1 ∧
    ((caches dev inum y = true ∧ x = with_i_ref (i_ref y + 1) y) ∨
     (i_ref y = 0 ∧ x = with_i_flags 0 (with_i_ref 1 (with_i_inum inum (with_i_dev dev y))))).
Proof.
  unfold iget_entry. intros He. destruct (find_from (caches dev inum) 0 l) as [k|] eqn:E.
  - apply find_from_lookup in E as (y & Hy & Hc & _). rewrite Hy in He. simpl in He. simplify_eq. eauto 6.
  - destruct (find_from (λ x, i_ref x =? 0) 0 l) as [k|] eqn:E'; [|done].
    apply find_from_lookup in E' as (y & Hy & Ry & _). simpl in He. rewrite Hy in He. simpl in He. simplify_eq.
    apply Z.eqb_eq in Ry. exists y. split_and!; [done|simpl; lia|auto].
Qed.

Lemma table_iget V l lk inum ip x : table V l lk → iget_entry 1 inum l = Some (ip, x) → table V (<[ip:=x]> l) lk.
Proof.
  intros [Hok Hc Hk] He. destruct (iget_entry_ok _ _ _ _ _ Hok He) as (Hx & Hok' & Hlt & _).
  destruct (iget_entry_cases _ _ _ _ _ He) as (y & Hy & Ry & Hcase). split; [done| |].
  - intros j z Hj Rz. apply list_lookup_insert_Some in Hj as [(<- & -> & _)|[_ Hj]]; [|eauto].
    destruct Hcase as [[Hcy ->]|[R0 ->]].
    + apply caches_spec in Hcy as (Rp & _). destruct (Hc _ _ Hy Rp) as [D1 B1 L1]. split; [done..|].
      intros Hv. exact (f_equal (with_i_ref (i_ref y + 1)) (L1 Hv)).
    + split; [done| |done]. simpl. rewrite bool_decide_false; [done|]. intros ->.
      destruct (Hk ip eq_refl) as (y' & Hy' & Rp & _). simplify_eq. lia.
  - intros j ->. destruct (Hk j eq_refl) as (z & Hz & Rz & Vz). destruct (decide (ip = j)) as [->|].
    + exists x. rewrite list_lookup_insert_eq by done. simplify_eq. destruct Hcase as [[_ ->]|[R0 _]]; [|lia].
      split_and!; [done|simpl; lia|done].
    + exists z. by rewrite list_lookup_insert_ne.
Qed.

Lemma refs_iget l0 l E inum ip x : refs l0 l E → iget_entry 1 inum l = Some (ip, x) → icache_ok l → refs l0 (<[ip:=x]> l) (ip :: E).
Proof.
  intros Hr He Hok. destruct (iget_entry_cases _ _ _ _ _ He) as (y & Hy & Ry & Hcase). eapply (refs_insert _ _ E _ ip y x 1); try done.
  - intros j. simpl. lia.
  - destruct Hcase as [[_ ->]|[R0 _]]; [done|lia].
Qed.

(** ** Locking and unlocking a cached inode *)

Section Lock.
Context `{IdeSpec} `{Devsw}.
Set Default Proof Using "All".

(** Locking an inode for the first time reads it. *)
Lemma ilock_reads s V B D ip i :
  bio s V B D → ks_inodes s !! ip = Some i → 1 ≤ i_ref i → hasb (i_flags i) I_BUSY = false →
  hasb (i_flags i) I_VALID = false → i_dev i = 1 → readable s B (IBLOCK (i_inum i)) → (size (B ∪ D) < NBUF)%nat →
  di_type (dinode_at V (i_inum i)) ≠ 0 →
  wp (ilock ip) (λ _ s', quiet s s' ∧ bio s' V B D ∧ ks_inodes s' =
    <[ip:=with_i_flags (Z.lor (Z.lor (i_flags i) I_BUSY) I_VALID) (load_inode (dinode_at V (i_inum i)) i)]> (ks_inodes s)) s.
Proof.
  intros Hs Hi Hr Hb Hv Hdev Hrd Hsz Hty. pose proof (lookup_lt_Some _ _ _ Hi) as Hlt. pose proof (bio_held _ _ _ _ Hs) as Hh.
  unfold ilock. wp_step. eapply wp_get_inode; [done|]. rewrite (proj2 (Z.ltb_ge _ _) Hr). wp_step.
  apply wp_acquire; [rewrite Hh; set_solver|]. wp_step. eapply wp_get_inode; [done|]. rewrite Hb. wp_step.
  eapply wp_upd_inode; [done|]. wp_step. eapply (wp_release _ []); [simpl; by rewrite Hh|set_solver|].
  wp_step. eapply wp_get_inode; [by apply list_lookup_insert_eq|]. simpl. autorewrite with flags. rewrite Hv.
  unfold when. cbn [negb]. rewrite Hdev. set (i1 := with_i_flags _ i).
  replace (set_held [] _) with (set_inodes (<[ip:=i1]> (ks_inodes s)) s) by (destruct s; simpl in *; by subst).
  set (s1 := set_inodes _ s). assert (bio s1 V B D) as Hs1 by (destruct Hs; by split).
  wp_call (fetch_spec s1 V B D _ Hs1 Hrd Hsz). intros b s2 (bf & Hbf & Hbd & St2 & Dk2 & Tr2 & Hs2 & Ho & _ & Hx).
  wp_step. eapply wp_get_buf; [done|]. rewrite Hbd. fold (dinode_at V (i_inum i)).
  assert (ks_inodes s2 = <[ip:=i1]> (ks_inodes s)) as In2 by apply (storage_inodes _ _ St2).
  wp_step. eapply wp_upd_inode; [rewrite In2; by apply list_lookup_insert_eq|]. rewrite In2, list_insert_insert_eq.
  set (i2 := load_inode _ i1). set (s3 := set_inodes _ s2).
  assert (bio s3 V ({[IBLOCK (i_inum i)]} ∪ B) D) as Hs3 by (destruct Hs2; by split).
  wp_call (brelse_held _ _ _ _ b (IBLOCK (i_inum i)) Hs3 Ho); [change (ks_disk s3) with (ks_disk s2); by rewrite Dk2|].
  intros [] s4 (St4 & Dk4 & Tr4 & Hs4 & _).
  assert (ks_inodes s4 = <[ip:=i2]> (ks_inodes s)) as In4 by apply (storage_inodes _ _ St4).
  wp_step. eapply wp_upd_inode; [rewrite In4; by apply list_lookup_insert_eq|]. rewrite In4, list_insert_insert_eq.
  wp_step. eapply wp_get_inode; [by apply list_lookup_insert_eq|].
  rewrite (proj2 (Z.eqb_neq _ _)) by exact Hty. wp_step. split_and!; [| |done].
  - pose proof (storage_log _ _ St2). pose proof (storage_log _ _ St4). split; simpl in *; congruence.
  - destruct Hrd as (_ & _ & _ & HB). replace (({[IBLOCK (i_inum i)]} ∪ B) ∖ {[IBLOCK (i_inum i)]}) with B in Hs4 by set_solver.
    destruct Hs4. by split.
Qed.

(** Locking any entry in use of the table. *)
Lemma ilock_table s V B D P ip x :
  bio s V B D → (size (B ∪ D) < NBUF)%nat → tree s V B P → table V (ks_inodes s) None →
  ks_inodes s !! ip = Some x → 0 < i_ref x → P (i_inum x) →
  wp (ilock ip) (λ _ s', quiet s s' ∧ bio s' V B D ∧ ∃ x', ks_inodes s' = <[ip:=x']> (ks_inodes s) ∧
    i_ref x' = i_ref x ∧ i_dev x' = i_dev x ∧ i_inum x' = i_inum x ∧
    hasb (i_flags x') I_BUSY = true ∧ hasb (i_flags x') I_VALID = true ∧
    load_inode (dinode_at V (i_inum x')) x' = x') s.
Proof.
  intros Hs Hsz Ht [Hok Hc _] Hx Hr HP. destruct (Hc _ _ Hx Hr) as [D1 B1 L1].
  destruct (hasb (i_flags x) I_VALID) eqn:Hv.
  - eapply wp_mono; [apply (ilock_spec ip x); [apply Hs|done|lia|done|done]|]. intros [] s' ->.
    split_and!; [done|destruct Hs; by split|]. eexists. split; [done|]. simpl. autorewrite with flags. rewrite Hv.
    split_and!; try done. exact (f_equal (with_i_flags _) (L1 eq_refl)).
  - eapply wp_mono; [apply (ilock_reads s V B D ip x); try done; [lia|by apply (tr_block _ _ _ _ Ht)|]|].
    { apply (tr_used _ _ _ _ Ht _ HP). }
    intros [] s' (Q & Hs' & In). split_and!; [done|done|]. eexists. split; [done|]. simpl. by autorewrite with flags.
Qed.

(** The state between calls: the buffer cache is [V], and the inode table has
    the references of [l0] and [E], with [lk] locked. *)
Record walking (V : Z → list Z) (B D : gset Z) (l0 : list inode) (s : kstate) (E : list nat) (lk : option nat) : Prop := {
  wk_bio : bio s V B D;
  wk_table : table V (ks_inodes s) lk;
  wk_refs : refs l0 (ks_inodes s) E;
}.

(** The unlocked table and the locked one. *)
Lemma table_lock V l ip x x' : table V l None → l !! ip = Some x → 0 < i_ref x →
  i_ref x' = i_ref x → i_dev x' = i_dev x → i_inum x' = i_inum x →
  hasb (i_flags x') I_BUSY = true → hasb (i_flags x') I_VALID = true → load_inode (dinode_at V (i_inum x')) x' = x' →
  table V (<[ip:=x']> l) (Some ip).
Proof.
  intros [Hok Hc _] Hx Hr Er Ed Ei Hb Hv Hl. pose proof (lookup_lt_Some _ _ _ Hx). split.
  - eapply icache_ok_update; [done|done|lia|]. intros _. split_and!; done.
  - intros j y Hj Hy. apply list_lookup_insert_Some in Hj as [(<- & -> & _)|[Hne Hj]].
    + rewrite bool_decide_true by done. split; [|done..]. rewrite Ed. by apply (cd_dev _ _ _ (Hc _ _ Hx Hr)).
    + rewrite bool_decide_false by congruence. by apply (Hc j).
  - intros j [= <-]. exists x'. rewrite list_lookup_insert_eq by done. split_and!; [done|lia|done].
Qed.

Lemma table_unlock V l ip x : table V l (Some ip) → l !! ip = Some x →
  table V (<[ip:=with_i_flags (Z.land (i_flags x) (Z.lnot I_BUSY)) x]> l) None.
Proof.
  intros [Hok Hc Hk] Hx. destruct (Hk ip eq_refl) as (x' & Hx' & Hr & Hv). simplify_eq. split; [| |done].
  - eapply icache_ok_update; [done|done|simpl; lia|done].
  - intros j y Hj Hy. rewrite bool_decide_false by done. apply list_lookup_insert_Some in Hj as [(<- & <- & _)|[Hne Hj]].
    + destruct (Hc _ _ Hx Hr) as [D1 _ L1]. split; simpl; autorewrite with flags; [done..|]. intros _.
      exact (f_equal (with_i_flags _) (L1 Hv)).
    + specialize (Hc _ _ Hj Hy). by rewrite bool_decide_false in Hc by congruence.
Qed.

Lemma table_put V l ip x : table V l None → l !! ip = Some x → 0 < i_ref x →
  table V (<[ip:=with_i_ref (i_ref x - 1) x]> l) None.
Proof.
  intros [Hok Hc _] Hx Hr. split; [| |done].
  - eapply icache_ok_update; [done|done|simpl; lia|]. done.
  - intros j y Hj Hy. apply list_lookup_insert_Some in Hj as [(<- & <- & _)|[Hne Hj]]; [|by apply (Hc j)].
    destruct (Hc _ _ Hx Hr) as [D1 B1 L1]. split; [done..|]. intros Hv. exact (f_equal (with_i_ref _) (L1 Hv)).
Qed.

Section Steps.
Context (V : Z → list Z) (B D : gset Z) (P : Z → Prop) (l0 : list inode).
Context (Hsz : (size (B ∪ D) < NBUF)%nat) (Hl0 : icache_ok l0).

Lemma walk_ilock s E ip x :
  walking V B D l0 s E None → tree s V B P → ks_inodes s !! ip = Some x → 0 < i_ref x → P (i_inum x) →
  wp (ilock ip) (λ _ s', quiet s s' ∧ walking V B D l0 s' E (Some ip) ∧
    ∃ x', ks_inodes s' !! ip = Some x' ∧ i_dev x' = 1 ∧ i_inum x' = i_inum x ∧
      load_inode (dinode_at V (i_inum x)) x' = x') s.
Proof.
  intros [Hs Htb Hrf] Ht Hx Hr HP. pose proof (lookup_lt_Some _ _ _ Hx). eapply wp_mono; [by eapply ilock_table|].
  intros [] s' (Q & Hs' & x' & In & Er & Ed & Ei & Hb & Hv & Hl). split_and!; [done| |].
  - split; [done|rewrite In; by eapply table_lock|]. rewrite In. eapply (refs_insert _ _ E _ ip x x' 0); try done; [lia|].
    intros j. destruct (decide (ip = j)); lia.
  - exists x'. rewrite In, list_lookup_insert_eq by done. split_and!; [done| |done|by rewrite <-Ei].
    rewrite Ed. by apply (cd_dev _ _ _ (tb_cached _ _ _ Htb _ _ Hx Hr)).
Qed.

(** Every entry still caches the inode it did. *)
Definition same_inums (s s' : kstate) : Prop :=
  ∀ j y, ks_inodes s !! j = Some y → ∃ y', ks_inodes s' !! j = Some y' ∧ i_dev y' = i_dev y ∧ i_inum y' = i_inum y.

Lemma same_inums_insert s s' ip x x' : ks_inodes s' = <[ip:=x']> (ks_inodes s) → ks_inodes s !! ip = Some x →
  i_dev x' = i_dev x → i_inum x' = i_inum x → same_inums s s'.
Proof.
  intros In Hx Ed Ei j y Hj. rewrite In. destruct (decide (ip = j)) as [->|].
  - rewrite list_lookup_insert_eq by (by eapply lookup_lt_Some). simplify_eq. eauto.
  - rewrite list_lookup_insert_ne by done. eauto.
Qed.

Lemma walk_iunlock s E ip : walking V B D l0 s E (Some ip) →
  wp (iunlock ip) (λ _ s', quiet s s' ∧ walking V B D l0 s' E None ∧ same_inums s s') s.
Proof.
  intros [Hs Htb Hrf]. destruct (tb_lock _ _ _ Htb ip eq_refl) as (x & Hx & Hr & Hv). pose proof (lookup_lt_Some _ _ _ Hx).
  pose proof (cd_busy _ _ _ (tb_cached _ _ _ Htb _ _ Hx Hr)) as Hb. rewrite bool_decide_true in Hb by done.
  eapply wp_mono; [apply (iunlock_spec ip x); [apply Hs|done|lia|done]|]. intros [] s' ->.
  split_and!; [done| |by eapply same_inums_insert]. split; simpl; [destruct Hs; by split|by apply table_unlock|].
  eapply (refs_insert _ _ E _ ip x _ 0); try done; [simpl; lia|]. intros j. destruct (decide (ip = j)); lia.
Qed.

Lemma walk_iput s E ip x : walking V B D l0 s (E ++ [ip]) None → tree s V B P →
  ks_inodes s !! ip = Some x → P (i_inum x) →
  wp (iput ip) (λ _ s', quiet s s' ∧ walking V B D l0 s' E None ∧ same_inums s s') s.
Proof.
  intros [Hs Htb Hrf] Ht Hx HP. pose proof (lookup_lt_Some _ _ _ Hx).
  destruct (refs_held _ _ _ ip Hl0 Hrf) as (x1 & Hx1 & Hr); [set_solver|done|]. simplify_eq.
  destruct (tb_cached _ _ _ Htb _ _ Hx Hr) as [D1 B1 L1].
  eapply wp_mono; [apply (iput_spec ip x); [apply Hs|done|]|].
  { destruct (hasb (i_flags x) I_VALID) eqn:Hv; [|by rewrite andb_false_r]. rewrite andb_true_r.
    rewrite (proj2 (Z.eqb_neq (i_nlink x) 0)); [by rewrite andb_false_r|]. rewrite <-(L1 eq_refl).
    apply (tr_used _ _ _ _ Ht _ HP). }
  intros [] s' ->. split_and!; [done| |by eapply same_inums_insert].
  split; simpl; [destruct Hs; by split|by apply table_put|].
  eapply (refs_insert _ _ (E ++ [ip]) _ ip x _ (-1)); try done. intros j. rewrite times_app. simpl. destruct (decide (ip = j)); lia.
Qed.

Lemma tree_quiet s s' : quiet s s' → tree s V B P → tree s' V B P.
Proof.
  intros [Dk _ _] [T1 T2 T3 T4 T5].
  assert (∀ a, readable s B a → readable s' B a) as Hr by (intros a; apply readable_step; by rewrite Dk).
  split; [by auto|done|done| |done]. intros inum HP Hd. destruct (T4 inum HP Hd) as (M1 & M2 & M3 & M4).
  split_and!; auto.
Qed.

Lemma walk_iunlockput s E ip x : walking V B D l0 s (E ++ [ip]) (Some ip) → tree s V B P →
  ks_inodes s !! ip = Some x → P (i_inum x) →
  wp (iunlockput ip) (λ _ s', quiet s s' ∧ walking V B D l0 s' E None ∧ same_inums s s') s.
Proof.
  intros Hw Ht Hx HP. unfold iunlockput. wp_call (walk_iunlock s (E ++ [ip]) ip Hw).
  intros [] s1 (Q1 & Hw1 & I1). destruct (I1 _ _ Hx) as (x1 & Hx1 & _ & Ei1).
  eapply wp_mono; [eapply (walk_iput s1 E ip x1 Hw1); [by eapply tree_quiet|done|by rewrite Ei1]|].
  intros [] s2 (Q2 & Hw2 & I2). split_and!; [by etrans|done|]. intros j y Hj. destruct (I1 _ _ Hj) as (y1 & Hy1 & D1 & N1).
  destruct (I2 _ _ Hy1) as (y2 & Hy2 & D2 & N2). exists y2. split_and!; congruence.
Qed.

Lemma walk_iget s E inum ip x :
  walking V B D l0 s E None → iget_entry 1 inum (ks_inodes s) = Some (ip, x) →
  wp (iget 1 inum) (λ r s', r = ip ∧ quiet s s' ∧ walking V B D l0 s' (ip :: E) None ∧
    ks_inodes s' !! ip = Some x ∧ i_inum x = inum ∧ 0 < i_ref x) s.
Proof.
  intros [Hs Htb Hrf] He. destruct (iget_entry_ok _ _ _ _ _ (tb_ok _ _ _ Htb) He) as (Hx & _ & Hlt & _).
  apply caches_spec in Hx as (? & ? & ?). eapply wp_mono; [by apply iget_wp; [apply Hs|]|]. intros r s' [-> ->].
  split_and!; try done; [|by apply list_lookup_insert_eq]. split; simpl; [destruct Hs; by split|by eapply table_iget|].
  eapply refs_iget; [done..|]. apply Htb.
Qed.

(** A loaded inode reads as the disk inode does. *)
Lemma loaded_reads inum x : load_inode (dinode_at V inum) x = x →
  i_type x = i_type (ino V inum) ∧ i_size x = i_size (ino V inum) ∧ i_nlink x = i_nlink (ino V inum) ∧
  (∀ o n, fbytes V x o n = fbytes V (ino V inum) o n) ∧ (∀ s k, mapped s V B (ino V inum) k → mapped s V B x k).
Proof. intros <-. split_and!; done. Qed.

(** A lookup in a locked directory. *)
Lemma walk_dirlookup s E dp x inum a name f fx :
  walking V B D l0 s E (Some dp) → tree s V B P → ks_inodes s !! dp = Some x → i_dev x = 1 → P inum →
  load_inode (dinode_at V inum) x = x → i_type (ino V inum) = T_DIR →
  cstr_ok DIRSIZ name = true → cstr DIRSIZ name = take DIRSIZ a → ks_inodes s !! f = Some fx → i_ref fx = 0 →
  wp (dirlookup dp name) (λ r s', quiet s s' ∧ (∃ x', ks_inodes s' !! dp = Some x' ∧ i_inum x' = i_inum x) ∧
    match child V inum a with
    | None => r = None ∧ walking V B D l0 s' E (Some dp)
    | Some n => ∃ ip off y, r = Some (ip, off) ∧ walking V B D l0 s' (ip :: E) (Some dp) ∧
        ks_inodes s' !! ip = Some y ∧ i_inum y = n ∧ P n
    end) s.
Proof.
  intros [Hs Htb Hrf] Ht Hx Hdev HP Hl Hty Hname Ha Hf Hfx.
  destruct (loaded_reads inum x Hl) as (Et & Es & _ & Ef & Em). destruct (tr_size _ _ _ _ Ht _ HP Hty) as [Hmod Hb].
  set (n := Z.to_nat (i_size (ino V inum) / 16)).
  assert (i_size (ino V inum) = 16 * Z.of_nat n) as Hn by (subst n; pose proof (Z.div_mod (i_size (ino V inum)) 16); lia).
  assert (dirents V x n = entries_of V inum) as Ed by (apply list_fmap_ext; intros; apply Ef).
  assert (find_from (is_entry name) 0 (dirents V x n) = find_from (entry_for a) 0 (entries_of V inum)) as Efind.
  { rewrite Ed. apply find_from_ext. intros de. unfold is_entry, entry_for. by rewrite Ha. }
  eapply wp_mono; [eapply (dirlookup_finds V B D x name dp f fx n); try done; [congruence|lia|lia|]|].
  { apply Em. rewrite Es. by apply (tr_mapped _ _ _ _ Ht). }
  intros r s' (Hpost & Dk & Tr & Lg & Hs'). split; [done|]. unfold child. rewrite Efind in Hpost.
  destruct (find_from (entry_for a) 0 (entries_of V inum)) as [k|] eqn:Ek; simpl in Hpost |- *.
  2: { destruct Hpost as [-> In]. split; [rewrite In; eauto|]. split; [done|]. by split; rewrite ?In. }
  apply find_from_lookup in Ek as (de & Hde & He & _). rewrite Hde. simpl.
  destruct Hpost as (ip & y & Hget & -> & In).
  assert (fbytes V x (16 * Z.of_nat k) 16 = de) as Ede.
  { rewrite <-Ed in Hde. apply list_lookup_fmap_Some in Hde as (k' & -> & Hk'). by apply lookup_seq in Hk' as [-> _]. }
  rewrite Ede in Hget. destruct (iget_entry_ok _ _ _ _ _ (tb_ok _ _ _ Htb) Hget) as (Hc & _ & Hlt & _).
  apply caches_spec in Hc as (? & ? & ?). split.
  - rewrite In. destruct (iget_entry_cases _ _ _ _ _ Hget) as (y0 & Hy0 & _ & Hcase). destruct (decide (ip = dp)) as [->|].
    + exists y. rewrite list_lookup_insert_eq by done. split; [done|]. simplify_eq.
      destruct Hcase as [[_ ->]|[R0 _]]; [done|]. destruct (tb_lock _ _ _ Htb dp eq_refl) as (x1 & Hx1 & R1 & _). simplify_eq. lia.
    + rewrite list_lookup_insert_ne by done. eauto.
  - exists ip, (16 * Z.of_nat k), y. split_and!; [done| |by rewrite In; apply list_lookup_insert_eq|done|].
    + split; rewrite ?In; [done|by eapply table_iget|]. eapply refs_iget; [done..|apply Htb].
    + eapply (tr_closed _ _ _ _ Ht); [done|done|by eapply list_elem_of_lookup_2|].
      unfold entry_for in He. apply andb_true_iff in He as [He _]. by apply negb_true_iff, Z.eqb_neq in He.
Qed.

(** ** The loop of namex *)

Context (f g : nat) (fx gx : inode).
Context (Hfg : f ≠ g) (Hf : l0 !! f = Some fx) (Hg : l0 !! g = Some gx) (Rf : i_ref fx = 0) (Rg : i_ref gx = 0).

(** What [namex] returns for the inode it should find: a new reference to it,
    with the last element in [name] if the parent was asked for. *)
Definition found (par : bool) (cs : list (list Z)) (o : option Z) (r : option nat * list Z) (s' : kstate) : Prop :=
  match o with
  | None => r.1 = None ∧ walking V B D l0 s' [] None
  | Some n => ∃ ip x, r.1 = Some ip ∧ walking V B D l0 s' [ip] None ∧ ks_inodes s' !! ip = Some x ∧ i_inum x = n ∧
      (par = true → cstr DIRSIZ r.2 = take DIRSIZ (default [] (last cs)))
  end.

(** The path after its first element is at its end exactly if it has no more. *)
Lemma head_path t junk : head t ≠ Some 47 → (0 ∉ t) →
  ∃ c, head (cstring t junk) = Some c ∧ (c =? 0) = bool_decide (components t = []).
Proof.
  intros Hh H0'. destruct t as [|c t]; [by exists 0|]. exists c. split; [done|].
  rewrite components_cons by (simpl in Hh; congruence). rewrite bool_decide_false by done. apply Z.eqb_neq. set_solver.
Qed.

Lemma namex_loop_spec par junk : ∀ cs inum ip x s path name fuel,
  components path = cs → (0 ∉ path) → length name = DIRSIZ → walking V B D l0 s [ip] None → tree s V B P →
  ks_inodes s !! ip = Some x → i_inum x = inum → P inum → (length cs < fuel)%nat →
  wp (namex_loop ip (cstring path junk) par name fuel) (λ r s', quiet s s' ∧ found par cs (resolve V par inum cs) r s') s.
Proof.
  induction cs as [|a rest IH]; intros inum ip x s path name fuel Hcs Hp Hname Hw Ht Hx Hi HP Hfuel;
    (destruct fuel as [|fuel]; [simpl in Hfuel; lia|]); cbn [namex_loop]; pose proof (skipelem_components path junk name Hp Hname) as Hsk;
    rewrite Hcs in Hsk; cbn in Hsk.
  - wp_step. eapply wp_the; [done|]. simpl. destruct par.
    + wp_call (walk_iput s [] ip x Hw Ht Hx); [by rewrite Hi|]. intros [] s' (Q & Hw' & _). by wp_step.
    + wp_step. split; [done|]. exists ip, x. done.
  - destruct Hsk as (path' & name' & Hsk & Hcs' & Hh & Hp' & Hn' & Hc'). wp_step. eapply wp_the; [done|]. subst inum.
    destruct (refs_held _ _ _ ip Hl0 (wk_refs _ _ _ _ _ _ _ Hw)) as (x1 & Hx1 & Hr); [set_solver|by eapply lookup_lt_Some|].
    rewrite Hx in Hx1. injection Hx1 as <-. wp_call (walk_ilock s [ip] ip x Hw Ht Hx Hr HP). intros [] s1 (Q1 & Hw1 & x1 & Hx1 & Dv1 & In1 & Ld1).
    destruct (loaded_reads _ _ Ld1) as (Ty1 & _). pose proof (tree_quiet _ _ Q1 Ht) as Ht1.
    wp_step. eapply wp_get_inode; [done|]. rewrite Ty1. cbn [resolve].
    destruct (negb (i_type (ino V (i_inum x)) =? T_DIR)) eqn:Edir.
    { wp_call (walk_iunlockput s1 [] ip x1 Hw1 Ht1 Hx1); [by rewrite In1|]. intros [] s2 (Q2 & Hw2 & _). wp_step. split; [by etrans|done]. }
    apply negb_false_iff, Z.eqb_eq in Edir. destruct (head_path path' junk Hh Hp') as (c & Hc & Ec). rewrite Hcs' in Ec.
    wp_step. eapply wp_the; [done|]. rewrite Ec. destruct (par && bool_decide (rest = [])) eqn:Epar.
    { apply andb_true_iff in Epar as [-> ->%bool_decide_eq_true]. wp_call (walk_iunlock s1 [ip] ip Hw1).
      intros [] s2 (Q2 & Hw2 & I2). destruct (I2 _ _ Hx1) as (x2 & Hx2 & _ & In2). wp_step. split; [by etrans|].
      exists ip, x2. split_and!; try done; congruence. }
    destruct (refs_free l0 _ ip f g fx gx (wk_refs _ _ _ _ _ _ _ Hw1)) as (h & hx & Hhx & Rhx); try done.
    wp_call (walk_dirlookup s1 [ip] ip x1 (i_inum x) a name' h hx); try done; [apply cstr_ok_full; lia|].
    intros r s2 (Q2 & (x2 & Hx2 & In2) & Hpost). pose proof (tree_quiet _ _ Q2 Ht1) as Ht2.
    destruct (child V (i_inum x) a) as [n|]; cbn [mbind option_bind].
    2: { destruct Hpost as [-> Hw2]. wp_call (walk_iunlockput s2 [] ip x2 Hw2 Ht2 Hx2); [congruence|].
      intros [] s3 (Q3 & Hw3 & _). wp_step. split; [do 2 (etrans; [done|]); done|done]. }
    destruct Hpost as (next & off & y & -> & Hw2 & Hy & En & HPn).
    wp_call (walk_iunlockput s2 [next] ip x2 Hw2 Ht2 Hx2); [congruence|]. intros [] s3 (Q3 & Hw3 & I3).
    destruct (I3 _ _ Hy) as (y3 & Hy3 & _ & En3).
    eapply wp_mono; [eapply (IH n next y3 s3 path' name' fuel); try done; [by eapply tree_quiet|congruence|simpl in Hfuel; lia]|].
    intros r s4 [Q4 Hfd]. split; [do 3 (etrans; [done|]); done|].
    destruct (resolve V par n rest) eqn:Er; [|done]. destruct Hfd as (ip4 & x4 & F1 & F2 & F3 & F4 & F5). exists ip4, x4.
    split_and!; try done. intros ->. rewrite F5 by done. destruct rest as [|b rest]; [done|]. done.
Qed.

End Steps.

Lemma walk_idup V B D l0 s E ip x :
  walking V B D l0 s E None → ks_inodes s !! ip = Some x → 0 < i_ref x →
  wp (idup ip) (λ r s', r = ip ∧ quiet s s' ∧ walking V B D l0 s' (ip :: E) None ∧
    ∃ x', ks_inodes s' !! ip = Some x' ∧ i_inum x' = i_inum x) s.
Proof.
  intros [Hs Htb Hrf] Hx Hr. pose proof (lookup_lt_Some _ _ _ Hx).
  assert (iget_entry 1 (i_inum x) (ks_inodes s) = Some (ip, with_i_ref (i_ref x + 1) x)) as He.
  { destruct (tb_cached _ _ _ Htb _ _ Hx Hr) as [D1 _ _]. unfold iget_entry.
    destruct (find_from (caches 1 (i_inum x)) 0 (ks_inodes s)) as [k|] eqn:Ek.
    - apply find_from_lookup in Ek as (y & Hy & (Ry & Dy & Iy)%caches_spec & _).
      assert (k = ip) as -> by (eapply (ic_uniq _ (tb_ok _ _ _ Htb)); eauto; congruence). rewrite Hx. done.
    - rewrite find_from_None in Ek. specialize (Ek _ _ Hx). exfalso.
      assert (caches 1 (i_inum x) x = true) by (by apply caches_spec). congruence. }
  eapply wp_mono; [by apply (idup_spec ip x); [apply Hs|]|]. intros r s' [-> ->].
  split_and!; [done|done| |simpl; rewrite list_lookup_insert_eq by done; eauto].
  split; simpl; [destruct Hs; by split|by eapply table_iget|]. eapply refs_iget; [done..|apply Htb].
Qed.

(** ** namex *)

(** Where [namex] starts: the root, or the working directory of the process. *)
Definition starts (s : kstate) (path : list Z) (inum : Z) : Prop :=
  if decide (head path = Some 47) then inum = 1
  else ∃ p pr cwd x, ks_cur s = Some p ∧ ks_procs s !! p = Some pr ∧ p_cwd pr = Some cwd ∧
    ks_inodes s !! cwd = Some x ∧ 0 < i_ref x ∧ i_inum x = inum.

Lemma length_components s : (length (components s) ≤ length s)%nat.
Proof.
  assert (∀ s cur, (length (comps s cur) ≤ length s + (if decide (cur = []) then 0 else 1))%nat) as Hc.
  { induction s0 as [|c r IH]; intros cur; simpl.
    - destruct cur; simpl; lia.
    - destruct (c =? 47).
      + specialize (IH []). simpl in IH. destruct cur; simpl; lia.
      + specialize (IH (cur ++ [c])). rewrite decide_False in IH by (by destruct cur). destruct (decide (cur = [])); lia. }
  specialize (Hc s []). unfold components. simpl in Hc. lia.
Qed.

(** Two entries of the table are free. *)
Definition two_free (l : list inode) : Prop :=
  ∃ f g fx gx, f ≠ g ∧ l !! f = Some fx ∧ l !! g = Some gx ∧ i_ref fx = 0 ∧ i_ref gx = 0.

Lemma namex_spec V B D P s path junk par name inum :
  bio s V B D → (size (B ∪ D) < NBUF)%nat → tree s V B P → table V (ks_inodes s) None → two_free (ks_inodes s) →
  (0 ∉ path) → length name = DIRSIZ → starts s path inum → P inum →
  wp (namex (cstring path junk) par name) (λ r s', quiet s s' ∧
    found V B D (ks_inodes s) par (components path) (resolve V par inum (components path)) r s') s.
Proof.
  intros Hs Hsz Ht Htb (f & g & fx & gx & Hfg & Hf & Hg & Rf & Rg) Hp Hname Hst HP.
  assert (walking V B D (ks_inodes s) s [] None) as Hw by (split; [done|done|apply refs_self]).
  assert (length (components path) < S (length (cstring path junk)))%nat as Hfuel.
  { pose proof (length_components path). unfold cstring. rewrite length_app. lia. }
  assert (∀ ip s1 x, quiet s s1 → walking V B D (ks_inodes s) s1 [ip] None → ks_inodes s1 !! ip = Some x → i_inum x = inum →
    wp (namex_loop ip (cstring path junk) par name (S (length (cstring path junk)))) (λ r s', quiet s s' ∧
      found V B D (ks_inodes s) par (components path) (resolve V par inum (components path)) r s') s1) as Hloop.
  { intros ip s1 x Q Hw1 Hx Ei. eapply wp_mono.
    - eapply (namex_loop_spec V B D P (ks_inodes s) Hsz (tb_ok _ _ _ Htb) f g fx gx Hfg Hf Hg Rf Rg); try done; by eapply (tree_quiet V B D P (ks_inodes s) Hsz (tb_ok _ _ _ Htb) s).
    - intros r s' [Q' Hr]. split; [by etrans|done]. }
  unfold namex. unfold starts in Hst.
  assert (∃ c, head (cstring path junk) = Some c ∧ (c =? 47) = bool_decide (head path = Some 47)) as (c & Hc & Ec).
  { destruct path as [|c path]; [by exists 0|]. exists c. split; [done|]. simpl. destruct (Z.eqb_spec c 47).
    - symmetry. apply bool_decide_true. congruence.
    - symmetry. apply bool_decide_false. congruence. }
  wp_step. eapply wp_the; [done|]. rewrite Ec. case_bool_decide as E47.
  - rewrite decide_True in Hst by done. subst inum. destruct (iget_entry_free 1 1 _ _ _ Hf Rf) as [[ip x] Hget].
    wp_call (walk_iget V B D P (ks_inodes s) Hsz (tb_ok _ _ _ Htb) s [] 1 ip x Hw Hget). intros r s1 (-> & Q1 & Hw1 & Hx & Ei & _). eauto.
  - rewrite decide_False in Hst by done. destruct Hst as (p & pr & cwd & x & Hcur & Hpr & Hcwd & Hx & Hr & Hi).
    apply wp_bind. unfold myproc. wp_step. wp_step. wp_step. eapply wp_the; [done|]. wp_step. eapply wp_get_proc; [done|].
    wp_step. eapply wp_the; [done|]. eapply wp_mono; [by eapply walk_idup|].
    intros r s1 (-> & Q1 & Hw1 & x1 & Hx1 & Ei1). eapply Hloop; try done. congruence.
Qed.

(** C8: a path leads where the directories of the disk say.  On a disk whose
    directories are well formed, [namei] returns a new reference to the inode
    that the elements of the path lead to from the root (or from the working
    directory, if the path does not begin with a slash), or null if an element
    is missing or something before the last one is not a directory;
    [nameiparent] does so for the directory of the last element, which it
    copies to [name].  No other reference count changes, no inode stays locked,
    and nothing is written, whatever was in the inode cache and in the buffer
    cache before. *)
Theorem namei_resolves V B D P s path junk name inum :
  bio s V B D → (size (B ∪ D) < NBUF)%nat → tree s V B P → table V (ks_inodes s) None → two_free (ks_inodes s) →
  (0 ∉ path) → length name = DIRSIZ → starts s path inum → P inum →
  let cs := components path in
  wp (namei (cstring path junk)) (λ r s', quiet s s' ∧ found V B D (ks_inodes s) false cs (resolve V false inum cs) (r, []) s') s ∧
  wp (nameiparent (cstring path junk) name) (λ r s', quiet s s' ∧ found V B D (ks_inodes s) true cs (resolve V true inum cs) r s') s.
Proof.
  intros Hs Hsz Ht Htb H2 Hp Hname Hst HP cs. split; [|by eapply namex_spec].
  unfold namei. wp_call (namex_spec V B D P s path junk false (replicate DIRSIZ 0)); try done.
  intros r s' [Q Hr]. wp_step. split; [done|]. fold cs in Hr. unfold found in *. destruct (resolve V false inum cs); [|done].
  destruct Hr as (ip & x & ? & ? & ? & ? & _). exists ip, x. done.
Qed.

End Lock.

(** A table in which nothing is in use. *)
Lemma fresh_table W : table W (replicate NINODE zero_inode) None ∧ two_free (replicate NINODE zero_inode).
Proof.
  assert (∀ j x, replicate NINODE zero_inode !! j = Some x → i_ref x = 0) as H0 by by intros j x [-> _]%lookup_replicate_1.
  split; [|by exists 0%nat, 1%nat, zero_inode, zero_inode]. split; [|intros j x Hj; rewrite (H0 _ _ Hj); lia|done].
  split; [intros j x Hj; rewrite (H0 _ _ Hj); lia|]. intros i j x y Hx _ Hr. rewrite (H0 _ _ Hx) in Hr. lia.
Qed.

(** ** An example: the disk of [Example] with the inodes of its root directory
    and of the empty file "ab" in it *)

Module PathExample.
Import Memide InodeExample.

Definition din (type size addr : Z) : list Z :=
  le_bytes 2 type ++ [0; 0; 0; 0; 1; 0] ++ le_bytes 4 size ++ le_bytes 4 addr ++ replicate 48 0.
Definition disk : list (list Z) :=
  <[2%nat:=splice 64 (din 1 32 5 ++ din 2 0 0) Example.zeros]> Example.disk.
Definition V : Z → list Z := disk_view disk.

Lemma disk_blocks_ok : Forall block_ok disk.
Proof. apply (bool_decide_unpack _). by vm_compute. Qed.

(** The path "/ab/x" goes through a file, "//./ab" does not. *)
Lemma paths :
  resolve V false 1 (components [47; 97; 98]) = Some 2 ∧ resolve V false 1 (components [47; 47; 46; 47; 97; 98]) = Some 2 ∧
  resolve V false 1 (components [47; 97; 98; 47; 120]) = None ∧ resolve V true 1 (components [47; 120; 121]) = Some 1.
Proof. by vm_compute. Qed.

Lemma is_tree s : ks_disk s = disk → tree s V ∅ (λ n, n = 1 ∨ n = 2).
Proof.
  intros Dk. assert (∀ a, 0 < a < 32 → readable s ∅ a) as Hr.
  { intros a Ha. split_and!; [lia|lia| |set_solver]. rewrite Dk. change (length disk) with 32%nat. lia. }
  split.
  - intros n [-> | ->]; by apply Hr.
  - intros n [-> | ->]; by vm_compute.
  - intros n [-> | ->] Hd; [|by vm_compute in Hd]. assert (i_size (Path.ino V 1) = 32) as -> by by vm_compute. clear Hd. done.
  - intros n [-> | ->] Hd; [|by vm_compute in Hd]. split_and!; [by vm_compute|done| |intros Hk; by vm_compute in Hk].
    intros j Hj. change (i_size (Path.ino V 1)) with 32 in Hj. change ((32 + 511) / 512) with 1 in Hj.
    assert (j = 0) as -> by lia. assert (fblock V (Path.ino V 1) 0 = 5) as -> by by vm_compute. apply Hr. lia.
  - intros n de [-> | ->] Hd; [|by vm_compute in Hd].
    assert (Forall (λ e, de_inum e = 1 ∨ de_inum e = 2) (entries_of V 1)) as Hall
      by (apply (bool_decide_unpack _); by vm_compute).
    intros Hde _. rewrite Forall_forall in Hall. by apply Hall.
Qed.

Lemma namei_resolves_witness : ∃ s, ks_disk s = disk ∧
  wp (namei (cstring [47; 97; 98] [7])) (λ r s', quiet s s' ∧ found V ∅ ∅ (ks_inodes s) false [[97; 98]] (Some 2) (r, []) s') s ∧
  wp (nameiparent (cstring [47; 97; 98] [7]) (replicate 14 9)) (λ r s', quiet s s' ∧
    found V ∅ ∅ (ks_inodes s) true [[97; 98]] (Some 1) r s') s.
Proof.
  destruct (proj1 (wp_runs _ _ _) (binit_boots disk 0 disk_blocks_ok)) as ([] & s & _ & Hb & Dk & In & _).
  exists (set_cur (Some 0%nat) s). split; [done|]. destruct Hb as [Hb _ _ _]. simpl in Hb. rewrite Dk in Hb.
  destruct (fresh_table V) as [Htb H2]. change (replicate NINODE zero_inode) with (ks_inodes (bss disk)) in Htb, H2.
  rewrite <-In in Htb, H2. apply (namei_resolves V ∅ ∅ (λ n, n = 1 ∨ n = 2) (set_cur (Some 0%nat) s) [47; 97; 98] [7] (replicate 14 9) 1); try done.
  - rewrite union_empty_l_L, size_empty. lia.
  - by apply is_tree.
  - apply (bool_decide_unpack _). by vm_compute.
  - by left.
Defined.

End PathExample.
