(* ===== verification/Kalloc.v ===== *)
(** * Kalloc: the physical page allocator (kalloc.c)

    Free pages form a list linked through their first words.  Pages are
    identified by their kernel virtual address; the contents of a page are
    the bytes [ks_mem] has for it. *)

From S2P Require Import Prelude Bytes CString Kernel Sched.

#[local] Arguments replicate : simpl never.

(** Addresses the linker fixes: [end], the first address after the kernel,
    [data], where its writable data starts, and [forkret], where a new process
    starts. *)
Class Linker := { ld_end : Z; ld_data : Z; ld_forkret : Z }.

(** memlayout.h and mmu.h *)
Definition v2p (a : Z) : Z := u32 (a - KERNBASE).
Definition p2v (a : Z) : Z := u32 (a + KERNBASE).
Definition PGROUNDUP (sz : Z) : Z := Z.land (u32 (sz + PGSIZE - 1)) (u32 (Z.lnot (PGSIZE - 1))).
Definition PGROUNDDOWN (a : Z) : Z := Z.land (u32 a) (u32 (Z.lnot (PGSIZE - 1))).

(** The contents of the page at [a]. *)
Definition get_page (a : Z) : K (list Z) := m ← gets ks_mem; the (m !! a).
Definition upd_page (a : Z) (f : list Z → list Z) : K () :=
  m ← gets ks_mem;
  p ← the (m !! a);
  modify (set_mem (<[a:=f p]> m)).

Section Code.
Context `{Linker}.

Definition kmem_lock : K () := u ← gets ks_use_lock; when u (acquire L_kmem).
Definition kmem_unlock : K () := u ← gets ks_use_lock; when u (release L_kmem).

Definition kfree (v : Z) : K () :=
  if negb (v mod PGSIZE =? 0) || (v <? ld_end) || (PHYSTOP <=? v2p v) then panic "kfree" else
  modify (λ s, set_mem (<[v:=replicate 4096 1]> (ks_mem s)) s);;
  kmem_lock;;
  r ← gets ks_freelist;
  upd_page v (put32 0 r);;
  modify (set_freelist v);;
  kmem_unlock.

(** The address of the page, or 0. *)
Definition kalloc : K Z :=
  kmem_lock;;
  r ← gets ks_freelist;
  when (negb (r =? 0)) (
    p ← get_page r;
    modify (set_freelist (get32 0 p)));;
  kmem_unlock;;
  mret r.

Fixpoint freerange_loop (p : Z) (n : nat) : K () :=
  match n with
  | O => mret ()
  | S n' => kfree p;; freerange_loop (p + PGSIZE) n'
  end.

(** The loop runs while [p + PGSIZE <= vend]. *)
Definition freerange (vstart vend : Z) : K () :=
  let p := PGROUNDUP vstart in
  freerange_loop p (Z.to_nat ((vend - p) / PGSIZE)).

Definition kinit1 (vstart vend : Z) : K () :=
  modify (set_use_lock false);; freerange vstart vend.

Definition kinit2 (vstart vend : Z) : K () :=
  freerange vstart vend;; modify (set_use_lock true).

End Code.

(** ** The free list *)

(** Pages [kfree] accepts. *)
Definition page_ok `{Linker} (v : Z) : Prop :=
  v mod PGSIZE = 0 ∧ ld_end ≤ v ∧ v2p v < PHYSTOP.

(** From [a], the links in memory run through the pages [l] to the null pointer. *)
Fixpoint links (m : gmap Z (list Z)) (a : Z) (l : list Z) : Prop :=
  match l with
  | [] => a = 0
  | x :: l' => a = x ∧ a ≠ 0 ∧ ∃ p, m !! a = Some p ∧ links m (get32 0 p) l'
  end.

Lemma links_ext m m' a l : (∀ x, x ∈ l → m' !! x = m !! x) → links m a l → links m' a l.
Proof.
  revert a. induction l as [|x l IH]; intros a Hm; simpl; [done|].
  intros (-> & H0 & p & Hp & Hl). split_and!; [done..|]. exists p. rewrite Hm by (by left).
  split; [done|]. apply IH; [|done]. intros y Hy. apply Hm. by right.
Qed.

(** The allocator in state [s] has the free pages [l], in the order in which
    it will hand them out, and the lock is free. *)
Record free_list (s : kstate) (l : list Z) : Prop := {
  fl_links : links (ks_mem s) (ks_freelist s) l;
  fl_nodup : NoDup l;
  fl_range : Forall (λ a, 0 ≤ a < 2 ^ 32) l;
  fl_lock : L_kmem ∉ ks_held s;
}.

Lemma free_list_ext s s' l :
  free_list s l → ks_mem s' = ks_mem s → ks_freelist s' = ks_freelist s → L_kmem ∉ ks_held s' →
  free_list s' l.
Proof. intros [H1 H2 H3 H4] Em Ef Hh. split; [by rewrite Em, Ef|done..]. Qed.

(** Running a critical section of [kmem.lock], taken only if [use_lock]. *)
Lemma wp_kmem_lock (Q : () → kstate → Prop) s :
  L_kmem ∉ ks_held s →
  Q () (if ks_use_lock s then set_held (L_kmem :: ks_held s) s else s) → wp kmem_lock Q s.
Proof.
  intros Hh HQ. unfold kmem_lock. wp_steps. destruct (ks_use_lock s); [by apply wp_acquire|done].
Qed.

Lemma wp_kmem_unlock (Q : () → kstate → Prop) s h :
  (if ks_use_lock s then ks_held s = L_kmem :: h else ks_held s = h) → L_kmem ∉ h →
  Q () (set_held h s) → wp kmem_unlock Q s.
Proof.
  intros Hh Hn HQ. unfold kmem_unlock. wp_steps. destruct (ks_use_lock s); [by eapply wp_release|].
  unfold when. wp_step. subst h. by destruct s.
Qed.

Section Specs.
Context `{Linker}.

Lemma kfree_spec v s :
  page_ok v → L_kmem ∉ ks_held s →
  wp (kfree v) (λ _ s', s' = set_freelist v (set_mem
    (<[v:=put32 0 (ks_freelist s) (replicate 4096 1)]> (ks_mem s)) s)) s.
Proof.
  intros (Hal & He & Hp) Hh. unfold kfree. rewrite (proj2 (Z.eqb_eq _ _) Hal).
  rewrite (proj2 (Z.ltb_ge _ _) He), (proj2 (Z.leb_gt _ _) Hp). cbn [negb orb]. wp_steps.
  apply wp_kmem_lock; [done|].
  change (ks_use_lock (set_mem (<[v:=replicate 4096 1]> (ks_mem s)) s)) with (ks_use_lock s).
  destruct (ks_use_lock s) eqn:Eu;
    (unfold upd_page; wp_steps; eapply wp_the; [by apply lookup_insert_eq|]; wp_steps;
     eapply wp_kmem_unlock; [simpl; rewrite Eu; done|done|]; simpl; rewrite insert_insert_eq;
     by destruct s).
Qed.

Lemma kalloc_spec s :
  L_kmem ∉ ks_held s → (ks_freelist s ≠ 0 → is_Some (ks_mem s !! ks_freelist s)) →
  wp kalloc (λ r s', r = ks_freelist s ∧
    s' = if ks_freelist s =? 0 then s else
      set_freelist (get32 0 (ks_mem s !!! ks_freelist s)) s) s.
Proof.
  intros Hh Hm. unfold kalloc. wp_step. apply wp_kmem_lock; [done|]. wp_steps.
  destruct (Z.eqb_spec (ks_freelist s) 0) as [E|E].
  - destruct (ks_use_lock s) eqn:Eu; simpl; rewrite E; cbn [Z.eqb negb when]; unfold when; wp_steps;
      (eapply wp_kmem_unlock; [simpl; rewrite Eu; done|done|]; wp_step; split; [done|]; by destruct s).
  - destruct (Hm E) as [p Hp]. destruct (ks_use_lock s) eqn:Eu; simpl;
      rewrite (proj2 (Z.eqb_neq _ _) E); cbn [negb]; unfold when, get_page; wp_steps;
      (eapply wp_the; [done|]; wp_steps; eapply wp_kmem_unlock; [simpl; rewrite Eu; done|done|];
       wp_step; split; [done|]; rewrite (lookup_total_correct _ _ _ Hp); by destruct s).
Qed.

(** [kfree] puts the page at the front of the list, [kalloc] takes it from there. *)
Lemma kfree_list v l s :
  page_ok v → 0 < v < 2 ^ 32 → v ∉ l → free_list s l →
  wp (kfree v) (λ _ s', free_list s' (v :: l) ∧ (∀ a, a ≠ v → ks_mem s' !! a = ks_mem s !! a) ∧
    ∃ f m, s' = set_freelist f (set_mem m s)) s.
Proof.
  intros Hv Hr Hn [Hl Hd Hrg Hk]. eapply wp_mono; [by apply kfree_spec|]. intros [] s' ->. split_and!.
  - split; simpl; [|by constructor|constructor; [lia|done]|done].
    split_and!; [done|lia|]. eexists. split; [by apply lookup_insert_eq|].
    rewrite get_put32_eq by (rewrite length_replicate; lia).
    assert (u32 (ks_freelist s) = ks_freelist s) as ->.
    { apply u32_small. destruct l as [|x l]; simpl in Hl; [lia|]. destruct Hl as (-> & _).
      by apply Forall_cons in Hrg as [? _]. }
    eapply links_ext; [|exact Hl]. intros x Hx. rewrite lookup_insert_ne; [done|]. by intros ->.
  - intros a Ha. simpl. by rewrite lookup_insert_ne by done.
  - eauto.
Qed.

Lemma kalloc_list l s :
  free_list s l →
  wp kalloc (λ r s', r = hd 0 l ∧ free_list s' (tail l) ∧ ks_mem s' = ks_mem s ∧
    ∃ f, s' = set_freelist f s) s.
Proof.
  intros [Hl Hd Hrg Hk]. eapply wp_mono; [apply kalloc_spec; [done|]|].
  - intros Hne. destruct l as [|x l]; [done|]. destruct Hl as (_ & _ & p & Hp & _). eauto.
  - intros r s' [-> ->]. destruct l as [|x l]; simpl in *.
    + rewrite Hl. cbn [Z.eqb]. split_and!; [done|by split|done|]. exists (ks_freelist s). by destruct s.
    + destruct Hl as (-> & H0 & p & Hp & Hl). rewrite (proj2 (Z.eqb_neq _ _) H0).
      split; [done|]. split; [|eauto]. apply NoDup_cons in Hd as [_ Hd]. apply Forall_cons in Hrg as [_ Hrg].
      split; simpl; try done. by rewrite (lookup_total_correct _ _ _ Hp).
Qed.

End Specs.

(** The pages from [p] on, the last one first. *)
Fixpoint pages_down (p : Z) (n : nat) : list Z :=
  match n with
  | O => []
  | S n' => pages_down (p + PGSIZE) n' ++ [p]
  end.

Lemma elem_of_pages_down p n v :
  v ∈ pages_down p n ↔ ∃ k, (k < n)%nat ∧ v = p + 4096 * Z.of_nat k.
Proof.
  revert p. induction n as [|n IH]; intros p; simpl.
  - split; [by intros ?%not_elem_of_nil|]. intros (k & ? & _). lia.
  - rewrite elem_of_app, list_elem_of_singleton, IH. split.
    + intros [(k & ? & ->)| ->]; [exists (S k); lia|exists 0%nat; lia].
    + intros ([|k] & ? & ->); [right; lia|]. left. exists k. lia.
Qed.

(** [freerange] puts every page of the range on the list. *)
Lemma freerange_loop_list `{Linker} p n l s :
  (∀ k, (k < n)%nat → page_ok (p + 4096 * Z.of_nat k) ∧ 0 < p + 4096 * Z.of_nat k < 2 ^ 32 ∧
    (p + 4096 * Z.of_nat k) ∉ l) →
  free_list s l →
  wp (freerange_loop p n) (λ _ s', free_list s' (pages_down p n ++ l) ∧
    (∀ a, a ∉ pages_down p n → ks_mem s' !! a = ks_mem s !! a) ∧ ∃ f m, s' = set_freelist f (set_mem m s)) s.
Proof.
  revert p l s. induction n as [|n IH]; intros p l s Hp Hf; cbn [freerange_loop pages_down].
  { wp_step. split_and!; [done..|]. exists (ks_freelist s), (ks_mem s). by destruct s. }
  destruct (Hp 0%nat ltac:(lia)) as (Hok & Hr & Hn). rewrite Z.mul_0_r, Z.add_0_r in Hok, Hr, Hn.
  wp_call (kfree_list p l); [done..|]. intros [] s1 (Hf1 & M1 & f1 & m1 & ->).
  eapply wp_mono; [apply (IH (p + 4096) (p :: l))|]; [|done|].
  - intros k Hk. destruct (Hp (S k) ltac:(lia)) as (A & B & C).
    replace (p + 4096 + 4096 * Z.of_nat k) with (p + 4096 * Z.of_nat (S k)) by lia.
    split_and!; [done|lia|lia|]. apply not_elem_of_cons. split; [lia|done].
  - intros [] s2 (H2 & M2 & f2 & m2 & ->). rewrite <-app_assoc. split_and!; [done| |by exists f2, m2].
    intros a [Ha Ha']%not_elem_of_app. rewrite M2 by done. apply M1. intros ->. apply Ha'. by left.
Qed.

(** ** The allocator never hands out a page twice

    A history of calls: [Alloc] calls [kalloc], [Free v] calls [kfree] with a
    page that is allocated.  The specification is the set of allocated pages
    and the stack of free ones. *)

Inductive op := Alloc | Free (v : Z).

Definition run_op `{Linker} (o : op) : K Z :=
  match o with Alloc => kalloc | Free v => kfree v;; mret 0 end.

Inductive alloc_step `{Linker} : gset Z * list Z → op → Z → gset Z * list Z → Prop :=
| step_alloc A v l : alloc_step (A, v :: l) Alloc v ({[v]} ∪ A, l)
| step_exhausted A : alloc_step (A, []) Alloc 0 (A, [])
| step_free A v l : v ∈ A → alloc_step (A, l) (Free v) 0 (A ∖ {[v]}, v :: l).

(** The concrete state implements the abstract one. *)
Record kmem_inv `{Linker} (s : kstate) (a : gset Z * list Z) : Prop := {
  km_free : free_list s a.2;
  km_disj : ∀ v, v ∈ a.2 → v ∉ a.1;
  km_pages : ∀ v, v ∈ a.1 → page_ok v ∧ 0 < v < 2 ^ 32;
  km_pages' : ∀ v, v ∈ a.2 → page_ok v ∧ 0 < v < 2 ^ 32;
}.

(** C14: the free list linked through the pages implements a set of free pages.
    Every call returns what the specification returns, a page handed out was
    not in use, and freeing it makes it available again; contents of pages in
    use are not touched. *)
Theorem kalloc_refines `{Linker} a o r a' s :
  kmem_inv s a → alloc_step a o r a' →
  wp (run_op o) (λ r' s', r' = r ∧ kmem_inv s' a' ∧
    ∀ v, v ∈ a.1 → v ∈ a'.1 → ks_mem s' !! v = ks_mem s !! v) s.
Proof.
  intros [Hf Hd Hp Hp'] Hstep. destruct Hstep as [A v l|A|A v l Hv]; simpl in *.
  - eapply wp_mono; [by apply kalloc_list|]. intros r s' (-> & Hf' & Hm & _). split; [done|].
    split; [|by intros; rewrite Hm]. pose proof (fl_nodup _ _ Hf) as Hnd. apply NoDup_cons in Hnd as [Hnv Hnd].
    split; simpl; try done.
    + intros w Hw. assert (w ∉ A) by (apply Hd; by right). set_solver.
    + intros w [->%elem_of_singleton|Hw]%elem_of_union; [apply Hp'; by left|by apply Hp].
    + intros w Hw. apply Hp'. by right.
  - eapply wp_mono; [by apply kalloc_list|]. intros r s' (-> & Hf' & Hm & _). split; [done|].
    split; [|by intros; rewrite Hm]. by split.
  - destruct (Hp v Hv) as [Hok Hr]. assert (v ∉ l) as Hvl by (intros Hin; by apply (Hd v)).
    wp_call (kfree_list v l); [done..|]. intros [] s' (Hf' & Hm & _). wp_step. split; [done|].
    split; [|intros w Hw [_ Hne]%elem_of_difference; apply Hm; set_solver]. split; simpl; try done.
    + intros w [->|Hw]%elem_of_cons; [set_solver|]. apply Hd in Hw. set_solver.
    + intros w [Hw _]%elem_of_difference. by apply Hp.
    + intros w [->|Hw]%elem_of_cons; [done|]. by apply Hp'.
Qed.

Module KallocExample.

#[export] Instance linker : Linker := {| ld_end := 0x80110000; ld_data := 0x80108000; ld_forkret := 0x80104000 |}.

Definition page : Z := 0x80200000.
Definition one_page : kstate :=
  set_freelist page (set_mem {[page:=put32 0 0 (replicate 4096 1)]} (bss [])).

Lemma page_page_ok : page_ok page.
Proof. repeat split; by vm_compute. Qed.

Lemma one_page_inv : kmem_inv one_page (∅, [page]).
Proof.
  split; simpl; try done.
  - split; simpl; [|apply NoDup_singleton|by repeat constructor|set_solver].
    split; [done|]. split; [done|]. eexists. split; [apply lookup_singleton_eq|].
    rewrite get_put32_eq; [done|]. rewrite length_replicate. lia.
  - intros v ->%list_elem_of_singleton. split; [apply page_page_ok|by vm_compute].
Qed.

End KallocExample.

Import KallocExample.

Lemma kalloc_refines_witness :
  let a : gset Z * list Z := (∅, [page]) in let a' : gset Z * list Z := ({[page]} ∪ ∅, []) in
  wp (run_op Alloc) (λ r' s', r' = page ∧ kmem_inv s' a' ∧
    ∀ v, v ∈ a.1 → v ∈ a'.1 → ks_mem s' !! v = ks_mem one_page !! v) one_page.
Proof.
  intros a a'. apply (kalloc_refines a Alloc page a' one_page); [apply one_page_inv|constructor].
Defined.
