(* ===== verification/Pipe.v ===== *)
(** * Pipe: pipes (pipe.c)

    A pipe is a ring buffer of [PIPESIZE] bytes with two counters that only
    grow, modulo 2^32.  The specification is a queue of bytes. *)

From S2P Require Import Prelude Bytes CString Ring Kernel Sched Kalloc.

#[local] Arguments replicate : simpl never.

Abbreviation PIPESIZE := 512.

(** ** The code *)

Definition get_pipe (p : Z) : K pipe := m ← gets ks_pipes; the (m !! p).
Definition upd_pipe (p : Z) (f : pipe → pipe) : K () :=
  m ← gets ks_pipes; x ← the (m !! p); modify (set_pipes (<[p:=f x]> m)).

(** [proc->killed] *)
Definition killed : K bool := p ← myproc; pr ← get_proc p; mret (p_killed pr).

(** [p->data[p->nwrite++ % PIPESIZE] = c] *)
Definition pipe_push (c : Z) (x : pipe) : pipe :=
  with_pi_nwrite (u32 (pi_nwrite x + 1))
    (with_pi_data (<[Z.to_nat (pi_nwrite x mod PIPESIZE):=c]> (pi_data x)) x).

(** The loop of [pipewrite] over the bytes to write; [false] is the return
    with -1.  A process that has to wait goes to sleep with the bytes written
    so far in the pipe. *)
Fixpoint pipewrite_loop (p : Z) (l : list Z) : K bool :=
  match l with
  | [] => mret true
  | c :: l' =>
      x ← get_pipe p;
      if pi_nwrite x =? u32 (pi_nread x + PIPESIZE) then
        k ← killed;
        if negb (pi_readopen x) || k then release (L_pipe p);; mret false
        else wakeup (ChNread p);; sleep (ChNwrite p) (L_pipe p)
      else upd_pipe p (pipe_push c);; pipewrite_loop p l'
  end.

Definition pipewrite (p : Z) (addr : list Z) (n : Z) : K Z :=
  acquire (L_pipe p);;
  ok ← pipewrite_loop p (take (Z.to_nat n) addr);
  if (ok : bool) then
    wakeup (ChNread p);;
    release (L_pipe p);;
    mret n
  else mret (-1).

(** The copy loop of [piperead], with at most [n] turns: the bytes stored at [addr]. *)
Fixpoint piperead_loop (p : Z) (n : nat) : K (list Z) :=
  match n with
  | O => mret []
  | S n' =>
      x ← get_pipe p;
      if pi_nread x =? pi_nwrite x then mret [] else
      c ← the (pi_data x !! Z.to_nat (pi_nread x mod PIPESIZE));
      upd_pipe p (λ x, with_pi_nread (u32 (pi_nread x + 1)) x);;
      l ← piperead_loop p n';
      mret (c :: l)
  end.

Definition piperead (p : Z) (n : Z) : K (Z * list Z) :=
  acquire (L_pipe p);;
  x ← get_pipe p;
  if (pi_nread x =? pi_nwrite x) && pi_writeopen x then
    k ← killed;
    if (k : bool) then release (L_pipe p);; mret (-1, [])
    else sleep (ChNread p) (L_pipe p)
  else
    l ← piperead_loop p (Z.to_nat n);
    wakeup (ChNwrite p);;
    release (L_pipe p);;
    mret (Z.of_nat (length l), l).

Section Code.
Context `{Linker}.

Definition pipeclose (p : Z) (writable : bool) : K () :=
  acquire (L_pipe p);;
  (if writable then upd_pipe p (with_pi_writeopen false);; wakeup (ChNread p)
   else upd_pipe p (with_pi_readopen false);; wakeup (ChNwrite p));;
  x ← get_pipe p;
  if negb (pi_readopen x) && negb (pi_writeopen x) then
    release (L_pipe p);;
    modify (λ s, set_pipes (delete p (ks_pipes s)) s);;
    kfree p
  else release (L_pipe p).

End Code.

(** ** Pipes as queues *)

(** The pipe holds the bytes [q], the next one to be read first. *)
Definition pipe_ok (x : pipe) (q : list Z) : Prop :=
  ringbuf 512 (pi_data x) (pi_nread x) (pi_nwrite x) q.

Lemma pipe_full x q : pipe_ok x q → (pi_nwrite x =? u32 (pi_nread x + 512)) = bool_decide (length q = 512%nat).
Proof. intros Hx. rewrite (ring_full _ _ _ _ Hx). apply bool_decide_ext. lia. Qed.

Lemma pipe_empty x q : pipe_ok x q → (pi_nread x =? pi_nwrite x) = bool_decide (q = []).
Proof. apply ring_empty. Qed.

Lemma pipe_push_ok x q c : pipe_ok x q → (length q < 512)%nat → pipe_ok (pipe_push c x) (q ++ [c]).
Proof. intros Hx Hq. apply (ring_push _ _ _ _ c Hx). lia. Qed.

Lemma pipe_pop_ok x c q :
  pipe_ok x (c :: q) →
  pi_data x !! Z.to_nat (pi_nread x mod 512) = Some c ∧
  pipe_ok (with_pi_nread (u32 (pi_nread x + 1)) x) q.
Proof. apply ring_pop. Qed.

(** ** Specifications *)

Lemma wp_get_pipe p x (Q : pipe → kstate → Prop) s :
  ks_pipes s !! p = Some x → Q x s → wp (get_pipe p) Q s.
Proof. intros Hp HQ. unfold get_pipe. wp_steps. by eapply wp_the. Qed.

Lemma wp_upd_pipe p x f (Q : () → kstate → Prop) s :
  ks_pipes s !! p = Some x → Q () (set_pipes (<[p:=f x]> (ks_pipes s)) s) → wp (upd_pipe p f) Q s.
Proof. intros Hp HQ. unfold upd_pipe. wp_steps. eapply wp_the; [done|]. by wp_steps. Qed.

Lemma set_pipes_twice m m' s : set_pipes m (set_pipes m' s) = set_pipes m s.
Proof. done. Qed.

Lemma pipewrite_loop_spec p l x q s :
  ks_pipes s !! p = Some x → pipe_ok x q → (length q + length l ≤ 512)%nat →
  wp (pipewrite_loop p l) (λ r s', r = true ∧ ∃ x', pipe_ok x' (q ++ l) ∧
    pi_readopen x' = pi_readopen x ∧ pi_writeopen x' = pi_writeopen x ∧
    s' = set_pipes (<[p:=x']> (ks_pipes s)) s) s.
Proof.
  revert x q s. induction l as [|c l IH]; intros x q s Hp Hx Hl; cbn [pipewrite_loop].
  - wp_step. split; [done|]. exists x. rewrite app_nil_r, insert_id by done. split_and!; try done. by destruct s.
  - simpl in Hl. wp_step. eapply wp_get_pipe; [done|].
    rewrite (pipe_full x q Hx), bool_decide_false by lia. wp_step. eapply wp_upd_pipe; [done|].
    eapply wp_mono.
    { eapply (IH _ (q ++ [c])); [apply lookup_insert_eq|apply pipe_push_ok; [done|lia]|rewrite length_app; simpl; lia]. }
    intros r s' (-> & x' & Hx' & Hr & Hw & ->). split; [done|]. exists x'. rewrite <-app_assoc in Hx'.
    split_and!; try done. simpl. by rewrite insert_insert_eq.
Qed.

Lemma piperead_loop_spec p n x q s :
  ks_pipes s !! p = Some x → pipe_ok x q →
  wp (piperead_loop p n) (λ l s', l = take n q ∧ ∃ x', pipe_ok x' (drop n q) ∧
    pi_readopen x' = pi_readopen x ∧ pi_writeopen x' = pi_writeopen x ∧
    s' = set_pipes (<[p:=x']> (ks_pipes s)) s) s.
Proof.
  revert x q s. induction n as [|n IH]; intros x q s Hp Hx; cbn [piperead_loop].
  - wp_step. split; [done|]. exists x. rewrite drop_0, insert_id by done. split_and!; try done. by destruct s.
  - wp_step. eapply wp_get_pipe; [done|]. rewrite (pipe_empty x q Hx). destruct q as [|c q].
    + rewrite bool_decide_true by done. wp_step. split; [done|]. exists x. rewrite insert_id by done.
      split_and!; try done. by destruct s.
    + rewrite bool_decide_false by done. destruct (pipe_pop_ok x c q Hx) as [Hc Hx1].
      wp_step. eapply wp_the; [done|]. wp_step. eapply wp_upd_pipe; [done|].
      wp_call (IH _ q _ (lookup_insert_eq _ _ _) Hx1).
      intros l s' (-> & x' & Hx' & Hr & Hw & ->). wp_step. split; [done|]. exists x'.
      split_and!; try done. simpl. by rewrite insert_insert_eq.
Qed.

(** After the critical section: the pipe replaced and the sleepers woken. *)
Definition pipe_done (p : Z) (x : pipe) (c : chan) (s : kstate) : kstate :=
  set_procs (wakeup1_proc c <$> ks_procs s) (set_pipes (<[p:=x]> (ks_pipes s)) s).

(** C27: [pipewrite] appends to the queue.  If the bytes fit, it writes all of
    them after those already in the pipe, wakes the readers, and returns the
    number written; the counters may wrap. *)
Theorem pipewrite_enqueues p l x q s :
  ks_held s = [] → ks_pipes s !! p = Some x → pipe_ok x q → (length q + length l ≤ 512)%nat →
  wp (pipewrite p l (Z.of_nat (length l))) (λ r s', r = Z.of_nat (length l) ∧
    ∃ x', pipe_ok x' (q ++ l) ∧ s' = pipe_done p x' (ChNread p) s) s.
Proof.
  intros Hh Hp Hx Hl. unfold pipewrite. wp_step. apply wp_acquire; [rewrite Hh; set_solver|].
  rewrite Nat2Z.id, take_ge by done.
  wp_call (pipewrite_loop_spec p l x q); [done..|]. intros r s' (-> & x' & Hx' & _ & _ & ->).
  wp_step. apply wp_wakeup; [simpl; rewrite Hh; set_solver|]. wp_step.
  eapply wp_release; [simpl; by rewrite Hh|set_solver|]. wp_step. split; [done|]. exists x'. split; [done|].
  unfold pipe_done. destruct s. simpl in *. by subst.
Qed.

(** C28: [piperead] takes from the front of the queue.  It returns the first
    [n] bytes, or all there are, in the order in which they were written,
    leaves the rest, and wakes the writers; with the writing end closed and
    nothing left it returns 0. *)
Theorem piperead_dequeues p n x q s :
  ks_held s = [] → ks_pipes s !! p = Some x → pipe_ok x q → q ≠ [] ∨ pi_writeopen x = false → 0 ≤ n →
  wp (piperead p n) (λ r s', r = (Z.min n (Z.of_nat (length q)), take (Z.to_nat n) q) ∧
    ∃ x', pipe_ok x' (drop (Z.to_nat n) q) ∧ s' = pipe_done p x' (ChNwrite p) s) s.
Proof.
  intros Hh Hp Hx Hq Hn. unfold piperead. wp_step. apply wp_acquire; [rewrite Hh; set_solver|].
  wp_step. eapply wp_get_pipe; [done|]. rewrite (pipe_empty x q Hx).
  assert (bool_decide (q = []) && pi_writeopen x = false) as ->.
  { destruct Hq as [Hq|Hq]; [by rewrite bool_decide_false|by rewrite Hq, andb_false_r]. }
  wp_call (piperead_loop_spec p (Z.to_nat n) x q); [done..|]. intros r s' (-> & x' & Hx' & _ & _ & ->).
  wp_step. apply wp_wakeup; [simpl; rewrite Hh; set_solver|]. wp_step.
  eapply wp_release; [simpl; by rewrite Hh|set_solver|]. wp_step. split.
  - f_equal. rewrite length_take. lia.
  - exists x'. split; [done|]. unfold pipe_done. destruct s. simpl in *. by subst.
Qed.

Module PipeExample.

(** A pipe whose write counter is about to wrap. *)
Definition pp : pipe := mk_pipe (<[511%nat:=65]> (replicate 512 0)) (2 ^ 32 - 1) 0 true true.
Definition st : kstate := set_pipes {[0:=pp]} (bss []).

Lemma pp_ok : pipe_ok pp [65].
Proof.
  split; simpl; try done; try lia.
  intros k c Hk. destruct k as [|k]; [|done]. simplify_eq/=. by vm_compute.
Qed.

End PipeExample.

Lemma pipewrite_enqueues_witness :
  wp (pipewrite 0 [66; 67] 2) (λ r s', r = 2 ∧
    ∃ x', pipe_ok x' ([65] ++ [66; 67]) ∧ s' = pipe_done 0 x' (ChNread 0) PipeExample.st) PipeExample.st.
Proof.
  apply (pipewrite_enqueues 0 [66; 67] PipeExample.pp [65]); [done|done|apply PipeExample.pp_ok|simpl; lia].
Defined.

Lemma piperead_dequeues_witness :
  wp (piperead 0 9) (λ r s', r = (1, [65]) ∧
    ∃ x', pipe_ok x' [] ∧ s' = pipe_done 0 x' (ChNwrite 0) PipeExample.st) PipeExample.st.
Proof.
  apply (piperead_dequeues 0 9 PipeExample.pp [65]); [done|done|apply PipeExample.pp_ok|by left|lia].
Defined.
