(* ===== verification/File.v ===== *)
(** * File: open files (file.c, and pipealloc of pipe.c) *)

From S2P Require Import Prelude Bytes CString Kernel Sched Ide Bio Log Crash Block Inode Icache Kalloc Pipe.

#[local] Arguments replicate : simpl never.

(** ** The code *)

(** The index of the file structure, or null. *)
Definition filealloc : K (option nat) :=
  acquire L_ftable;;
  l ← gets ks_files;
  match find_from (λ f, f_ref f =? 0) 0 l with
  | Some f =>
      upd_file f (with_f_ref 1);;
      release L_ftable;;
      mret (Some f)
  | None => release L_ftable;; mret None
  end.

Definition filedup (f : nat) : K nat :=
  acquire L_ftable;;
  x ← get_file f;
  if f_ref x <? 1 then panic "filedup" else
  upd_file f (λ x, with_f_ref (f_ref x + 1) x);;
  release L_ftable;;
  mret f.

Section Code.
Context `{Ide} `{Devsw} `{Linker}.

Definition fileclose (f : nat) : K () :=
  acquire L_ftable;;
  x ← get_file f;
  if f_ref x <? 1 then panic "fileclose" else
  upd_file f (λ x, with_f_ref (f_ref x - 1) x);;
  ff ← get_file f;
  if 0 <? f_ref ff then release L_ftable else
  upd_file f (with_f_ref 0);;
  upd_file f (with_f_type FD_NONE);;
  release L_ftable;;
  match f_type ff with
  | FD_PIPE => pipeclose (f_pipe ff) (f_writable ff)
  | FD_INODE =>
      begin_trans;;
      ip ← the (f_ip ff);
      iput ip;;
      commit_trans
  | FD_NONE => mret ()
  end.

(** The return value and what is stored at [st]. *)
Definition filestat (f : nat) : K (Z * option stat) :=
  x ← get_file f;
  match f_type x with
  | FD_INODE =>
      ip ← the (f_ip x);
      ilock ip;;
      st ← stati ip;
      iunlock ip;;
      mret (0, Some st)
  | _ => mret (-1, None)
  end.

(** The return value and the bytes stored at [addr]. *)
Definition fileread (f : nat) (n : Z) : K (Z * list Z) :=
  x ← get_file f;
  if negb (f_readable x) then mret (-1, []) else
  match f_type x with
  | FD_PIPE => piperead (f_pipe x) n
  | FD_INODE =>
      ip ← the (f_ip x);
      ilock ip;;
      r ← readi ip (f_off x) (u32 n);
      when (0 <? s32 r.1) (upd_file f (λ x, with_f_off (u32 (f_off x + r.1)) x));;
      iunlock ip;;
      mret (s32 r.1, r.2)
  | FD_NONE => panic "fileread"
  end.

(** [((LOGSIZE-1-1-2) / 2) * 512] *)
Definition filewrite_max : Z := ((LOGSIZE - 1 - 1 - 2) / 2) * 512.

(** The loop of [filewrite]: the value of [i] when it ends. *)
Fixpoint filewrite_loop (f ip : nat) (addr : list Z) (i n : Z) (fuel : nat) : K Z :=
  match fuel with
  | O => fault
  | S fuel' =>
      if negb (i <? n) then mret i else
      let n1 := Z.min (n - i) filewrite_max in
      begin_trans;;
      ilock ip;;
      x ← get_file f;
      r ← writei ip (slice (Z.to_nat i) (Z.to_nat n1) addr) (f_off x) n1;
      when (0 <? s32 r) (upd_file f (λ x, with_f_off (u32 (f_off x + r)) x));;
      iunlock ip;;
      commit_trans;;
      if s32 r <? 0 then mret i else
      if negb (s32 r =? n1) then panic "short filewrite" else
      filewrite_loop f ip addr (i + s32 r) n fuel'
  end.

Definition filewrite (f : nat) (addr : list Z) (n : Z) : K Z :=
  x ← get_file f;
  if negb (f_writable x) then mret (-1) else
  match f_type x with
  | FD_PIPE => pipewrite (f_pipe x) addr n
  | FD_INODE =>
      ip ← the (f_ip x);
      i ← filewrite_loop f ip addr 0 n (S (Z.to_nat (n / filewrite_max + 1)));
      mret (if i =? n then n else -1)
  | FD_NONE => panic "filewrite"
  end.

(** The cleanup of [pipealloc] after a failure. *)
Definition pipealloc_bad (p : Z) (f0 f1 : option nat) : K (option (nat * nat)) :=
  when (negb (p =? 0)) (kfree p);;
  (match f0 with Some f => fileclose f | None => mret () end);;
  (match f1 with Some f => fileclose f | None => mret () end);;
  mret None.

(** The fields [pipealloc] assigns to one end. *)
Definition pipe_end (p : Z) (readable : bool) (x : file) : file :=
  with_f_pipe p (with_f_writable (negb readable) (with_f_readable readable (with_f_type FD_PIPE x))).

(** The two files, or [None] for -1.  The pipe takes over the page: its
    buffer, after the lock of 52 bytes, has what the page had. *)
Definition pipealloc : K (option (nat * nat)) :=
  f0 ← filealloc;
  match f0 with
  | None => pipealloc_bad 0 None None
  | Some f0 =>
      f1 ← filealloc;
      match f1 with
      | None => pipealloc_bad 0 (Some f0) None
      | Some f1 =>
          p ← kalloc;
          if p =? 0 then pipealloc_bad 0 (Some f0) (Some f1) else
          page ← get_page p;
          modify (λ s, set_pipes (<[p:=mk_pipe (slice 52 512 page) 0 0 true true]> (ks_pipes s)) s);;
          upd_file f0 (pipe_end p true);;
          upd_file f1 (pipe_end p false);;
          mret (Some (f0, f1))
      end
  end.

End Code.

(** ** The file table *)

Lemma unlocked_files lk l s :
  ks_held s = [] → set_held [] (set_files l (set_held (lk :: ks_held s) s)) = set_files l s.
Proof. intros H. destruct s. simpl in *. by subst. Qed.

(** The entry [filealloc] takes. *)
Definition free_file (l : list file) : option nat := find_from (λ f, f_ref f =? 0) 0 l.

Lemma filealloc_spec s :
  ks_held s = [] →
  wp filealloc (λ r s', r = free_file (ks_files s) ∧
    s' = match r with
         | Some f => set_files (alter (with_f_ref 1) f (ks_files s)) s
         | None => s
         end) s.
Proof.
  intros Hh. unfold filealloc. wp_step. apply wp_acquire; [rewrite Hh; set_solver|]. wp_steps.
  simpl ks_files. unfold free_file.
  destruct (find_from (λ f, f_ref f =? 0) 0 (ks_files s)) as [f|] eqn:E.
  - apply find_from_lookup in E as (x & Hx & _). wp_step. eapply wp_upd_file; [done|].
    wp_step. eapply wp_release; [simpl; by rewrite Hh|set_solver|]. wp_step. split; [done|].
    rewrite (alter_insert _ _ _ _ Hx). by apply unlocked_files.
  - wp_step. eapply wp_release; [simpl; by rewrite Hh|set_solver|]. wp_step. split; [done|].
    destruct s. simpl in *. by subst.
Qed.

Lemma filedup_spec f x s :
  ks_held s = [] → ks_files s !! f = Some x → 1 ≤ f_ref x →
  wp (filedup f) (λ r s', r = f ∧ s' = set_files (<[f:=with_f_ref (f_ref x + 1) x]> (ks_files s)) s) s.
Proof.
  intros Hh Hf Hr. unfold filedup. wp_step. apply wp_acquire; [rewrite Hh; set_solver|].
  wp_step. eapply wp_get_file; [done|]. rewrite (proj2 (Z.ltb_ge _ _)) by lia. wp_step.
  eapply wp_upd_file; [done|]. wp_step. eapply wp_release; [simpl; by rewrite Hh|set_solver|].
  wp_step. split; [done|]. by apply unlocked_files.
Qed.

Lemma fileclose_shared `{Ide} `{Linker} f x s :
  ks_held s = [] → ks_files s !! f = Some x → 2 ≤ f_ref x →
  wp (fileclose f) (λ _ s', s' = set_files (<[f:=with_f_ref (f_ref x - 1) x]> (ks_files s)) s) s.
Proof.
  intros Hh Hf Hr. pose proof (lookup_lt_Some _ _ _ Hf). unfold fileclose. wp_step.
  apply wp_acquire; [rewrite Hh; set_solver|].
  wp_step. eapply wp_get_file; [done|]. rewrite (proj2 (Z.ltb_ge _ _)) by lia. wp_step.
  eapply wp_upd_file; [done|]. wp_step. eapply wp_get_file; [by apply list_lookup_insert_eq|].
  cbn [f_ref with_f_ref]. rewrite (proj2 (Z.ltb_lt _ _)) by lia.
  eapply wp_release; [simpl; by rewrite Hh|set_solver|]. by apply unlocked_files.
Qed.

(** A file structure stays open as long as there are references to it.
    [filealloc] returns an unused entry with one reference; a [filedup]
    followed by a [fileclose] leaves the whole table as it was. *)
Theorem filealloc_dup_close `{Ide} `{Linker} f s :
  ks_held s = [] → free_file (ks_files s) = Some f →
  wp (r ← filealloc; filedup f;; fileclose f;; mret r) (λ r s', r = Some f ∧
    (f_ref <$> ks_files s !! f) = Some 0 ∧ (f_ref <$> ks_files s' !! f) = Some 1 ∧
    ∀ g, g ≠ f → ks_files s' !! g = ks_files s !! g) s.
Proof.
  intros Hh Hf. pose proof Hf as (x & Hx & Hx0 & _)%find_from_lookup. apply Z.eqb_eq in Hx0.
  pose proof (lookup_lt_Some _ _ _ Hx). wp_call (filealloc_spec s Hh). intros r s1 [-> ->]. rewrite Hf.
  rewrite (alter_insert _ _ _ _ Hx). set (x1 := with_f_ref 1 x). set (s1 := set_files _ s).
  assert (ks_files s1 !! f = Some x1) as Hx1 by by apply list_lookup_insert_eq.
  wp_call (filedup_spec f x1 s1); [done|done|done|]. intros r s2 [-> ->].
  wp_call (fileclose_shared f (with_f_ref 2 x1)); [done|simpl; apply list_lookup_insert_eq; len|done|].
  intros [] s3 ->. wp_step. simpl. rewrite !list_insert_insert_eq, Hx, list_lookup_insert_eq by done.
  simpl. rewrite Hx0. split_and!; try done. intros g Hg. by rewrite list_lookup_insert_ne by done.
Qed.

Import Memide KallocExample.

Lemma filealloc_dup_close_witness :
  wp (r ← filealloc; filedup 0;; fileclose 0;; mret r) (λ r s', r = Some 0%nat ∧
    (f_ref <$> ks_files (bss []) !! 0%nat) = Some 0 ∧ (f_ref <$> ks_files s' !! 0%nat) = Some 1 ∧
    ∀ g, g ≠ 0%nat → ks_files s' !! g = ks_files (bss []) !! g) (bss []).
Proof. apply (filealloc_dup_close 0 (bss [])); done. Defined.
