(* ===== verification/FileIO.v ===== *)
(** * FileIO: what a write and a read of an open file do (file.c, log.c, fs.c)

    [filewrite] cuts the data into pieces, each a transaction of its own.  The
    file may grow: blocks it does not have are allocated. *)

From S2P Require Import Prelude Bytes Ring Kernel Sched Ide Bio Log Crash Block Inode Grow Icache Pipe File.

#[local] Arguments replicate : simpl never.

(** ** An open file *)

(** Entry [f] of the file table is open on inode entry [ip], which is read,
    not locked, and has [K] blocks; the free blocks are looked for from [c] on. *)
Record opened (s : kstate) (V : Z → list Z) (c : Z) (f : nat) (x : file) (ip : nat) (i : inode) (K : Z) : Prop := {
  op_file : ks_files s !! f = Some x;
  op_type : f_type x = FD_INODE;
  op_ip : f_ip x = Some ip;
  op_inode : ks_inodes s !! ip = Some i;
  op_ref : 1 ≤ i_ref i;
  op_free : hasb (i_flags i) I_BUSY = false;
  op_valid : hasb (i_flags i) I_VALID = true;
  op_kind : i_type i ≠ T_DEV;
  op_wf : inode_wf i;
  op_disk : dinode_at V (i_inum i) = di_of i;
  op_grow : growing s V c i K;
  op_size : i_size i ≤ 512 * K;
  op_off : 0 ≤ f_off x ≤ i_size i;
}.

(** From [s] and [V] to [s'] and [V'], [src] was written at the offset of [f]; the
    file has [K'] blocks now, and there are enough free blocks for [E]. *)
Record saved (c : Z) (f ip : nat) (E : Z) (s : kstate) (V : Z → list Z) (x : file) (i : inode) (K : Z) (src : list Z)
    (s' : kstate) (V' : Z → list Z) (i' : inode) (K' : Z) : Prop := {
  sv_idle : idle s' V';
  sv_area : same_area (ks_log s) (ks_log s');
  sv_len : length (ks_disk s') = length (ks_disk s);
  sv_files : ks_files s' = <[f:=with_f_off (f_off x + Z.of_nat (length src)) x]> (ks_files s);
  sv_open : opened s' V' c f (with_f_off (f_off x + Z.of_nat (length src)) x) ip i' K';
  sv_grown : grown true V c i K V' i' K' (f_off x) src;
  sv_size : i_size i' = Z.max (i_size i) (f_off x + Z.of_nat (length src));
  sv_free : free V' c (Z.to_nat (E - K') + ind_need i' E);
}.

Lemma saved_nil c f ip E s V x i K : idle s V → opened s V c f x ip i K → free V c (Z.to_nat (E - K) + ind_need i E) →
  saved c f ip E s V x i K [] s V i K.
Proof.
  intros Hs Ho Hf. destruct x as [ty rf rd wr pp ip' off]. pose proof (op_off _ _ _ _ _ _ _ _ Ho). pose proof (op_file _ _ _ _ _ _ _ _ Ho).
  split; try done; simpl in *; rewrite ?Z.add_0_r.
  - by rewrite list_insert_id.
  - done.
  - apply grown_upd, grown_refl.
  - lia.
Qed.

Lemma saved_trans c f ip E s V x i K a s1 V1 i1 K1 b s2 V2 i2 K2 :
  let x1 := with_f_off (f_off x + Z.of_nat (length a)) x in
  saved c f ip E s V x i K a s1 V1 i1 K1 → saved c f ip E s1 V1 x1 i1 K1 b s2 V2 i2 K2 → 0 ≤ f_off x →
  saved c f ip E s V x i K (a ++ b) s2 V2 i2 K2.
Proof.
  intros x1 A B Hx. pose proof (op_size _ _ _ _ _ _ _ _ (sv_open _ _ _ _ _ _ _ _ _ _ _ _ _ _ A)) as HK.
  pose proof (op_off _ _ _ _ _ _ _ _ (sv_open _ _ _ _ _ _ _ _ _ _ _ _ _ _ A)) as Hoff.
  destruct A as [A1 A2 A3 A4 A5 A6 A7 A8], B as [B1 B2 B3 B4 B5 B6 B7 B8]. simpl in *.
  rewrite <-Z.add_assoc, <-Nat2Z.inj_add, <-length_app in *. split; try done.
  - destruct A2 as (? & ? & ?), B2 as (? & ? & ?). split_and!; congruence.
  - congruence.
  - by rewrite B4, A4, list_insert_insert_eq.
  - eapply (grown_trans true true); [exact A6|exact B6|right; lia|done].
  - rewrite B7, A7, length_app. lia.
Qed.

(** What transactions do not look at. *)
Lemma txn_ext s s' V B P L : txn s V B P L → ks_bufs s' = ks_bufs s → ks_disk s' = ks_disk s → ks_log s' = ks_log s →
  ks_held s' = ks_held s → ks_cur s' = ks_cur s → txn s' V B P L.
Proof.
  intros [(V0 & [C1 C2 C3] & HV) T2 T3 T4 T5 T6 T7 T8 T9] E1 E2 E3 E4 E5. split; rewrite ?E2, ?E3; try done.
  exists V0. rewrite E2, E3. split; [|done]. split; rewrite ?E1, ?E2, ?E4, ?E5; done.
Qed.

Lemma clear_set_flag f : hasb f I_BUSY = false → Z.land (Z.lor f I_BUSY) (Z.lnot I_BUSY) = f.
Proof.
  intros Hf. rewrite (hasb_pow2 f 0 ltac:(lia) : hasb f I_BUSY = _) in Hf. apply Z.bits_inj'. intros k Hk.
  rewrite Z.land_spec, Z.lnot_spec, Z.lor_spec by done. change I_BUSY with (2 ^ 0). rewrite Z.pow2_bits_eqb by lia.
  destruct (Z.eqb_spec 0 k) as [<-|]; [by rewrite Hf|]. by rewrite orb_false_r, andb_true_r.
Qed.

Lemma idle_disk s V y : idle s V → home (ks_log s) (length (ks_disk s)) y → ks_disk s !! Z.to_nat y = Some (V y).
Proof.
  intros [(V0 & [Hc _ _] & HV) _ _ _ _] Hy. rewrite <-HV by done. pose proof Hy as [[Y1 Y2] _].
  destruct (lookup_lt_is_Some_2 (ks_disk s) (Z.to_nat y)) as [d Hd]; [lia|]. rewrite Hd.
  by rewrite (view_clean _ _ _ _ _ Hc y d) by (done || lia || set_solver).
Qed.

(** The flags of an inode have nothing to do with its blocks. *)
Lemma growing_flags s V c i K fl : growing s V c i K → growing s V c (with_i_flags fl i) K.
Proof. intros [[] G2 G3 G4 G5 G6]. split; try done. Qed.

Lemma grown_flags V c i K V' i' K' off src fl :
  grown true V c (with_i_flags fl i) K V' i' K' off src → grown true V c i K V' (with_i_flags (i_flags i) i') K' off src.
Proof. intros [G1 G2 G3 G4 G5 G6 G7 G8 G9 G10]. by split; try done; rewrite G2. Qed.

(** Neither has the rest of the kernel's state. *)
Lemma growing_area s s' V c i K :
  same_area (ks_log s) (ks_log s') → length (ks_disk s') = length (ks_disk s) → growing s V c i K → growing s' V c i K.
Proof.
  intros Ha Hl G. assert (growing (set_files (ks_files s) s') V c i K) as G' by (eapply growing_placed; [|exact G]; done).
  destruct G' as [[] [[]] G3 G4 G5 G6]. by split.
Qed.

(** The addresses in the inode are block numbers. *)
Lemma growing_addrs s V c i K : growing s V c i K → Forall (λ a, 0 ≤ a < 2 ^ 32) (i_addrs i).
Proof.
  intros G. pose proof (gw_file _ _ _ _ _ G) as [F1 F2 _ _ _ _ _].
  pose proof (ly_size _ _ (al_layout _ _ _ (gw_alloc _ _ _ _ _ G))) as Hn.
  apply Forall_lookup_2. intros k a Ha. pose proof (lookup_lt_Some _ _ _ Ha) as Hk. apply list_lookup_total_correct in Ha as <-.
  destruct (decide (i_addrs i !!! k = 0)) as [->|H0]; [lia|].
  assert (fblocks V i K (i_addrs i !!! k)) as Hb; [|destruct (gw_marked _ _ _ _ _ G _ Hb) as [(Hr & _) _]; lia].
  destruct (decide (k = 11%nat)) as [->|]; [by right|].
  destruct (Z.lt_ge_cases (Z.of_nat k) K) as [Hlt|Hge].
  - left. exists (Z.of_nat k). split; [lia|]. rewrite fblock_low by lia. by rewrite Nat2Z.id.
  - exfalso. apply H0. rewrite <-(gw_direct _ _ _ _ _ G (Z.of_nat k)) by lia. by rewrite Nat2Z.id.
Qed.

Lemma inode_wf_grown s V c i K V' i' K' off src :
  inode_wf i → grown true V c i K V' i' K' off src → growing s V' c i' K' → 0 ≤ i_size i' < 2 ^ 32 → inode_wf i'.
Proof.
  intros [] Gn G Hsz. pose proof (gn_inode _ _ _ _ _ _ _ _ _ _ Gn) as E.
  split; [rewrite E; done..|done|apply (gw_file _ _ _ _ _ G)|by eapply growing_addrs].
Qed.

(** ** One piece *)

Section Write.
Context `{IdeSpec} `{Devsw}.
#[local] Set Default Proof Using "All".

(** The file after [writei] wrote to its inode, locked as it was, and the inode was
    unlocked and the transaction committed. *)
Lemma saved_done s V c f x ip i (K E : Z) src s3 V' i3 K3 s6 :
  let x' := with_f_off (f_off x + Z.of_nat (length src)) x in
  opened s V c f x ip i K → placed s s3 → growing s3 V' c i3 K3 →
  grown true V c (with_i_flags (Z.lor (i_flags i) I_BUSY) i) K V' i3 K3 (f_off x) src →
  i_size i3 = Z.max (i_size i) (f_off x + Z.of_nat (length src)) → i_size i3 ≤ 512 * K3 → i_size i3 < 2 ^ 32 →
  (inode_wf i3 → dinode_at V (i_inum i) = di_of i → dinode_at V' (i_inum i) = di_of i3) →
  free V' c (Z.to_nat (E - K3) + ind_need i3 E) →
  idle s6 V' → same_area (ks_log s3) (ks_log s6) → length (ks_disk s6) = length (ks_disk s3) →
  ks_files s6 = <[f:=x']> (ks_files s) → ks_inodes s6 !! ip = Some (with_i_flags (i_flags i) i3) →
  saved c f ip E s V x i K src s6 V' (with_i_flags (i_flags i) i3) K3.
Proof.
  intros x' Ho (Ar3 & Len3 & Fi3) G3 Gn3 Sz3 Hend Hmax Dk3 Hf Id6 Ar6 Len6 Fi6 In6. pose proof Ho as [].
  pose proof (gn_inode _ _ _ _ _ _ _ _ _ _ Gn3) as Ei3. set (i4 := with_i_flags (i_flags i) i3) in *.
  assert (i_ref i3 = i_ref i ∧ i_type i3 = i_type i ∧ i_inum i3 = i_inum i) as (Rf3 & Ty3 & Nm3) by (by rewrite Ei3).
  assert (growing s6 V' c i4 K3) as G6 by (apply growing_flags; by apply (growing_area s3)).
  assert (inode_wf i4) as Wf4 by (eapply inode_wf_grown; [exact op_wf0|by eapply grown_flags|exact G6|simpl; lia]).
  assert (inode_wf i3) as Wf3 by by destruct Wf4.
  split; try done; [| |split; try done|by eapply grown_flags].
  - destruct Ar3 as (? & ? & ?), Ar6 as (? & ? & ?). split_and!; congruence.
  - by rewrite Len6, Len3.
  - rewrite Fi6. apply list_lookup_insert_eq. by eapply lookup_lt_Some.
  - simpl. lia.
  - simpl. by rewrite Ty3.
  - change (di_of i4) with (di_of i3). change (i_inum i4) with (i_inum i3). rewrite Nm3. by apply Dk3.
  - simpl. lia.
Qed.

Lemma write_piece s V c f x ip i (K E : Z) src (k : Z → M kstate Z) (Q : Z → kstate → Prop) :
  let m := Z.of_nat (length src) in
  idle s V → 10 ≤ l_size (ks_log s) → opened s V c f x ip i K → bytes_ok src → 0 < m ≤ 1536 → f_off x + m ≤ 512 * E →
  E ≤ NDIRECT + NINDIRECT → free V c (Z.to_nat (E - K) + ind_need i E) →
  (∀ s' V' i' K', saved c f ip E s V x i K src s' V' i' K' → wp (k m) Q s') →
  wp (begin_trans;;
      ilock ip;;
      x ← get_file f;
      r ← writei ip src (f_off x) m;
      when (0 <? s32 r) (upd_file f (λ x, with_f_off (u32 (f_off x + r)) x));;
      iunlock ip;;
      commit_trans;;
      k r) Q s.
Proof.
  intros m Hs Hlg Ho Hsrc Hm Hend HE Hfr HQ. pose proof Ho as []. pose proof (fo_K _ _ _ _ _ (gw_file _ _ _ _ _ op_grow0)) as HK.
  wp_call (begin_spec s V Hs). intros [] s1 [-> T1]. set (s1 := set_log _ s) in *.
  assert (ks_held s1 = []) as Hh by (destruct (tx_view _ _ _ _ _ T1) as (V0 & [] & _); done).
  wp_call (ilock_spec ip i s1 Hh); [done..|]. intros [] s2 ->. set (i1 := with_i_flags (Z.lor (i_flags i) I_BUSY) i). set (s2 := set_inodes _ s1).
  pose proof (lookup_lt_Some _ _ _ op_inode0) as Hlt. assert (txn s2 V ∅ ∅ ∅) as T2 by (eapply txn_ext; [exact T1|done..]).
  assert (ks_inodes s2 !! ip = Some i1) as Hi1 by by apply list_lookup_insert_eq.
  assert (growing s2 V c i1 K) as G1 by (apply growing_flags, (growing_area s); done).
  destruct (writing_start s2 V c ip i1 K E T2 Hlg Hi1 G1 Hfr) as [T W].
  wp_step. eapply wp_get_file; [done|].
  wp_call (writei_grow s2 V ∅ T c ip i1 K src (f_off x) 4 E W); try done.
  { unfold nblocks. fold m. pose proof (Z.mod_pos_bound (f_off x) 512 ltac:(lia)). apply Z.lt_succ_r, Z.div_lt_upper_bound; lia. }
  fold m. intros r s3 (-> & V' & L' & T' & i3 & K3 & W3 & [Pl3 In3 Gn3] & Sz3 & Hend3 & Dk3 & _). change (i_size i1) with (i_size i) in Sz3.
  set (x' := with_f_off (f_off x + m) x). pose proof (wg_txn _ _ _ _ _ _ _ _ _ _ W3) as T3.
  assert (ks_files s3 = ks_files s) as Fi3 by apply Pl3.
  rewrite s32_small by lia. rewrite (proj2 (Z.ltb_lt 0 m)) by lia. cbn [when]. wp_step. eapply wp_upd_file; [by rewrite Fi3|].
  rewrite u32_small by lia. fold x'. set (s4 := set_files _ s3). assert (txn s4 V' ∅ ∅ L') as T4 by (eapply txn_ext; [exact T3|done..]).
  assert (i_flags i3 = Z.lor (i_flags i) I_BUSY ∧ i_ref i3 = i_ref i) as [Fl3 Rf3] by (by rewrite (gn_inode _ _ _ _ _ _ _ _ _ _ Gn3)).
  wp_call (iunlock_spec ip i3 s4); [|by apply (wg_inode _ _ _ _ _ _ _ _ _ _ W3)|lia|rewrite Fl3; apply flag_set_0_0|].
  { destruct (tx_view _ _ _ _ _ T4) as (V0 & [] & _). done. }
  intros [] s5 ->. rewrite Fl3, clear_set_flag by done. set (i4 := with_i_flags (i_flags i) i3). set (s5 := set_procs _ _).
  assert (txn s5 V' ∅ ∅ L') as T5 by (eapply txn_ext; [exact T4|done..]).
  wp_call (commit_spec s5 V' L' T5).
  { destruct (quota_room _ _ _ _ _ _ _ T3 (wg_quota _ _ _ _ _ _ _ _ _ _ W3)) as [_ _ R]. rewrite union_empty_l_L in R. lia. }
  intros [] s6 (Wr6 & Id6 & _ & Ar6 & St6). apply (HQ s6 V' i4 K3).
  apply (saved_done s V c f x ip i K E src s3 V' i3 K3 s6); try done; try apply W3; fold m.
  - pose proof (gn_K _ _ _ _ _ _ _ _ _ _ Gn3). lia.
  - lia.
  - by rewrite (proj1 Wr6), length_apply_writes.
  - rewrite (storage_files _ _ St6). cbn. by rewrite Fi3.
  - rewrite (storage_inodes _ _ St6). cbn. rewrite In3, list_insert_insert_eq. apply list_lookup_insert_eq. cbn. by rewrite length_insert.
Qed.

(** ** The loop of filewrite *)

Lemma filewrite_loop_spec c f ip E addr n fuel : ∀ s V x i K j,
  let src := drop (Z.to_nat j) addr in
  n = Z.of_nat (length addr) → 0 ≤ j ≤ n → n - j + 1536 ≤ Z.of_nat fuel * 1536 → bytes_ok addr →
  idle s V → 10 ≤ l_size (ks_log s) → opened s V c f x ip i K → f_off x + Z.of_nat (length src) ≤ 512 * E →
  E ≤ NDIRECT + NINDIRECT → free V c (Z.to_nat (E - K) + ind_need i E) →
  wp (filewrite_loop f ip addr j n fuel) (λ r s', r = n ∧ ∃ V' i' K', saved c f ip E s V x i K src s' V' i' K') s.
Proof.
  induction fuel as [|fuel IH]; intros s V x i K j src Hn Hj Hfuel Hb Hs Hlg Ho Hend HE Hfr; [lia|]. cbn [filewrite_loop].
  pose proof (op_off _ _ _ _ _ _ _ _ Ho) as Hox.
  assert (Z.of_nat (length src) = n - j) as Hls by (unfold src; rewrite length_drop; lia).
  destruct (Z.ltb_spec j n) as [Hlt|Hge]; cbn [negb]; cycle 1.
  { wp_step. split; [lia|]. exists V, i, K. assert (src = []) as -> by (apply nil_length_inv; lia). by apply saved_nil. }
  change filewrite_max with 1536. set (n1 := Z.min (n - j) 1536). set (a := slice (Z.to_nat j) (Z.to_nat n1) addr).
  assert (Z.of_nat (length a) = n1) as Hla by (unfold a; rewrite length_slice; lia).
  assert (src = a ++ drop (Z.to_nat (j + n1)) addr) as Hsrc.
  { unfold src, a, slice. rewrite Z2Nat.inj_add, <-drop_drop by lia. by rewrite take_drop. }
  rewrite <-Hla. pose proof (length_drop addr (Z.to_nat (j + n1))) as Hld.
  apply (write_piece s V c f x ip i K E a (λ r, if s32 r <? 0 then mret j else if negb (s32 r =? Z.of_nat (length a)) then panic "short filewrite"
    else filewrite_loop f ip addr (j + s32 r) n fuel)); try done; [by apply Forall_take, Forall_drop|lia|lia|].
  intros s1 V1 i1 K1 S1. rewrite s32_small by lia. rewrite (proj2 (Z.ltb_ge _ _)), Z.eqb_refl by lia. cbn [negb].
  eapply wp_mono; [eapply (IH s1 V1 _ i1 K1 (j + Z.of_nat (length a))); [done|lia|lia|done|apply S1| |apply S1| |done|apply S1]|].
  - destruct (sv_area _ _ _ _ _ _ _ _ _ _ _ _ _ _ S1) as (_ & -> & _). done.
  - simpl. rewrite Hla. lia.
  - intros r s2 (-> & V2 & i2 & K2 & S2). split; [done|]. exists V2, i2, K2. rewrite Hsrc, <-Hla.
    eapply saved_trans; [exact S1|exact S2|lia].
Qed.

(** ** Reading *)

(** [fileread] of an open file, from its offset. *)
Lemma fileread_spec s V c g y ip i K n :
  idle s V → opened s V c g y ip i K → f_readable y = true → 0 ≤ n < 2 ^ 31 →
  let m := Z.min n (i_size i - f_off y) in
  wp (fileread g n) (λ r _, r = (m, fbytes V i (f_off y) (Z.to_nat m))) s.
Proof.
  intros Hs Ho Hr Hn m. pose proof Ho as []. pose proof (gw_file _ _ _ _ _ op_grow0) as Hok. pose proof (fo_K _ _ _ _ _ Hok) as HK.
  unfold fileread. wp_step. eapply wp_get_file; [done|]. rewrite Hr, op_type0. cbn [negb]. wp_step. eapply wp_the; [done|].
  pose proof Hs as [(V0 & [C1 Hh C3] & HV) _ _ _ _]. pose proof (lookup_lt_Some _ _ _ op_inode0) as Hlt.
  wp_call (ilock_spec ip i s Hh); [done..|]. intros [] s1 ->. set (i1 := with_i_flags _ i). set (s1 := set_inodes _ s).
  assert (view s1 V ∅ ∅) as Hv by (exists V0; by split). rewrite u32_small by lia.
  wp_call (view_readi s1 V ∅ ∅ ip i1 K (f_off y) n Hv); try done; [by apply list_lookup_insert_eq|by destruct Hok|rewrite union_empty_l_L, size_empty; lia|lia|lia|].
  intros r s2 (-> & St & _ & Hv2). cbn [fst snd]. change (i_size i1) with (i_size i). fold m. rewrite s32_small by lia.
  assert (∀ s3, ks_held s3 = [] → ks_inodes s3 = ks_inodes s2 →
    wp (iunlock ip;; mret (m, fbytes V i1 (f_off y) (Z.to_nat m))) (λ r _, r = (m, fbytes V i (f_off y) (Z.to_nat m))) s3) as Hend.
  { intros s3 H3 E3. wp_call (iunlock_spec ip i1 s3 H3); [|done|simpl; apply flag_set_0_0|].
    - rewrite E3, (storage_inodes _ _ St). by apply list_lookup_insert_eq.
    - intros [] s4 _. by wp_step. }
  assert (ks_held s2 = []) as H2 by (by rewrite (storage_held _ _ St)).
  wp_step. apply wp_when; intros Hpos; [|by apply Hend].
  eapply wp_upd_file; [by rewrite (storage_files _ _ St)|]. by apply Hend.
Qed.

(** ** Durability *)

Lemma opened_file s V c f x g y ip i K : opened s V c f x ip i K → ks_files s !! g = Some y → f_type y = FD_INODE → f_ip y = Some ip →
  0 ≤ f_off y ≤ i_size i → opened s V c g y ip i K.
Proof. intros []. by split. Qed.

(** Rebooting when no transaction runs keeps the home locations. *)
Lemma idle_reboot s V b : idle s V → sb_places (ks_log s) (ks_disk s) → home (ks_log s) (length (ks_disk s)) 1 →
  booting b → ks_disk b = ks_disk s →
  wp initlog (λ _ b', ∀ y, home (ks_log s) (length (ks_disk s)) y → disk_view (ks_disk b') y = V y) b.
Proof.
  intros Hs Hsb H1' Hb Dk. pose proof Hs as [(V0 & [Hc _ _] & _) Hok _ _ (h & Hh & Hn)]. pose proof (log_area_ok _ _ Hok) as Ha.
  pose proof (ca_disk _ _ _ _ _ Hc) as Hdk.
  eapply wp_mono; [apply (initlog_spec (ks_log s) b Hb); rewrite Dk; [|done|destruct H1'; lia]|].
  - split; [done|done|]. apply (hdr_wf_empty _ _ Ha); [done|]. by rewrite (list_lookup_total_correct _ _ _ Hh).
  - rewrite Dk. intros [] b' (_ & -> & _) y Hy. destruct (recovered_empty (ks_log s) (ks_disk s) Ha Hdk) as [_ Hsame].
    { by rewrite (list_lookup_total_correct _ _ _ Hh). }
    unfold disk_view. rewrite list_lookup_total_alt, (Hsame y Hy), (idle_disk _ _ _ Hs Hy). done.
Qed.

(** The bytes of the file after the write. *)
Lemma grown_fbytes u V c i K V' i' K' off src :
  grown u V c i K V' i' K' off src → 0 ≤ off ≤ i_size i → i_size i ≤ 512 * K → i_size i' ≤ 512 * K' →
  i_size i' = Z.max (i_size i) (off + Z.of_nat (length src)) →
  fbytes V' i' 0 (Z.to_nat (i_size i')) = patch off src (fbytes V i 0 (Z.to_nat (i_size i))).
Proof.
  intros Gn Ho Hs Hs' Es. set (old := fbytes V i 0 (Z.to_nat (i_size i))).
  assert (Z.of_nat (length old) = i_size i) as Hlen by (unfold old; rewrite length_fbytes; lia).
  pose proof (length_patch off src old ltac:(lia)) as Hl.
  apply list_eq_same_length with (n := Z.to_nat (i_size i')); [lia|by rewrite length_fbytes|].
  intros j a b Hj Ha Hb. apply list_lookup_total_correct in Ha as <-, Hb as <-.
  rewrite fbytes_total by done. rewrite lookup_patch by lia. rewrite (gn_byte _ _ _ _ _ _ _ _ _ _ Gn) by lia.
  case_decide; [done|]. rewrite (proj2 (Z.ltb_lt _ _)) by lia. unfold old. by rewrite fbytes_total by lia.
Qed.

(** Reading it back, through another descriptor at the same offset. *)
Lemma saved_read c f g ip E s V x y i K src s' V' i' K' :
  let m := Z.of_nat (length src) in
  opened s V c f x ip i K → saved c f ip E s V x i K src s' V' i' K' →
  ks_files s !! g = Some y → g ≠ f → f_type y = FD_INODE → f_ip y = Some ip → f_readable y = true → f_off y = f_off x →
  wp (fileread g m) (λ r _, r = (m, src)) s'.
Proof.
  intros m Ho [] Hg Hgf Hty Hip Hrd Hoff. fold m in sv_size0. pose proof (op_off _ _ _ _ _ _ _ _ Ho) as Hx.
  pose proof (op_size _ _ _ _ _ _ _ _ sv_open0) as Hsz'.
  pose proof (fo_K _ _ _ _ _ (gw_file _ _ _ _ _ (op_grow _ _ _ _ _ _ _ _ sv_open0))) as HK.
  assert (opened s' V' c g y ip i' K') as Hg'.
  { eapply opened_file; [exact sv_open0|by rewrite sv_files0, list_lookup_insert_ne|done|done|]. lia. }
  eapply wp_mono; [apply (fileread_spec s' V' c g y ip i' K' m sv_idle0 Hg' Hrd); lia|]. intros r _ ->. rewrite sv_size0, Hoff.
  replace (Z.min m (Z.max (i_size i) (f_off x + m) - f_off x)) with m by lia.
  unfold m. rewrite Nat2Z.id. f_equal. apply list_eq_same_length with (n := length src); [done|by rewrite length_fbytes|].
  intros j a b Hj Ha Hb. unfold fbytes in Ha. rewrite list_lookup_fmap, lookup_seq_lt in Ha by done. simplify_eq/=.
  rewrite (gn_byte _ _ _ _ _ _ _ _ _ _ sv_grown0), decide_True by lia. apply list_lookup_total_correct in Hb as <-. f_equal. lia.
Qed.

(** Finding it after a reboot. *)
Lemma saved_reboot c f ip E s V x i K src s' V' i' K' b :
  idle s V → opened s V c f x ip i K → saved c f ip E s V x i K src s' V' i' K' → sb_places (ks_log s) (ks_disk s) →
  booting b → ks_disk b = ks_disk s' →
  wp initlog (λ _ b', let W := disk_view (ks_disk b') in dinode_at W (i_inum i) = di_of i' ∧
    fbytes W i' 0 (Z.to_nat (i_size i')) = patch (f_off x) src (fbytes V i 0 (Z.to_nat (i_size i)))) b.
Proof.
  intros Hs Ho [] Hsb Hb Dk. pose proof (op_size _ _ _ _ _ _ _ _ sv_open0) as Hsz'. pose proof (op_size _ _ _ _ _ _ _ _ Ho) as Hsz.
  pose proof (op_off _ _ _ _ _ _ _ _ Ho) as Hx.
  pose proof (grown_fbytes _ _ _ _ _ _ _ _ _ _ sv_grown0 Hx Hsz Hsz' sv_size0) as Hbytes.
  pose proof (ly_sb _ _ (al_layout _ _ _ (gw_alloc _ _ _ _ _ (op_grow _ _ _ _ _ _ _ _ Ho)))) as Hsb1.
  assert (home (ks_log s') (length (ks_disk s')) 1) as Hsb1' by (rewrite sv_len0; by apply (home_area (ks_log s))).
  assert (sb_places (ks_log s') (ks_disk s')) as Hsb'.
  { destruct sv_area0 as (Ea & Es & _). unfold sb_places. rewrite Ea, Es.
    rewrite (list_lookup_total_correct (ks_disk s') 1 (V' 1)) by apply (idle_disk s' V' 1 sv_idle0 Hsb1').
    rewrite (gn_sb _ _ _ _ _ _ _ _ _ _ sv_grown0). unfold sb_places in Hsb.
    by rewrite (list_lookup_total_correct (ks_disk s) 1 (V 1)) in Hsb by apply (idle_disk s V 1 Hs Hsb1). }
  eapply wp_mono; [by apply (idle_reboot s' V' b sv_idle0 Hsb' Hsb1')|]. intros [] b' Hv. cbv zeta. set (W := disk_view _).
  pose proof (op_grow _ _ _ _ _ _ _ _ sv_open0) as G'.
  assert (i_inum i' = i_inum i) as En by (by rewrite (gn_inode _ _ _ _ _ _ _ _ _ _ sv_grown0)). split.
  - rewrite <-En, <-(op_disk _ _ _ _ _ _ _ _ sv_open0). unfold dinode_at, W. by rewrite Hv by apply (gw_inode _ _ _ _ _ G').
  - rewrite <-Hbytes. apply list_fmap_ext. intros j z [-> Hj]%lookup_seq.
    apply (file_view s' V' W ∅ _ K' (gw_file _ _ _ _ _ G')); [done|lia].
Qed.


(** A write of a negative count to a file fails and does nothing. *)
Lemma filewrite_negative f x ip src n s :
  ks_files s !! f = Some x → f_writable x = true → f_type x = FD_INODE → f_ip x = Some ip → n < 0 →
  wp (filewrite f src n) (λ r s', r = -1 ∧ s' = s) s.
Proof.
  intros Hf Hw Ht Hi Hn. unfold filewrite. wp_step. eapply wp_get_file; [done|]. rewrite Hw, Ht. cbn [negb]. wp_step.
  eapply wp_the; [done|]. cbn [filewrite_loop]. rewrite (proj2 (Z.ltb_ge _ _)) by lia. cbn [negb]. wp_steps.
  by rewrite (proj2 (Z.eqb_neq _ _)) by lia.
Qed.

End Write.

(** ** An example: a file of 1500 bytes in three sectors, and a write of 1600 bytes

    Sectors 7 to 9 are the file's; the write allocates a fourth. *)

Module FileIOExample.
Import Memide Crash.Example InodeExample GrowExample.

Definition node : inode := mk_inode 1 2 2 2 2 0 0 1 1500 ([7; 8; 9] ++ replicate 9 0).
Definition node_bytes : list Z :=
  le_bytes 2 2 ++ [0; 0; 0; 0; 1; 0] ++ le_bytes 4 1500 ++ concat (le_bytes 4 <$> [7; 8; 9]) ++ replicate 36 0.
Definition fdisk : list (list Z) :=
  <[2%nat:=splice 128 node_bytes zeros]> (<[4%nat:=splice 0 [0xff; 0x03; 0xe0; 0xff] zeros]> disk).
Definition fW : Z → list Z := disk_view (recovered 21 fdisk).

Definition wfile : file := mk_file FD_INODE 1 false true 0 (Some 0%nat) 100.
Definition rfile : file := mk_file FD_INODE 1 true false 0 (Some 0%nat) 100.

Definition data : list Z := replicate 1600 120.

Lemma fdisk_recoverable : recoverable area fdisk.
Proof.
  assert (Forall block_ok fdisk) as Hok by (apply (bool_decide_unpack _); by vm_compute).
  split; [split; simpl; lia|done|]. apply (hdr_wf_empty area fdisk); [split; simpl; lia|done|]. by vm_compute.
Qed.

Lemma idle_set s V l m : idle s V → idle (set_files l (set_inodes m s)) V.
Proof. intros [(V0 & [] & ?)]. split; try done. exists V0. by split; [split|]. Qed.

Lemma fW_map b : 0 ≤ b < 32 → map_block fW b = 4.
Proof. apply (below_32 (λ b, map_block fW b = 4)). by vm_compute. Qed.

Lemma fW_used b : 0 ≤ b < 32 → used fW b = (b <=? 9) || (21 <=? b).
Proof. apply (below_32 (λ b, used fW b = (b <=? 9) || (21 <=? b))). by vm_compute. Qed.

Lemma node_block k : 0 ≤ k < 3 → fblock fW node k = 7 + k.
Proof. intros Hk. assert (k = 0 ∨ k = 1 ∨ k = 2) as [->|[->| ->]] by lia; done. Qed.

Section State.
Context (s : kstate) (Hh : ∀ x, 0 ≤ x < 21 → home (ks_log s) (length (ks_disk s)) x) (Hl : length (ks_disk s) = 32%nat).
#[local] Set Default Proof Using "All".

Lemma fW_alloc : alloc_ok s fW 0.
Proof.
  assert (nblk fW = 32) as Hn by by vm_compute. split; rewrite ?Hn; try done; try lia.
  - split; rewrite ?Hn; [apply Hh; lia|lia|]. intros b Hb. rewrite fW_map by done. by apply Hh.
  - intros j Hj. rewrite fW_map by done. split; [lia|done].
  - intros b Hb. rewrite fW_used by done. intros [?%Z.leb_gt ?%Z.leb_gt]%orb_false_iff. apply Hh. lia.
Qed.

Lemma node_growing : growing s fW 0 node 3.
Proof.
  assert (nblk fW = 32) as Hn by by vm_compute.
  assert (∀ x, x = 2 ∨ 7 ≤ x ≤ 9 → marked fW x) as Hm.
  { intros x Hx. unfold marked. rewrite Hn. split_and!; [lia|lia| |lia|].
    - rewrite fW_used by lia. apply orb_true_iff. left. apply Z.leb_le. lia.
    - intros j Hj. rewrite fW_map by done. lia. }
  split; try done.
  - split; simpl; try lia; try done.
    + intros k Hk. rewrite node_block by done. split; [|apply Hh; lia]. split_and!; [lia|lia| |set_solver]. rewrite Hl. lia.
    + intros j k Hj Hk. rewrite !node_block by done. lia.
  - apply fW_alloc.
  - intros x [(k & Hk & ->)|[H0 ->]]; [|done]. rewrite node_block by done. change (IBLOCK (i_inum node)) with 2. split; [apply Hm; lia|lia].
  - split; [by apply Hh|]. apply Hm. by left.
  - intros k Hk. cbn. assert (Forall (λ k, ([7; 8; 9] ++ replicate 9 0) !!! Z.to_nat k = 0) (seqZ 3 9)) as Hall by by repeat constructor.
    rewrite Forall_forall in Hall. apply Hall, elem_of_seqZ. lia.
Qed.

End State.


End FileIOExample.
