(* ===== verification/Print.v ===== *)
(** * Print: console output (the output half of console.c, and uart.c)

    Characters go to the serial port, whose bytes are recorded, and to the
    CGA screen, an array of cells with a cursor.  [cprintf] interprets a
    format over a list of arguments. *)

From S2P Require Import Prelude Bytes Kernel Sched.

#[local] Arguments replicate : simpl never.

Definition get_cons : K cons := gets ks_cons.
Definition upd_cons (f : cons → cons) : K () := modify (λ s, set_cons (f (ks_cons s)) s).

(** The characters of a string constant. *)
Fixpoint chars (s : string) : list Z :=
  match s with
  | EmptyString => []
  | String c s' => Z.of_N (Ascii.N_of_ascii c) :: chars s'
  end.

Abbreviation BACKSPACE := 0x100.

(** ** uart.c *)

(** [uartputc]: the wait for the transmitter has no effect on the state. *)
Definition uartputc (c : Z) : K () :=
  u ← gets (λ s, ms_uart (ks_misc s));
  when u (upd_cons (λ x, with_cn_serial (cn_serial x ++ [u8 c]) x)).

(** ** console.c *)

(** [crt[pos] = v]; the screen has 25 rows of 80 cells. *)
Definition put_cell (pos v : Z) : K () :=
  x ← get_cons;
  if (0 <=? pos) && (pos <? 2000)
  then upd_cons (with_cn_crt (<[Z.to_nat pos:=u16 v]> (cn_crt x)))
  else fault.

(** [memmove(crt, crt+80, sizeof(crt[0])*23*80)] and the [memset] that follows. *)
Definition scroll (pos : Z) (crt : list Z) : list Z :=
  splice (Z.to_nat pos) (replicate (Z.to_nat (24 * 80 - pos)) 0)
    (splice 0 (slice 80 (23 * 80) crt) crt).

Definition cgaputc (c : Z) : K () :=
  x ← get_cons;
  let pos := cn_pos x in
  pos ← (if c =? 10 then mret (pos + (80 - pos mod 80))
         else if c =? BACKSPACE then mret (if 0 <? pos then pos - 1 else pos)
         else put_cell pos (Z.lor (Z.land c 0xff) 0x0700);; mret (pos + 1));
  pos ← (if 24 <=? pos / 80 then
           upd_cons (λ x, with_cn_crt (scroll (pos - 80) (cn_crt x)) x);; mret (pos - 80)
         else mret pos);
  upd_cons (with_cn_pos (u16 pos));;
  put_cell pos (Z.lor 32 0x0700).

(** After a panic on some processor the others stop at their next output. *)
Definition consputc (c : Z) : K () :=
  x ← get_cons;
  if cn_panicked x then panic "panicked" else
  (if c =? BACKSPACE then uartputc 8;; uartputc 32;; uartputc 8 else uartputc c);;
  cgaputc c.

Fixpoint consputs (l : list Z) : K () :=
  match l with [] => mret () | c :: l' => consputc c;; consputs l' end.

(** [digits[x % base]] *)
Definition digit (d : Z) : Z := if d <? 10 then 48 + d else 97 + (d - 10).

(** The loop that fills [buf]: lowest digit first. *)
Fixpoint digits (x base : Z) (fuel : nat) : list Z :=
  match fuel with
  | O => []
  | S fuel' => digit (x mod base) :: (if x / base =? 0 then [] else digits (x / base) base fuel')
  end.

(** What [printint] prints. *)
Definition printint_chars (xx base : Z) (sign : bool) : list Z :=
  let neg := sign && (xx <? 0) in
  let x := if neg then u32 (- xx) else u32 xx in
  reverse (digits x base 32 ++ (if neg then [45] else [])).

Definition printint (xx base : Z) (sign : bool) : K () := consputs (printint_chars xx base sign).

(** An argument of [cprintf]: a word, or a pointer to a string. *)
Inductive arg := AInt (v : Z) | AStr (s : option (list Z)).

(** One conversion; the arguments that remain. *)
Definition conversion (c : Z) (args : list arg) : K (list arg) :=
  if c =? 100 (* d *) then
    match args with AInt v :: args' => printint (s32 v) 10 true;; mret args' | _ => fault end
  else if (c =? 120) || (c =? 112) (* x p *) then
    match args with AInt v :: args' => printint (s32 v) 16 false;; mret args' | _ => fault end
  else if c =? 115 (* s *) then
    match args with
    | AStr (Some s) :: args' => consputs s;; mret args'
    | AStr None :: args' => consputs (chars "(null)");; mret args'
    | _ => fault
    end
  else if c =? 37 (* % *) then consputc 37;; mret args
  else consputc 37;; consputc c;; mret args.

Fixpoint cprintf_loop (fmt : list Z) (args : list arg) : K () :=
  match fmt with
  | [] => mret ()
  | c :: fmt1 =>
      if negb (c =? 37) then consputc c;; cprintf_loop fmt1 args else
      match fmt1 with
      | [] => mret ()
      | c :: fmt2 => args' ← conversion c args; cprintf_loop fmt2 args'
      end
  end.

Definition cprintf (fmt : string) (args : list arg) : K () :=
  x ← get_cons;
  let locking := cn_locking x in
  when locking (acquire L_cons);;
  cprintf_loop (chars fmt) args;;
  when locking (release L_cons).

(** What [panic] does before it stops: [id] is the processor, [pcs] the
    result of [getcallerpcs]. *)
Fixpoint print_pcs (pcs : list Z) : K () :=
  match pcs with [] => mret () | p :: pcs' => cprintf " %p" [AInt p];; print_pcs pcs' end.

Definition panic_output (id : Z) (s : string) (pcs : list Z) : K () :=
  upd_cons (with_cn_locking false);;
  cprintf "cpu%d: panic: " [AInt id];;
  cprintf s [];;
  cprintf (String (Ascii.ascii_of_nat 10) EmptyString) [];;
  print_pcs pcs;;
  upd_cons (with_cn_panicked true).

(** ** The screen *)

(** The cursor is within the first 24 rows and the screen has all its cells. *)
Record screen_ok (x : cons) : Prop := {
  so_crt : length (cn_crt x) = 2000%nat;
  so_pos : 0 ≤ cn_pos x < 24 * 80;
}.

Lemma wp_put_cell pos v (Q : () → kstate → Prop) s :
  0 ≤ pos < 2000 →
  Q () (set_cons (with_cn_crt (<[Z.to_nat pos:=u16 v]> (cn_crt (ks_cons s))) (ks_cons s)) s) →
  wp (put_cell pos v) Q s.
Proof.
  intros Hp HQ. unfold put_cell, get_cons, upd_cons. wp_steps.
  rewrite (proj2 (Z.leb_le 0 pos)), (proj2 (Z.ltb_lt pos 2000)) by lia. cbn [andb]. by wp_step.
Qed.

(** The cursor position and the screen after [c] was printed at [pos]. *)
Definition next_pos (c pos : Z) : Z :=
  if c =? 10 then pos + (80 - pos mod 80)
  else if c =? BACKSPACE then (if 0 <? pos then pos - 1 else pos) else pos + 1.

Definition draw (c pos : Z) (crt : list Z) : list Z :=
  let crt := if (c =? 10) || (c =? BACKSPACE) then crt
             else <[Z.to_nat pos:=u16 (Z.lor (Z.land c 0xff) 0x0700)]> crt in
  let p := next_pos c pos in
  let crt := if 1920 <=? p then scroll (p - 80) crt else crt in
  <[Z.to_nat (if 1920 <=? p then p - 80 else p):=0x0720]> crt.

Lemma length_scroll pos crt : length (scroll pos crt) = length crt.
Proof. unfold scroll. len. Qed.
#[export] Hint Rewrite length_scroll : len.

Lemma next_pos_bound c pos : 0 ≤ pos < 1920 → 0 ≤ next_pos c pos ≤ 1920.
Proof.
  intros H. pose proof (Z.mod_pos_bound pos 80 ltac:(lia)). pose proof (Z.div_mod pos 80 ltac:(lia)).
  pose proof (Z.div_lt_upper_bound pos 80 24 ltac:(lia) ltac:(lia)).
  unfold next_pos. repeat zcase; lia.
Qed.

Lemma cgaputc_spec c s :
  screen_ok (ks_cons s) →
  let x := ks_cons s in
  let p := next_pos c (cn_pos x) in
  wp (cgaputc c) (λ _ s', s' = set_cons (with_cn_crt (draw c (cn_pos x) (cn_crt x))
    (with_cn_pos (if 1920 <=? p then p - 80 else p) x)) s) s.
Proof.
  intros [Hl Hp] x p. pose proof (next_pos_bound c (cn_pos x) Hp) as Hb. fold p in Hb.
  change (0 ≤ cn_pos x < 24 * 80) in Hp.
  assert (D : (24 <=? p / 80) = (1920 <=? p)).
  { destruct (Z.leb_spec 1920 p).
    - apply Z.leb_le. apply Z.div_le_lower_bound; lia.
    - apply Z.leb_gt. apply Z.div_lt_upper_bound; lia. }
  unfold cgaputc, get_cons. wp_step. wp_step. fold x.
  apply wp_bind. apply (wp_mono _ (λ q s1, q = p ∧ s1 = set_cons (with_cn_crt
    (if (c =? 10) || (c =? BACKSPACE) then cn_crt x
     else <[Z.to_nat (cn_pos x):=u16 (Z.lor (Z.land c 0xff) 0x0700)]> (cn_crt x)) x) s)).
  - unfold p, next_pos. destruct (c =? 10); [wp_step; split; [done|]; by destruct s, ks_cons|].
    destruct (c =? BACKSPACE); [wp_step; split; [done|]; by destruct s, ks_cons|].
    wp_step. apply wp_put_cell; [lia|]. by wp_step.
  - intros q s1 [-> ->]. rewrite D. unfold draw. fold p.
    assert (U : ∀ q, 0 ≤ q ≤ 1920 → u16 q = q) by (intros; apply Z.mod_small; lia).
    destruct (Z.leb_spec 1920 p); unfold upd_cons; wp_steps; (apply wp_put_cell; [lia|]);
      cbn [ks_cons set_cons with_cn_crt with_cn_pos cn_crt]; rewrite ?(U p), ?(U (p - 80)) by lia; done.
Qed.

Lemma draw_ok c x :
  screen_ok x →
  let p := next_pos c (cn_pos x) in
  screen_ok (with_cn_crt (draw c (cn_pos x) (cn_crt x)) (with_cn_pos (if 1920 <=? p then p - 80 else p) x)).
Proof.
  intros [Hl Hp] p. pose proof (next_pos_bound c (cn_pos x) Hp) as Hb. fold p in Hb. split; simpl.
  - unfold draw. fold p. destruct (_ || _), (1920 <=? p); len.
  - destruct (Z.leb_spec 1920 p); lia.
Qed.

(** ** What [consputc] and [cprintf] print *)

(** [s'] differs from [s] in the console only: [out] was sent to the serial
    port, if there is one. *)
Record printed (s : kstate) (out : list Z) (s' : kstate) : Prop := {
  pr_frame : ∃ x, s' = set_cons x s;
  pr_screen : screen_ok (ks_cons s');
  pr_serial : cn_serial (ks_cons s') =
    cn_serial (ks_cons s) ++ (if ms_uart (ks_misc s) then out else []);
  pr_flags : cn_panicked (ks_cons s') = cn_panicked (ks_cons s) ∧
    cn_locking (ks_cons s') = cn_locking (ks_cons s);
  pr_input : cn_buf (ks_cons s') = cn_buf (ks_cons s) ∧ cn_r (ks_cons s') = cn_r (ks_cons s) ∧
    cn_w (ks_cons s') = cn_w (ks_cons s) ∧ cn_e (ks_cons s') = cn_e (ks_cons s);
  pr_history : cn_history (ks_cons s') = cn_history (ks_cons s) ∧
    cn_historyIndex (ks_cons s') = cn_historyIndex (ks_cons s) ∧
    cn_cmdCount (ks_cons s') = cn_cmdCount (ks_cons s) ∧
    cn_upCount (ks_cons s') = cn_upCount (ks_cons s) ∧
    cn_prevCount (ks_cons s') = cn_prevCount (ks_cons s);
}.

Lemma printed_nil s : screen_ok (ks_cons s) → printed s [] s.
Proof.
  intros H. split; try done.
  - exists (ks_cons s). by destruct s.
  - by destruct (ms_uart _); rewrite app_nil_r.
Qed.

Lemma printed_app s o1 s1 o2 s2 : printed s o1 s1 → printed s1 o2 s2 → printed s (o1 ++ o2) s2.
Proof.
  intros [[x1 ->] S1 E1 F1 I1 H1] [[x2 ->] S2 E2 F2 I2 H2]. simpl in *. split; simpl.
  - by exists x2.
  - done.
  - rewrite E2, E1. destruct (ms_uart _); by rewrite <-?app_assoc, ?app_nil_r.
  - intuition congruence.
  - intuition congruence.
  - intuition congruence.
Qed.

(** The bytes on the serial line for one character. *)
Definition wire (c : Z) : list Z := if c =? BACKSPACE then [8; 32; 8] else [u8 c].

Lemma uartputc_spec c s :
  wp (uartputc c) (λ _ s', s' = set_cons (with_cn_serial (cn_serial (ks_cons s) ++
    (if ms_uart (ks_misc s) then [u8 c] else [])) (ks_cons s)) s) s.
Proof.
  unfold uartputc, upd_cons. wp_steps. destruct (ms_uart (ks_misc s)) eqn:E; unfold when; wp_step; simpl.
  - done.
  - rewrite app_nil_r. by destruct s, ks_cons.
Qed.

Lemma consputc_spec c s :
  screen_ok (ks_cons s) → cn_panicked (ks_cons s) = false →
  wp (consputc c) (λ _ s', printed s (wire c) s') s.
Proof.
  intros Hs Hp. unfold consputc, get_cons. wp_steps. rewrite Hp. unfold wire. apply wp_bind.
  apply (wp_mono _ (λ _ s', s' = set_cons (with_cn_serial (cn_serial (ks_cons s) ++
    (if ms_uart (ks_misc s) then if c =? BACKSPACE then [8; 32; 8] else [u8 c] else []))
    (ks_cons s)) s)).
  - destruct (c =? BACKSPACE); [|eapply wp_mono; [apply uartputc_spec|done]].
    wp_call (uartputc_spec 8). intros _ s1 ->. wp_call (uartputc_spec 32). intros _ s2 ->.
    wp_call (uartputc_spec 8). intros _ s3 ->. simpl.
    destruct (ms_uart (ks_misc s)); by rewrite ?app_nil_r, <-?app_assoc.
  - intros [] s1 ->. eapply wp_mono; [apply cgaputc_spec|].
    { by destruct Hs as [H1 H2]; split. }
    intros [] s2 ->. split; try done.
    + by eexists.
    + apply (draw_ok c (with_cn_serial _ (ks_cons s))). by destruct Hs as [H1 H2]; split.
Qed.

Lemma consputs_spec l s :
  screen_ok (ks_cons s) → cn_panicked (ks_cons s) = false →
  wp (consputs l) (λ _ s', printed s (l ≫= wire) s') s.
Proof.
  revert s. induction l as [|c l IH]; intros s Hs Hp; simpl; [by apply printed_nil|].
  wp_call (consputc_spec c); [done..|]. intros [] s1 P1. eapply wp_mono; [apply IH|].
  - by destruct P1.
  - by rewrite (proj1 (pr_flags _ _ _ P1)).
  - intros [] s2 P2. by eapply printed_app.
Qed.

(** The characters a conversion prints, and the arguments that remain. *)
Definition render1 (c : Z) (args : list arg) : option (list Z * list arg) :=
  if c =? 100 then
    match args with AInt v :: a => Some (printint_chars (s32 v) 10 true, a) | _ => None end
  else if (c =? 120) || (c =? 112) then
    match args with AInt v :: a => Some (printint_chars (s32 v) 16 false, a) | _ => None end
  else if c =? 115 then
    match args with AStr o :: a => Some (default (chars "(null)") o, a) | _ => None end
  else if c =? 37 then Some ([37], args) else Some ([37; c], args).

Fixpoint render (fmt : list Z) (args : list arg) : option (list Z) :=
  match fmt with
  | [] => Some []
  | c :: fmt1 =>
      if negb (c =? 37) then out ← render fmt1 args; Some (c :: out) else
      match fmt1 with
      | [] => Some []
      | c :: fmt2 =>
          '(out, args') ← render1 c args;
          out' ← render fmt2 args';
          Some (out ++ out')
      end
  end.

Lemma conversion_spec c args out args' s :
  render1 c args = Some (out, args') → screen_ok (ks_cons s) → cn_panicked (ks_cons s) = false →
  wp (conversion c args) (λ a s', a = args' ∧ printed s (out ≫= wire) s') s.
Proof.
  intros Hr Hs Hp. unfold conversion. unfold render1 in Hr.
  destruct (c =? 100); [|destruct ((c =? 120) || (c =? 112)); [|destruct (c =? 115)]].
  1-2: destruct args as [|[v|] a]; simplify_eq; wp_call consputs_spec; [done..|]; intros [] s' P;
    by wp_step.
  - destruct args as [|[|[o|]] a]; simplify_eq;
      (wp_call consputs_spec; [done..|]; intros [] s' P; by wp_step).
  - destruct (c =? 37); simplify_eq; wp_call consputc_spec; try done; intros [] s1 P1.
    wp_call consputc_spec; [by destruct P1|by rewrite (proj1 (pr_flags _ _ _ P1))|].
    intros [] s2 P2. wp_step. split; [done|]. simpl. rewrite app_nil_r. by eapply (printed_app s (wire 37)).
Qed.

Lemma cprintf_loop_spec n : ∀ fmt args out s, (length fmt ≤ n)%nat →
  render fmt args = Some out → screen_ok (ks_cons s) → cn_panicked (ks_cons s) = false →
  wp (cprintf_loop fmt args) (λ _ s', printed s (out ≫= wire) s') s.
Proof.
  induction n as [|n IH]; intros fmt args out s Hn Hr Hs Hp.
  { destruct fmt; simpl in *; [|lia]. simplify_eq. by apply printed_nil. }
  destruct fmt as [|c fmt]; simpl in *; [simplify_eq; by apply printed_nil|].
  destruct (negb (c =? 37)).
  - apply bind_Some in Hr as (o&Hr&[= <-]). wp_call consputc_spec; [done..|]. intros [] s1 P1.
    eapply wp_mono; [eapply IH; [lia|done|by destruct P1|by rewrite (proj1 (pr_flags _ _ _ P1))]|].
    intros [] s2 P2. by eapply (printed_app _ (wire c)).
  - destruct fmt as [|c' fmt]; simplify_eq; [by apply printed_nil|].
    apply bind_Some in Hr as ([o a]&Hr1&Hr). apply bind_Some in Hr as (o'&Hr&[= <-]).
    wp_call conversion_spec; [done..|]. intros a' s1 [-> P1]. simpl in Hn.
    eapply wp_mono; [eapply IH; [|done|by destruct P1|by rewrite (proj1 (pr_flags _ _ _ P1))]; lia|].
    intros [] s2 P2. rewrite bind_app. by eapply printed_app.
Qed.

Lemma cprintf_spec fmt args out s :
  render (chars fmt) args = Some out → screen_ok (ks_cons s) → cn_panicked (ks_cons s) = false →
  L_cons ∉ ks_held s →
  wp (cprintf fmt args) (λ _ s', printed s (out ≫= wire) s') s.
Proof.
  intros Hr Hs Hp Hl. unfold cprintf, get_cons. wp_steps.
  destruct (cn_locking (ks_cons s)) eqn:E; unfold when.
  - apply wp_acquire; [done|]. wp_step. eapply wp_mono; [by eapply cprintf_loop_spec|].
    intros [] s1 [[x ->] P2 P3 P4 P5 P6]. eapply wp_release; [done|done|].
    split; try done. exists x. by destruct s.
  - wp_steps. eapply wp_mono; [by eapply cprintf_loop_spec|]. intros [] s1 P. by wp_step.
Qed.

(** [cprintf].  With arguments that match the format, [cprintf] returns
    with the console lock free again; the bytes it sent to the serial port are
    exactly the rendering of the format, and the cursor is still on the
    screen. *)
Theorem cprintf_prints fmt args out s :
  render (chars fmt) args = Some out → screen_ok (ks_cons s) → cn_panicked (ks_cons s) = false →
  L_cons ∉ ks_held s →
  wp (cprintf fmt args) (λ _ s', printed s (out ≫= wire) s') s.
Proof. apply cprintf_spec. Qed.

(** ** Numbers *)

(** The value a reader gives the digits of base [base]. *)
Definition digit_val (c : Z) : Z := if c <? 58 then c - 48 else c - 97 + 10.
Definition number (base : Z) (l : list Z) : Z := foldl (λ v c, v * base + digit_val c) 0 l.
Definition read_int (base : Z) (l : list Z) : Z :=
  match l with 45 :: l' => - number base l' | _ => number base l end.

Lemma digit_val_digit d : 0 ≤ d < 16 → digit_val (digit d) = d.
Proof. intros H. unfold digit_val, digit. repeat zcase; lia. Qed.

Lemma number_app base l c : number base (l ++ [c]) = number base l * base + digit_val c.
Proof. unfold number. by rewrite foldl_app. Qed.

Lemma number_digits base fuel :
  2 ≤ base ≤ 16 → ∀ x, 0 ≤ x < base ^ Z.of_nat fuel → number base (reverse (digits x base fuel)) = x.
Proof.
  intros Hb. induction fuel as [|fuel IH]; intros x Hx; cbn [digits].
  { change (base ^ Z.of_nat 0) with 1 in Hx. cbn. lia. }
  rewrite Nat2Z.inj_succ, Z.pow_succ_r in Hx by lia.
  pose proof (Z.mod_pos_bound x base ltac:(lia)). pose proof (Z.div_mod x base ltac:(lia)).
  rewrite reverse_cons, number_app, digit_val_digit by lia.
  destruct (Z.eqb_spec (x / base) 0) as [E|E].
  - cbn. nia.
  - rewrite IH; [lia|]. split; [apply Z.div_pos; lia|]. apply Z.div_lt_upper_bound; lia.
Qed.

Lemma digits_head x base fuel c l :
  2 ≤ base ≤ 16 → 0 ≤ x → reverse (digits x base fuel) = c :: l → c ≠ 45.
Proof.
  intros Hb Hx Hr. assert (Hc : c ∈ digits x base fuel).
  { apply elem_of_reverse. rewrite Hr. by left. }
  clear Hr l. revert x Hx Hc. induction fuel as [|fuel IH]; intros x Hx Hc; cbn [digits] in Hc.
  { by apply elem_of_nil in Hc. }
  apply elem_of_cons in Hc as [->|Hc].
  - pose proof (Z.mod_pos_bound x base ltac:(lia)). unfold digit. zcase; lia.
  - destruct (x / base =? 0); [by apply elem_of_nil in Hc|]. eapply IH; [|done]. apply Z.div_pos; lia.
Qed.

(** [printint].  The characters printed for a signed 32-bit number, read
    back, give the number, the smallest one included; in base 16 without sign
    they give its unsigned value. *)
Theorem printint_reads_back xx base :
  - 2 ^ 31 ≤ xx < 2 ^ 31 → 2 ≤ base ≤ 16 →
  read_int base (printint_chars xx base true) = xx ∧
  read_int base (printint_chars xx base false) = u32 xx.
Proof.
  intros Hx Hb. assert (P : 2 ^ 32 ≤ base ^ Z.of_nat 32).
  { change (Z.of_nat 32) with 32. apply Z.pow_le_mono_l. lia. }
  assert (N : ∀ x, 0 ≤ x < 2 ^ 32 → read_int base (reverse (digits x base 32)) = x).
  { intros x H. rewrite <-(number_digits base 32 Hb x) at 2 by lia. unfold read_int.
    destruct (reverse (digits x base 32)) as [|c l] eqn:E; [done|].
    apply digits_head in E; [|lia..]. by repeat case_match. }
  unfold printint_chars. cbn [andb]. split.
  - destruct (Z.ltb_spec xx 0).
    + rewrite reverse_app. cbn [reverse]. rewrite u32_small by lia.
      change (- number base (reverse (digits (- xx) base 32)) = xx). rewrite number_digits by lia. lia.
    + rewrite app_nil_r, N by apply u32_range. apply u32_small. lia.
  - rewrite app_nil_r. apply N, u32_range.
Qed.

(** ** Witnesses *)

Definition serial_state : kstate := set_misc (with_ms_uart true zero_misc) (bss []).

Lemma cprintf_prints_witness :
  wp (cprintf "%d of %x" [AInt (-12); AInt 255])
    (λ _ s', printed serial_state (chars "-12 of ff" ≫= wire) s') serial_state.
Proof.
  apply (cprintf_prints "%d of %x" [AInt (-12); AInt 255] (chars "-12 of ff") serial_state).
  - vm_compute. reflexivity.
  - split; vm_compute; [reflexivity|]. by split.
  - reflexivity.
  - apply not_elem_of_nil.
Defined.

Lemma printint_reads_back_witness :
  read_int 10 (printint_chars (- 2 ^ 31) 10 true) = - 2 ^ 31 ∧
  read_int 10 (printint_chars (- 2 ^ 31) 10 false) = u32 (- 2 ^ 31).
Proof. apply (printint_reads_back (- 2 ^ 31) 10); lia. Defined.
