(* ===== verification/Vm.v ===== *)
(** * Vm: page tables (vm.c)

    A page directory and its page tables are pages of memory, read and
    written a word at a time.  The first part is the code; the second gives
    the address space a directory describes and what each routine does to
    it. *)

From S2P Require Import Prelude Bytes CString Kernel Sched Ide Bio Log Crash Block Inode Kalloc Print.

#[local] Arguments replicate : simpl never.

(** ** mmu.h *)

Abbreviation PTE_P := 1.
Abbreviation PTE_W := 2.
Abbreviation PTE_U := 4.
Abbreviation NPDENTRIES := 1024%nat.
Abbreviation NPTENTRIES := 1024.
Abbreviation KERNLINK := (KERNBASE + EXTMEM).

Definition PDX (va : Z) : Z := Z.land (Z.shiftr va 22) 0x3FF.
Definition PTX (va : Z) : Z := Z.land (Z.shiftr va 12) 0x3FF.
Definition PTE_ADDR (pte : Z) : Z := Z.land pte (u32 (Z.lnot 0xFFF)).

(** ** Segments (mmu.h)

    A bit field keeps the low bits of its initialiser; those below fit. *)

Abbreviation SEG_KCODE := 1.
Abbreviation SEG_KDATA := 2.
Abbreviation SEG_KCPU := 3.
Abbreviation SEG_UCODE := 4.
Abbreviation SEG_UDATA := 5.
Abbreviation SEG_TSS := 6.
Abbreviation DPL_USER := 3.
Abbreviation STA_X := 8.
Abbreviation STA_W := 2.
Abbreviation STA_R := 2.
Abbreviation STS_T32A := 9.

Definition SEG (type base lim dpl : Z) : segdesc :=
  mk_seg (Z.land (Z.shiftr lim 12) 0xffff) (Z.land base 0xffff) (Z.land (Z.shiftr base 16) 0xff) type 1 dpl 1
    (Z.shiftr lim 28) 0 0 1 1 (Z.shiftr base 24).
Definition SEG16 (type base lim dpl : Z) : segdesc :=
  mk_seg (Z.land lim 0xffff) (Z.land base 0xffff) (Z.land (Z.shiftr base 16) 0xff) type 1 dpl 1
    (Z.shiftr lim 16) 0 0 1 0 (Z.shiftr base 24).

(** [gdt[i].s = v] *)
Definition with_sd_s (v : Z) (x : segdesc) : segdesc :=
  mk_seg (sd_lim_15_0 x) (sd_base_15_0 x) (sd_base_23_16 x) (sd_type x) v (sd_dpl x) (sd_p x) (sd_lim_19_16 x) (sd_avl x)
    (sd_rsv1 x) (sd_db x) (sd_g x) (sd_base_31_24 x).

(** The layout of [struct cpu]: offsets of [ts], [gdt] and [cpu], and sizes. *)
Abbreviation CPU_ts := 8.
Abbreviation CPU_gdt := 112.
Abbreviation CPU_cpu := 180.
Abbreviation SIZE_cpu := 188.
Abbreviation SIZE_ts := 104.
Abbreviation SIZE_gdt := 56.

(** The word at kernel address [a]. *)
Definition get_word (a : Z) : K Z :=
  p ← get_page (a - a mod PGSIZE);
  mret (get32 (Z.to_nat (a mod PGSIZE)) p).
Definition set_word (a v : Z) : K () :=
  upd_page (a - a mod PGSIZE) (put32 (Z.to_nat (a mod PGSIZE)) v).

(** [memset(mem, 0, PGSIZE)] and [memmove(mem, src, n)] on a page. *)
Definition zero_page (a : Z) : K () := upd_page a (λ _, replicate 4096 0).
Definition write_page (a : Z) (off : nat) (src : list Z) : K () := upd_page a (splice off src).

(** Registers and the rest of the static data. *)
Definition upd_misc (f : misc → misc) : K () := modify (λ s, set_misc (f (ks_misc s)) s).
Definition lcr3 (v : Z) : K () := upd_misc (with_ms_cr3 v).

Section Code.
Context `{Ide} `{Devsw} `{Linker}.

(** ** The code *)

(** The address of the entry, or 0. *)
Definition walkpgdir (pgdir va : Z) (alloc : bool) : K Z :=
  let pde := pgdir + 4 * PDX va in
  v ← get_word pde;
  if hasb v PTE_P then mret (p2v (PTE_ADDR v) + 4 * PTX va) else
  if negb alloc then mret 0 else
  pgtab ← kalloc;
  if pgtab =? 0 then mret 0 else
  zero_page pgtab;;
  set_word pde (Z.lor (Z.lor (Z.lor (v2p pgtab) PTE_P) PTE_W) PTE_U);;
  mret (pgtab + 4 * PTX va).

(** The loop of [mappages]; it makes [fuel] turns at most. *)
Fixpoint mappages_loop (pgdir a last pa perm : Z) (fuel : nat) : K Z :=
  match fuel with
  | O => fault
  | S fuel' =>
      pte ← walkpgdir pgdir a true;
      if pte =? 0 then mret (-1) else
      v ← get_word pte;
      if hasb v PTE_P then panic "remap" else
      set_word pte (Z.lor (Z.lor pa perm) PTE_P);;
      if a =? last then mret 0 else
      mappages_loop pgdir (u32 (a + PGSIZE)) last (u32 (pa + PGSIZE)) perm fuel'
  end.

(** [a] reaches [last] after [(last - a) / PGSIZE] turns, modulo the width. *)
Definition mappages (pgdir va size pa perm : Z) : K Z :=
  let a := PGROUNDDOWN va in
  let last := PGROUNDDOWN (u32 (va + size - 1)) in
  mappages_loop pgdir a last pa perm (S (Z.to_nat (u32 (last - a) / PGSIZE))).

(** [kmap]: virtual address, physical start and end, permissions. *)
Definition kmap : list (Z * Z * Z * Z) :=
  [(KERNBASE, 0, EXTMEM, PTE_W);
   (KERNLINK, v2p KERNLINK, v2p ld_data, 0);
   (ld_data, v2p ld_data, PHYSTOP, PTE_W);
   (DEVSPACE, DEVSPACE, 0, PTE_W)].

Fixpoint setupkvm_loop (pgdir : Z) (l : list (Z * Z * Z * Z)) : K Z :=
  match l with
  | [] => mret pgdir
  | (virt, phys_start, phys_end, perm) :: l' =>
      r ← mappages pgdir virt (u32 (phys_end - phys_start)) phys_start perm;
      if r <? 0 then mret 0 else setupkvm_loop pgdir l'
  end.

(** The address of the new directory, or 0. *)
Definition setupkvm : K Z :=
  pgdir ← kalloc;
  if pgdir =? 0 then mret 0 else
  zero_page pgdir;;
  if DEVSPACE <? p2v PHYSTOP then panic "PHYSTOP too high" else
  setupkvm_loop pgdir kmap.

Definition switchkvm : K () := m ← gets ks_misc; lcr3 (v2p (ms_kpgdir m)).

Definition kvmalloc : K () :=
  pgdir ← setupkvm;
  upd_misc (with_ms_kpgdir pgdir);;
  switchkvm.

(** [c] is the address of [cpus[cpunum()]]. *)
Definition seginit (c : Z) : K () :=
  upd_misc (λ m, let x := ms_cpu m in with_ms_cpu (mk_cpu c (c_ts x)
    (<[Z.to_nat SEG_KCPU:=SEG STA_W (u32 (c + CPU_cpu)) 8 0]>
    (<[Z.to_nat SEG_UDATA:=SEG STA_W 0 0xffffffff DPL_USER]>
    (<[Z.to_nat SEG_UCODE:=SEG (Z.lor STA_X STA_R) 0 0xffffffff DPL_USER]>
    (<[Z.to_nat SEG_KDATA:=SEG STA_W 0 0xffffffff 0]>
    (<[Z.to_nat SEG_KCODE:=SEG (Z.lor STA_X STA_R) 0 0xffffffff 0]> (c_gdt x))))))
    (c_started x) c (u32 (c + CPU_gdt), SIZE_gdt - 1) (Z.shiftl SEG_KCPU 3) (c_tr x)) m);;
  modify (set_cur None).

(** The task state segment for kernel stack [kstack], and its descriptor. *)
Definition task_segment (kstack : Z) (x : cpu) : cpu :=
  mk_cpu (c_addr x) (mk_ts (u32 (kstack + KSTACKSIZE)) (Z.shiftl SEG_KDATA 3))
    (<[Z.to_nat SEG_TSS:=with_sd_s 0 (SEG16 STS_T32A (u32 (c_addr x + CPU_ts)) (SIZE_ts - 1) 0)]> (c_gdt x))
    (c_started x) (c_cpu x) (c_gdtr x) (c_gs x) (Z.shiftl SEG_TSS 3).

Definition switchuvm (p : nat) : K () :=
  cur ← myproc; c ← get_proc cur;
  upd_misc (λ m, with_ms_cpu (task_segment (p_kstack c) (ms_cpu m)) m);;
  x ← get_proc p;
  if p_pgdir x =? 0 then panic "switchuvm: no pgdir" else
  lcr3 (v2p (p_pgdir x)).

Definition inituvm (pgdir : Z) (init : list Z) : K () :=
  if PGSIZE <=? Z.of_nat (length init) then panic "inituvm: more than a page" else
  mem ← kalloc;
  zero_page mem;;
  mappages pgdir 0 PGSIZE (v2p mem) (Z.lor PTE_W PTE_U);;
  write_page mem 0 init.

Fixpoint loaduvm_loop (pgdir addr : Z) (ip : nat) (offset sz i : Z) (fuel : nat) : K Z :=
  match fuel with
  | O => fault
  | S fuel' =>
      if negb (i <? sz) then mret 0 else
      pte ← walkpgdir pgdir (u32 (addr + i)) false;
      if pte =? 0 then panic "loaduvm: address should exist" else
      v ← get_word pte;
      let pa := PTE_ADDR v in
      let n := if sz - i <? PGSIZE then sz - i else PGSIZE in
      r ← readi ip (u32 (offset + i)) n;
      write_page (p2v pa) 0 r.2;;
      if negb (u32 r.1 =? n) then mret (-1) else
      loaduvm_loop pgdir addr ip offset sz (u32 (i + PGSIZE)) fuel'
  end.

Definition loaduvm (pgdir addr : Z) (ip : nat) (offset sz : Z) : K Z :=
  if negb (addr mod PGSIZE =? 0) then panic "loaduvm: addr must be page aligned" else
  loaduvm_loop pgdir addr ip offset sz 0 (S (Z.to_nat ((sz + PGSIZE - 1) / PGSIZE))).

Fixpoint deallocuvm_loop (pgdir a oldsz : Z) (fuel : nat) : K () :=
  match fuel with
  | O => fault
  | S fuel' =>
      if negb (a <? oldsz) then mret () else
      pte ← walkpgdir pgdir a false;
      if pte =? 0 then
        deallocuvm_loop pgdir (u32 (u32 (a + (NPTENTRIES - 1) * PGSIZE) + PGSIZE)) oldsz fuel'
      else
      v ← get_word pte;
      when (hasb v PTE_P) (
        let pa := PTE_ADDR v in
        if pa =? 0 then panic "kfree" else
        kfree (p2v pa);;
        set_word pte 0);;
      deallocuvm_loop pgdir (u32 (a + PGSIZE)) oldsz fuel'
  end.

Definition deallocuvm (pgdir oldsz newsz : Z) : K Z :=
  if oldsz <=? newsz then mret oldsz else
  let a := PGROUNDUP newsz in
  deallocuvm_loop pgdir a oldsz (S (Z.to_nat ((oldsz - a + PGSIZE - 1) / PGSIZE)));;
  mret newsz.

(** The loop of [allocuvm]: whether every page was allocated. *)
Fixpoint allocuvm_loop (pgdir a newsz : Z) (fuel : nat) : K bool :=
  match fuel with
  | O => fault
  | S fuel' =>
      if negb (a <? newsz) then mret true else
      mem ← kalloc;
      if mem =? 0 then mret false else
      zero_page mem;;
      mappages pgdir a PGSIZE (v2p mem) (Z.lor PTE_W PTE_U);;
      allocuvm_loop pgdir (u32 (a + PGSIZE)) newsz fuel'
  end.

Definition allocuvm (pgdir oldsz newsz : Z) : K Z :=
  if KERNBASE <=? newsz then mret 0 else
  if newsz <? oldsz then mret oldsz else
  let a := PGROUNDUP oldsz in
  ok ← allocuvm_loop pgdir a newsz (S (Z.to_nat ((newsz - a + PGSIZE - 1) / PGSIZE)));
  if (ok : bool) then mret newsz else
  cprintf (String.append "allocuvm out of memory" (String (Ascii.ascii_of_nat 10) EmptyString)) [];;
  deallocuvm pgdir newsz oldsz;;
  mret 0.

(** The loop of [freevm] over the entries from [i] on. *)
Fixpoint freevm_loop (pgdir : Z) (i n : nat) : K () :=
  match n with
  | O => mret ()
  | S n' =>
      v ← get_word (pgdir + 4 * Z.of_nat i);
      when (hasb v PTE_P) (kfree (p2v (PTE_ADDR v)));;
      freevm_loop pgdir (S i) n'
  end.

Definition freevm (pgdir : Z) : K () :=
  if pgdir =? 0 then panic "freevm: no pgdir" else
  deallocuvm pgdir KERNBASE 0;;
  freevm_loop pgdir 0 NPDENTRIES;;
  kfree pgdir.

Definition clearpteu (pgdir uva : Z) : K () :=
  pte ← walkpgdir pgdir uva false;
  if pte =? 0 then panic "clearpteu" else
  v ← get_word pte;
  set_word pte (Z.land v (u32 (Z.lnot PTE_U))).

(** The loop of [copyuvm]: whether every page was copied. *)
Fixpoint copyuvm_loop (d pgdir sz i : Z) (fuel : nat) : K bool :=
  match fuel with
  | O => fault
  | S fuel' =>
      if negb (i <? sz) then mret true else
      pte ← walkpgdir pgdir i false;
      if pte =? 0 then panic "copyuvm: pte should exist" else
      v ← get_word pte;
      if negb (hasb v PTE_P) then panic "copyuvm: page not present" else
      let pa := PTE_ADDR v in
      mem ← kalloc;
      if mem =? 0 then mret false else
      src ← get_page (p2v pa);
      write_page mem 0 src;;
      r ← mappages d i PGSIZE (v2p mem) (Z.lor PTE_W PTE_U);
      if r <? 0 then mret false else
      copyuvm_loop d pgdir sz (u32 (i + PGSIZE)) fuel'
  end.

Definition copyuvm (pgdir sz : Z) : K Z :=
  d ← setupkvm;
  if d =? 0 then mret 0 else
  ok ← copyuvm_loop d pgdir sz 0 (S (Z.to_nat ((sz + PGSIZE - 1) / PGSIZE)));
  if (ok : bool) then mret d else
  freevm d;;
  mret 0.

(** The kernel address of the page, or 0; the entry is read without a test
    for the null pointer. *)
Definition uva2ka (pgdir uva : Z) : K Z :=
  pte ← walkpgdir pgdir uva false;
  v ← get_word pte;
  if negb (hasb v PTE_P) then mret 0 else
  if negb (hasb v PTE_U) then mret 0 else
  mret (p2v (PTE_ADDR v)).

Fixpoint copyout_loop (pgdir va : Z) (buf : list Z) (len : Z) (fuel : nat) : K Z :=
  match fuel with
  | O => fault
  | S fuel' =>
      if negb (0 <? len) then mret 0 else
      let va0 := PGROUNDDOWN va in
      pa0 ← uva2ka pgdir va0;
      if pa0 =? 0 then mret (-1) else
      let n := Z.min (PGSIZE - (va - va0)) len in
      write_page pa0 (Z.to_nat (va - va0)) (take (Z.to_nat n) buf);;
      copyout_loop pgdir (u32 (va0 + PGSIZE)) (drop (Z.to_nat n) buf) (len - n) fuel'
  end.

Definition copyout (pgdir va : Z) (p : list Z) : K Z :=
  let len := Z.of_nat (length p) in
  copyout_loop pgdir va p len (S (Z.to_nat ((va mod PGSIZE + len + PGSIZE - 1) / PGSIZE))).

End Code.

(** ** Addresses and entries *)

(** A page the kernel can hand out, with nothing assumed of its contents. *)
Definition kpage (a : Z) : Prop := a mod 4096 = 0 ∧ KERNBASE < a < KERNBASE + PHYSTOP.

Lemma kpage_v2p a : kpage a → v2p a = a - KERNBASE.
Proof. intros [_ H]. apply u32_small. lia. Qed.

Lemma kpage_p2v a : kpage a → p2v (v2p a) = a.
Proof. intros H. rewrite kpage_v2p by done. destruct H. unfold p2v. rewrite u32_small; lia. Qed.

Lemma kpage_v2p_aligned a : kpage a → v2p a mod 4096 = 0 ∧ 0 < v2p a < PHYSTOP.
Proof.
  intros H. rewrite kpage_v2p by done. destruct H as [H1 H2]. split; [|lia].
  rewrite Zminus_mod, H1. done.
Qed.

Lemma aligned_land a f : a mod 4096 = 0 → 0 ≤ f < 4096 → Z.land a f = 0.
Proof.
  intros Ha Hf. apply Z.bits_inj'. intros n Hn. rewrite Z.land_spec, Z.bits_0.
  destruct (decide (n < 12)).
  - assert (Z.testbit a n = false) as ->; [|done].
    rewrite <-(Z.mod_pow2_bits_low a 12 n) by lia. change (2 ^ 12) with 4096. by rewrite Ha, Z.bits_0.
  - assert (Z.testbit f n = false) as ->; [|by rewrite andb_false_r].
    rewrite <-(Z.mod_small f (2 ^ 12)) by lia. apply Z.mod_pow2_bits_high. lia.
Qed.

Lemma aligned_lor a f : a mod 4096 = 0 → 0 ≤ f < 4096 → Z.lor a f = a + f.
Proof. intros Ha Hf. rewrite <-Z.add_lor_land, aligned_land by done. lia. Qed.

Lemma lor_small f g : 0 ≤ f < 4096 → 0 ≤ g < 4096 → 0 ≤ Z.lor f g < 4096.
Proof.
  intros Hf Hg. split; [apply Z.lor_nonneg; lia|].
  destruct (decide (Z.lor f g = 0)) as [->|Hn]; [lia|].
  assert (0 ≤ Z.lor f g) by (apply Z.lor_nonneg; lia).
  apply (Z.log2_lt_pow2 _ 12); [lia|]. rewrite Z.log2_lor by lia.
  apply Z.max_lub_lt.
  - destruct (decide (f = 0)) as [->|]; [done|]. apply Z.log2_lt_pow2; lia.
  - destruct (decide (g = 0)) as [->|]; [done|]. apply Z.log2_lt_pow2; lia.
Qed.

(** The mask of the page number. *)
Lemma land_page x : 0 ≤ x < 2 ^ 32 → Z.land x (u32 (Z.lnot 0xFFF)) = x - x mod 4096.
Proof.
  intros Hx. change (u32 (Z.lnot 0xFFF)) with (Z.shiftl (Z.ones 20) 12).
  transitivity (Z.shiftl (Z.shiftr x 12) 12); cycle 1.
  { rewrite Z.shiftl_mul_pow2, Z.shiftr_div_pow2 by lia. change (2 ^ 12) with 4096.
    pose proof (Z.div_mod x 4096 ltac:(lia)). lia. }
  apply Z.bits_inj'. intros n Hn. rewrite Z.land_spec.
  destruct (decide (n < 12)); [by rewrite !Z.shiftl_spec_low, andb_false_r by lia|].
  rewrite !Z.shiftl_spec_high, Z.shiftr_spec by lia. replace (n - 12 + 12) with n by lia.
  destruct (decide (n < 32)).
  - by rewrite Z.ones_spec_low, andb_true_r by lia.
  - rewrite <-(Z.mod_small x (2 ^ 32)) by lia. by rewrite Z.mod_pow2_bits_high by lia.
Qed.

Lemma PTE_ADDR_spec x : 0 ≤ x < 2 ^ 32 → PTE_ADDR x = x - x mod 4096.
Proof. apply land_page. Qed.

Lemma PGROUNDDOWN_spec a : 0 ≤ a < 2 ^ 32 → PGROUNDDOWN a = a - a mod 4096.
Proof. intros H. unfold PGROUNDDOWN. rewrite u32_small by done. by apply land_page. Qed.

Lemma PGROUNDUP_spec sz :
  0 ≤ sz ≤ 2 ^ 32 - 4096 → PGROUNDUP sz mod 4096 = 0 ∧ sz ≤ PGROUNDUP sz < sz + 4096.
Proof.
  intros H. unfold PGROUNDUP. rewrite u32_small by lia.
  change (u32 (Z.lnot (PGSIZE - 1))) with (u32 (Z.lnot 0xFFF)). rewrite land_page by lia.
  pose proof (Z.mod_pos_bound (sz + PGSIZE - 1) 4096 ltac:(lia)). split; [|lia].
  by rewrite Zminus_mod, Z.mod_mod, Z.sub_diag by lia.
Qed.

(** The entry for page [a] with permissions [f], and what its users read from it. *)
Lemma entry_addr a f :
  a mod 4096 = 0 → 0 ≤ a < 2 ^ 31 → 0 ≤ f < 4096 → PTE_ADDR (a + f) = a.
Proof.
  intros Ha Hr Hf. rewrite PTE_ADDR_spec by lia.
  rewrite Z.add_mod, Ha, Z.add_0_l, Z.mod_mod, (Z.mod_small f) by lia. lia.
Qed.

Lemma entry_flag a f m : a mod 4096 = 0 → 0 ≤ f < 4096 → 0 ≤ m < 4096 → hasb (a + f) m = hasb f m.
Proof.
  intros Ha Hf Hm. unfold hasb. rewrite <-aligned_lor by done.
  by rewrite Z.land_lor_distr_l, aligned_land, Z.lor_0_l by done.
Qed.

Lemma PDX_spec va : 0 ≤ va < 2 ^ 32 → PDX va = va / 2 ^ 22.
Proof.
  intros H. unfold PDX. change 0x3FF with (Z.ones 10).
  rewrite Z.land_ones, Z.shiftr_div_pow2 by lia. apply Z.mod_small.
  split; [apply Z.div_pos; lia|apply Z.div_lt_upper_bound; lia].
Qed.

Lemma PTX_spec va : PTX va = (va / 4096) mod 1024.
Proof.
  unfold PTX. change 0x3FF with (Z.ones 10). by rewrite Z.land_ones, Z.shiftr_div_pow2 by lia.
Qed.

Lemma PDX_range va : 0 ≤ PDX va < 1024.
Proof.
  unfold PDX. change 0x3FF with (Z.ones 10). rewrite Z.land_ones by lia. by apply Z.mod_pos_bound.
Qed.
Lemma PTX_range va : 0 ≤ PTX va < 1024.
Proof. rewrite PTX_spec. by apply Z.mod_pos_bound. Qed.

(** The indices determine the page. *)
Lemma page_index va va' :
  0 ≤ va < 2 ^ 32 → 0 ≤ va' < 2 ^ 32 → PDX va = PDX va' → PTX va = PTX va' → va / 4096 = va' / 4096.
Proof.
  intros H H' Hd Ht. rewrite !PDX_spec in Hd by done. rewrite !PTX_spec in Ht.
  change (2 ^ 22) with (4096 * 1024) in Hd. rewrite <-!Z.div_div in Hd by lia.
  rewrite (Z.div_mod (va / 4096) 1024), (Z.div_mod (va' / 4096) 1024) by lia. congruence.
Qed.

Lemma word_page t k : t mod 4096 = 0 → 0 ≤ k < 1024 →
  (t + 4 * k) mod 4096 = 4 * k ∧ t + 4 * k - (t + 4 * k) mod 4096 = t.
Proof.
  intros Ht Hk. assert ((t + 4 * k) mod 4096 = 4 * k) as E; [|lia].
  rewrite Z.add_mod, Ht, Z.add_0_l, Z.mod_mod by lia. apply Z.mod_small. lia.
Qed.

(** ** The address space of a directory

    [T] gives the page table of each directory index that has one; [l] is the
    list of free pages. *)

Record dir_ok (m : gmap Z (list Z)) (d : Z) (T : gmap Z Z) : Prop := {
  do_page : kpage d;
  do_dir : ∃ p, m !! d = Some p ∧ length p = 4096%nat ∧
    ∀ i, 0 ≤ i < 1024 →
      match T !! i with
      | Some t => hasb (get32 (Z.to_nat (4 * i)) p) PTE_P = true ∧
          p2v (PTE_ADDR (get32 (Z.to_nat (4 * i)) p)) = t
      | None => hasb (get32 (Z.to_nat (4 * i)) p) PTE_P = false
      end;
  do_tab : ∀ i t, T !! i = Some t → kpage t ∧ t ≠ d ∧ ∃ p, m !! t = Some p ∧ length p = 4096%nat;
  do_inj : ∀ i j t, T !! i = Some t → T !! j = Some t → i = j;
}.

Record aspace (s : kstate) (d : Z) (T : gmap Z Z) (l : list Z) : Prop := {
  as_dir : dir_ok (ks_mem s) d T;
  as_free : free_list s l;
  as_pages : ∀ a, a ∈ l → kpage a;
  as_disj_d : d ∉ l;
  as_disj_t : ∀ i t, T !! i = Some t → t ∉ l;
}.

(** The entry for [va]; 0 where there is no page table. *)
Definition pte (m : gmap Z (list Z)) (T : gmap Z Z) (va : Z) : Z :=
  match T !! PDX va with
  | Some t => get32 (Z.to_nat (4 * PTX va)) (m !!! t)
  | None => 0
  end.

(** Pages that neither describe the address space nor are free. *)
Definition outside (d : Z) (T : gmap Z Z) (l : list Z) (a : Z) : Prop :=
  a ≠ d ∧ (a ∉ l) ∧ ∀ i, T !! i ≠ Some a.

(** From [s] to [s'] only the address space at [d] and the free list changed:
    page tables may have been added, from pages that were free. *)
Record grows (s s' : kstate) (d : Z) (T T' : gmap Z Z) (l l' : list Z) : Prop := {
  gr_frame : ∃ m f, s' = set_freelist f (set_mem m s);
  gr_free : ∃ k, l = k ++ l' ∧ ∀ i t, T' !! i = Some t → T !! i = Some t ∨ t ∈ k;
  gr_tabs : T ⊆ T';
  gr_mem : ∀ a, outside d T l a → ks_mem s' !! a = ks_mem s !! a;
}.

Lemma outside_mono s s' d T T' l l' a : grows s s' d T T' l l' → outside d T l a → outside d T' l' a.
Proof.
  intros [_ (k & -> & Hk) _ _] (Hd & Hl & HT). split_and!; [done|set_solver|].
  intros i Hi. destruct (Hk i a Hi) as [?|?]; [by apply (HT i)|set_solver].
Qed.

Lemma outside_cons d T l a b : b ≠ a → outside d T l b → outside d T (a :: l) b.
Proof. intros Hb (? & ? & ?). split; [done|]. split; [by apply not_elem_of_cons|done]. Qed.

Lemma grows_refl s d T l : grows s s d T T l l.
Proof.
  split; [|exists []; split; [done|by left]|done|done].
  exists (ks_mem s), (ks_freelist s). by destruct s.
Qed.

Lemma grows_trans s1 s2 s3 d T1 T2 T3 l1 l2 l3 :
  grows s1 s2 d T1 T2 l1 l2 → grows s2 s3 d T2 T3 l2 l3 → grows s1 s3 d T1 T3 l1 l3.
Proof.
  intros G1 G2. split.
  - destruct G1 as [(m1 & f1 & ->) _ _ _], G2 as [(m2 & f2 & ->) _ _ _]. by exists m2, f2.
  - destruct (gr_free _ _ _ _ _ _ _ G1) as (k1 & -> & H1), (gr_free _ _ _ _ _ _ _ G2) as (k2 & -> & H2).
    exists (k1 ++ k2). split; [by rewrite app_assoc|]. intros i t Hi.
    destruct (H2 i t Hi) as [Hi'|?]; [|set_solver]. destruct (H1 i t Hi'); [by left|set_solver].
  - etrans; [apply G1|apply G2].
  - intros a Ha. rewrite (gr_mem _ _ _ _ _ _ _ G2) by (by eapply outside_mono). by apply G1.
Qed.

Lemma grows_held s s' d T T' l l' : grows s s' d T T' l l' → ks_held s' = ks_held s.
Proof. by intros [(m & f & ->) _ _ _]. Qed.

Lemma free_list_mem m s l :
  free_list s l → (∀ a, a ∈ l → m !! a = ks_mem s !! a) → free_list (set_mem m s) l.
Proof. intros [H1 H2 H3 H4] Hm. split; try done. simpl. by eapply links_ext. Qed.

Lemma wp_get_word t k p (Q : Z → kstate → Prop) s :
  t mod 4096 = 0 → 0 ≤ k < 1024 → ks_mem s !! t = Some p → Q (get32 (Z.to_nat (4 * k)) p) s →
  wp (get_word (t + 4 * k)) Q s.
Proof.
  intros Ht Hk Hp HQ. destruct (word_page t k Ht Hk) as [E1 E2]. unfold get_word, get_page.
  rewrite E2, E1. wp_steps. eapply wp_the; [done|]. by wp_step.
Qed.

Lemma wp_set_word t k v p (Q : () → kstate → Prop) s :
  t mod 4096 = 0 → 0 ≤ k < 1024 → ks_mem s !! t = Some p →
  Q () (set_mem (<[t:=put32 (Z.to_nat (4 * k)) v p]> (ks_mem s)) s) →
  wp (set_word (t + 4 * k) v) Q s.
Proof.
  intros Ht Hk Hp HQ. destruct (word_page t k Ht Hk) as [E1 E2]. unfold set_word, upd_page.
  rewrite E2, E1. wp_steps. eapply wp_the; [done|]. by wp_step.
Qed.

Lemma wp_upd_page a p f (Q : () → kstate → Prop) s :
  ks_mem s !! a = Some p → Q () (set_mem (<[a:=f p]> (ks_mem s)) s) → wp (upd_page a f) Q s.
Proof. intros Hp HQ. unfold upd_page. wp_steps. eapply wp_the; [done|]. by wp_step. Qed.

(** Pages other than the directory and its tables do not matter. *)
Lemma dir_ok_mem m m' d T :
  dir_ok m d T → m' !! d = m !! d → (∀ i t, T !! i = Some t → m' !! t = m !! t) → dir_ok m' d T.
Proof.
  intros [H1 H2 H3 H4] Hd Ht. split; [done|by rewrite Hd| |done].
  intros i t Hi. rewrite (Ht i t Hi). by eapply H3.
Qed.

(** Writing an entry. *)
Lemma dir_ok_set m d T i t p k v :
  dir_ok m d T → T !! i = Some t → m !! t = Some p → dir_ok (<[t:=put32 k v p]> m) d T.
Proof.
  intros [H1 H2 H3 H4] Hi Hp. destruct (H3 i t Hi) as (_ & Hne & p' & Hp' & Hlen). simplify_eq.
  split; try done.
  - destruct H2 as (pd & Hd & H2). exists pd. by rewrite lookup_insert_ne.
  - intros j t' Hj. destruct (H3 j t' Hj) as (? & ? & q & Hq & Hql). split_and!; [done..|].
    destruct (decide (t' = t)) as [->|]; [|exists q; by rewrite lookup_insert_ne].
    eexists. rewrite lookup_insert_eq. split; [done|]. unfold put32. by rewrite length_put_le.
Qed.

Lemma aspace_set s d T l i t p k v :
  aspace s d T l → T !! i = Some t → ks_mem s !! t = Some p →
  aspace (set_mem (<[t:=put32 k v p]> (ks_mem s)) s) d T l.
Proof.
  intros A Hi Hp. split; try apply A.
  - eapply dir_ok_set; [apply A|done|done].
  - apply free_list_mem; [apply A|]. intros a Ha. rewrite lookup_insert_ne; [done|].
    intros ->. by eapply as_disj_t.
Qed.

Lemma grows_set s d T l i t p k v :
  T !! i = Some t → grows s (set_mem (<[t:=put32 k v p]> (ks_mem s)) s) d T T l l.
Proof.
  intros Hi. split; [|exists []; split; [done|by left]|done|].
  - exists (<[t:=put32 k v p]> (ks_mem s)), (ks_freelist s). by destruct s.
  - intros a (_ & _ & Ha). simpl. rewrite lookup_insert_ne; [done|]. intros ->. by apply (Ha i).
Qed.

Lemma pte_set m d T va t p v va' :
  dir_ok m d T → T !! PDX va = Some t → m !! t = Some p → 0 ≤ va < 2 ^ 32 → 0 ≤ va' < 2 ^ 32 →
  pte (<[t:=put32 (Z.to_nat (4 * PTX va)) v p]> m) T va' =
  if decide (va' / 4096 = va / 4096) then u32 v else pte m T va'.
Proof.
  intros D Ht Hp Hva Hva'. destruct (do_tab _ _ _ D _ _ Ht) as (_ & _ & p' & Hp' & Hlen). simplify_eq.
  pose proof (PTX_range va). pose proof (PTX_range va'). unfold pte. case_decide as E.
  - assert (PDX va' = PDX va) as -> by (rewrite !PDX_spec by done; change (2 ^ 22) with (4096 * 1024);
      by rewrite <-!Z.div_div, E by lia).
    assert (PTX va' = PTX va) as -> by (by rewrite !PTX_spec, E).
    rewrite Ht, lookup_total_insert_eq, get_put32_eq; [done|lia].
  - destruct (T !! PDX va') as [t'|] eqn:Et'; [|done].
    destruct (decide (t' = t)) as [->|]; [|by rewrite lookup_total_insert_ne].
    rewrite lookup_total_insert_eq, (lookup_total_correct _ _ _ Hp).
    rewrite get_put32_ne; [done|lia|].
    assert (PTX va' ≠ PTX va); [|lia]. intros Ex. apply E, page_index; [done..| |done].
    by apply (do_inj _ _ _ D _ _ t).
Qed.

(** ** walkpgdir *)

Section Specs.
Context `{LNK : Linker}.

Lemma walk_present s d T l va t alloc (Q : Z → kstate → Prop) :
  aspace s d T l → T !! PDX va = Some t → Q (t + 4 * PTX va) s → wp (walkpgdir d va alloc) Q s.
Proof.
  intros A Ht HQ. destruct (do_dir _ _ _ (as_dir _ _ _ _ A)) as (p & Hp & _ & Hd).
  specialize (Hd _ (PDX_range va)). rewrite Ht in Hd. destruct Hd as [H1 H2].
  unfold walkpgdir. wp_step. eapply wp_get_word; [apply (do_page _ _ _ (as_dir _ _ _ _ A))|apply PDX_range|done|].
  rewrite H1, H2. by wp_step.
Qed.

Lemma walk_absent s d T l va (Q : Z → kstate → Prop) :
  aspace s d T l → T !! PDX va = None → Q 0 s → wp (walkpgdir d va false) Q s.
Proof.
  intros A Ht HQ. destruct (do_dir _ _ _ (as_dir _ _ _ _ A)) as (p & Hp & _ & Hd).
  specialize (Hd _ (PDX_range va)). rewrite Ht in Hd.
  unfold walkpgdir. wp_step. eapply wp_get_word; [apply (do_page _ _ _ (as_dir _ _ _ _ A))|apply PDX_range|done|].
  rewrite Hd. cbn [negb]. by wp_step.
Qed.

(** The directory entry of a new page table. *)
Lemma table_entry t :
  kpage t → let v := u32 (Z.lor (Z.lor (Z.lor (v2p t) PTE_P) PTE_W) PTE_U) in
  hasb v PTE_P = true ∧ p2v (PTE_ADDR v) = t.
Proof.
  intros Ht v. destruct (kpage_v2p_aligned t Ht) as [Ha Hr].
  assert (v = v2p t + 7) as ->.
  { unfold v. rewrite <-!Z.lor_assoc. change (Z.lor PTE_P (Z.lor PTE_W PTE_U)) with 7.
    rewrite aligned_lor by (done || lia). apply u32_small. lia. }
  rewrite entry_flag, entry_addr by (done || lia). split; [done|by apply kpage_p2v].
Qed.

(** The memory after page [t] became the table of index [i]. *)
Lemma dir_ok_table m d T i t p v :
  dir_ok m d T → 0 ≤ i < 1024 → T !! i = None → kpage t → t ≠ d → (∀ j, T !! j ≠ Some t) →
  m !! d = Some p → hasb (u32 v) PTE_P = true → p2v (PTE_ADDR (u32 v)) = t →
  dir_ok (<[d:=put32 (Z.to_nat (4 * i)) v p]> (<[t:=replicate 4096 0]> m)) d (<[i:=t]> T).
Proof.
  intros [H1 H2 H3 H4] Hi Hn Ht Hne Hnew Hp Hv1 Hv2. destruct H2 as (p' & Hp' & Hlen & H2).
  assert (p' = p) as -> by congruence. split; [done|..].
  - eexists. rewrite lookup_insert_eq. split; [done|]. split; [unfold put32; by rewrite length_put_le|].
    intros j Hj. destruct (decide (j = i)) as [->|Hji].
    + rewrite lookup_insert_eq, get_put32_eq by lia. done.
    + rewrite lookup_insert_ne, get_put32_ne by lia. by apply H2.
  - intros j t' [[-> ->]|[Hj Ht']]%lookup_insert_Some.
    + split_and!; [done..|]. exists (replicate 4096 0).
      rewrite lookup_insert_ne, lookup_insert_eq by done. by rewrite length_replicate.
    + destruct (H3 j t' Ht') as (A & B & q & Hq & Hql). split_and!; [done..|]. exists q.
      rewrite !lookup_insert_ne; [done| |by intros ->]. intros ->. by apply (Hnew j).
  - intros j k t' Hj Hk. apply lookup_insert_Some in Hj, Hk.
    destruct Hj as [[-> ->]|[? Hj]], Hk as [[-> ?]|[? Hk]]; subst; try done; [by destruct (Hnew k)|
      by destruct (Hnew j)|by eapply H4].
Qed.

(** The pages of the free list are in memory. *)
Lemma links_mem m a l t : links m a l → t ∈ l → is_Some (m !! t).
Proof.
  revert a. induction l as [|x l IH]; intros a; simpl; [by intros _ ?%not_elem_of_nil|].
  intros (-> & _ & p & Hp & Hl) [->|Hin]%elem_of_cons; [eauto|by eapply IH].
Qed.

Lemma aspace_table s d T t l i p v f :
  aspace s d T (t :: l) → free_list (set_freelist f s) l → 0 ≤ i < 1024 → T !! i = None →
  ks_mem s !! d = Some p → hasb (u32 v) PTE_P = true → p2v (PTE_ADDR (u32 v)) = t →
  let s' := set_mem (<[d:=put32 (Z.to_nat (4 * i)) v p]> (<[t:=replicate 4096 0]> (ks_mem s)))
    (set_freelist f s) in
  aspace s' d (<[i:=t]> T) l ∧ grows s s' d T (<[i:=t]> T) (t :: l) l ∧
  ∀ va, pte (ks_mem s') (<[i:=t]> T) va = pte (ks_mem s) T va.
Proof.
  intros A F Hi Hn Hp Hv1 Hv2 s'. pose proof (fl_nodup _ _ (as_free _ _ _ _ A)) as [Htl Hnd]%NoDup_cons.
  pose proof (as_disj_d _ _ _ _ A) as Hdl. apply not_elem_of_cons in Hdl as [Hdt Hdl].
  assert (Hnew : ∀ j, T !! j ≠ Some t) by (intros j Hj; apply (as_disj_t _ _ _ _ A j t Hj); by left).
  split_and!.
  - split; simpl.
    + apply dir_ok_table; try done; [apply A|apply (as_pages _ _ _ _ A); by left].
    + apply free_list_mem; [done|]. intros a Ha. simpl. rewrite !lookup_insert_ne; [done|..]; by intros ->.
    + intros a Ha. apply (as_pages _ _ _ _ A). by right.
    + done.
    + intros j t' [[-> ->]|[? Ht']]%lookup_insert_Some; [done|].
      apply (as_disj_t _ _ _ _ A) in Ht'. set_solver.
  - split; [by eexists _, f|exists [t]; split; [done|]|by apply insert_subseteq|].
    + intros j t' [[-> ->]|[? Ht']]%lookup_insert_Some; [right; by left|by left].
    + intros a (Ha1 & Ha2 & _). apply not_elem_of_cons in Ha2 as [Ha2 _]. simpl. by rewrite !lookup_insert_ne.
  - intros va. unfold pte. destruct (decide (PDX va = i)) as [->|Hne].
    + rewrite lookup_insert_eq, Hn. simpl. rewrite lookup_total_insert_ne, lookup_total_insert_eq by done.
      apply (get_le_zeros 4).
    + rewrite lookup_insert_ne by done. destruct (T !! PDX va) as [t'|] eqn:E; [|done]. simpl.
      destruct (do_tab _ _ _ (as_dir _ _ _ _ A) _ _ E) as (_ & Htd & _).
      rewrite !lookup_total_insert_ne; [done| |by intros ->]. intros ->. by apply (Hnew (PDX va)).
Qed.

(** The free pages that went were used for page tables, at indices in [I]. *)
Definition tabled (I : Z → Prop) (T T' : gmap Z Z) (l l' : list Z) : Prop :=
  (size T' + length l' = size T + length l)%nat ∧ ∀ i, is_Some (T' !! i) → is_Some (T !! i) ∨ I i.

Lemma tabled_refl I T l : tabled I T T l l.
Proof. split; [done|]. by left. Qed.

Lemma tabled_trans (I J : Z → Prop) T1 T2 T3 l1 l2 l3 : (∀ i, I i → J i) →
  tabled I T1 T2 l1 l2 → tabled J T2 T3 l2 l3 → tabled J T1 T3 l1 l3.
Proof. intros HI [N1 H1] [N2 H2]. split; [lia|]. intros i [Hi|Hi]%H2; [|by right]. destruct (H1 _ Hi); auto. Qed.

Lemma tabled_mono (I J : Z → Prop) T T' l l' : (∀ i, I i → J i) → tabled I T T' l l' → tabled J T T' l l'.
Proof. intros HI [N H]. split; [done|]. intros i Hi. destruct (H i Hi); auto. Qed.

(** [walkpgdir] with [alloc] leaves every entry as it was, and fails only if
    it needs a page and none is free. *)
Lemma walk_alloc s d T l va :
  aspace s d T l →
  wp (walkpgdir d va true) (λ r s', ∃ T' l',
    aspace s' d T' l' ∧ grows s s' d T T' l l' ∧ (length l ≤ S (length l'))%nat ∧
    tabled (λ i, i = PDX va) T T' l l' ∧
    (∀ va', pte (ks_mem s') T' va' = pte (ks_mem s) T va') ∧
    ((r = 0 ∧ l = [] ∧ T !! PDX va = None) ∨
     ∃ t, T' !! PDX va = Some t ∧ r = t + 4 * PTX va)) s.
Proof.
  intros A. destruct (T !! PDX va) as [t|] eqn:Et.
  { eapply walk_present; [done..|]. exists T, l. split_and!; [done|apply grows_refl|lia|apply tabled_refl|done|]. right. eauto. }
  pose proof (as_dir _ _ _ _ A) as D. pose proof (do_page _ _ _ D) as [Hd0 _].
  destruct (do_dir _ _ _ D) as (p & Hp & Hlen & Hd). specialize (Hd _ (PDX_range va)). rewrite Et in Hd.
  unfold walkpgdir. wp_step. eapply wp_get_word; [done|apply PDX_range|done|]. rewrite Hd. cbn [negb].
  destruct l as [|t l].
  - wp_call (kalloc_spec s); [apply A|by rewrite (fl_links _ _ (as_free _ _ _ _ A) : ks_freelist s = 0)|].
    intros r s1 [-> ->]. rewrite (fl_links _ _ (as_free _ _ _ _ A) : ks_freelist s = 0). cbn [Z.eqb].
    wp_step. exists T, []. split_and!; [done|apply grows_refl|simpl; lia|apply tabled_refl|done|by left].
  - wp_call (kalloc_list (t :: l)); [apply A|]. cbn [hd tail]. intros r s1 (-> & F1 & M1 & f & ->). simpl in M1.
    pose proof (as_pages _ _ _ _ A t ltac:(by left)) as Ht.
    rewrite (proj2 (Z.eqb_neq t 0)) by (destruct Ht; lia).
    destruct (links_mem _ _ _ t (fl_links _ _ (as_free _ _ _ _ A)) ltac:(by left)) as [q Hq].
    assert (d ≠ t) as Hdt by (intros ->; apply (as_disj_d _ _ _ _ A); by left).
    unfold zero_page. wp_step. eapply wp_upd_page; [done|]. wp_step.
    eapply wp_set_word; [done|apply PDX_range|simpl; by rewrite lookup_insert_ne|]. wp_step.
    destruct (table_entry t Ht) as [Hv1 Hv2].
    destruct (aspace_table s d T t l (PDX va) p _ f A F1 (PDX_range va) Et Hp Hv1 Hv2) as (A' & G & E).
    exists (<[PDX va:=t]> T), l. split_and!; [exact A'|exact G|simpl; lia| |exact E|].
    { split; [rewrite map_size_insert_None by done; simpl; lia|]. intros i. rewrite lookup_insert_is_Some'. intros [<-|?]; auto. }
    right. exists t. by rewrite lookup_insert_eq.
Qed.

(** ** mappages *)

(** The entries after [j] pages from [A] on were mapped to the physical pages
    from [P] on. *)
Definition maps (g : Z → Z) (A P perm : Z) (j : nat) (va : Z) : Z :=
  if bool_decide (A / 4096 ≤ va / 4096 < A / 4096 + Z.of_nat j)
  then P + 4096 * (va / 4096 - A / 4096) + Z.lor perm PTE_P else g va.

Lemma maps_step g A P perm j va :
  A mod 4096 = 0 →
  maps (λ va, if decide (va / 4096 = A / 4096) then P + Z.lor perm PTE_P else g va)
    (A + 4096) (P + 4096) perm j va = maps g A P perm (S j) va.
Proof.
  intros HA. unfold maps. replace ((A + 4096) / 4096) with (A / 4096 + 1)
    by (rewrite <-(Z.div_add A 1 4096) by lia; f_equal; lia).
  repeat case_bool_decide; repeat case_decide; lia.
Qed.

Lemma mappages_step s d T l A v g (Q : () → kstate → Prop) t :
  aspace s d T l → T !! PDX A = Some t → 0 ≤ A < 2 ^ 32 → 0 ≤ v < 2 ^ 32 →
  (∀ va, pte (ks_mem s) T va = g va) →
  (∀ s', aspace s' d T l → grows s s' d T T l l →
    (∀ va, 0 ≤ va < 2 ^ 32 →
      pte (ks_mem s') T va = if decide (va / 4096 = A / 4096) then v else g va) → Q () s') →
  wp (set_word (t + 4 * PTX A) v) Q s.
Proof.
  intros AS Ht HA Hv Hg HQ. pose proof (as_dir _ _ _ _ AS) as D.
  destruct (do_tab _ _ _ D _ _ Ht) as ([Ht0 _] & _ & p & Hp & _).
  eapply wp_set_word; [done|apply PTX_range|done|]. apply HQ.
  - by eapply aspace_set.
  - by eapply grows_set.
  - intros va Hva. simpl. rewrite (pte_set _ d T A t p v va D) by done.
    case_decide; [by rewrite u32_small|done].
Qed.

Lemma wp_get_pte s d T l va t (Q : Z → kstate → Prop) :
  aspace s d T l → T !! PDX va = Some t → Q (pte (ks_mem s) T va) s →
  wp (get_word (t + 4 * PTX va)) Q s.
Proof.
  intros A Ht HQ. destruct (do_tab _ _ _ (as_dir _ _ _ _ A) _ _ Ht) as ([Ht0 _] & _ & p & Hp & _).
  eapply wp_get_word; [done|apply PTX_range|done|]. unfold pte in HQ. rewrite Ht in HQ.
  by rewrite (lookup_total_correct _ _ _ Hp) in HQ.
Qed.

Lemma maps_0 g A P perm va : maps g A P perm 0 va = g va.
Proof. unfold maps. rewrite bool_decide_false by lia. done. Qed.

Lemma maps_1 g A P perm va :
  maps g A P perm 1 va = if decide (va / 4096 = A / 4096) then P + Z.lor perm PTE_P else g va.
Proof. unfold maps. case_bool_decide; case_decide; lia. Qed.

Lemma maps_ext g g' A P perm j va : g va = g' va → maps g A P perm j va = maps g' A P perm j va.
Proof. unfold maps. by intros ->. Qed.

(** One turn of the loop: it fails with the free list empty, or goes on with
    the page mapped. *)
Lemma mappages_turn d A last P perm fuel s T l (Q : Z → kstate → Prop) :
  aspace s d T l → A mod 4096 = 0 → 0 ≤ A < 2 ^ 32 → P mod 4096 = 0 → 0 ≤ P → P + 4096 ≤ 2 ^ 32 →
  0 ≤ perm < 4096 → hasb (pte (ks_mem s) T A) PTE_P = false →
  (∀ s' T', aspace s' d T' [] → grows s s' d T T' l [] → l = [] → tabled (λ i, i = PDX A) T T' l [] →
    (∀ va, pte (ks_mem s') T' va = pte (ks_mem s) T va) → Q (-1) s') →
  (∀ s' T' l', aspace s' d T' l' → grows s s' d T T' l l' → (length l ≤ S (length l'))%nat →
    tabled (λ i, i = PDX A) T T' l l' →
    (∀ va, 0 ≤ va < 2 ^ 32 → pte (ks_mem s') T' va = maps (pte (ks_mem s) T) A P perm 1 va) →
    wp (if A =? last then mret 0
        else mappages_loop d (u32 (A + PGSIZE)) last (u32 (P + PGSIZE)) perm fuel) Q s') →
  wp (mappages_loop d A last P perm (S fuel)) Q s.
Proof.
  intros AS HA HA0 HP HP0 HP1 Hperm Hn Hfail Hok. cbn [mappages_loop].
  wp_call (walk_alloc s d T l A AS). intros r s1 (T1 & l1 & AS1 & G1 & Hl1 & Tb1 & E1 & Hr).
  assert (Hb : 0 ≤ Z.lor perm PTE_P < 4096) by (apply lor_small; lia).
  destruct Hr as [(-> & -> & _)|(t & Ht & ->)].
  - cbn [Z.eqb]. wp_step. assert (l1 = []) as ->.
    { destruct (gr_free _ _ _ _ _ _ _ G1) as (k & Hk & _). by destruct k, l1. }
    apply (Hfail s1 T1); done.
  - destruct (do_tab _ _ _ (as_dir _ _ _ _ AS1) _ _ Ht) as ([_ Htr] & _).
    pose proof (PTX_range A). rewrite (proj2 (Z.eqb_neq _ 0)) by lia.
    wp_step. eapply wp_get_pte; [done..|]. rewrite E1, Hn. wp_step.
    rewrite <-Z.lor_assoc, aligned_lor by done.
    assert (P ≤ 2 ^ 32 - 4096) by lia.
    eapply (mappages_step s1 d T1 l1 A _ (pte (ks_mem s) T) _ t); [done..|lia|done|].
    intros s2 AS2 G2 E2. apply (Hok s2 T1 l1); [done|by eapply grows_trans|done|done|].
    intros va Hva. rewrite maps_1. by apply E2.
Qed.

Lemma mappages_loop_spec d perm n : ∀ A P s T l,
  aspace s d T l → A mod 4096 = 0 → 0 ≤ A → A + 4096 * Z.of_nat n < 2 ^ 32 →
  P mod 4096 = 0 → 0 ≤ P → P + 4096 * (1 + Z.of_nat n) ≤ 2 ^ 32 → 0 ≤ perm < 4096 →
  (∀ k, (k ≤ n)%nat → hasb (pte (ks_mem s) T (A + 4096 * Z.of_nat k)) PTE_P = false) →
  wp (mappages_loop d A (A + 4096 * Z.of_nat n) P perm (S n)) (λ r s', ∃ T' l' j,
    aspace s' d T' l' ∧ grows s s' d T T' l l' ∧ (length l ≤ S n + length l')%nat ∧
    tabled (λ i, A / 2 ^ 22 ≤ i ≤ (A + 4096 * Z.of_nat n) / 2 ^ 22) T T' l l' ∧
    ((r = 0 ∧ j = S n) ∨ (r = -1 ∧ l' = [] ∧ (j ≤ n)%nat ∧ (length l ≤ j)%nat)) ∧
    ∀ va, 0 ≤ va < 2 ^ 32 → pte (ks_mem s') T' va = maps (pte (ks_mem s) T) A P perm j va) s.
Proof.
  induction n as [|n IH]; intros A P s T l AS HA HA0 HA1 HP HP0 HP1 Hperm Hn;
    (apply (mappages_turn d A _ P perm _ s T l); [done|done|lia|done|done|lia|done| | |]);
    try (specialize (Hn 0%nat ltac:(lia)); by rewrite Z.mul_0_r, Z.add_0_r in Hn);
    assert (∀ n, A + 4096 * Z.of_nat n < 2 ^ 32 → ∀ i, i = PDX A → A / 2 ^ 22 ≤ i ≤ (A + 4096 * Z.of_nat n) / 2 ^ 22) as HI
      by (intros k Hk i ->; rewrite PDX_spec by lia; split; [done|apply Z.div_le_mono; lia]).
  - intros s1 T1 AS1 G1 -> Tb1 E1. exists T1, [], 0%nat.
    split_and!; [done..|simpl; lia|by eapply tabled_mono; [apply HI|]|by right; split_and!; [..|lia|simpl; lia]|].
    intros va _. rewrite maps_0. apply E1.
  - intros s1 T1 l1 AS1 G1 Hl Tb1 E1. rewrite Z.mul_0_r, Z.add_0_r, Z.eqb_refl. wp_step.
    exists T1, l1, 1%nat. split_and!; [done..|lia| |by left|done].
    eapply tabled_mono; [|done]. intros i ->. rewrite PDX_spec by lia. lia.
  - intros s1 T1 AS1 G1 -> Tb1 E1. exists T1, [], 0%nat.
    split_and!; [done..|simpl; lia|by eapply tabled_mono; [apply HI|]|by right; split_and!; [..|lia|simpl; lia]|].
    intros va _. rewrite maps_0. apply E1.
  - intros s1 T1 l1 AS1 G1 Hl Tb1 E1. rewrite (proj2 (Z.eqb_neq _ _)) by lia.
    rewrite !u32_small by lia. replace (A + 4096 * Z.of_nat (S n)) with (A + 4096 + 4096 * Z.of_nat n) by lia.
    eapply wp_mono; [apply (IH (A + 4096) (P + 4096) s1 T1 l1)|]; try done; try lia.
    + by rewrite Z.add_mod, HA by lia.
    + by rewrite Z.add_mod, HP by lia.
    + intros k Hk. rewrite E1 by lia. rewrite maps_1. rewrite decide_False.
      * specialize (Hn (S k) ltac:(lia)). rewrite <-Hn. do 2 f_equal. lia.
      * replace (A + PGSIZE + 4096 * Z.of_nat k) with (A + (1 + Z.of_nat k) * 4096) by lia.
        rewrite Z.div_add by lia. lia.
    + intros r s2 (T2 & l2 & j & AS2 & G2 & Hl2 & Tb2 & Hr & E2). exists T2, l2, (S j).
      split_and!; [done|by eapply grows_trans|lia| |intuition lia|].
      * eapply (tabled_trans (λ i, i = PDX A)); [|done|].
        { intros i Hi. destruct (HI (S n) ltac:(lia) i Hi). replace (A + 4096 + 4096 * Z.of_nat n) with (A + 4096 * Z.of_nat (S n)) by lia. done. }
        eapply tabled_mono; [|done]. simpl. intros i Hi. pose proof (Z.div_le_mono A (A + 4096) (2 ^ 22) ltac:(lia) ltac:(lia)). lia.
      * intros va Hva. rewrite E2, <-maps_step by done. apply maps_ext. by rewrite E1, maps_1.
Qed.

Lemma aligned_div a k : a mod 4096 = 0 → (a + 4096 * k) / 4096 = a / 4096 + k.
Proof. intros _. rewrite (Z.mul_comm 4096), Z.div_add by lia. done. Qed.

Lemma aligned_add a k : a mod 4096 = 0 → (a + 4096 * k) mod 4096 = 0.
Proof. intros H. by rewrite (Z.mul_comm 4096), Z_mod_plus_full. Qed.

Lemma page_dir va : 0 ≤ va → (va - va mod 4096) / 2 ^ 22 = va / 2 ^ 22.
Proof.
  intros Hva. replace (va - va mod 4096) with (4096 * (va / 4096)) by (pose proof (Z.div_mod va 4096); lia).
  change (2 ^ 22) with (4096 * 1024). by rewrite Z.div_mul_cancel_l, Z.div_div by lia.
Qed.

Lemma mappages_spec s d T l va size pa perm n :
  aspace s d T l → 0 ≤ va → 0 < size → va + size ≤ 2 ^ 32 →
  (va + size - 1) / 4096 = va / 4096 + Z.of_nat n →
  pa mod 4096 = 0 → 0 ≤ pa → pa + 4096 * (1 + Z.of_nat n) ≤ 2 ^ 32 → 0 ≤ perm < 4096 →
  (∀ k, (k ≤ n)%nat → hasb (pte (ks_mem s) T (va - va mod 4096 + 4096 * Z.of_nat k)) PTE_P = false) →
  wp (mappages d va size pa perm) (λ r s', ∃ T' l' j,
    aspace s' d T' l' ∧ grows s s' d T T' l l' ∧ (length l ≤ S n + length l')%nat ∧
    tabled (λ i, va / 2 ^ 22 ≤ i ≤ (va + size - 1) / 2 ^ 22) T T' l l' ∧
    ((r = 0 ∧ j = S n) ∨ (r = -1 ∧ l' = [] ∧ (j ≤ n)%nat ∧ (length l ≤ j)%nat)) ∧
    ∀ va', 0 ≤ va' < 2 ^ 32 →
      pte (ks_mem s') T' va' = maps (pte (ks_mem s) T) va pa perm j va') s.
Proof.
  intros AS Hva Hsz Hend Hn HP HP0 HP1 Hperm Habs. unfold mappages.
  assert (va < 2 ^ 32) by lia. rewrite (u32_small (va + size - 1)), !PGROUNDDOWN_spec by lia.
  pose proof (Z.mod_pos_bound va 4096 ltac:(lia)). pose proof (Z.div_mod va 4096 ltac:(lia)).
  pose proof (Z.mod_pos_bound (va + size - 1) 4096 ltac:(lia)).
  pose proof (Z.div_mod (va + size - 1) 4096 ltac:(lia)).
  set (A := va - va mod 4096) in *.
  assert (HA : A mod 4096 = 0) by (unfold A; by rewrite Zminus_mod, Z.mod_mod, Z.sub_diag by lia).
  assert (HA' : A / 4096 = va / 4096).
  { replace A with (va / 4096 * 4096) by (unfold A; lia). apply Z.div_mul. lia. }
  assert (Hlast : va + size - 1 - (va + size - 1) mod 4096 = A + 4096 * Z.of_nat n) by (unfold A; lia).
  rewrite Hlast. replace (u32 (A + 4096 * Z.of_nat n - A) / PGSIZE) with (Z.of_nat n); cycle 1.
  { rewrite u32_small by (unfold A in *; lia). apply Z.div_unique_exact; lia. }
  rewrite Nat2Z.id. assert (0 ≤ A) by (unfold A; lia).
  eapply wp_mono; [apply (mappages_loop_spec d perm n A pa s T l); try done; unfold A; lia|].
  intros r s' (T' & l' & j & ? & ? & ? & Tb & ? & E). exists T', l', j. split_and!; [done..| |done|].
  { eapply tabled_mono; [|exact Tb]. simpl. intros i. rewrite <-Hlast. unfold A. rewrite !page_dir by lia. done. }
  intros va' Hva'. rewrite E by done. unfold maps. by rewrite HA'.
Qed.

(** A page taken from the free list for a mapping. *)
Lemma take_page s d T a l f p :
  aspace s d T (a :: l) → free_list (set_freelist f s) l →
  let s' := set_mem (<[a:=p]> (ks_mem s)) (set_freelist f s) in
  aspace s' d T l ∧ grows s s' d T T (a :: l) l ∧ outside d T l a ∧
  ∀ va, pte (ks_mem s') T va = pte (ks_mem s) T va.
Proof.
  intros A F s'. pose proof (fl_nodup _ _ (as_free _ _ _ _ A)) as [Hal Hnd]%NoDup_cons.
  pose proof (as_disj_d _ _ _ _ A) as [Hda Hdl]%not_elem_of_cons.
  assert (Hnew : ∀ i t, T !! i = Some t → t ≠ a).
  { intros i t Hi ->. apply (as_disj_t _ _ _ _ A i a Hi). by left. }
  split_and!.
  - split; simpl.
    + eapply dir_ok_mem; [apply A|by rewrite lookup_insert_ne|].
      intros i t Hi. rewrite lookup_insert_ne; [done|]. intros ->. by eapply Hnew.
    + apply free_list_mem; [done|]. intros b Hb. simpl. rewrite lookup_insert_ne; [done|]. by intros ->.
    + intros b Hb. apply (as_pages _ _ _ _ A). by right.
    + done.
    + intros i t Hi. pose proof (as_disj_t _ _ _ _ A i t Hi). set_solver.
  - split; [by eexists _, f|exists [a]; split; [done|by left]|done|].
    intros b (_ & [Hb _]%not_elem_of_cons & _). simpl. by rewrite lookup_insert_ne.
  - split_and!; [done..|]. intros i Hi. by eapply Hnew.
  - intros va. unfold pte, s'. cbn [ks_mem set_mem]. destruct (T !! PDX va) as [t|] eqn:E; [|done].
    rewrite lookup_total_insert_ne; [done|]. intros ->. by eapply Hnew.
Qed.

(** ** allocuvm *)

(** What [allocuvm] established for [n] pages from [A] on: [ps] are the new
    pages. *)
Record allocated (s s' : kstate) (d : Z) (T T' : gmap Z Z) (l l' : list Z) (A : Z) (ps : list Z) : Prop := {
  al_grows : grows s s' d T T' l l';
  al_from : ∀ a, a ∈ ps → (a ∈ l) ∧ outside d T' l' a;
  al_nodup : NoDup ps;
  al_pte : ∀ k a, ps !! k = Some a →
    pte (ks_mem s') T' (A + 4096 * Z.of_nat k) = v2p a + Z.lor (Z.lor PTE_W PTE_U) PTE_P ∧
    ks_mem s' !! a = Some (replicate 4096 0);
  al_other : ∀ va, 0 ≤ va < 2 ^ 32 →
    ¬ (A / 4096 ≤ va / 4096 < A / 4096 + Z.of_nat (length ps)) →
    pte (ks_mem s') T' va = pte (ks_mem s) T va;
}.

(** One more page: [a] was taken and mapped at [A], then [ps] above it. *)
Lemma allocated_cons s s1 s2 s3 d T T2 T3 a l l2 l3 A ps :
  A mod 4096 = 0 → 0 ≤ A → A + 4096 * (1 + Z.of_nat (length ps)) ≤ 2 ^ 32 →
  grows s s1 d T T (a :: l) l → grows s1 s2 d T T2 l l2 → outside d T l a → NoDup (a :: l) →
  ks_mem s1 !! a = Some (replicate 4096 0) →
  (∀ va, pte (ks_mem s1) T va = pte (ks_mem s) T va) →
  (∀ va, 0 ≤ va < 2 ^ 32 →
    pte (ks_mem s2) T2 va = maps (pte (ks_mem s1) T) A (v2p a) (Z.lor PTE_W PTE_U) 1 va) →
  allocated s2 s3 d T2 T3 l2 l3 (A + 4096) ps →
  allocated s s3 d T T3 (a :: l) l3 A (a :: ps).
Proof.
  intros HA HA0 Hlen G1 G2 O1 [Hal Hnd]%NoDup_cons Ha E1 E2 [G3 F3 N3 P3 X3].
  assert (Sub : ∀ b, b ∈ l2 → b ∈ l).
  { destruct (gr_free _ _ _ _ _ _ _ G2) as (k & -> & _). intros b Hb. apply elem_of_app. by right. }
  assert (Hdiv : (A + 4096) / 4096 = A / 4096 + 1) by (by apply (aligned_div A 1)).
  pose proof (outside_mono _ _ _ _ _ _ _ _ G2 O1) as O2. split.
  - by eapply grows_trans, grows_trans.
  - intros b [->|Hb]%elem_of_cons; [split; [by left|by eapply outside_mono]|].
    destruct (F3 b Hb) as [Hb1 Hb2]. split; [right; by apply Sub|done].
  - constructor; [|done]. intros Hin. destruct (F3 a Hin) as [Hin' _]. by apply Hal, Sub.
  - intros [|k] b Hk; simplify_eq/=.
    + rewrite Z.mul_0_r, Z.add_0_r, X3, E2, maps_1, decide_True by (rewrite ?Hdiv; lia || done).
      split; [done|]. rewrite (gr_mem _ _ _ _ _ _ _ G3) by done.
      by rewrite (gr_mem _ _ _ _ _ _ _ G2).
    + replace (A + 4096 * Z.of_nat (S k)) with (A + 4096 + 4096 * Z.of_nat k) by lia. by apply P3.
  - intros va Hva Hr. simpl length in Hr. rewrite X3, E2, maps_1, decide_False, E1 by (rewrite ?Hdiv; lia).
    done.
Qed.

Lemma allocuvm_loop_spec d newsz n : ∀ A s T l,
  aspace s d T l → A mod 4096 = 0 → 0 ≤ A → newsz < KERNBASE →
  newsz ≤ A + 4096 * Z.of_nat n < newsz + 4096 →
  (2 * n ≤ length l)%nat →
  (∀ k, (k < n)%nat → hasb (pte (ks_mem s) T (A + 4096 * Z.of_nat k)) PTE_P = false) →
  wp (allocuvm_loop d A newsz (S n)) (λ r s', r = true ∧ ∃ T' l' ps,
    length ps = n ∧ aspace s' d T' l' ∧ (length l ≤ 2 * n + length l')%nat ∧
    allocated s s' d T T' l l' A ps) s.
Proof.
  induction n as [|n IH]; intros A s T l AS HA HA0 Hk Hsz Hl Habs.
  { cbn [allocuvm_loop]. rewrite (proj2 (Z.ltb_ge _ _)) by lia. cbn [negb]. wp_step. split; [done|].
    exists T, l, []. split_and!; [done|done|simpl; lia|]. 
    split; [apply grows_refl|by intros ? ?%not_elem_of_nil|constructor|done|done]. }
  cbn [allocuvm_loop]. rewrite (proj2 (Z.ltb_lt A newsz)) by lia. cbn [negb].
  destruct l as [|a l]; [simpl in Hl; lia|].
  wp_call (kalloc_list (a :: l)); [apply AS|]. cbn [hd tail]. intros r s1 (-> & F1 & _ & f & ->).
  pose proof (as_pages _ _ _ _ AS a ltac:(by left)) as Ha. destruct (kpage_v2p_aligned a Ha) as [Hpa Hpr].
  rewrite (proj2 (Z.eqb_neq a 0)) by (destruct Ha; lia).
  destruct (links_mem _ _ _ a (fl_links _ _ (as_free _ _ _ _ AS)) ltac:(by left)) as [q Hq].
  unfold zero_page. wp_step. eapply wp_upd_page; [done|].
  destruct (take_page s d T a l f (replicate 4096 0) AS F1) as (AS1 & G1 & O1 & E1).
  set (s1 := set_mem _ (set_freelist f s)) in *. simpl in Hl.
  wp_call (mappages_spec s1 d T l A 4096 (v2p a) (Z.lor PTE_W PTE_U) 0); try done; try lia.
  - rewrite Z.add_0_r. replace (A + 4096 - 1) with (4095 + (A / 4096) * 4096)
      by (pose proof (Z.div_mod A 4096); lia). by rewrite Z.div_add by lia.
  - intros k Hk'. assert (k = 0%nat) as -> by lia. rewrite HA, E1, Z.sub_0_r. apply Habs. lia.
  - intros r s2 (T2 & l2 & j & AS2 & G2 & Hl2 & _ & Hr & E2).
    destruct Hr as [[-> ->]|(_ & _ & ? & ?)]; [|lia].
    rewrite u32_small by lia.
    eapply wp_mono; [apply (IH (A + 4096) s2 T2 l2); try done; try lia|].
    + by rewrite Z.add_mod, HA by lia.
    + intros k Hk'. replace (A + 4096 + 4096 * Z.of_nat k) with (A + 4096 * (1 + Z.of_nat k)) by lia.
      rewrite E2, maps_1, decide_False, E1 by (rewrite ?aligned_div by done; lia).
      rewrite <-(Habs (S k)) by lia. do 2 f_equal. lia.
    + intros r s3 (-> & T3 & l3 & ps & Hps & AS3 & Hl3 & L). split; [done|].
      exists T3, l3, (a :: ps). split_and!; [simpl; lia|done|simpl; lia|].
      apply (allocated_cons s s1 s2 s3 d T T2 T3 a l l2 l3 A ps); try done; [lia|apply AS|].
      unfold s1. cbn [ks_mem set_mem]. by rewrite lookup_insert_eq.
Qed.

Lemma allocuvm_spec s d T l oldsz newsz n :
  let A := PGROUNDUP oldsz in
  aspace s d T l → 0 ≤ oldsz ≤ newsz → newsz < KERNBASE → newsz ≤ A + 4096 * Z.of_nat n < newsz + 4096 →
  (2 * n ≤ length l)%nat →
  (∀ k, (k < n)%nat → hasb (pte (ks_mem s) T (A + 4096 * Z.of_nat k)) PTE_P = false) →
  wp (allocuvm d oldsz newsz) (λ r s', r = newsz ∧ ∃ T' l' ps,
    length ps = n ∧ aspace s' d T' l' ∧ allocated s s' d T T' l l' A ps) s.
Proof.
  intros A AS Hold Hnew Hn Hl Habs. unfold allocuvm.
  rewrite (proj2 (Z.leb_gt _ _)), (proj2 (Z.ltb_ge _ _)) by lia.
  destruct (PGROUNDUP_spec oldsz ltac:(lia)) as [HA HAr]. fold A in HA, HAr |- *.
  assert ((newsz - A + PGSIZE - 1) / PGSIZE = Z.of_nat n) as ->.
  { symmetry. apply (Z.div_unique _ _ _ (newsz - A + 4095 - 4096 * Z.of_nat n)); lia. }
  rewrite Nat2Z.id. wp_call (allocuvm_loop_spec d newsz n A s T l); try done; try lia.
  intros r s' (-> & T' & l' & ps & ? & ? & _ & ?). wp_step. split; [done|]. by exists T', l', ps.
Qed.

(** ** deallocuvm *)

(** One turn of the loop on a page that is mapped to [a]. *)
Lemma free_mapped s d T l va a f v (Q : () → kstate → Prop) t :
  aspace s d T l → T !! PDX va = Some t → 0 ≤ va < 2 ^ 32 → page_ok a → kpage a → outside d T l a →
  0 ≤ f < 4096 → hasb f PTE_P = true → v = v2p a + f →
  (∀ s', aspace s' d T (a :: l) → (∃ f m, s' = set_freelist f (set_mem m s)) →
    (∀ b, b ≠ a → outside d T l b → ks_mem s' !! b = ks_mem s !! b) →
    (∀ va', 0 ≤ va' < 2 ^ 32 →
      pte (ks_mem s') T va' = if decide (va' / 4096 = va / 4096) then 0 else pte (ks_mem s) T va') →
    Q () s') →
  wp (when (hasb v PTE_P) (
        let pa := PTE_ADDR v in
        if pa =? 0 then panic "kfree" else kfree (p2v pa);; set_word (t + 4 * PTX va) 0)) Q s.
Proof.
  intros AS Ht Hva Hok Ha (Had & Hal & HaT) Hf Hfp -> HQ.
  destruct (kpage_v2p_aligned a Ha) as [Hpa Hpr].
  rewrite entry_flag, Hfp, entry_addr by (done || lia). unfold when. cbv zeta.
  rewrite (proj2 (Z.eqb_neq _ _)), kpage_p2v by (done || lia).
  wp_call (kfree_list a l); [done|destruct Ha; lia|done|apply AS|].
  intros [] s1 (F1 & M1 & f1 & m1 & ->). cbn [ks_mem set_freelist set_mem] in M1.
  assert (AS1 : aspace (set_freelist f1 (set_mem m1 s)) d T (a :: l)).
  { split; simpl; try done.
    - eapply dir_ok_mem; [apply AS|by apply M1; congruence|].
      intros i t' Hi. apply M1. intros ->. by apply (HaT i).
    - intros b [->|Hb]%elem_of_cons; [done|by apply (as_pages _ _ _ _ AS)].
    - apply not_elem_of_cons. split; [congruence|apply AS].
    - intros i t' Hi. apply not_elem_of_cons. split; [intros ->; by apply (HaT i)|by eapply as_disj_t]. }
  assert (E1 : ∀ va', pte m1 T va' = pte (ks_mem s) T va').
  { intros va'. unfold pte. destruct (T !! PDX va') as [t'|] eqn:E; [|done].
    assert (t' ≠ a) by (intros ->; by apply (HaT (PDX va'))). by rewrite !lookup_total_alt, M1. }
  eapply (mappages_step _ d T (a :: l) va 0 (pte (ks_mem s) T) _ t); try done.
  intros s2 AS2 G2 E2. apply HQ; [done| | |done].
  - destruct (gr_frame _ _ _ _ _ _ _ G2) as (m & f' & ->). eauto.
  - intros b Hb Hb'. rewrite (gr_mem _ _ _ _ _ _ _ G2); [by apply M1|by apply outside_cons].
Qed.

Lemma deallocuvm_loop_spec d oldsz f ps : ∀ A s T l,
  aspace s d T l → A mod 4096 = 0 → 0 ≤ A → oldsz ≤ KERNBASE →
  oldsz ≤ A + 4096 * Z.of_nat (length ps) < oldsz + 4096 →
  0 ≤ f < 4096 → hasb f PTE_P = true → NoDup ps →
  (∀ a, a ∈ ps → page_ok a ∧ kpage a ∧ outside d T l a) →
  (∀ k a, ps !! k = Some a → pte (ks_mem s) T (A + 4096 * Z.of_nat k) = v2p a + f) →
  wp (deallocuvm_loop d A oldsz (S (length ps))) (λ _ s',
    aspace s' d T (reverse ps ++ l) ∧
    (∀ b, (b ∉ ps) → outside d T l b → ks_mem s' !! b = ks_mem s !! b) ∧
    ∀ va, 0 ≤ va < 2 ^ 32 → pte (ks_mem s') T va =
      if decide (A / 4096 ≤ va / 4096 < A / 4096 + Z.of_nat (length ps)) then 0
      else pte (ks_mem s) T va) s.
Proof.
  induction ps as [|a ps IH]; intros A s T l AS HA HA0 Hk Hsz Hf Hfp Hnd Hps Hpte.
  { cbn [deallocuvm_loop length]. simpl length in Hsz. rewrite (proj2 (Z.ltb_ge _ _)) by lia. cbn [negb].
    wp_step. split_and!; [done..|]. intros va Hva. rewrite decide_False; [done|]. simpl. lia. }
  cbn [length] in Hsz |- *. set (fuel := S (length ps)). cbn [deallocuvm_loop].
  rewrite (proj2 (Z.ltb_lt A oldsz)) by lia. cbn [negb].
  destruct (Hps a ltac:(by left)) as (Hok & Ha & Ho). destruct (kpage_v2p_aligned a Ha) as [Hpa Hpr].
  pose proof (Hpte 0%nat a eq_refl) as Hp0. rewrite Z.mul_0_r, Z.add_0_r in Hp0.
  destruct (T !! PDX A) as [t|] eqn:Et; cycle 1.
  { unfold pte in Hp0. rewrite Et in Hp0. lia. }
  wp_step. eapply walk_present; [done..|].
  destruct (do_tab _ _ _ (as_dir _ _ _ _ AS) _ _ Et) as ([_ Htr] & _). pose proof (PTX_range A).
  rewrite (proj2 (Z.eqb_neq _ 0)) by lia. wp_step. eapply wp_get_pte; [done..|]. wp_step.
  eapply (free_mapped s d T l A a f); try done; try lia.
  intros s1 AS1 _ M1 E1. rewrite u32_small by lia. apply NoDup_cons in Hnd as [Hna Hnd].
  assert (Hdiv : (A + 4096) / 4096 = A / 4096 + 1) by (by apply (aligned_div A 1)).
  eapply wp_mono; [apply (IH (A + 4096) s1 T (a :: l)); try done; try lia|].
  - by rewrite Z.add_mod, HA by lia.
  - intros b Hb. destruct (Hps b ltac:(by right)) as (? & ? & ?). split_and!; [done..|].
    apply outside_cons; [|done]. by intros ->.
  - intros k b Hb. pose proof (lookup_lt_Some _ _ _ Hb) as Hlt.
    replace (A + 4096 + 4096 * Z.of_nat k) with (A + 4096 * Z.of_nat (S k)) by lia.
    rewrite E1, decide_False by (rewrite ?aligned_div by done; lia). by apply Hpte.
  - intros [] s2 (AS2 & M2 & E2). rewrite reverse_cons, <-app_assoc. split_and!; [done| |].
    + intros b [Hb1 Hb2]%not_elem_of_cons Hb. rewrite M2; [by apply M1|done|by apply outside_cons].
    + intros va Hva. rewrite E2, Hdiv by done. cbn [length].
      repeat case_decide; rewrite ?E1 by done; rewrite ?decide_True, ?decide_False by lia; try lia; try done.
Qed.

(** C15: growing and shrinking an address space.  With enough free pages
    [allocuvm] returns the new size; each page of the new part is mapped,
    writable for the user, to a page of its own that was free and is now all
    zeros, and no other mapping changes.  [deallocuvm] back to the old size
    returns it, puts exactly those pages on the free list again and leaves no
    entry in the part given up. *)
Theorem allocuvm_deallocuvm s d T l oldsz newsz n :
  let A := PGROUNDUP oldsz in
  aspace s d T l → (∀ a, a ∈ l → page_ok a) → 0 ≤ oldsz ≤ newsz → newsz < KERNBASE →
  newsz ≤ A + 4096 * Z.of_nat n < newsz + 4096 → (2 * n ≤ length l)%nat →
  (∀ k, (k < n)%nat → hasb (pte (ks_mem s) T (A + 4096 * Z.of_nat k)) PTE_P = false) →
  wp (allocuvm d oldsz newsz) (λ r s1, r = newsz ∧ ∃ T1 l1 ps,
    length ps = n ∧ aspace s1 d T1 l1 ∧ allocated s s1 d T T1 l l1 A ps ∧
    wp (deallocuvm d newsz oldsz) (λ r s2, r = oldsz ∧ aspace s2 d T1 (reverse ps ++ l1) ∧
      (∀ b, (b ∉ ps) → outside d T1 l1 b → ks_mem s2 !! b = ks_mem s1 !! b) ∧
      ∀ va, 0 ≤ va < 2 ^ 32 → pte (ks_mem s2) T1 va =
        if decide (A / 4096 ≤ va / 4096 < A / 4096 + Z.of_nat n) then 0
        else pte (ks_mem s) T va) s1) s.
Proof.
  intros A AS Hpg Hold Hnew Hn Hl Habs.
  eapply wp_mono; [by eapply allocuvm_spec|]. intros r s1 (-> & T1 & l1 & ps & Hps & AS1 & L).
  split; [done|]. exists T1, l1, ps. split_and!; [done..|].
  destruct (PGROUNDUP_spec oldsz ltac:(lia)) as [HA HAr]. fold A in HA, HAr.
  assert (Hother : ∀ va, 0 ≤ va < 2 ^ 32 →
    ¬ (A / 4096 ≤ va / 4096 < A / 4096 + Z.of_nat n) → pte (ks_mem s1) T1 va = pte (ks_mem s) T va).
  { intros va Hva Hr. apply (al_other _ _ _ _ _ _ _ _ _ L); [done|by rewrite Hps]. }
  unfold deallocuvm. destruct (Z.leb_spec newsz oldsz) as [Hle|Hlt].
  - assert (n = 0%nat) as -> by lia. destruct ps; [|done]. wp_step. split_and!; [lia|done|done|].
    intros va Hva. rewrite decide_False by lia. apply Hother; [done|lia].
  - fold A. assert ((newsz - A + PGSIZE - 1) / PGSIZE = Z.of_nat (length ps)) as ->.
    { symmetry. apply (Z.div_unique _ _ _ (newsz - A + 4095 - 4096 * Z.of_nat n)); lia. }
    rewrite Nat2Z.id. wp_call (deallocuvm_loop_spec d newsz (Z.lor (Z.lor PTE_W PTE_U) PTE_P) ps A s1 T1 l1);
      try done; try lia.
    + apply L.
    + intros a Ha. destruct (al_from _ _ _ _ _ _ _ _ _ L a Ha) as [Hal Ho].
      split_and!; [by apply Hpg|by apply (as_pages _ _ _ _ AS)|done].
    + intros k a Hk. by apply (al_pte _ _ _ _ _ _ _ _ _ L).
    + intros [] s2 (AS2 & M2 & E2). wp_step. split_and!; [done..|]. intros va Hva.
      rewrite E2, Hps by done. case_decide; [done|by apply Hother].
Qed.

(** [allocuvm] does not look at the result of [mappages].  When the last
    free page is taken for user memory and a page table is needed as well,
    the call returns the new size as if it had succeeded; no entry was
    written, and the page is lost to the allocator. *)
Theorem allocuvm_unmapped s d T a oldsz newsz :
  let A := PGROUNDUP oldsz in
  aspace s d T [a] → 0 ≤ oldsz ≤ newsz → newsz < KERNBASE → A < newsz ≤ A + 4096 →
  T !! PDX A = None →
  wp (allocuvm d oldsz newsz) (λ r s', r = newsz ∧ aspace s' d T [] ∧ outside d T [] a ∧
    ∀ va, pte (ks_mem s') T va = pte (ks_mem s) T va) s.
Proof.
  intros A AS Hold Hnew HA1 Ht. unfold allocuvm.
  rewrite (proj2 (Z.leb_gt _ _)), (proj2 (Z.ltb_ge _ _)) by lia.
  destruct (PGROUNDUP_spec oldsz ltac:(lia)) as [HA HAr]. fold A in HA, HAr |- *.
  assert ((newsz - A + PGSIZE - 1) / PGSIZE = 1) as ->.
  { symmetry. apply (Z.div_unique _ _ _ (newsz - A - 1)); lia. }
  change (Z.to_nat 1) with 1%nat. cbn [allocuvm_loop]. rewrite (proj2 (Z.ltb_lt A newsz)) by lia. cbn [negb].
  wp_step. wp_call (kalloc_list [a]); [apply AS|]. cbn [hd tail]. intros r s1 (-> & F1 & _ & f & ->).
  pose proof (as_pages _ _ _ _ AS a ltac:(by left)) as Ha. destruct (kpage_v2p_aligned a Ha) as [Hpa Hpr].
  rewrite (proj2 (Z.eqb_neq a 0)) by (destruct Ha; lia).
  destruct (links_mem _ _ _ a (fl_links _ _ (as_free _ _ _ _ AS)) ltac:(by left)) as [q Hq].
  unfold zero_page. wp_step. eapply wp_upd_page; [done|].
  destruct (take_page s d T a [] f (replicate 4096 0) AS F1) as (AS1 & G1 & O1 & E1).
  set (s1 := set_mem _ (set_freelist f s)) in *.
  assert (W : wp (walkpgdir d A true) (λ r s', r = 0 ∧ s' = s1) s1).
  { pose proof (as_dir _ _ _ _ AS1) as D. destruct (do_dir _ _ _ D) as (p & Hp & _ & Hd).
    specialize (Hd _ (PDX_range A)). rewrite Ht in Hd. unfold walkpgdir. wp_step.
    eapply wp_get_word; [apply (do_page _ _ _ D)|apply PDX_range|done|]. rewrite Hd. cbn [negb].
    pose proof (fl_links _ _ (as_free _ _ _ _ AS1) : ks_freelist s1 = 0) as F0.
    wp_call (kalloc_spec s1); [apply AS1|by rewrite F0|]. intros r s2 [-> ->]. rewrite F0. cbn [Z.eqb]. by wp_step. }
  wp_step. unfold mappages. rewrite PGROUNDDOWN_spec by lia. rewrite HA, Z.sub_0_r. cbn [mappages_loop].
  wp_call W. intros r s2 [-> ->]. cbn [Z.eqb]. wp_step.
  rewrite u32_small, (proj2 (Z.ltb_ge _ newsz)) by lia. cbn [negb]. wp_steps. split_and!; done.
Qed.

(** ** User memory *)

(** The page a user access to [va] reaches, and the byte there. *)
Definition upage (m : gmap Z (list Z)) (T : gmap Z Z) (va : Z) : option Z :=
  let v := pte m T va in
  if hasb v PTE_P && hasb v PTE_U then Some (p2v (PTE_ADDR v)) else None.

Definition ubyte (m : gmap Z (list Z)) (T : gmap Z Z) (va : Z) : option Z :=
  a ← upage m T va;
  p ← m !! a;
  p !! Z.to_nat (va mod 4096).

(** User pages are pages of their own. *)
Record uspace (s : kstate) (d : Z) (T : gmap Z Z) (l : list Z) : Prop := {
  us_space : aspace s d T l;
  us_page : ∀ va a, 0 ≤ va < 2 ^ 32 → upage (ks_mem s) T va = Some a →
    a ≠ 0 ∧ outside d T l a ∧ ∃ p, ks_mem s !! a = Some p ∧ length p = 4096%nat;
  us_inj : ∀ va va' a, 0 ≤ va < 2 ^ 32 → 0 ≤ va' < 2 ^ 32 →
    upage (ks_mem s) T va = Some a → upage (ks_mem s) T va' = Some a → va / 4096 = va' / 4096;
}.

Lemma pte_page m T va va' :
  0 ≤ va < 2 ^ 32 → 0 ≤ va' < 2 ^ 32 → va / 4096 = va' / 4096 → pte m T va = pte m T va'.
Proof.
  intros H H' E. unfold pte. assert (PDX va = PDX va') as ->.
  { rewrite !PDX_spec by done. change (2 ^ 22) with (4096 * 1024). by rewrite <-!Z.div_div, E by lia. }
  by rewrite !PTX_spec, E.
Qed.

Lemma pte_outside m d T l a p va : outside d T l a → pte (<[a:=p]> m) T va = pte m T va.
Proof.
  intros (_ & _ & Ha). unfold pte. destruct (T !! PDX va) as [t|] eqn:E; [|done].
  rewrite lookup_total_insert_ne; [done|]. intros ->. by apply (Ha (PDX va)).
Qed.

Lemma aspace_write s d T l a q : aspace s d T l → outside d T l a → aspace (set_mem (<[a:=q]> (ks_mem s)) s) d T l.
Proof.
  intros AS (Hd & Hl & HT). split; simpl; [|..|apply AS|apply AS|apply AS].
  - eapply dir_ok_mem; [apply AS|by rewrite lookup_insert_ne|].
    intros i t Hi. rewrite lookup_insert_ne; [done|]. intros ->. by apply (HT i).
  - apply free_list_mem; [apply AS|]. intros b Hb. rewrite lookup_insert_ne; [done|]. by intros ->.
Qed.

Lemma uspace_write s d T l a p q :
  uspace s d T l → outside d T l a → ks_mem s !! a = Some p → length q = 4096%nat →
  uspace (set_mem (<[a:=q]> (ks_mem s)) s) d T l.
Proof.
  intros [AS U1 U2] Ho Hp Hq. pose proof (λ va, pte_outside (ks_mem s) d T l a q va Ho) as E.
  split; [by apply aspace_write|..].
  - intros va b Hva. unfold upage. cbn [ks_mem set_mem]. rewrite E. intros Hb.
    destruct (U1 va b Hva Hb) as (? & ? & r & ? & ?). split_and!; [done..|].
    destruct (decide (b = a)) as [->|]; [exists q; by rewrite lookup_insert_eq|].
    exists r. by rewrite lookup_insert_ne.
  - intros va va' b Hva Hva'. unfold upage. cbn [ks_mem set_mem]. rewrite !E. by apply U2.
Qed.

(** Writing [src] at offset [o] of the page of [va]: the bytes of user memory
    that change are the [src] ones. *)
Lemma ubyte_write s d T l va a p src o va' :
  uspace s d T l → 0 ≤ va < 2 ^ 32 → 0 ≤ va' < 2 ^ 32 → upage (ks_mem s) T va = Some a →
  ks_mem s !! a = Some p → va mod 4096 = Z.of_nat o → (o + length src ≤ 4096)%nat →
  ubyte (<[a:=splice o src p]> (ks_mem s)) T va' =
  if decide (va ≤ va' < va + Z.of_nat (length src)) then src !! Z.to_nat (va' - va)
  else ubyte (ks_mem s) T va'.
Proof.
  intros U Hva Hva' Hup Hp Ho Hlen. destruct (us_page _ _ _ _ U va a Hva Hup) as (_ & Hout & p' & Hp' & Hl).
  simplify_eq. pose proof (λ v, pte_outside (ks_mem s) d T l a (splice o src p) v Hout) as E.
  unfold ubyte. assert (upage (<[a:=splice o src p]> (ks_mem s)) T va' = upage (ks_mem s) T va') as ->
    by (unfold upage; by rewrite E).
  pose proof (Z.div_mod va 4096 ltac:(lia)). pose proof (Z.div_mod va' 4096 ltac:(lia)).
  pose proof (Z.mod_pos_bound va' 4096 ltac:(lia)).
  destruct (decide (va / 4096 = va' / 4096)) as [Epg|Epg].
  - assert (Hup' : upage (ks_mem s) T va' = Some a).
    { rewrite <-Hup. unfold upage. by rewrite (pte_page _ _ va' va). }
    rewrite Hup'. cbn [mbind option_bind]. rewrite lookup_insert_eq, Hp. cbn [mbind option_bind].
    rewrite lookup_splice by lia. case_decide as D1; case_decide as D2; try lia; [|done]. f_equal. lia.
  - rewrite decide_False by lia. destruct (upage (ks_mem s) T va') as [b|] eqn:Hb; [|done]. cbn [mbind option_bind].
    rewrite lookup_insert_ne; [done|]. intros ->. apply Epg. by eapply (us_inj _ _ _ _ U).
Qed.

Lemma uva2ka_spec s d T l va a (Q : Z → kstate → Prop) :
  aspace s d T l → upage (ks_mem s) T va = Some a → Q a s → wp (uva2ka d va) Q s.
Proof.
  intros AS Hup HQ. unfold upage in Hup. destruct (T !! PDX va) as [t|] eqn:Et; cycle 1.
  { unfold pte in Hup. by rewrite Et in Hup. }
  unfold uva2ka. wp_step. eapply walk_present; [done..|]. wp_step. eapply wp_get_pte; [done..|].
  destruct (hasb (pte _ _ _) PTE_P); [|done]. destruct (hasb (pte _ _ _) PTE_U); [|done].
  injection Hup as ->. cbn [negb]. by wp_step.
Qed.

Lemma copyout_loop_spec d T l n : ∀ va p s,
  uspace s d T l → 0 ≤ va → va + Z.of_nat (length p) ≤ KERNBASE →
  (va mod 4096 + Z.of_nat (length p) ≤ 4096 * Z.of_nat n) →
  (∀ v, va ≤ v < va + Z.of_nat (length p) → is_Some (upage (ks_mem s) T v)) →
  wp (copyout_loop d va p (Z.of_nat (length p)) (S n)) (λ r s', r = 0 ∧ uspace s' d T l ∧
    ∀ v, 0 ≤ v < 2 ^ 32 → ubyte (ks_mem s') T v =
      if decide (va ≤ v < va + Z.of_nat (length p)) then p !! Z.to_nat (v - va)
      else ubyte (ks_mem s) T v) s.
Proof.
  induction n as [|n IH]; intros va p s U Hva Hend Hn Hmap;
    pose proof (Z.mod_pos_bound va 4096 ltac:(lia)) as Hm.
  { cbn [copyout_loop]. rewrite (proj2 (Z.ltb_ge _ _)) by lia. cbn [negb]. wp_step. split_and!; [done..|]. intros v Hv.
    by rewrite decide_False by lia. }
  set (fuel := S n). cbn [copyout_loop]. unfold fuel.
  destruct (Z.ltb_spec 0 (Z.of_nat (length p))) as [Hp|Hp]; cbn [negb]; cycle 1.
  { wp_step. split_and!; [done..|]. intros v Hv. by rewrite decide_False by lia. }
  rewrite !PGROUNDDOWN_spec by lia. set (va0 := va - va mod 4096).
  assert (Hva0 : 0 ≤ va0 ≤ va) by (pose proof (Z.mod_le va 4096); unfold va0; lia).
  destruct (Hmap va ltac:(lia)) as [a Ha].
  assert (Ha0 : upage (ks_mem s) T va0 = Some a).
  { rewrite <-Ha. unfold upage. rewrite (pte_page _ _ va0 va); [done|lia|lia|].
    replace va0 with (va / 4096 * 4096) by (pose proof (Z.div_mod va 4096); unfold va0; lia).
    by apply Z.div_mul. }
  destruct (us_page _ _ _ _ U va a ltac:(lia) Ha) as (Hne & Ho & q & Hq & Hlq).
  wp_step. eapply uva2ka_spec; [apply U|done|]. rewrite (proj2 (Z.eqb_neq a 0)) by done.
  replace (va - va0) with (va mod 4096) by (unfold va0; lia).
  set (k := Z.min (PGSIZE - va mod 4096) (Z.of_nat (length p))).
  assert (Hk : 0 < k ≤ Z.of_nat (length p) ∧ k ≤ 4096 - va mod 4096) by (unfold k; lia).
  unfold write_page. wp_step. eapply wp_upd_page; [done|].
  pose proof (ubyte_write s d T l va a q (take (Z.to_nat k) p) (Z.to_nat (va mod 4096))) as W.
  set (s1 := set_mem _ s).
  assert (U1 : uspace s1 d T l) by (eapply uspace_write; [done..|len]).
  pose proof (Z.div_mod va 4096 ltac:(lia)) as Hdm.
  assert (Hmod : (va0 + 4096) mod 4096 = 0).
  { replace (va0 + 4096) with ((va / 4096 + 1) * 4096) by (unfold va0; lia). by apply Z.mod_mul. }
  assert (Hnext : k < Z.of_nat (length p) → va + k = va0 + 4096) by (unfold va0, k; lia).
  rewrite u32_small by lia.
  assert (Hdrop : Z.of_nat (length (drop (Z.to_nat k) p)) = Z.of_nat (length p) - k) by len.
  rewrite <-Hdrop. eapply wp_mono; [apply (IH (va0 + 4096) (drop (Z.to_nat k) p) s1 U1)|].
  - lia.
  - rewrite Hdrop. unfold va0, k in *. lia.
  - rewrite Hmod, Hdrop. unfold k. lia.
  - rewrite Hdrop. intros v Hv. unfold s1, upage. cbn [ks_mem set_mem].
    rewrite (pte_outside _ d T l) by done. apply Hmap. unfold va0, k in *. lia.
  - intros r s2 (-> & U2 & E2). split_and!; [done..|]. intros v Hv. rewrite E2, Hdrop by done.
    unfold s1. cbn [ks_mem set_mem]. rewrite W by (done || lia || len). rewrite length_take.
    rewrite Nat.min_l by lia. rewrite Z2Nat.id by lia.
    repeat case_decide; try lia; try done.
    + rewrite lookup_drop. f_equal. lia.
    + rewrite lookup_take_lt by lia. done.
Qed.

(** [copyout], with the number of turns its range needs. *)
Lemma copyout_spec s d T l va p :
  uspace s d T l → 0 ≤ va → va + Z.of_nat (length p) ≤ KERNBASE →
  (∀ v, va ≤ v < va + Z.of_nat (length p) → is_Some (upage (ks_mem s) T v)) →
  wp (copyout d va p) (λ r s', r = 0 ∧ uspace s' d T l ∧
    ∀ v, 0 ≤ v < 2 ^ 32 → ubyte (ks_mem s') T v =
      if decide (va ≤ v < va + Z.of_nat (length p)) then p !! Z.to_nat (v - va)
      else ubyte (ks_mem s) T v) s.
Proof.
  intros U Hva Hend Hmap. unfold copyout. apply (copyout_loop_spec d T l); try done.
  pose proof (Z.mod_pos_bound va 4096 ltac:(lia)).
  pose proof (Z.div_mod (va mod PGSIZE + Z.of_nat (length p) + PGSIZE - 1) PGSIZE ltac:(lia)).
  pose proof (Z.mod_pos_bound (va mod PGSIZE + Z.of_nat (length p) + PGSIZE - 1) PGSIZE ltac:(lia)).
  rewrite Z2Nat.id; [lia|]. apply Z.div_pos; lia.
Qed.

(** C16: [copyout].  If every page of the target range is mapped for the user
    in [pgdir], [copyout] returns 0; reading user memory afterwards gives the
    bytes that were copied inside the range, and what was there before
    everywhere else. *)
Theorem copyout_reads_back s d T l va p :
  uspace s d T l → 0 ≤ va → va + Z.of_nat (length p) ≤ KERNBASE →
  (∀ v, va ≤ v < va + Z.of_nat (length p) → is_Some (upage (ks_mem s) T v)) →
  wp (copyout d va p) (λ r s', r = 0 ∧ uspace s' d T l ∧
    ∀ v, 0 ≤ v < 2 ^ 32 → ubyte (ks_mem s') T v =
      if decide (va ≤ v < va + Z.of_nat (length p)) then p !! Z.to_nat (v - va)
      else ubyte (ks_mem s) T v) s.
Proof. apply copyout_spec. Qed.

(** [uva2ka] uses the result of [walkpgdir] without a test.  For an
    address whose page table does not exist the entry is read through the
    null pointer. *)
Theorem uva2ka_null s d T l va :
  aspace s d T l → T !! PDX va = None → ks_mem s !! 0 = None → uva2ka d va s = Fault.
Proof.
  intros AS Ht H0. assert (W : runs_to (walkpgdir d va false) s 0 s).
  { assert (wp (walkpgdir d va false) (λ r s', r = 0 ∧ s' = s) s) as W by (by eapply walk_absent).
    apply wp_runs in W as (r & s' & R & -> & ->). done. }
  unfold uva2ka. rewrite (bind_runs _ _ _ _ _ W).
  unfold get_word, get_page, mbind, M_bind, gets. change (0 - 0 mod PGSIZE) with 0. by rewrite H0.
Qed.
End Specs.

(** ** Witnesses *)

Module VmExample.
Import KallocExample.

(** A directory at [dir] with no page table, and the free pages [l]. *)
Definition dir : Z := 0x80200000.
Definition link_page (a : Z) : list Z := put32 0 a (replicate 4096 1).
Definition free2 : list Z := [0x80201000; 0x80202000].

Definition bare (l : list Z) (m : gmap Z (list Z)) : kstate :=
  set_freelist (hd 0 l) (set_mem (<[dir:=replicate 4096 0]> m) (bss [])).
Definition space2 : kstate :=
  bare free2 {[0x80201000 := link_page 0x80202000; 0x80202000 := link_page 0]}.
Definition space1 : kstate := bare [0x80201000] {[0x80201000 := link_page 0]}.

Lemma link_page_next a : 0 ≤ a < 2 ^ 32 → get32 0 (link_page a) = a.
Proof. intros H. unfold link_page. rewrite get_put32_eq by len. by apply u32_small. Qed.

Lemma bare_dir l m : dir_ok (ks_mem (bare l m)) dir ∅.
Proof.
  split.
  - split; [reflexivity|]. vm_compute. by split.
  - exists (replicate 4096 0). split; [apply lookup_insert_eq|]. split; [apply length_replicate|].
    intros i Hi. rewrite lookup_empty. unfold get32. rewrite get_le_zeros. reflexivity.
  - intros i t. by rewrite lookup_empty.
  - intros i j t. by rewrite lookup_empty.
Qed.

Lemma space2_ok : aspace space2 dir ∅ free2.
Proof.
  split; [apply bare_dir|split|..].
  - split; [reflexivity|]. split; [done|]. exists (link_page 0x80202000). split; [reflexivity|].
    rewrite link_page_next by lia. split; [reflexivity|]. split; [done|]. exists (link_page 0).
    split; [reflexivity|]. by rewrite link_page_next by lia.
  - apply NoDup_cons. split; [by intros ?%list_elem_of_singleton|apply NoDup_singleton].
  - repeat constructor; by vm_compute.
  - apply not_elem_of_nil.
  - intros a [->|[->|?%not_elem_of_nil]%elem_of_cons]%elem_of_cons; [..|done]; split; vm_compute; by try split.
  - by intros [?|[?|?%not_elem_of_nil]%elem_of_cons]%elem_of_cons.
  - intros i t. by rewrite lookup_empty.
Qed.

Lemma space1_ok : aspace space1 dir ∅ [0x80201000].
Proof.
  split; [apply bare_dir|split|..].
  - split; [reflexivity|]. split; [done|]. exists (link_page 0). split; [reflexivity|].
    by rewrite link_page_next by lia.
  - apply NoDup_singleton.
  - repeat constructor; by vm_compute.
  - apply not_elem_of_nil.
  - intros a ->%list_elem_of_singleton. split; vm_compute; by try split.
  - by intros ?%list_elem_of_singleton.
  - intros i t. by rewrite lookup_empty.
Qed.

(** A directory with one page table and one user page, at address 0. *)
Definition tab : Z := 0x80201000.
Definition frame : Z := 0x80202000.
Definition dir_page : list Z := put32 0 (v2p tab + 7) (replicate 4096 0).
Definition tab_page : list Z := put32 0 (v2p frame + 7) (replicate 4096 0).
Definition user : kstate :=
  set_mem {[dir := dir_page; tab := tab_page; frame := replicate 4096 0]} (bss []).
Definition tabs : gmap Z Z := {[0 := tab]}.

Lemma first_entry v i :
  0 ≤ v < 2 ^ 32 → 0 ≤ i →
  get32 (Z.to_nat (4 * i)) (put32 0 v (replicate 4096 0)) = if decide (i = 0) then v else 0.
Proof.
  intros Hv Hi. case_decide.
  - subst. change (Z.to_nat (4 * 0)) with 0%nat. rewrite get_put32_eq by len. by apply u32_small.
  - rewrite get_put32_ne by (len || lia). apply (get_le_zeros 4).
Qed.

Lemma tabs_lookup i t : tabs !! i = Some t → i = 0 ∧ t = tab.
Proof. unfold tabs. intros [<- <-]%lookup_singleton_Some. done. Qed.

Lemma user_dir : dir_ok (ks_mem user) dir tabs.
Proof.
  split.
  - split; [reflexivity|]. vm_compute. by split.
  - exists dir_page. split; [reflexivity|]. split; [unfold dir_page, put32; len|].
    intros i Hi. unfold tabs, dir_page. rewrite first_entry by (done || lia). case_decide.
    + subst. rewrite lookup_singleton_eq. by vm_compute.
    + by rewrite lookup_singleton_ne by done.
  - intros i t [-> ->]%tabs_lookup. split; [|split; [done|]].
    + split; vm_compute; by try split.
    + exists tab_page. split; [reflexivity|]. unfold tab_page, put32. len.
  - by intros i j t [-> _]%tabs_lookup [-> _]%tabs_lookup.
Qed.

Lemma user_upage va :
  0 ≤ va < 2 ^ 32 → upage (ks_mem user) tabs va = if decide (va / 4096 = 0) then Some frame else None.
Proof.
  intros Hva. unfold upage. assert (pte (ks_mem user) tabs va =
    if decide (va / 4096 = 0) then v2p frame + 7 else 0) as ->; [|case_decide; by vm_compute].
  unfold pte, tabs. destruct (decide (PDX va = 0)) as [Ed|Ed].
  - rewrite Ed, lookup_singleton_eq. change (ks_mem user !!! tab) with tab_page.
    pose proof (PTX_range va). unfold tab_page. rewrite first_entry by (done || lia).
    rewrite PDX_spec in Ed by done. change (2 ^ 22) with (4096 * 1024) in Ed.
    rewrite <-Z.div_div in Ed by lia. rewrite PTX_spec.
    pose proof (Z.div_mod (va / 4096) 1024 ltac:(lia)). repeat case_decide; lia || done.
  - rewrite lookup_singleton_ne by done. rewrite decide_False; [done|]. intros E. apply Ed.
    rewrite PDX_spec by done. change (2 ^ 22) with (4096 * 1024). by rewrite <-Z.div_div, E by lia.
Qed.

Lemma user_ok : uspace user dir tabs [].
Proof.
  split.
  - split; [apply user_dir|split|..]; try done; try apply not_elem_of_nil.
    + apply NoDup_nil_2.
    + by intros a ?%not_elem_of_nil.
    + intros; apply not_elem_of_nil.
  - intros va a Hva. rewrite user_upage by done. case_decide; [|done]. intros [= <-].
    split; [done|]. split; [split; [done|]; split; [apply not_elem_of_nil|]|].
    + by intros i [_ ?]%tabs_lookup.
    + exists (replicate 4096 0). split; [reflexivity|apply length_replicate].
  - intros va va' a Hva Hva'. rewrite !user_upage by done. by repeat case_decide; intros; simplify_eq; lia || done.
Qed.

End VmExample.
Import KallocExample VmExample.

Lemma allocuvm_deallocuvm_witness :
  wp (allocuvm dir 100 5000) (λ r s1, r = 5000 ∧ ∃ T1 l1 ps,
    length ps = 1%nat ∧ aspace s1 dir T1 l1 ∧ allocated space2 s1 dir ∅ T1 free2 l1 (PGROUNDUP 100) ps ∧
    wp (deallocuvm dir 5000 100) (λ r s2, r = 100 ∧ aspace s2 dir T1 (reverse ps ++ l1) ∧
      (∀ b, (b ∉ ps) → outside dir T1 l1 b → ks_mem s2 !! b = ks_mem s1 !! b) ∧
      ∀ va, 0 ≤ va < 2 ^ 32 → pte (ks_mem s2) T1 va =
        if decide (PGROUNDUP 100 / 4096 ≤ va / 4096 < PGROUNDUP 100 / 4096 + Z.of_nat 1) then 0
        else pte (ks_mem space2) ∅ va) s1) space2.
Proof.
  apply (allocuvm_deallocuvm space2 dir ∅ free2 100 5000 1).
  - apply space2_ok.
  - intros a [->|[->|?%not_elem_of_nil]%elem_of_cons]%elem_of_cons; [..|done]; repeat split; by vm_compute.
  - lia.
  - lia.
  - vm_compute. by split.
  - simpl. lia.
  - intros k Hk. unfold pte. by rewrite lookup_empty.
Defined.

Lemma allocuvm_unmapped_witness :
  wp (allocuvm dir 0 4096) (λ r s', r = 4096 ∧ aspace s' dir ∅ [] ∧ outside dir ∅ [] 0x80201000 ∧
    ∀ va, pte (ks_mem s') ∅ va = pte (ks_mem space1) ∅ va) space1.
Proof.
  apply (allocuvm_unmapped space1 dir ∅ 0x80201000 0 4096); [apply space1_ok|lia|lia|by vm_compute|reflexivity].
Defined.

Lemma copyout_reads_back_witness :
  wp (copyout dir 4090 [1; 2; 3; 4]) (λ r s', r = 0 ∧ uspace s' dir tabs [] ∧
    ∀ v, 0 ≤ v < 2 ^ 32 → ubyte (ks_mem s') tabs v =
      if decide (4090 ≤ v < 4090 + Z.of_nat (length [1; 2; 3; 4])) then [1; 2; 3; 4] !! Z.to_nat (v - 4090)
      else ubyte (ks_mem user) tabs v) user.
Proof.
  apply (copyout_reads_back user dir tabs [] 4090 [1; 2; 3; 4]); [apply user_ok|lia|simpl; lia|].
  intros v Hv. simpl in Hv. rewrite user_upage by lia. rewrite decide_True by (apply Z.div_small; lia). eauto.
Defined.

Lemma uva2ka_null_witness : uva2ka dir 0x400000 user = Fault.
Proof.
  apply (uva2ka_null user dir tabs [] 0x400000); [apply (us_space _ _ _ _ user_ok)|reflexivity|reflexivity].
Defined.
