(* ===== verification/Kvm.v ===== *)
(** * Kvm: the kernel's address space and its segments (vm.c, mmu.h)

    What [setupkvm] maps, and what the descriptors of [seginit] and
    [switchuvm] mean to the processor. *)

From S2P Require Import Prelude Bytes CString Kernel Sched Ide Bio Log Crash Block Inode Kalloc Print Vm.

#[local] Arguments replicate : simpl never.

(** ** The kernel part of a page table *)

(** The addresses kernel.ld gives: the data starts a page after the text. *)
Class LinkerOk `{Linker} : Prop := {
  ld_data_aligned : ld_data mod 4096 = 0;
  ld_data_range : KERNLINK < ld_data < KERNBASE + PHYSTOP;
}.

(** What the comment above [kmap] in vm.c promises: the memory at [KERNBASE],
    with the text and read-only data protected, and the devices at their own
    addresses; nothing below [KERNBASE], and nothing for the user. *)
Definition kernel_pte `{Linker} (va : Z) : Z :=
  let page := va - va mod 4096 in
  if (KERNBASE <=? va) && (va <? KERNBASE + PHYSTOP)
  then page - KERNBASE + (if (KERNLINK <=? va) && (va <? ld_data) then PTE_P else Z.lor PTE_W PTE_P)
  else if DEVSPACE <=? va then page + Z.lor PTE_W PTE_P else 0.

(** The entries after the regions of [l] were mapped, from the entries [g]. *)
Fixpoint kmaps (g : Z → Z) (l : list (Z * Z * Z * Z)) : Z → Z :=
  match l with
  | [] => g
  | (v, p0, p1, perm) :: l' => kmaps (maps g v p0 perm (Z.to_nat (u32 (p1 - p0) / 4096))) l'
  end.

(** A region that can be mapped where the entries are [g]. *)
Record region_ok (g : Z → Z) (v p0 p1 perm : Z) : Prop := {
  rg_v : v mod 4096 = 0 ∧ 2 ^ 31 ≤ v;
  rg_p : p0 mod 4096 = 0 ∧ 0 ≤ p0;
  rg_size : u32 (p1 - p0) mod 4096 = 0 ∧ 0 < u32 (p1 - p0);
  rg_end : v + u32 (p1 - p0) ≤ 2 ^ 32 ∧ p0 + u32 (p1 - p0) ≤ 2 ^ 32;
  rg_perm : 0 ≤ perm < 4096;
  rg_free : ∀ va, v ≤ va < v + u32 (p1 - p0) → g va = 0;
}.

Fixpoint regions_ok (g : Z → Z) (l : list (Z * Z * Z * Z)) : Prop :=
  match l with
  | [] => True
  | (v, p0, p1, perm) :: l' =>
      region_ok g v p0 p1 perm ∧ regions_ok (maps g v p0 perm (Z.to_nat (u32 (p1 - p0) / 4096))) l'
  end.

(** At most 512 page tables are for the kernel half. *)
Definition upper (T : gmap Z Z) : Prop := ∀ i, is_Some (T !! i) → 512 ≤ i < 1024.

Lemma upper_size T : upper T → (size T ≤ 512)%nat.
Proof.
  intros HT. rewrite <-size_dom. trans (size (list_to_set (seqZ 512 512) : gset Z)).
  - apply subseteq_size. intros i Hi%elem_of_dom. apply elem_of_list_to_set, elem_of_seqZ. specialize (HT i Hi). lia.
  - rewrite size_list_to_set by apply NoDup_seqZ. by rewrite length_seqZ.
Qed.

Section Setup.
Context `{Linker}.

Lemma setupkvm_loop_spec d regs : ∀ g s T l,
  aspace s d T l → (∀ va, 0 ≤ va < 2 ^ 32 → pte (ks_mem s) T va = g va) → regions_ok g regs → upper T →
  (512 < size T + length l)%nat →
  wp (setupkvm_loop d regs) (λ r s', r = d ∧ ∃ T' l', aspace s' d T' l' ∧ grows s s' d T T' l l' ∧ upper T' ∧
    (size T' + length l' = size T + length l)%nat ∧ ∀ va, 0 ≤ va < 2 ^ 32 → pte (ks_mem s') T' va = kmaps g regs va) s.
Proof.
  induction regs as [|[[[v p0] p1] perm] regs IH]; intros g s T l AS Hg Hr Hu Hl; cbn [setupkvm_loop].
  { wp_step. split; [done|]. exists T, l. split_and!; [done|apply grows_refl|done|done|done]. }
  destruct Hr as [[[V1 V2] [P1 P2] [Z1 Z2] [E1 E2] Hp Hf] Hr]. set (sz := u32 (p1 - p0)) in *.
  pose proof (Z.div_mod sz 4096 ltac:(lia)) as Hsz. set (n := (Z.to_nat (sz / 4096) - 1)%nat).
  assert (0 < sz / 4096) as Hn0 by (apply Z.div_str_pos; lia).
  assert (sz = 4096 * (1 + Z.of_nat n)) as Hn by (unfold n; lia).
  wp_call (mappages_spec s d T l v sz p0 perm n); try done; try lia.
  - pose proof (Z.div_mod v 4096 ltac:(lia)). rewrite Hn.
    replace (v + 4096 * (1 + Z.of_nat n) - 1) with (4095 + (v / 4096 + Z.of_nat n) * 4096) by lia. by rewrite Z.div_add by lia.
  - intros k Hk. rewrite V1, Z.sub_0_r, Hg by lia. by rewrite Hf by lia.
  - intros r s1 (T1 & l1 & j & AS1 & G1 & _ & Tb1 & Hres & E). destruct Tb1 as [Hcnt Hidx].
    assert (upper T1) as Hu1.
    { intros i Hi. destruct (Hidx i Hi) as [Hi'|[I1 I2]]; [by apply Hu|].
      pose proof (Z.div_le_mono (2 ^ 31) v (2 ^ 22) ltac:(lia) V2). change (2 ^ 31 / 2 ^ 22) with 512 in *.
      pose proof (Z.div_le_mono (v + sz - 1) (2 ^ 32 - 1) (2 ^ 22) ltac:(lia) ltac:(lia)).
      change ((2 ^ 32 - 1) / 2 ^ 22) with 1023 in *. lia. }
    pose proof (upper_size T1 Hu1). destruct Hres as [[-> ->]|(_ & -> & _)]; [|simpl in *; lia].
    change (0 <? 0) with false. cbn iota.
    eapply wp_mono; [apply (IH (maps g v p0 perm (Z.to_nat (sz / 4096))) s1 T1 l1); try done; [|lia]|].
    + intros va Hva. rewrite E by done. replace (S n) with (Z.to_nat (sz / 4096)) by lia. apply maps_ext. by apply Hg.
    + intros r s2 (-> & T2 & l2 & AS2 & G2 & Hu2 & Hc2 & E2'). split; [done|]. exists T2, l2.
      split_and!; [done|by eapply grows_trans|done|lia|done].
Qed.

Lemma maps_aligned g v P perm n va : v mod 4096 = 0 →
  maps g v P perm n va =
  if bool_decide (v ≤ va < v + 4096 * Z.of_nat n) then P + (va - va mod 4096 - v) + Z.lor perm PTE_P else g va.
Proof.
  intros Hv. unfold maps. pose proof (Z.div_mod v 4096 ltac:(lia)). pose proof (Z.div_mod va 4096 ltac:(lia)).
  pose proof (Z.mod_pos_bound va 4096 ltac:(lia)). repeat case_bool_decide; lia.
Qed.

Context `{!LinkerOk}.
Set Default Proof Using "All".

Lemma kmap_maps va : 0 ≤ va < 2 ^ 32 → kmaps (λ _, 0) kmap va = kernel_pte va.
Proof.
  intros Hva. destruct ld_data_range as [D1 D2]. pose proof ld_data_aligned as D3. unfold kmap, v2p. cbn [kmaps].
  rewrite !(u32_small (_ - KERNBASE)) by lia. change (u32 (EXTMEM - 0)) with EXTMEM. change (u32 (0 - DEVSPACE)) with 0x2000000.
  rewrite !u32_small by lia. pose proof (Z.mod_pos_bound va 4096 ltac:(lia)).
  assert (ld_data = 4096 * (ld_data / 4096)) as Hd by (pose proof (Z.div_mod ld_data 4096); lia). set (q := ld_data / 4096) in *.
  replace (Z.to_nat ((ld_data - KERNBASE - (KERNLINK - KERNBASE)) / 4096)) with (Z.to_nat (q - 0x80100))
    by (rewrite Hd; replace (4096 * q - KERNBASE - (KERNLINK - KERNBASE)) with ((q - 0x80100) * 4096) by lia; by rewrite Z.div_mul).
  replace (Z.to_nat ((PHYSTOP - (ld_data - KERNBASE)) / 4096)) with (Z.to_nat (0x8E000 - q))
    by (rewrite Hd; replace (PHYSTOP - (4096 * q - KERNBASE)) with ((0x8E000 - q) * 4096) by lia; by rewrite Z.div_mul).
  change (EXTMEM / 4096) with 0x100. change (0x2000000 / 4096) with 0x2000.
  rewrite !maps_aligned by done. unfold kernel_pte. rewrite !Z2Nat.id by lia. change (Z.lor PTE_W PTE_P) with 3. change (Z.lor 0 PTE_P) with 1.
  repeat case_bool_decide; repeat (cbn [andb]; match goal with
    | |- context [?a <=? ?b] => destruct (Z.leb_spec a b) | |- context [?a <? ?b] => destruct (Z.ltb_spec a b) end); cbn [andb]; lia.
Qed.

Lemma region_intro g v p0 p1 perm k :
  u32 (p1 - p0) = k * 4096 → 0 < k → v mod 4096 = 0 → 2 ^ 31 ≤ v → p0 mod 4096 = 0 → 0 ≤ p0 →
  v + k * 4096 ≤ 2 ^ 32 → p0 + k * 4096 ≤ 2 ^ 32 → 0 ≤ perm < 4096 → (∀ va, v ≤ va < v + k * 4096 → g va = 0) →
  region_ok g v p0 p1 perm.
Proof. intros E **. split; rewrite ?E, ?Z.mod_mul by done; split_and?; done || lia. Qed.

Lemma kmap_ok : regions_ok (λ _, 0) kmap.
Proof.
  destruct ld_data_range as [D1 D2]. pose proof ld_data_aligned as D3. unfold kmap, v2p. cbn [regions_ok].
  assert (ld_data = 4096 * (ld_data / 4096)) as Hd by (pose proof (Z.div_mod ld_data 4096); lia). set (q := ld_data / 4096) in *.
  rewrite !(u32_small (_ - KERNBASE)) by lia.
  assert (u32 (ld_data - KERNBASE - (KERNLINK - KERNBASE)) = (q - 0x80100) * 4096) as E1 by (rewrite u32_small; lia).
  assert (u32 (PHYSTOP - (ld_data - KERNBASE)) = (0x8E000 - q) * 4096) as E2 by (rewrite u32_small; lia).
  assert ((ld_data - KERNBASE) mod 4096 = 0) as E3.
  { rewrite Hd. replace (4096 * q - KERNBASE) with ((q - 0x80000) * 4096) by lia. by apply Z.mod_mul. }
  rewrite E1, E2. rewrite !Z.div_mul by lia. change (u32 (EXTMEM - 0) / 4096) with 0x100.
  split_and!; [eapply (region_intro _ _ _ _ _ 0x100)|eapply (region_intro _ _ _ _ _ (q - 0x80100))
    |eapply (region_intro _ _ _ _ _ (0x8E000 - q))|eapply (region_intro _ _ _ _ _ 0x2000)|done]; try done; try lia.
  all: intros va Hva; rewrite ?maps_aligned by done; rewrite ?Z2Nat.id by lia; rewrite !bool_decide_false by lia; done.
Qed.

(** ** setupkvm *)

(** A zeroed page is an empty directory. *)
Lemma empty_dir s d l : kpage d → ks_mem s !! d = Some (replicate 4096 0) → free_list s l → (∀ a, a ∈ l → kpage a) →
  d ∉ l → aspace s d ∅ l.
Proof.
  intros Hd Hm Hf Hk Hn. split; [|done|done|done|intros i t; by rewrite lookup_empty].
  split; [done| |intros i t; by rewrite lookup_empty|intros i j t; by rewrite lookup_empty].
  exists (replicate 4096 0). split; [done|]. split; [apply length_replicate|].
  intros i Hi. rewrite lookup_empty. unfold get32. by rewrite get_le_zeros.
Qed.

Lemma setupkvm_spec s l :
  free_list s l → (∀ a, a ∈ l → kpage a) → (514 ≤ length l)%nat →
  wp setupkvm (λ d s', ∃ T l', d = hd 0 l ∧ aspace s' d T l' ∧ grows (set_mem (<[d:=replicate 4096 0]> (ks_mem s)) s) s' d ∅ T (tail l) l' ∧
    upper T ∧ (size T + length l' = length (tail l))%nat ∧
    ∀ va, 0 ≤ va < 2 ^ 32 → pte (ks_mem s') T va = kernel_pte va) s.
Proof.
  intros Hl Hk Hn. destruct l as [|d l]; [simpl in Hn; lia|]. unfold setupkvm. cbn [hd tail].
  pose proof (fl_nodup _ _ Hl) as [Hnd _]%NoDup_cons. pose proof (Hk d ltac:(by left)) as Hd.
  destruct (links_mem _ _ _ d (fl_links _ _ Hl) ltac:(by left)) as [q Hq].
  wp_call (kalloc_list (d :: l) s Hl). cbn [hd tail]. intros r s1 (-> & F1 & _ & f & ->).
  rewrite (proj2 (Z.eqb_neq d 0)) by (destruct Hd; lia). unfold zero_page. wp_step. eapply wp_upd_page; [done|].
  change (DEVSPACE <? p2v PHYSTOP) with false. cbn iota. set (s1 := set_mem _ (set_freelist f s)).
  assert (aspace s1 d ∅ l) as AS.
  { apply empty_dir; [done|apply lookup_insert_eq| |set_solver|done]. apply free_list_mem; [done|]. intros a Ha. simpl.
    rewrite lookup_insert_ne; [done|]. by intros ->. }
  eapply wp_mono; [apply (setupkvm_loop_spec d kmap (λ _, 0) s1 ∅ l AS)|].
  - intros va _. unfold pte. by rewrite lookup_empty.
  - apply kmap_ok.
  - intros i [t Ht]. by rewrite lookup_empty in Ht.
  - rewrite map_size_empty. simpl in Hn. lia.
  - rewrite map_size_empty. intros r s2 (-> & T & l' & AS2 & G2 & Hu & Hc & E2). exists T, l'. split_and!; try done.
    + destruct G2 as [(m & f' & ->) G2 G3 G4]. split; [by exists m, f'|done|done|done].
    + intros va Hva. rewrite E2 by done. by apply kmap_maps.
Qed.

End Setup.

(** The bits of an entry: an aligned address and flags. *)
Lemma kernel_entry a f : a mod 4096 = 0 → f = 1 ∨ f = 3 → hasb (a + f) PTE_U = false ∧ hasb (a + f) PTE_P = true ∧
  hasb (a + f) PTE_W = bool_decide (f = 3) ∧ (0 ≤ a < 2 ^ 32 - 4096 → PTE_ADDR (a + f) = a).
Proof.
  intros Ha Hf. rewrite !entry_flag by (done || lia). destruct Hf as [-> | ->]; (split_and!; [done..|]); intros Ha';
    rewrite PTE_ADDR_spec, <-Zplus_mod_idemp_l, Ha, Z.mod_small by lia; lia.
Qed.

Lemma kernel_pte_meaning `{LinkerOk} va : 0 ≤ va < 2 ^ 32 → let e := kernel_pte va in
  hasb e PTE_U = false ∧ (va < KERNBASE → e = 0) ∧
  (KERNBASE ≤ va < KERNBASE + PHYSTOP → hasb e PTE_P = true ∧ p2v (PTE_ADDR e) = va - va mod 4096 ∧
    hasb e PTE_W = negb (bool_decide (KERNLINK ≤ va < ld_data))).
Proof.
  intros Hva e. destruct ld_data_range as [D1 D2]. pose proof (Z.mod_pos_bound va 4096 ltac:(lia)) as Hm.
  assert (∀ b, (va - va mod 4096 - b * 4096) mod 4096 = 0) as Hal.
  { intros b. rewrite <-(Z.mod_mul (va / 4096 - b) 4096) by lia. f_equal. pose proof (Z.div_mod va 4096). lia. }
  pose proof (Hal 0) as Hal0. pose proof (Hal 0x80000) as Hal1. rewrite Z.sub_0_r in Hal0. change (0x80000 * 4096) with KERNBASE in Hal1.
  unfold e, kernel_pte. change (Z.lor PTE_W PTE_P) with 3. destruct (Z.leb_spec KERNBASE va), (Z.ltb_spec va (KERNBASE + PHYSTOP)); cbn [andb].
  - assert (KERNBASE ≤ va - va mod 4096) as Hge.
    { pose proof (Z.div_le_mono KERNBASE va 4096 ltac:(lia) ltac:(lia)). pose proof (Z.div_mod va 4096). change (KERNBASE / 4096) with 0x80000 in *. lia. }
    destruct (Z.leb_spec KERNLINK va), (Z.ltb_spec va ld_data); cbn [andb]; [edestruct (kernel_entry _ 1 Hal1) as (F1 & F2 & F3 & F4); [by left|]|
      edestruct (kernel_entry _ 3 Hal1) as (F1 & F2 & F3 & F4); [by right|]..]; rewrite F1, F2, F3, F4 by lia;
      (split_and!; [done|lia|]; intros _; split_and!; [done|unfold p2v; rewrite u32_small; lia|]); repeat case_bool_decide; done || lia.
  - destruct (Z.leb_spec DEVSPACE va); [|split_and!; [done|done|lia]].
    destruct (kernel_entry _ 3 Hal0) as (F1 & _); [by right|]. rewrite F1. split_and!; [done|lia|lia].
  - destruct (Z.leb_spec DEVSPACE va); [lia|]. split_and!; [done|done|lia].
  - lia.
Qed.

(** C17: the page table [setupkvm] builds is the one vm.c describes.  Given 514
    free pages (one directory and at most 512 tables, whose number is exactly
    what it takes), it returns a directory in which every address has the entry
    [kernel_pte]: the physical memory at [KERNBASE], read-only for the text, the
    devices at their own addresses, and nothing else.  So no entry lets the user
    in, every page of memory is where [p2v] says, and the user half is empty. *)
Theorem setupkvm_maps `{LinkerOk} s l :
  free_list s l → (∀ a, a ∈ l → kpage a) → (514 ≤ length l)%nat →
  wp setupkvm (λ d s', ∃ T l', aspace s' d T l' ∧ (1 + size T + length l' = length l)%nat ∧
    ∀ va, 0 ≤ va < 2 ^ 32 → let e := pte (ks_mem s') T va in
      e = kernel_pte va ∧ hasb e PTE_U = false ∧ (va < KERNBASE → e = 0) ∧
      (KERNBASE ≤ va < KERNBASE + PHYSTOP → hasb e PTE_P = true ∧ p2v (PTE_ADDR e) = va - va mod 4096 ∧
        hasb e PTE_W = negb (bool_decide (KERNLINK ≤ va < ld_data)))) s.
Proof.
  intros Hl Hk Hn. eapply wp_mono; [by apply setupkvm_spec|].
  intros d s' (T & l' & _ & AS & _ & _ & Hc & E). exists T, l'. split_and!; [done|destruct l; simpl in *; lia|].
  intros va Hva e. assert (e = kernel_pte va) as -> by by apply E. split; [done|]. by apply kernel_pte_meaning.
Qed.

(** ** The memory of the first phase

    [kinit1] frees the pages between the end of the kernel and 4 MB. *)

Lemma length_pages_down p n : length (pages_down p n) = n.
Proof. revert p. induction n as [|n IH]; intros p; [done|]. simpl. rewrite length_app, IH. simpl. lia. Qed.

(** [freerange] from page [p] on, of pages that are not free yet. *)
Lemma freerange_pages `{Linker} vstart vend s l n : let p := PGROUNDUP vstart in
  KERNBASE < ld_end ≤ vstart → vstart ≤ vend → vend ≤ KERNBASE + PHYSTOP → (vend - p) / 4096 = Z.of_nat n →
  (∀ a, a ∈ l → a < vstart) → free_list s l →
  wp (freerange vstart vend) (λ _ s', free_list s' (pages_down p n ++ l) ∧ (∀ a, a ∈ pages_down p n → kpage a ∧ p ≤ a) ∧
    (∀ a, a < vstart → ks_mem s' !! a = ks_mem s !! a) ∧ ∃ f m, s' = set_freelist f (set_mem m s)) s.
Proof.
  intros p [H1 Hs] Hp H2 Hn Hl Hf. destruct (PGROUNDUP_spec vstart) as (A1 & A2 & A3); [lia|]. fold p in A1, A2, A3.
  assert (∀ k, (k < n)%nat → let a := p + 4096 * Z.of_nat k in a mod 4096 = 0 ∧ vstart ≤ a ∧ a < vend) as Hk.
  { intros k Hk. cbv zeta. rewrite (Z.mul_comm 4096), Z_mod_plus_full. split_and!; [done|lia|].
    pose proof (Z.mul_div_le (vend - p) 4096 ltac:(lia)). lia. }
  unfold freerange. fold p. rewrite Hn, Nat2Z.id. eapply wp_mono; [apply (freerange_loop_list p n l); [|done]|].
  - intros k Hk'. destruct (Hk k Hk') as (K1 & K2 & K3). split_and!; [|lia|lia|intros Ha%Hl; lia].
    split_and!; [done|lia|]. unfold v2p. rewrite u32_small by lia. lia.
  - intros [] s' (Hs' & M & Fr). split_and!; [done| | |done].
    + intros a (k & Hk' & ->)%elem_of_pages_down. destruct (Hk k Hk') as (K1 & K2 & K3). split; [split; [done|lia]|lia].
    + intros a Ha. apply M. intros (k & Hk' & ->)%elem_of_pages_down. destruct (Hk k Hk') as (K1 & K2 & K3). lia.
Qed.

Lemma no_free s : ks_freelist s = 0 → ks_held s = [] → free_list s [].
Proof. intros Hf Hh. split; simpl; [done|constructor|constructor|rewrite Hh; set_solver]. Qed.

Module KvmExample.
Import KallocExample.

#[export] Instance linker_ok : LinkerOk.
Proof. split; [done|]. by vm_compute. Qed.

Lemma first_pages : ∃ s, free_list s (pages_down 0x80110000 752) ∧ ∀ a, a ∈ pages_down 0x80110000 752 → kpage a.
Proof.
  destruct (proj1 (wp_runs _ _ _) (freerange_pages 0x80110000 0x80400000 (bss []) [] 752 ltac:(done) ltac:(done) ltac:(done) ltac:(done)
    ltac:(set_solver) (no_free (bss []) eq_refl eq_refl))) as ([] & s & _ & Hf & Hk & _). rewrite app_nil_r in Hf.
  exists s. split; [done|]. intros a Ha. by apply Hk.
Qed.

Lemma setupkvm_maps_witness : ∃ s, wp setupkvm (λ d s', ∃ T l', aspace s' d T l' ∧ (1 + size T + length l' = 752)%nat ∧
  ∀ va, 0 ≤ va < 2 ^ 32 → let e := pte (ks_mem s') T va in
    e = kernel_pte va ∧ hasb e PTE_U = false ∧ (va < KERNBASE → e = 0) ∧
    (KERNBASE ≤ va < KERNBASE + PHYSTOP → hasb e PTE_P = true ∧ p2v (PTE_ADDR e) = va - va mod 4096 ∧
      hasb e PTE_W = negb (bool_decide (KERNLINK ≤ va < ld_data)))) s.
Proof.
  destruct first_pages as (s & Hf & Hk). exists s. rewrite <-(length_pages_down 0x80110000 752).
  apply (setupkvm_maps s (pages_down 0x80110000 752) Hf Hk). rewrite length_pages_down. lia.
Defined.

End KvmExample.

(** ** Segments

    What a descriptor means to the processor: the base address and the limit,
    the highest offset, in units of pages if [g] is set. *)

Definition seg_base (x : segdesc) : Z := sd_base_15_0 x + 2 ^ 16 * sd_base_23_16 x + 2 ^ 24 * sd_base_31_24 x.
Definition seg_limit (x : segdesc) : Z :=
  let l := sd_lim_15_0 x + 2 ^ 16 * sd_lim_19_16 x in if sd_g x =? 1 then l * 4096 + 4095 else l.

Lemma seg_fields base : 0 ≤ base < 2 ^ 32 →
  Z.land base 0xffff + 2 ^ 16 * Z.land (Z.shiftr base 16) 0xff + 2 ^ 24 * Z.shiftr base 24 = base.
Proof.
  intros Hb. change 0xffff with (Z.ones 16). change 0xff with (Z.ones 8). rewrite !Z.land_ones, !Z.shiftr_div_pow2 by lia.
  replace (2 ^ 24) with (2 ^ 16 * 2 ^ 8) by lia. rewrite <-Z.div_div by lia.
  pose proof (Z.div_mod base (2 ^ 16)). pose proof (Z.div_mod (base / 2 ^ 16) (2 ^ 8)). lia.
Qed.

Lemma SEG_spec t b l d : 0 ≤ b < 2 ^ 32 → 0 ≤ l < 2 ^ 32 →
  seg_base (SEG t b l d) = b ∧ seg_limit (SEG t b l d) = l / 4096 * 4096 + 4095.
Proof.
  intros Hb Hl. split; [by apply seg_fields|]. unfold seg_limit. cbn [SEG sd_g sd_lim_15_0 sd_lim_19_16]. change (1 =? 1) with true. cbn iota.
  do 2 f_equal. change 0xffff with (Z.ones 16). rewrite Z.land_ones, !Z.shiftr_div_pow2 by lia.
  replace (2 ^ 28) with (2 ^ 12 * 2 ^ 16) by lia. rewrite <-Z.div_div by lia. change 4096 with (2 ^ 12).
  pose proof (Z.div_mod (l / 2 ^ 12) (2 ^ 16)). lia.
Qed.

Lemma SEG16_spec t b l d : 0 ≤ b < 2 ^ 32 → 0 ≤ l < 2 ^ 20 → seg_base (SEG16 t b l d) = b ∧ seg_limit (SEG16 t b l d) = l.
Proof.
  intros Hb Hl. split; [by apply seg_fields|]. unfold seg_limit. cbn [SEG16 sd_g sd_lim_15_0 sd_lim_19_16]. change (0 =? 1) with false. cbn iota.
  change 0xffff with (Z.ones 16). rewrite Z.land_ones, Z.shiftr_div_pow2 by lia. pose proof (Z.div_mod l (2 ^ 16)). lia.
Qed.

(** The descriptor a selector names. *)
Definition selected (g : list segdesc) (sel : Z) : option segdesc := g !! Z.to_nat (sel / 8).

(** A present segment of privilege [dpl] that covers every address as it is. *)
Definition flat (dpl type : Z) (x : segdesc) : bool :=
  (seg_base x =? 0) && (seg_limit x =? 2 ^ 32 - 1) && (sd_p x =? 1) && (sd_s x =? 1) && (sd_dpl x =? dpl) && (sd_type x =? type).

(** The four segments of the kernel and the user, and the one through which
    [%gs] reaches [cpu] and [proc] of the [struct cpu] at [c]. *)
Record segments (c : Z) (x : cpu) : Prop := {
  sg_len : length (c_gdt x) = 7%nat;
  sg_addr : c_addr x = c ∧ c_cpu x = c;
  sg_kcode : flat 0 10 <$> selected (c_gdt x) 8 = Some true;
  sg_kdata : flat 0 2 <$> selected (c_gdt x) 16 = Some true;
  sg_ucode : flat 3 10 <$> selected (c_gdt x) (32 + 3) = Some true;
  sg_udata : flat 3 2 <$> selected (c_gdt x) (40 + 3) = Some true;
  sg_gs : c_gs x = 24 ∧ ∃ y, selected (c_gdt x) (c_gs x) = Some y ∧ seg_base y = c + CPU_cpu ∧ 7 ≤ seg_limit y;
  sg_gdtr : c_gdtr x = (c + CPU_gdt, 8 * 7 - 1);
}.

Lemma seginit_segments c s : length (c_gdt (ms_cpu (ks_misc s))) = 7%nat → 0 ≤ c → c + SIZE_cpu ≤ 2 ^ 32 →
  wp (seginit c) (λ _ s', ∃ x, segments c x ∧ c_started x = c_started (ms_cpu (ks_misc s)) ∧
    s' = set_cur None (set_misc (with_ms_cpu x (ks_misc s)) s)) s.
Proof.
  intros Hg Hc0 Hc. unfold seginit, upd_misc. wp_steps. eexists. split; [|split; [|done]]; [|done].
  destruct (c_gdt (ms_cpu (ks_misc s))) as [|g0 [|g1 [|g2 [|g3 [|g4 [|g5 [|g6 [|]]]]]]]]; try done.
  rewrite !u32_small by lia. destruct (SEG_spec STA_W (c + CPU_cpu) 8 0) as [E1 E2]; [lia|lia|].
  split; try done. split; [done|]. exists (SEG STA_W (c + CPU_cpu) 8 0). split; [done|]. rewrite E1, E2. done.
Qed.

(** ** The stack of a trap

    On a trap from user mode the processor takes [ss0] and [esp0] from the task
    state segment the task register names; [trap_stack] is the linear address
    it then pushes at, if the segments are such that it can. *)
Definition trap_stack (x : cpu) : option Z :=
  t ← selected (c_gdt x) (c_tr x);
  if (sd_p t =? 1) && (sd_s t =? 0) && (sd_type t =? STS_T32A) && (seg_base t =? c_addr x + CPU_ts) && (SIZE_ts - 1 <=? seg_limit t)
  then y ← selected (c_gdt x) (ts_ss0 (c_ts x)); if flat 0 2 y then Some (seg_base y + ts_esp0 (c_ts x)) else None
  else None.

Lemma task_segment_ok c k x : segments c x → 0 ≤ c → c + SIZE_cpu ≤ 2 ^ 32 → 0 ≤ k → k + KSTACKSIZE < 2 ^ 32 →
  segments c (task_segment k x) ∧ trap_stack (task_segment k x) = Some (k + KSTACKSIZE).
Proof.
  intros [G1 [G2 G2'] G3 G4 G5 G6 [Gs (y & G7 & G7')] G8] Hc0 Hc Hk0 Hk. destruct x as [a ts g st cp gr gs tr]. unfold task_segment in *.
  cbn [c_addr c_ts c_gdt c_started c_cpu c_gdtr c_gs c_tr] in *. subst a cp gs.
  destruct g as [|g0 [|g1 [|g2 [|g3 [|g4 [|g5 [|g6 [|]]]]]]]]; try done.
  rewrite !u32_small by lia. split.
  - split; try done. split; [done|]. by exists y.
  - destruct (SEG16_spec STS_T32A (c + CPU_ts) (SIZE_ts - 1) 0) as [E1 E2]; [lia|lia|].
    unfold trap_stack. cbn [c_gdt c_tr c_ts c_addr ts_ss0 ts_esp0]. unfold selected in *.
    change (Z.to_nat (Z.shiftl SEG_TSS 3 / 8)) with 6%nat. change (Z.to_nat SEG_TSS) with 6%nat.
    change (Z.to_nat (Z.shiftl SEG_KDATA 3 / 8)) with 2%nat. cbn [lookup list_lookup insert list_insert mbind option_bind].
    change (seg_base (with_sd_s 0 ?z)) with (seg_base z). change (seg_limit (with_sd_s 0 ?z)) with (seg_limit z).
    rewrite E1, E2. rewrite Z.leb_refl. cbn [with_sd_s SEG16 sd_p sd_s sd_type andb Z.eqb Pos.eqb].
    change (Z.to_nat (16 / 8)) with 2%nat in G4. cbn in G4. injection G4 as G4. rewrite G4.
    unfold flat in G4. repeat (apply andb_true_iff in G4 as [G4 _]). apply Z.eqb_eq in G4. rewrite G4, Z.eqb_refl. done.
Qed.

(** [switchuvm] for the process that runs. *)
Lemma switchuvm_spec p pr s : ks_cur s = Some p → ks_procs s !! p = Some pr → p_pgdir pr ≠ 0 →
  wp (switchuvm p) (λ _ s', s' = set_misc (with_ms_cr3 (v2p (p_pgdir pr))
    (with_ms_cpu (task_segment (p_kstack pr) (ms_cpu (ks_misc s))) (ks_misc s))) s) s.
Proof.
  intros Hc Hp Hd. unfold switchuvm, myproc, upd_misc, lcr3. wp_steps. eapply wp_the; [done|]. wp_step.
  eapply wp_get_proc; [done|]. wp_steps. eapply wp_get_proc; [done|].
  rewrite (proj2 (Z.eqb_neq _ _) Hd). unfold upd_misc. by wp_steps.
Qed.

(** C18: after [seginit] on a processor, [switchuvm] makes a trap from user mode
    push its frame at the top of the kernel stack of the process that runs, and
    the process's page table the current one: the task register selects a
    present 32-bit task segment at [cpu->ts], whose stack segment is the flat
    kernel data segment.  All segments stay as [seginit] made them. *)
Theorem switchuvm_trap_stack c p pr s :
  length (c_gdt (ms_cpu (ks_misc s))) = 7%nat → 0 ≤ c → c + SIZE_cpu ≤ 2 ^ 32 →
  ks_procs s !! p = Some pr → p_pgdir pr ≠ 0 → 0 ≤ p_kstack pr → p_kstack pr + KSTACKSIZE < 2 ^ 32 →
  wp (seginit c;; modify (set_cur (Some p));; switchuvm p) (λ _ s', let x := ms_cpu (ks_misc s') in
    trap_stack x = Some (p_kstack pr + KSTACKSIZE) ∧ ms_cr3 (ks_misc s') = v2p (p_pgdir pr) ∧ segments c x) s.
Proof.
  intros Hg Hc0 Hc Hp Hd Hk0 Hk. wp_call (seginit_segments c s Hg Hc0 Hc). intros [] s1 (x & Sg & _ & ->).
  destruct (task_segment_ok c (p_kstack pr) _ Sg Hc0 Hc Hk0 Hk) as [Sg' Ts].
  wp_step. wp_step. eapply wp_mono; [by eapply (switchuvm_spec p pr)|]. by intros [] s' ->.
Qed.

Module TrapStackExample.

Definition pr : proc := with_p_pgdir 0x80200000 (with_p_kstack 0x80201000 zero_proc).
Definition s : kstate := set_procs [pr] (bss []).

Lemma switchuvm_trap_stack_witness :
  wp (seginit 0x80108000;; modify (set_cur (Some 0%nat));; switchuvm 0) (λ _ s', let x := ms_cpu (ks_misc s') in
    trap_stack x = Some 0x80202000 ∧ ms_cr3 (ks_misc s') = 0x200000 ∧ segments 0x80108000 x) s.
Proof. by apply (switchuvm_trap_stack 0x80108000 0 pr s). Defined.

End TrapStackExample.
