(* ===== verification/Proc.v ===== *)
(** * Proc: processes (proc.c)

    The life of a process: [allocproc], [fork], [exit], [wait], and the
    scheduler.  sched, sleep, wakeup, yield and kill are in Sched.v. *)

From S2P Require Import Prelude Bytes CString Kernel Sched Ide Bio Log Crash Block Inode Icache Dir Kalloc Pipe File Print Vm.

#[local] Arguments replicate : simpl never.

(** A C string function applied to a name buffer; an access outside it faults. *)
Definition set_name (p : nat) (src : list Z) : K () :=
  x ← get_proc p;
  nm ← the (safestrcpy (p_name x) 0 src 16);
  upd_proc p (with_p_name nm).

Section Code.
Context `{Ide} `{Devsw} `{Linker}.

(** ** allocproc *)

(** The fields [allocproc] sets under the lock. *)
Definition embryo (pid ticks : Z) (x : proc) : proc :=
  with_p_fake (replicate 8 42) (with_p_stime 0 (with_p_rutime 0 (with_p_retime 0
    (with_p_ctime ticks (with_p_pid pid (with_p_state EMBRYO x)))))).

(** The trap frame lies in the new kernel stack, whose contents are not
    initialised: it is written before it is read. *)
Definition allocproc : K (option nat) :=
  acquire L_ptable;;
  procs ← gets ks_procs;
  match find_from (λ x, bool_decide (p_state x = UNUSED)) 0 procs with
  | None => release L_ptable;; mret None
  | Some p =>
      pid ← gets ks_nextpid;
      ticks ← gets ks_ticks;
      upd_proc p (embryo pid ticks);;
      modify (set_nextpid (s32 (pid + 1)));;
      release L_ptable;;
      kstack ← kalloc;
      upd_proc p (with_p_kstack kstack);;
      if kstack =? 0 then upd_proc p (with_p_state UNUSED);; mret None else
      upd_proc p (with_p_context (mk_context 0 0 0 0 ld_forkret));;
      mret (Some p)
  end.

(** ** userinit *)

Abbreviation FL_IF := 0x200.

(** The first trap frame: [cs], [ds], [es], [ss], [eflags], [esp], [eip]. *)
Definition init_tf : trapframe :=
  let ds := Z.lor (Z.shiftl SEG_UDATA 3) DPL_USER in
  mk_tf 0 0 0 0 0 0 0 0 0 0 ds ds 0 0 0 (Z.lor (Z.shiftl SEG_UCODE 3) DPL_USER) FL_IF PGSIZE ds.

(** [initcode] is the program the build links in. *)
Definition userinit (initcode : list Z) : K () :=
  np ← allocproc;
  modify (set_initproc np);;
  p ← the np;
  pgdir ← setupkvm;
  upd_proc p (with_p_pgdir pgdir);;
  if pgdir =? 0 then panic "userinit: out of memory?" else
  inituvm pgdir initcode;;
  upd_proc p (with_p_sz PGSIZE);;
  upd_proc p (with_p_tf init_tf);;
  set_name p (chars "initcode" ++ [0]);;
  cwd ← namei [47; 0];
  upd_proc p (with_p_cwd cwd);;
  upd_proc p (with_p_state RUNNABLE).

(** ** growproc *)

Definition growproc (n : Z) : K Z :=
  p ← myproc; x ← get_proc p;
  let sz := p_sz x in
  r ← (if 0 <? n then
         r ← allocuvm (p_pgdir x) sz (u32 (sz + n)); mret (if r =? 0 then None else Some r)
       else if n <? 0 then
         r ← deallocuvm (p_pgdir x) sz (u32 (sz + n)); mret (if r =? 0 then None else Some r)
       else mret (Some sz));
  match r with
  | None => mret (-1)
  | Some sz => upd_proc p (with_p_sz sz);; switchuvm p;; mret 0
  end.

(** ** fork *)

Fixpoint dup_files (l : list (option nat)) : K (list (option nat)) :=
  match l with
  | [] => mret []
  | None :: l' => r ← dup_files l'; mret (None :: r)
  | Some f :: l' => f' ← filedup f; r ← dup_files l'; mret (Some f' :: r)
  end.

(** [np->ofile[i] = filedup(proc->ofile[i])] for the descriptors in use. *)
Definition inherit (old new : option nat) : option nat :=
  match new with Some f => Some f | None => old end.

Definition fork : K Z :=
  np ← allocproc;
  match np with
  | None => mret (-1)
  | Some c =>
      p ← myproc; x ← get_proc p;
      pgdir ← copyuvm (p_pgdir x) (p_sz x);
      upd_proc c (with_p_pgdir pgdir);;
      if pgdir =? 0 then
        nx ← get_proc c;
        kfree (p_kstack nx);;
        upd_proc c (with_p_kstack 0);;
        upd_proc c (with_p_state UNUSED);;
        mret (-1)
      else
      upd_proc c (with_p_sz (p_sz x));;
      upd_proc c (with_p_parent (Some p));;
      upd_proc c (with_p_tf (with_tf_eax 0 (p_tf x)));;
      files ← dup_files (p_ofile x);
      upd_proc c (λ y, with_p_ofile (zip_with inherit (p_ofile y) files) y);;
      cwd ← the (p_cwd x);
      cwd' ← idup cwd;
      upd_proc c (with_p_cwd (Some cwd'));;
      y ← get_proc c;
      upd_proc c (with_p_state RUNNABLE);;
      set_name c (p_name x);;
      mret (p_pid y)
  end.

(** ** exit *)

Fixpoint close_files (p : nat) (fd n : nat) : K () :=
  match n with
  | O => mret ()
  | S n' =>
      x ← get_proc p;
      o ← the (p_ofile x !! fd);
      (match o with
       | Some f => fileclose f;; upd_proc p (λ x, with_p_ofile (<[fd:=None]> (p_ofile x)) x)
       | None => mret ()
       end);;
      close_files p (S fd) n'
  end.

(** The address of [struct proc] as a channel; nobody sleeps on null. *)
Definition wakeup_proc (p : option nat) : K () :=
  match p with Some q => wakeup1 (ChProc q) | None => mret () end.

(** Pass abandoned children to init. *)
Fixpoint adopt (me : nat) (i n : nat) : K () :=
  match n with
  | O => mret ()
  | S n' =>
      x ← get_proc i;
      when (bool_decide (p_parent x = Some me)) (
        init ← gets ks_initproc;
        upd_proc i (with_p_parent init);;
        when (bool_decide (p_state x = ZOMBIE)) (wakeup_proc init));;
      adopt me (S i) n'
  end.

(** The part of [exit] under the lock. *)
Definition exit_zombie {A} (p : nat) : K A :=
  acquire L_ptable;;
  x ← get_proc p;
  wakeup_proc (p_parent x);;
  adopt p 0 NPROC;;
  upd_proc p (with_p_state ZOMBIE);;
  sched.

Definition exit {A} : K A :=
  p ← myproc;
  init ← gets ks_initproc;
  if bool_decide (Some p = init) then panic "init exiting" else
  close_files p 0 NOFILE;;
  x ← get_proc p;
  cwd ← the (p_cwd x);
  iput cwd;;
  upd_proc p (with_p_cwd None);;
  exit_zombie p.

(** ** wait and wait2 *)

(** A zombie child's slot is freed; [wait2] clears the counters as well. *)
Definition reap (i : nat) : K Z :=
  x ← get_proc i;
  kfree (p_kstack x);;
  upd_proc i (with_p_kstack 0);;
  freevm (p_pgdir x);;
  upd_proc i (λ y, with_p_killed false (with_p_name (<[0%nat:=0]> (p_name y)) (with_p_parent None
    (with_p_pid 0 (with_p_state UNUSED y)))));;
  mret (p_pid x).

Definition is_zombie_of (me : nat) (x : proc) : bool :=
  bool_decide (p_parent x = Some me) && bool_decide (p_state x = ZOMBIE).

(** The loop of [wait], entered with the lock held: also where the process
    goes on after [sleep]. *)
Definition wait_loop : K Z :=
  me ← myproc;
  procs ← gets ks_procs;
  match find_from (is_zombie_of me) 0 procs with
  | Some i => pid ← reap i; release L_ptable;; mret pid
  | None =>
      let havekids := existsb (λ x, bool_decide (p_parent x = Some me)) procs in
      x ← get_proc me;
      if negb havekids || p_killed x then release L_ptable;; mret (-1) else
      sleep (ChProc me) L_ptable
  end.

Definition wait : K Z := acquire L_ptable;; wait_loop.

(** The pid, and what is stored at [retime], [rutime] and [stime]. *)
Definition wait2_loop : K (Z * option (Z * Z * Z)) :=
  me ← myproc;
  procs ← gets ks_procs;
  match find_from (is_zombie_of me) 0 procs with
  | Some i =>
      x ← get_proc i;
      pid ← reap i;
      upd_proc i (λ y, with_p_priority 0 (with_p_stime 0 (with_p_rutime 0 (with_p_retime 0
        (with_p_ctime 0 y)))));;
      release L_ptable;;
      mret (pid, Some (p_retime x, p_rutime x, p_stime x))
  | None =>
      let havekids := existsb (λ x, bool_decide (p_parent x = Some me)) procs in
      x ← get_proc me;
      if negb havekids || p_killed x then release L_ptable;; mret (-1, None) else
      sleep (ChProc me) L_ptable
  end.

Definition wait2 : K (Z * option (Z * Z * Z)) := acquire L_ptable;; wait2_loop.

(** ** The scheduler *)

(** The inner loop of [scheduler] from index [i] on, with the lock held: up to
    the switch to a process ([Some p]), or to the end of the table, where the
    lock is released ([None]). *)
Definition scheduler_from (i : nat) : K (option nat) :=
  procs ← gets ks_procs;
  match find_from (λ x, bool_decide (p_state x = RUNNABLE)) i (drop i procs) with
  | Some p =>
      modify (set_cur (Some p));;
      switchuvm p;;
      upd_proc p (with_p_state RUNNING);;
      mret (Some p)
  | None => release L_ptable;; mret None
  end.

(** What the scheduler does when the process switches back to it. *)
Definition scheduler_back : K () := switchkvm;; modify (set_cur None).

(** ** forkret, statistics, listing *)

(** A new process starts here; the first one recovers the log. *)
Definition forkret : K () :=
  release L_ptable;;
  m ← gets ks_misc;
  when (ms_first m) (upd_misc (with_ms_first false);; initlog).

Definition count_tick (x : proc) : proc :=
  match p_state x with
  | SLEEPING => with_p_stime (s32 (p_stime x + 1)) x
  | RUNNABLE => with_p_retime (s32 (p_retime x + 1)) x
  | RUNNING => with_p_rutime (s32 (p_rutime x + 1)) x
  | _ => x
  end.

Definition updatestatistics : K () :=
  acquire L_ptable;;
  modify (λ s, set_procs (count_tick <$> ks_procs s) s);;
  release L_ptable.

Definition state_name (st : procstate) : string :=
  match st with
  | UNUSED => "unused" | EMBRYO => "embryo" | SLEEPING => "sleep "
  | RUNNABLE => "runble" | RUNNING => "run   " | ZOMBIE => "zombie"
  end.

(** The loop stops at the first null program counter. *)
Fixpoint until_zero (l : list Z) : list Z :=
  match l with [] => [] | p :: l' => if p =? 0 then [] else p :: until_zero l' end.

(** [pcs p]: what [getcallerpcs] finds on the stack of [p]. *)
Fixpoint procdump_loop (pcs : proc → list Z) (l : list proc) : K () :=
  match l with
  | [] => mret ()
  | x :: l' =>
      (if bool_decide (p_state x = UNUSED) then mret () else
       cprintf "%d %s %s" [AInt (p_pid x); AStr (Some (chars (state_name (p_state x))));
         AStr (Some (cstr 16 (p_name x)))];;
       when (bool_decide (p_state x = SLEEPING)) (print_pcs (until_zero (pcs x)));;
       cprintf (String (Ascii.ascii_of_nat 10) EmptyString) []);;
      procdump_loop pcs l'
  end.

Definition procdump (pcs : proc → list Z) : K () :=
  l ← gets ks_procs; procdump_loop pcs l.

Definition ps (pcs : proc → list Z) : K Z := procdump pcs;; mret 0.

End Code.

(** ** Scheduling is round robin *)

Definition runnable (s : kstate) (q : nat) : Prop :=
  ∃ x, ks_procs s !! q = Some x ∧ p_state x = RUNNABLE.

Lemma switchuvm_procs p s s' : runs_to (switchuvm p) s () s' → ks_procs s' = ks_procs s.
Proof.
  unfold switchuvm, myproc. intros (c & s1 & R1 & R)%runs_bind_inv.
  apply runs_bind_inv in R1 as (o & ? & [= <- <-] & R1). destruct (ks_cur s); [|done]. injection R1 as -> ->.
  apply runs_bind_inv in R as (y & s2 & R2 & R). unfold runs_to, get_proc in R2.
  destruct (ks_procs s1 !! c); [|done]. injection R2 as -> ->.
  apply runs_bind_inv in R as ([] & s3 & [= <-] & R). apply runs_bind_inv in R as (x & s4 & R4 & R).
  unfold runs_to, get_proc in R4. destruct (_ !! p); [|done]. injection R4 as -> <-.
  destruct (p_pgdir x =? 0); [done|]. by injection R as <-.
Qed.

Lemma upd_proc_procs p f s s' :
  runs_to (upd_proc p f) s () s' →
  ∃ x, ks_procs s !! p = Some x ∧ ks_procs s' = <[p:=f x]> (ks_procs s).
Proof.
  unfold runs_to, upd_proc. destruct (ks_procs s !! p) as [x|] eqn:E; [|done]. intros [= <-].
  exists x. split; [done|]. simpl. by rewrite (alter_insert _ _ _ _ E).
Qed.

Lemma first_runnable i l o :
  find_from (λ x, bool_decide (p_state x = RUNNABLE)) i (drop i l) = o →
  match o with
  | Some p => (i ≤ p)%nat ∧ (∃ x, l !! p = Some x ∧ p_state x = RUNNABLE) ∧
      ∀ q x, (i ≤ q < p)%nat → l !! q = Some x → p_state x ≠ RUNNABLE
  | None => ∀ q x, (i ≤ q)%nat → l !! q = Some x → p_state x ≠ RUNNABLE
  end.
Proof.
  intros <-. destruct (find_from _ _ _) as [p|] eqn:E.
  - apply find_from_Some in E as (n & x & -> & Hn & Hx & Hm). rewrite lookup_drop in Hn.
    split_and!; [lia|exists x; by apply bool_decide_eq_true in Hx|].
    intros q y Hq Hy. assert (drop i l !! (q - i)%nat = Some y) as Hd.
    { rewrite lookup_drop. by replace (i + (q - i))%nat with q by lia. }
    apply Hm in Hd; [by apply bool_decide_eq_false in Hd|lia].
  - intros q y Hq Hy. assert (drop i l !! (q - i)%nat = Some y) as Hd.
    { rewrite lookup_drop. by replace (i + (q - i))%nat with q by lia. }
    by apply (proj1 (find_from_None _ _ _) E), bool_decide_eq_false in Hd.
Qed.

(** The next process to run is the first runnable one from the index on. *)
Lemma scheduler_from_inv i s o s' :
  runs_to (scheduler_from i) s o s' →
  match o with
  | Some p => (i ≤ p)%nat ∧ (∀ q, (i ≤ q < p)%nat → ¬ runnable s q) ∧
      ∀ q, q ≠ p → runnable s q → runnable s' q
  | None => ∀ q, (i ≤ q)%nat → ¬ runnable s q
  end.
Proof.
  unfold scheduler_from. intros (l & s1 & [= <- <-] & R)%runs_bind_inv.
  pose proof (first_runnable i (ks_procs s) _ eq_refl) as F.
  destruct (find_from _ _ _) as [p|]; cbv beta in F.
  - destruct F as (Hi & (x & Hx & Hr) & Hm).
    apply runs_bind_inv in R as ([] & s2 & [= <-] & R). apply runs_bind_inv in R as ([] & s3 & R3 & R).
    apply switchuvm_procs in R3. apply runs_bind_inv in R as ([] & s4 & R4 & R).
    apply upd_proc_procs in R4 as (y & _ & E4). injection R as <- <-. split_and!; [done|..].
    + intros q Hq (z & Hz & Hzr). by eapply Hm.
    + intros q Hq (z & Hz & Hzr). exists z. by rewrite E4, R3, list_lookup_insert_ne.
  - apply runs_bind_inv in R as ([] & s2 & _ & R). injection R as <- <-.
    intros q Hq (z & Hz & Hzr). by eapply F.
Qed.

Section Round.
(** [ran p s s']: process [p], switched to in [s], switches back in [s']. *)
Context (ran : nat → kstate → kstate → Prop).

(** One pass of [scheduler] over the table from index [i], with the processes
    it ran. *)
Inductive round : nat → kstate → list nat → kstate → Prop :=
| round_end i s s' :
    runs_to (scheduler_from i) s None s' → round i s [] s'
| round_run i s p s1 s2 s3 l s' :
    runs_to (scheduler_from i) s (Some p) s1 → ran p s1 s2 → runs_to scheduler_back s2 () s3 →
    round (S p) s3 l s' → round i s (p :: l) s'.

Lemma round_ge i s l s' : round i s l s' → Forall (λ p, (i ≤ p)%nat) l.
Proof.
  induction 1 as [|i s p s1 s2 s3 l s' R1 _ _ _ IH]; [constructor|].
  apply scheduler_from_inv in R1 as [Hi _]. constructor; [done|].
  eapply Forall_impl; [exact IH|]. simpl. lia.
Qed.

(** C32: round robin.  If a process is runnable when the scheduler starts a
    pass over the table, and the processes that run do not stop it from being
    runnable, the pass runs it; and a pass runs no process twice. *)
Theorem scheduler_round s l s' q :
  round 0 s l s' → runnable s q →
  (∀ p s1 s2, p ≠ q → ran p s1 s2 → runnable s1 q → runnable s2 q) →
  (q ∈ l) ∧ NoDup l.
Proof.
  intros R Hq Hran. split.
  - assert (H0 : (0 ≤ q)%nat) by lia. revert R H0 Hq. generalize 0%nat as i.
    intros i R. induction R as [i s s' R|i s p s1 s2 s3 l s' R1 R2 R3 R4 IH]; intros Hi Hq.
    + apply scheduler_from_inv in R. by destruct (R q).
    + apply scheduler_from_inv in R1 as (Hip & Hm & Hk). destruct (decide (q = p)) as [->|Hne]; [by left|].
      right. apply IH.
      * destruct (decide (q < p)%nat); [by destruct (Hm q)|lia].
      * apply runs_bind_inv in R3 as ([] & s4 & R5 & [= <-]).
        apply runs_bind_inv in R5 as (? & ? & [= <- <-] & [= <-]).
        by apply (Hran p s1 s2), Hk.
  - clear q Hq Hran. induction R as [|i s p s1 s2 s3 l s' R1 _ _ R4 IH]; constructor; [|done].
    intros Hin. apply round_ge in R4. eapply Forall_forall in R4; [|done]. simpl in R4. lia.
Qed.
End Round.

(** ** allocproc hands out fresh process identifiers *)

(** The processes in use have different identifiers, all handed out before. *)
Record pids_ok (s : kstate) : Prop := {
  pid_range : ∀ i x, ks_procs s !! i = Some x → p_state x ≠ UNUSED → 0 < p_pid x < ks_nextpid s;
  pid_inj : ∀ i j x y, ks_procs s !! i = Some x → ks_procs s !! j = Some y →
    p_state x ≠ UNUSED → p_state y ≠ UNUSED → p_pid x = p_pid y → i = j;
}.

(** A slot given to a process with a new identifier, or given back. *)
Lemma pids_ok_insert s s' p x :
  pids_ok s → ks_procs s' = <[p:=x]> (ks_procs s) → 0 < ks_nextpid s →
  (p_state x = UNUSED ∧ ks_nextpid s ≤ ks_nextpid s') ∨
  (p_pid x = ks_nextpid s ∧ ks_nextpid s' = ks_nextpid s + 1) → pids_ok s'.
Proof.
  intros [H1 H2] E H0 Hx. assert (HE : ∀ i y, ks_procs s' !! i = Some y →
    (i = p ∧ y = x) ∨ (i ≠ p ∧ ks_procs s !! i = Some y)).
  { intros i y. rewrite E. intros [(-> & -> & _)|[? ?]]%list_lookup_insert_Some; auto. }
  assert (HN : ks_nextpid s ≤ ks_nextpid s') by lia. split.
  - intros i y [[-> ->]|[Hi Hy]]%HE Hu; [naive_solver lia|]. specialize (H1 i y Hy Hu). lia.
  - intros i j y z [[-> ->]|[Hi Hy]]%HE [[-> ->]|[Hj Hz]]%HE Hu Hv Hp; [done|..].
    + specialize (H1 j z Hz Hv). naive_solver lia.
    + specialize (H1 i y Hy Hu). naive_solver lia.
    + by eapply H2.
Qed.

Lemma wp_release_ptable h (Q : () → kstate → Prop) s :
  ks_held s = L_ptable :: h → L_ptable ∉ h → Q () (set_held h s) → wp (release L_ptable) Q s.
Proof. intros. by eapply wp_release. Qed.

(** [allocproc] when there is a slot [p] and a page [a]. *)
Lemma allocproc_takes `{Linker} s p x a l :
  find_from (λ x, bool_decide (p_state x = UNUSED)) 0 (ks_procs s) = Some p → ks_procs s !! p = Some x →
  0 < ks_nextpid s < 2 ^ 31 - 1 → free_list s (a :: l) → L_ptable ∉ ks_held s →
  wp allocproc (λ o s', o = Some p ∧ free_list s' l ∧ ∃ f,
    s' = set_procs (<[p:=with_p_context (mk_context 0 0 0 0 ld_forkret) (with_p_kstack a
      (embryo (ks_nextpid s) (ks_ticks s) x))]> (ks_procs s)) (set_nextpid (ks_nextpid s + 1) (set_freelist f s))) s.
Proof.
  intros E Hx Hnp F Hlk. pose proof (lookup_lt_Some _ _ _ Hx) as Hlt. unfold allocproc. wp_step. apply wp_acquire; [done|]. wp_steps. simpl. rewrite E.
  wp_steps. simpl. eapply wp_upd_proc; [done|]. wp_steps. simpl. eapply wp_release; [done|done|]. rewrite s32_small by lia.
  set (s1 := set_held _ _). assert (F1 : free_list s1 (a :: l)) by (eapply free_list_ext; [exact F|simpl; reflexivity..|apply F]).
  wp_step. eapply wp_mono; [by apply kalloc_list|]. intros r s2 (-> & F2 & _ & f & ->). cbn [hd tail] in *.
  wp_step. eapply wp_upd_proc; [by apply list_lookup_insert_eq|]. simpl.
  destruct (Z.eqb_spec a 0) as [->|Ha]; [exfalso; destruct F as [Hl _ _ _]; simpl in Hl; naive_solver|].
  wp_step. eapply wp_upd_proc; [rewrite list_insert_insert_eq; by apply list_lookup_insert_eq|]. wp_step. simpl.
  rewrite !list_insert_insert_eq. split; [done|]. split; [|by exists f].
  eapply free_list_ext; [exact F2|simpl; reflexivity..|apply F].
Qed.


(** ** exit and wait *)

Definition adopt1 (me q : nat) (x : proc) : proc :=
  if bool_decide (p_parent x = Some me) then with_p_parent (Some q) x else x.

(** [b]: whether init is woken. *)
Definition wake (q : nat) (b : bool) (l : list proc) : list proc :=
  if b then wakeup1_proc (ChProc q) <$> l else l.

Lemma wakeup1_parent c x : p_parent (wakeup1_proc c x) = p_parent x.
Proof. unfold wakeup1_proc. by case_bool_decide. Qed.

Lemma wakeup1_zombie me c x : is_zombie_of me (wakeup1_proc c x) = is_zombie_of me x.
Proof.
  unfold is_zombie_of. rewrite wakeup1_parent. f_equal. unfold wakeup1_proc.
  destruct (bool_decide_reflect (p_state x = SLEEPING ∧ p_chan x = Some c)) as [[H _]|]; [|done].
  simpl. by rewrite H.
Qed.

Lemma adopt1_wakeup1 me q c x : adopt1 me q (wakeup1_proc c x) = wakeup1_proc c (adopt1 me q x).
Proof.
  unfold adopt1. rewrite wakeup1_parent. destruct (bool_decide (p_parent x = Some me)); [|done].
  unfold wakeup1_proc. simpl. by destruct (bool_decide _).
Qed.

Lemma wakeup1_idem c x : wakeup1_proc c (wakeup1_proc c x) = wakeup1_proc c x.
Proof.
  unfold wakeup1_proc.
  destruct (bool_decide (p_state x = SLEEPING ∧ p_chan x = Some c)) eqn:E; [|by rewrite E].
  rewrite bool_decide_false; [done|]. simpl. naive_solver.
Qed.

Lemma wake_wake q b1 b2 l : wake q b2 (wake q b1 l) = wake q (b1 || b2) l.
Proof.
  destruct b1, b2; try done. simpl. rewrite <-list_fmap_compose. apply list_fmap_ext.
  intros _ x _. apply wakeup1_idem.
Qed.

Lemma wake_app q b l k : wake q b (l ++ k) = wake q b l ++ wake q b k.
Proof. destruct b; [apply fmap_app|done]. Qed.

Lemma existsb_wake me q b l : existsb (is_zombie_of me) (wake q b l) = existsb (is_zombie_of me) l.
Proof.
  destruct b; [|done]. unfold wake. induction l as [|x l IH]; [done|].
  rewrite fmap_cons. cbn [existsb]. by rewrite wakeup1_zombie, IH.
Qed.

Lemma adopt1_wake me q b l : adopt1 me q <$> wake q b l = wake q b (adopt1 me q <$> l).
Proof.
  destruct b; [|done]. simpl. rewrite <-!list_fmap_compose. apply list_fmap_ext.
  intros _ x _. apply adopt1_wakeup1.
Qed.

(** The loop over the table: the processes before [i] are done. *)
Lemma adopt_spec me q n : ∀ pre post s,
  ks_initproc s = Some q → ks_procs s = pre ++ post → length post = n →
  wp (adopt me (length pre) n) (λ _ s', s' = set_procs
    (wake q (existsb (is_zombie_of me) post) (pre ++ (adopt1 me q <$> post))) s) s.
Proof.
  induction n as [|n IH]; intros pre post s Hq Hp Hn.
  { destruct post; [|done]. simpl. rewrite app_nil_r in *. rewrite <-Hp. wp_step. by destruct s. }
  destruct post as [|x post]; [done|]. injection Hn as Hn. cbn [adopt].
  assert (Hx : ks_procs s !! length pre = Some x) by (rewrite Hp; by apply list_lookup_middle).
  wp_table; [done|]. wp_step.
  apply (wp_mono _ (λ _ s', s' = set_procs
    (wake q (is_zombie_of me x) (pre ++ adopt1 me q x :: post)) s)).
  - unfold adopt1, is_zombie_of. case_bool_decide as Epar; unfold when; cbn [andb].
    + wp_steps. wp_table; [done|]. rewrite Hp, insert_app_r_alt, Nat.sub_diag by lia. simpl.
      rewrite Hq. destruct (bool_decide (p_state x = ZOMBIE)); unfold wakeup_proc, wakeup1; by wp_step.
    + wp_step. rewrite <-Hp. by destruct s.
  - intros [] s1 ->. replace (S (length pre)) with (length (wake q (is_zombie_of me x) (pre ++ [adopt1 me q x])))
      by (destruct (is_zombie_of me x); simpl; len).
    eapply wp_mono; [apply (IH _ (wake q (is_zombie_of me x) post))|].
    + done.
    + simpl. by rewrite <-wake_app, <-app_assoc.
    + destruct (is_zombie_of me x); simpl; len.
    + intros [] s2 ->. rewrite existsb_wake, adopt1_wake, <-wake_app, wake_wake, <-app_assoc.
      simpl. by destruct s.
Qed.

(** What [exit] does to another process: wakes the parent, hands children to
    init, and wakes init if [b]. *)
Definition exit_effect (p r q : nat) (b : bool) (y : proc) : proc :=
  (if b then wakeup1_proc (ChProc q) else id) (adopt1 p q (wakeup1_proc (ChProc r) y)).

Lemma wake_lookup q b l i : wake q b l !! i = (if b then wakeup1_proc (ChProc q) else id) <$> l !! i.
Proof. destruct b; [apply list_lookup_fmap|by rewrite option_fmap_id]. Qed.

Lemma exit_zombie_run {A} p x r q s :
  ks_cur s = Some p → ks_held s = [] → ks_procs s !! p = Some x → p_parent x = Some r → r ≠ p →
  ks_initproc s = Some q → length (ks_procs s) = NPROC →
  ∃ b s', exit_zombie (A:=A) p s = Sleep s' ∧ ks_held s' = [L_ptable] ∧
    ks_procs s' = <[p:=with_p_state ZOMBIE (exit_effect p r q b x)]>
      (exit_effect p r q b <$> ks_procs s).
Proof.
  intros Hc Hh Hx Hr Hne Hq Hlen.
  set (s1 := set_held [L_ptable] s).
  assert (R1 : runs_to (acquire L_ptable) s () s1).
  { pose proof (acquire_runs L_ptable s) as R. rewrite Hh in R. apply R, not_elem_of_nil. }
  set (l1 := wakeup1_proc (ChProc r) <$> ks_procs s). set (s2 := set_procs l1 s1).
  pose proof (adopt_spec p q NPROC [] l1 s2 Hq eq_refl ltac:(unfold l1; len)) as R3.
  apply wp_runs in R3 as ([] & s3 & R3 & ->). simpl length in R3. simpl app in R3.
  set (b := existsb (is_zombie_of p) l1) in *. exists b.
  set (l3 := wake q b (adopt1 p q <$> l1)) in *.
  assert (E3 : l3 = exit_effect p r q b <$> ks_procs s).
  { apply list_eq. intros i. unfold l3, l1. rewrite wake_lookup, !list_lookup_fmap.
    by destruct (ks_procs s !! i), b. }
  set (x3 := exit_effect p r q b x).
  assert (Hx3 : l3 !! p = Some x3) by (by rewrite E3, list_lookup_fmap, Hx).
  pose proof (lookup_lt_Some _ _ _ Hx3) as Hlt.
  set (s4 := set_procs (<[p:=with_p_state ZOMBIE x3]> l3) (set_procs l3 s2)).
  exists s4. split; [|split; [done|unfold s4; simpl; by rewrite E3]].
  unfold exit_zombie. rewrite (bind_runs _ _ _ _ _ R1).
  rewrite (bind_runs _ _ _ _ _ (get_proc_runs s1 p x Hx)), Hr.
  erewrite bind_runs by reflexivity. rewrite (bind_runs _ _ _ _ _ R3).
  assert (R4 : runs_to (upd_proc p (with_p_state ZOMBIE)) (set_procs l3 s2) () s4).
  { unfold runs_to, upd_proc. simpl. by rewrite Hx3, (alter_insert _ _ _ _ Hx3). }
  rewrite (bind_runs _ _ _ _ _ R4). unfold sched, holding, myproc, mbind, M_bind, gets.
  change (ks_held s4) with [L_ptable]. rewrite bool_decide_true by (by left). cbn [negb].
  rewrite bool_decide_true by done. cbn [negb]. change (ks_cur s4) with (ks_cur s). rewrite Hc. cbn [the].
  unfold mret, M_ret, get_proc. change (ks_procs s4) with (<[p:=with_p_state ZOMBIE x3]> l3).
  by rewrite list_lookup_insert_eq.
Qed.

(** [exit] and [wait].  A process that exits becomes a zombie and gives
    up the processor with the table lock held; a parent asleep in [wait] is
    runnable again, and its next look at the table finds a zombie, so that no
    wakeup is lost; the children it leaves behind are all init's. *)
Theorem exit_wakes_parent p x r q s :
  ks_cur s = Some p → ks_held s = [] → ks_procs s !! p = Some x → p_parent x = Some r → r ≠ p →
  ks_initproc s = Some q → q ≠ p → length (ks_procs s) = NPROC →
  ∃ s', exit_zombie (A:=()) p s = Sleep s' ∧ ks_held s' = [L_ptable] ∧
    (∃ x', ks_procs s' !! p = Some x' ∧ p_state x' = ZOMBIE ∧ p_pid x' = p_pid x) ∧
    (∀ y, ks_procs s !! r = Some y → p_state y = SLEEPING → p_chan y = Some (ChProc r) → runnable s' r) ∧
    is_Some (find_from (is_zombie_of r) 0 (ks_procs s')) ∧
    (∀ i y', ks_procs s' !! i = Some y' → p_parent y' ≠ Some p) ∧
    ∀ i y, ks_procs s !! i = Some y → p_parent y = Some p →
      ∃ y', ks_procs s' !! i = Some y' ∧ p_parent y' = Some q.
Proof.
  intros Hc Hh Hx Hr Hne Hq Hqp Hlen.
  destruct (exit_zombie_run (A:=()) p x r q s Hc Hh Hx Hr Hne Hq Hlen) as (b & s' & E & Hh' & Hl).
  exists s'. split; [done|]. split; [done|]. rewrite Hl. unfold runnable. rewrite Hl.
  set (F := exit_effect p r q b). pose proof (lookup_lt_Some _ _ _ Hx) as Hlt.
  assert (Hpar : ∀ y, p_parent (F y) = if bool_decide (p_parent y = Some p) then Some q else p_parent y).
  { intros y. unfold F, exit_effect. assert (p_parent (adopt1 p q (wakeup1_proc (ChProc r) y)) =
      if bool_decide (p_parent y = Some p) then Some q else p_parent y) as <-.
    - unfold adopt1. rewrite wakeup1_parent. destruct (bool_decide _); [done|apply wakeup1_parent].
    - destruct b; [apply wakeup1_parent|done]. }
  assert (Hp' : <[p:=with_p_state ZOMBIE (F x)]> (F <$> ks_procs s) !! p = Some (with_p_state ZOMBIE (F x)))
    by (apply list_lookup_insert_eq; len).
  assert (Hx' : p_parent (with_p_state ZOMBIE (F x)) = Some r).
  { change (p_parent (F x) = Some r). rewrite Hpar, Hr. rewrite bool_decide_false; congruence. }
  split_and!.
  - eexists. split; [exact Hp'|]. split; [done|]. unfold F, exit_effect, adopt1, wakeup1_proc.
    destruct b; simpl; repeat case_bool_decide; done.
  - intros y Hy Hs Hch. exists (F y). rewrite list_lookup_insert_ne, list_lookup_fmap, Hy by done.
    split; [done|]. unfold F, exit_effect.
    assert (W : wakeup1_proc (ChProc r) y = with_p_state RUNNABLE y)
      by (unfold wakeup1_proc; by rewrite bool_decide_true).
    rewrite W. unfold adopt1, wakeup1_proc. destruct b; simpl; repeat case_bool_decide; naive_solver.
  - destruct (find_from _ _ _) eqn:En; [done|]. apply (proj1 (find_from_None _ _ _) En) in Hp'.
    unfold is_zombie_of in Hp'. rewrite Hx', !bool_decide_true in Hp' by done. done.
  - intros i y' [(-> & <- & _)|[Hi Hy]]%list_lookup_insert_Some; [rewrite Hx'; congruence|].
    apply list_lookup_fmap_Some in Hy as (y & -> & _). rewrite Hpar. case_bool_decide; congruence.
  - intros i y Hy Hyp. assert (i ≠ p) by (intros ->; congruence).
    exists (F y). rewrite list_lookup_insert_ne, list_lookup_fmap, Hy by done. split; [done|].
    by rewrite Hpar, bool_decide_true.
Qed.

(** ** Witnesses *)

Module ProcExample.
Import KallocExample.

(** Process 3 is runnable; process 2, its parent, waits for it; process 1 is init. *)
Definition child : proc :=
  with_p_pgdir 0x80300000 (with_p_parent (Some 2%nat) (with_p_pid 3 (with_p_state RUNNABLE zero_proc))).
Definition waiting : proc :=
  with_p_chan (Some (ChProc 2)) (with_p_parent (Some 1%nat) (with_p_pid 2 (with_p_state SLEEPING zero_proc))).
Definition table : list proc := zero_proc :: zero_proc :: waiting :: child :: replicate 60 zero_proc.
Definition st : kstate := set_initproc (Some 1%nat) (set_held [L_ptable] (set_procs table (bss []))).

(** A process that runs until the next tick: it yields. *)
Definition ran_yield (p : nat) (s s' : kstate) : Prop :=
  s' = set_procs (alter (with_p_state RUNNABLE) p (ks_procs s)) s.

Definition st1 : kstate := match scheduler_from 0 st with Ok _ s => s | _ => st end.
Definition st2 : kstate := set_procs (alter (with_p_state RUNNABLE) 3%nat (ks_procs st1)) st1.
Definition st3 : kstate := match scheduler_back st2 with Ok _ s => s | _ => st end.
Definition st4 : kstate := match scheduler_from 4 st3 with Ok _ s => s | _ => st end.

Lemma one_round : round ran_yield 0 st [3%nat] st4.
Proof.
  eapply (round_run _ 0 st 3 st1 st2 st3); [vm_compute; reflexivity|reflexivity|vm_compute; reflexivity|].
  apply round_end. vm_compute. reflexivity.
Qed.

End ProcExample.
Import KallocExample ProcExample.

Lemma scheduler_round_witness : (3%nat ∈ [3%nat]) ∧ NoDup [3%nat].
Proof.
  apply (scheduler_round ran_yield st [3%nat] st4 3).
  - apply one_round.
  - exists child. split; reflexivity.
  - intros p s1 s2 Hp -> (x & Hx & Hr). exists x. split; [|done].
    cbn [ks_procs set_procs]. by rewrite list_lookup_alter_ne.
Defined.


Lemma exit_wakes_parent_witness :
  let s := set_cur (Some 3%nat) (set_held [] st) in
  ∃ s', exit_zombie (A:=()) 3 s = Sleep s' ∧ ks_held s' = [L_ptable] ∧
    (∃ x', ks_procs s' !! 3%nat = Some x' ∧ p_state x' = ZOMBIE ∧ p_pid x' = p_pid child) ∧
    (∀ y, ks_procs s !! 2%nat = Some y → p_state y = SLEEPING → p_chan y = Some (ChProc 2) → runnable s' 2) ∧
    is_Some (find_from (is_zombie_of 2) 0 (ks_procs s')) ∧
    (∀ i y', ks_procs s' !! i = Some y' → p_parent y' ≠ Some 3%nat) ∧
    ∀ i y, ks_procs s !! i = Some y → p_parent y = Some 3%nat →
      ∃ y', ks_procs s' !! i = Some y' ∧ p_parent y' = Some 1%nat.
Proof.
  intros s. apply (exit_wakes_parent 3 child 2 1 s); reflexivity || done.
Defined.
