(* ===== verification/UserInit.v ===== *)
(** * UserInit: the first process (proc.c, vm.c)

    [inituvm] and [userinit]: the address space of the first process is one
    page with the code of initcode.S, and the process is ready to run. *)

From S2P Require Import Prelude Bytes CString Kernel Sched Ide Bio Block Inode Icache Dir Kalloc File Vm Kvm Proc.

#[local] Arguments replicate : simpl never.

(** ** inituvm *)

Section Init.
Context `{LinkerOk}.
#[local] Set Default Proof Using "All".

(** The user memory of the first process: one page that starts with [init]. *)
Definition init_byte (init : list Z) (va : Z) : option Z :=
  if decide (va < 4096) then Some (default 0 (init !! Z.to_nat va)) else None.

Lemma user_entry a : kpage a → let e := v2p a + Z.lor (Z.lor PTE_W PTE_U) PTE_P in
  hasb e PTE_P = true ∧ hasb e PTE_U = true ∧ p2v (PTE_ADDR e) = a.
Proof.
  intros Ha e. destruct (kpage_v2p_aligned a Ha) as [Hpa Hpr]. unfold e. change (Z.lor (Z.lor PTE_W PTE_U) PTE_P) with 7.
  rewrite !entry_flag, entry_addr by (done || lia). split_and!; [done..|by apply kpage_p2v].
Qed.

Lemma inituvm_spec s d T l init :
  aspace s d T l → (2 ≤ length l)%nat → (length init < 4096)%nat →
  (∀ va, 0 ≤ va < 2 ^ 32 → pte (ks_mem s) T va = kernel_pte va) →
  wp (inituvm d init) (λ _ s', ∃ T' l', uspace s' d T' l' ∧ grows s s' d T T' l l' ∧
    (∀ va, 4096 ≤ va < 2 ^ 32 → pte (ks_mem s') T' va = kernel_pte va) ∧
    (∀ va a, 0 ≤ va < 2 ^ 32 → upage (ks_mem s') T' va = Some a → a ∈ l) ∧
    ∀ va, 0 ≤ va < 2 ^ 32 → ubyte (ks_mem s') T' va = init_byte init va) s.
Proof.
  intros AS Hl Hi E. unfold inituvm. destruct (Z.leb_spec PGSIZE (Z.of_nat (length init))); [lia|].
  destruct l as [|a l]; [simpl in Hl; lia|].
  wp_call (kalloc_list (a :: l)); [apply AS|]. cbn [hd tail]. intros r s1 (-> & F1 & _ & f & ->).
  pose proof (as_pages _ _ _ _ AS a ltac:(by left)) as Ha. destruct (kpage_v2p_aligned a Ha) as [Hpa Hpr].
  destruct (links_mem _ _ _ a (fl_links _ _ (as_free _ _ _ _ AS)) ltac:(by left)) as [q Hq].
  unfold zero_page. wp_step. eapply wp_upd_page; [done|].
  destruct (take_page s d T a l f (replicate 4096 0) AS F1) as (AS1 & G1 & O1 & E1).
  set (s1 := set_mem _ (set_freelist f s)) in *. simpl in Hl.
  wp_call (mappages_spec s1 d T l 0 4096 (v2p a) (Z.lor PTE_W PTE_U) 0); try done; try lia.
  { intros k Hk'. assert (k = 0%nat) as -> by lia. rewrite E1, E by done. done. }
  intros r s2 (T2 & l2 & j & AS2 & G2 & Hl2 & _ & Hr & E2). destruct Hr as [[-> ->]|(_ & _ & ? & ?)]; [|lia].
  assert (outside d T2 l2 a) as O2 by (by eapply outside_mono).
  assert (ks_mem s2 !! a = Some (replicate 4096 0)) as Hm.
  { rewrite (gr_mem _ _ _ _ _ _ _ G2 a O1). apply lookup_insert_eq. }
  unfold write_page. eapply wp_upd_page; [done|]. set (pg := splice 0 init _).
  set (s3 := set_mem _ s2). destruct (user_entry a Ha) as (U1 & U2 & U3).
  assert (∀ va, 0 ≤ va < 2 ^ 32 → pte (ks_mem s3) T2 va = if decide (va < 4096) then v2p a + Z.lor (Z.lor PTE_W PTE_U) PTE_P else kernel_pte va) as E3.
  { intros va Hva. unfold s3. cbn [ks_mem set_mem]. rewrite (pte_outside _ d T2 l2) by done. rewrite E2, maps_1, E1, E by done.
    change (0 / 4096) with 0. pose proof (Z.div_mod va 4096). pose proof (Z.mod_pos_bound va 4096). repeat case_decide; try done; lia. }
  assert (∀ va, 0 ≤ va < 2 ^ 32 → upage (ks_mem s3) T2 va = if decide (va < 4096) then Some a else None) as E4.
  { intros va Hva. unfold upage. rewrite E3 by done. case_decide; [by rewrite U1, U2, U3|].
    destruct (kernel_pte_meaning va Hva) as [-> _]. by rewrite andb_false_r. }
  assert (ks_mem s3 !! a = Some pg) as Hpg by apply lookup_insert_eq.
  assert (length pg = 4096%nat) as Lpg by (unfold pg; by rewrite length_splice, length_replicate).
  exists T2, l2. split_and!.
  - split; [by apply aspace_write|..].
    + intros va b Hva. rewrite E4 by done. case_decide; [|done]. intros [= <-]. split_and!; [destruct Ha; lia|done|]. by exists pg.
    + intros va va' b Hva Hva'. rewrite !E4 by done. repeat case_decide; try done. intros _ _. rewrite !Z.div_small by lia. done.
  - destruct (grows_trans _ _ _ _ _ _ _ _ _ _ G1 G2) as [(m & f' & ->) G3 G4 G5]. split; [by eexists _, f'|done|done|].
    intros b Hb. unfold s3. cbn [ks_mem set_mem set_freelist] in *. rewrite lookup_insert_ne; [by apply G5|].
    intros ->. destruct Hb as (_ & Hb & _). apply Hb. by left.
  - intros va Hva. rewrite E3, decide_False by lia. done.
  - intros va b Hva. rewrite E4 by done. case_decide; [|done]. intros [= <-]. by left.
  - intros va Hva. unfold ubyte, init_byte. rewrite E4 by done. case_decide; [|done]. cbn [mbind option_bind]. rewrite Hpg. cbn [mbind option_bind].
    rewrite Z.mod_small by lia. unfold pg. rewrite lookup_splice by (rewrite length_replicate; lia). case_decide.
    + rewrite Nat.sub_0_r. destruct (lookup_lt_is_Some_2 init (Z.to_nat va)) as [v ->]; [lia|done].
    + rewrite (lookup_ge_None_2 init) by lia. rewrite lookup_replicate_2 by lia. done.
Qed.

End Init.

(** ** userinit *)

(** The root directory in the inode table: the first entry, not read yet. *)
Definition root_entry : inode := with_i_flags 0 (with_i_ref 1 (with_i_inum ROOTINO (with_i_dev ROOTDEV zero_inode))).

(** The first process: ready to run the code at address 0 of the user memory
    [init], on the kernel stack [a], in the root directory. *)
Record first_proc `{Linker} (pid d a : Z) (x : proc) : Prop := {
  fp_state : p_state x = RUNNABLE;
  fp_pid : p_pid x = pid;
  fp_sz : p_sz x = PGSIZE;
  fp_pgdir : p_pgdir x = d;
  fp_kstack : p_kstack x = a;
  fp_eip : cx_eip (p_context x) = ld_forkret;
  fp_tf : p_tf x = init_tf;
  fp_cwd : p_cwd x = Some 0%nat;
  fp_parent : p_parent x = None;
  fp_files : p_ofile x = replicate NOFILE None;
  fp_killed : p_killed x = false;
}.

Section UserInit.
Context `{Ide} `{Devsw} `{LinkerOk}.
#[local] Set Default Proof Using "All".

Lemma namei_root s (Q : option nat → kstate → Prop) :
  ks_held s = [] → ks_inodes s = replicate NINODE zero_inode →
  Q (Some 0%nat) (set_inodes (<[0%nat:=root_entry]> (ks_inodes s)) s) → wp (namei [47; 0]) Q s.
Proof.
  intros Hh Hi HQ. unfold namei, namex. wp_step. wp_step. eapply wp_the; [done|]. wp_step. change (47 =? 47) with true. cbn iota.
  eapply wp_mono; [eapply (iget_wp ROOTDEV ROOTINO s 0 root_entry); [done|by rewrite Hi]|]. intros ip s' [-> ->].
  cbn [namex_loop]. wp_step. eapply wp_the; [done|]. wp_steps. done.
Qed.

Lemma userinit_spec s l init :
  ks_held s = [] → ks_procs s = replicate NPROC zero_proc → ks_inodes s = replicate NINODE zero_inode → 0 < ks_nextpid s < 2 ^ 31 - 1 →
  free_list s l → (∀ a, a ∈ l → kpage a) → (517 ≤ length l)%nat → (length init < 4096)%nat →
  wp (userinit init) (λ _ s', ∃ x a d T l' m f, uspace s' d T l' ∧ first_proc (ks_nextpid s) d a x ∧
    s' = set_procs (<[0%nat:=x]> (ks_procs s)) (set_nextpid (ks_nextpid s + 1) (set_inodes (<[0%nat:=root_entry]> (ks_inodes s))
      (set_initproc (Some 0%nat) (set_freelist f (set_mem m s))))) ∧
    (∀ b, b ∈ a :: d :: l' → b ∈ l) ∧ (∀ i t, T !! i = Some t → t ∈ l) ∧ outside d T l' a ∧
    (∀ b, b ∉ l → m !! b = ks_mem s !! b) ∧
    (∀ va b, 0 ≤ va < 2 ^ 32 → upage m T va = Some b → b ∈ l ∧ b ≠ a) ∧
    (∀ va, 4096 ≤ va < 2 ^ 32 → pte m T va = kernel_pte va) ∧
    ∀ va, 0 ≤ va < 2 ^ 32 → ubyte m T va = init_byte init va) s.
Proof.
  intros Hh Hp Hi Hn Hf Hk Hl Hc. unfold userinit. destruct l as [|a l]; [simpl in Hl; lia|]. 
  wp_call (allocproc_takes s 0 zero_proc a l); [by rewrite Hp|by rewrite Hp|done|done|rewrite Hh; apply not_elem_of_nil|].
  set (y := with_p_context _ _). intros o s1 (-> & F1 & f & ->). wp_steps. eapply wp_the; [done|].
  set (s2 := set_initproc _ _). assert (free_list s2 l) as F2 by (eapply free_list_ext; [exact F1|done..|]; apply F1).
  simpl in Hl. wp_call (setupkvm_spec s2 l F2); [set_solver|lia|]. intros d s3 (T & l3 & Ed & AS & G3 & Hu & Hc3 & E3).
  destruct l as [|d' l]; [simpl in Hl; lia|]. cbn [hd tail length] in *. subst d'.
  pose proof (gr_frame _ _ _ _ _ _ _ G3) as (m3 & f3 & Es3). pose proof (upper_size T Hu). assert (Hlt : (0 < length (ks_procs s))%nat) by (rewrite Hp, length_replicate; lia).
  wp_step. eapply wp_upd_proc; [rewrite Es3; by apply list_lookup_insert_eq|]. set (s4 := set_procs _ s3).
  assert (kpage d) as Hd by (apply (do_page _ _ _ (as_dir _ _ _ _ AS))). rewrite (proj2 (Z.eqb_neq d 0)) by (destruct Hd; lia).
  assert (aspace s4 d T l3) as AS4 by (destruct AS as [? [] ? ? ?]; split; done).
  wp_call (inituvm_spec s4 d T l3 init AS4); [lia|done|exact E3|]. intros [] s5 (T5 & l5 & US & G5 & E5 & U5 & B5).
  pose proof (gr_frame _ _ _ _ _ _ _ G5) as (m5 & f5 & Es5).
  assert (ks_procs s4 = <[0%nat:=with_p_pgdir d y]> (ks_procs s)) as P4.
  { unfold s4. rewrite Es3. cbn. by rewrite list_insert_insert_eq. }
  assert (ks_procs s5 = <[0%nat:=with_p_pgdir d y]> (ks_procs s)) as P5 by (by rewrite Es5).
  wp_step. eapply wp_upd_proc; [rewrite P5; by apply list_lookup_insert_eq|]. rewrite P5, list_insert_insert_eq.
  wp_step. eapply wp_upd_proc; [by apply list_lookup_insert_eq|]. cbn [ks_procs set_procs]. rewrite list_insert_insert_eq.
  unfold set_name. wp_step. wp_step. eapply wp_get_proc; [by apply list_lookup_insert_eq|]. wp_step. eapply wp_the; [done|].
  eapply wp_upd_proc; [by apply list_lookup_insert_eq|]. cbn [ks_procs set_procs]. rewrite list_insert_insert_eq.
  wp_step. apply namei_root; [rewrite Es5; unfold s4; by rewrite Es3|rewrite Es5; unfold s4; by rewrite Es3|].
  wp_step. eapply wp_upd_proc; [by apply list_lookup_insert_eq|]. cbn [ks_procs set_procs set_inodes]. rewrite list_insert_insert_eq.
  eapply wp_upd_proc; [by apply list_lookup_insert_eq|]. cbn [ks_procs set_procs set_inodes]. rewrite list_insert_insert_eq.
  match goal with |- context [<[0%nat:=?z]> (ks_procs s)] => set (x := z) end.
  destruct (gr_free _ _ _ _ _ _ _ G3) as (k3 & E3' & T3), (gr_free _ _ _ _ _ _ _ G5) as (k5 & E5' & T5').
  pose proof (fl_nodup _ _ Hf) as [Had _]%NoDup_cons.
  assert (∀ i t, T5 !! i = Some t → t ∈ l) as Tab.
  { intros i t [[Ht|Ht]%T3|Ht]%T5'; [by rewrite lookup_empty in Ht|..]; rewrite E3', ?E5', !elem_of_app; auto. }
  exists x, a, d, T5, l5, m5, f5. split_and!.
  - destruct US as [[? [] ? ? ?] ? ?]. by split; [split|..].
  - by split.
  - rewrite Es5. unfold s4. by rewrite Es3.
  - intros b Hb. rewrite E3', E5'. rewrite !elem_of_cons, !elem_of_app. rewrite !elem_of_cons in Hb. tauto.
  - intros i t Ht. do 2 right. by apply Tab in Ht.
  - split_and!; [by intros ->; apply Had; left|intros Hin; apply Had; right; rewrite E3', E5', !elem_of_app; auto|].
    intros i Ht. apply Had. right. by eapply Tab.
  - intros b [Hba [Hbd Hbl]%not_elem_of_cons]%not_elem_of_cons. change m5 with (ks_mem (set_freelist f5 (set_mem m5 s4))). rewrite <-Es5.
    assert (outside d ∅ l b) as Ob by (split_and!; [done|done|intros i; by rewrite lookup_empty]).
    rewrite (gr_mem _ _ _ _ _ _ _ G5) by (by eapply outside_mono). cbn [s4 ks_mem set_procs].
    rewrite (gr_mem _ _ _ _ _ _ _ G3) by done. cbn [ks_mem set_mem]. by rewrite lookup_insert_ne.
  - intros va b Hva Hb. rewrite Es5 in U5. assert (b ∈ l) as Hbl by (rewrite E3', elem_of_app; right; by eapply U5).
    split; [by do 2 right|]. intros ->. apply Had. by right.
  - by rewrite Es5 in E5.
  - by rewrite Es5 in B5.
Qed.

End UserInit.
