(* ===== verification/Kbd.v ===== *)
(** * Kbd: the keyboard (kbd.c and kbd.h)

    Scan codes become characters through four tables and a word of modifier
    bits.  The bytes the keyboard controller has to offer are [ms_kbd]. *)

From S2P Require Import Prelude Bytes Kernel Sched Print Vm.

(** ** kbd.h *)

Abbreviation NO := 0.
Abbreviation SHIFT := 1.
Abbreviation CTL := 2.
Abbreviation ALT := 4.
Abbreviation CAPSLOCK := 8.
Abbreviation NUMLOCK := 16.
Abbreviation SCROLLLOCK := 32.
Abbreviation E0ESC := 64.

Abbreviation KEY_HOME := 0xE0.
Abbreviation KEY_END := 0xE1.
Abbreviation KEY_UP := 0xE2.
Abbreviation KEY_DN := 0xE3.
Abbreviation KEY_LF := 0xE4.
Abbreviation KEY_RT := 0xE5.
Abbreviation KEY_PGUP := 0xE6.
Abbreviation KEY_PGDN := 0xE7.
Abbreviation KEY_INS := 0xE8.
Abbreviation KEY_DEL := 0xE9.

(** A character constant. *)
Definition ch (s : string) : Z := hd 0 (chars s).

(** [C(x)], control-x. *)
Definition C (s : string) : Z := ch s - 64.

(** An array of 256 bytes with the initialisers [l] from index 0 on and the
    designated ones [d]. *)
Definition uchar256 (l : list Z) (d : list (nat * Z)) : list Z :=
  foldr (λ e t, <[e.1:=e.2]> t) (l ++ replicate (256 - length l) NO) d.

Definition shiftcode : list Z :=
  uchar256 [] [(0x1D, CTL); (0x2A, SHIFT); (0x36, SHIFT); (0x38, ALT); (0x9D, CTL); (0xB8, ALT)]%nat.

Definition togglecode : list Z :=
  uchar256 [] [(0x3A, CAPSLOCK); (0x45, NUMLOCK); (0x46, SCROLLLOCK)]%nat.

(** The keys after the E0 escape, common to the three maps. *)
Definition keypad (enter div : Z) : list (nat * Z) :=
  [(0x9C, enter); (0xB5, div); (0xC8, KEY_UP); (0xD0, KEY_DN); (0xC9, KEY_PGUP); (0xD1, KEY_PGDN);
   (0xCB, KEY_LF); (0xCD, KEY_RT); (0x97, KEY_HOME); (0xCF, KEY_END); (0xD2, KEY_INS);
   (0xD3, KEY_DEL)]%nat.

Definition normalmap : list Z :=
  uchar256
    ([NO; 0x1B] ++ chars "1234567890-=" ++ [8; 9] ++
     chars "qwertyuiop[]" ++ [10; NO] ++
     chars "asdfghjkl;'`" ++ [NO] ++
     chars "\zxcvbnm,./" ++ [NO] ++ chars "*" ++
     [NO] ++ chars " " ++ replicate 13 NO ++
     chars "789-456+1230." ++ replicate 4 NO)
    (keypad 10 (ch "/")).

(** The double quote has code 34. *)
Definition shiftmap : list Z :=
  uchar256
    ([NO; 27] ++ chars "!@#$%^&*()_+" ++ [8; 9] ++
     chars "QWERTYUIOP{}" ++ [10; NO] ++
     chars "ASDFGHJKL:" ++ [34] ++ chars "~" ++ [NO] ++
     chars "|ZXCVBNM<>?" ++ [NO] ++ chars "*" ++
     [NO] ++ chars " " ++ replicate 13 NO ++
     chars "789-456+1230." ++ replicate 4 NO)
    (keypad 10 (ch "/")).

Definition ctlmap : list Z :=
  uchar256
    (replicate 16 NO ++
     [C "Q"; C "W"; C "E"; C "R"; C "T"; C "Y"; C "U"; C "I";
      C "O"; C "P"; NO; NO; 13; NO; C "A"; C "S";
      C "D"; C "F"; C "G"; C "H"; C "J"; C "K"; C "L"; NO;
      NO; NO; NO; C "\"; C "Z"; C "X"; C "C"; C "V";
      C "B"; C "N"; C "M"; NO; NO; u8 (C "/"); NO; NO])
    (keypad 13 (u8 (C "/"))).

(** ** kbd.c *)

Definition charcode : list (list Z) := [normalmap; shiftmap; ctlmap; ctlmap].

(** The part of [kbdgetc] after the data byte is read: the character and the
    new value of [shift]. *)
Definition kbd_decode (shift data : Z) : option (Z * Z) :=
  if data =? 0xE0 then Some (0, Z.lor shift E0ESC)
  else if hasb data 0x80 then
    let data := if hasb shift E0ESC then data else Z.land data 0x7F in
    sc ← shiftcode !! Z.to_nat data;
    Some (0, Z.land shift (u32 (Z.lnot (Z.lor sc E0ESC))))
  else
    let '(data, shift) :=
      if hasb shift E0ESC then (Z.lor data 0x80, Z.land shift (u32 (Z.lnot E0ESC)))
      else (data, shift) in
    sc ← shiftcode !! Z.to_nat data;
    tc ← togglecode !! Z.to_nat data;
    let shift := Z.lxor (Z.lor shift sc) tc in
    map ← charcode !! Z.to_nat (Z.land shift (Z.lor CTL SHIFT));
    c ← map !! Z.to_nat data;
    let c :=
      if hasb shift CAPSLOCK then
        if (97 <=? c) && (c <=? 122) then u32 (c + (65 - 97))
        else if (65 <=? c) && (c <=? 90) then u32 (c + (97 - 65)) else c
      else c in
    Some (c, shift).

Definition kbdgetc : K Z :=
  m ← gets ks_misc;
  match ms_kbd m with
  | [] => mret (-1)
  | data :: rest =>
      upd_misc (with_ms_kbd rest);;
      r ← the (kbd_decode (ms_kbd_shift m) data);
      upd_misc (with_ms_kbd_shift r.2);;
      mret r.1
  end.

(** ** Every byte is decoded *)

Definition all_codes : list Z := seqZ 0 256.
Definition all_shifts : list Z := seqZ 0 128.

(** The three modifier keys and the escape stay within seven bits. *)
Definition decode_ok (shift data : Z) : bool :=
  match kbd_decode shift data with
  | Some (c, sh) => (0 <=? c) && (c <? 256) && (0 <=? sh) && (sh <? 128)
  | None => false
  end.

Lemma decode_table : forallb (λ sh, forallb (decode_ok sh) all_codes) all_shifts = true.
Proof. by vm_compute. Qed.

Lemma decode_in_range shift data :
  0 ≤ shift < 128 → 0 ≤ data < 256 → decode_ok shift data = true.
Proof.
  intros Hs Hd. pose proof decode_table as T. rewrite forallb_forall in T.
  specialize (T shift). rewrite forallb_forall in T.
  apply T; apply list_elem_of_In, elem_of_seqZ; lia.
Qed.

(** The keyboard holds bytes and [shift] is in range. *)
Definition kbd_ok (s : kstate) : Prop :=
  bytes_ok (ms_kbd (ks_misc s)) ∧ 0 ≤ ms_kbd_shift (ks_misc s) < 128.

(** [kbdgetc] answers -1 when there is no byte, and otherwise takes one byte
    and answers with a character; only the keyboard's state changes. *)
Lemma kbdgetc_spec s :
  kbd_ok s →
  wp kbdgetc (λ c s', kbd_ok s' ∧ (∃ m, s' = set_misc m s) ∧ -1 ≤ c < 256 ∧
    match ms_kbd (ks_misc s) with
    | [] => c = -1 ∧ s' = s
    | data :: rest => 0 ≤ c ∧ ms_kbd (ks_misc s') = rest ∧
        kbd_decode (ms_kbd_shift (ks_misc s)) data = Some (c, ms_kbd_shift (ks_misc s'))
    end) s.
Proof.
  intros [Hk Hs]. unfold kbdgetc, upd_misc. wp_steps.
  destruct (ms_kbd (ks_misc s)) as [|data rest] eqn:E.
  - wp_step. split_and!; try done; try lia; [split; [by rewrite E|done]|].
    exists (ks_misc s). by destruct s.
  - apply Forall_cons in Hk as [Hd Hr]. wp_steps.
    pose proof (decode_in_range _ _ Hs Hd) as D. unfold decode_ok in D.
    destruct (kbd_decode _ data) as [[c sh]|] eqn:Ed; [|done].
    eapply wp_the; [done|]. wp_steps. simpl.
    rewrite !andb_true_iff, !Z.leb_le, !Z.ltb_lt in D.
    split_and!; try done; try lia; [split; simpl; [done|lia]|by eexists].
Qed.

Definition letter_ok (sh data : Z) : bool :=
  let c := normalmap !!! Z.to_nat data in
  negb ((97 <=? c) && (c <=? 122)) || hasb sh CTL || hasb sh E0ESC ||
  bool_decide (kbd_decode sh data =
    Some (if xorb (hasb sh SHIFT) (hasb sh CAPSLOCK) then c - 32 else c, sh)).

Lemma letter_table : forallb (λ sh, forallb (letter_ok sh) (seqZ 0 128)) all_shifts = true.
Proof. by vm_compute. Qed.

(** Letters.  Pressing the key of the letter [c], with no control key held
    and no escape pending, gives the upper case letter if exactly one of shift
    and caps lock is on and the lower case letter otherwise, and leaves the
    modifiers as they were. *)
Theorem kbd_letter sh data c :
  0 ≤ sh < 128 → 0 ≤ data < 128 → normalmap !! Z.to_nat data = Some c → 97 ≤ c ≤ 122 →
  hasb sh CTL = false → hasb sh E0ESC = false →
  kbd_decode sh data =
    Some (if xorb (hasb sh SHIFT) (hasb sh CAPSLOCK) then c - 32 else c, sh).
Proof.
  intros Hs Hd Hc Hl Hctl Hesc. pose proof letter_table as T. rewrite forallb_forall in T.
  specialize (T sh ltac:(apply list_elem_of_In, elem_of_seqZ; lia)). rewrite forallb_forall in T.
  specialize (T data ltac:(apply list_elem_of_In, elem_of_seqZ; lia)). unfold letter_ok in T.
  rewrite (list_lookup_total_correct _ _ _ Hc), Hctl, Hesc in T.
  rewrite (proj2 (Z.leb_le 97 c)), (proj2 (Z.leb_le c 122)) in T by lia. simpl in T.
  by apply bool_decide_eq_true in T.
Qed.

(** The key of [a], with caps lock on. *)
Lemma kbd_letter_witness : kbd_decode CAPSLOCK 0x1E = Some (65, CAPSLOCK).
Proof. apply (kbd_letter CAPSLOCK 0x1E 97); (lia || reflexivity). Defined.
