(* ===== verification/Console.v ===== *)
(** * Console: console input and the console device (console.c, uart.c)

    Keys are collected in a ring buffer with three counters: what has been
    read ([r]), what has been entered ([w]) and what is being edited ([e]).
    Lines that were entered are kept in [history], from which the cursor keys
    recall them.  The specification is a pair of queues, the entered bytes and
    the line under the cursor. *)

From S2P Require Import Prelude Bytes CString Ring Kernel Sched Ide Bio Log Crash Block Inode Icache Kalloc Pipe File Print Vm Proc Kbd.

#[local] Arguments replicate : simpl never.

Abbreviation INPUT_BUF := 128.

(** ** uart.c *)

Abbreviation COM1 := 0x3f8.

(** [outb(port, v)], recorded last first. *)
Definition outb (port v : Z) : K () :=
  upd_misc (λ m, with_ms_ports ((port, [u8 v]) :: ms_ports m) m).

Definition uart_puts : list Z → K () :=
  fix go l := match l with [] => mret () | c :: l' => uartputc c;; go l' end.

(** [lsr]: what the line status register reads.  The two reads that acknowledge
    interrupts have no effect on the state; the calls that enable the interrupt
    are in Main.v. *)
Definition uartinit (lsr : Z) : K () :=
  outb (COM1 + 2) 0;;
  outb (COM1 + 3) 0x80;;
  outb (COM1 + 0) (115200 / 9600);;
  outb (COM1 + 1) 0;;
  outb (COM1 + 3) 0x03;;
  outb (COM1 + 4) 0;;
  outb (COM1 + 1) 0x01;;
  if lsr =? 0xFF then mret () else
  upd_misc (with_ms_uart true);;
  uart_puts (chars "xv6..." ++ [10]).

Definition uartgetc : K Z :=
  m ← gets ks_misc;
  if negb (ms_uart m) then mret (-1) else
  match ms_rx m with
  | [] => mret (-1)
  | c :: rest => upd_misc (with_ms_rx rest);; mret c
  end.

(** ** consoleintr *)

(** [input.buf[input.e++ % INPUT_BUF] = c] *)
Definition put_input (c : Z) (x : cons) : cons :=
  with_cn_e (u32 (cn_e x + 1))
    (with_cn_buf (<[Z.to_nat (cn_e x mod INPUT_BUF):=u8 c]> (cn_buf x)) x).

(** [input.e--; consputc(BACKSPACE)] *)
Definition rubout : K () :=
  upd_cons (λ x, with_cn_e (u32 (cn_e x - 1)) x);; consputc BACKSPACE.

Fixpoint rubouts (n : nat) : K () :=
  match n with O => mret () | S n' => rubout;; rubouts n' end.

(** Kill line; every turn brings [e] nearer to [w]. *)
Fixpoint kill_loop (fuel : nat) : K () :=
  match fuel with
  | O => fault
  | S fuel' =>
      x ← get_cons;
      if cn_e x =? cn_w x then mret () else
      c ← the (cn_buf x !! Z.to_nat (u32 (cn_e x - 1) mod INPUT_BUF));
      if c =? 10 then mret () else rubout;; kill_loop fuel'
  end.

Definition kill_line : K () :=
  x ← get_cons; kill_loop (S (Z.to_nat (u32 (cn_e x - cn_w x)))).

(** [history[row]] as a string.  The array is ten rows of 128 bytes; an access
    outside all of it faults. *)
Definition history_row (row : Z) : K (list Z) :=
  x ← get_cons;
  if row <? 0 then fault else
  let mem := drop (Z.to_nat (128 * row)) (cn_history x) in
  n ← the (strlen mem);
  mret (take n mem).

(** [history[row][i] = v] *)
Definition set_history (row i v : Z) : K () :=
  x ← get_cons;
  let k := 128 * row + i in
  if (0 <=? k) && (k <? 1280)
  then upd_cons (with_cn_history (<[Z.to_nat k:=v]> (cn_history x)))
  else fault.

(** The loop that enters a recalled line. *)
Fixpoint recall (l : list Z) : K () :=
  match l with
  | [] => mret ()
  | p :: l' =>
      x ← get_cons;
      when (negb (p =? 0) && (u32 (cn_e x - cn_r x) <? INPUT_BUF)) (upd_cons (put_input p));;
      consputc p;;
      recall l'
  end.

(** What the two cursor keys have in common. *)
Definition show_history : K () :=
  x ← get_cons;
  rubouts (Z.to_nat (cn_prevCount x));;
  l ← history_row (cn_upCount x);
  upd_cons (with_cn_prevCount (Z.of_nat (length l)));;
  recall l.

Definition key_up : K () :=
  upd_cons (λ x, with_cn_upCount (s32 (cn_upCount x - 1)) x);;
  x ← get_cons;
  if (cn_upCount x <? 0) && negb (9 <? cn_cmdCount x) then mret () else
  when (cn_upCount x <? 0) (upd_cons (with_cn_upCount 9));;
  x ← get_cons;
  if cn_upCount x =? cn_historyIndex x then mret () else show_history.

Definition key_down : K () :=
  upd_cons (λ x, with_cn_upCount (s32 (cn_upCount x + 1)) x);;
  x ← get_cons;
  when (9 <? cn_upCount x) (upd_cons (with_cn_upCount 0));;
  x ← get_cons;
  if cn_upCount x =? cn_historyIndex x then mret () else show_history.

(** The loop that copies the line entered to [history[historyIndex]]. *)
Fixpoint copy_line (row w : Z) (i : Z) (n : nat) : K () :=
  match n with
  | O => mret ()
  | S n' =>
      x ← get_cons;
      c ← the (cn_buf x !! Z.to_nat (u32 (w + i) mod 128));
      set_history row i c;;
      copy_line row w (i + 1) n'
  end.

Definition save_line : K () :=
  x ← get_cons;
  let n := u32 (cn_e x + 128 - cn_w x) mod 128 in
  copy_line (cn_historyIndex x) (cn_w x) 0 (Z.to_nat n);;
  set_history (cn_historyIndex x) (n - 1) 0;;
  upd_cons (λ x, with_cn_historyIndex (s32 (cn_historyIndex x + 1)) x);;
  upd_cons (λ x, with_cn_upCount (cn_historyIndex x) x).

(** The part of the default case that runs when a line is complete. *)
Definition enter_line : K () :=
  upd_cons (λ x, with_cn_prevCount 0 (with_cn_cmdCount (s32 (cn_cmdCount x + 1)) x));;
  x ← get_cons;
  when (negb (cn_e x =? cn_w x)) save_line;;
  upd_cons (λ x, with_cn_w (cn_e x) x);;
  wakeup ChInput.

Definition key_char (c : Z) : K () :=
  x ← get_cons;
  if (c =? 0) || negb (u32 (cn_e x - cn_r x) <? INPUT_BUF) then mret () else
  let c := if c =? 13 then 10 else c in
  upd_cons (put_input c);;
  consputc c;;
  x ← get_cons;
  when ((c =? 10) || (c =? C "D") || (cn_e x =? u32 (cn_r x + INPUT_BUF))) enter_line.

(** The [switch]; [pcs] is what [getcallerpcs] finds (see [procdump]). *)
Definition console_key (pcs : proc → list Z) (c : Z) : K () :=
  if c =? C "P" then procdump pcs
  else if c =? C "U" then kill_line
  else if (c =? C "H") || (c =? 0x7f) then
    x ← get_cons; when (negb (cn_e x =? cn_w x)) rubout
  else if c =? KEY_UP then key_up
  else if c =? KEY_DN then key_down
  else key_char c.

(** The loop of [consoleintr]; [getc] answers at most [fuel - 1] times before
    it has nothing left. *)
Fixpoint console_loop (pcs : proc → list Z) (getc : K Z) (fuel : nat) : K () :=
  match fuel with
  | O => fault
  | S fuel' =>
      c ← getc;
      if c <? 0 then mret () else console_key pcs c;; console_loop pcs getc fuel'
  end.

Definition consoleintr (pcs : proc → list Z) (getc : K Z) (fuel : nat) : K () :=
  acquire L_input;;
  console_loop pcs getc fuel;;
  release L_input.

Definition kbdintr (pcs : proc → list Z) : K () :=
  m ← gets ks_misc; consoleintr pcs kbdgetc (S (length (ms_kbd m))).

Definition uartintr (pcs : proc → list Z) : K () :=
  m ← gets ks_misc; consoleintr pcs uartgetc (S (length (ms_rx m))).

(** ** The console device *)

Section Device.
Context `{Ide}.

(** The loop of [consoleread], entered with the lock held: whether it ended
    otherwise than by the return with -1, and what was stored at [dst].
    [n < target] holds from the second turn on.  Every turn takes a byte; a
    process that finds none goes to sleep. *)
Fixpoint consoleread_loop (first : bool) (n : nat) : K (bool * list Z) :=
  match n with
  | O => mret (true, [])
  | S n' =>
      x ← get_cons;
      if cn_r x =? cn_w x then
        k ← killed;
        if (k : bool) then mret (false, []) else sleep ChInput L_input
      else
      c ← the (cn_buf x !! Z.to_nat (cn_r x mod INPUT_BUF));
      upd_cons (λ x, with_cn_r (u32 (cn_r x + 1)) x);;
      if c =? C "D" then
        when (negb first) (upd_cons (λ x, with_cn_r (u32 (cn_r x - 1)) x));;
        mret (true, [])
      else if c =? 10 then mret (true, [c])
      else
        l ← consoleread_loop false n';
        mret (l.1, c :: l.2)
  end.

(** The return value and the bytes stored at [dst]. *)
Definition consoleread (ip : nat) (n : Z) : K (Z * list Z) :=
  iunlock ip;;
  acquire L_input;;
  r ← consoleread_loop true (Z.to_nat n);
  release L_input;;
  ilock ip;;
  mret (if (r.1 : bool) then Z.of_nat (length r.2) else -1, r.2).

Fixpoint consolewrite_loop (l : list Z) : K () :=
  match l with
  | [] => mret ()
  | c :: l' => consputc (Z.land c 0xff);; consolewrite_loop l'
  end.

Definition consolewrite (ip : nat) (buf : list Z) (n : Z) : K Z :=
  iunlock ip;;
  acquire L_cons;;
  consolewrite_loop (take (Z.to_nat n) buf);;
  release L_cons;;
  ilock ip;;
  mret n.

(** The functions [consoleinit] stores in [devsw]. *)
#[export] Instance console_devsw : Devsw := {
  devread := consoleread;
  devwrite := consolewrite;
}.

End Device.

(** The locks start free; the calls that enable the interrupt are in Main.v. *)
Definition consoleinit : K () :=
  modify (λ s, set_devsw (<[Z.to_nat CONSOLE:=true]> (ks_devsw s)) s);;
  upd_cons (with_cn_locking true).

(** ** The input buffer as a pair of queues *)

(** The bytes entered and not yet read, and the line being edited. *)
Definition tty : Type := list Z * list Z.

Record input_ok (x : cons) (t : tty) : Prop := {
  in_ring : ringbuf 128 (cn_buf x) (cn_r x) (cn_e x) (t.1 ++ t.2);
  in_w : cn_w x = u32 (cn_r x + Z.of_nat (length t.1));
}.

(** Every line under the cursor is free of newlines. *)
Definition line_ok (t : tty) : Prop := 10 ∉ t.2.

(** What a key other than the cursor keys and control-P does. *)
Definition ordinary (c : Z) : Prop := 0 ≤ c < 256 ∧ c ≠ C "P" ∧ c ≠ KEY_UP ∧ c ≠ KEY_DN.

Definition is_end (c : Z) (n : nat) : bool :=
  (c =? 10) || (c =? C "D") || bool_decide (n = 128%nat).

Definition tty_key (c : Z) (t : tty) : tty :=
  if c =? C "U" then (t.1, [])
  else if (c =? C "H") || (c =? 0x7f) then (t.1, take (length t.2 - 1) t.2)
  else if (c =? 0) || bool_decide (128 ≤ length (t.1 ++ t.2))%nat then t
  else
    let c := if c =? 13 then 10 else c in
    let line := t.2 ++ [c] in
    if is_end c (length (t.1 ++ line)) then (t.1 ++ line, []) else (t.1, line).

(** The fields of the console that the editing of a line uses. *)
Definition editing (x : cons) :=
  (cn_buf x, cn_r x, cn_w x, cn_e x, cn_history x, (cn_historyIndex x, cn_cmdCount x, cn_upCount x,
   cn_prevCount x)).

Record ready (x : cons) : Prop := {
  rd_screen : screen_ok x;
  rd_run : cn_panicked x = false;
  rd_history : length (cn_history x) = 1280%nat;
}.

Lemma wp_upd_cons f (Q : () → kstate → Prop) s :
  Q () (set_cons (f (ks_cons s)) s) → wp (upd_cons f) Q s.
Proof. exact id. Qed.

Lemma wp_get_cons (Q : cons → kstate → Prop) s : Q (ks_cons s) s → wp get_cons Q s.
Proof. exact id. Qed.

(** A character is echoed: the editing goes on as it was. *)
Lemma wp_consputc c (Q : () → kstate → Prop) s :
  ready (ks_cons s) →
  (∀ x, ready x → editing x = editing (ks_cons s) → Q () (set_cons x s)) → wp (consputc c) Q s.
Proof.
  intros [H1 H2 H3] HQ. eapply wp_mono; [by apply consputc_spec|].
  intros [] s' [[x ->] Hs _ [Hp _] (Hb & Hr & Hw & He) (Hh & Hi & Hc & Hu & Hv)]. apply HQ.
  - split; [done|by rewrite <-H2|by rewrite <-H3, <-Hh].
  - simpl in *. unfold editing. by rewrite Hb, Hr, Hw, He, Hh, Hi, Hc, Hu, Hv.
Qed.

Lemma editing_input x x' t : editing x' = editing x → input_ok x t → input_ok x' t.
Proof. intros [= Hb Hr Hw He _ _] [R W]. split; by rewrite ?Hb, ?Hr, ?Hw, ?He. Qed.

Ltac con_step :=
  lazymatch goal with
  | |- wp (mbind _ _) _ _ => apply wp_bind
  | |- wp get_cons _ _ => apply wp_get_cons
  | |- wp (upd_cons _) _ _ => apply wp_upd_cons
  | |- wp (mret _) _ _ => apply wp_ret
  end.
Ltac con_steps := repeat con_step; cbn [ks_cons set_cons].

(** [e == w]: there is nothing to edit. *)
Lemma line_empty x t : input_ok x t → (cn_e x =? cn_w x) = bool_decide (t.2 = []).
Proof.
  intros [R W]. destruct R as [_ Hr He Hq _]. rewrite length_app in *. rewrite W, He.
  destruct (Z.eqb_spec (u32 (cn_r x + Z.of_nat (length t.1 + length t.2)))
    (u32 (cn_r x + Z.of_nat (length t.1)))) as [E|E]; symmetry.
  - apply bool_decide_true. apply u32_eq_close in E; [|lia]. apply nil_length_inv. lia.
  - apply bool_decide_false. intros H0. apply E. by rewrite H0, Nat.add_0_r.
Qed.

Lemma wp_rubout c done line (Q : () → kstate → Prop) s :
  ready (ks_cons s) → input_ok (ks_cons s) (done, line ++ [c]) →
  (∀ x, ready x → input_ok x (done, line) → cn_historyIndex x = cn_historyIndex (ks_cons s) →
    Q () (set_cons x s)) → wp rubout Q s.
Proof.
  intros HR [R W] HQ. unfold rubout. con_steps. apply wp_consputc.
  { by destruct HR as [[] ? ?]; split; [split|..]. }
  cbn [ks_cons set_cons]. intros x Hx E. apply (HQ x); [done| |by injection E].
  eapply editing_input; [exact E|]. simpl in *. rewrite app_assoc in R.
  split; [by apply (ring_unpush _ _ _ _ c R)|done].
Qed.

Lemma kill_loop_spec done line s fuel :
  (length line < fuel)%nat → 10 ∉ line → ready (ks_cons s) → input_ok (ks_cons s) (done, line) →
  wp (kill_loop fuel) (λ _ s', ∃ x, s' = set_cons x s ∧ ready x ∧ input_ok x (done, []) ∧
    cn_historyIndex x = cn_historyIndex (ks_cons s)) s.
Proof.
  revert s fuel. induction line as [|c line IH] using rev_ind; intros s [|fuel] Hf Hn HR I; [lia| |lia|];
    cbn [kill_loop]; con_steps; rewrite (line_empty _ _ I); simpl.
  - con_step. exists (ks_cons s). by destruct s.
  - rewrite bool_decide_false by (by destruct line). rewrite length_app in Hf. simpl in Hf.
    apply not_elem_of_app in Hn as [Hn Hc]. pose proof (in_ring _ _ I) as R. simpl in R. rewrite app_assoc in R.
    con_step. eapply wp_the; [by apply (ring_unpush _ _ _ _ c R)|].
    rewrite (proj2 (Z.eqb_neq c 10)) by set_solver. con_step.
    eapply wp_rubout; [done..|]. intros x Hx Ix Ei.
    eapply wp_mono; [apply IH; [lia|done..]|]. intros [] s' (y & -> & ? & ? & ?). exists y.
    by rewrite <-Ei.
Qed.

(** *** The history *)

Lemma wp_set_history row i v (Q : () → kstate → Prop) s :
  0 ≤ 128 * row + i < 1280 →
  Q () (set_cons (with_cn_history (<[Z.to_nat (128 * row + i):=v]> (cn_history (ks_cons s))) (ks_cons s)) s) →
  wp (set_history row i v) Q s.
Proof.
  intros H HQ. unfold set_history. con_steps.
  by rewrite (proj2 (Z.leb_le _ _)), (proj2 (Z.ltb_lt _ _)) by lia.
Qed.

Lemma copy_line_spec row w l : ∀ i s,
  0 ≤ 128 * row + i → 128 * row + i + Z.of_nat (length l) ≤ 1280 →
  length (cn_history (ks_cons s)) = 1280%nat →
  (∀ k c, l !! k = Some c → cn_buf (ks_cons s) !! Z.to_nat (u32 (w + i + Z.of_nat k) mod 128) = Some c) →
  runs_to (copy_line row w i (length l)) s ()
    (set_cons (with_cn_history (splice (Z.to_nat (128 * row + i)) l (cn_history (ks_cons s))) (ks_cons s)) s).
Proof.
  induction l as [|c l IH]; intros i s H0 H1 Hh Hl; simpl.
  - unfold splice. simpl. by destruct s as [? ? ? ? ? ? ? ? ? ? ? ? ? ? ? ? ? [] ?].
  - simpl in H1. pose proof (Hl 0%nat c eq_refl) as Hc. rewrite Z.add_0_r in Hc.
    unfold runs_to, mbind, M_bind, get_cons, gets, the. rewrite Hc. simpl.
    unfold set_history, mbind, M_bind, get_cons, gets, upd_cons, modify.
    rewrite (proj2 (Z.leb_le _ _)), (proj2 (Z.ltb_lt _ _)) by lia. simpl.
    rewrite IH.
    + simpl. replace (Z.to_nat (128 * row + (i + 1))) with (S (Z.to_nat (128 * row + i))) by lia.
      by rewrite splice_cons.
    + lia.
    + lia.
    + simpl. len.
    + simpl. intros k d Hk. rewrite <-(Hl (S k) d Hk). do 4 f_equal. lia.
Qed.

(** The row of a line that was entered: the line without its last byte. *)
Definition saved (row : Z) (line h : list Z) : list Z :=
  <[Z.to_nat (128 * row + Z.of_nat (length line) - 1):=0]> (splice (Z.to_nat (128 * row)) line h).

Lemma line_bytes x t k c :
  input_ok x t → t.2 !! k = Some c → cn_buf x !! Z.to_nat (u32 (cn_w x + 0 + Z.of_nat k) mod 128) = Some c.
Proof.
  intros [R W] Hk. rewrite W, Z.add_0_r, u32_add_l, mod_u32.
  rewrite <-(ring_data _ _ _ _ _ R (length t.1 + k) c); [do 3 f_equal; lia|].
  by rewrite lookup_app_r, Nat.add_comm, Nat.add_sub by lia.
Qed.

(** The length of the line as [consoleintr] computes it. *)
Lemma line_length x t :
  input_ok x t → (length t.2 < 128)%nat →
  u32 (cn_e x + 128 - cn_w x) mod 128 = Z.of_nat (length t.2).
Proof.
  intros [R W] Hl. rewrite W, (ring_w _ _ _ _ _ R), mod_u32, length_app.
  rewrite Zminus_mod, mod_u32, <-Zplus_mod_idemp_l, mod_u32, Zplus_mod_idemp_l, <-Zminus_mod.
  replace (_ - _) with (Z.of_nat (length t.2) + 1 * 128) by lia. rewrite Z_mod_plus_full.
  apply Z.mod_small. lia.
Qed.

(** A complete line joins the bytes entered, is saved, and wakes the readers. *)
Lemma enter_line_spec done line s :
  ready (ks_cons s) → input_ok (ks_cons s) (done, line) → (L_ptable ∉ ks_held s) →
  0 ≤ cn_historyIndex (ks_cons s) < 10 → (0 < length line < 128)%nat →
  wp enter_line (λ _ s', ∃ x, s' = set_procs (wakeup1_proc ChInput <$> ks_procs s) (set_cons x s) ∧
    ready x ∧ input_ok x (done ++ line, []) ∧
    cn_historyIndex x = cn_historyIndex (ks_cons s) + 1 ∧ cn_upCount x = cn_historyIndex x ∧
    cn_prevCount x = 0 ∧
    cn_history x = saved (cn_historyIndex (ks_cons s)) line (cn_history (ks_cons s))) s.
Proof.
  intros HR I Hl Hh Hlen. unfold enter_line. con_steps. simpl.
  rewrite (line_empty _ _ I), bool_decide_false by (intros E; simpl in E; subst; simpl in *; lia).
  unfold when. cbn [negb]. unfold save_line. con_steps. simpl.
  pose proof (line_length _ _ I ltac:(simpl; lia)) as Hn. simpl in Hn.
  rewrite Hn, Nat2Z.id. eapply wp_of_runs.
  { apply copy_line_spec; simpl; [lia|lia|apply HR|]. intros k c Hk. by apply (line_bytes _ (done, line)). }
  cbn [ks_cons set_cons]. con_step. apply wp_set_history; [lia|]. simpl. con_steps.
  apply wp_wakeup; [done|]. simpl. eexists. split; [reflexivity|].
  rewrite Z.add_0_r, s32_small by lia. split_and!; try done.
  - destruct HR as [[] ? ?]. split; simpl; [by split|done|len].
  - destruct I as [R W]. split; simpl; [by rewrite app_nil_r|]. apply (ring_w _ _ _ _ _ R).
  - simpl. unfold saved. do 2 f_equal. lia.
Qed.

(** *** One key *)

(** Whether the key completes a line. *)
Definition enters (c : Z) (t : tty) : bool :=
  bool_decide (length t.1 < length (tty_key c t).1)%nat.

(** The state after a key: the console changed, and the readers woken if a
    line was completed. *)
Definition after_key (e : bool) (s : kstate) (x : cons) : kstate :=
  if e then set_procs (wakeup1_proc ChInput <$> ks_procs s) (set_cons x s) else set_cons x s.

(** What the lemmas on keys assume and keep. *)
Record typing (s : kstate) (t : tty) : Prop := {
  ty_ready : ready (ks_cons s);
  ty_input : input_ok (ks_cons s) t;
  ty_line : 10 ∉ t.2;
  ty_lock : L_ptable ∉ ks_held s;
  ty_index : 0 ≤ cn_historyIndex (ks_cons s);
}.

Definition key_post (c : Z) (t : tty) (s : kstate) (s' : kstate) : Prop :=
  ∃ x, s' = after_key (enters c t) s x ∧ typing s' (tty_key c t) ∧
    cn_historyIndex x = cn_historyIndex (ks_cons s) + (if enters c t then 1 else 0).

Lemma key_post_quiet c t s x :
  typing s t → (tty_key c t).1 = t.1 → (10 ∉ (tty_key c t).2) → ready x → input_ok x (tty_key c t) →
  cn_historyIndex x = cn_historyIndex (ks_cons s) → key_post c t s (set_cons x s).
Proof.
  intros [HR I Hn Hl Hi] E1 E2 Hx Ix Eh. exists x.
  assert (enters c t = false) as -> by (apply bool_decide_false; rewrite E1; lia). simpl.
  split_and!; [done| |lia]. split; simpl; [done..|lia].
Qed.

Lemma set_cons_same s : set_cons (ks_cons s) s = s.
Proof. by destruct s. Qed.

Lemma key_char_spec c t s :
  typing s t → (enters c t = true → cn_historyIndex (ks_cons s) < 10 ∧ (length t.2 < 127)%nat) → 0 ≤ c < 256 →
  c ≠ C "U" → c ≠ C "H" → c ≠ 0x7f →
  wp (key_char c) (λ _ s', key_post c t s s') s.
Proof.
  intros T Hfit Hc HU HH HD. pose proof T as [HR I Hn Hl Hi].
  destruct t as [done line]. unfold key_char. con_steps.
  rewrite (ring_count _ _ _ _ (in_ring _ _ I)).
  assert (Hk : tty_key c (done, line) =
    if (c =? 0) || bool_decide (128 ≤ length (done ++ line))%nat then (done, line) else
    let c' := if c =? 13 then 10 else c in
    if is_end c' (length (done ++ line ++ [c'])) then (done ++ line ++ [c'], []) else (done, line ++ [c'])).
  { unfold tty_key. rewrite (proj2 (Z.eqb_neq _ _) HU), (proj2 (Z.eqb_neq _ _) HH), (proj2 (Z.eqb_neq _ _) HD). done. }
  assert (Et : negb (Z.of_nat (length ((done, line).1 ++ (done, line).2)) <? 128) =
    bool_decide (128 ≤ length (done ++ line))%nat).
  { simpl. case_bool_decide; [apply negb_true_iff, Z.ltb_ge; lia|apply negb_false_iff, Z.ltb_lt; lia]. }
  rewrite Et. destruct ((c =? 0) || bool_decide (128 ≤ length (done ++ line))%nat) eqn:Eb.
  { con_step. rewrite <-(set_cons_same s) at 2. apply key_post_quiet; rewrite ?Hk; done. }
  apply orb_false_iff in Eb as [Ec Eb]. apply bool_decide_eq_false in Eb. apply Z.eqb_neq in Ec.
  set (c' := if c =? 13 then 10 else c) in *. simpl in Hk.
  assert (Hc' : 0 < c' < 256) by (unfold c'; destruct (c =? 13); lia).
  con_step. con_step. con_step. apply wp_consputc; cbn [ks_cons set_cons].
  { by destruct HR as [[] ? ?]; split; [split|..]. }
  intros x Hx Ex. con_steps.
  pose proof (ring_push _ _ _ _ c' (in_ring _ _ I) ltac:(simpl; lia)) as R. simpl in R.
  rewrite <-app_assoc in R.
  assert (Ix : input_ok x (done, line ++ [c'])).
  { eapply editing_input; [exact Ex|]. unfold put_input. split; simpl; [|apply (in_w _ _ I)].
    assert (u8 c' = c') as -> by (apply Z.mod_small; change (2 ^ 8) with 256; lia). done. }
  injection Ex as _ _ _ _ Exh Exi _ _ _.
  assert (Ee : (cn_e x =? u32 (cn_r x + 128)) = bool_decide (length (done ++ line ++ [c']) = 128%nat)).
  { rewrite (ring_full _ _ _ _ (in_ring _ _ Ix)). apply bool_decide_ext. simpl. lia. }
  rewrite Ee. fold (is_end c' (length (done ++ line ++ [c']))).
  destruct (is_end c' _) eqn:Eend; unfold when.
  - assert (enters c (done, line) = true) as Hent.
    { apply bool_decide_true. rewrite Hk. simpl. rewrite !length_app. simpl. lia. }
    destruct (Hfit Hent) as [Hh Hlen].
    eapply wp_mono; [apply (enter_line_spec done (line ++ [c'])); simpl; try done|].
    + rewrite Exi. simpl. lia.
    + rewrite length_app. simpl in *. lia.
    + intros [] s' (y & -> & Hy & Iy & Ei & _ & _ & _). exists y. simpl in *.
      rewrite Hent, Hk. split_and!; [done| |lia]. split; simpl; [done..|apply not_elem_of_nil|done|lia].
  - con_step. change (key_post c (done, line) s (set_cons x s)).
    apply key_post_quiet; rewrite ?Hk; try done. simpl.
    apply not_elem_of_app. split; [done|]. intros E%list_elem_of_singleton. by rewrite <-E in Eend.
Qed.

Lemma console_key_spec pcs c t s :
  typing s t → (enters c t = true → cn_historyIndex (ks_cons s) < 10 ∧ (length t.2 < 127)%nat) → ordinary c →
  wp (console_key pcs c) (λ _ s', key_post c t s s') s.
Proof.
  intros T Hfit (Hc & HP & HUp & HDn). pose proof T as [HR I Hn Hl Hi]. unfold console_key.
  rewrite (proj2 (Z.eqb_neq _ _) HP). destruct (Z.eqb_spec c (C "U")) as [->|HU].
  { unfold kill_line. con_steps. eapply wp_mono; [apply (kill_loop_spec t.1 t.2); try done|].
    - destruct I as [R W]. destruct R as [_ Hr He Hq _]. rewrite length_app in *. rewrite He, W.
      rewrite u32_sub_r, u32_sub_l. replace (_ - _) with (Z.of_nat (length t.2)) by lia.
      rewrite u32_small by lia. lia.
    - by destruct t.
    - intros [] s' (x & -> & Hx & Ix & Ei). apply key_post_quiet; try done. apply not_elem_of_nil. }
  destruct ((c =? C "H") || (c =? 0x7f)) eqn:EH.
  { assert (Hk : tty_key c t = (t.1, take (length t.2 - 1) t.2)).
    { unfold tty_key. by rewrite (proj2 (Z.eqb_neq _ _) HU), EH. }
    con_steps. rewrite (line_empty _ _ I). destruct t as [done line]. simpl in *.
    destruct line as [|d line _] using rev_ind.
    - simpl. con_step. rewrite <-(set_cons_same s) at 2. apply key_post_quiet; rewrite ?Hk; done.
    - rewrite bool_decide_false by (by destruct line). simpl.
      eapply wp_rubout; [done..|]. intros x Hx Ix Ei.
      assert (take (length (line ++ [d]) - 1) (line ++ [d]) = line) as Et.
      { rewrite length_app. simpl. by rewrite Nat.add_sub, take_app_length. }
      rewrite Et in Hk. apply key_post_quiet; rewrite ?Hk; try done. simpl. set_solver. }
  apply orb_false_iff in EH as [EH ED]. apply Z.eqb_neq in EH, ED.
  rewrite (proj2 (Z.eqb_neq _ _) HUp), (proj2 (Z.eqb_neq _ _) HDn).
  by apply key_char_spec.
Qed.

(** *** A burst of keys *)

Definition typed (keys : list Z) (t : tty) : tty := foldl (λ t c, tty_key c t) t keys.

(** The keys are ordinary, and each line that they enter is shorter than a row
    of [history] and finds a row of its ten free, [h] of them being used. *)
Fixpoint typable (h : Z) (t : tty) (keys : list Z) : Prop :=
  match keys with
  | [] => True
  | c :: keys' =>
      ordinary c ∧ (enters c t = true → h < 10 ∧ (length t.2 < 127)%nat) ∧
      typable (h + (if enters c t then 1 else 0)) (tty_key c t) keys'
  end.

Lemma tty_key_grows c t : (length t.1 ≤ length (tty_key c t).1)%nat.
Proof.
  unfold tty_key. repeat (case_match; simpl; try lia); rewrite !length_app; lia.
Qed.

Lemma typed_grows keys t : (length t.1 ≤ length (typed keys t).1)%nat.
Proof.
  revert t. induction keys as [|c keys IH]; intros t; simpl; [done|].
  etrans; [apply (tty_key_grows c)|apply IH].
Qed.

Lemma wakeup1_twice c p : wakeup1_proc c (wakeup1_proc c p) = wakeup1_proc c p.
Proof.
  unfold wakeup1_proc. destruct (bool_decide_reflect (p_state p = SLEEPING ∧ p_chan p = Some c)) as [H1|H1].
  - rewrite bool_decide_false; [done|]. simpl. naive_solver.
  - by rewrite bool_decide_false.
Qed.

(** The readers, woken if bytes were entered. *)
Definition woken (t t' : tty) (ps : list proc) : list proc :=
  if bool_decide (length t.1 < length t'.1)%nat then wakeup1_proc ChInput <$> ps else ps.

Lemma woken_trans t t' t'' ps :
  (length t.1 ≤ length t'.1 ≤ length t''.1)%nat → woken t' t'' (woken t t' ps) = woken t t'' ps.
Proof.
  intros H. unfold woken. repeat case_bool_decide; try lia; try done.
  rewrite <-list_fmap_compose. apply list_fmap_ext. intros i p _. simpl. apply wakeup1_twice.
Qed.

Lemma wp_uartgetc c rest (Q : Z → kstate → Prop) s :
  ms_uart (ks_misc s) = true → ms_rx (ks_misc s) = c :: rest →
  Q c (set_misc (with_ms_rx rest (ks_misc s)) s) → wp uartgetc Q s.
Proof. intros Hu Hr HQ. unfold uartgetc, upd_misc. wp_steps. by rewrite Hu, Hr. Qed.

Lemma uart_loop_spec pcs keys : ∀ s t,
  typing s t → ms_uart (ks_misc s) = true → ms_rx (ks_misc s) = keys →
  typable (cn_historyIndex (ks_cons s)) t keys →
  wp (console_loop pcs uartgetc (S (length keys))) (λ _ s', ks_held s' = ks_held s ∧
    typing s' (typed keys t) ∧ ms_rx (ks_misc s') = [] ∧
    ks_procs s' = woken t (typed keys t) (ks_procs s)) s.
Proof.
  induction keys as [|c keys IH]; intros s t T Hu Hk Hty.
  - cbn [console_loop length]. unfold uartgetc. wp_steps. rewrite Hu, Hk. cbn [negb]. wp_steps. cbn [Z.ltb Z.compare].
    wp_step. split_and!; try done. unfold woken. simpl. by rewrite bool_decide_false by lia.
  - destruct Hty as (Ho & Hfit & Hty). set (fuel := S (length keys)).
    change (length (c :: keys)) with fuel. cbn [console_loop]. wp_step.
    eapply wp_uartgetc; [done..|]. rewrite (proj2 (Z.ltb_ge c 0)) by (destruct Ho; lia).
    set (s1 := set_misc _ s). assert (T1 : typing s1 t) by (by destruct T; split).
    wp_call (console_key_spec pcs c t s1 T1 Hfit Ho).
    intros [] s2 (x & E2 & T2 & Ei).
    assert (Hs2 : ks_held s2 = ks_held s ∧ ks_misc s2 = ks_misc s1 ∧ ks_cons s2 = x ∧
      ks_procs s2 = woken t (tty_key c t) (ks_procs s)).
    { unfold woken. fold (enters c t). subst s2. by destruct (enters c t). }
    destruct Hs2 as (Hs2h & Hs2m & Hs2c & Hs2p). unfold fuel. eapply wp_mono; [apply IH; [exact T2|..]|].
    + by rewrite Hs2m.
    + by rewrite Hs2m.
    + by rewrite Hs2c, Ei.
    + intros [] s3 (E3h & T3 & Hrx & E3p). split_and!; try done; [congruence|].
      rewrite E3p, Hs2p. apply woken_trans. split; [apply tty_key_grows|apply (typed_grows keys (tty_key c t))].
Qed.

(** C29: line editing, for keys that are [typable]: no cursor key and no
    control-P, no line of 128 bytes, and no more lines than [history] has rows
    left (the code writes outside of [history] on the next one).  When the
    serial port interrupts, [consoleintr] takes every such byte it has received
    and edits the input exactly as the two queues say: a character joins the
    line, backspace removes the last one and control-U all of them, and a
    newline, a control-D or a full buffer enters the line.  If a line was entered, the processes that wait for input are
    runnable.  The lock is free again, whatever the counters' wrap-around. *)
Theorem uartintr_edits pcs keys s t :
  typing s t → ks_held s = [] → ms_uart (ks_misc s) = true → ms_rx (ks_misc s) = keys →
  typable (cn_historyIndex (ks_cons s)) t keys →
  wp (uartintr pcs) (λ _ s', ks_held s' = [] ∧ typing s' (typed keys t) ∧
    ms_rx (ks_misc s') = [] ∧ ks_procs s' = woken t (typed keys t) (ks_procs s)) s.
Proof.
  intros T Hh Hu Hk Hty. unfold uartintr, consoleintr. wp_steps.
  apply wp_acquire; [rewrite Hh; apply not_elem_of_nil|]. rewrite Hk, Hh.
  wp_call (uart_loop_spec pcs keys (set_held [L_input] s) t); [|done..|].
  { destruct T. split; try done. simpl. set_solver. }
  intros [] s1 (E1 & T1 & Hr & Hp). eapply (wp_release _ []); [done|apply not_elem_of_nil|].
  split_and!; try done. destruct T1. split; try done. simpl. apply not_elem_of_nil.
Qed.

(** ** Reading *)

(** What a read of [n] bytes takes from the bytes entered: at most one line,
    and nothing from a control-D on, which is consumed only if it comes first.
    [None]: the reader has to wait. *)
Fixpoint tty_read (first : bool) (n : nat) (q : list Z) : option (list Z * list Z) :=
  match n, q with
  | O, _ => Some ([], q)
  | S _, [] => None
  | S n', c :: q' =>
      if c =? C "D" then Some ([], if first then q' else q)
      else if c =? 10 then Some ([c], q')
      else '(l, r) ← tty_read false n' q'; Some (c :: l, r)
  end.

(** Only the read counter of the console changes. *)
Definition reads (s s' : kstate) : Prop := ∃ r, s' = set_cons (with_cn_r r (ks_cons s)) s.

Lemma with_cn_r_same x : with_cn_r (cn_r x) x = x.
Proof. by destruct x. Qed.

Lemma consoleread_loop_spec n : ∀ first q line l rest s,
  input_ok (ks_cons s) (q, line) → tty_read first n q = Some (l, rest) →
  wp (consoleread_loop first n) (λ r s', r = (true, l) ∧ reads s s' ∧
    input_ok (ks_cons s') (rest, line)) s.
Proof.
  induction n as [|n IH]; intros first q line l rest s I Hr; cbn [consoleread_loop].
  { injection Hr as <- <-. con_step. split_and!; try done. exists (cn_r (ks_cons s)).
    by rewrite with_cn_r_same, set_cons_same. }
  destruct q as [|c q]; [done|]. con_steps.
  assert ((cn_r (ks_cons s) =? cn_w (ks_cons s)) = false) as ->.
  { destruct I as [[_ Hr1 _ Hq _] ->]. rewrite length_app in Hq. simpl in *. apply Z.eqb_neq. intros E.
    rewrite <-(u32_small (cn_r (ks_cons s))) in E at 1 by done. apply u32_eq_close in E; lia. }
  pose proof (in_ring _ _ I) as R. simpl in R. apply ring_pop in R as [Hc R].
  con_step. eapply wp_the; [done|]. con_steps.
  assert (I1 : input_ok (with_cn_r (u32 (cn_r (ks_cons s) + 1)) (ks_cons s)) (q, line)).
  { split; simpl; [done|]. rewrite u32_add_l, (in_w _ _ I). f_equal. simpl. lia. }
  simpl in Hr. destruct (c =? C "D").
  { injection Hr as <- <-. destruct first; cbn [negb]; unfold when; con_steps.
    - split_and!; try done. by eexists.
    - split_and!; try done; [by eexists|]. simpl.
      assert (u32 (u32 (cn_r (ks_cons s) + 1) - 1) = cn_r (ks_cons s)) as ->; [|by destruct (ks_cons s)].
      rewrite u32_sub_l, Z.add_simpl_r. apply u32_small, (in_ring _ _ I). }
  destruct (c =? 10).
  { injection Hr as <- <-. con_step. split_and!; try done. by eexists. }
  apply bind_Some in Hr as ([l' r'] & Hr & [= <- <-]). con_step.
  eapply wp_mono; [eapply IH; [|done]; done|].
  intros ? s' (-> & [r ->] & I'). con_step. split_and!; try done. by exists r.
Qed.

Lemma busy_again f : hasb f I_BUSY = true → Z.lor (Z.land f (Z.lnot I_BUSY)) I_BUSY = f.
Proof.
  intros Hf. apply Z.bits_inj'. intros n Hn. rewrite Z.lor_spec, Z.land_spec, Z.lnot_spec by done.
  change I_BUSY with (2 ^ 0) in *. rewrite hasb_pow2 in Hf by done. rewrite Z.pow2_bits_eqb by done.
  destruct (Z.eqb_spec 0 n) as [<-|]; [by rewrite Hf|]. by rewrite andb_true_r, orb_false_r.
Qed.

(** C30: reading from the console.  A process that reads from the console with
    the device's inode locked gets what the queue of entered bytes says, at
    most one line and no more than it asked for; the line being edited is
    untouched, and the inode is locked again. *)
Theorem consoleread_line `{Ide} ip i n s t l rest :
  ks_held s = [] → ks_inodes s !! ip = Some i → 1 ≤ i_ref i → hasb (i_flags i) I_BUSY = true →
  hasb (i_flags i) I_VALID = true → input_ok (ks_cons s) t → 0 ≤ n →
  tty_read true (Z.to_nat n) t.1 = Some (l, rest) →
  wp (consoleread ip n) (λ r s', r = (Z.of_nat (length l), l) ∧
    input_ok (ks_cons s') (rest, t.2) ∧ ks_inodes s' = ks_inodes s ∧ ks_held s' = []) s.
Proof.
  intros Hh Hi Href Hb Hv I Hn Hr. pose proof (lookup_lt_Some _ _ _ Hi) as Hlt. unfold consoleread.
  wp_call (iunlock_spec ip i); [done..|]. intros [] s1 ->. wp_step.
  apply wp_acquire; [simpl; rewrite Hh; apply not_elem_of_nil|].
  destruct t as [q line]. wp_call (consoleread_loop_spec (Z.to_nat n) true q line l rest); [done..|].
  intros ? s2 (-> & [r ->] & I2). wp_step.
  eapply (wp_release _ []); [simpl; by rewrite Hh|apply not_elem_of_nil|].
  wp_call (ilock_spec ip (with_i_flags (Z.land (i_flags i) (Z.lnot I_BUSY)) i)); try done.
  - simpl. by apply list_lookup_insert_eq.
  - simpl. by rewrite flag_clear_0_0.
  - simpl. by rewrite flag_clear_0_1.
  - intros [] s3 ->. wp_step. simpl. split_and!; try done.
    rewrite list_insert_insert_eq. apply list_insert_id. rewrite busy_again by done. by destruct i.
Qed.

(** ** Recalling lines *)

Lemma recall_spec l : ∀ done line s,
  ready (ks_cons s) → input_ok (ks_cons s) (done, line) → Forall (λ c, 0 < c < 256) l →
  (length done + length line + length l ≤ 128)%nat →
  wp (recall l) (λ _ s', ∃ x, s' = set_cons x s ∧ ready x ∧ input_ok x (done, line ++ l)) s.
Proof.
  induction l as [|c l IH]; intros done line s HR I Hl Hn; cbn [recall].
  - con_step. exists (ks_cons s). by rewrite app_nil_r, set_cons_same.
  - apply Forall_cons in Hl as [Hc Hl]. simpl in Hn. con_steps.
    pose proof (in_ring _ _ I) as R. simpl in R.
    rewrite (ring_count _ _ _ _ R), length_app, (proj2 (Z.eqb_neq c 0)), (proj2 (Z.ltb_lt _ _)) by lia.
    unfold when. cbn [negb andb]. con_steps.
    pose proof (ring_push _ _ _ _ c R ltac:(rewrite length_app; lia)) as R'. rewrite <-app_assoc in R'.
    apply wp_consputc; cbn [ks_cons set_cons].
    { by destruct HR as [[] ? ?]; split; [split|..]. }
    intros x Hx Ex. assert (Ix : input_ok x (done, line ++ [c])).
    { eapply editing_input; [exact Ex|]. unfold put_input. split; simpl; [|apply (in_w _ _ I)].
      assert (u8 c = c) as -> by (apply Z.mod_small; change (2 ^ 8) with 256; lia). done. }
    eapply wp_mono; [apply (IH done (line ++ [c])); simpl; try done; rewrite length_app; simpl; lia|].
    intros [] s' (y & -> & ? & ?). exists y. by rewrite <-app_assoc in *.
Qed.

(** Entering a newline, with what becomes of the history. *)
Lemma newline_spec done line s :
  typing s (done, line) → cn_historyIndex (ks_cons s) < 10 → (length line < 127)%nat →
  (length done + length line < 128)%nat →
  wp (key_char 10) (λ _ s', ∃ x, s' = set_procs (wakeup1_proc ChInput <$> ks_procs s) (set_cons x s) ∧
    ready x ∧ input_ok x (done ++ line ++ [10], []) ∧
    cn_historyIndex x = cn_historyIndex (ks_cons s) + 1 ∧ cn_upCount x = cn_historyIndex x ∧
    cn_prevCount x = 0 ∧
    cn_history x = saved (cn_historyIndex (ks_cons s)) (line ++ [10]) (cn_history (ks_cons s))) s.
Proof.
  intros [HR I Hn Hl Hi] Hh Hlen Hroom. unfold key_char. con_steps.
  pose proof (in_ring _ _ I) as R. simpl in R.
  rewrite (ring_count _ _ _ _ R), length_app, (proj2 (Z.ltb_lt _ _)) by lia. cbn [Z.eqb negb orb Pos.eqb].
  pose proof (ring_push _ _ _ _ 10 R ltac:(rewrite length_app; lia)) as R'. rewrite <-app_assoc in R'.
  con_steps. apply wp_consputc; cbn [ks_cons set_cons].
  { by destruct HR as [[] ? ?]; split; [split|..]. }
  intros x Hx Ex. con_steps. unfold when.
  assert (Ix : input_ok x (done, line ++ [10])).
  { eapply editing_input; [exact Ex|]. unfold put_input. split; simpl; [done|apply (in_w _ _ I)]. }
  injection Ex as _ _ _ _ Exh Exi _ _ _. simpl in Exh, Exi.
  eapply wp_mono; [apply (enter_line_spec done (line ++ [10])); simpl; try done; rewrite ?length_app; simpl; lia|].
  intros [] s' (y & -> & Hy). exists y. simpl in Hy. by rewrite Exh, Exi in Hy.
Qed.

(** The row that was saved reads as the line without its newline. *)
Lemma saved_row row line h c :
  0 ≤ row < 10 → length h = 1280%nat → (length line < 127)%nat →
  ∃ r, drop (Z.to_nat (128 * row)) (saved row (line ++ [c]) h) = line ++ 0 :: r.
Proof.
  intros Hr Hh Hl. set (k := Z.to_nat (128 * row)).
  exists (drop (k + length line + 1) (saved row (line ++ [c]) h)).
  apply list_eq. intros j. rewrite lookup_drop. unfold saved. rewrite length_app. simpl.
  replace (Z.to_nat (128 * row + Z.of_nat (length line + 1) - 1)) with (k + length line)%nat by (unfold k; lia).
  fold k. destruct (decide (j = length line)) as [->|Hne].
  { rewrite list_lookup_insert_eq by (rewrite length_splice; unfold k; lia).
    by rewrite lookup_app_r, Nat.sub_diag by lia. }
  rewrite list_lookup_insert_ne by lia. rewrite lookup_splice by (rewrite length_app; simpl; unfold k; lia).
  rewrite length_app. simpl. destruct (decide (j < length line)%nat).
  - rewrite decide_True by lia. rewrite !lookup_app_l by lia. f_equal. lia.
  - rewrite decide_False by lia. rewrite lookup_app_r by lia. replace (j - length line)%nat with (S (j - length line - 1)) by lia.
    rewrite lookup_cons, lookup_drop, list_lookup_insert_ne by lia.
    rewrite lookup_splice by (rewrite length_app; simpl; unfold k; lia). rewrite length_app. simpl.
    rewrite decide_False by lia. f_equal. lia.
Qed.

(** The command history.  After a line is entered, the cursor-up key puts
    the same characters under the cursor again, while the bytes entered stay
    as they are. *)
Theorem history_recalls pcs done line s :
  typing s (done, line) → cn_historyIndex (ks_cons s) < 10 → (length line < 127)%nat →
  (length done + length line + 1 + length line ≤ 128)%nat → Forall (λ c, 0 < c < 256) line →
  wp (console_key pcs 10;; console_key pcs KEY_UP)
    (λ _ s', input_ok (ks_cons s') (done ++ line ++ [10], line)) s.
Proof.
  intros T Hh Hlen Hroom Hl. pose proof (ty_index _ _ T). pose proof (rd_history _ (ty_ready _ _ T)) as Hhl.
  wp_step. change (console_key pcs 10) with (key_char 10).
  eapply wp_mono; [apply (newline_spec done line); [done..|lia]|].
  intros [] s1 (x & -> & Hx & Ix & Ei & Eu & Ep & Eh). change (console_key pcs KEY_UP) with key_up.
  unfold key_up. con_steps. cbn [ks_cons set_cons set_procs]. simpl. rewrite Eu, Ei, s32_small by lia.
  set (h := cn_historyIndex (ks_cons s)) in *. rewrite Z.add_simpl_r.
  rewrite (proj2 (Z.ltb_ge h 0)) by done. cbn [andb]. unfold when. con_steps. simpl.
  rewrite Ei, (proj2 (Z.eqb_neq h (h + 1))) by lia. unfold show_history. con_steps. simpl. rewrite Ep.
  change (rubouts (Z.to_nat 0)) with (mret () : K ()). con_steps. unfold history_row. con_steps. simpl. rewrite (proj2 (Z.ltb_ge h 0)) by done.
  rewrite Eh. destruct (saved_row h line (cn_history (ks_cons s)) 10 ltac:(lia) Hhl Hlen) as [r ->].
  con_step. eapply wp_the; [apply strlen_spec; eapply Forall_impl; [done|simpl; lia]|]. rewrite take_app_length. con_steps. simpl.
  eapply wp_mono; [apply (recall_spec line (done ++ line ++ [10]) []); simpl|].
  - by destruct Hx as [[] ? ?]; split; [split|..].
  - by destruct Ix; split.
  - done.
  - rewrite !length_app. simpl. lia.
  - by intros [] s' (y & -> & _ & Iy).
Qed.

(** ** Limits of the history *)

(** The history has ten rows and nothing keeps [historyIndex] below ten:
    with ten lines entered, the newline that completes the next line writes
    past the end of [history]. *)
Theorem history_overflow pcs done line s :
  typing s (done, line) → 10 ≤ cn_historyIndex (ks_cons s) → (length line < 127)%nat →
  (length done + length line < 128)%nat →
  console_key pcs 10 s = Fault.
Proof.
  intros [HR I Hn Hl Hi] Hh Hlen Hroom. change (console_key pcs 10) with (key_char 10).
  pose proof (in_ring _ _ I) as R. simpl in R.
  pose proof (ring_push _ _ _ _ 10 R ltac:(rewrite length_app; lia)) as R'. rewrite <-app_assoc in R'.
  set (s1 := set_cons (put_input 10 (ks_cons s)) s).
  assert (∃ x, runs_to (consputc 10) s1 () (set_cons x s) ∧ input_ok x (done, line ++ [10]) ∧
    cn_historyIndex x = cn_historyIndex (ks_cons s)) as (x & Rc & Ix & Ei).
  { assert (wp (consputc 10) (λ _ s', ∃ x, s' = set_cons x s ∧ editing x = editing (ks_cons s1)) s1) as W.
    { apply wp_consputc; [by destruct HR as [[] ? ?]; split; [split|..]|]. intros x _ Ex. by exists x. }
    apply wp_runs in W as ([] & s' & Rc & x & -> & Ex). exists x. split_and!; [done| |by injection Ex].
    eapply editing_input; [exact Ex|]. unfold put_input. split; simpl; [done|apply (in_w _ _ I)]. }
  unfold key_char, get_cons, upd_cons, mbind, M_bind, gets, modify.
  rewrite (ring_count _ _ _ _ R), length_app, (proj2 (Z.ltb_lt _ _)) by lia. cbn [Z.eqb negb orb Pos.eqb].
  fold s1. unfold runs_to in Rc. rewrite Rc. simpl.
  unfold enter_line, get_cons, upd_cons, mbind, M_bind, gets, modify. simpl. rewrite (line_empty _ _ Ix).
  rewrite bool_decide_false by (by destruct line). simpl.
  unfold save_line, get_cons, mbind, M_bind, gets. simpl.
  pose proof (line_length _ _ Ix ltac:(simpl; rewrite length_app; simpl; lia)) as Hn1. simpl in Hn1.
  rewrite Hn1, Nat2Z.id. destruct (line ++ [10]) as [|c l] eqn:El; [by destruct line|].
  cbn [length copy_line]. unfold get_cons, mbind, M_bind, gets, the. simpl.
  pose proof (line_bytes x (done, c :: l) 0 c) as Hc. rewrite Z.add_0_r in Hc.
  rewrite Hc by done. simpl. unfold set_history, get_cons, mbind, M_bind, gets. simpl.
  rewrite Ei, andb_comm, (proj2 (Z.ltb_ge _ _)) by lia. done.
Qed.

(** A key that finds [e] out of step with [r] is dropped. *)
Lemma key_char_stuck c s : 128 ≤ u32 (cn_e (ks_cons s) - cn_r (ks_cons s)) → key_char c s = Ok () s.
Proof.
  intros H. unfold key_char, get_cons, mbind, M_bind, gets.
  by rewrite (proj2 (Z.ltb_ge _ _) H), orb_true_r.
Qed.

(** The keys [l], one after the other. *)
Definition keys (l : list Z) : K () :=
  foldr (λ c m, console_key (λ _, []) c;; m) (mret ()) l.

(** Two lines are typed and read, the second is recalled and erased with
    backspace, and cursor-up is pressed again. *)
Definition recall_erase_recall : K () :=
  keys (chars "ab" ++ [10] ++ chars "cd" ++ [10]);;
  acquire L_input;;
  consoleread_loop true 10;;
  consoleread_loop true 10;;
  release L_input;;
  keys [KEY_UP; 8; 8; KEY_UP].

(** Backspace does not count against [prevCount].  Erasing a recalled line
    with backspace and recalling another one moves [e] behind [w], and from
    then on no character is accepted: the console is dead. *)
Theorem history_kills_input :
  wp recall_erase_recall (λ _ s', ∀ c, key_char c s' = Ok () s') serial_state.
Proof.
  assert (wp recall_erase_recall (λ _ s', 128 ≤ u32 (cn_e (ks_cons s') - cn_r (ks_cons s'))) serial_state) as W
    by (vm_compute; done).
  eapply wp_mono; [exact W|]. intros [] s' H c. by apply key_char_stuck.
Qed.

(** ** Witnesses *)

Lemma serial_typing : typing serial_state ([], []).
Proof.
  split; try done; try apply not_elem_of_nil.
Qed.

(** [a], [b], backspace and a newline arrive. *)
Lemma uartintr_edits_witness :
  let s := set_misc (with_ms_rx [97; 98; 8; 13] (ks_misc serial_state)) serial_state in
  wp (uartintr (λ _, [])) (λ _ s', ks_held s' = [] ∧ typing s' (typed [97; 98; 8; 13] ([], [])) ∧
    ms_rx (ks_misc s') = [] ∧
    ks_procs s' = woken ([], []) (typed [97; 98; 8; 13] ([], [])) (ks_procs s)) s.
Proof.
  intros s. apply (uartintr_edits (λ _, []) [97; 98; 8; 13] s ([], [])); try done.
  - by destruct serial_typing; split.
  - simpl. unfold ordinary. repeat split; (lia || done).
Defined.

(** [a] is under the cursor. *)
Definition one_char : kstate :=
  set_cons (with_cn_buf (<[0%nat:=97]> (replicate 128 0)) (with_cn_e 1 zero_cons)) serial_state.

Lemma history_recalls_witness :
  wp (console_key (λ _, []) 10;; console_key (λ _, []) KEY_UP)
    (λ _ s', input_ok (ks_cons s') ([] ++ [97] ++ [10], [97])) one_char.
Proof.
  apply (history_recalls (λ _, []) [] [97] one_char); simpl; try lia; [|by repeat constructor].
  split; try done; [split; [|done]; split; try done|set_solver|apply not_elem_of_nil].
  intros k c Hk. destruct k; simplify_eq. by vm_compute.
Defined.

(** The console as it is after ten lines, all of them read. *)
Definition ten_lines : kstate := set_cons (with_cn_historyIndex 10 zero_cons) serial_state.

Lemma history_overflow_witness : console_key (λ _, []) 10 ten_lines = Fault.
Proof.
  apply (history_overflow (λ _, []) [] [] ten_lines); simpl; try lia.
  destruct serial_typing as [[[] ? ?] [] ? ? ?]. split; try done; split; try done; by split.
Defined.

Import Memide.

(** One line has been entered and is read through the console's inode. *)
Lemma consoleread_line_witness :
  let i := mk_inode 1 5 1 3 3 1 0 1 0 (replicate 12 0) in
  let x := with_cn_buf (<[0%nat:=65]> (<[1%nat:=10]> (replicate 128 0))) (with_cn_w 2 (with_cn_e 2 zero_cons)) in
  let s := set_cons x (set_inodes [i] (bss [])) in
  wp (consoleread 0 100) (λ r s', r = (2, [65; 10]) ∧
    input_ok (ks_cons s') ([], []) ∧ ks_inodes s' = ks_inodes s ∧ ks_held s' = []) s.
Proof.
  intros i x s. apply (consoleread_line 0 i 100 s ([65; 10], []) [65; 10] []); try done.
  split; [|done]. split; try done. intros k c Hk. destruct k as [|[|[]]]; simplify_eq; by vm_compute.
Defined.
