(* ===== verification/IdeDriver.v ===== *)
(** * IdeDriver: the interrupt-driven disk driver (ide.c)

    Requests wait in a queue of buffers, linked through [qnext]; the first is
    the one the drive works on.  [iderw] appends a buffer and sleeps, the
    interrupt handler completes the first and starts the next.  The drive is a
    parameter; what the driver writes to its ports is recorded. *)

From S2P Require Import Prelude Bytes Kernel Sched Ide Print Vm Console.

#[local] Arguments replicate : simpl never.

Abbreviation IDE_BSY := 0x80.
Abbreviation IDE_DRDY := 0x40.
Abbreviation IDE_DF := 0x20.
Abbreviation IDE_ERR := 0x01.
Abbreviation IDE_CMD_READ := 0x20.
Abbreviation IDE_CMD_WRITE := 0x30.

(** The drive: the values [inb(0x1f7)] gives while the driver polls, and the 512
    bytes [insl] reads, after what has been written to the ports and with the
    sectors the disk holds. *)
Class Drive := {
  drv_status : list (Z * list Z) → list Z;
  drv_data : list (Z * list Z) → list (list Z) → list Z;
}.

(** ** The code *)

(** The first status that says ready; a drive that never gets ready keeps the
    driver waiting. *)
Fixpoint poll (l : list Z) : option Z :=
  match l with
  | [] => None
  | r :: l' => if Z.land r (Z.lor IDE_BSY IDE_DRDY) =? IDE_DRDY then Some r else poll l'
  end.

(** [outsl(port, data, 512/4)] *)
Definition outsl (port : Z) (data : list Z) : K () :=
  upd_misc (λ m, with_ms_ports ((port, data) :: ms_ports m) m).

Section Code.
Context `{Drive}.

Definition idewait (checkerr : bool) : K Z :=
  m ← gets ks_misc;
  r ← the (poll (drv_status (ms_ports m)));
  mret (if checkerr && hasb r (Z.lor IDE_DF IDE_ERR) then -1 else 0).

(** [reads]: what the (at most 1000) reads of the status register give for
    disk 1.  The calls that enable the interrupt are in Main.v. *)
Definition ideinit (reads : list Z) : K () :=
  idewait false;;
  outb 0x1f6 (Z.lor 0xe0 (Z.shiftl 1 4));;
  when (existsb (λ r, negb (r =? 0)) (take 1000 reads)) (upd_misc (with_ms_havedisk1 true));;
  outb 0x1f6 (Z.lor 0xe0 (Z.shiftl 0 4)).

Definition idestart (b : option nat) : K () :=
  match b with
  | None => panic "idestart"
  | Some b =>
      x ← get_buf b;
      idewait false;;
      outb 0x3f6 0;;
      outb 0x1f2 1;;
      outb 0x1f3 (Z.land (b_sector x) 0xff);;
      outb 0x1f4 (Z.land (Z.shiftr (b_sector x) 8) 0xff);;
      outb 0x1f5 (Z.land (Z.shiftr (b_sector x) 16) 0xff);;
      outb 0x1f6 (Z.lor (Z.lor 0xe0 (Z.shiftl (Z.land (b_dev x) 1) 4))
        (Z.land (Z.shiftr (b_sector x) 24) 0x0f));;
      if hasb (b_flags x) B_DIRTY then
        outb 0x1f7 IDE_CMD_WRITE;;
        outsl 0x1f0 (b_data x)
      else outb 0x1f7 IDE_CMD_READ
  end.

Definition ideintr : K () :=
  acquire L_ide;;
  m ← gets ks_misc;
  match ms_idequeue m with
  | None => release L_ide
  | Some b =>
      x ← get_buf b;
      upd_misc (with_ms_idequeue (b_qnext x));;
      when (negb (hasb (b_flags x) B_DIRTY)) (
        r ← idewait true;
        when (0 <=? r) (
          d ← gets (λ s, drv_data (ms_ports (ks_misc s)) (ks_disk s));
          upd_buf b (with_b_data d)));;
      upd_buf b (λ x, with_b_flags (Z.lor (b_flags x) B_VALID) x);;
      upd_buf b (λ x, with_b_flags (Z.land (b_flags x) (Z.lnot B_DIRTY)) x);;
      wakeup (ChBuf b);;
      m ← gets ks_misc;
      when (bool_decide (is_Some (ms_idequeue m))) (idestart (ms_idequeue m));;
      release L_ide
  end.

(** The walk to the end of the queue; there are [NBUF] buffers. *)
Fixpoint append_loop (c b : nat) (fuel : nat) : K () :=
  match fuel with
  | O => fault
  | S fuel' =>
      x ← get_buf c;
      match b_qnext x with
      | None => upd_buf c (with_b_qnext (Some b))
      | Some c' => append_loop c' b fuel'
      end
  end.

(** The loop that waits for the request: also where the process goes on after
    [sleep]. *)
Definition iderw_wait (b : nat) : K () :=
  x ← get_buf b;
  if negb (Z.land (b_flags x) (Z.lor B_VALID B_DIRTY) =? B_VALID)
  then sleep (ChBuf b) L_ide
  else release L_ide.

(** [iderw] up to that loop. *)
Definition iderw_submit (b : nat) : K () :=
  x ← get_buf b;
  m ← gets ks_misc;
  if negb (hasb (b_flags x) B_BUSY) then panic "iderw: buf not busy" else
  if Z.land (b_flags x) (Z.lor B_VALID B_DIRTY) =? B_VALID then panic "iderw: nothing to do" else
  if negb (b_dev x =? 0) && negb (ms_havedisk1 m) then panic "iderw: ide disk 1 not present" else
  acquire L_ide;;
  upd_buf b (with_b_qnext None);;
  m ← gets ks_misc;
  (match ms_idequeue m with
   | None => upd_misc (with_ms_idequeue (Some b))
   | Some c => append_loop c b NBUF
   end);;
  m ← gets ks_misc;
  when (bool_decide (ms_idequeue m = Some b)) (idestart (Some b)).

Definition ide_iderw (b : nat) : K () := iderw_submit b;; iderw_wait b.

(** The driver as the buffer cache calls it. *)
Definition ide_driver : Ide := ide_iderw.

End Code.

(** ** The queue *)

(** From [h], the links run through the buffers [q]. *)
Fixpoint queue_from (bs : list buf) (h : option nat) (q : list nat) : Prop :=
  match q with
  | [] => h = None
  | b :: q' => h = Some b ∧ ∃ x, bs !! b = Some x ∧ queue_from bs (b_qnext x) q'
  end.

Definition ide_queue (s : kstate) (q : list nat) : Prop :=
  queue_from (ks_bufs s) (ms_idequeue (ks_misc s)) q ∧ NoDup q.

Lemma queue_from_other bs b x h q :
  b ∉ q → queue_from bs h q → queue_from (<[b:=x]> bs) h q.
Proof.
  revert h. induction q as [|c q IH]; intros h Hb; simpl; [done|].
  apply not_elem_of_cons in Hb as [Hc Hb]. intros (-> & y & Hy & Hq). split; [done|].
  exists y. rewrite list_lookup_insert_ne by done. auto.
Qed.

(** Changing everything but the link of a buffer keeps the queue. *)
Lemma queue_from_alter bs b x f h q :
  bs !! b = Some x → b_qnext (f x) = b_qnext x → queue_from bs h q → queue_from (<[b:=f x]> bs) h q.
Proof.
  intros Hb Hf. revert h. induction q as [|c q IH]; intros h; simpl; [done|].
  intros (-> & y & Hy & Hq). split; [done|]. destruct (decide (c = b)) as [->|].
  - exists (f x). rewrite list_lookup_insert_eq by (by eapply lookup_lt_Some). split; [done|].
    simplify_eq. rewrite Hf. auto.
  - exists y. rewrite list_lookup_insert_ne by done. auto.
Qed.

(** Linking [b] behind the last buffer. *)
Lemma queue_from_append bs h q e y b x :
  queue_from bs h (q ++ [e]) → NoDup (q ++ [e]) → (b ∉ q ++ [e]) → bs !! e = Some y →
  bs !! b = Some x → b_qnext x = None →
  queue_from (<[e:=with_b_qnext (Some b) y]> bs) h (q ++ [e] ++ [b]).
Proof.
  intros Hq Hnd Hb He Hx Hl. pose proof (lookup_lt_Some _ _ _ He).
  revert h Hq Hnd Hb. induction q as [|c q IH]; intros h; simpl.
  - intros (-> & y' & Hy' & _) _ Hb. split; [done|]. exists (with_b_qnext (Some b) y).
    rewrite list_lookup_insert_eq by done. simpl. split_and!; try done. exists x.
    rewrite list_lookup_insert_ne by set_solver. done.
  - rewrite NoDup_cons, not_elem_of_cons. intros (-> & z & Hz & Hq) [Hc Hnd] [Hbc Hb].
    split; [done|]. exists z. rewrite list_lookup_insert_ne by set_solver. auto.
Qed.

Lemma append_loop_spec q : ∀ c b fuel s,
  queue_from (ks_bufs s) (Some c) (c :: q) → (length q < fuel)%nat →
  wp (append_loop c b fuel) (λ _ s', ∃ q' e y, c :: q = q' ++ [e] ∧ ks_bufs s !! e = Some y ∧
    s' = set_bufs (<[e:=with_b_qnext (Some b) y]> (ks_bufs s)) s) s.
Proof.
  induction q as [|d q IH]; intros c b [|fuel] s Hq Hf; [lia| |simpl in Hf; lia|];
    destruct Hq as (_ & y & Hy & Hq); cbn [append_loop]; wp_table; try done.
  - simpl in Hq. rewrite Hq. wp_table; [done|]. by exists [], c, y.
  - pose proof Hq as (E & _). rewrite E in *. simpl in Hf.
    eapply wp_mono; [eapply (IH d b fuel s); [done|lia]|]. intros [] s' (q' & e & z & -> & Hz & ->).
    by exists (c :: q'), e, z.
Qed.

(** ** Requests *)

(** The byte written last to a port. *)
Fixpoint port (ps : list (Z * list Z)) (p : Z) : option (list Z) :=
  match ps with
  | [] => None
  | (p', v) :: ps' => if p' =? p then Some v else port ps' p
  end.

(** The drive and the sector the registers select. *)
Definition selected (ps : list (Z * list Z)) : option (Z * Z) :=
  match port ps 0x1f3, port ps 0x1f4, port ps 0x1f5, port ps 0x1f6 with
  | Some [v3], Some [v4], Some [v5], Some [v6] =>
      Some (Z.land (Z.shiftr v6 4) 1, v3 + 2 ^ 8 * v4 + 2 ^ 16 * v5 + 2 ^ 24 * Z.land v6 15)
  | _, _, _, _ => None
  end.

(** The command the drive was given last: its code, the count of sectors, and the
    drive and sector, as the registers stood when the code was written.  There is
    none when a register was written after it.  Data that follow the command,
    reads of the status (recorded as [[]]) and other ports do not count. *)
Fixpoint command (ps : list (Z * list Z)) : option (Z * Z * (Z * Z)) :=
  match ps with
  | [] => None
  | (p, v) :: ps' =>
      if (p =? 0x1f7) && negb (bool_decide (v = [])) then
        match v, port ps' 0x1f2, selected ps' with
        | [c], Some [n], Some sel => Some (c, n, sel)
        | _, _, _ => None
        end
      else if (0x1f1 <=? p) && (p <=? 0x1f6) then None
      else command ps'
  end.

Lemma command_last c n ps sel :
  port ps 0x1f2 = Some [n] → selected ps = Some sel → command ((0x1f7, [c]) :: ps) = Some (c, n, sel).
Proof. intros En Es. cbn [command Z.eqb Pos.eqb andb]. rewrite bool_decide_false by done. by rewrite En, Es. Qed.

Lemma command_data d ps : command ((0x1f0, d) :: ps) = command ps.
Proof. done. Qed.

(** The drive has been told to transfer the buffer [x]. *)
Definition started (ps : list (Z * list Z)) (x : buf) : Prop :=
  if hasb (b_flags x) B_DIRTY
  then command ps = Some (IDE_CMD_WRITE, 1, (Z.land (b_dev x) 1, b_sector x)) ∧ port ps 0x1f0 = Some (b_data x)
  else command ps = Some (IDE_CMD_READ, 1, (Z.land (b_dev x) 1, b_sector x)).

Definition sector_ok (x : buf) : Prop := 0 ≤ b_sector x < 2 ^ 28.

Lemma land_byte v : Z.land v 0xff = v mod 2 ^ 8.
Proof. change 0xff with (Z.ones 8). by apply Z.land_ones. Qed.

Lemma u8_land_byte v : u8 (Z.land v 0xff) = v mod 2 ^ 8.
Proof. rewrite land_byte. unfold u8. by apply Z.mod_mod. Qed.

Lemma land_15 v : Z.land v 15 = v mod 2 ^ 4.
Proof. change 15 with (Z.ones 4). by apply Z.land_ones. Qed.

Lemma land_bound_15 v : 0 ≤ Z.land v 15 < 16.
Proof. rewrite land_15. by apply Z.mod_pos_bound. Qed.

Lemma land_bound_1 v : 0 ≤ Z.land v 1 < 2.
Proof. change 1 with (Z.ones 1). rewrite Z.land_ones by done. by apply Z.mod_pos_bound. Qed.

(** The register that holds the drive and the high bits of the sector. *)
Lemma drive_register d h :
  0 ≤ d < 2 → 0 ≤ h < 16 →
  let v := u8 (Z.lor (Z.lor 0xe0 (Z.shiftl d 4)) h) in
  Z.land (Z.shiftr v 4) 1 = d ∧ Z.land v 15 = h.
Proof.
  intros Hd Hh. cbn zeta.
  assert (forallb (λ d, forallb (λ h, let v := u8 (Z.lor (Z.lor 0xe0 (Z.shiftl d 4)) h) in
    (Z.land (Z.shiftr v 4) 1 =? d) && (Z.land v 15 =? h)) (seqZ 0 16)) (seqZ 0 2) = true) as T by by vm_compute.
  rewrite forallb_forall in T. specialize (T d ltac:(apply list_elem_of_In, elem_of_seqZ; lia)).
  rewrite forallb_forall in T. specialize (T h ltac:(apply list_elem_of_In, elem_of_seqZ; lia)).
  apply andb_true_iff in T as [T1 T2]. by apply Z.eqb_eq in T1, T2.
Qed.

Lemma sector_bytes s :
  0 ≤ s < 2 ^ 28 →
  s mod 2 ^ 8 + 2 ^ 8 * (s / 2 ^ 8 mod 2 ^ 8) + 2 ^ 16 * (s / 2 ^ 16 mod 2 ^ 8) + 2 ^ 24 * (s / 2 ^ 24 mod 2 ^ 4) = s.
Proof.
  intros Hs. rewrite (Z.mod_small (s / 2 ^ 24)) by (split; [apply Z.div_pos; lia|apply Z.div_lt_upper_bound; lia]).
  replace (s / 2 ^ 24) with (s / 2 ^ 8 / 2 ^ 8 / 2 ^ 8) by (rewrite !Z.div_div by lia; done).
  replace (s / 2 ^ 16) with (s / 2 ^ 8 / 2 ^ 8) by (rewrite Z.div_div by lia; done).
  pose proof (Z.div_mod s (2 ^ 8) ltac:(lia)). pose proof (Z.div_mod (s / 2 ^ 8) (2 ^ 8) ltac:(lia)).
  pose proof (Z.div_mod (s / 2 ^ 8 / 2 ^ 8) (2 ^ 8) ltac:(lia)). lia.
Qed.

Section Requests.
Context `{Drive}.

(** The drive gets ready. *)
Hypothesis drv_ready : ∀ ps, is_Some (poll (drv_status ps)).

Lemma wp_idewait_false (Q : Z → kstate → Prop) s : Q 0 s → wp (idewait false) Q s.
Proof using drv_ready.
  intros HQ. unfold idewait. wp_steps. destruct (drv_ready (ms_ports (ks_misc s))) as [r Hr].
  eapply wp_the; [done|]. by wp_steps.
Qed.

Lemma idestart_spec b x s :
  ks_bufs s !! b = Some x → sector_ok x →
  wp (idestart (Some b)) (λ _ s', ∃ ps, s' = set_misc (with_ms_ports ps (ks_misc s)) s ∧ started ps x) s.
Proof using drv_ready.
  intros Hx Hs. unfold idestart. wp_table; [done|]. wp_step. apply wp_idewait_false.
  assert (Hsel : selected ((0x1f6, [u8 (Z.lor (Z.lor 0xe0 (Z.shiftl (Z.land (b_dev x) 1) 4))
        (Z.land (Z.shiftr (b_sector x) 24) 0x0f))]) ::
      (0x1f5, [u8 (Z.land (Z.shiftr (b_sector x) 16) 0xff)]) ::
      (0x1f4, [u8 (Z.land (Z.shiftr (b_sector x) 8) 0xff)]) ::
      (0x1f3, [u8 (Z.land (b_sector x) 0xff)]) :: (0x1f2, [u8 1]) :: (0x3f6, [u8 0]) ::
      ms_ports (ks_misc s)) = Some (Z.land (b_dev x) 1, b_sector x)).
  { unfold selected, port. cbn [Z.eqb Pos.eqb]. rewrite !u8_land_byte.
    destruct (drive_register (Z.land (b_dev x) 1) (Z.land (Z.shiftr (b_sector x) 24) 15)) as [-> ->];
      [by apply land_bound_1|by apply land_bound_15|].
    rewrite land_15, !Z.shiftr_div_pow2 by lia. by rewrite sector_bytes. }
  unfold outb, outsl, upd_misc. wp_steps. destruct (hasb (b_flags x) B_DIRTY) eqn:Hd; wp_steps;
    (eexists; split; [reflexivity|]; unfold started; rewrite Hd).
  - split; [|done]. rewrite command_data. by apply command_last.
  - by apply command_last.
Qed.

(** The queue [q], whose first request the drive is working on. *)
Record ide_ok (s : kstate) (q : list nat) : Prop := {
  io_queue : ide_queue s q;
  io_started : ∀ b x, head q = Some b → ks_bufs s !! b = Some x → started (ms_ports (ks_misc s)) x;
  io_sector : ∀ b x, b ∈ q → ks_bufs s !! b = Some x → sector_ok x;
}.

(** A buffer [iderw] accepts. *)
Record request_ok (s : kstate) (x : buf) : Prop := {
  rq_busy : hasb (b_flags x) B_BUSY = true;
  rq_todo : hasb (b_flags x) B_VALID && negb (hasb (b_flags x) B_DIRTY) = false;
  rq_disk : b_dev x = 0 ∨ ms_havedisk1 (ks_misc s) = true;
  rq_sector : sector_ok x;
}.

(** Appending to an empty queue starts the drive. *)
Lemma submit_empty b x s :
  ks_bufs s !! b = Some x → b_qnext x = None → sector_ok x → ms_idequeue (ks_misc s) = None →
  wp (upd_misc (with_ms_idequeue (Some b));; m ← gets ks_misc;
      when (bool_decide (ms_idequeue m = Some b)) (idestart (Some b)))
    (λ _ s', ∃ m, s' = set_misc m s ∧ ide_ok s' [b]) s.
Proof using drv_ready.
  intros Hx Hl Hs Hq. unfold upd_misc. wp_steps. rewrite bool_decide_true by done. unfold when.
  eapply wp_mono; [by apply (idestart_spec b x)|]. intros [] s' (ps & -> & St). eexists. split; [reflexivity|]. split.
  - split; [|apply NoDup_singleton]. simpl. split; [done|]. by exists x.
  - intros c y [= <-] Hy. simpl in Hy. simplify_eq. exact St.
  - intros c y ->%list_elem_of_singleton Hy. simpl in Hy. by simplify_eq.
Qed.

(** Appending to a queue that is not empty leaves the drive alone. *)
Lemma submit_behind b x c q s :
  ks_bufs s !! b = Some x → b_qnext x = None → sector_ok x → ide_ok s (c :: q) → (b ∉ c :: q) →
  (length q < NBUF)%nat →
  wp (append_loop c b NBUF;; m ← gets ks_misc;
      when (bool_decide (ms_idequeue m = Some b)) (idestart (Some b)))
    (λ _ s', ∃ bs, s' = set_bufs bs s ∧ bs !! b = Some x ∧ ide_ok s' (c :: q ++ [b])) s.
Proof using drv_ready.
  intros Hx Hl Hs [[Hq Hnd] Hst Hsec] Hb Hlen. pose proof Hq as [Ec _]. rewrite Ec in Hq.
  wp_call (append_loop_spec q c b NBUF s Hq Hlen). intros [] s' (q' & e & y & Eq & Hy & ->). wp_steps.
  simpl. rewrite Ec. rewrite bool_decide_false by set_solver. unfold when. wp_step.
  assert (Hbe : b ≠ e) by (rewrite Eq in Hb; set_solver). pose proof (lookup_lt_Some _ _ _ Hy).
  eexists. split; [reflexivity|]. split; [by rewrite list_lookup_insert_ne|].
  change (c :: q ++ [b]) with ((c :: q) ++ [b]). split.
  - split; cbn [ks_bufs ks_misc set_bufs].
    + rewrite Eq, <-app_assoc, Ec. rewrite Eq in *. by eapply queue_from_append.
    + apply NoDup_app. split; [done|]. split; [set_solver|apply NoDup_singleton].
  - intros d z [= <-] Hz. simpl in *. destruct (decide (c = e)) as [->|].
    + rewrite list_lookup_insert_eq in Hz by done. injection Hz as <-. by apply (Hst e y).
    + rewrite list_lookup_insert_ne in Hz by done. by apply (Hst c z).
  - intros d z Hd Hz. simpl in Hz. apply elem_of_app in Hd as [Hd| ->%list_elem_of_singleton].
    + destruct (decide (d = e)) as [->|].
      * rewrite list_lookup_insert_eq in Hz by done. injection Hz as <-. by apply (Hsec e y).
      * rewrite list_lookup_insert_ne in Hz by done. by apply (Hsec d z).
    + rewrite list_lookup_insert_ne in Hz by done. by simplify_eq.
Qed.

Lemma iderw_submit_spec b x q s :
  ks_held s = [] → ks_bufs s !! b = Some x → request_ok s x → ide_ok s q → (b ∉ q) →
  (length q ≤ NBUF)%nat →
  wp (iderw_submit b) (λ _ s', ∃ m bs, s' = set_misc m (set_bufs bs (set_held [L_ide] s)) ∧
    bs !! b = Some (with_b_qnext None x) ∧ ide_ok s' (q ++ [b])) s.
Proof using drv_ready.
  intros Hh Hx [R1 R2 R3 R4] Hok Hb Hlen. pose proof (lookup_lt_Some _ _ _ Hx).
  unfold iderw_submit. wp_table; [done|]. wp_steps. rewrite R1, valid_clean_test, R2. cbn [negb].
  assert (negb (b_dev x =? 0) && negb (ms_havedisk1 (ks_misc s)) = false) as ->.
  { destruct R3 as [->| ->]; [done|]. by rewrite andb_false_r. }
  wp_step. apply wp_acquire; [rewrite Hh; apply not_elem_of_nil|]. rewrite Hh. wp_step.
  eapply wp_upd_buf; [done|]. apply wp_bind, wp_gets. cbn [ks_misc set_bufs set_held].
  set (x1 := with_b_qnext None x). set (s1 := set_bufs _ _).
  assert (Hx1 : ks_bufs s1 !! b = Some x1) by (simpl; by apply list_lookup_insert_eq).
  destruct q as [|c q].
  - destruct Hok as [[Hq _] _ _]. simpl in Hq. rewrite Hq.
    eapply wp_mono; [by apply (submit_empty b x1 s1)|]. intros [] s' (m & -> & Hok'). by exists m, (ks_bufs s1).
  - pose proof Hok as [[Hq _] _ _]. destruct Hq as [Hq _]. rewrite Hq.
    assert (Hok1 : ide_ok s1 (c :: q)).
    { destruct Hok as [[Hq1 Hnd] Hst Hsec]. split; [split; [by apply queue_from_other|done]|..].
      - intros d z [= <-] Hz. simpl in Hz. rewrite list_lookup_insert_ne in Hz by set_solver. by apply (Hst c).
      - intros d z Hd Hz. simpl in Hz. rewrite list_lookup_insert_ne in Hz by set_solver. by apply (Hsec d). }
    eapply wp_mono; [by apply (submit_behind b x1 c q s1)|]. intros [] s' (bs & -> & Hbs & Hok').
    by exists (ks_misc s), bs.
Qed.

(** Queueing a request.  [iderw] puts the buffer behind the requests that
    wait already, starts the drive if there is none, with the registers
    selecting the buffer's drive and sector, and goes to sleep until the
    transfer is done, with [idelock] released. *)
Theorem iderw_enqueues b x q p pr s :
  ks_held s = [] → ks_cur s = Some p → ks_procs s !! p = Some pr →
  ks_bufs s !! b = Some x → request_ok s x → ide_ok s q → (b ∉ q) → (length q ≤ NBUF)%nat →
  ∃ s1, ide_iderw b s = Sleep s1 ∧ ide_ok s1 (q ++ [b]) ∧ ks_held s1 = [L_ptable] ∧
    ks_procs s1 !! p = Some (with_p_state SLEEPING (with_p_chan (Some (ChBuf b)) pr)).
Proof using drv_ready.
  intros Hh Hc Hp Hx Hrq Hok Hb Hlen.
  pose proof (iderw_submit_spec b x q s Hh Hx Hrq Hok Hb Hlen) as W.
  apply wp_runs in W as ([] & s1 & R & m & bs & -> & Hbs & Hok1).
  unfold ide_iderw. rewrite (bind_runs _ _ _ _ _ R). unfold iderw_wait.
  erewrite bind_runs by by apply get_buf_runs. change (b_flags (with_b_qnext None x)) with (b_flags x).
  rewrite valid_clean_test, (rq_todo _ _ Hrq). cbn [negb].
  rewrite (sleep_runs (ChBuf b) L_ide p pr) by done. eexists. split; [reflexivity|]. split_and!; try done.
  - destruct Hok1 as [Hq Hst Hsec]. by split.
  - simpl. apply list_lookup_insert_eq. by eapply lookup_lt_Some.
Qed.

(** The transfer of the first request, up to the wakeup: the buffer is valid and
    clean, and holds the sector if it was to be read. *)
Definition transferred (x : buf) (d : list Z) : buf :=
  with_b_flags (Z.land (Z.lor (b_flags x) B_VALID) (Z.lnot B_DIRTY))
    (if hasb (b_flags x) B_DIRTY then x else with_b_data d x).

Lemma transferred_spec x d :
  hasb (b_flags (transferred x d)) B_VALID = true ∧ hasb (b_flags (transferred x d)) B_DIRTY = false ∧
  hasb (b_flags (transferred x d)) B_BUSY = hasb (b_flags x) B_BUSY ∧
  b_qnext (transferred x d) = b_qnext x ∧
  b_data (transferred x d) = if hasb (b_flags x) B_DIRTY then b_data x else d.
Proof.
  clear drv_ready. unfold transferred. simpl. autorewrite with flags. by destruct (hasb (b_flags x) B_DIRTY).
Qed.

(** The rest of the queue after the first buffer changed. *)
Lemma ide_ok_tail s b x x' q m :
  ide_ok s (b :: q) → ks_bufs s !! b = Some x → b_qnext x' = b_qnext x →
  (∀ c y, head q = Some c → ks_bufs s !! c = Some y → started (ms_ports m) y) →
  ms_idequeue m = b_qnext x →
  ide_ok (set_misc m (set_bufs (<[b:=x']> (ks_bufs s)) s)) q.
Proof using drv_ready.
  intros [[(_ & y & Hy & Hq) Hnd] Hst Hsec] Hx Hl Hs Hm. simplify_eq.
  apply NoDup_cons in Hnd as [Hb Hnd]. split; simpl.
  - split; simpl; [|done]. rewrite Hm. by apply queue_from_other.
  - intros c z Hc Hz. rewrite list_lookup_insert_ne in Hz; [by eapply Hs|].
    intros ->. apply Hb. by destruct q; simplify_eq/=; left.
  - intros c z Hc Hz. rewrite list_lookup_insert_ne in Hz by set_solver. apply (Hsec c); [by right|done].
Qed.

(** Told to read one sector of disk 1, the drive presents it, and it reports no
    error. *)
Hypothesis drv_reads : ∀ ps disk lba d,
  command ps = Some (IDE_CMD_READ, 1, (1, lba)) → disk !! Z.to_nat lba = Some d → drv_data ps disk = d.
Hypothesis drv_good : ∀ ps r, poll (drv_status ps) = Some r → hasb r (Z.lor IDE_DF IDE_ERR) = false.

Lemma transfer_spec b x d s :
  ks_bufs s !! b = Some x → started (ms_ports (ks_misc s)) x → b_dev x = 1 →
  ks_disk s !! sect x = Some d →
  wp (when (negb (hasb (b_flags x) B_DIRTY)) (
        r ← idewait true;
        when (0 <=? r) (
          d ← gets (λ s, drv_data (ms_ports (ks_misc s)) (ks_disk s));
          upd_buf b (with_b_data d))))
    (λ _ s', s' = set_bufs (<[b:=if hasb (b_flags x) B_DIRTY then x else with_b_data d x]> (ks_bufs s)) s) s.
Proof using drv_ready drv_reads drv_good.
  intros Hx Hsel Hdev Hd. unfold started in Hsel. unfold when. destruct (hasb (b_flags x) B_DIRTY); cbn [negb].
  - wp_step. rewrite list_insert_id by done. by destruct s.
  - unfold idewait. wp_steps. destruct (drv_ready (ms_ports (ks_misc s))) as [r Hr].
    eapply wp_the; [done|]. wp_steps. rewrite (drv_good _ _ Hr). cbn [andb Z.leb Z.compare]. wp_steps.
    eapply wp_upd_buf; [done|]. rewrite Hdev in Hsel. by rewrite (drv_reads _ _ _ d Hsel Hd).
Qed.

(** Setting the flags of a buffer whose transfer is over. *)
Lemma wp_mark {A} b z (k : K A) (Q : A → kstate → Prop) s :
  ks_bufs s !! b = Some z →
  wp k Q (set_bufs (<[b:=with_b_flags (Z.land (Z.lor (b_flags z) B_VALID) (Z.lnot B_DIRTY)) z]> (ks_bufs s)) s) →
  wp (upd_buf b (λ x, with_b_flags (Z.lor (b_flags x) B_VALID) x);;
      upd_buf b (λ x, with_b_flags (Z.land (b_flags x) (Z.lnot B_DIRTY)) x);; k) Q s.
Proof.
  clear drv_ready drv_reads drv_good. intros Hz HQ. pose proof (lookup_lt_Some _ _ _ Hz).
  wp_table; [done|]. wp_table; [simpl; by apply list_lookup_insert_eq|].
  simpl. by rewrite list_insert_insert_eq.
Qed.

(** The state in which the handler returns. *)
Lemma completed_state s b x q d m :
  ks_held s = [] → ide_ok s (b :: q) → ks_bufs s !! b = Some x → ms_idequeue m = b_qnext x →
  (∀ c y, head q = Some c → ks_bufs s !! c = Some y → started (ms_ports m) y) →
  let s' := set_held [] (set_misc m (set_procs (wakeup1_proc (ChBuf b) <$> ks_procs s)
    (set_bufs (<[b:=transferred x d]> (ks_bufs s)) s))) in
  ks_held s' = [] ∧ ide_ok s' q ∧ ks_bufs s' !! b = Some (transferred x d) ∧
  ks_procs s' = wakeup1_proc (ChBuf b) <$> ks_procs s ∧
  iderw_wait b (set_held [L_ide] s') = Ok () s'.
Proof using drv_ready.
  clear drv_reads drv_good. intros Hh Hok Hx Hm Hs s'. pose proof (lookup_lt_Some _ _ _ Hx).
  destruct (transferred_spec x d) as (T1 & T2 & _ & T4 & _).
  assert (Hb : ks_bufs s' !! b = Some (transferred x d)) by (simpl; by apply list_lookup_insert_eq).
  split_and!; try done.
  - destruct (ide_ok_tail s b x (transferred x d) q m Hok Hx T4 Hs Hm) as [Hq1 Hst1 Hsec1]. by split.
  - unfold iderw_wait. erewrite bind_runs by by apply get_buf_runs.
    rewrite valid_clean_test, T1, T2. cbn [negb andb].
    unfold release, holding, mbind, M_bind, gets. cbn [ks_held set_held].
    rewrite bool_decide_true by set_solver. unfold modify. cbn [ks_held set_held].
    by rewrite filter_cons_False by naive_solver.
Qed.

(** C34: completing a request.  The interrupt handler takes the first request
    off the queue, leaves its buffer valid, clean and, if it was to be read,
    with the contents of its sector, wakes the process that waits for it, and
    starts the next request, if any.  The process then returns from [iderw]
    with no lock held. *)
Theorem ideintr_completes b x q d s :
  ks_held s = [] → ide_ok s (b :: q) → ks_bufs s !! b = Some x → b_dev x = 1 →
  ks_disk s !! sect x = Some d →
  wp ideintr (λ _ s', ks_held s' = [] ∧ ide_ok s' q ∧
    ks_bufs s' !! b = Some (transferred x d) ∧
    ks_procs s' = wakeup1_proc (ChBuf b) <$> ks_procs s ∧
    iderw_wait b (set_held [L_ide] s') = Ok () s') s.
Proof using drv_ready drv_reads drv_good.
  intros Hh Hok Hx Hdev Hd. pose proof (lookup_lt_Some _ _ _ Hx).
  pose proof (io_started _ _ Hok b x eq_refl Hx) as Hst. destruct (transferred_spec x d) as (T1 & T2 & _ & T4 & _).
  pose proof (io_queue _ _ Hok) as [(Hq & y & Hy & Hrest) Hnd].
  assert (y = x) as -> by congruence.
  unfold ideintr. wp_step. apply wp_acquire; [rewrite Hh; apply not_elem_of_nil|]. rewrite Hh. wp_steps.
  simpl. rewrite Hq. wp_table; [done|]. unfold upd_misc at 1. wp_step. wp_step.
  wp_call (transfer_spec b x d); [done..|]. intros [] s1 ->.
  eapply wp_mark; [simpl; by apply list_lookup_insert_eq|].
  assert (Eb : ∀ z, z = (if hasb (b_flags x) B_DIRTY then x else with_b_data d x) →
    with_b_flags (Z.land (Z.lor (b_flags z) B_VALID) (Z.lnot B_DIRTY)) z = transferred x d).
  { intros z ->. unfold transferred. by destruct (hasb (b_flags x) B_DIRTY). }
  rewrite (Eb _ eq_refl). cbn [ks_bufs set_bufs set_misc set_held]. rewrite list_insert_insert_eq.
  wp_step. apply wp_wakeup; [simpl; set_solver|]. apply wp_bind, wp_gets.
  cbn [ks_misc set_procs set_bufs set_misc set_held ms_idequeue with_ms_idequeue]. unfold when.
  destruct q as [|c q]; simpl in Hrest.
  - rewrite Hrest, bool_decide_false by (by intros [? ?]). wp_steps.
    eapply (wp_release _ []); [done|apply not_elem_of_nil|].
    apply (completed_state s b x [] d (with_ms_idequeue None (ks_misc s))); by try done.
  - destruct Hrest as (El & z & Hz & Hrest). rewrite El, bool_decide_true by eauto.
    assert (b ≠ c) by (intros ->; apply NoDup_cons in Hnd as [Hnd _]; apply Hnd; by left).
    wp_call (idestart_spec c z).
    + simpl. by rewrite list_lookup_insert_ne.
    + apply (io_sector _ _ Hok c); [set_solver|done].
    + intros [] s3 (ps & -> & Hst3). eapply (wp_release _ []); [done|apply not_elem_of_nil|].
      apply (completed_state s b x (c :: q) d (with_ms_ports ps (with_ms_idequeue (Some c) (ks_misc s)))); try done.
      intros c' y' [= <-] Hy'. simpl. by simplify_eq.
Qed.

End Requests.

(** ** Witnesses *)

Module IdeExample.

(** A drive that is busy once and then ready, and presents what it is told to read. *)
#[export] Instance drive : Drive := {
  drv_status _ := [0xc0; 0x40];
  drv_data ps disk :=
    match command ps with Some (IDE_CMD_READ, 1, (1, lba)) => default [] (disk !! Z.to_nat lba) | _ => [] end;
}.

Definition sector0 : list Z := replicate 512 7.
Definition buf0 : buf := mk_buf 1 1 0 0 0 None (replicate 512 0).

(** A read of sector 0 is about to be requested, and has been requested. *)
Definition idle : kstate :=
  set_cur (Some 0%nat) (set_misc (with_ms_havedisk1 true zero_misc) (set_bufs [buf0] (bss [sector0]))).
Definition active : kstate :=
  set_misc (with_ms_idequeue (Some 0%nat) (with_ms_ports
    [(0x1f7, [0x20]); (0x1f6, [0xf0]); (0x1f5, [0]); (0x1f4, [0]); (0x1f3, [0]); (0x1f2, [1])] (ks_misc idle))) idle.

Lemma drive_ready ps : is_Some (poll (drv_status ps)).
Proof. by eexists. Qed.

Lemma drive_reads ps disk lba d :
  command ps = Some (IDE_CMD_READ, 1, (1, lba)) → disk !! Z.to_nat lba = Some d → drv_data ps disk = d.
Proof. simpl. intros -> Hd. by rewrite Hd. Qed.

Lemma drive_good ps r : poll (drv_status ps) = Some r → hasb r (Z.lor IDE_DF IDE_ERR) = false.
Proof. by intros [= <-]. Qed.

Lemma active_ok : ide_ok active [0%nat].
Proof.
  split.
  - split; [|apply NoDup_singleton]. simpl. split; [done|]. by exists buf0.
  - intros b x [= <-] [= <-]. reflexivity.
  - intros b x ->%list_elem_of_singleton [= <-]. unfold sector_ok. simpl. lia.
Qed.

End IdeExample.
Import IdeExample.

Lemma iderw_enqueues_witness :
  ∃ s1, ide_iderw 0 idle = Sleep s1 ∧ ide_ok s1 ([] ++ [0%nat]) ∧ ks_held s1 = [L_ptable] ∧
    ks_procs s1 !! 0%nat = Some (with_p_state SLEEPING (with_p_chan (Some (ChBuf 0)) zero_proc)).
Proof.
  apply (iderw_enqueues drive_ready 0 buf0 [] 0 zero_proc idle); try done.
  - split; try done. by right.
  - split; [split; [done|apply NoDup_nil_2]|done|by intros ? ? ?%not_elem_of_nil].
  - apply not_elem_of_nil.
  - simpl. lia.
Defined.

Lemma ideintr_completes_witness :
  wp ideintr (λ _ s', ks_held s' = [] ∧ ide_ok s' [] ∧
    ks_bufs s' !! 0%nat = Some (transferred buf0 sector0) ∧
    ks_procs s' = wakeup1_proc (ChBuf 0) <$> ks_procs active ∧
    iderw_wait 0 (set_held [L_ide] s') = Ok () s') active.
Proof.
  apply (ideintr_completes drive_ready drive_reads drive_good 0 buf0 [] sector0 active); try done.
  apply active_ok.
Defined.
