(* ===== verification/Syscall.v ===== *)
(** * Syscall: system call arguments (syscall.c)

    The arguments of a system call lie on the user's stack.  The kernel reads
    them, and the buffers they point to, through the page table of the current
    process, which the processor has loaded.  The dispatcher [syscall] is in
    Trap.v. *)

From S2P Require Import Prelude Bytes CString Kernel Sched Ide Inode Kalloc Print Vm.

#[local] Arguments replicate : simpl never.

(** ** User memory as kernel code reaches it

    The page the processor finds for [va] in the table that %cr3 holds.  In
    kernel mode a page is accessible whether or not it is the user's, and with
    CR0_WP set a page that is not writable is protected.  An access that is not
    allowed traps in the kernel, which panics (trap.c). *)

Definition mmu_page (va : Z) (write : bool) : K Z :=
  m ← gets ks_misc;
  pde ← get_word (p2v (ms_cr3 m) + 4 * PDX va);
  if negb (hasb pde PTE_P) then panic "trap" else
  pte ← get_word (p2v (PTE_ADDR pde) + 4 * PTX va);
  if negb (hasb pte PTE_P) || (write && negb (hasb pte PTE_W)) then panic "trap" else
  mret (p2v (PTE_ADDR pte)).

Definition load_user (va : Z) : K Z :=
  a ← mmu_page va false;
  p ← get_page a;
  the (p !! Z.to_nat (va mod PGSIZE)).

Definition store_user (va v : Z) : K () :=
  a ← mmu_page va true;
  write_page a (Z.to_nat (va mod PGSIZE)) [v].

(** The [n] bytes at [va], and the bytes [l] stored at [va]. *)
Fixpoint read_user (va : Z) (n : nat) : K (list Z) :=
  match n with
  | O => mret []
  | S n' => c ← load_user va; l ← read_user (u32 (va + 1)) n'; mret (c :: l)
  end.

Fixpoint write_user (va : Z) (l : list Z) : K () :=
  match l with
  | [] => mret ()
  | c :: l' => store_user va c;; write_user (u32 (va + 1)) l'
  end.

(** ** The code

    Functions that return -1 for an error and store their result through a
    pointer otherwise return an option. *)

(** The current process. *)
Definition curproc : K proc := p ← myproc; get_proc p.

Definition fetchint (addr : Z) : K (option Z) :=
  x ← curproc;
  if (p_sz x <=? addr) || (p_sz x <? u32 (addr + 4)) then mret None else
  w ← read_user addr 4;
  mret (Some (s32 (get32 0 w))).

(** The loop of [fetchstr] over the [n] bytes below the end of the process. *)
Fixpoint fetchstr_loop (s : Z) (n : nat) : K (option nat) :=
  match n with
  | O => mret None
  | S n' =>
      c ← load_user s;
      if c =? 0 then mret (Some O) else
      r ← fetchstr_loop (u32 (s + 1)) n';
      mret (S <$> r)
  end.

(** The length of the string; its address is [addr]. *)
Definition fetchstr (addr : Z) : K (option nat) :=
  x ← curproc;
  if p_sz x <=? addr then mret None else fetchstr_loop addr (Z.to_nat (p_sz x - addr)).

Definition argint (n : Z) : K (option Z) :=
  x ← curproc;
  fetchint (u32 (tf_esp (p_tf x) + 4 + 4 * n)).

(** The address. *)
Definition argptr (n size : Z) : K (option Z) :=
  i ← argint n;
  match i with
  | None => mret None
  | Some i =>
      x ← curproc;
      if (p_sz x <=? u32 i) || (p_sz x <? u32 (u32 i + size)) then mret None else mret (Some (u32 i))
  end.

(** The address and the length of the string. *)
Definition argstr (n : Z) : K (option (Z * nat)) :=
  addr ← argint n;
  match addr with
  | None => mret None
  | Some addr =>
      r ← fetchstr (u32 addr);
      mret ((λ len, (u32 addr, len)) <$> r)
  end.

(** A string argument as the functions it is passed to read it: its bytes and
    the NUL that ends it. *)
Definition argpath (n : Z) : K (option (list Z)) :=
  r ← argstr n;
  match r with
  | None => mret None
  | Some (addr, len) => l ← read_user addr (S len); mret (Some l)
  end.

(** ** What they return *)

(** The byte kernel code reads at [va]. *)
Definition mpage (m : gmap Z (list Z)) (T : gmap Z Z) (va : Z) : option Z :=
  if hasb (pte m T va) PTE_P then Some (p2v (PTE_ADDR (pte m T va))) else None.

Definition mbyte (m : gmap Z (list Z)) (T : gmap Z Z) (va : Z) : option Z :=
  a ← mpage m T va;
  p ← m !! a;
  p !! Z.to_nat (va mod 4096).

(** The current process has its page table loaded and its memory, below [sz],
    mapped; [bs] are the bytes in it. *)
Record running (s : kstate) (x : proc) (T : gmap Z Z) (bs : list Z) : Prop := {
  ru_cur : ∃ p, ks_cur s = Some p ∧ ks_procs s !! p = Some x;
  ru_cr3 : p2v (ms_cr3 (ks_misc s)) = p_pgdir x;
  ru_dir : dir_ok (ks_mem s) (p_pgdir x) T;
  ru_sz : 0 ≤ p_sz x < KERNBASE;
  ru_len : Z.of_nat (length bs) = p_sz x;
  ru_ok : bytes_ok bs;
  ru_bytes : ∀ va, 0 ≤ va < p_sz x → mbyte (ks_mem s) T va = bs !! Z.to_nat va;
}.

Lemma u32_s32 w : 0 ≤ w < 2 ^ 32 → u32 (s32 w) = w.
Proof.
  intros H. unfold s32, signed, u32. rewrite (Z.mod_small w) by done.
  destruct (w <? 2 ^ (32 - 1)); [by apply Z.mod_small|].
  rewrite <-(Z_mod_plus_full _ 1), Z.mul_1_l, Z.sub_add. by apply Z.mod_small.
Qed.

(** The word at [a] in the memory of the process, if it lies in it. *)
Definition user_word (bs : list Z) (a : Z) : option Z :=
  if decide (a + 4 ≤ Z.of_nat (length bs)) then Some (get32 (Z.to_nat a) bs) else None.

(** The string at [a]: the bytes up to and with the first NUL. *)
Definition user_string (bs : list Z) (a : Z) : option (list Z) :=
  n ← strlen (drop (Z.to_nat a) bs);
  Some (take (S n) (drop (Z.to_nat a) bs)).

Section Running.
Context (s : kstate) (x : proc) (T : gmap Z Z) (bs : list Z) (R : running s x T bs).
#[local] Set Default Proof Using "Type*".

Lemma curproc_runs : runs_to curproc s x s.
Proof.
  destruct (ru_cur _ _ _ _ R) as (p & Hc & Hp). unfold runs_to, curproc, myproc, mbind, M_bind, gets.
  rewrite Hc. simpl. unfold get_proc. by rewrite Hp.
Qed.

Lemma mmu_runs va a : mpage (ks_mem s) T va = Some a → runs_to (mmu_page va false) s a s.
Proof.
  intros Hm. assert (wp (mmu_page va false) (λ a' s', a' = a ∧ s' = s) s) as W.
  { unfold mpage, pte in Hm. destruct (T !! PDX va) as [t|] eqn:Et; [|done].
    destruct (do_dir _ _ _ (ru_dir _ _ _ _ R)) as (p & Hp & _ & Hd). specialize (Hd _ (PDX_range va)).
    rewrite Et in Hd. destruct Hd as [H1 H2].
    destruct (do_tab _ _ _ (ru_dir _ _ _ _ R) _ _ Et) as ([Ht0 _] & _ & q & Hq & _).
    unfold mmu_page. wp_steps. rewrite (ru_cr3 _ _ _ _ R).
    eapply wp_get_word; [apply (do_page _ _ _ (ru_dir _ _ _ _ R))|apply PDX_range|done|]. rewrite H1, H2. cbn [negb].
    wp_step. eapply wp_get_word; [done|apply PTX_range|done|].
    rewrite (lookup_total_correct _ _ _ Hq) in Hm. destruct (hasb (get32 _ q) PTE_P); [|done].
    injection Hm as <-. cbn [negb orb andb]. by wp_step. }
  apply wp_runs in W as (? & ? & ? & -> & ->). done.
Qed.

Lemma load_user_runs va c : 0 ≤ va → bs !! Z.to_nat va = Some c → runs_to (load_user va) s c s.
Proof.
  intros Hva Hc. pose proof (lookup_lt_Some _ _ _ Hc) as Hlt. pose proof (ru_len _ _ _ _ R) as Hl.
  pose proof (ru_bytes _ _ _ _ R va ltac:(lia)) as Hb. rewrite Hc in Hb. unfold mbyte in Hb.
  apply bind_Some in Hb as (a & Ha & Hb). apply bind_Some in Hb as (p & Hp & Hb).
  unfold load_user. eapply runs_bind; [by apply mmu_runs|].
  unfold runs_to, get_page, mbind, M_bind, gets. rewrite Hp. simpl. by rewrite Hb.
Qed.

Lemma read_user_runs n : ∀ va,
  0 ≤ va → va + Z.of_nat n ≤ p_sz x → runs_to (read_user va n) s (slice (Z.to_nat va) n bs) s.
Proof.
  pose proof (ru_sz _ _ _ _ R). pose proof (ru_len _ _ _ _ R).
  induction n as [|n IH]; intros va Hva Hn; [done|].
  destruct (lookup_lt_is_Some_2 bs (Z.to_nat va) ltac:(lia)) as [c Hc].
  cbn [read_user]. eapply runs_bind; [by apply load_user_runs|]. rewrite u32_small by lia.
  eapply runs_bind; [apply IH; lia|]. replace (Z.to_nat (va + 1)) with (S (Z.to_nat va)) by lia.
  unfold slice. by rewrite (drop_S _ _ _ Hc).
Qed.

Lemma fetchint_runs a :
  0 ≤ a < 2 ^ 32 → runs_to (fetchint a) s (s32 <$> user_word bs a) s.
Proof.
  intros Ha. pose proof (ru_sz _ _ _ _ R). pose proof (ru_len _ _ _ _ R) as Hl.
  unfold fetchint. eapply runs_bind; [apply curproc_runs|]. unfold user_word. rewrite Hl.
  case_decide.
  - rewrite (proj2 (Z.leb_gt _ _)), u32_small, (proj2 (Z.ltb_ge _ _)) by lia. cbn [orb].
    eapply runs_bind; [apply read_user_runs; simpl; lia|].
    assert (get32 0 (slice (Z.to_nat a) 4 bs) = get32 (Z.to_nat a) bs) as ->; [|done].
    unfold get32, get_le, slice. by rewrite drop_0, take_take, Nat.min_id.
  - destruct (Z.leb_spec (p_sz x) a); [done|]. rewrite u32_small by lia.
    by rewrite (proj2 (Z.ltb_lt _ _)) by lia.
Qed.

Lemma fetchstr_loop_runs n : ∀ va,
  0 ≤ va → va + Z.of_nat n = p_sz x →
  runs_to (fetchstr_loop va n) s (strlen (drop (Z.to_nat va) bs)) s.
Proof.
  pose proof (ru_sz _ _ _ _ R). pose proof (ru_len _ _ _ _ R).
  induction n as [|n IH]; intros va Hva Hn.
  { rewrite drop_ge by lia. done. }
  destruct (lookup_lt_is_Some_2 bs (Z.to_nat va) ltac:(lia)) as [c Hc].
  cbn [fetchstr_loop]. eapply runs_bind; [by apply load_user_runs|].
  rewrite (drop_S _ _ _ Hc). cbn [strlen]. destruct (c =? 0); [done|]. rewrite u32_small by lia.
  eapply runs_bind; [apply IH; lia|]. by replace (Z.to_nat (va + 1)) with (S (Z.to_nat va)) by lia.
Qed.

Lemma fetchstr_runs a :
  0 ≤ a → runs_to (fetchstr a) s (strlen (drop (Z.to_nat a) bs)) s.
Proof.
  intros Ha. pose proof (ru_sz _ _ _ _ R). pose proof (ru_len _ _ _ _ R).
  unfold fetchstr. eapply runs_bind; [apply curproc_runs|]. destruct (Z.leb_spec (p_sz x) a).
  - by rewrite drop_ge by lia.
  - apply fetchstr_loop_runs; lia.
Qed.

(** The address of the [n]-th argument. *)
Definition arg_addr (n : Z) : Z := u32 (tf_esp (p_tf x) + 4 + 4 * n).

Lemma argint_runs n : runs_to (argint n) s (s32 <$> user_word bs (arg_addr n)) s.
Proof.
  unfold argint. eapply runs_bind; [apply curproc_runs|]. apply fetchint_runs, u32_range.
Qed.

Lemma user_word_range a w : user_word bs a = Some w → 0 ≤ w < 2 ^ 32.
Proof.
  unfold user_word. case_decide; [|done]. intros [= <-]. apply get32_range, (ru_ok _ _ _ _ R).
Qed.

Lemma argstr_runs n :
  runs_to (argstr n) s
    (a ← user_word bs (arg_addr n); (λ k, (a, k)) <$> strlen (drop (Z.to_nat a) bs)) s.
Proof.
  unfold argstr. eapply runs_bind; [apply argint_runs|].
  destruct (user_word bs (arg_addr n)) as [a|] eqn:E; [|done]. simpl.
  pose proof (user_word_range _ _ E). rewrite u32_s32 by done.
  eapply runs_bind; [apply fetchstr_runs; lia|]. by destruct (strlen _).
Qed.

End Running.

(** String arguments.  In a process whose memory is mapped, the kernel
    gets as the [n]-th argument exactly the NUL-terminated string that lies in
    the process's memory at the address on its stack, and an error if the
    stack slot or the string is not all below [sz]: it never reads outside the
    process, and changes nothing. *)
Theorem argpath_string s x T bs n :
  running s x T bs →
  runs_to (argpath n) s (a ← user_word bs (arg_addr x n); user_string bs a) s.
Proof.
  intros R. unfold argpath. eapply runs_bind; [by eapply argstr_runs|].
  destruct (user_word bs (arg_addr x n)) as [a|] eqn:E; [|done].
  pose proof (user_word_range s x T bs R _ _ E). unfold user_string. cbn [mbind option_bind].
  destruct (strlen (drop (Z.to_nat a) bs)) as [k|] eqn:Ek; [|done]. cbn [fmap option_fmap option_map mbind option_bind].
  apply strlen_lt in Ek. rewrite length_drop in Ek. pose proof (ru_len _ _ _ _ R).
  eapply runs_bind; [eapply read_user_runs; [done|lia|lia]|]. done.
Qed.

(** C38: pointer arguments.  [argptr] gives the address on the stack exactly if
    the block of [size] bytes from there on, taken as an offset even when
    [size] is negative, starts and ends inside the process. *)
Theorem argptr_bounds s x T bs n size :
  running s x T bs → - 2 ^ 31 ≤ size < 2 ^ 31 →
  runs_to (argptr n size) s
    (a ← user_word bs (arg_addr x n);
     if decide (a < p_sz x ∧ 0 ≤ a + size ≤ p_sz x) then Some a else None) s.
Proof.
  intros R Hs. unfold argptr. eapply runs_bind; [by eapply argint_runs|].
  destruct (user_word bs (arg_addr x n)) as [a|] eqn:E; [|done]. simpl.
  pose proof (user_word_range s x T bs R _ _ E). pose proof (ru_sz _ _ _ _ R). rewrite u32_s32 by done.
  eapply runs_bind; [by eapply curproc_runs|]. destruct (Z.leb_spec (p_sz x) a); simpl.
  { by rewrite decide_False by lia. }
  destruct (decide (0 ≤ a + size)).
  - rewrite u32_small by lia. destruct (Z.ltb_spec (p_sz x) (a + size)).
    + by rewrite decide_False by lia.
    + by rewrite decide_True by lia.
  - assert (u32 (a + size) = a + size + 2 ^ 32) as ->.
    { unfold u32. rewrite <-(Z_mod_plus_full _ 1). apply Z.mod_small. lia. }
    rewrite (proj2 (Z.ltb_lt _ _)) by lia. by rewrite decide_False by lia.
Qed.

(** ** Witnesses *)

Module SyscallExample.
Import VmExample.

(** A process of one page of zeros, with its stack pointer at 0. *)
Definition proc0 : proc := with_p_sz 4096 (with_p_pgdir dir (with_p_state RUNNING zero_proc)).
Definition user0 : kstate :=
  set_misc (with_ms_cr3 (v2p dir) zero_misc)
    (set_cur (Some 0%nat) (set_procs [proc0] user)).

Lemma user0_running : running user0 proc0 tabs (replicate 4096 0).
Proof.
  split; try done.
  - by exists 0%nat.
  - apply user_dir.
  - by apply Forall_replicate.
  - intros va Hva. change (ks_mem user0) with (ks_mem user). change (p_sz proc0) with 4096 in Hva.
    assert (Hp : mpage (ks_mem user) tabs va = Some frame).
    { pose proof (user_upage va ltac:(lia)) as E. rewrite decide_True in E by (apply Z.div_small; lia).
      unfold upage in E. unfold mpage. destruct (hasb (pte _ _ _) PTE_P); [|done].
      destruct (hasb (pte _ _ _) PTE_U); done. }
    unfold mbyte. rewrite Hp. cbn [mbind option_bind].
    change (ks_mem user !! frame) with (Some (replicate 4096 0)). cbn [mbind option_bind].
    by rewrite Z.mod_small by lia.
Qed.

End SyscallExample.
Import VmExample SyscallExample.

Lemma argpath_string_witness : runs_to (argpath 0) user0 (Some [0]) user0.
Proof. exact (argpath_string user0 proc0 tabs (replicate 4096 0) 0 user0_running). Defined.

Lemma argptr_bounds_witness : runs_to (argptr 0 100) user0 (Some 0) user0.
Proof.
  exact (argptr_bounds user0 proc0 tabs (replicate 4096 0) 0 100 user0_running ltac:(lia)).
Defined.
