(* ===== verification/SysProc.v ===== *)
(** * SysProc: the system calls on processes (sysproc.c)

    Each handler fetches its arguments and calls the function of proc.c. *)

From S2P Require Import Prelude Bytes CString Kernel Sched Ide Bio Log Crash Block Inode Icache Dir Kalloc Pipe File Print Vm Proc Syscall.

#[local] Arguments replicate : simpl never.

(** A word stored in user memory. *)
Definition store_int (va v : Z) : K () := write_user va (le_bytes 4 v).

(** The loop of [sys_sleep], entered with [tickslock] held: also where the
    process goes on after [sleep].  The difference and [n] are compared as
    unsigned numbers. *)
Definition sys_sleep_loop (ticks0 n : Z) : K Z :=
  ticks ← gets ks_ticks;
  if u32 (ticks - ticks0) <? u32 n then
    x ← curproc;
    if p_killed x then release L_ticks;; mret (-1) else sleep ChTicks L_ticks
  else release L_ticks;; mret 0.

Definition sys_sleep : K Z :=
  n ← argint 0;
  match n with
  | None => mret (-1)
  | Some n =>
      acquire L_ticks;;
      ticks0 ← gets ks_ticks;
      sys_sleep_loop ticks0 n
  end.

Definition sys_uptime : K Z :=
  acquire L_ticks;;
  xticks ← gets ks_ticks;
  release L_ticks;;
  mret (s32 xticks).

Definition sys_kill : K Z :=
  pid ← argint 0;
  match pid with None => mret (-1) | Some pid => kill pid end.

Definition sys_getpid : K Z := x ← curproc; mret (p_pid x).

(** The process goes on with [yield_resume]. *)
Definition sys_yield : K Z := yield (A:=());; mret 0.

Section Code.
Context `{Ide} `{Devsw} `{Linker}.

Definition sys_fork : K Z := fork.

(** [exit] does not return. *)
Definition sys_exit : K Z := exit (A:=());; mret 0.

Definition sys_wait : K Z := wait.

(** The three counters are stored by [wait2] itself. *)
Definition sys_wait2 : K Z :=
  retime ← argptr 0 4;
  match retime with
  | None => mret (-1)
  | Some retime =>
      rutime ← argptr 1 4;
      match rutime with
      | None => mret (-1)
      | Some rutime =>
          stime ← argptr 2 4;
          match stime with
          | None => mret (-1)
          | Some stime =>
              r ← wait2;
              (match r.2 with
               | None => mret ()
               | Some (re, ru, st) => store_int retime re;; store_int rutime ru;; store_int stime st
               end);;
              mret r.1
          end
      end
  end.

Definition sys_sbrk : K Z :=
  n ← argint 0;
  match n with
  | None => mret (-1)
  | Some n =>
      x ← curproc;
      let addr := s32 (p_sz x) in
      r ← growproc n;
      if r <? 0 then mret (-1) else mret addr
  end.

Definition sys_ps (pcs : proc → list Z) : K Z := ps pcs.

End Code.
