(* ===== verification/Exec.v ===== *)
(** * Exec: loading a program (exec.c)

    The code, and the layout of the stack a program starts with. *)

From S2P Require Import Prelude Bytes CString Kernel Sched Ide Bio Log Crash Block Inode Icache Dir Kalloc Pipe File Print Vm Proc.

#[local] Arguments replicate : simpl never.

(** ** elf.h *)

Abbreviation ELF_MAGIC := 0x464C457F.
Abbreviation ELF_PROG_LOAD := 1.

(** [struct elfhdr] and [struct proghdr], by the offsets of the fields used. *)
Definition elf_magic : list Z → Z := get32 0.
Definition elf_entry : list Z → Z := get32 24.
Definition elf_phoff : list Z → Z := get32 28.
Definition elf_phnum : list Z → Z := get16 44.
Abbreviation sizeof_elfhdr := 52.

Definition ph_type : list Z → Z := get32 0.
Definition ph_off : list Z → Z := get32 4.
Definition ph_vaddr : list Z → Z := get32 8.
Definition ph_filesz : list Z → Z := get32 16.
Definition ph_memsz : list Z → Z := get32 20.
Abbreviation sizeof_proghdr := 32.

(** An array of words as it lies in memory. *)
Definition words (l : list Z) : list Z := l ≫= le_bytes 4.

Section Code.
Context `{Ide} `{Devsw} `{Linker}.

(** The loop over the [n] program headers from [off] on; [None] is the jump to
    [bad]. *)
Fixpoint load_segments (pgdir : Z) (ip : nat) (sz off : Z) (n : nat) : K (option Z) :=
  match n with
  | O => mret (Some sz)
  | S n' =>
      r ← readi ip (u32 off) sizeof_proghdr;
      if negb (r.1 =? sizeof_proghdr) then mret None else
      let ph := r.2 in
      if negb (ph_type ph =? ELF_PROG_LOAD) then
        load_segments pgdir ip sz (s32 (off + sizeof_proghdr)) n'
      else
      if ph_memsz ph <? ph_filesz ph then mret None else
      sz ← allocuvm pgdir sz (u32 (ph_vaddr ph + ph_memsz ph));
      if sz =? 0 then mret None else
      e ← loaduvm pgdir (ph_vaddr ph) ip (ph_off ph) (ph_filesz ph);
      if e <? 0 then mret None else
      load_segments pgdir ip sz (s32 (off + sizeof_proghdr)) n'
  end.

(** The loop that pushes the argument strings: the stack pointer and the
    pointers stored in [ustack]. *)
Fixpoint push_strings (pgdir : Z) (argv : list (list Z)) (sp argc : Z) : K (option (Z * list Z)) :=
  match argv with
  | [] => mret (Some (sp, []))
  | a :: argv' =>
      if MAXARG <=? argc then mret None else
      len ← the (strlen a);
      let sp := Z.land (u32 (sp - (Z.of_nat len + 1))) (u32 (Z.lnot 3)) in
      e ← copyout pgdir sp (take (S len) a);
      if e <? 0 then mret None else
      r ← push_strings pgdir argv' sp (argc + 1);
      mret ('(sp', ptrs) ← r; Some (sp', sp :: ptrs))
  end.

(** The arguments and [ustack]: the stack pointer the program starts with. *)
Definition push_args (pgdir sz : Z) (argv : list (list Z)) : K (option Z) :=
  r ← push_strings pgdir argv sz 0;
  match r with
  | None => mret None
  | Some (sp, ptrs) =>
      let argc := Z.of_nat (length argv) in
      let ustack := [0xffffffff; argc; u32 (sp - (argc + 1) * 4)] ++ ptrs ++ [0] in
      let sp := u32 (sp - (3 + argc + 1) * 4) in
      e ← copyout pgdir sp (words ustack);
      if e <? 0 then mret None else mret (Some sp)
  end.

(** Two pages above the program: one that is inaccessible, one for the stack.
    The size of the process and the stack pointer. *)
Definition exec_stack (pgdir sz : Z) (argv : list (list Z)) : K (option (Z * Z)) :=
  let sz := PGROUNDUP sz in
  sz ← allocuvm pgdir sz (u32 (sz + 2 * PGSIZE));
  if sz =? 0 then mret None else
  clearpteu pgdir (u32 (sz - 2 * PGSIZE));;
  sp ← push_args pgdir sz argv;
  mret ((λ sp, (sz, sp)) <$> sp).

(** The scan of [path] for what follows its last slash. *)
Fixpoint last_elem (s last : list Z) : option (list Z) :=
  match s with
  | [] => None
  | c :: s' => if c =? 0 then Some last else last_elem s' (if c =? 47 then s' else last)
  end.

(** The code at the label [bad]. *)
Definition exec_bad (pgdir : Z) (ip : option nat) : K Z :=
  when (negb (pgdir =? 0)) (freevm pgdir);;
  (match ip with Some ip => iunlockput ip | None => mret () end);;
  mret (-1).

(** Commit to the user image. *)
Definition exec_commit (path : list Z) (pgdir sz entry sp : Z) : K Z :=
  p ← myproc;
  last ← the (last_elem path path);
  set_name p last;;
  x ← get_proc p;
  let oldpgdir := p_pgdir x in
  upd_proc p (with_p_pgdir pgdir);;
  upd_proc p (with_p_sz sz);;
  upd_proc p (λ x, with_p_tf (with_tf_eip entry (p_tf x)) x);;
  upd_proc p (λ x, with_p_tf (with_tf_esp sp (p_tf x)) x);;
  switchuvm p;;
  freevm oldpgdir;;
  mret 0.

(** [junk] is what the stack holds where [elf] lies: a read that returns -1,
    which is compared as an unsigned number, leaves it there. *)
Definition exec (junk path : list Z) (argv : list (list Z)) : K Z :=
  o ← namei path;
  match o with
  | None => mret (-1)
  | Some ip =>
      ilock ip;;
      r ← readi ip 0 sizeof_elfhdr;
      let elf := splice 0 r.2 junk in
      if u32 r.1 <? sizeof_elfhdr then exec_bad 0 (Some ip) else
      if negb (elf_magic elf =? ELF_MAGIC) then exec_bad 0 (Some ip) else
      pgdir ← setupkvm;
      if pgdir =? 0 then exec_bad 0 (Some ip) else
      sz ← load_segments pgdir ip 0 (s32 (elf_phoff elf)) (Z.to_nat (elf_phnum elf));
      match sz with
      | None => exec_bad pgdir (Some ip)
      | Some sz =>
          iunlockput ip;;
          r ← exec_stack pgdir sz argv;
          match r with
          | None => exec_bad pgdir None
          | Some (sz, sp) => exec_commit path pgdir sz (elf_entry elf) sp
          end
      end
  end.

End Code.

(** ** The stack of a new program *)

Lemma land_word x : 0 ≤ x < 2 ^ 32 → Z.land x (u32 (Z.lnot 3)) = x - x mod 4.
Proof.
  intros Hx. change (u32 (Z.lnot 3)) with (Z.shiftl (Z.ones 30) 2).
  transitivity (Z.shiftl (Z.shiftr x 2) 2); cycle 1.
  { rewrite Z.shiftl_mul_pow2, Z.shiftr_div_pow2 by lia. change (2 ^ 2) with 4.
    pose proof (Z.div_mod x 4 ltac:(lia)). lia. }
  apply Z.bits_inj'. intros n Hn. rewrite Z.land_spec.
  destruct (decide (n < 2)); [by rewrite !Z.shiftl_spec_low, andb_false_r by lia|].
  rewrite !Z.shiftl_spec_high, Z.shiftr_spec by lia. replace (n - 2 + 2) with n by lia.
  destruct (decide (n < 32)).
  - by rewrite Z.ones_spec_low, andb_true_r by lia.
  - rewrite <-(Z.mod_small x (2 ^ 32)) by lia. by rewrite Z.mod_pow2_bits_high by lia.
Qed.

(** The bytes [l] lie in user memory at [va]. *)
Definition ubytes (m : gmap Z (list Z)) (T : gmap Z Z) (va : Z) (l : list Z) : Prop :=
  ∀ j c, l !! j = Some c → ubyte m T (va + Z.of_nat j) = Some c.

(** The string an argument pointer points to, with its NUL. *)
Definition cstring_of (a : list Z) : list Z := take (S (default 0%nat (strlen a))) a.

(** The room the strings need, with the alignment of each. *)
Definition room (argv : list (list Z)) : nat :=
  sum_list_with (λ a, length (cstring_of a) + 3)%nat argv.

Lemma length_cstring_of a n : strlen a = Some n → length (cstring_of a) = S n.
Proof.
  intros E. unfold cstring_of. rewrite E. simpl default. rewrite length_take. apply strlen_lt in E. lia.
Qed.

Section Layout.
Context `{Ide} `{Devsw} `{Linker}.
Context (d : Z) (T : gmap Z Z) (l : list Z) (base top : Z).
Hypothesis range : 0 ≤ base ∧ base ≤ top ∧ top ≤ KERNBASE.

(** The stack is mapped for the user. *)
Definition mapped (s : kstate) : Prop := ∀ v, base ≤ v < top → is_Some (ubyte (ks_mem s) T v).

(** Copying into the stack. *)
Lemma stack_copyout s va p :
  uspace s d T l → mapped s → base ≤ va → va + Z.of_nat (length p) ≤ top →
  wp (copyout d va p) (λ r s', r = 0 ∧ uspace s' d T l ∧ mapped s' ∧ ubytes (ks_mem s') T va p ∧
    ∀ v, va + Z.of_nat (length p) ≤ v < 2 ^ 32 → ubyte (ks_mem s') T v = ubyte (ks_mem s) T v) s.
Proof using range.
  intros U Hm Hva Hend. eapply wp_mono.
  { apply (copyout_spec s d T l); [done|lia|lia|]. intros v Hv.
    destruct (Hm v ltac:(lia)) as [c Hc]. apply bind_Some in Hc as (a & Ha & _). eauto. }
  intros r s' (-> & U' & E). split_and!; try done.
  - intros v Hv. rewrite E by lia. case_decide; [|by apply Hm]. apply lookup_lt_is_Some_2. lia.
  - intros j c Hj. pose proof (lookup_lt_Some _ _ _ Hj). rewrite E by lia. rewrite decide_True by lia.
    rewrite <-Hj. f_equal. lia.
  - intros v Hv. rewrite E by lia. by rewrite decide_False by lia.
Qed.

(** The strings: each one below the stack pointer it started from. *)
Lemma push_strings_spec argv : ∀ s sp argc,
  uspace s d T l → mapped s → sp ≤ top → base + Z.of_nat (room argv) ≤ sp →
  0 ≤ argc → argc + Z.of_nat (length argv) ≤ MAXARG →
  Forall (λ a, is_Some (strlen a)) argv →
  wp (push_strings d argv sp argc) (λ r s', ∃ sp' ptrs, r = Some (sp', ptrs) ∧
    uspace s' d T l ∧ mapped s' ∧ length ptrs = length argv ∧ sp - Z.of_nat (room argv) ≤ sp' ≤ sp ∧
    (∀ v, sp ≤ v < 2 ^ 32 → ubyte (ks_mem s') T v = ubyte (ks_mem s) T v) ∧
    ∀ i a p, argv !! i = Some a → ptrs !! i = Some p →
      sp' ≤ p ∧ p + Z.of_nat (length (cstring_of a)) ≤ sp ∧ ubytes (ks_mem s') T p (cstring_of a)) s.
Proof using range.
  induction argv as [|a argv IH]; intros s sp argc U Hm Hsp Hroom Hc0 Hargc Hstr; cbn [push_strings].
  { wp_step. exists sp, []. simpl. split_and!; try done; lia. }
  apply Forall_cons in Hstr as [[n Hn] Hstr]. pose proof (length_cstring_of a n Hn) as Hlen.
  cbn [room sum_list_with] in Hroom. fold (room argv) in Hroom. cbn [length] in Hargc.
  rewrite (proj2 (Z.leb_gt _ _)) by lia. wp_step. eapply wp_the; [done|].
  replace (take (S n) a) with (cstring_of a) by (unfold cstring_of; by rewrite Hn).
  rewrite u32_small by lia. rewrite land_word by lia. set (x := sp - (Z.of_nat n + 1)).
  pose proof (Z.mod_pos_bound x 4 ltac:(lia)). set (p := x - x mod 4).
  assert (Hp : base + Z.of_nat (room argv) ≤ p ∧ p + Z.of_nat (length (cstring_of a)) ≤ sp ∧
    sp - Z.of_nat (length (cstring_of a) + 3) ≤ p) by (unfold p, x in *; lia).
  wp_call (stack_copyout s p (cstring_of a)); [done|done|lia|lia|].
  intros r s1 (-> & U1 & M1 & B1 & F1). cbn [Z.ltb Z.compare].
  wp_call (IH s1 p (argc + 1)); [done|done|lia|lia|lia|lia|done|].
  intros r s2 (sp' & ptrs & -> & U2 & M2 & L2 & R2 & F2 & P2). wp_step.
  exists sp', (p :: ptrs). split_and!; try done.
  - simpl. by rewrite L2.
  - cbn [room sum_list_with]. fold (room argv). lia.
  - lia.
  - intros v Hv. rewrite F2, F1 by lia. done.
  - intros [|i] b q Hb Hq; simplify_eq/=.
    + split_and!; [lia|lia|]. intros j c Hj. pose proof (lookup_lt_Some _ _ _ Hj). rewrite F2 by lia. by apply B1.
    + destruct (P2 i b q Hb Hq) as (? & ? & ?). split_and!; [lia|lia|done].
Qed.

Lemma length_words ws : length (words ws) = (4 * length ws)%nat.
Proof.
  induction ws as [|w ws IH]; [done|]. unfold words in *. rewrite bind_cons, length_app, length_le_bytes, IH.
  simpl. lia.
Qed.

(** C37: the arguments of a program.  If the stack has room for them, the
    program starts with a stack pointer where, in user memory, lie a return
    address that is no code, the number of arguments, a pointer to the array
    of argument pointers right above, and the array, with a null pointer at
    its end; the pointers point to the argument strings. *)
Theorem exec_arguments s argv :
  uspace s d T l → mapped s → (length argv ≤ 32)%nat → Forall (λ a, is_Some (strlen a)) argv →
  base + Z.of_nat (room argv) + 4 * (4 + Z.of_nat (length argv)) ≤ top →
  wp (push_args d top argv) (λ r s', ∃ sp ptrs, r = Some sp ∧ base ≤ sp ∧
    length ptrs = length argv ∧
    ubytes (ks_mem s') T sp
      (words ([0xffffffff; Z.of_nat (length argv); sp + 12] ++ ptrs ++ [0])) ∧
    ∀ i a p, argv !! i = Some a → ptrs !! i = Some p → ubytes (ks_mem s') T p (cstring_of a)) s.
Proof using range.
  intros U Hm Hargc Hstr Hroom. unfold push_args.
  wp_call (push_strings_spec argv s top 0); [done|done|lia|lia|lia|lia|done|].
  intros r s1 (sp & ptrs & -> & U1 & M1 & L1 & R1 & F1 & P1).
  set (n := Z.of_nat (length argv)) in *. rewrite !u32_small by lia.
  set (ws := [4294967295; n; sp - (n + 1) * 4] ++ ptrs ++ [0]).
  assert (Hws : Z.of_nat (length (words ws)) = 4 * (4 + n)).
  { rewrite length_words. unfold ws. rewrite !length_app. simpl. lia. }
  wp_call (stack_copyout s1 (sp - (3 + n + 1) * 4) (words ws)); [done|done|lia|lia|].
  intros r s2 (-> & U2 & M2 & B2 & F2). cbn [Z.ltb Z.compare]. wp_step.
  exists (sp - (3 + n + 1) * 4), ptrs. split_and!; try done; [lia|..].
  - by replace (sp - (3 + n + 1) * 4 + 12) with (sp - (n + 1) * 4) by lia.
  - intros i a p Ha Hp. destruct (P1 i a p Ha Hp) as (Hlo & Hhi & B1). intros j c Hj.
    pose proof (lookup_lt_Some _ _ _ Hj). rewrite F2 by lia. by apply B1.
Qed.

End Layout.

(** A program with one argument, on a stack of one page. *)
Lemma exec_arguments_witness :
  wp (push_args VmExample.dir 4096 [[97; 98; 0]]) (λ r s', ∃ sp ptrs, r = Some sp ∧ 0 ≤ sp ∧
    length ptrs = 1%nat ∧
    ubytes (ks_mem s') VmExample.tabs sp (words ([0xffffffff; 1; sp + 12] ++ ptrs ++ [0])) ∧
    ∀ i a p, [[97; 98; 0]] !! i = Some a → ptrs !! i = Some p →
      ubytes (ks_mem s') VmExample.tabs p (cstring_of a)) VmExample.user.
Proof.
  apply (exec_arguments VmExample.dir VmExample.tabs [] 0 4096 ltac:(lia) VmExample.user [[97; 98; 0]]).
  - apply VmExample.user_ok.
  - intros v Hv. unfold ubyte. rewrite VmExample.user_upage by lia.
    rewrite decide_True by (apply Z.div_small; lia). cbn [mbind option_bind].
    change (ks_mem VmExample.user !! VmExample.frame) with (Some (replicate 4096 0)). cbn [mbind option_bind].
    apply lookup_lt_is_Some_2. rewrite length_replicate. pose proof (Z.mod_pos_bound v 4096). lia.
  - simpl. lia.
  - repeat constructor. by eexists.
  - vm_compute. done.
Defined.
