(* ===== verification/SysFile.v ===== *)
(** * SysFile: the system calls on files (sysfile.c)

    Argument checking, and calls into file.c, fs.c and exec.c, inside the
    transactions of log.c. *)

From S2P Require Import Prelude Bytes CString Kernel Sched Ide Bio Log Crash Block Inode Icache Dir Kalloc Pipe File Print Vm Proc Syscall SysProc Exec.

#[local] Arguments replicate : simpl never.

Abbreviation O_RDONLY := 0.
Abbreviation O_WRONLY := 1.
Abbreviation O_RDWR := 2.
Abbreviation O_CREATE := 0x200.

(** ** Descriptors *)

(** The descriptor and the file. *)
Definition argfd (n : Z) : K (option (Z * nat)) :=
  fd ← argint n;
  match fd with
  | None => mret None
  | Some fd =>
      x ← curproc;
      if (fd <? 0) || (Z.of_nat NOFILE <=? fd) then mret None else
      o ← the (p_ofile x !! Z.to_nat fd);
      mret ((λ f, (fd, f)) <$> o)
  end.

(** [proc->ofile[fd] = f] *)
Definition set_ofile (fd : nat) (f : option nat) : K () :=
  p ← myproc;
  upd_proc p (λ x, with_p_ofile (<[fd:=f]> (p_ofile x)) x).

(** The descriptor, or -1. *)
Definition fdalloc (f : nat) : K Z :=
  x ← curproc;
  match find_from (λ o, bool_decide (o = None)) 0 (p_ofile x) with
  | Some fd => set_ofile fd (Some f);; mret (Z.of_nat fd)
  | None => mret (-1)
  end.

Definition sys_dup : K Z :=
  a ← argfd 0;
  match a with
  | None => mret (-1)
  | Some (_, f) =>
      fd ← fdalloc f;
      if fd <? 0 then mret (-1) else
      filedup f;;
      mret fd
  end.

Section Code.
Context `{Ide} `{Devsw} `{Linker}.

(** A read of [n] bytes; what was read is stored at [p]. *)
Definition sys_read : K Z :=
  a ← argfd 0;
  match a with
  | None => mret (-1)
  | Some (_, f) =>
      n ← argint 2;
      match n with
      | None => mret (-1)
      | Some n =>
          p ← argptr 1 n;
          match p with
          | None => mret (-1)
          | Some p =>
              r ← fileread f n;
              write_user p r.2;;
              mret r.1
          end
      end
  end.

(** The bytes are fetched before they are written. *)
Definition sys_write : K Z :=
  a ← argfd 0;
  match a with
  | None => mret (-1)
  | Some (_, f) =>
      n ← argint 2;
      match n with
      | None => mret (-1)
      | Some n =>
          p ← argptr 1 n;
          match p with
          | None => mret (-1)
          | Some p =>
              data ← read_user p (Z.to_nat n);
              filewrite f data n
          end
      end
  end.

Definition sys_close : K Z :=
  a ← argfd 0;
  match a with
  | None => mret (-1)
  | Some (fd, f) =>
      set_ofile (Z.to_nat fd) None;;
      fileclose f;;
      mret 0
  end.

(** The fields of [struct stat] at their offsets. *)
Definition store_stat (p : Z) (st : stat) : K () :=
  write_user p (le_bytes 2 (st_type st));;
  store_int (u32 (p + 4)) (st_dev st);;
  store_int (u32 (p + 8)) (st_ino st);;
  write_user (u32 (p + 12)) (le_bytes 2 (st_nlink st));;
  store_int (u32 (p + 16)) (st_size st).

Definition sys_fstat : K Z :=
  a ← argfd 0;
  match a with
  | None => mret (-1)
  | Some (_, f) =>
      p ← argptr 1 20;
      match p with
      | None => mret (-1)
      | Some p =>
          r ← filestat f;
          (match r.2 with Some st => store_stat p st | None => mret () end);;
          mret r.1
      end
  end.

(** ** Links *)

Definition add_nlink (ip : nat) (k : Z) : K () :=
  upd_inode ip (λ i, with_i_nlink (s16 (i_nlink i + k)) i);;
  iupdate ip.

(** The code of [sys_link] at the label [bad]. *)
Definition link_bad (ip : nat) : K Z :=
  ilock ip;;
  add_nlink ip (-1);;
  iunlockput ip;;
  commit_trans;;
  mret (-1).

(** [sys_link] from the point where both names are known. *)
Definition link (old new : list Z) : K Z :=
  o ← namei old;
  match o with
  | None => mret (-1)
  | Some ip =>
      begin_trans;;
      ilock ip;;
      i ← get_inode ip;
      if i_type i =? T_DIR then
        iunlockput ip;;
        commit_trans;;
        mret (-1)
      else
      add_nlink ip 1;;
      iunlock ip;;
      r ← nameiparent new (replicate DIRSIZ 0);
      match r.1 with
      | None => link_bad ip
      | Some dp =>
          ilock dp;;
          d ← get_inode dp;
          i ← get_inode ip;
          e ← (if negb (i_dev d =? i_dev i) then mret (-1) else dirlink dp r.2 (i_inum i));
          iunlockput dp;;
          if e <? 0 then link_bad ip else
          iput ip;;
          commit_trans;;
          mret 0
      end
  end.

Definition sys_link : K Z :=
  old ← argpath 0;
  match old with
  | None => mret (-1)
  | Some old =>
      new ← argpath 1;
      match new with None => mret (-1) | Some new => link old new end
  end.

Fixpoint isdirempty_loop (dp : nat) (off : Z) (fuel : nat) : K bool :=
  match fuel with
  | O => fault
  | S fuel' =>
      d ← get_inode dp;
      if negb (off <? i_size d) then mret true else
      r ← readi dp off 16;
      if negb (r.1 =? 16) then panic "isdirempty: readi" else
      if negb (de_inum r.2 =? 0) then mret false else isdirempty_loop dp (off + 16) fuel'
  end.

(** The entries after [.] and [..]; the loop reads at most [size / 16] of them. *)
Definition isdirempty (dp : nat) : K bool :=
  d ← get_inode dp;
  isdirempty_loop dp 32 (Z.to_nat (i_size d / 16 + 2)).

(** The code of [sys_unlink] at the label [bad]. *)
Definition unlink_bad (dp : nat) : K Z :=
  iunlockput dp;;
  commit_trans;;
  mret (-1).

(** [sys_unlink] for the entry of [ip] at [off]. *)
Definition unlink_entry (dp ip : nat) (off : Z) : K Z :=
  ilock ip;;
  i ← get_inode ip;
  if i_nlink i <? 1 then panic "unlink: nlink < 1" else
  e ← (if i_type i =? T_DIR then isdirempty ip else mret true);
  if negb e then iunlockput ip;; unlink_bad dp else
  n ← writei dp (replicate 16 0) off 16;
  if negb (n =? 16) then panic "unlink: writei" else
  when (i_type i =? T_DIR) (add_nlink dp (-1));;
  iunlockput dp;;
  add_nlink ip (-1);;
  iunlockput ip;;
  commit_trans;;
  mret 0.

Definition dot : list Z := [46; 0].
Definition dotdot : list Z := [46; 46; 0].

Definition unlink (path : list Z) : K Z :=
  r ← nameiparent path (replicate DIRSIZ 0);
  match r.1 with
  | None => mret (-1)
  | Some dp =>
      let name := r.2 in
      begin_trans;;
      ilock dp;;
      c1 ← the (namecmp name dot);
      c2 ← the (namecmp name dotdot);
      if (c1 =? 0) || (c2 =? 0) then unlink_bad dp else
      e ← dirlookup dp name;
      match e with
      | None => unlink_bad dp
      | Some (ip, off) => unlink_entry dp ip off
      end
  end.

Definition sys_unlink : K Z :=
  path ← argpath 0;
  match path with None => mret (-1) | Some path => unlink path end.

(** ** Creating and opening *)

(** The inode, locked, or null. *)
Definition create (path : list Z) (type major minor : Z) : K (option nat) :=
  r ← nameiparent path (replicate DIRSIZ 0);
  match r.1 with
  | None => mret None
  | Some dp =>
      let name := r.2 in
      ilock dp;;
      e ← dirlookup dp name;
      match e with
      | Some (ip, _) =>
          iunlockput dp;;
          ilock ip;;
          i ← get_inode ip;
          if (type =? T_FILE) && (i_type i =? T_FILE) then mret (Some ip) else
          iunlockput ip;;
          mret None
      | None =>
          d ← get_inode dp;
          ip ← ialloc (i_dev d) type;
          ilock ip;;
          upd_inode ip (with_i_major (s16 major));;
          upd_inode ip (with_i_minor (s16 minor));;
          upd_inode ip (with_i_nlink 1);;
          iupdate ip;;
          i ← get_inode ip;
          when (type =? T_DIR) (
            add_nlink dp 1;;
            e1 ← dirlink ip dot (i_inum i);
            if e1 <? 0 then panic "create dots" else
            d ← get_inode dp;
            e2 ← dirlink ip dotdot (i_inum d);
            if e2 <? 0 then panic "create dots" else mret ());;
          e ← dirlink dp name (i_inum i);
          if e <? 0 then panic "create: dirlink" else
          iunlockput dp;;
          mret (Some ip)
      end
  end.

(** The fields [sys_open] assigns to the file. *)
Definition open_file (ip : nat) (omode : Z) (x : file) : file :=
  with_f_writable (hasb omode O_WRONLY || hasb omode O_RDWR)
    (with_f_readable (negb (hasb omode O_WRONLY))
      (with_f_off 0 (with_f_ip (Some ip) (with_f_type FD_INODE x)))).

(** [sys_open] once it has the inode, locked. *)
Definition open_inode (ip : nat) (omode : Z) : K Z :=
  o ← filealloc;
  match o with
  | None => iunlockput ip;; mret (-1)
  | Some f =>
      fd ← fdalloc f;
      if fd <? 0 then fileclose f;; iunlockput ip;; mret (-1) else
      iunlock ip;;
      upd_file f (open_file ip omode);;
      mret fd
  end.

Definition open (path : list Z) (omode : Z) : K Z :=
  if hasb omode O_CREATE then
    begin_trans;;
    o ← create path T_FILE 0 0;
    commit_trans;;
    match o with None => mret (-1) | Some ip => open_inode ip omode end
  else
    o ← namei path;
    match o with
    | None => mret (-1)
    | Some ip =>
        ilock ip;;
        i ← get_inode ip;
        if (i_type i =? T_DIR) && negb (omode =? O_RDONLY) then
          iunlockput ip;;
          mret (-1)
        else open_inode ip omode
    end.

Definition sys_open : K Z :=
  path ← argpath 0;
  match path with
  | None => mret (-1)
  | Some path =>
      omode ← argint 1;
      match omode with None => mret (-1) | Some omode => open path omode end
  end.

(** The end of [sys_mkdir] and [sys_mknod]. *)
Definition made (o : option nat) : K Z :=
  match o with
  | None => commit_trans;; mret (-1)
  | Some ip => iunlockput ip;; commit_trans;; mret 0
  end.

Definition sys_mkdir : K Z :=
  begin_trans;;
  path ← argpath 0;
  o ← (match path with None => mret None | Some path => create path T_DIR 0 0 end);
  made o.

Definition sys_mknod : K Z :=
  begin_trans;;
  path ← argpath 0;
  o ← (match path with
       | None => mret None
       | Some path =>
           major ← argint 1;
           match major with
           | None => mret None
           | Some major =>
               minor ← argint 2;
               match minor with
               | None => mret None
               | Some minor => create path T_DEV (s16 major) (s16 minor)
               end
           end
       end);
  made o.

Definition sys_chdir : K Z :=
  path ← argpath 0;
  match path with
  | None => mret (-1)
  | Some path =>
      o ← namei path;
      match o with
      | None => mret (-1)
      | Some ip =>
          ilock ip;;
          i ← get_inode ip;
          if negb (i_type i =? T_DIR) then iunlockput ip;; mret (-1) else
          iunlock ip;;
          x ← curproc;
          cwd ← the (p_cwd x);
          iput cwd;;
          p ← myproc;
          upd_proc p (with_p_cwd (Some ip));;
          mret 0
      end
  end.

(** ** exec and pipe *)

(** The loop that fetches [argv], from index [i] on: at most [n] pointers, the
    null pointer among them. *)
Fixpoint fetch_argv (uargv i : Z) (n : nat) : K (option (list (list Z))) :=
  match n with
  | O => mret None
  | S n' =>
      uarg ← fetchint (u32 (uargv + 4 * i));
      match uarg with
      | None => mret None
      | Some uarg =>
          if u32 uarg =? 0 then mret (Some []) else
          len ← fetchstr (u32 uarg);
          match len with
          | None => mret None
          | Some len =>
              a ← read_user (u32 uarg) (S len);
              r ← fetch_argv uargv (i + 1) n';
              mret ((λ l, a :: l) <$> r)
          end
      end
  end.

Definition sys_exec (junk : list Z) : K Z :=
  path ← argpath 0;
  match path with
  | None => mret (-1)
  | Some path =>
      uargv ← argint 1;
      match uargv with
      | None => mret (-1)
      | Some uargv =>
          argv ← fetch_argv (u32 uargv) 0 (Z.to_nat MAXARG);
          match argv with None => mret (-1) | Some argv => exec junk path argv end
      end
  end.

Definition sys_pipe : K Z :=
  fd ← argptr 0 8;
  match fd with
  | None => mret (-1)
  | Some fd =>
      r ← pipealloc;
      match r with
      | None => mret (-1)
      | Some (rf, wf) =>
          fd0 ← fdalloc rf;
          fd1 ← (if fd0 <? 0 then mret (-1) else fdalloc wf);
          if (fd0 <? 0) || (fd1 <? 0) then
            when (0 <=? fd0) (set_ofile (Z.to_nat fd0) None);;
            fileclose rf;;
            fileclose wf;;
            mret (-1)
          else
          store_int fd fd0;;
          store_int (u32 (fd + 4)) fd1;;
          mret 0
      end
  end.

(** ** getcwd *)

(** [iNodeName]: the name of [ip] in [parent], a buffer of [DIRSIZ] bytes, or
    [None] for -1. *)
Fixpoint iNodeName_loop (inum : Z) (parent : nat) (buf : list Z) (off : Z) (fuel : nat) : K (option (list Z)) :=
  match fuel with
  | O => fault
  | S fuel' =>
      d ← get_inode parent;
      if negb (off <? i_size d) then mret None else
      r ← readi parent off 16;
      if negb (r.1 =? 16) then panic "couldnt read directory entry" else
      if de_inum r.2 =? inum then
        nm ← the (safestrcpy buf 0 (de_name r.2) (Z.of_nat DIRSIZ));
        mret (Some nm)
      else iNodeName_loop inum parent buf (u32 (off + 16)) fuel'
  end.

Definition iNodeName (ip parent : nat) (buf : list Z) : K (option (list Z)) :=
  i ← get_inode ip;
  d ← get_inode parent;
  iNodeName_loop (i_inum i) parent buf 0 (Z.to_nat (i_size d / 16 + 2)).

(** [safestrcpy] to user memory. *)
Fixpoint safestrcpy_user (va : Z) (t : list Z) (n : nat) : K () :=
  match n with
  | O => mret ()
  | 1%nat => store_user va 0
  | S n' =>
      c ← the (head t);
      store_user va c;;
      if c =? 0 then store_user (u32 (va + 1)) 0 else safestrcpy_user (u32 (va + 1)) (tail t) n'
  end.

(** [namediNode buf n ip], for a directory less than [depth] below the root. *)
Fixpoint namediNode (buf n : Z) (ip : nat) (depth : nat) : K Z :=
  match depth with
  | O => fault
  | S depth' =>
      o ← namei [47; 0];
      root ← the o;
      r ← get_inode root;
      i ← get_inode ip;
      if i_inum i =? i_inum r then store_user buf 47;; mret 1
      else if i_type i =? T_DIR then
        e ← dirlookup ip dotdot;
        pa ← the e;
        let parent := pa.1 in
        ilock parent;;
        nm ← iNodeName ip parent (replicate DIRSIZ 0);
        match nm with
        | None => panic "could not find parent's inode name"
        | Some node_name =>
            off_set ← namediNode buf n parent depth';
            safestrcpy_user (u32 (buf + off_set)) node_name (Z.to_nat off_set);;
            len ← the (strlen node_name);
            let off_set := off_set + Z.of_nat len in
            if off_set =? n - 1 then store_user (u32 (buf + off_set)) 0;; mret n else
            store_user (u32 (buf + off_set)) 47;;
            iput parent;;
            mret (off_set + 1)
        end
      else if (i_type i =? T_DEV) || (i_type i =? T_FILE) then panic "process cwd is a device node"
      else panic "unknown inode type"
  end.

(** Every level of the recursion holds an inode of its own, and there are
    [NINODE] of them. *)
Definition sys_getcwd : K Z :=
  n ← argint 1;
  match n with
  | None => mret 1
  | Some n =>
      p ← argptr 0 n;
      match p with
      | None => mret 1
      | Some p =>
          x ← curproc;
          cwd ← the (p_cwd x);
          namediNode p n cwd (NINODE + 2)
      end
  end.

End Code.

(** ** Descriptors *)

(** The descriptors that are in use, below the one that is handed out. *)
Definition lowest_free (l : list (option nat)) (k : nat) : Prop :=
  l !! k = Some None ∧ ∀ j, (j < k)%nat → ∃ f, l !! j = Some (Some f).

Lemma find_free_fd (l : list (option nat)) k :
  find_from (λ o, bool_decide (o = None)) 0 l = Some k → lowest_free l k.
Proof.
  intros (n & o & -> & Ho & Hb & Hlow)%find_from_Some. apply bool_decide_eq_true in Hb as ->. split; [done|].
  intros j Hj. destruct (lookup_lt_is_Some_2 l j) as [o Hjo].
  { apply lookup_lt_Some in Ho. lia. }
  specialize (Hlow j o Hj Hjo). apply bool_decide_eq_false in Hlow. destruct o as [f|]; [|done]. eauto.
Qed.

(** What the first argument of a call designates: a descriptor in range that is
    open, and its file.  The argument can be any word, and need not be there. *)
Definition arg_file (x : proc) (bs : list Z) : option (Z * nat) :=
  w ← user_word bs (arg_addr x 0);
  if decide (w < 16) then pair w <$> mjoin (p_ofile x !! Z.to_nat w) else None.

Lemma argfd_runs s x T bs :
  running s x T bs → length (p_ofile x) = NOFILE → runs_to (argfd 0) s (arg_file x bs) s.
Proof.
  intros R Hlen. unfold argfd, arg_file. eapply runs_bind; [by eapply argint_runs|].
  destruct (user_word bs (arg_addr x 0)) as [w|] eqn:Hw; [|done]. cbn [fmap option_fmap option_map mbind option_bind].
  pose proof (user_word_range s x T bs R _ _ Hw) as Hr. eapply runs_bind; [by eapply curproc_runs|].
  case_decide as Hlt.
  - rewrite s32_small, (proj2 (Z.ltb_ge _ _)), (proj2 (Z.leb_gt _ _)) by lia. cbn [orb].
    destruct (lookup_lt_is_Some_2 (p_ofile x) (Z.to_nat w)) as [o ->]; [lia|]. by destruct o.
  - assert ((s32 w <? 0) || (Z.of_nat NOFILE <=? s32 w) = true) as ->; [|done].
    apply orb_true_iff. rewrite Z.ltb_lt, Z.leb_le. unfold s32, signed. rewrite (Z.mod_small w) by lia. case_match; lia.
Qed.

(** C39: [dup], whatever word the process passes, its stack pointer included.
    If the argument cannot be fetched, is out of range or is not an open
    descriptor, or if all descriptors are in use, [dup] returns -1 and changes
    nothing.  Otherwise the new descriptor is the lowest one that was free; it
    refers to the same open file, whose reference count goes up by one, and
    nothing else changes. *)
Theorem sys_dup_lowest s x T bs p :
  running s x T bs → ks_cur s = Some p → ks_held s = [] → length (p_ofile x) = NOFILE →
  (∀ k f, p_ofile x !! k = Some (Some f) → ∃ y, ks_files s !! f = Some y ∧ 1 ≤ f_ref y) →
  wp sys_dup (λ r s',
    match arg_file x bs with
    | None => r = -1 ∧ s' = s
    | Some (_, f) =>
        (∃ k y, r = Z.of_nat k ∧ lowest_free (p_ofile x) k ∧ ks_files s !! f = Some y ∧
          s' = set_files (<[f:=with_f_ref (f_ref y + 1) y]> (ks_files s))
            (set_procs (<[p:=with_p_ofile (<[k:=Some f]> (p_ofile x)) x]> (ks_procs s)) s)) ∨
        (r = -1 ∧ s' = s ∧ ∀ k o, p_ofile x !! k = Some o → o ≠ None)
    end) s.
Proof.
  intros R Hc Hh Hlen Hfs. destruct (ru_cur _ _ _ _ R) as (q & Hq & Hx). assert (q = p) as -> by congruence.
  unfold sys_dup. eapply wp_bind, wp_of_runs; [by eapply argfd_runs|].
  destruct (arg_file x bs) as [[fd f]|] eqn:Ea; [|by wp_step].
  assert (∃ y, ks_files s !! f = Some y ∧ 1 ≤ f_ref y) as (y & Hf & Href).
  { unfold arg_file in Ea. destruct (user_word bs _) as [w|]; [|done]. cbn [mbind option_bind] in Ea. case_decide; [|done].
    destruct (p_ofile x !! Z.to_nat w) as [[f'|]|] eqn:Eo; [|done..]. injection Ea as _ <-. by eapply Hfs. }
  unfold fdalloc. wp_step. wp_step. eapply wp_of_runs; [by eapply curproc_runs|].
  destruct (find_from _ 0 (p_ofile x)) as [k|] eqn:Ek.
  - unfold set_ofile, myproc. wp_steps. rewrite Hc. eapply wp_the; [done|]. eapply wp_upd_proc; [done|].
    wp_step. rewrite (proj2 (Z.ltb_ge _ _)) by lia. wp_call (filedup_spec f y); [done..|]. intros r s' [-> ->].
    wp_step. left. exists k, y. split_and!; [done|by apply find_free_fd|done..].
  - wp_steps. cbn [Z.ltb Z.compare]. wp_step. right. split_and!; try done. intros k o Hk ->.
    by apply (proj1 (find_from_None _ _ _) Ek) in Hk.
Qed.

(** ** Witnesses *)

Module CwdExample.
Import Memide InodeExample VmExample.

Definition dirent (inum : Z) (name : string) : list Z :=
  put16 0 inum (splice 2 (chars name) (replicate 16 0)).

(** A disk with a root directory and in it a directory [a]. *)
Definition inode_root : inode := mk_inode 1 1 1 2 T_DIR 0 0 2 48 (4 :: replicate 11 0).
Definition inode_a : inode := mk_inode 1 2 1 2 T_DIR 0 0 1 32 (5 :: replicate 11 0).

Definition inodes_block : list Z :=
  put_dinode (ioff 1) inode_root (put_dinode (ioff 2) inode_a (replicate 512 0)).
Definition root_block : list Z :=
  splice 0 (dirent 1 "." ++ dirent 1 ".." ++ dirent 2 "a") (replicate 512 0).
Definition a_block : list Z := splice 0 (dirent 2 "." ++ dirent 1 "..") (replicate 512 0).
Definition disk_a : list (list Z) :=
  [replicate 512 0; replicate 512 0; inodes_block; replicate 512 0; root_block; a_block].

(** A process with one page of memory whose current directory is [/a]. *)
Definition in_a : kstate :=
  let s := match binit (bss disk_a) with Ok _ s => s | _ => bss disk_a end in
  set_inodes (inode_a :: replicate 49 zero_inode)
    (set_procs [with_p_cwd (Some 0%nat) (with_p_sz 4096 (with_p_pgdir dir (with_p_state RUNNING zero_proc)))]
      (set_cur (Some 0%nat) (set_mem (ks_mem user) (set_misc (with_ms_cr3 (v2p dir) zero_misc) s)))).

End CwdExample.
Import Memide InodeExample VmExample CwdExample SyscallExample.

(** The name of the current directory.  In the directory [/a], [getcwd]
    returns 3 and leaves in the caller's buffer a slash, a NUL and a slash: the
    name [a] is lost, because the room left for it is computed from what is
    already there.  On return the root directory is still locked and has two
    references too many. *)
Theorem getcwd_loses_name :
  wp (namediNode 0 100 0 (NINODE + 2)) (λ r s', r = 3 ∧
    take 3 (ks_mem s' !!! frame) = [47; 0; 47] ∧
    ∃ i, ks_inodes s' !! 1%nat = Some i ∧ i_inum i = ROOTINO ∧ i_ref i = 2 ∧
      hasb (i_flags i) I_BUSY = true) in_a.
Proof. vm_compute. split; [done|]. split; [done|]. by eexists. Qed.

(** The process of Syscall.v, whose stack asks for descriptor 0, which is open. *)
Lemma sys_dup_lowest_witness :
  let x := with_p_ofile (<[0%nat:=Some 7%nat]> (replicate 16 None)) proc0 in
  let y := with_f_ref 1 zero_file in
  let s := set_files (<[7%nat:=y]> (replicate 100 zero_file)) (set_procs [x] user0) in
  wp sys_dup (λ r s',
    (∃ k y, r = Z.of_nat k ∧ lowest_free (p_ofile x) k ∧ ks_files s !! 7%nat = Some y ∧
      s' = set_files (<[7%nat:=with_f_ref (f_ref y + 1) y]> (ks_files s))
        (set_procs (<[0%nat:=with_p_ofile (<[k:=Some 7%nat]> (p_ofile x)) x]> (ks_procs s)) s)) ∨
    (r = -1 ∧ s' = s ∧ ∀ k o, p_ofile x !! k = Some o → o ≠ None)) s.
Proof.
  intros x y s. apply (sys_dup_lowest s x tabs (replicate 4096 0) 0); try done.
  - destruct user0_running. split; try done. by exists 0%nat.
  - intros k f [(<- & [= <-] & _)|[_ [[=] _]%lookup_replicate_1]]%list_lookup_insert_Some. by exists y.
Defined.
