(* ===== verification/Trap.v ===== *)
(** * Trap: traps, interrupts and the system call dispatcher (trap.c, syscall.c)

    [trap] is the point where the parts of the kernel meet: every entry into
    the kernel, by a system call, a device or an exception, goes through it. *)

From S2P Require Import Prelude Bytes CString Ring Kernel Sched Ide Bio Log Crash Block Inode Icache Dir Kalloc Pipe File Print Vm Proc Kbd Console IdeDriver Syscall SysProc Exec SysFile.

#[local] Arguments replicate : simpl never.

(** What a trap finds in the processor: [cpu->id], the address of a page fault,
    what [getcallerpcs] finds on the stack of a process, and what the kernel
    stack holds where [exec] keeps its ELF header. *)
Class Cpu := {
  cpu_id : Z;
  cpu_cr2 : Z;
  cpu_pcs : proc → list Z;
  cpu_stack : list Z;
}.

(** ** Gates (mmu.h) and tvinit *)

Record gatedesc := mk_gate {
  g_off_15_0 : Z; g_cs : Z; g_args : Z; g_rsv1 : Z; g_type : Z; g_s : Z; g_dpl : Z; g_p : Z;
  g_off_31_16 : Z }.

Abbreviation STS_IG32 := 0xE.
Abbreviation STS_TG32 := 0xF.
Abbreviation T_SYSCALL := 64.
Abbreviation T_IRQ0 := 32.
Abbreviation IRQ_TIMER := 0.
Abbreviation IRQ_KBD := 1.
Abbreviation IRQ_COM1 := 4.
Abbreviation IRQ_IDE := 14.
Abbreviation IRQ_SPURIOUS := 31.

Definition SETGATE (istrap : bool) (sel off d : Z) : gatedesc :=
  mk_gate (Z.land off 0xffff) sel 0 0 (if istrap then STS_TG32 else STS_IG32) 0 d 1 (Z.shiftr off 16).

(** The interrupt descriptor table; [vectors] is in the generated vectors.S. *)
Definition tvinit (vectors : list Z) : list gatedesc :=
  <[Z.to_nat T_SYSCALL:=SETGATE true (Z.shiftl SEG_KCODE 3) (vectors !!! Z.to_nat T_SYSCALL) DPL_USER]>
    ((λ v, SETGATE false (Z.shiftl SEG_KCODE 3) v 0) <$> take 256 vectors).

(** ** syscall *)

Definition nl : string := String (Ascii.ascii_of_nat 10) EmptyString.

Section Code.
Context `{Linker} `{Drive} `{Cpu}.

(** The kernel as it is linked: the driver of ide.c or memide.c, and the console. *)
Context `{Ide} `{Devsw}.

(** The table [syscalls]; its size is 26. *)
Definition syscalls : list (option (K Z)) :=
  [None; Some sys_fork; Some sys_exit; Some sys_wait; Some sys_pipe; Some sys_read; Some sys_kill;
   Some (sys_exec cpu_stack); Some sys_fstat; Some sys_chdir; Some sys_dup; Some sys_getpid;
   Some sys_sbrk; Some sys_sleep; Some sys_uptime; Some sys_open; Some sys_write; Some sys_mknod;
   Some sys_unlink; Some sys_link; Some sys_mkdir; Some sys_close; Some sys_getcwd;
   Some (sys_ps cpu_pcs); Some sys_wait2; Some sys_yield].

Definition set_eax (v : Z) : K () :=
  p ← myproc; upd_proc p (λ x, with_p_tf (with_tf_eax (u32 v) (p_tf x)) x).

Definition syscall : K () :=
  x ← curproc;
  let num := s32 (tf_eax (p_tf x)) in
  match (if 0 <? num then syscalls !! Z.to_nat num else None) with
  | Some (Some f) => r ← f; set_eax r
  | _ =>
      cprintf (String.append "%d %s: unknown sys call %d" nl)
        [AInt (p_pid x); AStr (Some (cstr 16 (p_name x))); AInt num];;
      set_eax (-1)
  end.

(** ** trap *)

(** [case T_IRQ0 + IRQ_TIMER]; the acknowledgement of an interrupt, [lapiceoi],
    has no effect on the state. *)
Definition timer_tick : K () :=
  when (cpu_id =? 0) (
    acquire L_ticks;;
    modify (λ s, set_ticks (u32 (ks_ticks s + 1)) s);;
    updatestatistics;;
    wakeup ChTicks;;
    release L_ticks).

(** [default] *)
Definition unexpected (tf : trapframe) : K () :=
  cur ← gets ks_cur;
  if bool_decide (cur = None) || (Z.land (tf_cs tf) 3 =? 0) then
    cprintf (String.append "unexpected trap %d from cpu %d eip %x (cr2=0x%x)" nl)
      [AInt (tf_trapno tf); AInt cpu_id; AInt (tf_eip tf); AInt cpu_cr2];;
    panic "trap"
  else
    p ← myproc; x ← get_proc p;
    cprintf (String.append "pid %d %s: trap %d err %d on cpu %d eip 0x%x addr 0x%x--kill proc" nl)
      [AInt (p_pid x); AStr (Some (cstr 16 (p_name x))); AInt (tf_trapno tf); AInt (tf_err tf);
       AInt cpu_id; AInt (tf_eip tf); AInt cpu_cr2];;
    upd_proc p (with_p_killed true).

(** The [switch]. *)
Definition trap_switch (tf : trapframe) : K () :=
  let no := tf_trapno tf in
  if no =? T_IRQ0 + IRQ_TIMER then timer_tick
  else if no =? T_IRQ0 + IRQ_IDE then ideintr
  else if no =? T_IRQ0 + IRQ_IDE + 1 then mret ()
  else if no =? T_IRQ0 + IRQ_KBD then kbdintr cpu_pcs
  else if no =? T_IRQ0 + IRQ_COM1 then uartintr cpu_pcs
  else if (no =? T_IRQ0 + 7) || (no =? T_IRQ0 + IRQ_SPURIOUS) then
    cprintf (String.append "cpu%d: spurious interrupt at %x:%x" nl)
      [AInt cpu_id; AInt (tf_cs tf); AInt (tf_eip tf)]
  else unexpected tf.

(** [if(proc && proc->killed && (tf->cs&3) == DPL_USER) exit();] *)
Definition exit_if_killed (tf : trapframe) : K () :=
  cur ← gets ks_cur;
  match cur with
  | None => mret ()
  | Some p =>
      x ← get_proc p;
      if p_killed x && (Z.land (tf_cs tf) 3 =? DPL_USER) then exit else mret ()
  end.

(** The clock tick takes the processor away. *)
Definition yield_on_tick (tf : trapframe) : K () :=
  cur ← gets ks_cur;
  match cur with
  | None => mret ()
  | Some p =>
      x ← get_proc p;
      if bool_decide (p_state x = RUNNING) && (tf_trapno tf =? T_IRQ0 + IRQ_TIMER) then yield
      else mret ()
  end.

Definition trap_syscall (tf : trapframe) : K () :=
  x ← curproc;
  if p_killed x then exit else
  p ← myproc;
  upd_proc p (with_p_tf tf);;
  syscall;;
  x ← curproc;
  if p_killed x then exit else mret ().

Definition trap (tf : trapframe) : K () :=
  if tf_trapno tf =? T_SYSCALL then trap_syscall tf else
  trap_switch tf;;
  exit_if_killed tf;;
  yield_on_tick tf;;
  exit_if_killed tf.

(** Where a process that was made to yield goes on. *)
Definition trap_resume (tf : trapframe) : K () := yield_resume;; exit_if_killed tf.

End Code.

(** ** The clock *)

Lemma timer_tick_spec `{Cpu} s :
  cpu_id = 0 → ks_held s = [] →
  wp timer_tick (λ _ s', s' = set_ticks (u32 (ks_ticks s + 1))
    (set_procs (wakeup1_proc ChTicks <$> (count_tick <$> ks_procs s)) s)) s.
Proof.
  intros Hc Hh. unfold timer_tick. rewrite Hc. unfold when. cbn [Z.eqb]. wp_step.
  apply wp_acquire; [rewrite Hh; apply not_elem_of_nil|]. rewrite Hh. wp_steps.
  unfold updatestatistics. wp_step. apply wp_acquire; [simpl; set_solver|]. wp_steps.
  eapply wp_release; [done|simpl; set_solver|]. wp_step. apply wp_wakeup; [simpl; set_solver|].
  eapply (wp_release _ []); [done|apply not_elem_of_nil|]. destruct s. simpl in *. by subst.
Qed.

(** Sleeping for a number of ticks.  A process that has not yet slept for
    [n] ticks gives up the processor; the next clock interrupt makes it
    runnable; and when it runs again with [n] ticks gone by, [sys_sleep]
    returns 0 and the lock is free.  The difference of the counters is right
    also when [ticks] has wrapped around. *)
Theorem sleep_until_tick `{Cpu} p x t0 n s :
  cpu_id = 0 → ks_held s = [L_ticks] → ks_cur s = Some p → ks_procs s !! p = Some x →
  p_killed x = false → u32 (ks_ticks s - t0) < u32 n →
  ∃ s1, sys_sleep_loop t0 n s = Sleep s1 ∧
    wp timer_tick (λ _ s2, ks_held s2 = [] ∧ ks_ticks s2 = u32 (ks_ticks s + 1) ∧
      (p_state <$> ks_procs s2 !! p) = Some RUNNABLE ∧
      ∀ s3, ks_held s3 = [L_ticks] → ks_ticks s3 = ks_ticks s2 → u32 n ≤ u32 (ks_ticks s + 1 - t0) →
        runs_to (sys_sleep_loop t0 n) s3 0 (set_held [] s3)) (set_cur None (set_held [] s1)).
Proof.
  intros Hid Hh Hc Hp Hk Hlt. pose proof (lookup_lt_Some _ _ _ Hp) as Hlen. eexists. split.
  { unfold sys_sleep_loop, mbind, M_bind, gets. rewrite (proj2 (Z.ltb_lt _ _) Hlt).
    unfold curproc, myproc, mbind, M_bind, gets. rewrite Hc. simpl. unfold get_proc. rewrite Hp, Hk.
    by apply (sleep_runs ChTicks L_ticks p x). }
  eapply wp_mono; [by apply timer_tick_spec|]. intros [] s2 ->. cbn [ks_held set_ticks set_procs set_held set_cur ks_ticks].
  split_and!; try done.
  - simpl. rewrite !list_lookup_fmap, list_lookup_insert_eq by done. done.
  - intros s3 Hh3 Ht3 Hn. unfold runs_to, sys_sleep_loop, mbind, M_bind, gets. rewrite Ht3.
    rewrite u32_sub_l, (proj2 (Z.ltb_ge _ _) Hn).
    unfold release, holding, mbind, M_bind, gets. rewrite Hh3. rewrite bool_decide_true by set_solver.
    unfold modify. rewrite Hh3. by rewrite filter_cons_False by naive_solver.
Qed.

(** ** Exceptions *)

(** Computations that do not come back to their caller. *)
Definition no_return {A} (m : K A) : Prop := ∀ s a s', m s ≠ Ok a s'.

Lemma no_return_bind {A B} (m : K A) (f : A → K B) : (∀ a, no_return (f a)) → no_return (m ≫= f).
Proof. intros Hf s b s'. unfold mbind, M_bind. destruct (m s); try done. apply Hf. Qed.

Lemma no_return_panic {A} msg : no_return (panic (A:=A) msg).
Proof. done. Qed.

Create HintDb no_return.
#[export] Hint Resolve no_return_bind no_return_panic : no_return.

Lemma sched_no_return {A} : no_return (sched (A:=A)).
Proof.
  unfold sched. repeat (apply no_return_bind; intros ?; try (case_match; [done|])). done.
Qed.

Section Exceptions.
Context `{Linker} `{Drive} `{Cpu} `{Ide} `{Devsw}.

Lemma exit_no_return {A} : no_return (exit (A:=A)).
Proof.
  unfold exit, exit_zombie. do 2 (apply no_return_bind; intros ?). case_match; [done|].
  do 10 (apply no_return_bind; intros ?). apply sched_no_return.
Qed.

(** The numbers of the processor's exceptions. *)
Definition exception (tf : trapframe) : Prop := 0 ≤ tf_trapno tf < T_IRQ0.

Lemma trap_exception tf :
  exception tf → trap tf = (unexpected tf;; exit_if_killed tf;; yield_on_tick tf;; exit_if_killed tf).
Proof.
  unfold exception, trap, trap_switch. intros He.
  repeat (rewrite (proj2 (Z.eqb_neq (tf_trapno tf) _)) by lia). done.
Qed.

Lemma cprintf_runs fmt args s :
  is_Some (render (chars fmt) args) → screen_ok (ks_cons s) → cn_panicked (ks_cons s) = false →
  (L_cons ∉ ks_held s) → ∃ c, runs_to (cprintf fmt args) s () (set_cons c s).
Proof.
  intros [out Hr] Hs Hp Hl. pose proof (cprintf_spec fmt args out s Hr Hs Hp Hl) as W.
  apply wp_runs in W as ([] & s' & R & P). destruct (pr_frame _ _ _ P) as [c ->]. by exists c.
Qed.

Lemma unexpected_user tf p x s :
  ks_cur s = Some p → ks_procs s !! p = Some x → (L_cons ∉ ks_held s) →
  screen_ok (ks_cons s) → cn_panicked (ks_cons s) = false → Z.land (tf_cs tf) 3 = DPL_USER →
  ∃ c, runs_to (unexpected tf) s ()
    (set_procs (<[p:=with_p_killed true x]> (ks_procs s)) (set_cons c s)).
Proof.
  intros Hc Hp Hl Hs Hpan Hcs.
  destruct (cprintf_runs (String.append "pid %d %s: trap %d err %d on cpu %d eip 0x%x addr 0x%x--kill proc" nl)
    [AInt (p_pid x); AStr (Some (cstr 16 (p_name x))); AInt (tf_trapno tf); AInt (tf_err tf);
     AInt cpu_id; AInt (tf_eip tf); AInt cpu_cr2] s) as [c R]; [by eexists|done..|].
  exists c. unfold unexpected. eapply runs_bind; [reflexivity|]. rewrite Hc, Hcs, bool_decide_false by done.
  cbn [orb Z.eqb]. eapply (runs_bind _ _ _ p).
  { unfold runs_to, myproc, mbind, M_bind, gets. by rewrite Hc. }
  eapply runs_bind; [by apply get_proc_runs|]. eapply runs_bind; [exact R|].
  unfold runs_to, upd_proc. cbn [ks_procs set_cons]. by rewrite Hp, (alter_insert _ _ _ _ Hp).
Qed.

(** Exceptions.  An exception in user mode marks the process as killed,
    and [trap] ends in [exit]: the process does not run again.  An exception
    in the kernel stops the machine. *)
Theorem exception_kills tf p x s :
  exception tf → ks_cur s = Some p → ks_procs s !! p = Some x → (L_cons ∉ ks_held s) →
  screen_ok (ks_cons s) → cn_panicked (ks_cons s) = false →
  (Z.land (tf_cs tf) 3 = DPL_USER →
    ∃ c, trap tf s = exit (set_procs (<[p:=with_p_killed true x]> (ks_procs s)) (set_cons c s))) ∧
  (Z.land (tf_cs tf) 3 = 0 → trap tf s = Panic "trap").
Proof.
  intros He Hc Hp Hl Hs Hpan. rewrite (trap_exception tf He). pose proof (lookup_lt_Some _ _ _ Hp).
  split; intros Hcs.
  - destruct (unexpected_user tf p x s Hc Hp Hl Hs Hpan Hcs) as [c R]. exists c. rewrite (bind_runs _ _ _ _ _ R).
    set (s1 := set_procs _ _).
    assert (E : exit_if_killed tf s1 = exit s1).
    { unfold exit_if_killed, mbind, M_bind, gets. change (ks_cur s1) with (ks_cur s). rewrite Hc.
      unfold get_proc. simpl. rewrite list_lookup_insert_eq by done. simpl. by rewrite Hcs. }
    unfold mbind, M_bind. rewrite E. destruct (exit s1) eqn:Ex; try done. by apply exit_no_return in Ex.
  - destruct (cprintf_runs (String.append "unexpected trap %d from cpu %d eip %x (cr2=0x%x)" nl)
      [AInt (tf_trapno tf); AInt cpu_id; AInt (tf_eip tf); AInt cpu_cr2] s) as [c R]; [by eexists|done..|].
    assert (E : unexpected tf s = Panic "trap").
    { unfold unexpected. rewrite (bind_runs (gets ks_cur) _ s (ks_cur s) s eq_refl), Hcs. cbn [Z.eqb].
      rewrite orb_true_r. by rewrite (bind_runs _ _ _ _ _ R). }
    unfold mbind, M_bind. by rewrite E.
Qed.

End Exceptions.

(** ** Witnesses *)

Module TrapExample.

(** Processor 0. *)
#[export] Instance cpu : Cpu :=
  {| cpu_id := 0; cpu_cr2 := 0; cpu_pcs := λ _, []; cpu_stack := replicate 52 0 |}.

(** Process 0 runs, and has begun to sleep at tick 5. *)
Definition runner : proc := with_p_pid 1 (with_p_state RUNNING zero_proc).
Definition s0 : kstate := set_ticks 5 (set_cur (Some 0%nat) (set_procs [runner] (bss []))).
Definition asleep : kstate := set_held [L_ticks] s0.

(** A page fault, in user mode and in the kernel. *)
Definition fault_tf (cs : Z) : trapframe := mk_tf 0 0 0 0 0 0 0 0 0 0 0 0 14 0 0 cs 0 0 0.

End TrapExample.
Import KallocExample IdeExample TrapExample Memide InodeExample.

Lemma sleep_until_tick_witness :
  ∃ s1, sys_sleep_loop 5 1 asleep = Sleep s1 ∧
    wp timer_tick (λ _ s2, ks_held s2 = [] ∧ ks_ticks s2 = u32 (ks_ticks asleep + 1) ∧
      (p_state <$> ks_procs s2 !! 0%nat) = Some RUNNABLE ∧
      ∀ s3, ks_held s3 = [L_ticks] → ks_ticks s3 = ks_ticks s2 →
        u32 1 ≤ u32 (ks_ticks asleep + 1 - 5) →
        runs_to (sys_sleep_loop 5 1) s3 0 (set_held [] s3)) (set_cur None (set_held [] s1)).
Proof. by apply (sleep_until_tick 0 runner 5 1 asleep). Defined.

Lemma exception_kills_witness :
  (Z.land (tf_cs (fault_tf 27)) 3 = DPL_USER →
    ∃ c, trap (fault_tf 27) s0 =
      exit (set_procs (<[0%nat:=with_p_killed true runner]> (ks_procs s0)) (set_cons c s0))) ∧
  (Z.land (tf_cs (fault_tf 27)) 3 = 0 → trap (fault_tf 27) s0 = Panic "trap").
Proof.
  apply (exception_kills (fault_tf 27) 0 runner s0); try done. apply not_elem_of_nil.
Defined.
