(* ===== verification/X86.v ===== *)
(** * X86: the processor, as the assembly files use it

    A machine that runs the instructions of bootasm.S, entry.S, entryother.S,
    swtch.S, trapasm.S, vectors.S, usys.S and initcode.S: registers, segment
    and control registers, the tables [lgdt], [lidt] and [ltr] load, ports and
    a memory of aligned 32-bit words, in which an access to a word that is not
    mapped faults.  Of the arithmetic flags only the zero flag is kept; the
    privilege level is that of the selector in [%cs]. *)

From S2P Require Import Prelude Bytes Kernel Trap.

Inductive reg := EAX | ECX | EDX | EBX | ESP | EBP | ESI | EDI.
Inductive sreg := CS | DS | ES | FS | GS | SS.
Inductive creg := CR0 | CR3 | CR4.

Definition reg_eqb (r r' : reg) : bool :=
  match r, r' with
  | EAX, EAX | ECX, ECX | EDX, EDX | EBX, EBX | ESP, ESP | EBP, EBP | ESI, ESI | EDI, EDI => true
  | _, _ => false
  end.
Definition sreg_eqb (r r' : sreg) : bool :=
  match r, r' with CS, CS | DS, DS | ES, ES | FS, FS | GS, GS | SS, SS => true | _, _ => false end.
Definition creg_eqb (r r' : creg) : bool :=
  match r, r' with CR0, CR0 | CR3, CR3 | CR4, CR4 => true | _, _ => false end.

(** [x_gdtr]: the limit and the base of the descriptor table.  [x_out]: what was written to
    ports, last first; [x_in]: what reads of a port will return. *)
Record x86 := mk_x86 {
  x_reg : reg → Z; x_seg : sreg → Z; x_cr : creg → Z; x_pc : Z; x_flags : Z; x_gdtr : Z * Z;
  x_tss : taskstate; x_idt : list gatedesc; x_mem : gmap Z Z; x_out : list (Z * Z); x_in : Z → list Z }.

Definition set_regs v x := mk_x86 v (x_seg x) (x_cr x) (x_pc x) (x_flags x) (x_gdtr x) (x_tss x) (x_idt x) (x_mem x) (x_out x) (x_in x).
Definition set_segs v x := mk_x86 (x_reg x) v (x_cr x) (x_pc x) (x_flags x) (x_gdtr x) (x_tss x) (x_idt x) (x_mem x) (x_out x) (x_in x).
Definition set_crs v x := mk_x86 (x_reg x) (x_seg x) v (x_pc x) (x_flags x) (x_gdtr x) (x_tss x) (x_idt x) (x_mem x) (x_out x) (x_in x).
Definition set_pc v x := mk_x86 (x_reg x) (x_seg x) (x_cr x) v (x_flags x) (x_gdtr x) (x_tss x) (x_idt x) (x_mem x) (x_out x) (x_in x).
Definition set_flags v x := mk_x86 (x_reg x) (x_seg x) (x_cr x) (x_pc x) v (x_gdtr x) (x_tss x) (x_idt x) (x_mem x) (x_out x) (x_in x).
Definition set_gdtr v x := mk_x86 (x_reg x) (x_seg x) (x_cr x) (x_pc x) (x_flags x) v (x_tss x) (x_idt x) (x_mem x) (x_out x) (x_in x).
Definition set_words v x := mk_x86 (x_reg x) (x_seg x) (x_cr x) (x_pc x) (x_flags x) (x_gdtr x) (x_tss x) (x_idt x) v (x_out x) (x_in x).
Definition set_out v x := mk_x86 (x_reg x) (x_seg x) (x_cr x) (x_pc x) (x_flags x) (x_gdtr x) (x_tss x) (x_idt x) (x_mem x) v (x_in x).
Definition set_in v x := mk_x86 (x_reg x) (x_seg x) (x_cr x) (x_pc x) (x_flags x) (x_gdtr x) (x_tss x) (x_idt x) (x_mem x) (x_out x) v.

Definition rset {R} (eqb : R → R → bool) (r : R) (v : Z) (f : R → Z) : R → Z := λ r', if eqb r r' then v else f r'.

Lemma rset_esp v f r : r ≠ ESP → rset reg_eqb ESP v f r = f r.
Proof. by destruct r. Qed.

Abbreviation X := (M x86).

Definition get_reg (r : reg) : X Z := gets (λ s, x_reg s r).
Definition set_reg (r : reg) (v : Z) : X () := modify (λ s, set_regs (rset reg_eqb r v (x_reg s)) s).
Definition get_seg (r : sreg) : X Z := gets (λ s, x_seg s r).
Definition set_seg (r : sreg) (v : Z) : X () := modify (λ s, set_segs (rset sreg_eqb r (u16 v) (x_seg s)) s).
Definition get_cr (r : creg) : X Z := gets (λ s, x_cr s r).
Definition set_cr (r : creg) (v : Z) : X () := modify (λ s, set_crs (rset creg_eqb r v (x_cr s)) s).
Definition jump (a : Z) : X () := modify (set_pc a).

Definition load (a : Z) : X Z := m ← gets x_mem; the (m !! a).
Definition store (a v : Z) : X () :=
  m ← gets x_mem; _ ← the (m !! a); modify (set_words (<[a:=v]> m)).

(** The byte at [a], and [n] bytes from there on. *)
Definition byte_at (m : gmap Z Z) (a : Z) : option Z :=
  (λ w, Z.shiftr w (8 * (a mod 4)) mod 256) <$> m !! (a - a mod 4).
Fixpoint bytes_at (m : gmap Z Z) (a : Z) (n : nat) : option (list Z) :=
  match n with
  | O => Some []
  | S n' => b ← byte_at m a; l ← bytes_at m (a + 1) n'; Some (b :: l)
  end.

Definition push (v : Z) : X () :=
  sp ← get_reg ESP; store (u32 (sp - 4)) v;; set_reg ESP (u32 (sp - 4)).
Definition pop : X Z :=
  sp ← get_reg ESP; v ← load sp; set_reg ESP (u32 (sp + 4));; mret v.

Abbreviation ZF := 0x40.
Definition set_zf (v : Z) : X () :=
  modify (λ s, set_flags (if v =? 0 then Z.lor (x_flags s) ZF else Z.land (x_flags s) (Z.lnot ZF)) s).
Definition clear_if : X () := modify (λ s, set_flags (Z.land (x_flags s) (Z.lnot 0x200)) s).

(** ** Instructions *)

(** [At d r] is [d(%r)]; [Addr l d] is [$(l+d)] and [Abs l d] is [(l+d)]. *)
Inductive operand := Imm (v : Z) | Addr (l : string) (d : Z) | Reg (r : reg) | Seg (r : sreg) | Cr (r : creg)
  | At (d : Z) (r : reg) | Abs (l : string) (d : Z).

(** Sources come first.  [Inb] and [Outb] move between [%al] and a port,
    [Outw] writes [%ax] to the port in [%dx]; [JmpTo] and [CallTo] are [jmp *]
    and [call *].  [Lgdt] is that of 16-bit code: it takes 24 bits of the base. *)
Inductive instr :=
  | Movl (a b : operand) | Movw (a b : operand) | Movb (v : Z) (r : reg) | Xorw (r r' : reg) | Orl (v : Z) (r : reg)
  | Addl (v : Z) (r : reg) | Testb (v : Z) (r : reg) | Pushl (a : operand) | Popl (b : operand) | Pushal | Popal
  | Inb (p : Z) | Outb (p : Z) | Outw | Cli | Lgdt (l : string) | Jnz (l : string) | Jmp (l : string)
  | JmpTo (a : operand) | Ljmp (sel : Z) (l : string) | Call (l : string) | CallTo (a : operand) | Ret | Int (n : Z) | Iret.

(** An assembly file: labels and instructions. *)
Inductive item := Lbl (l : string) | I (i : instr).

Fixpoint instrs (t : list item) : list instr :=
  match t with [] => [] | Lbl _ :: t' => instrs t' | I i :: t' => i :: instrs t' end.
Fixpoint label (l : string) (t : list item) (k : nat) : option nat :=
  match t with
  | [] => None
  | Lbl l' :: t' => if String.eqb l l' then Some k else label l t' k
  | I _ :: t' => label l t' (S k)
  end.

(** A program in memory: its text, where its instructions are, and the symbols
    it uses from elsewhere. *)
Class Image := { im_text : list item; im_addr : nat → Z; im_sym : string → Z }.
Class ImageOk `{Image} : Prop :=
  im_inj i j : (i < length (instrs im_text))%nat → (j < length (instrs im_text))%nat → im_addr i = im_addr j → i = j.

Section Machine.
Context `{Image}.

Definition sym (l : string) : Z := match label l im_text 0 with Some k => im_addr k | None => im_sym l end.

Definition read (o : operand) : X Z :=
  match o with
  | Imm v => mret v
  | Addr l d => mret (u32 (sym l + d))
  | Reg r => get_reg r
  | Seg r => get_seg r
  | Cr r => get_cr r
  | At d r => a ← get_reg r; load (u32 (a + d))
  | Abs l d => load (u32 (sym l + d))
  end.
Definition write (o : operand) (v : Z) : X () :=
  match o with
  | Reg r => set_reg r v
  | Seg r => set_seg r v
  | Cr r => set_cr r v
  | At d r => a ← get_reg r; store (u32 (a + d)) v
  | Abs l d => store (u32 (sym l + d)) v
  | Imm _ | Addr _ _ => fault
  end.

(** A write to the low [w] bits of a register keeps the others. *)
Definition set_low (w : Z) (r : reg) (v : Z) : X () :=
  x ← get_reg r; set_reg r (Z.shiftl (Z.shiftr x w) w + v mod 2 ^ w).

(** A trap through gate [n]: from user mode the processor takes the stack that
    the task state names; [int] needs a gate that its privilege may use. *)
Definition cpl : X Z := cs ← get_seg CS; mret (Z.land cs 3).
Definition enter_gate (g : gatedesc) (err : option Z) : X () :=
  fl ← gets x_flags; push fl;;
  cs ← get_seg CS; push cs;;
  pc ← gets x_pc; push pc;;
  (match err with Some e => push e | None => mret () end);;
  set_seg CS (g_cs g);;
  when (g_type g =? STS_IG32) clear_if;;
  jump (g_off_15_0 g + 2 ^ 16 * g_off_31_16 g).
Definition deliver (n : Z) (err : option Z) (soft : bool) : X () :=
  idt ← gets x_idt;
  g ← the (idt !! Z.to_nat n);
  c ← cpl;
  if (soft && (g_dpl g <? c)) || negb (g_p g =? 1) then fault else
  when (Z.land (g_cs g) 3 <? c) (
    ss ← get_seg SS; esp ← get_reg ESP; ts ← gets x_tss;
    set_seg SS (ts_ss0 ts);; set_reg ESP (ts_esp0 ts);; push ss;; push esp);;
  enter_gate g err.

Definition iret : X () :=
  c ← cpl;
  eip ← pop; cs ← pop; fl ← pop;
  when (c <? Z.land cs 3) (esp ← pop; ss ← pop; set_reg ESP esp;; set_seg SS ss);;
  set_seg CS cs;; modify (set_flags fl);; jump eip.

Definition exec (i : instr) : X () :=
  match i with
  | Movl a b => v ← read a; write b v
  | Movw a (Reg r) => v ← read a; set_low 16 r v
  | Movw a b => v ← read a; write b (u16 v)
  | Movb v r => set_low 8 r v
  | Xorw r r' => x ← get_reg r; y ← get_reg r'; set_low 16 r' (Z.lxor x y);; set_zf (u16 (Z.lxor x y))
  | Orl v r => x ← get_reg r; set_reg r (Z.lor x v);; set_zf (Z.lor x v)
  | Addl v r => x ← get_reg r; set_reg r (u32 (x + v));; set_zf (u32 (x + v))
  | Testb v r => x ← get_reg r; set_zf (Z.land (u8 x) v)
  | Pushl a => v ← read a; push v
  | Popl b => v ← pop; write b v
  | Pushal =>
      sp ← get_reg ESP;
      v ← get_reg EAX; push v;; v ← get_reg ECX; push v;; v ← get_reg EDX; push v;; v ← get_reg EBX; push v;;
      push sp;;
      v ← get_reg EBP; push v;; v ← get_reg ESI; push v;; v ← get_reg EDI; push v
  | Popal =>
      v ← pop; set_reg EDI v;; v ← pop; set_reg ESI v;; v ← pop; set_reg EBP v;; _ ← pop;
      v ← pop; set_reg EBX v;; v ← pop; set_reg EDX v;; v ← pop; set_reg ECX v;; v ← pop; set_reg EAX v
  | Inb p =>
      s ← gets x_in; v ← the (head (s p));
      modify (set_in (λ q, if q =? p then tail (s p) else s q));; set_low 8 EAX v
  | Outb p => v ← get_reg EAX; modify (λ s, set_out ((p, u8 v) :: x_out s) s)
  | Outw => v ← get_reg EAX; p ← get_reg EDX; modify (λ s, set_out ((u16 p, u16 v) :: x_out s) s)
  | Cli => clear_if
  | Lgdt l =>
      m ← gets x_mem;
      d ← the (bytes_at m (sym l) 6);
      modify (set_gdtr (le_val (take 2 d), le_val (drop 2 d) mod 2 ^ 24))
  | Jnz l => f ← gets x_flags; when (negb (hasb f ZF)) (jump (sym l))
  | Jmp l => jump (sym l)
  | JmpTo a => v ← read a; jump v
  | Ljmp sel l => set_seg CS sel;; jump (sym l)
  | Call l => pc ← gets x_pc; push pc;; jump (sym l)
  | CallTo a => v ← read a; pc ← gets x_pc; push pc;; jump v
  | Ret => v ← pop; jump v
  | Int n => deliver n None true
  | Iret => iret
  end.

(** One instruction: [x_pc] already is the address of the next when it runs. *)
Definition fetch (pc : Z) : option (nat * instr) :=
  k ← List.find (λ k, im_addr k =? pc) (seq 0 (length (instrs im_text)));
  i ← instrs im_text !! k;
  Some (k, i).

Definition step : X () :=
  pc ← gets x_pc;
  ki ← the (fetch pc);
  jump (im_addr (S ki.1));;
  exec ki.2.

Fixpoint steps (n : nat) : X () := match n with O => mret () | S n' => step;; steps n' end.

Lemma steps_S n Q s : wp step (λ _ s', wp (steps n) Q s') s → wp (steps (S n)) Q s.
Proof. apply wp_bind. Qed.

Lemma steps_plus a b Q s : wp (steps a) (λ _ s', wp (steps b) Q s') s → wp (steps (a + b)) Q s.
Proof.
  revert s. induction a as [|a IH]; intros s HQ; [done|]. cbn [steps Nat.add] in *. apply wp_bind_inv in HQ.
  apply wp_bind. eapply wp_mono; [exact HQ|]. intros [] s' HQ'. by apply IH.
Qed.

(** The machine gets to a state in [Q]. *)
Definition reaches (Q : x86 → Prop) (s : x86) : Prop := ∃ n, wp (steps n) (λ _ s', Q s') s.

Lemma reaches_now (Q : x86 → Prop) s : Q s → reaches Q s.
Proof. intros HQ. by exists 0%nat. Qed.

Lemma reaches_trans Q s : reaches (reaches Q) s → reaches Q s.
Proof.
  intros [n Hn]. apply wp_runs in Hn as ([] & s1 & H1 & [k Hk]). exists (n + k)%nat.
  apply steps_plus. by eapply wp_of_runs.
Qed.

Lemma reaches_mono (P Q : x86 → Prop) s : reaches P s → (∀ s', P s' → Q s') → reaches Q s.
Proof. intros [n Hn] HPQ. exists n. eapply wp_mono; [exact Hn|]. intros [] s' HP. by apply HPQ. Qed.

(** ** Blocks *)

(** The instructions [l] are in the text from the [b]th on. *)
Definition block (b : nat) (l : list instr) : Prop := ∀ j i, l !! j = Some i → instrs im_text !! (b + j)%nat = Some i.

(** Instructions in sequence. *)
Fixpoint exec_seq (b : nat) (l : list instr) : X () :=
  match l with [] => mret () | i :: l' => jump (im_addr (S b));; exec i;; exec_seq (S b) l' end.

(** Instructions that go on with the next. *)
Definition straight (i : instr) : bool :=
  match i with
  | Jnz _ | Jmp _ | JmpTo _ | Ljmp _ _ | Call _ | CallTo _ | Ret | Int _ | Iret => false
  | _ => true
  end.

Definition keeps_pc {A} (m : X A) : Prop := ∀ s, match m s with Ok _ s' => x_pc s' = x_pc s | _ => True end.

Lemma keeps_bind {A B} (m : X A) (k : A → X B) : keeps_pc m → (∀ a, keeps_pc (k a)) → keeps_pc (m ≫= k).
Proof.
  intros Hm Hk s. specialize (Hm s). unfold mbind, M_bind. destruct (m s) as [a s1| | |]; try done.
  specialize (Hk a s1). destruct (k a s1); congruence.
Qed.
Lemma keeps_ret {A} (a : A) : keeps_pc (mret a).
Proof. by intros s. Qed.
Lemma keeps_gets {A} (f : x86 → A) : keeps_pc (gets f).
Proof. by intros s. Qed.
Lemma keeps_the {A} (o : option A) : keeps_pc (the o).
Proof. intros s. by destruct o. Qed.
Lemma keeps_modify f : (∀ s, x_pc (f s) = x_pc s) → keeps_pc (modify f).
Proof. intros Hf s. apply Hf. Qed.
Lemma keeps_fault {A} : keeps_pc (fault (A:=A)).
Proof. by intros s. Qed.

Ltac keeps_solve :=
  repeat first [ apply keeps_bind; [|intros ?] | apply keeps_gets | apply keeps_the | apply keeps_ret
    | apply keeps_fault | by apply keeps_modify | by auto ].

Lemma keeps_read o : keeps_pc (read o).
Proof. destruct o; cbn [read]; unfold get_reg, get_seg, get_cr, load; keeps_solve. Qed.
Lemma keeps_write o v : keeps_pc (write o v).
Proof. destruct o; cbn [write]; unfold get_reg, set_reg, set_seg, set_cr, store; keeps_solve. Qed.
Lemma keeps_push v : keeps_pc (push v).
Proof. unfold push, get_reg, set_reg, store. keeps_solve. Qed.
Lemma keeps_pop : keeps_pc pop.
Proof. unfold pop, get_reg, set_reg, load. keeps_solve. Qed.
Hint Resolve keeps_read keeps_write keeps_push keeps_pop : core.

Lemma straight_keeps i : straight i = true → keeps_pc (exec i).
Proof.
  destruct i as [|? []| | | | | | | | | | | | | | | | | | | | | | |]; intros E; try done; cbn [exec];
    unfold get_reg, set_reg, set_low, set_zf, clear_if; keeps_solve.
Qed.

(** ** Running a block *)

Lemma fetch_at `{!ImageOk} k i : instrs im_text !! k = Some i → fetch (im_addr k) = Some (k, i).
Proof.
  intros Hk. pose proof (lookup_lt_Some _ _ _ Hk) as Hlt. unfold fetch.
  destruct (List.find _ _) as [j|] eqn:E.
  - apply find_some in E as [Hj%in_seq Hj'%Z.eqb_eq]. apply im_inj in Hj'; [subst j|lia..]. cbn. by rewrite Hk.
  - assert (In k (seq 0 (length (instrs im_text)))) as Hin by (apply in_seq; lia).
    apply (find_none _ _ E) in Hin. lia.
Qed.

Lemma wp_step_at `{!ImageOk} k i Q s :
  instrs im_text !! k = Some i → x_pc s = im_addr k → wp (exec i) Q (set_pc (im_addr (S k)) s) → wp step Q s.
Proof. intros Hk Hpc HQ. unfold step. wp_steps. rewrite Hpc, (fetch_at k i Hk). exact HQ. Qed.

Lemma block_cons b i l : block b (i :: l) → instrs im_text !! b = Some i ∧ block (S b) l.
Proof.
  intros Hb. split; [rewrite <-(Nat.add_0_r b); by apply Hb|]. intros j k Hj.
  rewrite Nat.add_succ_comm. by apply Hb.
Qed.

Lemma wp_block `{!ImageOk} b l Q s :
  block b l → forallb straight (removelast l) = true → x_pc s = im_addr b →
  wp (exec_seq b l) Q s → wp (steps (length l)) Q s.
Proof.
  revert b s. induction l as [|i l IH]; intros b s Hb Hst Hpc; [done|].
  destruct (block_cons _ _ _ Hb) as [Hi Hb']. cbn [exec_seq length steps]. intros HQ.
  assert (wp (exec i;; exec_seq (S b) l) Q (set_pc (im_addr (S b)) s)) as HQ' by exact HQ.
  apply wp_bind_inv in HQ'. apply wp_bind. eapply wp_step_at; [done..|].
  destruct l as [|j l]; [exact HQ'|]. cbn [removelast forallb] in Hst. apply andb_prop in Hst as [Hi' Hst].
  pose proof (straight_keeps i Hi' (set_pc (im_addr (S b)) s)) as Hk. unfold wp in *.
  destruct (exec i _) as [[] s1| | |]; try done. by apply (IH (S b)).
Qed.

End Machine.

Lemma block_part `{Image} n k b l : block b l → block (b + n) (take k (drop n l)).
Proof.
  intros Hb j i Hi. apply lookup_take_Some in Hi as [Hi _]. rewrite lookup_drop in Hi. rewrite <-Nat.add_assoc. by apply Hb.
Qed.

Lemma reaches_block `{ImageOk} b l Q s :
  block b l → forallb straight (removelast l) = true → x_pc s = im_addr b →
  wp (exec_seq b l) (λ _ s', reaches Q s') s → reaches Q s.
Proof. intros Hb Hst Hpc HQ. apply reaches_trans. exists (length l). by eapply wp_block. Qed.

(** ** Words in memory *)

(** [l] at address [a] and up. *)
Fixpoint put_words (a : Z) (l : list Z) (m : gmap Z Z) : gmap Z Z :=
  match l with [] => m | w :: l' => <[a:=w]> (put_words (a + 4) l' m) end.
Definition words (m : gmap Z Z) (a : Z) (l : list Z) : Prop :=
  ∀ i w, l !! i = Some w → m !! (a + 4 * Z.of_nat i) = Some w.
(** The addresses of [n] words from [a] on. *)
Definition at_word (a : Z) (n : nat) (b : Z) : Prop := ∃ k, (k < n)%nat ∧ b = a + 4 * Z.of_nat k.

Lemma words_cons m a w l : words m a (w :: l) ↔ m !! a = Some w ∧ words m (a + 4) l.
Proof.
  split.
  - intros Hw. split; [by rewrite <-(Hw 0%nat w eq_refl); f_equal; lia|].
    intros i v Hi. rewrite <-(Hw (S i) v Hi). f_equal. lia.
  - intros [H0 Hl] [|i] v Hv; cbn in Hv.
    + injection Hv as <-. by rewrite Z.add_0_r.
    + rewrite <-(Hl i v Hv). f_equal. lia.
Qed.

Lemma words_app m a l k : words m a (l ++ k) ↔ words m a l ∧ words m (a + 4 * Z.of_nat (length l)) k.
Proof.
  revert a. induction l as [|w l IH]; intros a; cbn [app length].
  - rewrite Z.add_0_r. split; [intros H; split; [by intros i v|done]|by intros [_ H]].
  - rewrite !words_cons, IH. replace (a + 4 + 4 * Z.of_nat (length l)) with (a + 4 * Z.of_nat (S (length l))) by lia. tauto.
Qed.

Lemma put_words_other a l m b : ¬ at_word a (length l) b → put_words a l m !! b = m !! b.
Proof.
  revert a. induction l as [|w l IH]; intros a Hb; [done|]. cbn [put_words].
  rewrite lookup_insert_ne by (intros ->; apply Hb; exists 0%nat; cbn; lia). apply IH.
  intros (k & Hk & ->). apply Hb. exists (S k). cbn. lia.
Qed.

Lemma words_put a l m : words (put_words a l m) a l.
Proof.
  revert a. induction l as [|w l IH]; intros a; [by intros i v|]. cbn [put_words]. apply words_cons. split.
  - by rewrite lookup_insert_eq.
  - intros i v Hi. rewrite lookup_insert_ne by lia. by apply IH.
Qed.

Lemma words_agree m m' a l : words m a l → (∀ b, at_word a (length l) b → m' !! b = m !! b) → words m' a l.
Proof. intros Hw Hm i w Hi. rewrite Hm; [by apply Hw|]. exists i. split; [by eapply lookup_lt_Some|done]. Qed.

Lemma words_inj m a l k : words m a l → words m a k → length l = length k → l = k.
Proof.
  revert a k. induction l as [|w l IH]; intros a [|v k] Hl Hk E; try done.
  apply words_cons in Hl as [Hw Hl]. apply words_cons in Hk as [Hv Hk]. injection E as E.
  f_equal; [congruence|by eapply IH].
Qed.

(** Words that may be written. *)
Definition mapped (m : gmap Z Z) (a : Z) (n : nat) : Prop := ∀ b, at_word a n b → is_Some (m !! b).

Lemma put_words_mapped a l m b : is_Some (m !! b) → is_Some (put_words a l m !! b).
Proof.
  revert a. induction l as [|w l IH]; intros a Hb; [done|]. cbn [put_words].
  destruct (decide (a = b)) as [->|]; [rewrite lookup_insert_eq; eauto|]. rewrite lookup_insert_ne by done. by apply IH.
Qed.

Lemma mapped_put a l m : mapped (put_words a l m) a (length l).
Proof.
  intros b (k & Hk & ->). destruct (lookup_lt_is_Some_2 l k Hk) as [w Hw]. exists w. by apply words_put.
Qed.

Lemma bytes_at_agree m m' a n :
  (∀ b, a ≤ b < a + Z.of_nat n → m' !! (b - b mod 4) = m !! (b - b mod 4)) → bytes_at m' a n = bytes_at m a n.
Proof.
  revert a. induction n as [|n IH]; intros a Hm; [done|]. cbn [bytes_at]. unfold byte_at.
  rewrite Hm, IH by (intros; try apply Hm; lia). done.
Qed.

Lemma bytes_at_part k m a n l off :
  bytes_at m a n = Some l → (off + k ≤ n)%nat → bytes_at m (a + Z.of_nat off) k = Some (take k (drop off l)).
Proof.
  revert k a l off. induction n as [|n IH]; intros k a l off Hl Hk.
  - assert (k = 0%nat) as -> by lia. done.
  - cbn [bytes_at] in Hl. destruct (byte_at m a) as [b|] eqn:Eb; [|done]. cbn in Hl.
    destruct (bytes_at m (a + 1) n) as [l'|] eqn:El; [|done]. injection Hl as <-.
    destruct off as [|off]; [|cbn [drop]; rewrite <-(IH k _ _ off El) by lia; f_equal; lia].
    destruct k as [|k]; [done|]. cbn [bytes_at take drop]. rewrite Z.add_0_r, Eb. cbn.
    pose proof (IH k _ _ 0%nat El ltac:(lia)) as E. rewrite Z.add_0_r in E. by rewrite E.
Qed.

(** ** The stack *)

Section Stack.
Context (s : x86) (m : gmap Z Z) (top : Z) (n : nat).
Context (Htop : 4 * Z.of_nat n ≤ top < 2 ^ 32) (Hmap : mapped m (top - 4 * Z.of_nat n) n).

(** The words [l] have been pushed onto the stack that starts below [top]. *)
Definition pushed (l : list Z) : Prop :=
  x_reg s ESP = top - 4 * Z.of_nat (length l) ∧ x_mem s = put_words (top - 4 * Z.of_nat (length l)) l m.

Lemma wp_push v l (Q : () → x86 → Prop) : pushed l → (length l < n)%nat →
  Q () (set_regs (rset reg_eqb ESP (top - 4 * Z.of_nat (length (v :: l))) (x_reg s))
    (set_words (put_words (top - 4 * Z.of_nat (length (v :: l))) (v :: l) m) s)) → wp (push v) Q s.
Proof using Htop Hmap.
  intros [Hsp Hm] Hl HQ. unfold push, get_reg, set_reg, store. wp_steps. rewrite Hsp, Hm.
  replace (u32 (top - 4 * Z.of_nat (length l) - 4)) with (top - 4 * Z.of_nat (length (v :: l)))
    by (cbn [length]; rewrite u32_small; lia).
  assert (is_Some (put_words (top - 4 * Z.of_nat (length l)) l m !! (top - 4 * Z.of_nat (length (v :: l))))) as [w Hw].
  { apply put_words_mapped, Hmap. exists (n - length (v :: l))%nat. cbn [length]. lia. }
  rewrite Hw. wp_steps. cbn [put_words] in HQ.
  replace (top - 4 * Z.of_nat (length (v :: l)) + 4) with (top - 4 * Z.of_nat (length l)) in HQ by (cbn [length]; lia).
  exact HQ.
Qed.

End Stack.

Lemma wp_pop a v (Q : Z → x86 → Prop) s :
  x_reg s ESP = a → 0 ≤ a < 2 ^ 32 - 4 → x_mem s !! a = Some v →
  Q v (set_regs (rset reg_eqb ESP (a + 4) (x_reg s)) s) → wp pop Q s.
Proof.
  intros Hsp Ha Hv HQ. unfold pop, get_reg, set_reg, load. wp_steps. rewrite Hsp, Hv. wp_steps.
  rewrite u32_small by lia. done.
Qed.

(** ** Symbolic execution *)

Lemma wp_exec_cons `{Image} b i l Q s :
  wp (exec i) (λ _ s', wp (exec_seq (S b) l) Q s') (set_pc (im_addr (S b)) s) → wp (exec_seq b (i :: l)) Q s.
Proof. intros HQ. cbn [exec_seq]. apply wp_bind, wp_modify, wp_bind. exact HQ. Qed.

Ltac x_simpl :=
  cbn [x_reg x_seg x_cr x_pc x_flags x_gdtr x_tss x_idt x_mem x_out x_in set_regs set_segs set_crs set_pc set_flags
    set_gdtr set_words set_out set_in rset reg_eqb sreg_eqb creg_eqb].
Ltac x_step :=
  lazymatch goal with
  | |- wp (mbind _ _) _ _ => apply wp_bind
  | |- wp (mret _) _ _ => apply wp_ret
  | |- wp (gets _) _ _ => apply wp_gets; x_simpl
  | |- wp (modify _) _ _ => apply wp_modify
  | |- wp (exec_seq _ (_ :: _)) _ _ => apply wp_exec_cons
  | |- wp (exec_seq _ []) _ _ => apply wp_ret
  | |- wp (exec Pushal) _ _ => fail
  | |- wp (exec Popal) _ _ => fail
  | |- wp (exec _) _ _ => cbn [exec read write]
  | |- wp (the (Some _)) _ _ => apply wp_ret
  | |- wp (jump _) _ _ => apply wp_modify
  | |- wp (get_reg _) _ _ => apply wp_gets; x_simpl
  | |- wp (set_reg _ _) _ _ => apply wp_modify
  | |- wp (get_seg _) _ _ => apply wp_gets; x_simpl
  | |- wp (set_seg _ _) _ _ => apply wp_modify
  | |- wp (set_low _ _ _) _ _ => unfold set_low
  | |- wp (set_zf _) _ _ => apply wp_modify
  | |- wp clear_if _ _ => apply wp_modify
  | |- wp (get_cr _) _ _ => apply wp_gets; x_simpl
  | |- wp (set_cr _ _) _ _ => apply wp_modify
  end; cbv beta.
Ltac x_steps := repeat x_step; x_simpl.

Lemma wp_load a v (Q : Z → x86 → Prop) s : x_mem s !! a = Some v → Q v s → wp (load a) Q s.
Proof. intros Hv HQ. unfold load. wp_steps. by rewrite Hv. Qed.

Lemma wp_store a v (Q : () → x86 → Prop) s :
  is_Some (x_mem s !! a) → Q () (set_words (<[a:=v]> (x_mem s)) s) → wp (store a v) Q s.
Proof. intros [w Hw] HQ. unfold store. wp_steps. by rewrite Hw. Qed.

(** A push, the words [l] having been pushed below [top] onto the memory [m]
    before. *)
Ltac x_push m top n ws :=
  refine (wp_push _ m top n _ _ _ ws _ _ _ _);
  [lia|done|split; x_simpl; [first [assumption|cbn [length]; lia]|first [reflexivity|cbn [length put_words]; done]]|cbn [length]; lia|];
  x_steps.

(** A pop of the word [v] at [a]. *)
Ltac x_pop a v := apply (wp_pop a v); [x_simpl; lia|lia|x_simpl; first [done|by rewrite ?Z.add_0_r]|]; x_steps.

(** ** All general registers at once *)

(** The words [pushal] pushes, the last at the lowest address. *)
Definition gp_words (r : reg → Z) : list Z := [r EDI; r ESI; r EBP; r ESP; r EBX; r EDX; r ECX; r EAX].

(** Nothing but general registers and memory differs. *)
Definition same_but_regs (s s' : x86) : Prop :=
  x_seg s' = x_seg s ∧ x_cr s' = x_cr s ∧ x_pc s' = x_pc s ∧ x_flags s' = x_flags s ∧ x_tss s' = x_tss s ∧
  x_idt s' = x_idt s.

Lemma wp_pushal `{Image} m top n l (Q : () → x86 → Prop) s :
  4 * Z.of_nat n ≤ top < 2 ^ 32 → mapped m (top - 4 * Z.of_nat n) n → pushed s m top l → (length l + 8 ≤ n)%nat →
  (∀ s', pushed s' m top (gp_words (x_reg s) ++ l) → (∀ r, r ≠ ESP → x_reg s' r = x_reg s r) → same_but_regs s s' → Q () s') →
  wp (exec Pushal) Q s.
Proof.
  intros Ht Hmap Hp Hl HQ. pose proof Hp as [Hsp Hm]. cbn [exec]. x_steps.
  x_push m top n l. x_push m top n (x_reg s EAX :: l). x_push m top n (x_reg s ECX :: x_reg s EAX :: l).
  x_push m top n (x_reg s EDX :: x_reg s ECX :: x_reg s EAX :: l).
  set (l1 := x_reg s EBX :: _). assert (length l1 = 4 + length l)%nat as Hl1 by done.
  x_push m top n l1. x_push m top n (x_reg s ESP :: l1). x_push m top n (x_reg s EBP :: x_reg s ESP :: l1).
  x_push m top n (x_reg s ESI :: x_reg s EBP :: x_reg s ESP :: l1).
  apply HQ; [by split|by intros []|done].
Qed.

Lemma wp_popal `{Image} a ws (Q : () → x86 → Prop) s :
  x_reg s ESP = a → 0 ≤ a < 2 ^ 32 - 32 → words (x_mem s) a ws → length ws = 8%nat →
  (∀ s', gp_words (rset reg_eqb ESP (ws !!! 3%nat) (x_reg s')) = ws → x_reg s' ESP = a + 32 → x_mem s' = x_mem s →
    same_but_regs s s' → Q () s') →
  wp (exec Popal) Q s.
Proof.
  intros Hsp Ha Hw Hl HQ. destruct ws as [|w0 [|w1 [|w2 [|w3 [|w4 [|w5 [|w6 [|w7 [|]]]]]]]]]; try done.
  repeat setoid_rewrite words_cons in Hw. destruct Hw as (H0' & H1' & H2' & H3' & H4' & H5' & H6' & H7' & _). cbn [exec]. x_steps.
  x_pop a w0. x_pop (a + 4) w1. x_pop (a + 4 + 4) w2. x_pop (a + 4 + 4 + 4) w3. x_pop (a + 4 + 4 + 4 + 4) w4.
  x_pop (a + 4 + 4 + 4 + 4 + 4) w5. x_pop (a + 4 + 4 + 4 + 4 + 4 + 4) w6. x_pop (a + 4 + 4 + 4 + 4 + 4 + 4 + 4) w7.
  apply HQ; x_simpl; try done. lia.
Qed.
