(* ===== verification/Asm.v ===== *)
(** * Asm: the assembly code of the kernel

    swtch.S, trapasm.S, the stubs that vectors.pl generates, usys.S and
    initcode.S on the machine of X86.v: what a context switch keeps, the trap
    frame that [trap] is given and what its return does with it, the calling
    convention of system calls, and the way of a new process into user mode. *)

From stdpp Require Import pretty.
From S2P Require Import Prelude Bytes Kernel Vm Proc Trap X86.

(** ** The text *)

Definition swtch : list item :=
  [ Lbl "swtch";
    I (Movl (At 4 ESP) (Reg EAX));
    I (Movl (At 8 ESP) (Reg EDX));
    I (Pushl (Reg EBP));
    I (Pushl (Reg EBX));
    I (Pushl (Reg ESI));
    I (Pushl (Reg EDI));
    I (Movl (Reg ESP) (At 0 EAX));
    I (Movl (Reg EDX) (Reg ESP));
    I (Popl (Reg EDI));
    I (Popl (Reg ESI));
    I (Popl (Reg EBX));
    I (Popl (Reg EBP));
    I Ret ].

Definition trapasm : list item :=
  [ Lbl "alltraps";
    I (Pushl (Seg DS));
    I (Pushl (Seg ES));
    I (Pushl (Seg FS));
    I (Pushl (Seg GS));
    I Pushal;
    I (Movw (Imm (Z.shiftl SEG_KDATA 3)) (Reg EAX));
    I (Movw (Reg EAX) (Seg DS));
    I (Movw (Reg EAX) (Seg ES));
    I (Movw (Imm (Z.shiftl SEG_KCPU 3)) (Reg EAX));
    I (Movw (Reg EAX) (Seg FS));
    I (Movw (Reg EAX) (Seg GS));
    I (Pushl (Reg ESP));
    I (Call "trap");
    I (Addl 4 ESP);
    Lbl "trapret";
    I Popal;
    I (Popl (Seg GS));
    I (Popl (Seg FS));
    I (Popl (Seg ES));
    I (Popl (Seg DS));
    I (Addl 8 ESP);
    I Iret ].

(** vectors.pl: the processor pushes an error code for some exceptions; for the
    others the stub pushes a zero. *)
Definition has_err (i : Z) : bool := (i =? 8) || ((10 <=? i) && (i <=? 14)) || (i =? 17).
Definition vname (i : Z) : string := String.append "vector" (pretty i).
Definition vector (i : Z) : list item :=
  [Lbl (vname i)] ++ (if negb (has_err i) then [I (Pushl (Imm 0))] else []) ++ [I (Pushl (Imm i)); I (Jmp "alltraps")].
Definition vectors_S : list item := seqZ 0 256 ≫= vector.

(** ** System calls (syscall.h, usys.S, initcode.S) *)

Definition SYS : list (string * Z) :=
  [("fork", 1); ("exit", 2); ("wait", 3); ("pipe", 4); ("read", 5); ("kill", 6); ("exec", 7); ("fstat", 8);
   ("chdir", 9); ("dup", 10); ("getpid", 11); ("sbrk", 12); ("sleep", 13); ("uptime", 14); ("open", 15);
   ("write", 16); ("mknod", 17); ("unlink", 18); ("link", 19); ("mkdir", 20); ("close", 21); ("getcwd", 22);
   ("ps", 23); ("wait2", 24); ("yield", 25)].
Fixpoint number (name : string) (l : list (string * Z)) : Z :=
  match l with [] => 0 | (n, v) :: l' => if String.eqb n name then v else number name l' end.

Definition SYSCALL (name : string) : list item :=
  [Lbl name; I (Movl (Imm (number name SYS)) (Reg EAX)); I (Int T_SYSCALL); I Ret].
Definition sys_names : list string :=
  ["fork"; "exit"; "wait"; "pipe"; "read"; "write"; "close"; "kill"; "exec"; "open"; "mknod"; "unlink"; "fstat";
   "link"; "mkdir"; "chdir"; "dup"; "getpid"; "sbrk"; "sleep"; "uptime"; "getcwd"; "ps"; "yield"; "wait2"].
Definition usys : list item := sys_names ≫= SYSCALL.

Definition initcode : list item :=
  [ Lbl "start";
    I (Pushl (Addr "argv" 0));
    I (Pushl (Addr "init" 0));
    I (Pushl (Imm 0));
    I (Movl (Imm (number "exec" SYS)) (Reg EAX));
    I (Int T_SYSCALL);
    Lbl "exit";
    I (Movl (Imm (number "exit" SYS)) (Reg EAX));
    I (Int T_SYSCALL);
    I (Jmp "exit") ].

(** ** Linking *)

(** The file [t] is part of the program. *)
Definition linked `{Image} (t : list item) : Prop := ∃ b, block b (instrs t) ∧
  ∀ l k, label l t 0 = Some k → sym l = im_addr (b + k).

Lemma instrs_app t u : instrs (t ++ u) = instrs t ++ instrs u.
Proof. induction t as [|[l|i] t IH]; cbn [app instrs]; [done|done|by rewrite IH]. Qed.

Lemma label_app l t u k : label l (t ++ u) k =
  match label l t k with Some j => Some j | None => label l u (k + length (instrs t)) end.
Proof.
  revert k. induction t as [|[l'|i] t IH]; intros k; cbn [app label instrs length].
  - by rewrite Nat.add_0_r.
  - case_match; [done|apply IH].
  - rewrite IH. case_match; [done|]. f_equal. lia.
Qed.

Lemma label_shift l t k : label l t k = (λ j, k + j)%nat <$> label l t 0.
Proof.
  revert k. assert (∀ j k, label l t (k + j) = (λ i, k + i)%nat <$> label l t j) as E; [|intros k; by rewrite <-E, Nat.add_0_r].
  induction t as [|[l'|i] t IH]; intros j k; cbn [label]; [done| |].
  - case_match; [done|apply IH].
  - by rewrite plus_n_Sm, IH.
Qed.

Lemma linked_part `{Image} t1 t t2 :
  linked (t1 ++ t ++ t2) → (∀ l, is_Some (label l t 0) → label l t1 0 = None) → linked t.
Proof.
  intros (b & Hb & Hl) Hn. exists (b + length (instrs t1))%nat. split.
  - intros j i Hj. rewrite <-Nat.add_assoc. apply Hb. rewrite !instrs_app.
    rewrite lookup_app_r by lia. rewrite lookup_app_l by (apply lookup_lt_Some in Hj; lia). rewrite <-Hj. f_equal. lia.
  - intros l k Hk. rewrite (Hl l (length (instrs t1) + k)%nat); [f_equal; lia|].
    rewrite label_app, Hn by eauto. rewrite label_app, label_shift, Hk. done.
Qed.

(** Where no label occurs twice, every file of a program is part of it. *)
Fixpoint labels (t : list item) : list string :=
  match t with [] => [] | Lbl l :: t' => l :: labels t' | I _ :: t' => labels t' end.

Lemma labels_app t u : labels (t ++ u) = labels t ++ labels u.
Proof. induction t as [|[l|i] t IH]; cbn [app labels]; [done|by rewrite IH|done]. Qed.

Lemma label_labels l t k : is_Some (label l t k) ↔ l ∈ labels t.
Proof.
  revert k. induction t as [|[l'|i] t IH]; intros k; cbn [label labels].
  - split; [by intros [? [=]]|by intros ?%not_elem_of_nil].
  - rewrite elem_of_cons. destruct (String.eqb_spec l l') as [->|Hne]; [naive_solver|]. rewrite IH. naive_solver.
  - apply IH.
Qed.

Lemma linked_file `{Image} t1 t t2 : im_text = t1 ++ t ++ t2 → NoDup (labels im_text) → linked t.
Proof.
  intros E Hd. apply (linked_part t1 _ t2).
  - rewrite <-E. exists 0%nat. split; [by intros j i|]. intros l k Hk. unfold sym. by rewrite Hk.
  - intros l Hl%label_labels. apply eq_None_not_Some. rewrite label_labels. intros Hl1.
    rewrite E, !labels_app in Hd. apply NoDup_app in Hd as (_ & Hd & _). apply (Hd l Hl1). set_solver.
Qed.

Lemma vname_inj i j : vname i = vname j → i = j.
Proof. unfold vname. intros E. apply (inj (String.append "vector")) in E. by apply (inj pretty) in E. Qed.

Lemma label_vector l i : is_Some (label l (vector i) 0) → l = vname i.
Proof.
  unfold vector. cbn [app label]. destruct (String.eqb_spec l (vname i)); [done|]. intros [k Hk].
  rewrite label_app in Hk. by destruct (negb (has_err i)).
Qed.

Lemma label_vectors l js k : (∀ i, i ∈ js → l ≠ vname i) → label l (js ≫= vector) k = None.
Proof.
  revert k. induction js as [|i js IH]; intros k Hi; [done|]. cbn [mbind list_bind]. rewrite label_app.
  rewrite label_shift. destruct (label l (vector i) 0) as [j|] eqn:E.
  - exfalso. apply (Hi i); [by left|]. apply label_vector. eauto.
  - apply IH. intros j Hj. apply Hi. by right.
Qed.

Lemma linked_vector `{Image} i : linked vectors_S → 0 ≤ i < 256 → linked (vector i).
Proof.
  intros Hl Hi. apply (linked_part (seqZ 0 i ≫= vector) _ (seqZ (i + 1) (255 - i) ≫= vector)).
  - replace (_ ++ _) with vectors_S; [done|]. unfold vectors_S.
    replace 256 with (i + (1 + (255 - i))) by lia. rewrite seqZ_app, seqZ_app by lia.
    rewrite !bind_app, Z.add_0_l. change (seqZ i 1) with [Z.of_nat 0 + i]. by rewrite Z.add_0_l, bind_singleton.
  - intros l Hs%label_vector. apply label_vectors. intros j Hj%elem_of_seqZ E. subst l.
    apply vname_inj in E. lia.
Qed.

(** ** The context switch *)

Definition context_words (c : context) : list Z := [cx_edi c; cx_esi c; cx_ebx c; cx_ebp c; cx_eip c].

Lemma context_words_inj m a c c' : words m a (context_words c) → words m a (context_words c') → c = c'.
Proof. intros H H'. pose proof (words_inj _ _ _ _ H H' eq_refl) as [=]. destruct c, c'. by f_equal. Qed.

(** The registers that a function of C keeps. *)
Definition saved_regs (s : x86) (eip : Z) : context :=
  mk_context (x_reg s EDI) (x_reg s ESI) (x_reg s EBX) (x_reg s EBP) eip.

(** A call of [swtch(old, new)] that returns to [ret], with [sp] the stack
    pointer: there is room on the stack, the context at [new] is [c], and it and
    [old] are apart from what [swtch] pushes. *)
Record calls_swtch `{Image} (s : x86) (sp ret old new : Z) (c : context) : Prop := {
  sw_pc : x_pc s = sym "swtch";
  sw_sp : x_reg s ESP = sp;
  sw_range : 16 ≤ sp < 2 ^ 32 - 12;
  sw_args : words (x_mem s) sp [ret; old; new];
  sw_room : mapped (x_mem s) (sp - 16) 4;
  sw_new : words (x_mem s) new (context_words c);
  sw_new_range : 0 ≤ new < 2 ^ 32 - 20;
  sw_new_apart : ∀ a, at_word new 5 a → ¬ at_word (sp - 16) 4 a ∧ a ≠ old;
  sw_old : is_Some (x_mem s !! old);
  sw_old_range : 0 ≤ old < 2 ^ 32;
  sw_old_apart : ¬ at_word (sp - 16) 5 old;
}.

Section Swtch.
Context `{ImageOk} (Htext : linked swtch).
#[local] Set Default Proof Using "All".

Lemma swtch_spec s sp ret old new c : calls_swtch s sp ret old new c →
  wp (steps 13) (λ _ s',
    x_pc s' = cx_eip c ∧ saved_regs s' (cx_eip c) = c ∧ x_reg s' ESP = new + 20 ∧
    x_mem s' = <[old:=sp - 16]> (put_words (sp - 16) (take 4 (context_words (saved_regs s ret))) (x_mem s)) ∧
    x_seg s' = x_seg s ∧ x_cr s' = x_cr s ∧ x_flags s' = x_flags s) s.
Proof.
  intros []. destruct Htext as (b & Hb & Hl). apply (wp_block b (instrs swtch)); [done|done| |].
  { rewrite sw_pc0, (Hl "swtch" 0%nat); [f_equal; lia|done]. }
  apply words_cons in sw_args0 as [Hret [Hold [Hnew _]%words_cons]%words_cons].
  cbn [instrs swtch]. x_steps.
  apply (wp_load _ old); [x_simpl; rewrite sw_sp0, u32_small by lia; done|]. x_steps.
  apply (wp_load _ new); [x_simpl; rewrite sw_sp0, u32_small by lia; rewrite <-Hnew; f_equal; lia|]. x_steps.
  x_push (x_mem s) sp 4%nat (@nil Z).
  x_push (x_mem s) sp 4%nat [x_reg s EBP].
  x_push (x_mem s) sp 4%nat [x_reg s EBX; x_reg s EBP].
  x_push (x_mem s) sp 4%nat [x_reg s ESI; x_reg s EBX; x_reg s EBP].
  set (ws := [x_reg s EDI; x_reg s ESI; x_reg s EBX; x_reg s EBP]). change (sp - 4 * Z.of_nat (length ws)) with (sp - 16).
  rewrite Z.add_0_r, (u32_small old) by done.
  apply wp_store; [by apply put_words_mapped|]. x_steps. set (m := <[old:=sp - 16]> _).
  assert (words m new (context_words c)) as Hc.
  { eapply words_agree; [done|]. intros a Ha. destruct (sw_new_apart0 a Ha) as [Hsp Hne].
    unfold m. rewrite lookup_insert_ne by done. by apply put_words_other. }
  unfold context_words in Hc. repeat setoid_rewrite words_cons in Hc. destruct Hc as (H0' & H1' & H2' & H3' & H4' & _).
  x_pop new (cx_edi c). x_pop (new + 4) (cx_esi c). x_pop (new + 4 + 4) (cx_ebx c).
  x_pop (new + 4 + 4 + 4) (cx_ebp c). x_pop (new + 4 + 4 + 4 + 4) (cx_eip c).
  unfold saved_regs. x_simpl. split_and!; try done; [by destruct c|lia].
Qed.

(** C20: A context switch is a call that returns.  A process calls
    [swtch(old, new)]: the processor goes on where the context [new] says, with
    that context's registers and stack, [*old] is the place of the context that
    was saved, and no other memory than [*old] and four words of the stack has
    changed.  Whatever runs then, if it leaves the saved context alone and
    someone calls [swtch] for it, the first call returns: the process has its
    stack pointer and the registers a C function keeps. *)
Theorem swtch_round_trip s sp ret old new c : calls_swtch s sp ret old new c →
  wp (steps 13) (λ _ s1,
    x_pc s1 = cx_eip c ∧ saved_regs s1 (cx_eip c) = c ∧ x_reg s1 ESP = new + 20 ∧
    x_mem s1 !! old = Some (sp - 16) ∧
    (∀ a, a ≠ old → ¬ at_word (sp - 16) 4 a → x_mem s1 !! a = x_mem s !! a) ∧
    ∀ s2 sp2 ret2 old2 c2,
      (∀ a, at_word (sp - 16) 5 a → x_mem s2 !! a = x_mem s1 !! a) →
      calls_swtch s2 sp2 ret2 old2 (sp - 16) c2 →
      wp (steps 13) (λ _ s3, x_pc s3 = ret ∧ saved_regs s3 ret = saved_regs s ret ∧ x_reg s3 ESP = sp + 4) s2) s.
Proof.
  intros Hs. eapply wp_mono; [by apply swtch_spec|]. intros [] s1 (Hpc & Hr & Hsp & Hm & _).
  assert (words (x_mem s1) (sp - 16) (context_words (saved_regs s ret))) as Hw.
  { rewrite <-(take_drop 4 (context_words _)), words_app. split.
    - rewrite Hm. eapply words_agree; [apply words_put|]. intros a Ha. apply lookup_insert_ne.
      intros ->. destruct Ha as (k & Hk & ->). apply (sw_old_apart _ _ _ _ _ _ Hs). exists k. cbn in Hk. lia.
    - cbn. apply words_cons. split; [|by intros i w]. rewrite Hm. destruct Hs.
      apply words_cons in sw_args0 as [Hret _]. rewrite lookup_insert_ne, put_words_other.
      + rewrite <-Hret. f_equal. lia.
      + intros (k & Hk & E). cbn in Hk. lia.
      + intros ->. apply sw_old_apart0. exists 4%nat. lia. }
  split_and!; try done.
  - by rewrite Hm, lookup_insert_eq.
  - intros a Ha Hn. rewrite Hm, lookup_insert_ne by done. by apply put_words_other.
  - intros s2 sp2 ret2 old2 c2 Hkeep H2. pose proof (sw_new _ _ _ _ _ _ H2) as Hc.
    eapply words_agree in Hw; [|by intros a; apply Hkeep]. eapply wp_mono; [by apply swtch_spec|].
    intros [] s3 (Hpc3 & Hr3 & Hsp3 & _).
    assert (c2 = saved_regs s ret) as ->; [|split_and!; [by rewrite Hpc3|by rewrite <-Hr3|lia]].
    by eapply context_words_inj.
Qed.

End Swtch.

(** ** Traps *)

(** [struct trapframe] in memory. *)
Definition tf_words (tf : trapframe) : list Z :=
  [tf_edi tf; tf_esi tf; tf_ebp tf; tf_oesp tf; tf_ebx tf; tf_edx tf; tf_ecx tf; tf_eax tf; tf_gs tf; tf_fs tf;
   tf_es tf; tf_ds tf; tf_trapno tf; tf_err tf; tf_eip tf; tf_cs tf; tf_eflags tf; tf_esp tf; tf_ss tf].
(** A trap from the kernel has no [esp] and [ss]. *)
Definition frame_words (user : bool) (tf : trapframe) : list Z := if user then tf_words tf else take 17 (tf_words tf).
Definition frame_size (user : bool) : Z := if user then 76 else 68.

(** The registers of [u] as a trap frame; [oesp] is the stack pointer that
    [pushal] finds. *)
Definition frame (u : x86) (n err oesp : Z) : trapframe :=
  mk_tf (x_reg u EDI) (x_reg u ESI) (x_reg u EBP) oesp (x_reg u EBX) (x_reg u EDX) (x_reg u ECX) (x_reg u EAX)
    (x_seg u GS) (x_seg u FS) (x_seg u ES) (x_seg u DS) n err (x_pc u) (x_seg u CS) (x_flags u) (x_reg u ESP) (x_seg u SS).

Definition vector_table `{Image} : list Z := (λ i, sym (vname i)) <$> seqZ 0 256.

(** The processor when trap [n] comes: in user mode or in the kernel, with the
    table of [tvinit] and [top] the stack that the trap will use, which has
    room for the frame and the call of [trap]. *)
Record trapped `{Image} (u : x86) (user : bool) (n top : Z) : Prop := {
  tr_mode : Z.land (x_seg u CS) 3 = if user then 3 else 0;
  tr_idt : x_idt u = tvinit vector_table;
  tr_n : 0 ≤ n < 256;
  tr_top : top = if user then ts_esp0 (x_tss u) else x_reg u ESP;
  tr_range : 84 ≤ top < 2 ^ 32;
  tr_room : mapped (x_mem u) (top - 84) 21;
  tr_vec : 0 ≤ sym (vname n) < 2 ^ 32;
}.

Lemma low_half x v : u16 (u16 (Z.shiftl x 16 + v mod 2 ^ 16)) = v mod 2 ^ 16.
Proof.
  unfold u16. rewrite Z.shiftl_mul_pow2 by lia. rewrite Z.mod_mod by lia.
  rewrite Z.add_comm, Z_mod_plus_full. by rewrite Z.mod_mod by lia.
Qed.

Lemma gate_offset off : Z.land off 0xffff + 2 ^ 16 * Z.shiftr off 16 = off.
Proof. rewrite Z.shiftr_div_pow2 by lia. change 0xffff with (Z.ones 16). rewrite Z.land_ones by lia. rewrite Z.add_comm. symmetry. by apply Z.div_mod. Qed.

Lemma vector_table_lookup `{Image} n : 0 ≤ n < 256 → vector_table !! Z.to_nat n = Some (sym (vname n)).
Proof. intros Hn. unfold vector_table. rewrite list_lookup_fmap, lookup_seqZ_lt by lia. cbn. by rewrite Z2Nat.id by lia. Qed.

Lemma tvinit_gate `{Image} n : 0 ≤ n < 256 → ∃ g, tvinit vector_table !! Z.to_nat n = Some g ∧
  g_p g = 1 ∧ g_cs g = Z.shiftl SEG_KCODE 3 ∧ g_dpl g = (if n =? T_SYSCALL then DPL_USER else 0) ∧
  g_off_15_0 g + 2 ^ 16 * g_off_31_16 g = sym (vname n).
Proof.
  intros Hn. pose proof (vector_table_lookup n Hn) as Hv. unfold tvinit.
  destruct (Z.eqb_spec n T_SYSCALL) as [->|Hne].
  - rewrite list_lookup_insert_eq by (rewrite length_fmap, length_take; unfold vector_table; rewrite length_fmap, length_seqZ; lia).
    eexists. split; [done|]. cbn [SETGATE g_p g_cs g_dpl g_off_15_0 g_off_31_16]. split_and!; [done..|].
    rewrite gate_offset. by apply list_lookup_total_correct.
  - rewrite list_lookup_insert_ne by lia. rewrite list_lookup_fmap, lookup_take_lt by lia. rewrite Hv. cbn.
    eexists. split; [done|]. split_and!; [done..|apply gate_offset].
Qed.

(** What the processor pushes. *)
Definition hw_words (user : bool) (u : x86) : list Z :=
  [x_pc u; x_seg u CS; x_flags u] ++ (if user then [x_reg u ESP; x_seg u SS] else []).

(** On the way to [trap]: the words [l] are on the stack, the other registers
    are as they were. *)
Record entering (u : x86) (top : Z) (l : list Z) (s : x86) : Prop := {
  en_stack : pushed s (x_mem u) top l;
  en_regs : ∀ r, r ≠ ESP → x_reg s r = x_reg u r;
  en_segs : ∀ r, r ≠ CS → r ≠ SS → x_seg s r = x_seg u r;
  en_cs : x_seg s CS = Z.shiftl SEG_KCODE 3;
  en_cr : x_cr s = x_cr u;
}.

Section Traps.
Context `{ImageOk} (Htrap : linked trapasm) (Hvec : linked vectors_S).
#[local] Set Default Proof Using "All".
Implicit Types (u s : x86) (user : bool) (n top : Z).

(** The part of a trap that both modes share. *)
Lemma enter_gate_spec u user n top g err l s : trapped u user n top →
  (length l ≤ 2)%nat → pushed s (x_mem u) top l → x_pc s = x_pc u → x_flags s = x_flags u → x_seg s CS = x_seg u CS →
  (∀ r, r ≠ ESP → x_reg s r = x_reg u r) → (∀ r, r ≠ CS → r ≠ SS → x_seg s r = x_seg u r) → x_cr s = x_cr u →
  g_cs g = Z.shiftl SEG_KCODE 3 →
  wp (enter_gate g err) (λ _ s', x_pc s' = g_off_15_0 g + 2 ^ 16 * g_off_31_16 g ∧
    entering u top ((match err with Some e => [e] | None => [] end) ++ [x_pc u; x_seg u CS; x_flags u] ++ l) s') s.
Proof.
  intros [] Hl [Hsp Hm] Hpc Hfl Hcs Hr Hsg Hcr Hg. unfold enter_gate. x_steps. rewrite Hfl.
  x_push (x_mem u) top 21%nat l. rewrite Hcs.
  x_push (x_mem u) top 21%nat (x_flags u :: l). rewrite Hpc.
  x_push (x_mem u) top 21%nat (x_seg u CS :: x_flags u :: l). rewrite Hg.
  eapply (wp_mono _ (λ _ s', pushed s' (x_mem u) top
    ((match err with Some e => [e] | None => [] end) ++ [x_pc u; x_seg u CS; x_flags u] ++ l) ∧
    x_cr s' = x_cr s ∧ x_seg s' = x_seg s ∧ ∀ r, r ≠ ESP → x_reg s' r = x_reg s r)).
  - destruct err as [e|]; [x_push (x_mem u) top 21%nat (x_pc u :: x_seg u CS :: x_flags u :: l)|x_steps];
      (split_and!; x_simpl; [split; x_simpl; [cbn; lia|done]|done|done|by intros []]).
  - intros [] s' (Hp' & Hcr' & Hsg' & Hr'). x_steps.
    destruct (g_type g =? STS_IG32); cbn [when]; unfold clear_if; x_steps;
      (split; [done|split; x_simpl; [done| | |done|congruence]]).
    1,3: intros r Hne; rewrite Hr' by done; by apply Hr.
    all: intros r Hc Hs'; rewrite <-Hsg by done; rewrite Hsg'; by destruct r.
Qed.

Lemma deliver_spec u user n top err soft : trapped u user n top → soft = false ∨ user = false ∨ n = T_SYSCALL →
  wp (deliver n err soft) (λ _ s, x_pc s = sym (vname n) ∧
    entering u top ((match err with Some e => [e] | None => [] end) ++ hw_words user u) s) u.
Proof.
  intros Hu Hsoft. pose proof Hu as []. destruct (tvinit_gate n tr_n0) as (g & Hg & Hp & Hcs & Hdpl & Hoff).
  unfold deliver, cpl. x_steps. rewrite tr_idt0, Hg. x_steps. rewrite tr_mode0, Hp, Hcs.
  replace (soft && (g_dpl g <? (if user then 3 else 0)) || negb (1 =? 1)) with false.
  2: { symmetry. rewrite orb_false_r. apply andb_false_iff. destruct Hsoft as [->|[->| ->]]; [by left|right..].
       - rewrite Hdpl. by destruct (n =? _).
       - rewrite Hdpl. by destruct user. }
  change (Z.land (Z.shiftl SEG_KCODE 3) 3) with 0. unfold mapped in *. rewrite <-Hoff.
  destruct user; cbn [Z.ltb Z.compare when]; x_steps.
  - x_push (x_mem u) top 21%nat (@nil Z). x_push (x_mem u) top 21%nat [x_seg u SS].
    apply (enter_gate_spec u true n top g err [x_reg u ESP; x_seg u SS]); try done; [by intros []|by intros []].
  - apply (enter_gate_spec u false n top g err []); try done; [cbn; lia|]. split; [cbn; lia|done].
Qed.

(** The stub of the trap: a zero where the processor pushes no error code, and
    the number. *)
Lemma vector_spec u user n top err s : trapped u user n top → has_err n = bool_decide (is_Some err) →
  x_pc s = sym (vname n) → entering u top ((match err with Some e => [e] | None => [] end) ++ hw_words user u) s →
  wp (steps (if has_err n then 2 else 3)) (λ _ s', x_pc s' = sym "alltraps" ∧
    entering u top (n :: default 0 err :: hw_words user u) s') s.
Proof.
  intros [] Herr Hpc [Hst Hr Hsg Hcs Hcr]. destruct (linked_vector n Hvec tr_n0) as (b & Hb & Hl).
  assert (x_pc s = im_addr b) as Hpc'.
  { rewrite Hpc, (Hl (vname n) 0%nat); [f_equal; lia|]. unfold vector. cbn [app label]. by rewrite String.eqb_refl. }
  assert (length (hw_words user u) ≤ 5)%nat as Hlen by (unfold hw_words; destruct user; cbn; lia).
  destruct Hst as [Hsp Hm]. unfold vector in Hb. cbn [app] in Hb. set (hw := hw_words user u) in *.
  destruct err as [e|]; cbn [is_Some] in Herr; rewrite ?bool_decide_true in Herr by eauto;
    rewrite ?bool_decide_false in Herr by (by intros [? [=]]); rewrite Herr in Hb |- *;
    cbn [negb app instrs] in Hb; cbn [app] in Hsp, Hm.
  - apply (wp_block b [Pushl (Imm n); Jmp "alltraps"]); [done..|]. x_steps.
    x_push (x_mem u) top 21%nat (e :: hw). split; [done|]. split; x_simpl; try done.
    intros r Hne. rewrite ?rset_esp by done. by apply Hr.
  - apply (wp_block b [Pushl (Imm 0); Pushl (Imm n); Jmp "alltraps"]); [done..|]. x_steps.
    x_push (x_mem u) top 21%nat hw. x_push (x_mem u) top 21%nat (0 :: hw).
    split; [done|]. split; x_simpl; try done.
    intros r Hne. rewrite ?rset_esp by done. by apply Hr.
Qed.

(** The frame and the call of [trap]. *)
Record calls_trap (u : x86) (user : bool) (n err top : Z) (s : x86) : Prop := {
  ct_pc : x_pc s = sym "trap";
  ct_sp : x_reg s ESP = top - frame_size user - 8;
  ct_ret : ∃ k, x_mem s !! (top - frame_size user - 8) = Some (im_addr k) ∧ sym "trapret" = im_addr (S k) ∧
    instrs im_text !! k = Some (Addl 4 ESP);
  ct_arg : x_mem s !! (top - frame_size user - 4) = Some (top - frame_size user);
  ct_frame : words (x_mem s) (top - frame_size user)
    (frame_words user (frame u n err (top - frame_size user + 32)));
  ct_other : ∀ a, ¬ at_word (top - 84) 21 a → x_mem s !! a = x_mem u !! a;
  ct_segs : x_seg s CS = Z.shiftl SEG_KCODE 3 ∧ x_seg s DS = Z.shiftl SEG_KDATA 3 ∧ x_seg s ES = Z.shiftl SEG_KDATA 3 ∧
    x_seg s FS = Z.shiftl SEG_KCPU 3 ∧ x_seg s GS = Z.shiftl SEG_KCPU 3;
  ct_cr : x_cr s = x_cr u;
}.

Lemma alltraps_spec u user n top err s : trapped u user n top →
  x_pc s = sym "alltraps" → entering u top (n :: err :: hw_words user u) s →
  wp (steps 13) (λ _ s', calls_trap u user n err top s') s.
Proof.
  intros [] Hpc [[Hsp Hm] Hr Hsg Hcs Hcr]. destruct Htrap as (b & Hb & Hl).
  assert (length (hw_words user u) ≤ 5)%nat as Hlen by (unfold hw_words; destruct user; cbn; lia).
  set (w := n :: err :: hw_words user u) in *. assert (length w ≤ 7)%nat as Hw by (unfold w; cbn [length]; lia).
  apply (wp_block b (take 13 (instrs trapasm))).
  { intros j i Hj. apply Hb. rewrite lookup_take_Some in Hj. tauto. }
  { done. }
  { rewrite Hpc, (Hl "alltraps" 0%nat); [f_equal; lia|done]. }
  cbn [trapasm instrs take]. x_steps.
  x_push (x_mem u) top 21%nat w.
  x_push (x_mem u) top 21%nat (x_seg s DS :: w).
  x_push (x_mem u) top 21%nat (x_seg s ES :: x_seg s DS :: w).
  x_push (x_mem u) top 21%nat (x_seg s FS :: x_seg s ES :: x_seg s DS :: w).
  set (w1 := x_seg s GS :: _). assert (length w1 = 4 + length w)%nat as Hw1 by done.
  apply (wp_pushal (x_mem u) top 21%nat w1); [lia|done|by split|lia|].
  intros s1 [Hsp1 Hm1] _ (Hsg1 & Hcr1 & _). set (gp := gp_words _) in Hsp1, Hm1.
  assert (gp = gp_words (rset reg_eqb ESP (top - 4 * Z.of_nat (length w1)) (x_reg u))) as Hgp.
  { unfold gp, gp_words. x_simpl. by rewrite !Hr. }
  clearbody gp. assert (length (gp ++ w1) = 12 + length w)%nat as Hlgp by (rewrite Hgp, length_app, Hw1; done).
  x_simpl. x_steps. x_push (x_mem u) top 21%nat (gp ++ w1). x_push (x_mem u) top 21%nat (x_reg s1 ESP :: gp ++ w1).
  assert (gp ++ w1 = frame_words user (frame u n err (top - frame_size user + 32))) as Hfw.
  { assert (top - 4 * Z.of_nat (length w1) = top - frame_size user + 32) as E.
    { unfold w1, w, hw_words, frame_size. destruct user; cbn [length app]; lia. }
    rewrite Hgp, E. unfold w1, w. rewrite !Hsg by done. by destruct user. }
  assert (Z.of_nat (length (gp ++ w1)) * 4 = frame_size user) as Hfs by (rewrite Hfw; by destruct user).
  rewrite Hfw in *. clear Hfw Hgp. set (fw := frame_words _ _) in *. rewrite Hsp1.
  set (ret := im_addr _). set (full := ret :: _).
  assert (top - 4 * Z.of_nat (length full) = top - frame_size user - 8) as -> by (unfold full; cbn [length]; lia).
  pose proof (words_put (top - frame_size user - 8) full (x_mem u)) as Hput.
  apply words_cons in Hput as [Hret [Harg Hfr]%words_cons].
  split; x_simpl; try done.
  - exists (b + 13)%nat. split_and!; [rewrite Hret; unfold ret; do 2 f_equal; lia| |by apply Hb].
    rewrite (Hl "trapret" 14%nat) by done. f_equal. lia.
  - replace (top - frame_size user - 4) with (top - frame_size user - 8 + 4) by lia. rewrite Harg. f_equal. lia.
  - by replace (top - frame_size user) with (top - frame_size user - 8 + 4 + 4) at 2 by lia.
  - intros a Ha. apply put_words_other. intros (k & Hk & ->). apply Ha. exists (k + (21 - length full))%nat.
    assert (length full ≤ 21)%nat by (unfold full; cbn [length]; lia). split; [lia|].
    unfold full in *. cbn [length] in *. lia.
  - rewrite !low_half. split_and!; try done. by rewrite Hsg1.
  - rewrite Hcr1. x_simpl. done.
Qed.

(** The processor runs with the registers of the frame [tf], which was at [a]. *)
Record restored (user : bool) (tf : trapframe) (a : Z) (s s' : x86) : Prop := {
  re_pc : x_pc s' = tf_eip tf;
  re_regs : gp_words (rset reg_eqb ESP (tf_oesp tf) (x_reg s')) = take 8 (tf_words tf);
  re_esp : x_reg s' ESP = if user then tf_esp tf else a + 68;
  re_segs : [x_seg s' GS; x_seg s' FS; x_seg s' ES; x_seg s' DS; x_seg s' CS; x_seg s' SS] =
    [tf_gs tf; tf_fs tf; tf_es tf; tf_ds tf; tf_cs tf; if user then tf_ss tf else x_seg s SS];
  re_flags : x_flags s' = tf_eflags tf;
  re_mem : x_mem s' = x_mem s;
  re_cr : x_cr s' = x_cr s;
}.

(** The segment fields are 16 bits wide, and [cs] is a segment of the mode. *)
Definition tf_ok (user : bool) (tf : trapframe) : Prop :=
  Forall (λ v, 0 ≤ v < 2 ^ 16) [tf_gs tf; tf_fs tf; tf_es tf; tf_ds tf; tf_cs tf; tf_ss tf] ∧
  Z.land (tf_cs tf) 3 = if user then 3 else 0.

Lemma trapret_spec user tf a s :
  tf_ok user tf → x_pc s = sym "trapret" → x_reg s ESP = a → 0 ≤ a < 2 ^ 32 - frame_size user →
  words (x_mem s) a (frame_words user tf) → Z.land (x_seg s CS) 3 = 0 →
  wp (steps 7) (λ _ s', restored user tf a s s') s.
Proof using H0 Htrap.
  intros [Hseg Hcs] Hpc Hsp Ha Hw Hcpl. destruct Htrap as (b & Hb & Hl).
  assert (frame_size user = if user then 76 else 68) as Hfs by done.
  assert (0 ≤ a < 2 ^ 32 - 68) as Ha' by (destruct user; lia).
  repeat (apply Forall_cons in Hseg as [? Hseg]).
  apply (wp_block (b + 14) (drop 14 (instrs trapasm))).
  { intros j i Hj. rewrite lookup_drop in Hj. rewrite <-Nat.add_assoc. by apply Hb. }
  { done. }
  { rewrite Hpc. by rewrite (Hl "trapret" 14%nat). }
  cbn [trapasm instrs drop]. x_steps.
  assert (frame_words user tf = take 8 (tf_words tf) ++ drop 8 (frame_words user tf)) as E by (by destruct user).
  rewrite E, words_app in Hw. destruct Hw as [Hgp Hw].
  apply (wp_popal a (take 8 (tf_words tf))); [done|lia|done|done|]. intros s1 Hr1 Hsp1 Hm1 (Hsg1 & Hcr1 & _).
  change (x_mem s1 = x_mem s) in Hm1. change (x_seg s1 = x_seg s) in Hsg1. change (x_cr s1 = x_cr s) in Hcr1.
  assert (∀ i w c, drop 8 (frame_words user tf) !! i = Some w → c = a + 32 + 4 * Z.of_nat i → x_mem s1 !! c = Some w) as L.
  { intros i w c Hi ->. rewrite Hm1. by apply Hw. }
  x_steps. apply (wp_pop (a + 32) (tf_gs tf)); [done|lia|apply (L 0%nat); [by destruct user|lia]|]. x_steps.
  apply (wp_pop (a + 36) (tf_fs tf)); [x_simpl; lia|lia|apply (L 1%nat); [by destruct user|lia]|]. x_steps.
  apply (wp_pop (a + 40) (tf_es tf)); [x_simpl; lia|lia|apply (L 2%nat); [by destruct user|lia]|]. x_steps.
  apply (wp_pop (a + 44) (tf_ds tf)); [x_simpl; lia|lia|apply (L 3%nat); [by destruct user|lia]|]. x_steps.
  rewrite u32_small by lia. unfold iret, cpl. x_steps. rewrite Hsg1, Hcpl.
  apply (wp_pop (a + 56) (tf_eip tf)); [x_simpl; lia|lia|apply (L 6%nat); [by destruct user|lia]|]. x_steps.
  apply (wp_pop (a + 60) (tf_cs tf)); [x_simpl; lia|lia|apply (L 7%nat); [by destruct user|lia]|]. x_steps.
  apply (wp_pop (a + 64) (tf_eflags tf)); [x_simpl; lia|lia|apply (L 8%nat); [by destruct user|lia]|]. x_steps.
  rewrite Hcs. destruct user; cbn [Z.ltb Z.compare when]; x_steps.
  - apply (wp_pop (a + 68) (tf_esp tf)); [x_simpl; lia|lia|apply (L 9%nat); [done|lia]|]. x_steps.
    apply (wp_pop (a + 72) (tf_ss tf)); [x_simpl; lia|lia|apply (L 10%nat); [done|lia]|]. x_steps.
    split; x_simpl; try done. unfold u16. by rewrite !Z.mod_small by lia.
  - split; x_simpl; try done; [lia|]. unfold u16. by rewrite !Z.mod_small by lia.
Qed.

(** [trap], called in [s1], returns in [s2] with the frame at [a] being [tf]. *)
Record trap_returns (s1 s2 : x86) (user : bool) (a : Z) (tf : trapframe) : Prop := {
  rt_pc : x_mem s1 !! x_reg s1 ESP = Some (x_pc s2);
  rt_sp : x_reg s2 ESP = x_reg s1 ESP + 4;
  rt_cs : x_seg s2 CS = x_seg s1 CS;
  rt_frame : words (x_mem s2) a (frame_words user tf);
  rt_ok : tf_ok user tf;
}.

Lemma trap_entry u user n top err soft : trapped u user n top → has_err n = bool_decide (is_Some err) →
  soft = false ∨ user = false ∨ n = T_SYSCALL →
  wp (deliver n err soft;; steps ((if has_err n then 2 else 3) + 13)) (λ _ s, calls_trap u user n (default 0 err) top s) u.
Proof.
  intros Hu Herr Hsoft. apply wp_bind. eapply wp_mono; [by apply deliver_spec|]. intros [] s [Hpc Hen].
  apply steps_plus. eapply wp_mono; [by eapply vector_spec|]. intros [] s1 [Hpc1 Hen1]. by apply alltraps_spec.
Qed.

Lemma trap_exit u user n top err s1 s2 tf : trapped u user n top → calls_trap u user n err top s1 →
  trap_returns s1 s2 user (top - frame_size user) tf →
  wp (steps 8) (λ _ s3, restored user tf (top - frame_size user) s2 s3) s2.
Proof.
  intros [] [] []. destruct ct_ret0 as (k & Hk & Hret & Hi). destruct ct_segs0 as [Hcs _].
  assert (x_pc s2 = im_addr k) as Hpc by congruence. assert (frame_size user ≤ 76) as Hfs by (by destruct user).
  assert (0 < frame_size user) as Hfs0 by (by destruct user).
  apply steps_S. eapply wp_step_at; [done|done|]. x_steps.
  rewrite rt_sp0, ct_sp0, u32_small by lia. eapply wp_mono.
  - apply (trapret_spec user tf (top - frame_size user)); x_simpl; [done|done|lia|lia|done|]. by rewrite rt_cs0, Hcs.
  - intros [] s3 []. by split.
Qed.

(** The registers of [u], except for the stack segment in the kernel. *)
Definition same_regs (user : bool) (u s : x86) : Prop :=
  x_pc s = x_pc u ∧ x_flags s = x_flags u ∧ (∀ r, x_reg s r = x_reg u r) ∧
  (∀ r, user = true ∨ r ≠ SS → x_seg s r = x_seg u r).

Definition segs_ok (u : x86) : Prop := ∀ r, 0 ≤ x_seg u r < 2 ^ 16.

Lemma frame_ok u user n top err oesp : trapped u user n top → segs_ok u → tf_ok user (frame u n err oesp).
Proof. intros [] Hs. split; [|done]. repeat constructor; apply Hs. Qed.

Lemma restored_same u user n top err s2 s3 : trapped u user n top →
  restored user (frame u n err (top - frame_size user + 32)) (top - frame_size user) s2 s3 → same_regs user u s3.
Proof.
  intros [] []. cbn in re_segs0. injection re_segs0 as Hgs Hfs Hes Hds Hcs Hss.
  cbn in re_regs0. injection re_regs0 as Hdi Hsi Hbp Hbx Hdx Hcx Hax.
  split_and!; [done|done| |].
  - intros []; try done. rewrite re_esp0. destruct user; [done|]. cbn [frame_size]. lia.
  - intros [] Hr; try done. destruct Hr as [->|]; done.
Qed.

(** C19: Traps keep the registers.  When interrupt or exception [n] comes, in
    user mode or in the kernel, the stub of vectors.pl and trapasm.S call
    [trap] with a pointer to a [struct trapframe] that holds all registers of
    the interrupted code, the number and the error code (zero where the
    processor has none), with the kernel's segments, and change no memory but
    that stack.  When [trap] returns with the frame [tf], the processor goes on
    with the registers [tf] says; if it left the frame alone, the interrupted
    code goes on as if nothing had happened. *)
Theorem trap_round_trip u user n top err :
  trapped u user n top → segs_ok u → has_err n = bool_decide (is_Some err) →
  let tf0 := frame u n (default 0 err) (top - frame_size user + 32) in let a := top - frame_size user in
  wp (deliver n err false;; steps ((if has_err n then 2 else 3) + 13)) (λ _ s1,
    calls_trap u user n (default 0 err) top s1 ∧
    (∀ s2 tf, trap_returns s1 s2 user a tf → wp (steps 8) (λ _ s3, restored user tf a s2 s3) s2) ∧
    ∀ s2, trap_returns s1 s2 user a tf0 → wp (steps 8) (λ _ s3, same_regs user u s3 ∧ x_mem s3 = x_mem s2) s2) u.
Proof.
  intros Hu Hs Herr tf0 a. eapply wp_mono; [by apply (trap_entry u user n top); auto|].
  intros [] s1 H1. split_and!; [done| |].
  - intros s2 tf H2. by eapply trap_exit.
  - intros s2 H2. eapply wp_mono; [by eapply trap_exit|]. intros [] s3 H3. split; [|apply H3].
    by eapply restored_same.
Qed.

(** ** System calls *)

Lemma int_spec u k top : instrs im_text !! k = Some (Int T_SYSCALL) → x_pc u = im_addr k → trapped u true T_SYSCALL top →
  wp (steps 17) (λ _ s, calls_trap (set_pc (im_addr (S k)) u) true T_SYSCALL 0 top s) u.
Proof.
  intros Hk Hpc Hu. apply (steps_S 16). eapply wp_step_at; [exact Hk|done|]. cbn [exec]. set (u' := set_pc _ u).
  assert (trapped u' true T_SYSCALL top) as Hu' by (destruct Hu; by split).
  pose proof (trap_entry u' true T_SYSCALL top None true Hu' eq_refl (or_intror (or_intror eq_refl))) as He.
  apply wp_bind_inv in He. exact He.
Qed.

(** The first user code: the stack of [initcode] holds the arguments of
    [exec(init, argv)] where [argint] looks for them. *)
Lemma initcode_execs u top :
  linked initcode → trapped u true T_SYSCALL top → x_pc u = sym "start" → x_reg u ESP = PGSIZE →
  mapped (x_mem u) (PGSIZE - 12) 3 → (∀ a, at_word (PGSIZE - 12) 3 a → ¬ at_word (top - 84) 21 a) →
  wp (steps 21) (λ _ s, ∃ u', calls_trap u' true T_SYSCALL 0 top s ∧ x_reg u' EAX = number "exec" SYS ∧
    words (x_mem s) (x_reg u' ESP) [0; u32 (sym "init"); u32 (sym "argv")]) u.
Proof.
  intros (b & Hb & Hl) Hu Hpc Hsp Hmap Hap. apply (steps_plus 4 17).
  apply (wp_block b (take 4 (instrs initcode))).
  { intros j i Hj. apply Hb. rewrite lookup_take_Some in Hj. tauto. }
  { done. }
  { rewrite Hpc, (Hl "start" 0%nat); [f_equal; lia|done]. }
  cbn [initcode instrs take]. x_steps. rewrite Z.add_0_r.
  x_push (x_mem u) 4096 3%nat (@nil Z). rewrite Z.add_0_r.
  x_push (x_mem u) 4096 3%nat [u32 (sym "argv")].
  x_push (x_mem u) 4096 3%nat [u32 (sym "init"); u32 (sym "argv")].
  set (u1 := set_regs _ _). eapply wp_mono; [apply (int_spec u1 (b + 4) top); [by apply Hb|unfold u1; x_simpl; f_equal; lia|]|].
  - destruct Hu. split; try done. intros a Ha. apply put_words_mapped. by apply tr_room0.
  - intros [] s1 H1. eexists. split; [exact H1|]. split; [done|].
    assert (words (x_mem u1) (PGSIZE - 12) [0; u32 (sym "init"); u32 (sym "argv")]) as Hw by apply words_put.
    eapply words_agree; [exact Hw|]. intros a Ha. by apply (ct_other _ _ _ _ _ _ H1), Hap.
Qed.

Context (Husys : linked usys).

Lemma linked_stub name : name ∈ sys_names → linked (SYSCALL name).
Proof.
  intros (l1 & l2 & E)%list_elem_of_split. apply (linked_part (l1 ≫= SYSCALL) _ (l2 ≫= SYSCALL)).
  - unfold usys in Husys. rewrite E, bind_app, bind_cons in Husys. done.
  - intros l [k Hk]. assert (l = name) as -> by (cbn in Hk; by destruct (String.eqb_spec l name)).
    assert (name ∉ l1) as Hn.
    { assert (NoDup sys_names) as Hd by (by apply (bool_decide_unpack _)). rewrite E in Hd.
      apply NoDup_app in Hd as (_ & Hd & _). intros Hin. apply (Hd name Hin). by left. }
    clear E Hk. induction l1 as [|x l1 IH]; [done|]. cbn [mbind list_bind]. rewrite label_app.
    rewrite not_elem_of_cons in Hn. destruct Hn as [Hx Hn].
    assert (label name (SYSCALL x) 0 = None) as -> by (cbn; by destruct (String.eqb_spec name x)).
    rewrite label_shift, IH by done. done.
Qed.

(** The calling convention of system calls.  A user program calls a stub of
    usys.S, [ret] being the return address on its stack: [trap] is called with
    a frame in which [eax] is the number of the call in syscall.h and [esp]
    points to the return address, below the arguments.  When [trap] returns
    the processor goes on with the registers of the frame; if only the frame's
    [eax] has changed, to [v], the stub returns to [ret] with [v] in [eax] and
    all other registers as they were. *)
Lemma stub_spec name u top ret :
  name ∈ sys_names → trapped u true T_SYSCALL top → segs_ok u → x_pc u = sym name →
  0 ≤ x_reg u ESP < 2 ^ 32 - 4 →
  wp (steps 18) (λ _ s1, ∃ tf,
    words (x_mem s1) (top - 76) (tf_words tf) ∧ x_mem s1 !! (x_reg s1 ESP + 4) = Some (top - 76) ∧ x_pc s1 = sym "trap" ∧
    tf_trapno tf = T_SYSCALL ∧ tf_eax tf = number name SYS ∧ tf_esp tf = x_reg u ESP ∧
    (∀ s2 tf', trap_returns s1 s2 true (top - 76) tf' → wp (steps 8) (λ _ s3, restored true tf' (top - 76) s2 s3) s2) ∧
    ∀ s2 v, trap_returns s1 s2 true (top - 76) (with_tf_eax v tf) → x_mem s2 !! x_reg u ESP = Some ret →
      wp (steps 9) (λ _ s3, x_pc s3 = ret ∧ x_reg s3 EAX = v ∧ x_reg s3 ESP = x_reg u ESP + 4 ∧
        (∀ r, r ≠ EAX → r ≠ ESP → x_reg s3 r = x_reg u r) ∧ (∀ r, x_seg s3 r = x_seg u r) ∧
        x_flags s3 = x_flags u ∧ x_mem s3 = x_mem s2) s2) u.
Proof.
  intros Hname Hu Hs Hpc Hsp. destruct (linked_stub name Hname) as (b & Hb & Hl).
  destruct (block_cons _ _ _ Hb) as [Hi0 [Hi1 [Hi2 _]%block_cons]%block_cons].
  assert (x_pc u = im_addr b) as Hpc'.
  { rewrite Hpc, (Hl name 0%nat); [f_equal; lia|]. cbn. by rewrite String.eqb_refl. }
  apply (steps_S 17). eapply wp_step_at; [exact Hi0|exact Hpc'|]. x_steps.
  set (u1 := set_regs _ _). set (u2 := set_pc (im_addr (S (S b))) u1).
  assert (trapped u1 true T_SYSCALL top) as Hu1 by (destruct Hu; by split).
  assert (trapped u2 true T_SYSCALL top) as Hu2 by (destruct Hu; by split).
  eapply wp_mono; [by apply (int_spec u1 (S b) top)|].
  intros [] s1 H1. exists (frame u2 T_SYSCALL 0 (top - 76 + 32)). pose proof H1 as [].
  split_and!; try done.
  { rewrite ct_sp0. replace (top - frame_size true - 8 + 4) with (top - frame_size true - 4) by lia. exact ct_arg0. }
  { intros s2 tf' H2. by eapply (trap_exit u2). }
  intros s2 v H2 Hret. apply (steps_plus 8 1). eapply wp_mono; [by eapply (trap_exit u2)|].
  intros [] s3 []. cbn in re_segs0. injection re_segs0 as Hgs Hfs Hes Hds Hcs Hss.
  cbn in re_regs0. injection re_regs0 as Hdi Hsi Hbp Hbx Hdx Hcx Hax.
  apply steps_S. eapply wp_step_at; [exact Hi2|by rewrite re_pc0|]. x_steps. change (x_reg s3 ESP = x_reg u ESP) in re_esp0.
  apply (wp_pop (x_reg u ESP) ret); [x_simpl; lia|lia|x_simpl; by rewrite re_mem0|]. x_steps. apply wp_ret. x_simpl.
  split_and!; try done.
  - by intros [].
  - by intros [].
Qed.

End Traps.

(** ** A new process *)

(** What [allocproc] writes to the kernel stack at [kstack]: below the room for
    the trap frame the address of [trapret], and below that a context that
    starts at [forkret]. *)
Definition alloc_stack `{Image} (kstack : Z) (m : gmap Z Z) : gmap Z Z :=
  let sp := kstack + KSTACKSIZE in
  let sp := sp - 76 in
  let sp := sp - 4 in
  let m := <[sp:=sym "trapret"]> m in
  let sp := sp - 20 in
  put_words sp (context_words (mk_context 0 0 0 0 (sym "forkret"))) m.

(** Its stack once the frame [tf] has been filled in. *)
Definition new_stack `{Image} (kstack : Z) (tf : trapframe) (m : gmap Z Z) : gmap Z Z :=
  put_words (kstack + KSTACKSIZE - 76) (tf_words tf) (alloc_stack kstack m).

Lemma new_stack_words `{Image} kstack tf m :
  words (new_stack kstack tf m) (kstack + KSTACKSIZE - 100)
    (context_words (mk_context 0 0 0 0 (sym "forkret")) ++ sym "trapret" :: tf_words tf).
Proof.
  unfold new_stack, alloc_stack. apply words_app. split; [|apply words_cons; split].
  - replace (kstack + KSTACKSIZE - 76 - 4 - 20) with (kstack + KSTACKSIZE - 100) by lia.
    eapply words_agree; [apply words_put|]. intros a (k & Hk & ->). apply put_words_other. intros (j & Hj & E). cbn in Hk. lia.
  - cbn [length context_words]. rewrite !put_words_other.
    + replace (kstack + KSTACKSIZE - 100 + 4 * Z.of_nat 5) with (kstack + KSTACKSIZE - 76 - 4) by lia. apply lookup_insert_eq.
    + intros (j & Hj & E). cbn in Hj. lia.
    + intros (j & Hj & E). lia.
  - cbn [length context_words]. replace (kstack + KSTACKSIZE - 100 + 4 * Z.of_nat 5 + 4) with (kstack + KSTACKSIZE - 76) by lia.
    apply words_put.
Qed.

Section Process.
Context `{ImageOk} (Htrap : linked trapasm) (Hswtch : linked swtch).
#[local] Set Default Proof Using "All".

(** C21: A new process gets to user mode.  The kernel stack is as [allocproc]
    leaves it, with a frame [tf] filled in by [userinit] or [fork], and the
    scheduler calls [swtch] for the new context: the processor starts
    [forkret], whose return address is [trapret], and the scheduler's context
    is saved.  When [forkret] returns, having left the frame alone, the process
    runs in user mode with the registers of [tf]. *)
Theorem new_process_enters_user s sp ret old c kstack tf m :
  calls_swtch s sp ret old (kstack + KSTACKSIZE - 100) c →
  (∀ a, at_word (kstack + KSTACKSIZE - 100) 25 a → x_mem s !! a = new_stack kstack tf m !! a) →
  tf_ok true tf → kstack + KSTACKSIZE < 2 ^ 32 → Z.land (x_seg s CS) 3 = 0 →
  (∀ a, at_word (kstack + KSTACKSIZE - 80) 20 a → ¬ at_word (sp - 16) 4 a ∧ a ≠ old) →
  wp (steps 13) (λ _ s1,
    x_pc s1 = sym "forkret" ∧ x_mem s1 !! x_reg s1 ESP = Some (sym "trapret") ∧ x_mem s1 !! old = Some (sp - 16) ∧
    words (x_mem s1) (x_reg s1 ESP + 4) (tf_words tf) ∧
    ∀ s2, x_pc s2 = sym "trapret" → x_reg s2 ESP = x_reg s1 ESP + 4 → x_seg s2 CS = x_seg s1 CS →
      (∀ a, at_word (x_reg s1 ESP + 4) 19 a → x_mem s2 !! a = x_mem s1 !! a) →
      wp (steps 7) (λ _ s3, restored true tf (x_reg s2 ESP) s2 s3) s2) s.
Proof.
  intros Hs Hst Htf Hk Hcs Hap. pose proof (new_stack_words kstack tf m) as Hw.
  eapply words_agree in Hw; [|exact Hst]. apply words_app in Hw as [Hc [Hret Hfr]%words_cons].
  cbn [length context_words] in Hret, Hfr.
  assert (c = mk_context 0 0 0 0 (sym "forkret")) as ->.
  { by eapply context_words_inj; [apply (sw_new _ _ _ _ _ _ Hs)|]. }
  eapply wp_mono; [by apply swtch_spec|]. intros [] s1 (Hpc & Hr & Hsp & Hm & Hsg & _).
  assert (∀ a, at_word (kstack + KSTACKSIZE - 80) 20 a → x_mem s1 !! a = x_mem s !! a) as Hkeep.
  { intros a Ha. destruct (Hap a Ha). rewrite Hm, lookup_insert_ne by done. by apply put_words_other. }
  assert (words (x_mem s1) (kstack + KSTACKSIZE - 76) (tf_words tf)) as Hfr1.
  { replace (kstack + KSTACKSIZE - 76) with (kstack + KSTACKSIZE - 100 + 4 * Z.of_nat 5 + 4) by lia.
    eapply words_agree; [exact Hfr|]. intros a (k & Hk' & ->). apply Hkeep. exists (S k). cbn in Hk'. lia. }
  replace (x_reg s1 ESP + 4) with (kstack + KSTACKSIZE - 76) by lia. split_and!; [done| | |done|].
  - rewrite Hkeep by (exists 0%nat; lia). rewrite Hsp, <-Hret. f_equal; lia.
  - by rewrite Hm, lookup_insert_eq.
  - intros s2 Hpc2 Hsp2 Hcs2 Hm2. pose proof (sw_new_range _ _ _ _ _ _ Hs) as Hnew. apply trapret_spec; try done.
    + rewrite Hsp2. cbn [frame_size]. lia.
    + rewrite Hsp2. eapply words_agree; [exact Hfr1|done].
    + by rewrite Hcs2, Hsg.
Qed.

End Process.

(** ** Examples *)

Module AsmExample.

(** The kernel's assembly and the stubs one after the other, each instruction
    one byte long. *)
Definition ext (l : string) : Z :=
  if String.eqb l "trap" then 0x80105000 else if String.eqb l "forkret" then 0x80103000 else 0.
#[export] Instance image : Image := {|
  im_text := trapasm ++ swtch ++ usys ++ vectors_S;
  im_addr k := 0x80100000 + Z.of_nat k;
  im_sym := ext |}.
#[export] Instance image_ok : ImageOk.
Proof. intros i j _ _ E. cbn in E. lia. Qed.

Lemma no_dup : NoDup (labels im_text).
Proof. apply (bool_decide_unpack _). vm_compute. constructor. Qed.
Lemma has_trapasm : linked trapasm.
Proof. by apply (linked_file [] _ (swtch ++ usys ++ vectors_S)), no_dup. Qed.
Lemma has_swtch : linked swtch.
Proof. by apply (linked_file trapasm _ (usys ++ vectors_S)), no_dup. Qed.
Lemma has_usys : linked usys.
Proof. apply (linked_file (trapasm ++ swtch) _ vectors_S); [by rewrite <-app_assoc|apply no_dup]. Qed.
Lemma has_vectors : linked vectors_S.
Proof. apply (linked_file (trapasm ++ swtch ++ usys) _ []); [by rewrite <-!app_assoc, app_nil_r|apply no_dup]. Qed.

Definition machine (pc sp cs : Z) (m : gmap Z Z) : x86 :=
  mk_x86 (λ r, match r with ESP => sp | EBX => 11 | EBP => 12 | ESI => 13 | EDI => 14 | _ => 0 end)
    (λ r, match r with CS => cs | SS => cs + 8 | _ => 0 end) (λ _, 0) pc 0x202 (0, 0)
    (mk_ts 0x80202000 (Z.shiftl SEG_KDATA 3)) (tvinit vector_table) m [] (λ _, []).

(** A process calls [swtch(0x80300000, 0x80203000)] from a stack at 0x80202000. *)
Definition ctx : context := mk_context 1 2 3 4 0x80109000.
Definition switching : x86 :=
  machine (sym "swtch") 0x80202000 8
    (put_words 0x80201ff0 [0; 0; 0; 0; 0x80104000; 0x80300000; 0x80203000]
      (put_words 0x80203000 (context_words ctx) (put_words 0x80300000 [0] ∅))).

Ltac words_solve := repeat (apply words_cons; split; [vm_compute; reflexivity|]); by intros i w [=].

Lemma switching_calls : calls_swtch switching 0x80202000 0x80104000 0x80300000 0x80203000 ctx.
Proof.
  split; [done|done|lia|words_solve| |words_solve|lia| |eexists; vm_compute; reflexivity|lia|].
  - intros b Hb. apply (mapped_put 0x80201ff0). destruct Hb as (k & Hk & ->). exists k. cbn. lia.
  - intros b (k & Hk & ->). split; [intros (j & Hj & E)|]; lia.
  - intros (k & Hk & E). lia.
Qed.

Lemma swtch_round_trip_witness :
  wp (steps 13) (λ _ s1, x_pc s1 = 0x80109000 ∧ x_reg s1 EBX = 3 ∧ x_reg s1 ESP = 0x80203014 ∧
    x_mem s1 !! 0x80300000 = Some 0x80201ff0) switching.
Proof.
  eapply wp_mono; [apply (swtch_round_trip has_swtch switching _ _ _ _ _ switching_calls)|].
  intros [] s1 (Hpc & Hr & Hsp & Hold & _). injection Hr as Hdi Hsi Hbx Hbp. done.
Defined.

(** User code at 0x40 has a page fault; it calls [getpid]. *)
Definition kmem : gmap Z Z := put_words (0x80202000 - 84) (replicate 21 0) (put_words 0x3ff0 [0x99] ∅).
Definition faulting : x86 := machine 0x40 0x3ff0 0x23 kmem.
Definition calling : x86 := machine (sym "getpid") 0x3ff0 0x23 kmem.

Lemma kmem_mapped : mapped kmem (0x80202000 - 84) 21.
Proof. apply (mapped_put _ (replicate 21 0)). Qed.

Lemma trap_round_trip_witness :
  wp (deliver 14 (Some 6) false;; steps 15) (λ _ s1, x_pc s1 = 0x80105000 ∧ x_mem s1 !! 0x80201fb4 = Some 14 ∧
    ∀ s2, trap_returns s1 s2 true 0x80201fb4 (frame faulting 14 6 0x80201fd4) →
      wp (steps 8) (λ _ s3, x_pc s3 = 0x40 ∧ x_reg s3 EBX = 11) s2) faulting.
Proof.
  eapply wp_mono.
  - apply (trap_round_trip has_trapasm has_vectors faulting true 14 0x80202000 (Some 6)); [|by intros []|done].
    split; try done; apply kmem_mapped.
  - intros [] s1 (H1 & _ & H2). split_and!.
    + by rewrite (ct_pc _ _ _ _ _ _ H1).
    + by apply (ct_frame _ _ _ _ _ _ H1 0%nat).
    + intros s2 Hs2. eapply wp_mono; [by apply H2|]. intros [] s3 [(Hpc & _ & Hr & _) _]. by rewrite Hpc, Hr.
Defined.

(** The scheduler runs the first process, whose kernel stack is at 0x80202000. *)
Definition starting : x86 :=
  machine (sym "swtch") 0x80108000 8 (new_stack 0x80202000 init_tf
    (put_words 0x80107ff0 [0; 0; 0; 0; 0x80104000; 0x80300000; 0x80202f9c] (put_words 0x80300000 [0] ∅))).

Lemma new_process_enters_user_witness :
  wp (steps 13) (λ _ s1, x_pc s1 = 0x80103000 ∧
    ∀ s2, x_pc s2 = sym "trapret" → x_reg s2 ESP = x_reg s1 ESP + 4 → x_seg s2 CS = x_seg s1 CS → x_mem s2 = x_mem s1 →
      wp (steps 7) (λ _ s3, x_pc s3 = 0 ∧ x_reg s3 ESP = 4096 ∧ x_seg s3 CS = 0x23) s2) starting.
Proof.
  eapply wp_mono.
  - apply (new_process_enters_user has_trapasm has_swtch starting 0x80108000 0x80104000 0x80300000
      (mk_context 0 0 0 0 (sym "forkret")) 0x80202000 init_tf
      (put_words 0x80107ff0 [0; 0; 0; 0; 0x80104000; 0x80300000; 0x80202f9c] (put_words 0x80300000 [0] ∅))).
    + split; [done|done|lia|words_solve| |words_solve|lia| |eexists; vm_compute; reflexivity|lia|].
      * intros b Hb. do 2 apply put_words_mapped. apply lookup_insert_is_Some. right. split; [destruct Hb as (k & Hk & ->); lia|].
        apply (mapped_put 0x80107ff0). destruct Hb as (k & Hk & ->). exists k. cbn. lia.
      * intros b (k & Hk & ->). split; [intros (j & Hj & E)|]; lia.
      * intros (k & Hk & E). lia.
    + done.
    + split; [|done]. repeat constructor; done.
    + done.
    + done.
    + intros b (k & Hk & ->). split; [intros (j & Hj & E)|]; lia.
  - intros [] s1 (Hpc & _ & _ & _ & H2). split; [done|]. intros s2 Hpc2 Hsp2 Hcs2 Hm2.
    eapply wp_mono; [apply H2; try done; by rewrite Hm2|]. intros [] s3 [Hpc3 _ Hsp3 Hsg _ _ _].
    injection Hsg as _ _ _ _ Hcs3 _. done.
Defined.

End AsmExample.
