(* ===== verification/BootAsm.v ===== *)
(** * BootAsm: the assembly code that starts the processors

    bootasm.S, entry.S and entryother.S on the machine of X86.v, up to the
    calls of [bootmain], [main] and [mpenter]; and the descriptors that asm.h
    assembles. *)

From S2P Require Import Prelude Bytes Kernel Vm Trap X86 Asm.

Abbreviation CR0_PE := 1.
Abbreviation CR0_WP := 0x10000.
Abbreviation CR0_PG := 0x80000000.
Abbreviation CR4_PSE := 0x10.

(** ** The text *)

Definition bootasm : list item :=
  [ Lbl "start";
    I Cli;
    I (Xorw EAX EAX);
    I (Movw (Reg EAX) (Seg DS));
    I (Movw (Reg EAX) (Seg ES));
    I (Movw (Reg EAX) (Seg SS));
    Lbl "seta20.1";
    I (Inb 0x64);
    I (Testb 0x2 EAX);
    I (Jnz "seta20.1");
    I (Movb 0xd1 EAX);
    I (Outb 0x64);
    Lbl "seta20.2";
    I (Inb 0x64);
    I (Testb 0x2 EAX);
    I (Jnz "seta20.2");
    I (Movb 0xdf EAX);
    I (Outb 0x60);
    I (Lgdt "gdtdesc");
    I (Movl (Cr CR0) (Reg EAX));
    I (Orl CR0_PE EAX);
    I (Movl (Reg EAX) (Cr CR0));
    I (Ljmp (Z.shiftl SEG_KCODE 3) "start32");
    Lbl "start32";
    I (Movw (Imm (Z.shiftl SEG_KDATA 3)) (Reg EAX));
    I (Movw (Reg EAX) (Seg DS));
    I (Movw (Reg EAX) (Seg ES));
    I (Movw (Reg EAX) (Seg SS));
    I (Movw (Imm 0) (Reg EAX));
    I (Movw (Reg EAX) (Seg FS));
    I (Movw (Reg EAX) (Seg GS));
    I (Movl (Addr "start" 0) (Reg ESP));
    I (Call "bootmain");
    I (Movw (Imm 0x8a00) (Reg EAX));
    I (Movw (Reg EAX) (Reg EDX));
    I Outw;
    I (Movw (Imm 0x8ae0) (Reg EAX));
    I Outw;
    Lbl "spin";
    I (Jmp "spin") ].

Definition entry_S : list item :=
  [ Lbl "entry";
    I (Movl (Cr CR4) (Reg EAX));
    I (Orl CR4_PSE EAX);
    I (Movl (Reg EAX) (Cr CR4));
    I (Movl (Addr "entrypgdir" (- KERNBASE)) (Reg EAX));
    I (Movl (Reg EAX) (Cr CR3));
    I (Movl (Cr CR0) (Reg EAX));
    I (Orl (Z.lor CR0_PG CR0_WP) EAX);
    I (Movl (Reg EAX) (Cr CR0));
    I (Movl (Addr "stack" KSTACKSIZE) (Reg ESP));
    I (Movl (Addr "main" 0) (Reg EAX));
    I (JmpTo (Reg EAX)) ].

Definition entryother_S : list item :=
  [ Lbl "start";
    I Cli;
    I (Xorw EAX EAX);
    I (Movw (Reg EAX) (Seg DS));
    I (Movw (Reg EAX) (Seg ES));
    I (Movw (Reg EAX) (Seg SS));
    I (Lgdt "gdtdesc");
    I (Movl (Cr CR0) (Reg EAX));
    I (Orl CR0_PE EAX);
    I (Movl (Reg EAX) (Cr CR0));
    I (Ljmp (Z.shiftl SEG_KCODE 3) "start32");
    Lbl "start32";
    I (Movw (Imm (Z.shiftl SEG_KDATA 3)) (Reg EAX));
    I (Movw (Reg EAX) (Seg DS));
    I (Movw (Reg EAX) (Seg ES));
    I (Movw (Reg EAX) (Seg SS));
    I (Movw (Imm 0) (Reg EAX));
    I (Movw (Reg EAX) (Seg FS));
    I (Movw (Reg EAX) (Seg GS));
    I (Movl (Cr CR4) (Reg EAX));
    I (Orl CR4_PSE EAX);
    I (Movl (Reg EAX) (Cr CR4));
    I (Movl (Abs "start" (-12)) (Reg EAX));
    I (Movl (Reg EAX) (Cr CR3));
    I (Movl (Cr CR0) (Reg EAX));
    I (Orl (Z.lor (Z.lor CR0_PE CR0_PG) CR0_WP) EAX);
    I (Movl (Reg EAX) (Cr CR0));
    I (Movl (Abs "start" (-4)) (Reg ESP));
    I (CallTo (Abs "start" (-8)));
    I (Movw (Imm 0x8a00) (Reg EAX));
    I (Movw (Reg EAX) (Reg EDX));
    I Outw;
    I (Movw (Imm 0x8ae0) (Reg EAX));
    I Outw;
    Lbl "spin";
    I (Jmp "spin") ].

(** ** Descriptors (asm.h) *)

Definition SEG_NULLASM : list Z := le_bytes 2 0 ++ le_bytes 2 0 ++ [0; 0; 0; 0].
Definition SEG_ASM (type base lim : Z) : list Z :=
  le_bytes 2 (Z.land (Z.shiftr lim 12) 0xffff) ++ le_bytes 2 (Z.land base 0xffff) ++
  [Z.land (Z.shiftr base 16) 0xff; Z.lor 0x90 type; Z.lor 0xC0 (Z.land (Z.shiftr lim 28) 0xf);
   Z.land (Z.shiftr base 24) 0xff].

(** The bytes of a [struct segdesc], by its bit fields. *)
Definition seg_bytes (x : segdesc) : list Z :=
  le_bytes 2 (sd_lim_15_0 x) ++ le_bytes 2 (sd_base_15_0 x) ++
  [sd_base_23_16 x; sd_type x + 16 * sd_s x + 32 * sd_dpl x + 128 * sd_p x;
   sd_lim_19_16 x + 16 * sd_avl x + 32 * sd_rsv1 x + 64 * sd_db x + 128 * sd_g x; sd_base_31_24 x].

Lemma high_bits x k n : 0 ≤ n → 0 ≤ x < 2 ^ (k + n) → 0 ≤ k → Z.land (Z.shiftr x k) (Z.ones n) = Z.shiftr x k ∧
  0 ≤ Z.shiftr x k < 2 ^ n.
Proof.
  intros Hn Hx Hk. rewrite Z.shiftr_div_pow2, Z.land_ones by lia. rewrite Z.pow_add_r in Hx by lia.
  assert (0 ≤ x / 2 ^ k < 2 ^ n) as H.
  { split; [apply Z.div_pos; lia|]. apply Z.div_lt_upper_bound; lia. }
  split; [by apply Z.mod_small|done].
Qed.

Lemma lor_nibble v t : v = 0x90 ∨ v = 0xC0 → 0 ≤ t < 16 → Z.lor v t = v + t.
Proof.
  intros Hv Ht. assert (t ∈ seqZ 0 16) as Hin by (apply elem_of_seqZ; lia). revert t Ht Hin.
  cut (Forall (λ t, Z.lor v t = v + t) (seqZ 0 16)); [rewrite Forall_forall; auto|].
  by destruct Hv as [->| ->]; repeat constructor.
Qed.

(** The assembler's descriptor is the one of mmu.h's [SEG]. *)
Lemma SEG_ASM_SEG type base lim : 0 ≤ type < 16 → 0 ≤ base < 2 ^ 32 → 0 ≤ lim < 2 ^ 32 →
  SEG_ASM type base lim = seg_bytes (SEG type base lim 0).
Proof.
  intros Ht Hb Hl. destruct (high_bits base 24 8) as [Eb _]; [lia..|]. destruct (high_bits lim 28 4) as [El Hl']; [lia..|].
  unfold SEG_ASM, seg_bytes, SEG. cbn [sd_lim_15_0 sd_base_15_0 sd_base_23_16 sd_type sd_s sd_dpl sd_p
    sd_lim_19_16 sd_avl sd_rsv1 sd_db sd_g sd_base_31_24].
  change 0xff with (Z.ones 8) at 2. change 0xf with (Z.ones 4). rewrite Eb, El, !lor_nibble by (lia || auto).
  replace (0x90 + type) with (type + 16 * 1 + 32 * 0 + 128 * 1) by lia.
  by replace (0xC0 + Z.shiftr lim 28) with (Z.shiftr lim 28 + 16 * 0 + 32 * 0 + 64 * 1 + 128 * 1) by lia.
Qed.

(** The bootstrap table, which bootasm.S and entryother.S share. *)
Definition gdt : list Z :=
  SEG_NULLASM ++ SEG_ASM (Z.lor STA_X STA_R) 0 0xffffffff ++ SEG_ASM STA_W 0 0xffffffff.

(** What the code loads with [lgdt]: the limit and the address of the table. *)
Definition gdtdesc `{Image} : list Z := le_bytes 2 (sym "gdtdesc" - sym "gdt" - 1) ++ le_bytes 4 (sym "gdt").

(** The table and its descriptor, assembled one after the other on a word
    boundary and in the low 16 megabytes, are in memory. *)
Record boot_data `{Image} (m : gmap Z Z) : Prop := {
  bd_gdt : bytes_at m (sym "gdt") (length gdt) = Some gdt;
  bd_desc : bytes_at m (sym "gdtdesc") 6 = Some gdtdesc;
  bd_next : sym "gdtdesc" = sym "gdt" + Z.of_nat (length gdt);
  bd_align : sym "gdt" mod 4 = 0;
  bd_low : 0 ≤ sym "gdt" < 2 ^ 24;
}.

(** The descriptor that the selector [sel] selects, in the table the processor
    has. *)
Definition descriptor (s : x86) (sel : Z) : option (list Z) :=
  let off := sel - sel mod 8 in
  if off + 7 <=? (x_gdtr s).1 then bytes_at (x_mem s) ((x_gdtr s).2 + off) 8 else None.

(** [sel] selects a flat segment of the kernel: base 0, limit 0xffffffff. *)
Definition flat_seg (s : x86) (type sel : Z) : Prop :=
  descriptor s sel = Some (seg_bytes (SEG type 0 0xffffffff 0)).

(** The table the processor has after [lgdt gdtdesc]. *)
Definition boot_gdtr `{Image} : Z * Z := (Z.of_nat (length gdt) - 1, sym "gdt").

Lemma gdtdesc_value `{Image} m : boot_data m →
  (le_val (take 2 gdtdesc), le_val (drop 2 gdtdesc) mod 2 ^ 24) = boot_gdtr.
Proof.
  intros [_ _ Hn _ Hl]. unfold gdtdesc, boot_gdtr. rewrite take_app_length', drop_app_length' by done.
  rewrite !le_val_le_bytes, Hn. f_equal.
  - replace (_ - _ - 1) with (Z.of_nat (length gdt) - 1) by lia. done.
  - rewrite (Z.mod_small (sym "gdt")) by (simpl; lia). rewrite Z.mod_small; [done|lia].
Qed.

(** With that table, and as long as the words of the table are as they were, the
    selectors that the code loads are those of flat segments. *)
Lemma gdt_flat `{Image} m s : boot_data m → x_gdtr s = boot_gdtr →
  (∀ a, sym "gdt" ≤ a < sym "gdtdesc" → x_mem s !! a = m !! a) →
  flat_seg s (Z.lor STA_X STA_R) (Z.shiftl SEG_KCODE 3) ∧ flat_seg s STA_W (Z.shiftl SEG_KDATA 3).
Proof.
  intros [Hg _ Hn Hal _] Hgdtr Hm.
  assert (bytes_at (x_mem s) (sym "gdt") (length gdt) = Some gdt) as Hg'.
  { rewrite <-Hg. apply bytes_at_agree. intros b Hb. apply Hm. rewrite Hn.
    pose proof (Z.mod_pos_bound b 4). pose proof (Z.div_mod b 4). pose proof (Z.div_mod (sym "gdt") 4). lia. }
  unfold flat_seg, descriptor. rewrite Hgdtr. cbn [boot_gdtr fst snd].
  split.
  - etrans; [apply (bytes_at_part 8 _ _ _ _ 8 Hg'); cbn; lia|]. by rewrite <-SEG_ASM_SEG.
  - etrans; [apply (bytes_at_part 8 _ _ _ _ 16 Hg'); cbn; lia|]. by rewrite <-SEG_ASM_SEG.
Qed.

(** ** The flags *)

Lemma u8_low r v : u8 (Z.shiftl (Z.shiftr r 8) 8 + v mod 2 ^ 8) = u8 v.
Proof. unfold u8. by rewrite Z.shiftl_mul_pow2, Z.add_comm, Z.mod_add, Z.mod_mod. Qed.

Lemma u16_low r v : u16 (u16 (Z.shiftl (Z.shiftr r 16) 16 + v mod 2 ^ 16)) = u16 v.
Proof. unfold u16. by rewrite Z.mod_mod, Z.shiftl_mul_pow2, Z.add_comm, Z.mod_add, Z.mod_mod. Qed.

(** An operation with result [v] sets the zero flag only. *)
Lemma zf_flags f v : let f' := if v =? 0 then Z.lor f 0x40 else Z.land f (Z.lnot 0x40) in
  hasb f' 0x40 = (v =? 0) ∧ Z.land f' 0x200 = Z.land f 0x200.
Proof.
  unfold hasb. destruct (v =? 0); cbv zeta.
  - rewrite !Z.land_lor_distr_l. change (Z.land 64 512) with 0. rewrite Z.lor_0_r. split; [|done].
    destruct (_ =? 0) eqn:E; [|done]. apply Z.eqb_eq, Z.lor_eq_0_iff in E as [_ E]. done.
  - rewrite <-!Z.land_assoc. change (Z.land (Z.lnot 64) 64) with 0. by rewrite Z.land_0_r.
Qed.

(** ** entry.S *)

Section Boot.
Context `{ImageOk}.
#[local] Set Default Proof Using "All".

(** The boot processor enters [main] with paging and write protection on, the
    page table [entrypgdir] and its own stack. *)
Lemma entry_S_spec s : linked entry_S → x_pc s = sym "entry" →
  wp (steps 11) (λ _ s', x_pc s' = u32 (sym "main") ∧ x_reg s' ESP = u32 (sym "stack" + KSTACKSIZE) ∧
    x_cr s' CR3 = u32 (sym "entrypgdir" - KERNBASE) ∧ x_cr s' CR4 = Z.lor (x_cr s CR4) CR4_PSE ∧
    x_cr s' CR0 = Z.lor (x_cr s CR0) (Z.lor CR0_PG CR0_WP) ∧ x_mem s' = x_mem s ∧ x_seg s' = x_seg s) s.
Proof.
  intros (b & Hb & Hl) Hpc. apply (wp_block b (instrs entry_S)); [done|done| |].
  { rewrite Hpc, (Hl "entry" 0%nat); [f_equal; lia|done]. }
  cbn [entry_S instrs]. x_steps. rewrite !Z.add_0_r. done.
Qed.

(** ** bootasm.S *)

(** A state after polling port 0x64, with [rest] still to be read from it. *)
Record polled (s : x86) (rest : list Z) (s' : x86) : Prop := {
  po_regs : ∀ r, r ≠ EAX → x_reg s' r = x_reg s r;
  po_segs : x_seg s' = x_seg s;
  po_cr : x_cr s' = x_cr s;
  po_mem : x_mem s' = x_mem s;
  po_out : x_out s' = x_out s;
  po_in : x_in s' 0x64 = rest;
  po_if : Z.land (x_flags s') 0x200 = Z.land (x_flags s) 0x200;
}.

Lemma polled_trans s r1 s1 r2 s2 : polled s r1 s1 → polled s1 r2 s2 → polled s r2 s2.
Proof. intros [] []. split; try congruence. intros r Hr. transitivity (x_reg s1 r); auto. Qed.

(** One round of the loop. *)
Lemma poll_once k l v rest s :
  block k [Inb 0x64; Testb 0x2 EAX; Jnz l] → x_pc s = im_addr k → x_in s 0x64 = v :: rest →
  reaches (λ s', x_pc s' = (if hasb (u8 v) 2 then sym l else im_addr (k + 3)) ∧ polled s rest s') s.
Proof.
  intros Hb Hpc Hin. apply (reaches_block k [Inb 0x64; Testb 0x2 EAX; Jnz l]); [done..|]. x_steps.
  rewrite Hin. cbn [head tail the]. x_steps. rewrite u8_low.
  destruct (zf_flags (x_flags s) (Z.land (u8 v) 2)) as [-> Hif]. unfold hasb.
  destruct (Z.land (u8 v) 2 =? 0) eqn:E; cbn [negb when]; x_steps; apply reaches_now; (split; [x_simpl|]).
  all: first [done|by rewrite Nat.add_comm|idtac].
  all: split; x_simpl; try done; intros []; done.
Qed.

(** The loops that wait for the keyboard controller end when it is ready. *)
Lemma poll_spec k l busy v rest s :
  block k [Inb 0x64; Testb 0x2 EAX; Jnz l] → sym l = im_addr k → x_pc s = im_addr k →
  x_in s 0x64 = busy ++ v :: rest → Forall (λ b, hasb (u8 b) 2 = true) busy → hasb (u8 v) 2 = false →
  reaches (λ s', x_pc s' = im_addr (k + 3) ∧ polled s rest s') s.
Proof.
  intros Hb Hl. revert s. induction busy as [|c busy IH]; intros s Hpc Hin Hbusy Hv; cbn [app] in Hin.
  - eapply reaches_mono; [by apply poll_once|]. cbn beta. by rewrite Hv.
  - apply Forall_cons in Hbusy as [Hc Hbusy]. apply reaches_trans.
    eapply reaches_mono; [by apply poll_once|]. cbn beta. rewrite Hc, Hl. intros s1 [Hpc1 P1].
    eapply reaches_mono; [apply IH; [done|by rewrite (po_in _ _ _ P1)|done..]|]. cbn beta.
    intros s2 [? P2]. split; [done|]. by eapply polled_trans.
Qed.

Section BootAsm.
Variables (b : nat) (s : x86).
Hypothesis Hb : block b (instrs bootasm).

(** Interrupts off, then the first wait. *)
Lemma boot_first busy v rest :
  sym "seta20.1" = im_addr (b + 5) → x_pc s = im_addr b →
  x_in s 0x64 = busy ++ v :: rest → Forall (λ c, hasb (u8 c) 2 = true) busy → hasb (u8 v) 2 = false →
  reaches (λ s', x_pc s' = im_addr (b + 8) ∧ x_in s' 0x64 = rest ∧ Z.land (x_flags s') 0x200 = 0 ∧
    x_mem s' = x_mem s ∧ x_cr s' = x_cr s ∧ x_out s' = x_out s) s.
Proof.
  intros Hl Hpc Hin Hbusy Hv.
  apply (reaches_block b (take 5 (drop 0 (instrs bootasm)))); [|done|done|].
  { rewrite <-(Nat.add_0_r b). by apply block_part. }
  cbn [take drop bootasm instrs]. x_steps.
  eapply reaches_mono; [apply (poll_spec (b + 5) "seta20.1" busy v rest)|]; x_simpl; try done.
  { apply (block_part 5 3 b _ Hb). }
  { f_equal; lia. }
  cbn beta. intros s' [Hpc' []]. x_simpl. rewrite <-Nat.add_assoc in Hpc'. split_and!; try done.
  rewrite po_if0. x_simpl. rewrite (proj2 (zf_flags _ _)), <-Z.land_assoc. by rewrite Z.land_0_r.
Qed.

(** The first command for the controller, then the second wait. *)
Lemma boot_second busy v rest :
  sym "seta20.2" = im_addr (b + 10) → x_pc s = im_addr (b + 8) →
  x_in s 0x64 = busy ++ v :: rest → Forall (λ c, hasb (u8 c) 2 = true) busy → hasb (u8 v) 2 = false →
  reaches (λ s', x_pc s' = im_addr (b + 13) ∧ Z.land (x_flags s') 0x200 = Z.land (x_flags s) 0x200 ∧
    x_mem s' = x_mem s ∧ x_cr s' = x_cr s ∧ x_out s' = (0x64, 0xd1) :: x_out s) s.
Proof.
  intros Hl Hpc Hin Hbusy Hv.
  apply (reaches_block (b + 8) (take 2 (drop 8 (instrs bootasm)))); [by apply block_part|done|done|].
  cbn [take drop bootasm instrs]. x_steps.
  eapply reaches_mono; [apply (poll_spec (b + 10) "seta20.2" busy v rest)|]; x_simpl; try done.
  { apply (block_part 10 3 b _ Hb). }
  { f_equal; lia. }
  cbn beta. intros s' [Hpc' []]. x_simpl. rewrite <-Nat.add_assoc in Hpc'. split_and!; try done.
  rewrite po_out0. x_simpl. by rewrite u8_low.
Qed.

(** Protected mode, the segments, the stack and the call. *)
Lemma boot_third :
  sym "start32" = im_addr (b + 20) → x_pc s = im_addr (b + 13) →
  4 ≤ sym "start" < 2 ^ 32 → mapped (x_mem s) (sym "start" - 4) 1 → boot_data (x_mem s) →
  reaches (λ s', x_pc s' = sym "bootmain" ∧ x_reg s' ESP = sym "start" - 4 ∧
    x_mem s' = <[sym "start" - 4 := im_addr (b + 29)]> (x_mem s) ∧
    x_cr s' CR0 = Z.lor (x_cr s CR0) CR0_PE ∧ x_gdtr s' = boot_gdtr ∧
    x_seg s' CS = Z.shiftl SEG_KCODE 3 ∧
    (∀ r, r ∈ [DS; ES; SS] → x_seg s' r = Z.shiftl SEG_KDATA 3) ∧ (∀ r, r ∈ [FS; GS] → x_seg s' r = 0) ∧
    Z.land (x_flags s') 0x200 = Z.land (x_flags s) 0x200 ∧ x_out s' = (0x60, 0xdf) :: x_out s) s.
Proof.
  intros Hl Hpc Hst Hmap Hdata.
  apply (reaches_block (b + 13) (take 7 (drop 13 (instrs bootasm)))); [by apply block_part|done|done|].
  cbn [take drop bootasm instrs]. x_steps.
  rewrite (bd_desc _ Hdata). x_steps. rewrite (gdtdesc_value _ Hdata).
  apply (reaches_block (b + 20) (take 9 (drop 20 (instrs bootasm)))); [by apply block_part|done|done|].
  cbn [take drop bootasm instrs]. x_steps. rewrite !u16_low, Z.add_0_r, u32_small by lia.
  x_push (x_mem s) (sym "start") 1%nat (@nil Z). apply reaches_now. x_simpl.
  rewrite u8_low, (proj2 (zf_flags _ _)), <-!plus_n_Sm.
  split_and!; try done.
  - intros r Hr. set_unfold. by destruct Hr as [->|[->|[->|[]]]].
  - intros r Hr. set_unfold. by destruct Hr as [->|[->|[]]].
Qed.

End BootAsm.

(** C35: the boot sector, started by the firmware with interrupts on or off,
    gets to [bootmain] once the keyboard controller has twice become ready,
    however often it was busy before. There interrupts are off, A20 has been
    enabled by the two commands, in this order, protected mode is on with the
    boot descriptor table, which is in memory with the sector, the selectors of
    the code segment and of the three data segments select in it, in the memory
    as it then is, the flat code and the flat data segment of the kernel (base 0,
    limit 0xffffffff), the other two are null, and the stack is right below the
    boot sector, with only the return address on it. *)
Theorem boot_enters_bootmain busy1 v1 busy2 v2 rest s :
  linked bootasm → boot_data (x_mem s) → x_pc s = sym "start" → 4 ≤ sym "start" < 2 ^ 32 →
  mapped (x_mem s) (sym "start" - 4) 1 → sym "start" ≤ sym "gdt" →
  x_in s 0x64 = busy1 ++ v1 :: busy2 ++ v2 :: rest →
  Forall (λ c, hasb (u8 c) 2 = true) (busy1 ++ busy2) → hasb (u8 v1) 2 = false → hasb (u8 v2) 2 = false →
  reaches (λ s', x_pc s' = sym "bootmain" ∧ Z.land (x_flags s') 0x200 = 0 ∧
    x_out s' = [(0x60, 0xdf); (0x64, 0xd1)] ++ x_out s ∧
    x_cr s' CR0 = Z.lor (x_cr s CR0) CR0_PE ∧
    x_seg s' CS = Z.shiftl SEG_KCODE 3 ∧ flat_seg s' (Z.lor STA_X STA_R) (x_seg s' CS) ∧
    (∀ r, r ∈ [DS; ES; SS] → x_seg s' r = Z.shiftl SEG_KDATA 3 ∧ flat_seg s' STA_W (x_seg s' r)) ∧
    (∀ r, r ∈ [FS; GS] → x_seg s' r = 0) ∧
    x_reg s' ESP = sym "start" - 4 ∧ (∀ a, a ≠ sym "start" - 4 → x_mem s' !! a = x_mem s !! a)) s.
Proof.
  intros (b & Hb & Hl) Hdata Hpc Hst Hmap Hgdt Hin [Hb1 Hb2]%Forall_app Hv1 Hv2.
  apply reaches_trans. eapply reaches_mono.
  { apply (boot_first b s Hb busy1 v1 (busy2 ++ v2 :: rest)); try done; [by apply Hl|].
    rewrite Hpc, (Hl "start" 0%nat); [f_equal; lia|done]. }
  intros s1 (Hpc1 & Hin1 & Hf1 & Hm1 & Hc1 & Ho1). apply reaches_trans. eapply reaches_mono.
  { apply (boot_second b s1 Hb busy2 v2 rest); try done. by apply Hl. }
  intros s2 (Hpc2 & Hf2 & Hm2 & Hc2 & Ho2). eapply reaches_mono.
  { apply (boot_third b s2 Hb); try done; [by apply Hl|by rewrite Hm2, Hm1..]. }
  intros s3 (Hpc3 & Hsp & Hm3 & Hc3 & Hg & Hcs & Hds & Hfs & Hf3 & Ho3).
  assert (∀ a, a ≠ sym "start" - 4 → x_mem s3 !! a = x_mem s !! a) as Hm.
  { intros a Ha. by rewrite Hm3, lookup_insert_ne, Hm2, Hm1. }
  destruct (gdt_flat _ s3 Hdata Hg) as [Fc Fd]; [intros a Ha; apply Hm; lia|].
  split_and!; try done; try congruence.
  - by rewrite Ho3, Ho2, Ho1.
  - intros r Hr. by rewrite Hds.
Qed.

(** ** entryother.S *)

(** Another processor enters the function at [start - 8] on the stack at
    [start - 4] with the page table at [start - 12], paging and write protection
    on, the flat segments of the boot table, and interrupts off. *)
Lemma entryother_spec stack cr3 enter s :
  linked entryother_S → x_pc s = sym "start" → 12 ≤ sym "start" < 2 ^ 32 →
  words (x_mem s) (sym "start" - 12) [cr3; enter; stack] → 4 ≤ stack < 2 ^ 32 → mapped (x_mem s) (stack - 4) 1 →
  boot_data (x_mem s) → ¬ sym "gdt" ≤ stack - 4 < sym "gdtdesc" →
  reaches (λ s', x_pc s' = enter ∧ x_reg s' ESP = stack - 4 ∧ x_cr s' CR3 = cr3 ∧
    x_cr s' CR4 = Z.lor (x_cr s CR4) CR4_PSE ∧
    x_cr s' CR0 = Z.lor (Z.lor (x_cr s CR0) CR0_PE) (Z.lor (Z.lor CR0_PE CR0_PG) CR0_WP) ∧
    (x_seg s' CS = Z.shiftl SEG_KCODE 3 ∧ flat_seg s' (Z.lor STA_X STA_R) (Z.shiftl SEG_KCODE 3)) ∧
    (∀ r, r ∈ [DS; ES; SS] → x_seg s' r = Z.shiftl SEG_KDATA 3) ∧ flat_seg s' STA_W (Z.shiftl SEG_KDATA 3) ∧
    (∀ r, r ∈ [FS; GS] → x_seg s' r = 0) ∧
    Z.land (x_flags s') 0x200 = 0 ∧ (∀ a, a ≠ stack - 4 → x_mem s' !! a = x_mem s !! a)) s.
Proof.
  intros (b & Hb & Hl) Hpc Hst Hw Hstk Hmap Hdata Hgdt.
  apply (reaches_block b (take 10 (drop 0 (instrs entryother_S)))); [|done| |].
  { rewrite <-(Nat.add_0_r b). by apply block_part. }
  { rewrite Hpc, (Hl "start" 0%nat); [f_equal; lia|done]. }
  cbn [take drop entryother_S instrs]. x_steps.
  rewrite (bd_desc _ Hdata). x_steps. rewrite (gdtdesc_value _ Hdata).
  apply (reaches_block (b + 10) (take 17 (drop 10 (instrs entryother_S)))); [by apply block_part|done| |].
  { x_simpl. by rewrite (Hl "start32" 10%nat). }
  cbn [take drop entryother_S instrs]. x_steps.
  rewrite !words_cons in Hw. destruct Hw as (H12 & H8 & H4 & _).
  replace (sym "start" - 12 + 4 + 4) with (sym "start" - 4) in H4 by lia.
  replace (sym "start" - 12 + 4) with (sym "start" - 8) in H8 by lia.
  rewrite u32_small by lia. apply (wp_load _ cr3); [done|]. x_steps.
  rewrite u32_small by lia. apply (wp_load _ stack); [done|]. x_steps.
  rewrite u32_small by lia. apply (wp_load _ enter); [done|]. x_steps.
  rewrite !u16_low. x_push (x_mem s) stack 1%nat (@nil Z). apply reaches_now.
  edestruct (gdt_flat (x_mem s)) as [Fc Fd];
    [done| | |split_and!; first [exact Fc|exact Fd|idtac]]; x_simpl; try done.
  - intros a Ha. cbn [put_words length]. by rewrite lookup_insert_ne by lia.
  - intros r Hr. set_unfold. by destruct Hr as [->|[->|[->|[]]]].
  - intros r Hr. set_unfold. by destruct Hr as [->|[->|[]]].
  - by rewrite !(proj2 (zf_flags _ _)), <-Z.land_assoc, Z.land_0_r.
  - intros a Ha. cbn [put_words length]. by rewrite lookup_insert_ne by lia.
Qed.

End Boot.

(** ** The boot sector on a concrete machine *)

Module BootAsmExample.

#[export] Instance image : Image := {|
  im_text := bootasm;
  im_addr k := 0x7c00 + Z.of_nat k;
  im_sym l := if String.eqb l "bootmain" then 0x7d3b else if String.eqb l "gdt" then 0x7c60 else 0x7c78 |}.
#[export] Instance image_ok : ImageOk.
Proof. intros i j _ _ E. cbn in E. lia. Qed.

Lemma has_bootasm : linked bootasm.
Proof. apply (linked_file [] _ []); [by rewrite app_nil_r|]. apply (bool_decide_unpack _). vm_compute. constructor. Qed.

(** The firmware leaves interrupts on; the controller is busy for a while. *)
Definition firmware : x86 :=
  mk_x86 (λ _, 0xaa55) (λ _, 0) (λ _, 0x10) 0x7c00 0x202 (0, 0) (mk_ts 0 0) []
    (<[0x7bfc := 0]> (put_words 0x7c60 [0; 0; 0xffff; 0x00cf9a00; 0xffff; 0x00cf9200; 0x7c600017; 0] ∅)) []
    (λ p, if p =? 0x64 then [0x1e; 0x1e; 0x1c; 0x1a; 0x18] else []).

Lemma boot_enters_bootmain_witness :
  reaches (λ s', x_pc s' = 0x7d3b ∧ x_cr s' CR0 = 0x11 ∧ x_seg s' CS = 8 ∧ x_seg s' SS = 16 ∧
    descriptor s' 16 = Some [0xff; 0xff; 0; 0; 0; 0x92; 0xcf; 0] ∧
    x_reg s' ESP = 0x7bfc ∧ x_out s' = [(0x60, 0xdf); (0x64, 0xd1)]) firmware.
Proof.
  eapply reaches_mono.
  - apply (boot_enters_bootmain [0x1e; 0x1e] 0x1c [0x1a] 0x18 []); try done.
    + apply has_bootasm.
    + intros a (k & Hk & ->). replace k with 0%nat by lia. eexists. reflexivity.
    + by repeat constructor.
  - intros s' (Hpc & _ & Ho & Hc & Hcs & _ & Hds & _ & Hsp & _). destruct (Hds SS) as [Hss Hf]; [set_solver|].
    rewrite Hss in Hf. rewrite Hpc, Ho, Hc, Hcs, Hsp, Hss. done.
Defined.

End BootAsmExample.
