(* ===== verification/Usys.v ===== *)
(** * Usys: system calls from the stub to the handler and back

    The machine code of usys.S, vectors.pl and trapasm.S (Asm.v) around the C
    code of trap.c and syscall.c (Trap.v).  The compiled [trap] is any code that
    returns to its caller with the trap frame that the model of [trap] leaves
    in [proc->tf] ([trap_returns]). *)

From S2P Require Import Prelude Bytes CString Ring Kernel Sched Ide Bio Log Block Inode Dir Pipe File Kalloc Print Vm Proc Console IdeDriver Syscall SysProc Exec SysFile Trap X86 Asm.

(** ** The current process *)

Lemma myproc_at k p : ks_cur k = Some p → runs_to myproc k p k.
Proof. unfold runs_to, myproc, mbind, M_bind, gets. by intros ->. Qed.

Lemma curproc_at k p x : ks_cur k = Some p → ks_procs k !! p = Some x → runs_to curproc k x k.
Proof. intros Hc Hx. eapply runs_bind; [by apply myproc_at|by apply get_proc_runs]. Qed.

Lemma upd_proc_at k p x f : ks_procs k !! p = Some x →
  runs_to (upd_proc p f) k () (set_procs (<[p:=f x]> (ks_procs k)) k).
Proof. intros Hx. unfold runs_to, upd_proc. by rewrite Hx, (alter_insert _ _ _ _ Hx). Qed.

(** ** trap and syscall *)

Section Calls.
Context `{Linker} `{Drive} `{Cpu} `{Ide} `{Devsw}.

(** The handlers by name: [[SYS_fork] sys_fork] and so on. *)
Definition handlers : list (string * K Z) :=
  [("fork", sys_fork); ("exit", sys_exit); ("wait", sys_wait); ("pipe", sys_pipe); ("read", sys_read);
   ("kill", sys_kill); ("exec", sys_exec cpu_stack); ("fstat", sys_fstat); ("chdir", sys_chdir); ("dup", sys_dup);
   ("getpid", sys_getpid); ("sbrk", sys_sbrk); ("sleep", sys_sleep); ("uptime", sys_uptime); ("open", sys_open);
   ("write", sys_write); ("mknod", sys_mknod); ("unlink", sys_unlink); ("link", sys_link); ("mkdir", sys_mkdir);
   ("close", sys_close); ("getcwd", sys_getcwd); ("ps", sys_ps cpu_pcs); ("wait2", sys_wait2); ("yield", sys_yield)].

(** The table of syscall.c has them at the numbers of syscall.h. *)
Lemma syscalls_handlers name f : (name, f) ∈ handlers →
  name ∈ sys_names ∧ 0 < number name SYS < 26 ∧ syscalls !! Z.to_nat (number name SYS) = Some (Some f).
Proof.
  revert name f. cut (Forall (λ h : string * K Z, h.1 ∈ sys_names ∧ 0 < number h.1 SYS < 26 ∧
    syscalls !! Z.to_nat (number h.1 SYS) = Some (Some h.2)) handlers).
  { rewrite Forall_forall. intros Hall name f Hin. by apply (Hall (name, f)). }
  repeat constructor; cbn [fst snd]; try done; by apply (bool_decide_unpack _).
Qed.

(** The state in which the handler starts: the frame is in [proc->tf]. *)
Definition with_frame (tf : trapframe) (p : nat) (x : proc) (k : kstate) : kstate :=
  set_procs (<[p:=with_p_tf tf x]> (ks_procs k)) k.

(** [trap] runs the handler and puts what it returns into the frame. *)
Lemma trap_handles name f tf k p x r k1 x1 :
  (name, f) ∈ handlers → tf_trapno tf = T_SYSCALL → tf_eax tf = number name SYS →
  ks_cur k = Some p → ks_procs k !! p = Some x → p_killed x = false →
  runs_to f (with_frame tf p x k) r k1 → ks_cur k1 = Some p → ks_procs k1 !! p = Some x1 → p_killed x1 = false →
  runs_to (trap tf) k () (with_frame (with_tf_eax (u32 r) (p_tf x1)) p x1 k1).
Proof.
  intros (_ & Hnum & Hf)%syscalls_handlers Hno Hax Hc Hx Hk Hrun Hc1 Hx1 Hk1.
  assert (p < length (ks_procs k))%nat as Hp by (by eapply lookup_lt_Some).
  assert (p < length (ks_procs k1))%nat as Hp1 by (by eapply lookup_lt_Some).
  unfold trap. rewrite Hno. cbn [Z.eqb]. change (64 =? T_SYSCALL) with true. cbn iota.
  eapply runs_bind; [by eapply curproc_at|]. rewrite Hk.
  eapply runs_bind; [by eapply myproc_at|]. eapply runs_bind; [by apply upd_proc_at|].
  eapply (runs_bind syscall).
  { unfold syscall. eapply runs_bind; [eapply curproc_at; [done|by apply list_lookup_insert_eq]|].
    cbn [p_tf with_p_tf]. rewrite Hax, s32_small by lia.
    destruct (0 <? number name SYS) eqn:E; [|lia]. rewrite Hf. eapply runs_bind; [exact Hrun|].
    eapply runs_bind; [by eapply myproc_at|]. by apply upd_proc_at. }
  eapply runs_bind; [eapply curproc_at; [done|by apply list_lookup_insert_eq]|]. cbn. by rewrite Hk1.
Qed.

(** ** From the stub to the handler and back *)

Context `{ImageOk} (Htrap : linked trapasm) (Hvec : linked vectors_S) (Husys : linked usys).
#[local] Set Default Proof Using "All".

(** C22: A system call, through machine code and C.  A process calls the stub of
    [name], with the return address [ret] on its stack.  The machine gets to
    [trap] with a frame for which [trap] calls the handler of that name, with
    the frame in [proc->tf]; the handler finds the user's stack pointer there.
    If the handler returns [r] and the process has not been killed, [trap]
    returns with [r] in the frame's [eax].  The machine then goes on with the
    registers of the frame, as the handler left it: the new program's after
    [exec].  For every other call, that is if the handler left the frame alone,
    the stub returns to [ret] with [r] in [eax] and all other registers as they
    were. *)
Theorem system_call name f u top ret k p x :
  (name, f) ∈ handlers →
  trapped u true T_SYSCALL top → segs_ok u → x_pc u = sym name → 0 ≤ x_reg u ESP < 2 ^ 32 - 4 →
  ks_cur k = Some p → ks_procs k !! p = Some x → p_killed x = false →
  wp (steps 18) (λ _ s1, ∃ tf, x_pc s1 = sym "trap" ∧ words (x_mem s1) (top - 76) (tf_words tf) ∧
    x_mem s1 !! (x_reg s1 ESP + 4) = Some (top - 76) ∧ tf_esp tf = x_reg u ESP ∧
    ∀ r k1 x1, runs_to f (with_frame tf p x k) r k1 →
      ks_cur k1 = Some p → ks_procs k1 !! p = Some x1 → p_killed x1 = false →
      let tf' := with_tf_eax (u32 r) (p_tf x1) in
      runs_to (trap tf) k () (with_frame tf' p x1 k1) ∧
      ∀ s2, trap_returns s1 s2 true (top - 76) tf' →
        wp (steps 8) (λ _ s3, restored true tf' (top - 76) s2 s3) s2 ∧
        (p_tf x1 = tf → x_mem s2 !! x_reg u ESP = Some ret →
         wp (steps 9) (λ _ s3, x_pc s3 = ret ∧ x_reg s3 EAX = u32 r ∧ x_reg s3 ESP = x_reg u ESP + 4 ∧
           (∀ q, q ≠ EAX → q ≠ ESP → x_reg s3 q = x_reg u q) ∧ (∀ q, x_seg s3 q = x_seg u q) ∧
           x_flags s3 = x_flags u ∧ x_mem s3 = x_mem s2) s2)) u.
Proof.
  intros Hf Hu Hs Hpc Hsp Hc Hx Hk. destruct (syscalls_handlers name f Hf) as (Hn & _).
  eapply wp_mono; [by apply (stub_spec Htrap Hvec Husys name u top ret)|].
  intros [] s1 (tf & Hw & Harg & Hpc1 & Hno & Hax & Hesp & Hres & Hret). exists tf. split_and!; try done.
  intros r k1 x1 Hrun Hc1 Hx1 Hk1 tf'. split; [by eapply trap_handles|].
  intros s2 Hs2. split; [by apply Hres|]. intros E Hr. subst tf'. rewrite E in Hs2. by apply Hret.
Qed.

End Calls.

(** ** A call of getpid *)

Module UsysExample.
Import KallocExample TrapExample IdeExample AsmExample.
#[local] Existing Instance ide_driver.

(** Process 1 calls [getpid] from address 0x99. *)
Lemma system_call_witness :
  wp (steps 18) (λ _ s1, x_pc s1 = 0x80105000 ∧ ∃ tf k', runs_to (trap tf) s0 () k' ∧
    ∀ s2, trap_returns s1 s2 true (0x80202000 - 76) (with_tf_eax 1 tf) → x_mem s2 !! 0x3ff0 = Some 0x99 →
      wp (steps 9) (λ _ s3, x_pc s3 = 0x99 ∧ x_reg s3 EAX = 1 ∧ x_reg s3 EBX = 11) s2) calling.
Proof.
  eapply wp_mono.
  - apply (system_call has_trapasm has_vectors has_usys "getpid" sys_getpid calling 0x80202000 0x99 s0 0 runner);
      [by do 10 right; left| |by intros []|done..].
    split; try done; apply kmem_mapped.
  - intros [] s1 (tf & Hpc & _ & _ & _ & Hcall). split; [by rewrite Hpc|].
    destruct (Hcall 1 (with_frame tf 0 runner s0) (with_p_tf tf runner)) as [Htf Hback]; [done..|].
    eexists tf, _. split; [exact Htf|]. intros s2 H2 Hret. destruct (Hback s2 H2) as [_ Hb].
    eapply wp_mono; [by apply Hb|]. intros [] s3 (Hpc3 & Hax & _ & Hr & _). by rewrite Hpc3, Hax, Hr.
Defined.

End UsysExample.
