(* ===== verification/Mp.v ===== *)
(** * Mp: the multiprocessor tables (mp.c)

    [mpinit] looks for the tables the BIOS leaves in memory and counts the
    processors.  The memory is a function from physical addresses to bytes.
    The state holds the variables the file sets, and what it prints. *)

From S2P Require Import Prelude Bytes Print.

Abbreviation NCPU := 8%nat.
Abbreviation MPPROC := 0.
Abbreviation MPBUS := 1.
Abbreviation MPIOAPIC := 2.
Abbreviation MPIOINTR := 3.
Abbreviation MPLINTR := 4.
Abbreviation MPBOOT := 2.

(** Sizes of [struct mp], [mpconf], [mpproc] and [mpioapic]. *)
Abbreviation SIZE_mp := 16.
Abbreviation SIZE_mpconf := 44.
Abbreviation SIZE_mpproc := 20.
Abbreviation SIZE_mpioapic := 8.

(** What is printed, and what is written to ports. *)
Inductive event := Message (fmt : string) (args : list Z) | Outb (port v : Z).

Record mpstate := {
  mp_ismp : bool;
  mp_ncpu : nat;
  mp_ids : list Z;        (* cpus[].id *)
  mp_bcpu : nat;          (* bcpu-cpus *)
  mp_ioapicid : Z;
  mp_lapic : Z;
  mp_events : list event;
}.

Definition set_ismp b s := {| mp_ismp := b; mp_ncpu := mp_ncpu s; mp_ids := mp_ids s; mp_bcpu := mp_bcpu s;
  mp_ioapicid := mp_ioapicid s; mp_lapic := mp_lapic s; mp_events := mp_events s |}.
Definition set_ncpu n s := {| mp_ismp := mp_ismp s; mp_ncpu := n; mp_ids := mp_ids s; mp_bcpu := mp_bcpu s;
  mp_ioapicid := mp_ioapicid s; mp_lapic := mp_lapic s; mp_events := mp_events s |}.
Definition set_ids l s := {| mp_ismp := mp_ismp s; mp_ncpu := mp_ncpu s; mp_ids := l; mp_bcpu := mp_bcpu s;
  mp_ioapicid := mp_ioapicid s; mp_lapic := mp_lapic s; mp_events := mp_events s |}.
Definition set_bcpu n s := {| mp_ismp := mp_ismp s; mp_ncpu := mp_ncpu s; mp_ids := mp_ids s; mp_bcpu := n;
  mp_ioapicid := mp_ioapicid s; mp_lapic := mp_lapic s; mp_events := mp_events s |}.
Definition set_ioapicid i s := {| mp_ismp := mp_ismp s; mp_ncpu := mp_ncpu s; mp_ids := mp_ids s; mp_bcpu := mp_bcpu s;
  mp_ioapicid := i; mp_lapic := mp_lapic s; mp_events := mp_events s |}.
Definition set_lapic a s := {| mp_ismp := mp_ismp s; mp_ncpu := mp_ncpu s; mp_ids := mp_ids s; mp_bcpu := mp_bcpu s;
  mp_ioapicid := mp_ioapicid s; mp_lapic := a; mp_events := mp_events s |}.
Definition add_event e s := {| mp_ismp := mp_ismp s; mp_ncpu := mp_ncpu s; mp_ids := mp_ids s; mp_bcpu := mp_bcpu s;
  mp_ioapicid := mp_ioapicid s; mp_lapic := mp_lapic s; mp_events := e :: mp_events s |}.

Section Search.
Context (mem : Z → Z).

Definition mem16 (a : Z) : Z := Z.lor (Z.shiftl (mem (a + 1)) 8) (mem a).
Definition mem32 (a : Z) : Z := Z.lor (Z.shiftl (mem16 (a + 2)) 16) (mem16 a).

Fixpoint sum_from (n : nat) (a acc : Z) : Z :=
  match n with O => acc | S n' => sum_from n' (a + 1) (s32 (acc + mem a)) end.

(** The checksum of [len] bytes. *)
Definition sum (addr len : Z) : Z := u8 (sum_from (Z.to_nat len) addr 0).

(** [memcmp(p, s, 4) == 0] *)
Definition signature (p : Z) (s : string) : bool :=
  bool_decide ([mem p; mem (p + 1); mem (p + 2); mem (p + 3)] = chars s).

(** The loop over the [n] places where a structure may start. *)
Fixpoint mpsearch_from (n : nat) (p : Z) : option Z :=
  match n with
  | O => None
  | S n' =>
      if signature p "_MP_" && (sum p SIZE_mp =? 0) then Some p
      else mpsearch_from n' (p + SIZE_mp)
  end.

Definition mpsearch1 (a len : Z) : option Z := mpsearch_from (Z.to_nat ((len + SIZE_mp - 1) / SIZE_mp)) a.

Definition mpsearch : option Z :=
  let bda := 0x400 in
  let p := Z.shiftl (Z.lor (Z.shiftl (mem (bda + 0x0F)) 8) (mem (bda + 0x0E))) 4 in
  let found :=
    if negb (p =? 0) then mpsearch1 p 1024
    else mpsearch1 (u32 (Z.lor (Z.shiftl (mem (bda + 0x14)) 8) (mem (bda + 0x13)) * 1024 - 1024)) 1024 in
  match found with Some mp => Some mp | None => mpsearch1 0xF0000 0x10000 end.

(** The addresses of the floating pointer structure and of the table. *)
Definition mpconfig : option (Z * Z) :=
  match mpsearch with
  | None => None
  | Some mp =>
      let conf := mem32 (mp + 4) in
      if conf =? 0 then None else
      if negb (signature conf "PCMP") then None else
      if negb (mem (conf + 6) =? 1) && negb (mem (conf + 6) =? 4) then None else
      if negb (sum conf (mem16 (conf + 4)) =? 0) then None else
      Some (mp, conf)
  end.

(** The processor entry at [p]; an entry beyond the array faults. *)
Definition mpproc_entry (p : Z) : M mpstate () :=
  ncpu ← gets mp_ncpu;
  let apicid := mem (p + 1) in
  when (negb (Z.of_nat ncpu =? apicid))
    (modify (add_event (Message "mpinit: ncpu=%d apicid=%d" [Z.of_nat ncpu; apicid]));; modify (set_ismp false));;
  when (hasb (mem (p + 3)) MPBOOT) (modify (set_bcpu ncpu));;
  if bool_decide (NCPU ≤ ncpu)%nat then fault else
  modify (λ s, set_ids (<[ncpu:=Z.of_nat ncpu]> (mp_ids s)) s);;
  modify (set_ncpu (S ncpu)).

(** The loop over the entries up to [e]. *)
Fixpoint mpinit_loop (fuel : nat) (p e : Z) : M mpstate () :=
  match fuel with
  | O => fault
  | S fuel' =>
      if negb (p <? e) then mret () else
      let t := mem p in
      if t =? MPPROC then mpproc_entry p;; mpinit_loop fuel' (p + SIZE_mpproc) e
      else if t =? MPIOAPIC then modify (set_ioapicid (mem (p + 1)));; mpinit_loop fuel' (p + SIZE_mpioapic) e
      else if (t =? MPBUS) || (t =? MPIOINTR) || (t =? MPLINTR) then mpinit_loop fuel' (p + 8) e
      else
        modify (add_event (Message "mpinit: unknown config type %x" [t]));;
        modify (set_ismp false);;
        mpinit_loop fuel' p e
  end.

(** [imcr] is what port 0x23 reads. *)
Definition mpinit (fuel : nat) (imcr : Z) : M mpstate () :=
  modify (set_bcpu 0);;
  match mpconfig with
  | None => mret ()
  | Some (mp, conf) =>
      modify (set_ismp true);;
      modify (set_lapic (mem32 (conf + 36)));;
      mpinit_loop fuel (conf + SIZE_mpconf) (conf + mem16 (conf + 4));;
      ismp ← gets mp_ismp;
      if negb ismp then
        modify (set_ncpu 1);; modify (set_lapic 0);; modify (set_ioapicid 0)
      else
        when (negb (mem (mp + 12) =? 0))
          (modify (add_event (Outb 0x22 0x70));; modify (add_event (Outb 0x23 (Z.lor imcr 1))))
  end.

(** ** The entries of a table *)

Inductive mpentry := EProc (apicid flags : Z) | EIoapic (apicno : Z) | EOther (t : Z).

Definition entry_size (x : mpentry) : Z := match x with EProc _ _ => SIZE_mpproc | _ => 8 end.

Definition entry_at (p : Z) (x : mpentry) : Prop :=
  match x with
  | EProc apicid flags => mem p = MPPROC ∧ mem (p + 1) = apicid ∧ mem (p + 3) = flags
  | EIoapic apicno => mem p = MPIOAPIC ∧ mem (p + 1) = apicno
  | EOther t => mem p = t ∧ t ∈ [MPBUS; MPIOINTR; MPLINTR]
  end.

Fixpoint entries_at (p : Z) (l : list mpentry) (e : Z) : Prop :=
  match l with
  | [] => p = e
  | x :: l' => entry_at p x ∧ entries_at (p + entry_size x) l' e
  end.

(** The processors, and what the entries say of the machine. *)
Definition procs (l : list mpentry) : list (Z * Z) :=
  omap (λ x, match x with EProc a f => Some (a, f) | _ => None end) l.

(** The variables after the entries, if the processors are numbered from
    [ncpu] on. *)
Fixpoint counted (l : list mpentry) (s : mpstate) : mpstate :=
  match l with
  | [] => s
  | EProc a f :: l' =>
      let n := mp_ncpu s in
      let s := if hasb f MPBOOT then set_bcpu n s else s in
      counted l' (set_ncpu (S n) (set_ids (<[n:=Z.of_nat n]> (mp_ids s)) s))
  | EIoapic a :: l' => counted l' (set_ioapicid a s)
  | EOther _ :: l' => counted l' s
  end.

Definition numbered (n : nat) (l : list mpentry) : Prop :=
  (procs l).*1 = Z.of_nat <$> seq n (length (procs l)).

Lemma entries_le p l e : entries_at p l e → p ≤ e.
Proof.
  revert p. induction l as [|x l IH]; intros p; simpl; [lia|]. intros [_ H]. apply IH in H. destruct x; simpl in H; lia.
Qed.

Lemma mpinit_loop_spec fuel p l e s :
  entries_at p l e → (length l < fuel)%nat → numbered (mp_ncpu s) l → (mp_ncpu s + length (procs l) ≤ NCPU)%nat →
  runs_to (mpinit_loop fuel p e) s () (counted l s).
Proof.
  revert p fuel s. induction l as [|x l IH]; intros p [|fuel] s He Hf Hn Hb; simpl in Hf; try lia; cbn [mpinit_loop].
  - simpl in He. subst. rewrite Z.ltb_irrefl. done.
  - destruct He as [Hx He]. pose proof (entries_le _ _ _ He). rewrite (proj2 (Z.ltb_lt p e)) by (destruct x; simpl in *; lia).
    cbn [negb]. destruct x as [a f|a|t]; simpl in Hx.
    + destruct Hx as (H0 & Ha & Hfl). rewrite H0. cbn [Z.eqb]. unfold numbered in Hn.
      change (procs (EProc a f :: l)) with ((a, f) :: procs l) in Hn, Hb. simpl in Hb. rewrite fmap_cons in Hn.
      cbn [length seq] in Hn. rewrite fmap_cons in Hn. injection Hn as Ha' Hn. cbn [counted]. eapply (runs_bind _ _ _ () _ ()).
      * unfold mpproc_entry. rewrite Ha, Hfl, Ha'. unfold runs_to, gets, modify, mbind, M_bind.
        rewrite Z.eqb_refl. cbn [negb when]. unfold mret, M_ret. rewrite bool_decide_eq_false_2 by lia.
        instantiate (1 := set_ncpu (S (mp_ncpu s)) (set_ids (<[mp_ncpu s:=Z.of_nat (mp_ncpu s)]>
          (mp_ids (if hasb f MPBOOT then set_bcpu (mp_ncpu s) s else s)))
          (if hasb f MPBOOT then set_bcpu (mp_ncpu s) s else s))). by destruct (hasb f MPBOOT).
      * apply IH; [done|lia|done|simpl; lia].
    + destruct Hx as (H0 & Ha). rewrite H0, Ha. cbn [Z.eqb]. eapply (runs_bind _ _ _ ()); [done|].
      apply IH; [done|lia|done|done].
    + destruct Hx as [Ht Hin]. rewrite Ht.
      assert (t = 1 ∨ t = 3 ∨ t = 4) as [->|[->| ->]] by set_solver; cbn [Z.eqb orb]; (apply IH; [done|lia|done|done]).
Qed.

(** The last processor with the boot flag. *)
Fixpoint boot_cpu (ps : list (Z * Z)) (n b : nat) : nat :=
  match ps with
  | [] => b
  | (_, f) :: ps' => boot_cpu ps' (S n) (if hasb f MPBOOT then n else b)
  end.

Definition ids_ok (s : mpstate) : Prop := ∀ i, (i < mp_ncpu s)%nat → mp_ids s !! i = Some (Z.of_nat i).

Lemma counted_spec l s : length (mp_ids s) = NCPU → (mp_ncpu s + length (procs l) ≤ NCPU)%nat → ids_ok s →
  let s' := counted l s in
  mp_ismp s' = mp_ismp s ∧ mp_lapic s' = mp_lapic s ∧ mp_ncpu s' = (mp_ncpu s + length (procs l))%nat ∧ ids_ok s' ∧
  mp_bcpu s' = boot_cpu (procs l) (mp_ncpu s) (mp_bcpu s).
Proof.
  revert s. induction l as [|x l IH]; intros s L Hb Hi; [simpl; split_and!; (done || lia)|].
  destruct x as [a f|a|t]; [|by apply (IH (set_ioapicid a s))|by apply IH].
  change (procs (EProc a f :: l)) with ((a, f) :: procs l) in *. cbn [counted length boot_cpu] in *.
  set (s1 := if hasb f MPBOOT then set_bcpu (mp_ncpu s) s else s).
  assert (mp_ids s1 = mp_ids s ∧ mp_ismp s1 = mp_ismp s ∧ mp_lapic s1 = mp_lapic s ∧
    mp_bcpu s1 = if hasb f MPBOOT then mp_ncpu s else mp_bcpu s) as (E1 & E2 & E3 & E4)
    by (unfold s1; by destruct (hasb f MPBOOT)).
  destruct (IH (set_ncpu (S (mp_ncpu s)) (set_ids (<[mp_ncpu s:=Z.of_nat (mp_ncpu s)]> (mp_ids s1)) s1)))
    as (H1 & H2 & H3 & H4 & H5).
  - simpl. rewrite E1. len.
  - simpl. lia.
  - intros i Hlt. simpl in Hlt |- *. rewrite E1. destruct (decide (i = mp_ncpu s)) as [->|].
    + apply list_lookup_insert_eq. lia.
    + rewrite list_lookup_insert_ne by done. apply Hi. lia.
  - simpl in *. rewrite H1, H2, H3, H5, E2, E3, E4. split_and!; (done || lia).
Qed.

(** [mpinit] finds the configuration table and counts the processors: when
    they are numbered in order and not more than eight, [ncpu], the identifiers
    and the boot processor are those of the table's entries. *)
Theorem mpinit_counts fuel imcr mp conf l s :
  mpconfig = Some (mp, conf) → entries_at (conf + SIZE_mpconf) l (conf + mem16 (conf + 4)) →
  (length l < fuel)%nat → mp_ncpu s = 0%nat → numbered 0 l → (length (procs l) ≤ NCPU)%nat → length (mp_ids s) = NCPU →
  wp (mpinit fuel imcr) (λ _ s', mp_ismp s' = true ∧ mp_lapic s' = mem32 (conf + 36) ∧
    mp_ncpu s' = length (procs l) ∧ ids_ok s' ∧ mp_bcpu s' = boot_cpu (procs l) 0 0) s.
Proof.
  intros Hc He Hf Hn Hnum Hb Hl. unfold mpinit. rewrite Hc. wp_steps.
  set (s1 := set_lapic _ _). assert (mp_ncpu s1 = 0%nat) as E0 by done.
  eapply wp_of_runs; [apply mpinit_loop_spec; [exact He|done|by rewrite E0|by rewrite E0]|].
  destruct (counted_spec l s1) as (H1 & H2 & H3 & H4 & H5); [done|by rewrite E0|intros i; lia|].
  wp_steps. rewrite H1. cbn [negb mp_ismp s1 set_lapic set_ismp]. rewrite E0 in H3, H5.
  apply wp_when; intros _; wp_steps; split_and!; done.
Qed.

(** An entry of unknown type is not skipped: [mpinit]'s loop stays at it and
    prints its message for ever. *)
Theorem mpinit_hangs fuel p e s :
  p < e → mem p ∉ [MPPROC; MPBUS; MPIOAPIC; MPIOINTR; MPLINTR] → mpinit_loop fuel p e s = Fault.
Proof.
  intros Hp Ht. revert s. induction fuel as [|fuel IH]; intros s; [done|]. cbn [mpinit_loop].
  rewrite (proj2 (Z.ltb_lt p e)) by done. cbn [negb].
  rewrite !(proj2 (Z.eqb_neq (mem p) _)) by set_solver. cbn [orb].
  unfold mbind, M_bind, modify. apply IH.
Qed.

End Search.

(** ** Example: a table with two processors *)

Module MpExample.

Definition conf_bytes : list Z :=
  chars "PCMP" ++ [84; 0; 4; 149] ++ replicate 28 0 ++ [0; 0; 224; 254] ++ replicate 4 0 ++
  (0 :: 0 :: 0 :: 3 :: replicate 16 0) ++ (0 :: 1 :: 0 :: 1 :: replicate 16 0).
Definition mp_bytes : list Z := chars "_MP_" ++ [0; 0; 8; 0; 1; 4; 152; 0] ++ replicate 4 0.

(** The floating pointer structure is in the BIOS ROM. *)
Definition mem (a : Z) : Z :=
  if (0x80000 <=? a) && (a <? 0x80000 + 84) then default 0 (conf_bytes !! Z.to_nat (a - 0x80000))
  else if (0xF0000 <=? a) && (a <? 0xF0010) then default 0 (mp_bytes !! Z.to_nat (a - 0xF0000))
  else 0.

Definition start : mpstate := {| mp_ismp := false; mp_ncpu := 0; mp_ids := replicate 8 0; mp_bcpu := 0;
  mp_ioapicid := 0; mp_lapic := 0; mp_events := [] |}.

Lemma mpinit_counts_witness :
  wp (mpinit mem 3 0) (λ _ s', mp_ismp s' = true ∧ mp_lapic s' = mem32 mem (0x80000 + 36) ∧
    mp_ncpu s' = 2%nat ∧ ids_ok s' ∧ mp_bcpu s' = 0%nat) start.
Proof.
  apply (mpinit_counts mem 3 0 0xF0000 0x80000 [EProc 0 3; EProc 1 1] start).
  - vm_compute. reflexivity.
  - vm_compute. done.
  - simpl. lia.
  - done.
  - reflexivity.
  - simpl. lia.
  - done.
Defined.

Lemma mpinit_hangs_witness : mpinit_loop (λ _, 9) 1000 0 8 start = Fault.
Proof. apply (mpinit_hangs (λ _, 9)); [lia|set_solver]. Defined.

End MpExample.
