(* ===== verification/IntCtl.v ===== *)
(** * IntCtl: the interrupt controllers and the timer chip

    picirq.c, ioapic.c, lapic.c and timer.c.  The code programs devices by
    writes; the state keeps the writes, the last one first, and the variables
    of the code.  What the devices answer when a register is read is a
    parameter. *)

From S2P Require Import Prelude Bytes Kernel Print.

(** ** Devices *)

Inductive hwrite :=
| Port (port v : Z)
| IoApic (reg data : Z)
| Lapic (index v : Z)
| Warm (k v : Z).

(** The I/O APIC's registers, and the successive values of a local APIC
    register while it is polled. *)
Class IntHw := {
  ioapic_val : list hwrite → Z → Z;
  lapic_val : list hwrite → Z → list Z;
}.

Record intctl := {
  ic_ismp : bool;
  ic_ioapicid : Z;
  ic_lapic : bool;
  ic_irqmask : Z;
  ic_warned : Z;
  ic_out : list (string * list arg);
  ic_log : list hwrite;
}.

Definition with_log (l : list hwrite) (s : intctl) : intctl :=
  {| ic_ismp := ic_ismp s; ic_ioapicid := ic_ioapicid s; ic_lapic := ic_lapic s; ic_irqmask := ic_irqmask s;
     ic_warned := ic_warned s; ic_out := ic_out s; ic_log := l |}.

Definition hw (w : hwrite) : M intctl () := modify (λ s, with_log (w :: ic_log s) s).
Definition poutb (port v : Z) : M intctl () := hw (Port port (u8 v)).

Abbreviation T_IRQ0 := 32.
Abbreviation IRQ_TIMER := 0.
Abbreviation IRQ_ERROR := 19.
Abbreviation IRQ_SPURIOUS := 31.

(** ** picirq.c *)

Abbreviation IO_PIC1 := 0x20.
Abbreviation IO_PIC2 := 0xA0.
Abbreviation IRQ_SLAVE := 2.

(** The initial value of [irqmask]. *)
Definition irqmask0 : Z := Z.land 0xFFFF (Z.lnot (Z.shiftl 1 IRQ_SLAVE)).

Definition picsetmask (mask : Z) : M intctl () :=
  modify (λ s, {| ic_ismp := ic_ismp s; ic_ioapicid := ic_ioapicid s; ic_lapic := ic_lapic s; ic_irqmask := mask;
                  ic_warned := ic_warned s; ic_out := ic_out s; ic_log := ic_log s |});;
  poutb (IO_PIC1 + 1) mask;;
  poutb (IO_PIC2 + 1) (Z.shiftr mask 8).

Definition picenable (irq : Z) : M intctl () :=
  mask ← gets ic_irqmask;
  picsetmask (u16 (Z.land mask (Z.lnot (Z.shiftl 1 irq)))).

Definition picinit : M intctl () :=
  poutb (IO_PIC1 + 1) 0xFF;;
  poutb (IO_PIC2 + 1) 0xFF;;
  poutb IO_PIC1 0x11;;
  poutb (IO_PIC1 + 1) T_IRQ0;;
  poutb (IO_PIC1 + 1) (Z.shiftl 1 IRQ_SLAVE);;
  poutb (IO_PIC1 + 1) 0x3;;
  poutb IO_PIC2 0x11;;
  poutb (IO_PIC2 + 1) (T_IRQ0 + 8);;
  poutb (IO_PIC2 + 1) IRQ_SLAVE;;
  poutb (IO_PIC2 + 1) 0x3;;
  poutb IO_PIC1 0x68;;
  poutb IO_PIC1 0x0a;;
  poutb IO_PIC2 0x68;;
  poutb IO_PIC2 0x0a;;
  mask ← gets ic_irqmask;
  when (negb (mask =? 0xFFFF)) (picsetmask mask).

(** ** timer.c *)

Abbreviation IO_TIMER1 := 0x40.
Abbreviation TIMER_FREQ := 1193182.
Definition TIMER_DIV (x : Z) : Z := (TIMER_FREQ + x / 2) / x.

Definition timerinit : M intctl () :=
  poutb (IO_TIMER1 + 3) (Z.lor (Z.lor 0x00 0x04) 0x30);;
  poutb IO_TIMER1 (TIMER_DIV 100 mod 256);;
  poutb IO_TIMER1 (TIMER_DIV 100 / 256);;
  picenable IRQ_TIMER.

(** ** ioapic.c *)

Abbreviation REG_ID := 0x00.
Abbreviation REG_VER := 0x01.
Abbreviation REG_TABLE := 0x10.
Abbreviation INT_DISABLED := 0x10000.

Abbreviation newline := (String (Ascii.ascii_of_nat 10) EmptyString).

(** The registers of the local APIC. *)
Abbreviation ID := (0x0020 / 4).
Abbreviation VER := (0x0030 / 4).
Abbreviation TPR := (0x0080 / 4).
Abbreviation EOI := (0x00B0 / 4).
Abbreviation SVR := (0x00F0 / 4).
Abbreviation ENABLE := 0x100.
Abbreviation ESR := (0x0280 / 4).
Abbreviation ICRLO := (0x0300 / 4).
Abbreviation INIT := 0x500.
Abbreviation STARTUP := 0x600.
Abbreviation DELIVS := 0x1000.
Abbreviation ASSERT := 0x4000.
Abbreviation LEVEL := 0x8000.
Abbreviation BCAST := 0x80000.
Abbreviation ICRHI := (0x0310 / 4).
Abbreviation TIMER := (0x0320 / 4).
Abbreviation X1 := 0xB.
Abbreviation PERIODIC := 0x20000.
Abbreviation PCINT := (0x0340 / 4).
Abbreviation LINT0 := (0x0350 / 4).
Abbreviation LINT1 := (0x0360 / 4).
Abbreviation ERROR := (0x0370 / 4).
Abbreviation MASKED := 0x10000.
Abbreviation TICR := (0x0380 / 4).
Abbreviation TDCR := (0x03E0 / 4).

Section Apic.
Context `{IntHw}.

Definition ioapicread (reg : Z) : M intctl Z :=
  l ← gets ic_log;
  mret (ioapic_val l reg).

Definition ioapicwrite (reg data : Z) : M intctl () := hw (IoApic reg (u32 data)).

(** A call of [cprintf]; the calls are kept. *)
Definition say (fmt : string) (args : list arg) : M intctl () :=
  modify (λ s, {| ic_ismp := ic_ismp s; ic_ioapicid := ic_ioapicid s; ic_lapic := ic_lapic s; ic_irqmask := ic_irqmask s;
                  ic_warned := ic_warned s; ic_out := ic_out s ++ [(fmt, args)]; ic_log := ic_log s |}).

Fixpoint ioapic_clear (i : Z) (n : nat) : M intctl () :=
  match n with
  | O => mret ()
  | S n' =>
      ioapicwrite (REG_TABLE + 2 * i) (Z.lor INT_DISABLED (T_IRQ0 + i));;
      ioapicwrite (REG_TABLE + 2 * i + 1) 0;;
      ioapic_clear (i + 1) n'
  end.

Definition ioapicinit : M intctl () :=
  ismp ← gets ic_ismp;
  if negb ismp then mret () else
  v ← ioapicread REG_VER;
  let maxintr := Z.land (Z.shiftr v 16) 0xFF in
  id ← ioapicread REG_ID;
  ioapicid ← gets ic_ioapicid;
  when (negb (Z.shiftr id 24 =? ioapicid)) (say (String.append "ioapicinit: id isn't equal to ioapicid; not a MP" newline) []);;
  ioapic_clear 0 (Z.to_nat (maxintr + 1)).

Definition ioapicenable (irq cpunum : Z) : M intctl () :=
  ismp ← gets ic_ismp;
  if negb ismp then mret () else
  ioapicwrite (REG_TABLE + 2 * irq) (T_IRQ0 + irq);;
  ioapicwrite (REG_TABLE + 2 * irq + 1) (Z.shiftl cpunum 24).

(** ** lapic.c *)

Definition lapicw (index value : Z) : M intctl () := hw (Lapic index (u32 value)).

(** A read of a local APIC register: the first of its successive values. *)
Definition lapicr (index : Z) : M intctl Z :=
  l ← gets ic_log;
  the (head (lapic_val l index)).

(** [while(lapic[ICRLO] & DELIVS)]: a register that stays busy keeps the loop
    going. *)
Definition lapic_wait : M intctl () :=
  l ← gets ic_log;
  the (list_find (λ v, Z.land v DELIVS = 0) (lapic_val l ICRLO));;
  mret ().

Definition lapicinit : M intctl () :=
  p ← gets ic_lapic;
  if negb p then mret () else
  lapicw SVR (Z.lor ENABLE (T_IRQ0 + IRQ_SPURIOUS));;
  lapicw TDCR X1;;
  lapicw TIMER (Z.lor PERIODIC (T_IRQ0 + IRQ_TIMER));;
  lapicw TICR 10000000;;
  lapicw LINT0 MASKED;;
  lapicw LINT1 MASKED;;
  v ← lapicr VER;
  when (4 <=? Z.land (Z.shiftr v 16) 0xFF) (lapicw PCINT MASKED);;
  lapicw ERROR (T_IRQ0 + IRQ_ERROR);;
  lapicw ESR 0;;
  lapicw ESR 0;;
  lapicw EOI 0;;
  lapicw ICRHI 0;;
  lapicw ICRLO (Z.lor (Z.lor BCAST INIT) LEVEL);;
  lapic_wait;;
  lapicw TPR 0.

(** [eflags] is an argument; the message is printed on the first call with
    interrupts enabled ([caller] is the return address). *)
Definition cpunum (eflags caller : Z) : M intctl Z :=
  when (hasb eflags 0x200) (
    n ← gets ic_warned;
    modify (λ s, {| ic_ismp := ic_ismp s; ic_ioapicid := ic_ioapicid s; ic_lapic := ic_lapic s; ic_irqmask := ic_irqmask s;
                    ic_warned := s32 (ic_warned s + 1); ic_out := ic_out s; ic_log := ic_log s |});;
    when (n =? 0) (say (String.append "cpu called from %x with interrupts enabled" newline) [AInt caller]));;
  p ← gets ic_lapic;
  if negb p then mret 0 else
  v ← lapicr ID;
  mret (Z.shiftr v 24).

Definition lapiceoi : M intctl () :=
  p ← gets ic_lapic;
  when p (lapicw EOI 0).

Definition lapicstartap (apicid addr : Z) : M intctl () :=
  poutb 0x70 0xF;;
  poutb 0x71 0x0A;;
  hw (Warm 0 0);;
  hw (Warm 1 (u16 (Z.shiftr addr 4)));;
  lapicw ICRHI (Z.shiftl apicid 24);;
  lapicw ICRLO (Z.lor (Z.lor INIT LEVEL) ASSERT);;
  lapicw ICRLO (Z.lor INIT LEVEL);;
  lapicw ICRHI (Z.shiftl apicid 24);;
  lapicw ICRLO (Z.lor STARTUP (Z.shiftr addr 12));;
  lapicw ICRHI (Z.shiftl apicid 24);;
  lapicw ICRLO (Z.lor STARTUP (Z.shiftr addr 12)).

End Apic.

(** ** The 8259 mask *)

(** The last value written to a port. *)
Fixpoint last_port (p : Z) (l : list hwrite) : option Z :=
  match l with
  | [] => None
  | Port q v :: l' => if q =? p then Some v else last_port p l'
  | _ :: l' => last_port p l'
  end.

(** The controllers have the mask that [irqmask] says, and the interrupts [en]
    are the ones enabled. *)
Definition pic_ok (en : Z → bool) (s : intctl) : Prop :=
  0 ≤ ic_irqmask s < 2 ^ 16 ∧
  last_port (IO_PIC1 + 1) (ic_log s) = Some (ic_irqmask s mod 2 ^ 8) ∧
  last_port (IO_PIC2 + 1) (ic_log s) = Some (ic_irqmask s / 2 ^ 8) ∧
  ∀ i, 0 ≤ i < 16 → Z.testbit (ic_irqmask s) i = negb (en i).

Lemma picsetmask_spec mask s : 0 ≤ mask < 2 ^ 16 →
  wp (picsetmask mask) (λ _ s', ic_irqmask s' = mask ∧
    last_port (IO_PIC1 + 1) (ic_log s') = Some (mask mod 2 ^ 8) ∧
    last_port (IO_PIC2 + 1) (ic_log s') = Some (mask / 2 ^ 8)) s.
Proof.
  intros H. unfold picsetmask, poutb, hw. wp_steps. cbn. split_and!; [done|done|].
  rewrite Z.shiftr_div_pow2 by lia. unfold u8. rewrite Z.mod_small; [done|].
  split; [apply Z.div_pos; lia|apply Z.div_lt_upper_bound; lia].
Qed.

Lemma picenable_spec en irq s : pic_ok en s → 0 ≤ irq < 16 →
  wp (picenable irq) (λ _ s', pic_ok (λ i, (i =? irq) || en i) s') s.
Proof.
  intros (Hr & _ & _ & Hb) Hi. unfold picenable. wp_step. wp_step.
  set (m := Z.land (ic_irqmask s) (Z.lnot (Z.shiftl 1 irq))).
  assert (∀ i, 0 ≤ i → Z.testbit m i = Z.testbit (ic_irqmask s) i && negb (i =? irq)) as Hm.
  { intros i Hi0. unfold m. rewrite Z.land_spec, Z.lnot_spec by done. rewrite Z.shiftl_1_l, Z.pow2_bits_eqb by lia.
    by rewrite (Z.eqb_sym irq i). }
  assert (0 ≤ m) as Hm0 by (apply Z.land_nonneg; left; lia).
  assert (u16 m = m) as Eu.
  { unfold u16. rewrite <-Z.land_ones by lia. apply Z.bits_inj'. intros i Hi0. rewrite Z.land_spec, Hm by done.
    destruct (Z.lt_ge_cases i 16); [rewrite Z.ones_spec_low by lia; by rewrite andb_true_r|].
    assert (Z.testbit (ic_irqmask s) i = false) as ->; [|done].
    rewrite <-(Z.mod_small (ic_irqmask s) (2 ^ 16)) by done. apply Z.mod_pow2_bits_high. lia. }
  assert (m < 2 ^ 16) as Hm1.
  { rewrite <-Eu. unfold u16. pose proof (Z.mod_pos_bound m (2 ^ 16) ltac:(lia)). lia. }
  rewrite Eu.
  eapply wp_mono; [apply (picsetmask_spec m); lia|]. intros [] s' (E & P1 & P2). unfold pic_ok. rewrite E.
  split_and!; [lia|done|done|done|]. intros i Hi'. rewrite Hm by lia. rewrite Hb by done.
  by destruct (i =? irq), (en i).
Qed.

(** [picenable] for each of [irqs]. *)
Definition picenables : list Z → M intctl () := foldr (λ irq m, picenable irq;; m) (mret ()).

Lemma picenables_spec irqs : ∀ en s, pic_ok en s → Forall (λ i, 0 ≤ i < 16) irqs →
  wp (picenables irqs) (λ _ s', pic_ok (λ i, bool_decide (i ∈ irqs) || en i) s') s.
Proof.
  unfold picenables. induction irqs as [|irq irqs IH]; intros en s Hs Hi; cbn [foldr].
  - wp_step. destruct Hs as (H1 & H2 & H3 & H4). split; [done|split; [done|split; [done|]]].
    intros i Hi'. rewrite bool_decide_false by apply not_elem_of_nil. by apply H4.
  - apply Forall_cons in Hi as [Hi His]. wp_call (picenable_spec en irq s Hs Hi). intros [] s1 Hs1.
    eapply wp_mono; [by apply (IH _ s1 Hs1)|]. intros [] s2 (H1 & H2 & H3 & H4). split; [done|split; [done|split; [done|]]].
    intros i Hi'. rewrite H4 by done. f_equal. rewrite orb_assoc, (orb_comm _ (i =? irq)). f_equal.
    destruct (Z.eqb_spec i irq) as [->|Hne]; cbn [orb]; [symmetry; apply bool_decide_true; by left|].
    apply bool_decide_ext. rewrite elem_of_cons. naive_solver.
Qed.

(** After [picinit] and any calls of [picenable], the masks last written to the
    two controllers are the bytes of [irqmask], and they let through exactly
    the interrupts enabled and the line of the slave. *)
Theorem pic_enabled irqs s :
  ic_irqmask s = irqmask0 → Forall (λ i, 0 ≤ i < 16) irqs →
  wp (picinit;; picenables irqs) (λ _ s', ∃ lo hi,
    last_port (IO_PIC1 + 1) (ic_log s') = Some lo ∧ last_port (IO_PIC2 + 1) (ic_log s') = Some hi ∧
    ic_irqmask s' = lo + 2 ^ 8 * hi ∧
    ∀ i, 0 ≤ i < 16 → Z.testbit (lo + 2 ^ 8 * hi) i = negb (bool_decide (i ∈ irqs) || (i =? IRQ_SLAVE))) s.
Proof.
  intros Hm Hi. wp_step. unfold picinit, poutb, hw. wp_steps. cbn [ic_irqmask with_log]. rewrite Hm.
  change (negb (irqmask0 =? 0xFFFF)) with true. cbn [when].
  eapply wp_mono; [apply picsetmask_spec; by vm_compute|]. intros [] s1 (E & P1 & P2).
  eapply wp_mono; [apply (picenables_spec irqs (λ i, i =? IRQ_SLAVE) s1)|]; [|done|].
  - unfold pic_ok. rewrite E. split_and!; try done. intros i Hi'. unfold irqmask0. rewrite Z.land_spec, Z.lnot_spec by lia.
    change 0xFFFF with (Z.ones 16). rewrite Z.ones_spec_low by lia. rewrite Z.shiftl_1_l, Z.pow2_bits_eqb by lia.
    by rewrite Z.eqb_sym.
  - intros [] s2 (R & L & Hh & B). eexists _, _. split_and!; [exact L|exact Hh| |].
    + rewrite Z.add_comm. apply Z.div_mod. lia.
    + intros i Hi'. rewrite Z.add_comm, <-(Z.div_mod (ic_irqmask s2) (2 ^ 8)) by lia. by apply B.
Qed.

Lemma pic_enabled_witness : ∃ s,
  wp (picinit;; picenables [0; 1; 4]) (λ _ s', ∃ lo hi,
    last_port (IO_PIC1 + 1) (ic_log s') = Some lo ∧ last_port (IO_PIC2 + 1) (ic_log s') = Some hi ∧
    ic_irqmask s' = lo + 2 ^ 8 * hi ∧
    ∀ i, 0 ≤ i < 16 → Z.testbit (lo + 2 ^ 8 * hi) i = negb (bool_decide (i ∈ [0; 1; 4]) || (i =? IRQ_SLAVE))) s.
Proof.
  exists (Build_intctl false 0 false irqmask0 0 [] []). apply (pic_enabled [0; 1; 4]); [done|]. repeat constructor; lia.
Defined.

(** ** The I/O APIC *)

(** The last value written to a register of the redirection table. *)
Fixpoint last_ioapic (r : Z) (l : list hwrite) : option Z :=
  match l with
  | [] => None
  | IoApic q v :: l' => if q =? r then Some v else last_ioapic r l'
  | _ :: l' => last_ioapic r l'
  end.

(** The entry for interrupt [i]: masked, or routed to a processor. *)
Definition entry_is (l : list hwrite) (i : Z) (cpu : option Z) : Prop :=
  last_ioapic (REG_TABLE + 2 * i) l = Some (match cpu with
    | None => u32 (Z.lor INT_DISABLED (T_IRQ0 + i)) | Some _ => u32 (T_IRQ0 + i) end) ∧
  last_ioapic (REG_TABLE + 2 * i + 1) l = Some (match cpu with None => 0 | Some c => u32 (Z.shiftl c 24) end).

(** The processor of the last call that enables [i]. *)
Definition routed (calls : list (Z * Z)) (i : Z) : option Z :=
  foldl (λ acc x, if decide (x.1 = i) then Some x.2 else acc) None calls.

Section Routes.
Context `{IntHw}.

Definition ioapicenables : list (Z * Z) → M intctl () := foldr (λ x m, ioapicenable x.1 x.2;; m) (mret ()).

(** Two writes to the entry of interrupt [i]. *)
Lemma entry_write l i c lo hi j :
  entry_is (IoApic (REG_TABLE + 2 * i + 1) hi :: IoApic (REG_TABLE + 2 * i) lo :: l) j c ↔
  if decide (j = i) then
    lo = match c with None => u32 (Z.lor INT_DISABLED (T_IRQ0 + i)) | Some _ => u32 (T_IRQ0 + i) end ∧
    hi = match c with None => 0 | Some c => u32 (Z.shiftl c 24) end
  else entry_is l j c.
Proof.
  unfold entry_is. cbn [last_ioapic]. case_decide as E.
  - subst. rewrite (proj2 (Z.eqb_neq (16 + 2 * i + 1) (16 + 2 * i))), !Z.eqb_refl by lia. split; [intros [[=] [=]]|intros [-> ->]]; done.
  - by rewrite !(proj2 (Z.eqb_neq _ _)) by lia.
Qed.

Lemma ioapic_clear_spec n : ∀ i s,
  wp (ioapic_clear i n) (λ _ s', ic_ismp s' = ic_ismp s ∧
    ∀ j, (i ≤ j < i + Z.of_nat n ∨ entry_is (ic_log s) j None) → entry_is (ic_log s') j None) s.
Proof.
  induction n as [|n IH]; intros i s; cbn [ioapic_clear].
  - wp_step. split; [done|]. intros j [?|?]; [lia|done].
  - unfold ioapicwrite, hw at 1 2. wp_steps.
    eapply wp_mono; [apply (IH (i + 1))|]. intros [] s' (E & H1). split; [done|]. intros j Hj. apply H1.
    destruct (decide (j = i)) as [->|Hne].
    + right. apply entry_write. by rewrite decide_True.
    + destruct Hj; [left; lia|]. right. apply entry_write. by rewrite decide_False.
Qed.

Lemma ioapicenables_spec calls : ∀ s i c, ic_ismp s = true → entry_is (ic_log s) i c →
  wp (ioapicenables calls) (λ _ s', entry_is (ic_log s') i
    (foldl (λ acc x, if decide (x.1 = i) then Some x.2 else acc) c calls)) s.
Proof.
  unfold ioapicenables. induction calls as [|[irq cpu] calls IH]; intros s i c Hs He; cbn [foldr foldl fst snd]; [by wp_step|].
  unfold ioapicenable, ioapicwrite, hw. wp_steps. rewrite Hs. cbn [negb]. wp_steps. apply IH; [done|].
  apply entry_write. destruct (decide (irq = i)) as [->|Hne]; [by rewrite decide_True|by rewrite decide_False by congruence].
Qed.

(** After [ioapicinit] and any calls of [ioapicenable], the redirection entry
    of each interrupt the chip has is masked, or, if a call enabled the
    interrupt, delivers vector [T_IRQ0 + i] to the processor of the last such
    call. *)
Theorem ioapic_routes calls i s :
  ic_ismp s = true → 0 ≤ i ≤ Z.land (Z.shiftr (ioapic_val (ic_log s) REG_VER) 16) 0xFF →
  wp (ioapicinit;; ioapicenables calls) (λ _ s', entry_is (ic_log s') i (routed calls i)) s.
Proof.
  intros Hs Hi. unfold ioapicinit, ioapicread. wp_steps. rewrite Hs. cbn [negb]. wp_steps.
  set (maxintr := Z.land _ _) in *. apply wp_when; intros _; unfold say; wp_steps;
    (eapply wp_mono; [apply ioapic_clear_spec|]; intros [] s1 (E & H1); cbn in E;
     apply ioapicenables_spec; [congruence|apply H1; left; lia]).
Qed.

End Routes.

Lemma ioapic_routes_witness :
  let H := {| ioapic_val _ r := if r =? 1 then Z.shiftl 23 16 else 0; lapic_val _ _ := [] |} : IntHw in
  ∃ s, wp (ioapicinit;; ioapicenables [(1, 0); (14, 1)]) (λ _ s', entry_is (ic_log s') 14 (Some 1)) s.
Proof.
  intros H. exists (Build_intctl true 0 true irqmask0 0 [] []).
  apply (ioapic_routes (H := H) [(1, 0); (14, 1)] 14); [done|by vm_compute].
Defined.
