(* ===== verification/Main.v ===== *)
(** * Main: booting the kernel (main.c, entryother.S)

    [main] puts the parts of the kernel together: it brings up the memory
    allocator, the page table, the processors' tables, the interrupt
    controllers, the devices and the caches, starts the other processors and
    makes the first process.  The state of the machine is that of the parts;
    each call is lifted to it.  Locks start free ([initlock]), so [pinit],
    [fileinit] and [iinit] do nothing here. *)

From S2P Require Import Prelude Bytes CString Ring Kernel Sched Ide Bio Log Crash Block Inode Icache Dir Path Kalloc Pipe File Print Vm Kvm Proc Kbd Console IdeDriver Syscall SysProc Exec SysFile Trap Mp IntCtl.

#[local] Arguments replicate : simpl never.

(** ** The machine *)

(** What belongs to one processor: its [struct cpu] and registers, and what it
    runs.  [pc_esp] is the stack it entered the kernel's C code with. *)
Record percpu := mk_percpu { pc_cpu : cpu; pc_cr3 : Z; pc_proc : option nat; pc_held : list lockid; pc_esp : Z }.

(** The kernel as the processor [mc_me] sees it, the interrupt controllers,
    mp.c's variables, the other processors, the first megabyte of physical
    memory, the interrupt table and the processors that have loaded it. *)
Record machine := mk_machine {
  mc_k : kstate; mc_int : intctl; mc_mp : mpstate; mc_me : nat; mc_esp : Z; mc_cpus : list percpu;
  mc_low : gmap Z Z; mc_idt : list gatedesc; mc_idtr : list nat }.

Definition set_k v s := mk_machine v (mc_int s) (mc_mp s) (mc_me s) (mc_esp s) (mc_cpus s) (mc_low s) (mc_idt s) (mc_idtr s).
Definition set_int v s := mk_machine (mc_k s) v (mc_mp s) (mc_me s) (mc_esp s) (mc_cpus s) (mc_low s) (mc_idt s) (mc_idtr s).
Definition set_mp v s := mk_machine (mc_k s) (mc_int s) v (mc_me s) (mc_esp s) (mc_cpus s) (mc_low s) (mc_idt s) (mc_idtr s).
Definition set_esp v s := mk_machine (mc_k s) (mc_int s) (mc_mp s) (mc_me s) v (mc_cpus s) (mc_low s) (mc_idt s) (mc_idtr s).
Definition set_low v s := mk_machine (mc_k s) (mc_int s) (mc_mp s) (mc_me s) (mc_esp s) (mc_cpus s) v (mc_idt s) (mc_idtr s).
Definition set_idt v s := mk_machine (mc_k s) (mc_int s) (mc_mp s) (mc_me s) (mc_esp s) (mc_cpus s) (mc_low s) v (mc_idtr s).
Definition set_idtr v s := mk_machine (mc_k s) (mc_int s) (mc_mp s) (mc_me s) (mc_esp s) (mc_cpus s) (mc_low s) (mc_idt s) v.

(** The machine runs on another processor from here on. *)
Definition park (s : machine) : percpu :=
  let m := ks_misc (mc_k s) in mk_percpu (ms_cpu m) (ms_cr3 m) (ks_cur (mc_k s)) (ks_held (mc_k s)) (mc_esp s).
Definition unpark (c : percpu) (k : kstate) : kstate :=
  set_held (pc_held c) (set_cur (pc_proc c) (set_misc (with_ms_cr3 (pc_cr3 c) (with_ms_cpu (pc_cpu c) (ks_misc k))) k)).
Definition switch_cpu (n : nat) : M machine () := λ s,
  match mc_cpus s !! n with
  | None => Fault
  | Some c => Ok () (mk_machine (unpark c (mc_k s)) (mc_int s) (mc_mp s) n (pc_esp c) (<[mc_me s:=park s]> (mc_cpus s))
      (mc_low s) (mc_idt s) (mc_idtr s))
  end.

(** Computations on a part of the machine. *)
Definition lift {S A} (get : machine → S) (put : S → machine → machine) (m : M S A) : M machine A := λ s,
  match m (get s) with
  | Ok a t => Ok a (put t s)
  | Panic e => Panic e
  | Sleep t => Sleep (put t s)
  | Fault => Fault
  end.

Definition liftK {A} : K A → M machine A := lift mc_k set_k.

(** [ismp], [ioapicid] and [lapic] of mp.c are the variables lapic.c and
    ioapic.c read. *)
Definition share (t : mpstate) (i : intctl) : intctl :=
  {| ic_ismp := mp_ismp t; ic_ioapicid := mp_ioapicid t; ic_lapic := negb (mp_lapic t =? 0); ic_irqmask := ic_irqmask i;
     ic_warned := ic_warned i; ic_out := ic_out i; ic_log := ic_log i |}.
Definition liftM {A} : M mpstate A → M machine A := lift mc_mp (λ t s, set_int (share t (mc_int s)) (set_mp t s)).

(** What the kernel finds at boot: the tables of the BIOS, the registers of the
    devices, and what the linker and the build put into the kernel. *)
Class BootEnv := {
  be_hw : nat → IntHw;                      (* the interrupt hardware, as each processor sees it *)
  be_mem : Z → Z; be_imcr : Z; be_mpfuel : nat;
  be_lsr : Z; be_ide : list Z;
  be_vectors : list Z; be_initcode : list Z; be_entryother : list Z;
  be_cpus : Z; be_mpenter : Z; be_entrypgdir : Z;
}.

(** The driver the kernel is linked with: ide.c, or memide.c and the disk image
    [_binary_fs_img_start]. *)
Inductive driver := Ide_c | Memide_c (img : list Z).

Section Code.
Context `{Linker} `{Drive} `{Ide} `{Devsw} `{BootEnv}.

Definition liftI {A} (m : IntHw → M intctl A) : M machine A := λ s, lift mc_int set_int (m (be_hw (mc_me s))) s.

(** ** The calls of main *)

(** Interrupts are off until the scheduler turns them on. *)
Definition cpunum_here : M machine Z := liftI (λ _, cpunum 0 0).
Definition seginit_here : M machine () := c ← cpunum_here; liftK (seginit (u32 (be_cpus + SIZE_cpu * c))).

(** [cpu->id] *)
Definition cpu_id : M machine Z :=
  s ← gets id;
  the (mp_ids (mc_mp s) !! Z.to_nat ((c_cpu (ms_cpu (ks_misc (mc_k s))) - be_cpus) / SIZE_cpu)).

Definition irq_enable (irq cpu : Z) : M machine () := liftI (λ _, picenable irq);; liftI (λ _, ioapicenable irq cpu).

Definition consoleinit_irq : M machine () := liftK consoleinit;; irq_enable IRQ_KBD 0.
Definition uartinit_irq : M machine () :=
  liftK (uartinit be_lsr);; when (negb (be_lsr =? 0xFF)) (irq_enable IRQ_COM1 0).
Definition ideinit_irq : M machine () :=
  n ← gets (λ s, mp_ncpu (mc_mp s));
  irq_enable IRQ_IDE (Z.of_nat n - 1);; liftK (ideinit be_ide).

(** [ideinit] of the driver. *)
Definition driver_init (dr : driver) : M machine () :=
  match dr with Ide_c => ideinit_irq | Memide_c img => liftK (memide_ideinit img) end.

Definition idtinit : M machine () := modify (λ s, set_idtr (mc_me s :: mc_idtr s) s).

(** [xchg(&cpu->started, 1)] *)
Definition with_c_started (v : Z) (x : cpu) : cpu :=
  mk_cpu (c_addr x) (c_ts x) (c_gdt x) v (c_cpu x) (c_gdtr x) (c_gs x) (c_tr x).

(** Up to the call of [scheduler], which does not return. *)
Definition mpmain : M machine () :=
  id ← cpu_id;
  liftK (cprintf (String.append "cpu%d: starting" nl) [AInt id]);;
  idtinit;;
  liftK (upd_misc (λ m, with_ms_cpu (with_c_started 1 (ms_cpu m)) m)).

Definition mpenter : M machine () :=
  liftK switchkvm;;
  seginit_here;;
  liftI (λ _, lapicinit);;
  mpmain.

(** ** startothers *)

Fixpoint poke (a : Z) (l : list Z) (m : gmap Z Z) : gmap Z Z :=
  match l with [] => m | b :: l' => poke (a + 1) l' (<[a:=b]> m) end.
Definition poke32 (a v : Z) : M machine () := modify (λ s, set_low (poke a (le_bytes 4 v) (mc_low s)) s).
Definition peek32 (a : Z) : M machine Z :=
  m ← gets mc_low; b ← the (mapM (λ k, m !! (a + Z.of_nat k)) (seq 0 4)); mret (le_val b).

(** The end of entryother.S, on the processor that was started: the page table,
    the stack and the function are the words below the code. *)
Definition entryother (code : Z) : M machine () :=
  pgdir ← peek32 (code - 12);
  liftK (lcr3 pgdir);;
  stack ← peek32 (code - 4);
  modify (set_esp stack);;
  f ← peek32 (code - 8);
  if negb (f =? be_mpenter) then fault else mpenter.

(** The startup interrupt lets processor [n] run [entryother]; [startothers]
    waits until it has set [started], and for ever if it does not. *)
Definition startap (n : nat) (apicid code : Z) : M machine () :=
  me ← gets mc_me;
  liftI (λ _, lapicstartap apicid code);;
  switch_cpu n;;
  entryother code;;
  switch_cpu me;;
  c ← gets (λ s, mc_cpus s !! n); c ← the c;
  if c_started (pc_cpu c) =? 0 then fault else mret ().

Fixpoint startothers_loop (code : Z) (n k : nat) : M machine () :=
  match k with
  | O => mret ()
  | S k' =>
      me ← cpunum_here;
      when (negb (Z.of_nat n =? me)) (
        stack ← liftK kalloc;
        poke32 (code - 4) (u32 (stack + KSTACKSIZE));;
        poke32 (code - 8) be_mpenter;;
        poke32 (code - 12) (v2p be_entrypgdir);;
        ids ← gets (λ s, mp_ids (mc_mp s));
        id ← the (ids !! n);
        startap n id code);;
      startothers_loop code (S n) k'
  end.

Definition startothers : M machine () :=
  let code := 0x7000 in
  modify (λ s, set_low (poke code be_entryother (mc_low s)) s);;
  n ← gets (λ s, mp_ncpu (mc_mp s));
  startothers_loop code 0 n.

(** ** main *)

Definition main (dr : driver) : M machine () :=
  liftK (kinit1 ld_end (p2v (4 * 1024 * 1024)));;
  liftK kvmalloc;;
  liftM (mpinit be_mem be_mpfuel be_imcr);;
  liftI (λ _, lapicinit);;
  seginit_here;;
  id ← cpu_id;
  liftK (cprintf (String.append nl (String.append "cpu%d: starting xv6" (String.append nl nl))) [AInt id]);;
  liftI (λ _, picinit);;
  liftI (λ _, ioapicinit);;
  consoleinit_irq;;
  uartinit_irq;;
  modify (set_idt (tvinit be_vectors));;
  liftK binit;;
  driver_init dr;;
  ismp ← gets (λ s, mp_ismp (mc_mp s));
  when (negb ismp) (liftI (λ _, timerinit));;
  startothers;;
  liftK (kinit2 (p2v (4 * 1024 * 1024)) (p2v PHYSTOP));;
  liftK (userinit be_initcode);;
  mpmain.

End Code.

(** [entrypgdir]: 4 MB pages for the first 4 MB of memory, at 0 and at [KERNBASE]. *)
Abbreviation PTE_PS := 0x80.
Definition entrypgdir : list Z :=
  let e := Z.lor (Z.lor (Z.lor 0 PTE_P) PTE_W) PTE_PS in <[0%nat:=e]> (<[Z.to_nat (Z.shiftr KERNBASE 22):=e]> (replicate NPDENTRIES 0)).
