(* ===== verification/MainBoot.v ===== *)
(** * MainBoot: what booting establishes (main.c)

    Every step of [main] succeeds, on any machine with enough memory and
    hardware that answers, and leaves the state the other parts of the kernel
    start from: one runnable process with the boot program, an empty buffer
    cache over the disk, a free list, and every processor with its own stack,
    its segments and the kernel's page table. *)

From S2P Require Import Prelude Bytes CString Ring Kernel Sched Ide Bio Log Crash Block Inode Icache Dir Path Kalloc Pipe File Print Vm Kvm Proc UserInit Kbd Console IdeDriver Syscall SysProc Exec SysFile Trap Mp IntCtl Main.

#[local] Arguments replicate : simpl never.

(** ** What the steps leave alone *)

(** The parts of the kernel that no step before [userinit] touches. *)
Record frame (s s' : kstate) : Prop := {
  fm_procs : ks_procs s' = ks_procs s;
  fm_held : ks_held s' = ks_held s;
  fm_pid : ks_nextpid s' = ks_nextpid s;
  fm_init : ks_initproc s' = ks_initproc s;
  fm_ticks : ks_ticks s' = ks_ticks s;
  fm_inodes : ks_inodes s' = ks_inodes s;
  fm_log : ks_log s' = ks_log s;
  fm_disk : ks_disk s' = ks_disk s;
  fm_first : ms_first (ks_misc s') = ms_first (ks_misc s);
}.

(** The processor and the page tables it uses. *)
Record same_cpu (s s' : kstate) : Prop := {
  sc_cur : ks_cur s' = ks_cur s;
  sc_cpu : ms_cpu (ks_misc s') = ms_cpu (ks_misc s);
  sc_cr3 : ms_cr3 (ks_misc s') = ms_cr3 (ks_misc s);
  sc_kpgdir : ms_kpgdir (ks_misc s') = ms_kpgdir (ks_misc s);
}.

(** The memory and its allocator. *)
Record same_mem (s s' : kstate) : Prop := {
  sm_mem : ks_mem s' = ks_mem s;
  sm_free : ks_freelist s' = ks_freelist s;
}.

(** The console can be printed on. *)
Definition printing (s : kstate) : Prop := screen_ok (ks_cons s) ∧ cn_panicked (ks_cons s) = false.

#[export] Instance frame_preorder : PreOrder frame.
Proof. split; [done|]. intros s1 s2 s3 [] []. split; congruence. Qed.
#[export] Instance same_cpu_preorder : PreOrder same_cpu.
Proof. split; [done|]. intros s1 s2 s3 [] []. split; congruence. Qed.
#[export] Instance same_mem_preorder : PreOrder same_mem.
Proof. split; [done|]. intros s1 s2 s3 [] []. split; congruence. Qed.

(** A step that leaves the rest of the kernel alone. *)
Record plain (s s' : kstate) : Prop := {
  pl_frame : frame s s';
  pl_mem : same_mem s s';
  pl_bufs : ks_bufs s' = ks_bufs s;
  pl_print : printing s → printing s';
}.

#[export] Instance plain_preorder : PreOrder plain.
Proof. split; [done|]. intros s1 s2 s3 [] []. split; [by etrans|by etrans|congruence|auto]. Qed.

(** A step of a device driver: it may print and write to ports. *)
Record dev_step (s s' : kstate) : Prop := { ds_plain : plain s s'; ds_cpu : same_cpu s s' }.

#[export] Instance dev_step_preorder : PreOrder dev_step.
Proof. split; [done|]. intros s1 s2 s3 [] []. split; by etrans. Qed.

Lemma dev_step_intro s s' : frame s s' → same_cpu s s' → same_mem s s' → ks_bufs s' = ks_bufs s →
  (printing s → printing s') → dev_step s s'.
Proof. done. Qed.

Lemma printed_dev s out s' : printed s out s' → dev_step s s'.
Proof.
  intros [[x ->] Hs _ [Hp _] _ _]. apply dev_step_intro; try done. intros [_ Hpr]. split; [done|]. simpl in *. congruence.
Qed.

Lemma cprintf_dev fmt args out s : render (chars fmt) args = Some out → printing s → L_cons ∉ ks_held s →
  wp (cprintf fmt args) (λ _ s', dev_step s s') s.
Proof.
  intros Hr [Hs Hp] Hl. eapply wp_mono; [by apply (cprintf_spec fmt args out)|]. intros [] s' P. by eapply printed_dev.
Qed.

Lemma consoleinit_dev s : wp consoleinit (λ _ s', dev_step s s') s.
Proof. unfold consoleinit, upd_cons. wp_steps. apply dev_step_intro; try done. intros [[] ?]. by split; [split|]. Qed.

Lemma outb_dev port v s : wp (outb port v) (λ _ s', dev_step s s') s.
Proof. unfold outb, upd_misc. wp_steps. by apply dev_step_intro. Qed.

Lemma uartputc_dev c s : wp (uartputc c) (λ _ s', dev_step s s') s.
Proof. eapply wp_mono; [apply uartputc_spec|]. intros [] s' ->. apply dev_step_intro; try done. intros [[] ?]. by split; [split|]. Qed.

Lemma uart_puts_dev l : ∀ s, wp (uart_puts l) (λ _ s', dev_step s s') s.
Proof.
  induction l as [|c l IH]; intros s; cbn [uart_puts]; [by wp_step|]. wp_call (uartputc_dev c s). intros [] s1 H1.
  eapply wp_mono; [apply IH|]. intros [] s2 H2. by etrans.
Qed.

(** Going on after a device step. *)
Lemma dev_bind {A B} (m : K A) (k : A → K B) (Q : B → kstate → Prop) s :
  wp m (λ _ s', dev_step s s') s → (∀ a s', dev_step s s' → wp (k a) Q s') → wp (m ≫= k) Q s.
Proof. intros Hm Hk. apply wp_bind. eapply wp_mono; [exact Hm|]. auto. Qed.

Lemma uartinit_dev lsr s : wp (uartinit lsr) (λ _ s', dev_step s s') s.
Proof.
  unfold uartinit. do 7 (eapply dev_bind; [apply outb_dev|]; intros [] ? ?).
  assert (∀ s6, dev_step s s6 → wp (if lsr =? 0xFF then mret () else upd_misc (with_ms_uart true);; uart_puts (chars "xv6..." ++ [10]))
    (λ _ s', dev_step s s') s6) as Hend; [|apply Hend; repeat (etrans; [eassumption|]); done].
  intros s6 H6. destruct (lsr =? 0xFF); [by wp_step|]. eapply dev_bind; [unfold upd_misc; wp_steps; by apply dev_step_intro|].
  intros [] s7 H7. eapply wp_mono; [apply uart_puts_dev|]. intros [] s8 H8. do 2 (etrans; [done|]). done.
Qed.

Lemma ideinit_dev `{Drive} reads s : (∀ ps, is_Some (poll (drv_status ps))) → wp (ideinit reads) (λ _ s', dev_step s s') s.
Proof.
  intros Hp. unfold ideinit. eapply dev_bind.
  { unfold idewait. wp_steps. destruct (Hp (ms_ports (ks_misc s))) as [r Hr]. eapply wp_the; [done|]. by wp_step. }
  intros _ s1 H1. eapply dev_bind; [apply outb_dev|]. intros [] s2 H2. eapply dev_bind.
  { unfold when, upd_misc. destruct (existsb _ _); wp_steps; by apply dev_step_intro. }
  intros [] s3 H3. eapply wp_mono; [apply outb_dev|]. intros [] s4 H4. do 3 (etrans; [done|]). done.
Qed.

(** [binit] changes the buffers only. *)
Definition only_bufs {A} (m : K A) : Prop := ∀ s a s', m s = Ok a s' → ∃ bs, s' = set_bufs bs s.

Lemma only_bufs_ret {A} (a : A) : only_bufs (mret a).
Proof. intros s b s' [= <- <-]. exists (ks_bufs s). by destruct s. Qed.

Lemma only_bufs_bind {A B} (m : K A) (k : A → K B) : only_bufs m → (∀ a, only_bufs (k a)) → only_bufs (m ≫= k).
Proof.
  intros Hm Hk s b s'. unfold mbind, M_bind. destruct (m s) as [a s1| | |] eqn:E; try done.
  destruct (Hm _ _ _ E) as [bs ->]. intros E'. destruct (Hk _ _ _ _ E') as [bs' ->]. by exists bs'.
Qed.

Lemma only_bufs_get b : only_bufs (get_buf b).
Proof. intros s a s'. unfold get_buf. destruct (ks_bufs s !! b); [|done]. intros [= <- <-]. exists (ks_bufs s). by destruct s. Qed.

Lemma only_bufs_upd b f : only_bufs (upd_buf b f).
Proof. intros s a s'. unfold upd_buf. destruct (ks_bufs s !! b); [|done]. intros [= <- <-]. by eexists. Qed.

Lemma binit_only_bufs : only_bufs binit.
Proof.
  assert (∀ b, only_bufs (binit_link b)) as Hl
    by (intros b; repeat (apply only_bufs_bind; [apply only_bufs_get || apply only_bufs_upd|intros ?]); apply only_bufs_upd).
  unfold binit. do 2 (apply only_bufs_bind; [apply only_bufs_upd|intros _]). generalize (seq 0 NBUF).
  induction l as [|b l IH]; cbn [binit_loop]; [apply only_bufs_ret|]. by apply only_bufs_bind.
Qed.

Lemma binit_boot s : fresh_bufs (ks_bufs s) → Forall block_ok (ks_disk s) →
  wp binit (λ _ s', frame s s' ∧ same_cpu s s' ∧ same_mem s s' ∧ (printing s → printing s') ∧
    cache (ks_bufs s') (ks_disk s') (disk_view (ks_disk s)) ∅ ∅) s.
Proof.
  intros Hb Hd. destruct (proj1 (wp_runs _ _ _) (binit_spec s Hb Hd)) as ([] & s' & R & _ & _ & _ & _ & Hc).
  destruct (binit_only_bufs _ _ _ R) as [bs ->]. apply wp_runs. exists (), (set_bufs bs s). done.
Qed.

(** ** The interrupt controllers *)

(** Programming the controllers does not change what mp.c found out. *)
Record same_int (i i' : intctl) : Prop := {
  si_ismp : ic_ismp i' = ic_ismp i;
  si_ioapicid : ic_ioapicid i' = ic_ioapicid i;
  si_lapic : ic_lapic i' = ic_lapic i;
}.

#[export] Instance same_int_preorder : PreOrder same_int.
Proof. split; [done|]. intros s1 s2 s3 [] []. split; congruence. Qed.

(** The local APIC of processor [n] answers: it has its number, and delivers
    interrupts in the end. *)
Record hw_ok (hw : IntHw) (n : nat) : Prop := {
  hk_ver : ∀ l, lapic_val l VER ≠ [];
  hk_idle : ∀ l, is_Some (list_find (λ v, Z.land v DELIVS = 0) (lapic_val l ICRLO));
  hk_id : ∀ l, ∃ v r, lapic_val l ID = v :: r ∧ Z.shiftr v 24 = Z.of_nat n;
}.

Definition int_ok {A} (m : M intctl A) : Prop := ∀ s, wp m (λ _ s', same_int s s') s.

Lemma int_ret {A} (a : A) : int_ok (mret a).
Proof. intros s. by wp_step. Qed.

Lemma int_gets {A} (f : intctl → A) : int_ok (gets f).
Proof. intros s. by wp_step. Qed.

Lemma int_bind {A B} (m : M intctl A) (k : A → M intctl B) : int_ok m → (∀ a, int_ok (k a)) → int_ok (m ≫= k).
Proof.
  intros Hm Hk s. apply wp_bind. eapply wp_mono; [apply Hm|]. intros a s1 H1.
  eapply wp_mono; [apply Hk|]. intros b s2 H2. exact (transitivity H1 H2).
Qed.

Lemma int_when b m : int_ok m → int_ok (when b m).
Proof. intros Hm. destruct b; [done|apply int_ret]. Qed.

Lemma int_if {A} (b : bool) (m1 m2 : M intctl A) : int_ok m1 → int_ok m2 → int_ok (if b then m1 else m2).
Proof. by destruct b. Qed.

Lemma int_hw w : int_ok (hw w).
Proof. intros s. unfold hw. wp_step. by split. Qed.

Lemma int_modify f : (∀ s, same_int s (f s)) → int_ok (modify f).
Proof. intros Hf s. wp_step. apply Hf. Qed.

Create HintDb int.
#[export] Hint Resolve int_ret int_gets int_when int_if int_hw : int.
#[export] Hint Extern 4 (int_ok (modify _)) => (apply int_modify; intros ?; by split) : int.
#[export] Hint Extern 2 (int_ok (mbind _ _)) => (apply int_bind; [|intros ?]) : int.

Lemma picsetmask_int mask : int_ok (picsetmask mask).
Proof. unfold picsetmask, poutb. eauto 10 with int. Qed.
#[export] Hint Resolve picsetmask_int : int.

Lemma picenable_int irq : int_ok (picenable irq).
Proof. unfold picenable. eauto with int. Qed.

Lemma picinit_int : int_ok picinit.
Proof. unfold picinit, poutb. repeat (apply int_bind; [auto with int|intros ?]). auto with int. Qed.

Lemma timerinit_int : int_ok timerinit.
Proof. unfold timerinit, poutb. do 3 (apply int_bind; [auto with int|intros ?]). apply picenable_int. Qed.

Section Hw.
Context `{IntHw} (n : nat) (Hhw : hw_ok _ n).
#[local] Set Default Proof Using "Type".

Lemma ioapic_clear_int k : ∀ i, int_ok (ioapic_clear i k).
Proof.
  induction k as [|k IH]; intros i; cbn [ioapic_clear]; [apply int_ret|]. unfold ioapicwrite.
  repeat (apply int_bind; [auto with int|intros ?]). apply IH.
Qed.

Lemma ioapicinit_int : int_ok ioapicinit.
Proof.
  unfold ioapicinit, ioapicread, say. apply int_bind; [auto with int|]. intros b. apply int_if; [auto with int|].
  repeat (apply int_bind; [auto with int|intros ?]). apply ioapic_clear_int.
Qed.

Lemma ioapicenable_int irq c : int_ok (ioapicenable irq c).
Proof. unfold ioapicenable, ioapicwrite. eauto 10 with int. Qed.

Lemma lapicstartap_int id addr : int_ok (lapicstartap id addr).
Proof. unfold lapicstartap, poutb, lapicw. repeat (apply int_bind; [auto with int|intros ?]). auto with int. Qed.

Lemma lapicinit_int : int_ok lapicinit.
Proof using Hhw.
  assert (int_ok (lapicr VER)) as Hv.
  { intros s. unfold lapicr. wp_step. wp_step. pose proof (hk_ver _ _ Hhw (ic_log s)) as Hne.
    destruct (lapic_val (ic_log s) VER) as [|v r]; [done|]. by eapply wp_the. }
  assert (int_ok lapic_wait) as Hw.
  { intros s. unfold lapic_wait. wp_step. wp_step. destruct (hk_idle _ _ Hhw (ic_log s)) as [x Hx].
    wp_step. eapply wp_the; [exact Hx|]. by wp_step. }
  unfold lapicinit, lapicw. apply int_bind; [auto with int|]. intros b. apply int_if; [auto with int|].
  repeat (apply int_bind; [auto with int|intros ?]). auto with int.
Qed.

(** [cpunum] with interrupts off, when there is a local APIC and when not. *)
Lemma cpunum_off s : wp (cpunum 0 0) (λ r s', s' = s ∧ r = if ic_lapic s then Z.of_nat n else 0) s.
Proof using Hhw.
  unfold cpunum. change (hasb 0 0x200) with false. unfold when. wp_steps. destruct (ic_lapic s); cbn [negb]; [|by wp_step].
  wp_step. unfold lapicr. wp_steps. destruct (hk_id _ _ Hhw (ic_log s)) as (v & r & E & Ev). eapply wp_the; [by rewrite E|]. by wp_step.
Qed.

End Hw.

#[export] Hint Resolve picenable_int picinit_int timerinit_int ioapicinit_int ioapicenable_int : int.

(** ** Calls on a part of the machine *)

Lemma wp_lift {S A} (get : machine → S) put (m : M S A) (Q : A → machine → Prop) s :
  wp m (λ a t, Q a (put t s)) (get s) → wp (lift get put m) Q s.
Proof. unfold wp, lift. by destruct (m (get s)). Qed.

Lemma wp_liftK {A} (m : K A) (Q : A → machine → Prop) s : wp m (λ a k, Q a (set_k k s)) (mc_k s) → wp (liftK m) Q s.
Proof. apply wp_lift. Qed.

(** ** Words in low memory *)

Lemma lookup_poke l : ∀ a m x, poke a l m !! x = if decide (a ≤ x < a + Z.of_nat (length l)) then l !! Z.to_nat (x - a) else m !! x.
Proof.
  induction l as [|v l IH]; intros a m x; cbn [poke length]; [rewrite decide_False by lia; done|]. rewrite IH. destruct (decide (x = a)) as [->|].
  - rewrite decide_False, decide_True by lia. rewrite lookup_insert_eq. by replace (Z.to_nat (a - a)) with 0%nat by lia.
  - destruct (decide (a + 1 ≤ x < a + 1 + Z.of_nat (length l))).
    + rewrite decide_True by lia. replace (Z.to_nat (x - a)) with (S (Z.to_nat (x - (a + 1)))) by lia. done.
    + rewrite decide_False by lia. by rewrite lookup_insert_ne by congruence.
Qed.

(** The word at [a] is [v]. *)
Definition word_at (m : gmap Z Z) (a v : Z) : Prop := ∀ k, (k < 4)%nat → m !! (a + Z.of_nat k) = le_bytes 4 v !! k.

Lemma word_poke m a v : word_at (poke a (le_bytes 4 v) m) a v.
Proof.
  intros k Hk. rewrite lookup_poke, length_le_bytes, decide_True by lia. by replace (Z.to_nat (a + Z.of_nat k - a)) with k by lia.
Qed.

Lemma word_poke_ne m a c v w : a + 4 ≤ c ∨ c + 4 ≤ a → word_at m a v → word_at (poke c (le_bytes 4 w) m) a v.
Proof. intros Hd Hw k Hk. rewrite lookup_poke, length_le_bytes, decide_False by lia. by apply Hw. Qed.

Lemma peek32_spec a v s (Q : Z → machine → Prop) : word_at (mc_low s) a v → 0 ≤ v < 2 ^ 32 → Q v s → wp (peek32 a) Q s.
Proof.
  intros Hw Hv HQ. unfold peek32. wp_steps. eapply (wp_the _ (le_bytes 4 v)).
  - apply mapM_Some. apply Forall2_same_length_lookup. rewrite length_seq, length_le_bytes. split; [done|].
    intros i x y Hx Hy. apply lookup_seq in Hx as [-> Hi]. rewrite Nat.add_0_l, Hw by done. done.
  - wp_step. rewrite le_val_le_bytes, Z.mod_small by (simpl; lia). done.
Qed.

(** ** Memory *)

(** The first 4 MB are all the memory there is at first. *)
Abbreviation LOW := 0x80400000.

(** The page table of the kernel, in the pages [T]. *)
Definition ktable `{Linker} (m : gmap Z (list Z)) (d : Z) (T : gmap Z Z) : Prop :=
  dir_ok m d T ∧ ∀ va, 0 ≤ va < 2 ^ 32 → pte m T va = kernel_pte va.

Lemma ktable_ext `{Linker} m m' d T : ktable m d T → m' !! d = m !! d → (∀ i t, T !! i = Some t → m' !! t = m !! t) → ktable m' d T.
Proof.
  intros [Hd Hp] Ed Et. split; [by eapply dir_ok_mem|]. intros va Hva. rewrite <-Hp by done. unfold pte.
  destruct (T !! PDX va) as [t|] eqn:E; [|done]. by rewrite !lookup_total_alt, (Et _ _ E).
Qed.

Lemma aspace_same k k' d T l : aspace k d T l → same_mem k k' → ks_held k' = [] → aspace k' d T l.
Proof.
  intros [A1 A2 A3 A4 A5] [E1 E2] Hh. split; rewrite ?E1; try done. eapply free_list_ext; [done..|]. rewrite Hh. apply not_elem_of_nil.
Qed.

Lemma uspace_same k k' d T l : uspace k d T l → same_mem k k' → ks_held k' = [] → uspace k' d T l.
Proof. intros [A1 A2 A3] E Hh. split; rewrite ?(sm_mem _ _ E); try done. by eapply aspace_same. Qed.

Section Memory.
Context `{LinkerOk}.
#[local] Set Default Proof Using "All".

Lemma kinit1_spec s : KERNBASE < ld_end ≤ LOW → 521 ≤ (LOW - PGROUNDUP ld_end) / 4096 → ks_freelist s = 0 → ks_held s = [] →
  wp (kinit1 ld_end (p2v (4 * 1024 * 1024))) (λ _ s', ∃ l f m, s' = set_freelist f (set_mem m (set_use_lock false s)) ∧
    free_list s' l ∧ (∀ a, a ∈ l → kpage a ∧ a < LOW) ∧ (521 ≤ length l)%nat) s.
Proof.
  intros He Hn Hf Hh. unfold kinit1. wp_steps. change (p2v (4 * 1024 * 1024)) with LOW.
  set (n := Z.to_nat ((LOW - PGROUNDUP ld_end) / 4096)). set (s1 := set_use_lock false s).
  eapply wp_mono; [apply (freerange_pages ld_end LOW s1 [] n)|]; try done; try lia.
  - by intros a ?%not_elem_of_nil.
  - by apply no_free.
  - rewrite app_nil_r. intros [] s' (F & K & _ & f & m & E). exists (pages_down (PGROUNDUP ld_end) n), f, m.
    split_and!; [done|done| |rewrite length_pages_down; lia]. intros a Ha. split; [by apply K|].
    apply elem_of_pages_down in Ha as (k & Hk & ->). pose proof (Z.mul_div_le (LOW - PGROUNDUP ld_end) 4096 ltac:(lia)). lia.
Qed.

Lemma kvmalloc_spec s l : free_list s l → (∀ a, a ∈ l → kpage a) → (521 ≤ length l)%nat →
  wp kvmalloc (λ _ s', ∃ d T l' f m,
    s' = set_misc (with_ms_cr3 (v2p d) (with_ms_kpgdir d (ks_misc s))) (set_freelist f (set_mem m s)) ∧
    aspace s' d T l' ∧ ktable m d T ∧ (8 ≤ length l')%nat ∧ d ∈ l ∧ (∀ i t, T !! i = Some t → t ∈ l) ∧ ∀ a, a ∈ l' → a ∈ l) s.
Proof.
  intros F K Hl. unfold kvmalloc. wp_call (setupkvm_spec s l F K); [lia|]. intros d s1 (T & l' & Ed & AS & G & Hu & Hc & E).
  pose proof (upper_size T Hu). destruct l as [|d' l]; [simpl in Hl; lia|]. cbn [hd tail length] in *. subst d'.
  destruct (gr_frame _ _ _ _ _ _ _ G) as (m & f & Es), (gr_free _ _ _ _ _ _ _ G) as (k & -> & Hk).
  unfold upd_misc, switchkvm, lcr3. wp_steps. exists d, T, l', f, m. subst s1. split_and!.
  - done.
  - by destruct AS as [? [] ? ? ?].
  - split; [apply AS|done].
  - rewrite length_app in *. lia.
  - by left.
  - intros i t [Ht|Ht]%Hk; [by rewrite lookup_empty in Ht|]. right. by apply elem_of_app; left.
  - intros a Ha. right. by apply elem_of_app; right.
Qed.

Lemma kinit2_spec s l : KERNBASE < ld_end ≤ LOW → free_list s l → (∀ a, a ∈ l → a < LOW) →
  wp (kinit2 (p2v (4 * 1024 * 1024)) (p2v PHYSTOP)) (λ _ s', ∃ L f m, s' = set_use_lock true (set_freelist f (set_mem m s)) ∧
    free_list s' (L ++ l) ∧ (517 ≤ length L)%nat ∧ (∀ a, a ∈ L → kpage a ∧ LOW ≤ a) ∧ ∀ a, a < LOW → m !! a = ks_mem s !! a) s.
Proof.
  intros He F Hl. unfold kinit2. change (p2v (4 * 1024 * 1024)) with LOW. change (p2v PHYSTOP) with (KERNBASE + PHYSTOP).
  assert (∃ n, Z.of_nat n = 56320) as [n Hn] by (exists (Z.to_nat 56320); apply Z2Nat.id; lia). assert (PGROUNDUP LOW = LOW) as HP by done.
  wp_call (freerange_pages LOW (KERNBASE + PHYSTOP) s l n); [lia|lia|done|by rewrite HP, Hn|done|done|].
  rewrite HP. intros [] s1 (F1 & K & M & f & m & ->). wp_steps. exists (pages_down LOW n), f, m.
  split_and!; [done|by destruct F1|rewrite length_pages_down; lia|done|done].
Qed.

End Memory.

Section Boot.
Context `{LinkerOk} `{Drive} `{BootEnv} `{Ide} `{Devsw}.

Lemma wp_liftI {A} (m : IntHw → M intctl A) (Q : A → machine → Prop) s :
  wp (m (be_hw (mc_me s))) (λ a i, Q a (set_int i s)) (mc_int s) → wp (liftI m) Q s.
Proof. intros Hm. unfold liftI. apply (wp_lift mc_int set_int _ Q s Hm). Qed.

(** The address of [cpus[n]]. *)
Definition cpu_at (n : nat) : Z := be_cpus + SIZE_cpu * Z.of_nat n.

(** What the boot relies on: hardware that answers, tables from which [mpinit]
    makes out [t], the addresses of the linker, and memory enough for the page
    tables and the stacks.  [b] is the processor that boots. *)
Record env_ok (t0 t : mpstate) (b : nat) : Prop := {
  eo_hw : ∀ n, (n < NCPU)%nat → hw_ok (be_hw n) n;
  eo_poll : ∀ ps, is_Some (poll (drv_status ps));
  eo_mp : runs_to (mpinit be_mem be_mpfuel be_imcr) t0 () t;
  eo_ncpu : (mp_ncpu t ≤ NCPU)%nat;
  eo_ids : ∀ k, (k < Nat.max 1 (mp_ncpu t))%nat → mp_ids t !! k = Some (Z.of_nat k);
  eo_boot : if mp_lapic t =? 0 then (mp_ncpu t ≤ 1)%nat ∧ b = 0%nat else (b < mp_ncpu t)%nat;
  eo_cpus : 0 ≤ be_cpus ∧ be_cpus + SIZE_cpu * Z.of_nat NCPU ≤ 2 ^ 32;
  eo_mpenter : 0 ≤ be_mpenter < 2 ^ 32;
  eo_initcode : (length be_initcode < 4096)%nat;
  eo_end : KERNBASE < ld_end ≤ 0x80400000 ∧ 521 ≤ (0x80400000 - PGROUNDUP ld_end) / 4096;
}.

Context (t0 t : mpstate) (b : nat) (Henv : env_ok t0 t b).
#[local] Set Default Proof Using "All".

(** The controllers know what [mpinit] found. *)
Definition known (i : intctl) : Prop := ic_lapic i = negb (mp_lapic t =? 0) ∧ ic_ismp i = mp_ismp t.

Lemma known_same i i' : known i → same_int i i' → known i'.
Proof. intros [E1 E2] [S1 S2 S3]. split; congruence. Qed.

(** Processor [n] of those there are. *)
Definition exists_cpu (n : nat) : Prop := n = b ∨ (n < mp_ncpu t)%nat.

Lemma cpu_range n : exists_cpu n → (n < NCPU)%nat ∧ mp_ids t !! n = Some (Z.of_nat n) ∧
  (negb (mp_lapic t =? 0) = false → n = 0%nat) ∧ 0 ≤ cpu_at n ∧ cpu_at n + SIZE_cpu ≤ 2 ^ 32.
Proof.
  intros Hn. destruct Henv. assert (n < NCPU)%nat as Hlt.
  { destruct Hn as [->|]; [|lia]. destruct (mp_lapic t =? 0); lia. }
  split_and!; [done| | |unfold cpu_at; lia|unfold cpu_at; lia].
  - apply eo_ids0. destruct Hn as [->|]; [|lia]. destruct (mp_lapic t =? 0); lia.
  - intros E. destruct (mp_lapic t =? 0); [|done]. destruct Hn; lia.
Qed.

Lemma cpunum_spec n s (Q : Z → machine → Prop) : mc_me s = n → exists_cpu n → known (mc_int s) → Q (Z.of_nat n) s → wp cpunum_here Q s.
Proof.
  intros Hme Hn [Hk _] HQ. destruct (cpu_range n Hn) as (Hlt & _ & Hz & _). apply wp_liftI. rewrite Hme.
  eapply wp_mono; [apply (cpunum_off n (eo_hw _ _ _ Henv n Hlt))|]. intros r i [-> ->]. rewrite Hk.
  assert (set_int (mc_int s) s = s) as -> by by destruct s.
  destruct (negb (mp_lapic t =? 0)); [done|]. by rewrite (Hz eq_refl) in HQ.
Qed.

(** [seginit] on processor [n]. *)
Lemma seginit_here_spec n s (Q : () → machine → Prop) :
  mc_me s = n → exists_cpu n → known (mc_int s) → length (c_gdt (ms_cpu (ks_misc (mc_k s)))) = 7%nat →
  (∀ x, segments (cpu_at n) x → c_started x = c_started (ms_cpu (ks_misc (mc_k s))) →
    Q () (set_k (set_cur None (set_misc (with_ms_cpu x (ks_misc (mc_k s))) (mc_k s))) s)) → wp seginit_here Q s.
Proof.
  intros Hme Hn Hk Hg HQ. destruct (cpu_range n Hn) as (Hlt & _ & _ & C0 & C1). unfold seginit_here. wp_step.
  apply (cpunum_spec n); [done..|]. apply wp_liftK. change (be_cpus + SIZE_cpu * Z.of_nat n) with (cpu_at n).
  rewrite u32_small by lia. eapply wp_mono; [by apply seginit_segments|]. intros [] k (x & Sg & Es & ->). by apply HQ.
Qed.

(** [cpu->id] is the number of the processor. *)
Lemma cpu_id_spec n s (Q : Z → machine → Prop) :
  exists_cpu n → mc_mp s = t → segments (cpu_at n) (ms_cpu (ks_misc (mc_k s))) → Q (Z.of_nat n) s → wp cpu_id Q s.
Proof.
  intros Hn Hmp Sg HQ. destruct (cpu_range n Hn) as (Hlt & Hid & _ & C0 & C1). unfold cpu_id. wp_steps.
  destruct (sg_addr _ _ Sg) as [_ Ec]. unfold id. rewrite Ec, Hmp. unfold cpu_at.
  replace (be_cpus + SIZE_cpu * Z.of_nat n - be_cpus) with (Z.of_nat n * SIZE_cpu) by lia. rewrite Z.div_mul, Nat2Z.id by lia.
  by eapply wp_the.
Qed.

(** [mpmain] up to the scheduler. *)
Definition started_cpu (m : misc) : misc := with_ms_cpu (with_c_started 1 (ms_cpu m)) m.

Lemma mpmain_spec n s (Q : () → machine → Prop) :
  mc_me s = n → exists_cpu n → mc_mp s = t → segments (cpu_at n) (ms_cpu (ks_misc (mc_k s))) →
  printing (mc_k s) → ks_held (mc_k s) = [] →
  (∀ k, dev_step (mc_k s) k → Q () (set_idtr (n :: mc_idtr s) (set_k (set_misc (started_cpu (ks_misc k)) k) s))) → wp mpmain Q s.
Proof.
  intros Hme Hn Hmp Sg Hp Hh HQ. unfold mpmain. wp_step. apply (cpu_id_spec n); [done..|]. wp_step. apply wp_liftK.
  eapply wp_mono; [eapply cprintf_dev; [|done|rewrite Hh; set_solver]; cbn; done|]. intros [] k Hk.
  wp_step. unfold idtinit. wp_steps. apply wp_liftK. unfold upd_misc. wp_steps. simpl. rewrite Hme. by apply HQ.
Qed.

(** ** The other processors *)

(** Processor [n] runs: with its own segments, on the stack page [a], and with
    the page table of the kernel. *)
Record cpu_up (n : nat) (d a : Z) (c : percpu) : Prop := {
  cu_seg : segments (cpu_at n) (pc_cpu c);
  cu_started : c_started (pc_cpu c) = 1;
  cu_cr3 : pc_cr3 c = v2p d;
  cu_proc : pc_proc c = None;
  cu_held : pc_held c = [];
  cu_esp : pc_esp c = a + KSTACKSIZE;
}.

(** A processor that has not been started. *)
Definition cpu_off (c : percpu) : Prop := length (c_gdt (pc_cpu c)) = 7%nat ∧ pc_held c = [].

Lemma plain_unpark c k : pc_held c = ks_held k → plain k (unpark c k).
Proof. intros Hh. split; [split; done|done|done|done]. Qed.

Lemma segments_started c v x : segments c x → segments c (with_c_started v x).
Proof. by intros []. Qed.

Lemma mpenter_spec n s (Q : () → machine → Prop) :
  mc_me s = n → exists_cpu n → mc_mp s = t → known (mc_int s) → length (c_gdt (ms_cpu (ks_misc (mc_k s)))) = 7%nat →
  printing (mc_k s) → ks_held (mc_k s) = [] →
  (∀ k i x, plain (mc_k s) k → same_int (mc_int s) i → ms_cpu (ks_misc k) = x → segments (cpu_at n) x → c_started x = 1 →
    ms_cr3 (ks_misc k) = v2p (ms_kpgdir (ks_misc (mc_k s))) → ms_kpgdir (ks_misc k) = ms_kpgdir (ks_misc (mc_k s)) → ks_cur k = None →
    Q () (set_idtr (n :: mc_idtr s) (set_int i (set_k k s)))) → wp mpenter Q s.
Proof.
  intros Hme Hn Hmp Hk Hg Hp Hh HQ. destruct (cpu_range n Hn) as (Hlt & _). unfold mpenter. wp_step. apply wp_liftK.
  unfold switchkvm, lcr3, upd_misc. wp_steps. apply (seginit_here_spec n); [done..|]. intros x Sg _. cbn.
  wp_step. apply wp_liftI. cbn. rewrite Hme. eapply wp_mono; [apply (lapicinit_int n (eo_hw _ _ _ Henv n Hlt))|]. intros [] i Hi.
  eapply (mpmain_spec n); try done. cbn. intros k [Pl Sc].
  apply (HQ (set_misc (started_cpu (ks_misc k)) k) i (with_c_started 1 (ms_cpu (ks_misc k)))); try done; simpl.
  - etrans; [|etrans; [exact Pl|]]; [|by split]. by split.
  - rewrite (sc_cpu _ _ Sc). simpl. by apply segments_started.
  - by rewrite (sc_cr3 _ _ Sc).
  - by rewrite (sc_kpgdir _ _ Sc).
  - by rewrite (sc_cur _ _ Sc).
Qed.

Lemma wp_switch n c s (Q : () → machine → Prop) : mc_cpus s !! n = Some c →
  Q () (mk_machine (unpark c (mc_k s)) (mc_int s) (mc_mp s) n (pc_esp c) (<[mc_me s:=park s]> (mc_cpus s))
    (mc_low s) (mc_idt s) (mc_idtr s)) → wp (switch_cpu n) Q s.
Proof. intros Hc HQ. unfold wp, switch_cpu. by rewrite Hc. Qed.

(** Starting processor [n] from the boot processor. *)
Lemma startap_spec n a s c (Q : () → machine → Prop) :
  mc_me s = b → n ≠ b → (n < mp_ncpu t)%nat → mc_mp s = t → known (mc_int s) → printing (mc_k s) → ks_held (mc_k s) = [] →
  length (mc_cpus s) = NCPU → mc_cpus s !! n = Some c → cpu_off c →
  word_at (mc_low s) (0x7000 - 4) (a + KSTACKSIZE) → 0 ≤ a + KSTACKSIZE < 2 ^ 32 →
  word_at (mc_low s) (0x7000 - 8) be_mpenter → word_at (mc_low s) (0x7000 - 12) (v2p be_entrypgdir) →
  (∀ k i c', plain (mc_k s) k → same_cpu (mc_k s) k → same_int (mc_int s) i → cpu_up n (ms_kpgdir (ks_misc (mc_k s))) a c' →
    Q () (mk_machine k i t b (mc_esp s) (<[n:=c']> (<[b:=park s]> (mc_cpus s))) (mc_low s) (mc_idt s) (n :: mc_idtr s))) →
  wp (startap n (Z.of_nat n) 0x7000) Q s.
Proof.
  intros Hme Hnb Hn Hmp Hk Hp Hh Hlen Hc [Hg Hoff] W4 Ha W8 W12 HQ. unfold startap. wp_step. wp_step. wp_step. apply wp_liftI.
  eapply wp_mono; [apply lapicstartap_int|]. intros [] i Hi. wp_step. eapply wp_switch; [exact Hc|]. cbn. rewrite Hme, Hmp.
  wp_step. unfold entryother. wp_step. eapply peek32_spec; [exact W12|unfold v2p; apply u32_range|]. wp_step. apply wp_liftK.
  unfold lcr3, upd_misc. wp_steps. eapply peek32_spec; [exact W4|done|]. wp_steps.
  eapply peek32_spec; [exact W8|apply (eo_mpenter _ _ _ Henv)|]. rewrite Z.eqb_refl. cbn [negb].
  assert (length (<[b:=park s]> (mc_cpus s)) = NCPU) as Hlen' by (by rewrite length_insert).
  assert (n < NCPU)%nat as Hn8 by (pose proof (eo_ncpu _ _ _ Henv); lia).
  destruct (cpu_range b ltac:(by left)) as (Hb8 & _).
  eapply (mpenter_spec n); cbn; try done; [by right|by eapply known_same|].
  intros k i' x Pl Hi' Ex Sg Es E3 Ek Ecur. wp_step. eapply wp_switch; [cbn; apply list_lookup_insert_eq; lia|]. cbn.
  wp_step. wp_step. cbn. rewrite list_lookup_insert_eq by (rewrite !length_insert; lia). wp_step. eapply wp_the; [done|]. cbn.
  rewrite Ex, Es. change (1 =? 0) with false. cbn iota. wp_step.
  replace (park (set_int i s)) with (park s) by done.
  assert (ks_held k = []) as Hhk by (by rewrite (fm_held _ _ (pl_frame _ _ Pl))).
  apply HQ.
  - etrans; [|etrans; [exact Pl|]]; [by split; [split; simpl; congruence|..]|]. apply plain_unpark. simpl. congruence.
  - by split.
  - by etrans.
  - split; simpl; congruence.
Qed.

(** The processors below [n] other than the boot processor. *)
Definition aps (n : nat) : list nat := filter (λ k, k ≠ b) (seq 0 n).

Lemma aps_S n : aps (S n) = aps n ++ (if decide (n = b) then [] else [n]).
Proof.
  unfold aps. rewrite seq_S, filter_app. f_equal. rewrite filter_cons, filter_nil. simpl.
  destruct (decide (n = b)); [by rewrite decide_False by tauto|by rewrite decide_True].
Qed.

Lemma aps_length n : (length (aps n) ≤ n)%nat.
Proof.
  induction n as [|n IH]; [done|]. rewrite aps_S, length_app. destruct (decide (n = b)); simpl; lia.
Qed.

Lemma drop_in (n : nat) (l : list Z) a : a ∈ drop n l → a ∈ l.
Proof. intros Ha. rewrite <-(take_drop n l). by apply elem_of_app; right. Qed.

(** The machine while the processors are started, from [s0] with the free pages
    [l0] on: [n] is the next one. *)
Record starting (s0 : machine) (l0 : list Z) (s : machine) (n : nat) : Prop := {
  sp_me : mc_me s = b;
  sp_esp : mc_esp s = mc_esp s0;
  sp_mp : mc_mp s = t;
  sp_known : known (mc_int s);
  sp_print : printing (mc_k s);
  sp_frame : frame (mc_k s0) (mc_k s);
  sp_cpu : same_cpu (mc_k s0) (mc_k s);
  sp_mem : ks_mem (mc_k s) = ks_mem (mc_k s0);
  sp_bufs : ks_bufs (mc_k s) = ks_bufs (mc_k s0);
  sp_free : free_list (mc_k s) (drop (length (aps n)) l0);
  sp_len : length (mc_cpus s) = NCPU;
  sp_up : ∀ i q, aps n !! i = Some q → ∃ a c, l0 !! i = Some a ∧ mc_cpus s !! q = Some c ∧
    cpu_up q (ms_kpgdir (ks_misc (mc_k s0))) a c ∧ q ∈ mc_idtr s;
  sp_off : ∀ q c, (n ≤ q)%nat → q ≠ b → mc_cpus s !! q = Some c → cpu_off c;
  sp_idt : mc_idt s = mc_idt s0;
}.

Lemma starting_skip s0 l0 s : starting s0 l0 s b → starting s0 l0 s (S b).
Proof.
  intros []. assert (aps (S b) = aps b) as E by (rewrite aps_S, decide_True by done; apply app_nil_r).
  split; try rewrite E; try done. intros q c Hq. apply sp_off0. lia.
Qed.

Lemma starting_step s0 l0 s n a f k i c' x low :
  starting s0 l0 s n → n ≠ b → (n < NCPU)%nat → ks_held (mc_k s0) = [] → l0 !! length (aps n) = Some a →
  free_list (set_freelist f (mc_k s)) (drop (S (length (aps n))) l0) →
  plain (set_freelist f (mc_k s)) k → same_cpu (set_freelist f (mc_k s)) k → same_int (mc_int s) i →
  cpu_up n (ms_kpgdir (ks_misc (mc_k s0))) a c' →
  starting s0 l0 (mk_machine k i t b (mc_esp s) (<[n:=c']> (<[b:=x]> (mc_cpus s))) low (mc_idt s) (n :: mc_idtr s)) (S n).
Proof.
  intros [] Hnb Hn Hh Ha Hf [Fr Sm Hb Hp] Sc Si Up. assert (aps (S n) = aps n ++ [n]) as E by (by rewrite aps_S, decide_False).
  assert (length (aps (S n)) = S (length (aps n))) as E' by (rewrite E, length_app; simpl; lia).
  split; cbn -[aps]; rewrite ?E', ?length_insert; try done.
  - by eapply known_same.
  - by apply Hp.
  - destruct sp_frame0, Fr. cbn in *. split; congruence.
  - destruct sp_cpu0, Sc. cbn in *. split; congruence.
  - rewrite (sm_mem _ _ Sm). done.
  - rewrite Hb. done.
  - destruct Sm. apply (free_list_ext _ _ _ Hf); [done..|]. rewrite (fm_held _ _ Fr). cbn.
    rewrite (fm_held _ _ sp_frame0), Hh. apply not_elem_of_nil.
  - rewrite E. intros j q [Hj|(Hj & [Hj' <-]%list_lookup_singleton_Some)]%lookup_app_Some.
    + assert (q ∈ aps n) as Hq by (by eapply list_elem_of_lookup_2). apply list_elem_of_filter in Hq as [Hqb Hq%elem_of_seq].
      destruct (sp_up0 _ _ Hj) as (a' & c1 & ? & ? & ? & ?). exists a', c1.
      rewrite !list_lookup_insert_ne by lia. split_and!; [done..|]. set_solver.
    + exists a, c'. replace j with (length (aps n)) by lia. rewrite list_lookup_insert_eq by (rewrite length_insert; lia).
      split_and!; try done. set_solver.
  - intros q c1 Hq Hqb. rewrite !list_lookup_insert_ne by lia. apply sp_off0; [lia|done].
Qed.

(** The machine once the stack is taken and the words are written. *)
Lemma startothers_turn s0 l0 s n (Q : () → machine → Prop) a :
  starting s0 l0 s n → n ≠ b → (n < mp_ncpu t)%nat → ks_held (mc_k s0) = [] →
  l0 !! length (aps n) = Some a → kpage a →
  (∀ s', starting s0 l0 s' (S n) → Q () s') →
  wp (stack ← liftK kalloc;
      poke32 (0x7000 - 4) (u32 (stack + KSTACKSIZE));;
      poke32 (0x7000 - 8) be_mpenter;;
      poke32 (0x7000 - 12) (v2p be_entrypgdir);;
      ids ← gets (λ s, mp_ids (mc_mp s));
      id ← the (ids !! n);
      startap n id 0x7000) Q s.
Proof.
  intros St Hnb Hn Hh0 Ha [Ha0 Har] HQ. pose proof St as []. destruct (cpu_range n ltac:(by right)) as (Hn8 & Hid & _).
  assert (ks_held (mc_k s) = []) as Hh by (by rewrite (fm_held _ _ sp_frame0)).
  rewrite (drop_S _ _ _ Ha) in sp_free0. wp_step. apply wp_liftK. eapply wp_mono; [apply (kalloc_list _ _ sp_free0)|].
  cbn [hd tail]. intros r k (-> & Hf & Hm & f & ->). cbn in Hm. unfold poke32. wp_steps. eapply wp_the; [cbn; by rewrite sp_mp0|].
  destruct (lookup_lt_is_Some_2 (mc_cpus s) n) as [c Hc]; [lia|]. rewrite u32_small by lia.
  eapply (startap_spec n a _ c); cbn; try done; [by eapply sp_off0|..].
  - do 2 (apply word_poke_ne; [lia|]). apply word_poke.
  - lia.
  - apply word_poke_ne; [lia|]. apply word_poke.
  - apply word_poke.
  - intros k i c' Pl Sc Si Up. apply HQ. eapply starting_step; try done; cbn in Hf.
    by rewrite <-(sc_kpgdir _ _ sp_cpu0).
Qed.

Lemma startothers_loop_spec s0 l0 k : ∀ s n,
  starting s0 l0 s n → (n + k = mp_ncpu t)%nat → ks_held (mc_k s0) = [] →
  (mp_ncpu t ≤ length l0)%nat → Forall kpage l0 →
  wp (startothers_loop 0x7000 n k) (λ _ s', starting s0 l0 s' (mp_ncpu t)) s.
Proof.
  induction k as [|k IH]; intros s n St Hk Hh Hlen Hl; cbn [startothers_loop].
  { wp_step. by replace (mp_ncpu t) with n by lia. }
  wp_step. apply (cpunum_spec b); [apply St|by left|apply St|]. wp_step. apply wp_when; intros Hb; cbn in Hb.
  - assert (length (aps n) < length l0)%nat as [a Ha]%lookup_lt_is_Some_2 by (pose proof (aps_length n); lia).
    apply (startothers_turn s0 l0 s n _ a); [done|lia..|done|done|by eapply Forall_lookup_1|].
    intros s' St'. apply IH; [done|lia|done..].
  - assert (n = b) as -> by lia. apply IH; [by apply starting_skip|lia|done..].
Qed.

Lemma startothers_spec s l (Q : () → machine → Prop) :
  mc_me s = b → mc_mp s = t → known (mc_int s) → printing (mc_k s) → ks_held (mc_k s) = [] →
  free_list (mc_k s) l → Forall kpage l → (8 ≤ length l)%nat → length (mc_cpus s) = NCPU → Forall cpu_off (mc_cpus s) →
  (∀ s', starting s l s' (mp_ncpu t) → Q () s') → wp startothers Q s.
Proof.
  intros Hme Hmp Hk Hp Hh Hf Hl Hn Hc Ho HQ. unfold startothers. wp_steps. cbn. rewrite Hmp.
  eapply wp_mono; [apply (startothers_loop_spec s l (mp_ncpu t) _ 0)|]; try done.
  - split; cbn; try done. intros q c _ _ Hq. by eapply Forall_lookup_1.
  - pose proof (eo_ncpu _ _ _ Henv). lia.
  - intros []. apply HQ.
Qed.

(** ** The devices *)

(** A step of a driver or of an interrupt controller, on the whole machine. *)
Record boot_step (s s' : machine) : Prop := {
  bs_dev : dev_step (mc_k s) (mc_k s');
  bs_int : same_int (mc_int s) (mc_int s');
  bs_me : mc_me s' = mc_me s;
  bs_mp : mc_mp s' = mc_mp s;
  bs_esp : mc_esp s' = mc_esp s;
  bs_cpus : mc_cpus s' = mc_cpus s;
  bs_idt : mc_idt s' = mc_idt s;
  bs_idtr : mc_idtr s' = mc_idtr s;
}.

#[local] Instance boot_step_preorder : PreOrder boot_step.
Proof. split; [done|]. intros s1 s2 s3 [] []. split; [by etrans|by etrans|congruence..]. Qed.

Lemma liftK_step {A} (m : K A) s : wp m (λ _ k, dev_step (mc_k s) k) (mc_k s) → wp (liftK m) (λ _ s', boot_step s s') s.
Proof. intros Hm. apply wp_liftK. eapply wp_mono; [exact Hm|]. intros a k Hk. by split. Qed.

Lemma liftI_step {A} (m : IntHw → M intctl A) s : int_ok (m (be_hw (mc_me s))) → wp (liftI m) (λ _ s', boot_step s s') s.
Proof. intros Hm. apply wp_liftI. eapply wp_mono; [apply Hm|]. intros a i Hi. by split. Qed.

Lemma boot_bind {A B} (m : M machine A) (k : A → M machine B) (Q : B → machine → Prop) s :
  wp m (λ _ s', boot_step s s') s → (∀ a s', boot_step s s' → wp (k a) Q s') → wp (m ≫= k) Q s.
Proof. intros Hm Hk. apply wp_bind. eapply wp_mono; [exact Hm|]. auto. Qed.

Lemma irq_enable_step irq cpu s : wp (irq_enable irq cpu) (λ _ s', boot_step s s') s.
Proof.
  unfold irq_enable. eapply boot_bind; [apply liftI_step; cbn beta; auto with int|]. intros [] s1 S1.
  eapply wp_mono; [apply liftI_step; cbn beta; auto with int|]. intros [] s2 S2. exact (transitivity S1 S2).
Qed.

Lemma consoleinit_irq_step s : wp consoleinit_irq (λ _ s', boot_step s s') s.
Proof.
  unfold consoleinit_irq. eapply boot_bind; [apply liftK_step, consoleinit_dev|]. intros [] s1 S1.
  eapply wp_mono; [apply irq_enable_step|]. intros [] s2 S2. exact (transitivity S1 S2).
Qed.

Lemma uartinit_irq_step s : wp uartinit_irq (λ _ s', boot_step s s') s.
Proof.
  unfold uartinit_irq. eapply boot_bind; [apply liftK_step, uartinit_dev|]. intros [] s1 S1. apply wp_when; intros _; [|done].
  eapply wp_mono; [apply irq_enable_step|]. intros [] s2 S2. exact (transitivity S1 S2).
Qed.

Lemma ideinit_irq_step s : wp ideinit_irq (λ _ s', boot_step s s') s.
Proof.
  unfold ideinit_irq. wp_step. wp_step. eapply boot_bind; [apply irq_enable_step|]. intros [] s1 S1.
  eapply wp_mono; [apply liftK_step, ideinit_dev, (eo_poll _ _ _ Henv)|]. intros [] s2 S2. exact (transitivity S1 S2).
Qed.

(** The disk of the driver: memide.c's is the image linked into the kernel. *)
Definition driver_disk (dr : driver) (dk : list (list Z)) : Prop :=
  match dr with Ide_c => True | Memide_c img => img = concat dk end.

Lemma driver_init_step dr s : driver_disk dr (ks_disk (mc_k s)) → Forall block_ok (ks_disk (mc_k s)) →
  wp (driver_init dr) (λ _ s', boot_step s s') s.
Proof.
  intros Hd Hok. destruct dr as [|img]; [apply ideinit_irq_step|]. apply liftK_step. simpl in Hd. subst img.
  unfold memide_ideinit. wp_step. rewrite sectors_concat; [by destruct (mc_k s)|].
  eapply Forall_impl; [exact Hok|]. intros d Hd. apply Hd.
Qed.

Lemma timerinit_step (c : bool) s : wp (when c (liftI (λ _, timerinit))) (λ _ s', boot_step s s') s.
Proof. apply wp_when; intros _; [|done]. apply liftI_step. cbn beta. auto with int. Qed.

(** [main] from the first message on, and from the start of the other processors on. *)
Definition main_last : M machine () :=
  startothers;;
  liftK (kinit2 (p2v (4 * 1024 * 1024)) (p2v PHYSTOP));;
  liftK (userinit be_initcode);;
  mpmain.

Definition main_devices (dr : driver) : M machine () :=
  id ← cpu_id;
  liftK (cprintf (String.append nl (String.append "cpu%d: starting xv6" (String.append nl nl))) [AInt id]);;
  liftI (λ _, picinit);;
  liftI (λ _, ioapicinit);;
  consoleinit_irq;;
  uartinit_irq;;
  modify (set_idt (tvinit be_vectors));;
  liftK binit;;
  driver_init dr;;
  ismp ← gets (λ s, mp_ismp (mc_mp s));
  when (negb ismp) (liftI (λ _, timerinit));;
  main_last.

Lemma main_split dr : main dr =
  (liftK (kinit1 ld_end (p2v (4 * 1024 * 1024)));;
   liftK kvmalloc;;
   liftM (mpinit be_mem be_mpfuel be_imcr);;
   liftI (λ _, lapicinit);;
   seginit_here;;
   main_devices dr).
Proof. reflexivity. Qed.

(** The machine once the devices are set up, from the machine [s] on. *)
Record devices_up (s s' : machine) : Prop := {
  du_frame : frame (mc_k s) (mc_k s');
  du_cpu : same_cpu (mc_k s) (mc_k s');
  du_mem : same_mem (mc_k s) (mc_k s');
  du_print : printing (mc_k s');
  du_cache : cache (ks_bufs (mc_k s')) (ks_disk (mc_k s')) (disk_view (ks_disk (mc_k s))) ∅ ∅;
  du_int : same_int (mc_int s) (mc_int s');
  du_me : mc_me s' = mc_me s;
  du_mp : mc_mp s' = mc_mp s;
  du_esp : mc_esp s' = mc_esp s;
  du_cpus : mc_cpus s' = mc_cpus s;
  du_idt : mc_idt s' = tvinit be_vectors;
  du_idtr : mc_idtr s' = mc_idtr s;
}.

Lemma main_devices_spec dr s (Q : () → machine → Prop) :
  mc_me s = b → mc_mp s = t → printing (mc_k s) → ks_held (mc_k s) = [] →
  segments (cpu_at b) (ms_cpu (ks_misc (mc_k s))) → fresh_bufs (ks_bufs (mc_k s)) → Forall block_ok (ks_disk (mc_k s)) →
  driver_disk dr (ks_disk (mc_k s)) → (∀ s', devices_up s s' → wp main_last Q s') → wp (main_devices dr) Q s.
Proof.
  intros Hme Hmp Hp Hh Sg Hb Hd Hdr HQ. unfold main_devices. wp_step. apply (cpu_id_spec b); [by left|done..|].
  eapply boot_bind; [apply liftK_step; eapply cprintf_dev; [cbn; done|done|rewrite Hh; apply not_elem_of_nil]|]. intros [] s1 S1.
  eapply boot_bind; [apply liftI_step; cbn beta; auto with int|]. intros [] s2 S2.
  eapply boot_bind; [apply liftI_step; cbn beta; auto with int|]. intros [] s3 S3.
  eapply boot_bind; [apply consoleinit_irq_step|]. intros [] s4 S4.
  eapply boot_bind; [apply uartinit_irq_step|]. intros [] s5 S5.
  assert (boot_step s s5) as [[[Fr Sm Bu Pr] Sc] Si] by exact (transitivity S1 (transitivity S2 (transitivity S3 (transitivity S4 S5)))).
  wp_step. wp_step. wp_step. apply wp_liftK. cbn [mc_k set_idt].
  eapply wp_mono; [apply binit_boot; [by rewrite Bu|by rewrite (fm_disk _ _ Fr)]|]. intros [] k (Fr' & Sc' & Sm' & Pr' & Ca).
  assert (ks_disk k = ks_disk (mc_k s)) as Edk by (by rewrite (fm_disk _ _ Fr'), (fm_disk _ _ Fr)).
  eapply boot_bind; [apply driver_init_step; cbn; by rewrite Edk|]. intros [] s6 S6. wp_step. wp_step.
  eapply (boot_bind (when _ _)); [apply timerinit_step|]. intros [] s7 S7. apply HQ.
  pose proof (transitivity S6 S7) as [[[Fr2 Sm2 Bu2 Pr2] Sc2] Si2]. cbn [mc_k mc_int set_k set_idt] in *.
  split; cbn [set_k set_idt mc_me mc_mp mc_esp mc_cpus mc_idt mc_idtr] in *; try congruence.
  - by do 2 (etrans; [eassumption|]).
  - by do 2 (etrans; [eassumption|]).
  - by do 2 (etrans; [eassumption|]).
  - auto.
  - rewrite Bu2, (fm_disk _ _ Fr2). by rewrite (fm_disk _ _ Fr) in Ca.
  - by etrans.
Qed.

(** ** The rest of main *)

(** The page table of the kernel at [d], and the free pages [l], in the first 4 MB. *)
Record memory_up (k : kstate) (d : Z) (T : gmap Z Z) (l : list Z) : Prop := {
  mu_space : aspace k d T l;
  mu_table : ktable (ks_mem k) d T;
  mu_low : ∀ a, a = d ∨ (∃ i, T !! i = Some a) ∨ a ∈ l → a < LOW;
  mu_len : (8 ≤ length l)%nat;
  mu_kpgdir : ms_kpgdir (ks_misc k) = d;
  mu_cr3 : ms_cr3 (ks_misc k) = v2p d;
}.

(** The kernel before the first process, over the disk [dk]. *)
Record unstarted (dk : list (list Z)) (k : kstate) : Prop := {
  un_procs : ks_procs k = ks_procs (bss dk);
  un_inodes : ks_inodes k = ks_inodes (bss dk);
  un_pid : ks_nextpid k = 1;
  un_held : ks_held k = [];
  un_log : ks_log k = zero_log;
  un_disk : ks_disk k = dk;
  un_first : ms_first (ks_misc k) = true;
}.

Lemma unstarted_frame dk k k' : unstarted dk k → frame k k' → unstarted dk k'.
Proof. intros [] []. split; congruence. Qed.

Lemma memory_up_same k k' d T l : memory_up k d T l → same_mem k k' → same_cpu k k' → ks_held k' = [] → memory_up k' d T l.
Proof.
  intros [AS M1 M2 M3 M4 M5] Sm [_ _ E3 E4] Hh. split; rewrite ?(sm_mem _ _ Sm), ?E3, ?E4; try done. by eapply aspace_same.
Qed.

(** Processor [n], whichever runs. *)
Definition cpu_of (s : machine) (n : nat) : option percpu := if decide (n = mc_me s) then Some (park s) else mc_cpus s !! n.

(** The machine when [main] is called: the kernel and the disk [dk], and
    processors that have not been started. *)
Record loaded (dk : list (list Z)) (s : machine) : Prop := {
  lo_k : mc_k s = bss dk;
  lo_me : mc_me s = b;
  lo_mp : mc_mp s = t0;
  lo_cpus : length (mc_cpus s) = NCPU;
  lo_off : Forall cpu_off (mc_cpus s);
}.

(** What [main] has established when the scheduler starts: the kernel's page
    table; the processors, the others on the stacks [stacks]; the first process,
    with memory that no one else uses; and the file system ready to be
    recovered by the first process. *)
Record booted (dk : list (list Z)) (esp : Z) (stacks : list Z) (s : machine) : Prop := {
  bd_table : ∃ T, ktable (ks_mem (mc_k s)) (ms_kpgdir (ks_misc (mc_k s))) T;
  bd_others : ∀ i q, aps (mp_ncpu t) !! i = Some q → ∃ a c, stacks !! i = Some a ∧
    cpu_of s q = Some c ∧ cpu_up q (ms_kpgdir (ks_misc (mc_k s))) a c ∧ q ∈ mc_idtr s;
  bd_self : mc_me s = b ∧ cpu_up b (ms_kpgdir (ks_misc (mc_k s))) (esp - KSTACKSIZE) (park s) ∧ b ∈ mc_idtr s;
  bd_idt : mc_idt s = tvinit be_vectors;
  bd_stacks : NoDup stacks ∧ Forall kpage stacks;
  bd_first : ∃ x a d T l, ks_procs (mc_k s) = <[0%nat:=x]> (ks_procs (bss dk)) ∧ first_proc 1 d a x ∧
    uspace (mc_k s) d T l ∧ (∀ va, 0 ≤ va < 2 ^ 32 → ubyte (ks_mem (mc_k s)) T va = init_byte be_initcode va) ∧
    (∀ va, 4096 ≤ va < 2 ^ 32 → pte (ks_mem (mc_k s)) T va = kernel_pte va) ∧
    (∀ p, p ∈ a :: stacks → outside d T l p ∧ ∀ va, 0 ≤ va < 2 ^ 32 → upage (ks_mem (mc_k s)) T va ≠ Some p) ∧ (a ∉ stacks) ∧ kpage a;
  bd_fs : booting (set_cur (Some 0%nat) (mc_k s)) ∧ ks_disk (mc_k s) = dk ∧
    ks_inodes (mc_k s) = <[0%nat:=root_entry]> (ks_inodes (bss dk)) ∧ ks_initproc (mc_k s) = Some 0%nat ∧ ms_first (ks_misc (mc_k s)) = true;
}.

(** The pages of the page table and the first [n] free pages are none of the
    others, nor of the pages [L] above. *)
Lemma apart k d T l L n p : memory_up k d T l → (∀ a, a ∈ L → LOW ≤ a) →
  p = d ∨ (∃ i, T !! i = Some p) ∨ p ∈ take n l → p < LOW ∧ p ∉ L ++ drop n l.
Proof.
  intros [AS _ Low _ _ _] HL Hp. pose proof (fl_nodup _ _ (as_free _ _ _ _ AS)) as Nd. rewrite <-(take_drop n l), NoDup_app in Nd.
  assert (p < LOW) as Hlow by (apply Low; rewrite <-(take_drop n l), elem_of_app; tauto). split; [done|].
  intros [Hi%HL|Hi]%elem_of_app; [lia|]. destruct Hp as [->|[[i Hi']|Hp]].
  - apply drop_in in Hi. by apply (as_disj_d _ _ _ _ AS).
  - apply drop_in in Hi. by apply (as_disj_t _ _ _ _ AS i p).
  - destruct Nd as (_ & Nd & _). by eapply Nd.
Qed.

(** The process table and the caches at the end of [userinit]. *)
Lemma first_fs dk k k1 k3 P m f :
  unstarted dk k1 → cache (ks_bufs k1) dk (disk_view dk) ∅ ∅ →
  k3 = set_procs P (set_nextpid (ks_nextpid k1 + 1) (set_inodes (<[0%nat:=root_entry]> (ks_inodes k1))
    (set_initproc (Some 0%nat) (set_freelist f (set_mem m k1))))) →
  frame k3 k → ks_bufs k = ks_bufs k3 →
  booting (set_cur (Some 0%nat) k) ∧ ks_disk k = dk ∧ ks_inodes k = <[0%nat:=root_entry]> (ks_inodes (bss dk)) ∧ ks_initproc k = Some 0%nat ∧ ms_first (ks_misc k) = true.
Proof.
  intros [U1 U2 U3 U4 U5 U6 U7] Ca -> [F1 F2 F3 F4 F5 F6 F7 F8 F9] Bu. cbn in *. split_and!; [|congruence..].
  split; cbn; rewrite ?F7, ?U5; try done. split; cbn; [|congruence|done]. by rewrite Bu, F8, U6.
Qed.

Lemma main_last_spec dk s d T l :
  mc_me s = b → mc_mp s = t → known (mc_int s) → printing (mc_k s) → unstarted dk (mc_k s) → memory_up (mc_k s) d T l →
  length (mc_cpus s) = NCPU → Forall cpu_off (mc_cpus s) → segments (cpu_at b) (ms_cpu (ks_misc (mc_k s))) → ks_cur (mc_k s) = None →
  mc_idt s = tvinit be_vectors → cache (ks_bufs (mc_k s)) dk (disk_view dk) ∅ ∅ →
  wp main_last (λ _ s', ∃ stacks, booted dk (mc_esp s) stacks s') s.
Proof.
  intros Hme Hmp Hk Hp Un MU Hc Ho Sg Cur Idt Ca. pose proof MU as [AS KT Low Len Kd Cr]. unfold main_last. wp_step.
  apply (startothers_spec s l); try done; [apply Un|apply AS|by apply Forall_forall, AS|]. intros s1 [M1 Me M3 M4 M5 Fr1 Sc1 Mm1 Bf1 Fl1 Ln1 Up1 _ It1].
  set (n := length (aps (mp_ncpu t))) in *. wp_step. apply wp_liftK. destruct (eo_end _ _ _ Henv) as [He _].
  eapply wp_mono; [apply (kinit2_spec (mc_k s1) (drop n l) He Fl1); intros a Ha; apply Low; right; right; by eapply drop_in|].
  intros [] k2 (L & f & m & Ek2 & F2 & HL & KL & M2). wp_step. apply wp_liftK. cbn [mc_k set_k].
  assert (unstarted dk k2) as Un2 by (subst k2; pose proof (unstarted_frame dk _ _ Un Fr1) as []; by split).
  assert (∀ a, a ∈ L ++ drop n l → kpage a) as Hkp by (intros a [Ha|Ha%drop_in]%elem_of_app; [by apply KL|by apply AS]).
  eapply wp_mono; [apply (userinit_spec k2 (L ++ drop n l) be_initcode); try apply Un2; try done|].
  { rewrite (un_pid _ _ Un2). lia. }
  { rewrite length_app. lia. }
  { apply Henv. }
  intros [] k3 (x & a & dp & Tp & lp & m3 & f3 & US & FP & Ek3 & Hin & Htab & Hout & Hm3 & Hup & Hpt & Hub).
  assert (ks_misc k3 = ks_misc (mc_k s1) ∧ ks_cur k3 = ks_cur (mc_k s1) ∧ printing k3 ∧ ks_held k3 = []) as (Em & Ec & Ep & Eh).
  { pose proof (un_held _ _ Un2) as Hh. subst k3 k2. done. }
  eapply (mpmain_spec b); cbn [mc_me mc_mp mc_k set_k]; [done|by left|done|by rewrite Em, (sc_cpu _ _ Sc1)|done..|].
  intros k [[Fr Sm Bu _] Sc]. assert (ks_mem k = m3) as Mk by (rewrite (sm_mem _ _ Sm); by subst k3).
  assert (∀ p, p = d ∨ (∃ i, T !! i = Some p) ∨ p ∈ take n l → (p ∉ L ++ drop n l) ∧ m3 !! p = ks_mem (mc_k s) !! p) as Sep.
  { intros p Hp'. destruct (apart _ _ _ _ L n p MU) as [Hlow Hno]; [intros ? ?%KL; naive_solver|done|]. split; [done|].
    rewrite Hm3, <-Mm1, <-M2 by done. by subst k2. }
  assert (ms_kpgdir (ks_misc k) = d) as Kd' by (by rewrite (sc_kpgdir _ _ Sc), Em, (sc_kpgdir _ _ Sc1)).
  exists (take n l). split; cbn [mc_k mc_me set_k set_idtr ks_mem ks_misc set_misc ks_procs ks_disk ks_inodes ks_initproc mc_idt mc_idtr];
    rewrite ?Mk; change (ms_kpgdir (started_cpu (ks_misc k))) with (ms_kpgdir (ks_misc k)); rewrite ?Kd'.
  - exists T. eapply ktable_ext; [exact KT|apply Sep; by left|]. intros i p Hi. apply Sep. right; left. by exists i.
  - intros i q Hq. destruct (Up1 i q Hq) as (a' & c & Ha' & Hc' & Up & Hi). exists a', c. rewrite Kd in Up. split_and!; [|..|done|by right].
    + rewrite lookup_take_lt; [done|]. by eapply lookup_lt_Some.
    + unfold cpu_of. cbn. rewrite decide_False; [done|]. rewrite M1.
      assert (q ∈ aps (mp_ncpu t)) as [? _]%list_elem_of_filter by (by eapply list_elem_of_lookup_2). done.
  - split_and!; [done| |by left]. pose proof (fm_held _ _ Fr). destruct Sc, Sc1. split; cbn; [apply segments_started; congruence|congruence..|lia].
  - by rewrite <-Idt.
  - split; [|by apply Forall_take, Forall_forall, AS]. eapply sublist_NoDup; [apply (fl_nodup _ _ (as_free _ _ _ _ AS))|apply sublist_take].
  - exists x, a, dp, Tp, lp. split_and!; try done.
    + rewrite (fm_procs _ _ Fr), <-(un_procs _ _ Un2). by subst k3.
    + by rewrite (un_pid _ _ Un2) in FP.
    + eapply uspace_same; [exact US|by destruct Sm|]. by rewrite <-Eh, <-(fm_held _ _ Fr).
    + intros p [->|Hp']%elem_of_cons; [split; [done|]; intros va Hva E; by apply Hup in E as [_ ?]|].
      destruct (Sep p ltac:(tauto)) as [Hno _]. split; [split_and!|].
      * intros ->. apply Hno, Hin. right. by left.
      * intros Hp2. apply Hno, Hin. by do 2 right.
      * intros i Hi. apply Hno. by eapply Htab.
      * intros va Hva E. by apply Hup in E as [? _].
    + intros Ha. destruct (Sep a ltac:(tauto)) as [Hno _]. apply Hno, Hin. by left.
    + apply Hkp, Hin. by left.
  - apply (first_fs dk (set_misc (started_cpu (ks_misc k)) k) k2 k3 (<[0%nat:=x]> (ks_procs k2)) m3 f3); [done|subst k2; cbn; by rewrite Bf1|done|by destruct Fr|done].
Qed.

(** [main] from the loaded kernel on. *)
Lemma main_spec dr dk s :
  loaded dk s → Forall block_ok dk → driver_disk dr dk → wp (main dr) (λ _ s', ∃ stacks, booted dk (mc_esp s) stacks s') s.
Proof.
  intros [Ek Hme Hmp Hc Ho] Hdk Hdr. rewrite main_split. destruct (eo_end _ _ _ Henv) as [He Hn]. wp_step. apply wp_liftK. rewrite Ek.
  eapply wp_mono; [by apply kinit1_spec|]. intros [] k1 (l1 & f1 & m1 & E1 & F1 & Kp1 & L1). wp_step. apply wp_liftK.
  eapply wp_mono; [apply (kvmalloc_spec k1 l1 F1); [intros a Ha; by apply Kp1|done]|].
  intros [] k2 (d & T & l & f2 & m2 & E2 & AS & KT & L2 & In1 & In2 & In3). wp_step. unfold liftM. apply wp_lift. cbn. rewrite Hmp.
  apply wp_runs. exists (), t. split; [apply (eo_mp _ _ _ Henv)|]. wp_step. apply wp_liftI. cbn. rewrite Hme.
  destruct (cpu_range b ltac:(by left)) as (Hb & _). eapply wp_mono; [apply (lapicinit_int b (eo_hw _ _ _ Henv b Hb))|]. intros [] i Hi.
  assert (known i) as Hk by (eapply known_same; [|exact Hi]; by split). wp_step.
  apply (seginit_here_spec b); [done|by left|done|by subst k2 k1|]. intros x Sg _. cbn.
  apply main_devices_spec; cbn; [done|done|by subst k2 k1|by subst k2 k1|done|subst k2 k1; apply bss_fresh|by subst k2 k1|by subst k2 k1|].
  intros s' []. cbn in *. subst k1 k2. cbn in *.
  eapply wp_mono; [apply (main_last_spec dk s' d T l)|]; try congruence.
  - by eapply known_same.
  - eapply unstarted_frame; [|exact du_frame0]. done.
  - eapply memory_up_same; [|exact du_mem0|exact du_cpu0|by rewrite (fm_held _ _ du_frame0)]. split; try done.
    + eapply aspace_same; [exact AS|done|done].
    + intros a [->|[[j Hj]|Ha]]; apply Kp1; eauto.
  - by rewrite (sc_cpu _ _ du_cpu0).
  - by rewrite (sc_cur _ _ du_cpu0).
  - by rewrite (fm_disk _ _ du_frame0) in du_cache0.
  - by rewrite du_esp0.
Qed.

End Boot.

(** ** An example: a machine with two processors *)

Module BootExample.
Import Memide KallocExample KvmExample IdeExample MpExample.

#[export] Instance env : BootEnv := {|
  be_hw n := {| ioapic_val _ _ := 0; lapic_val _ r := if r =? ID then [Z.shiftl (Z.of_nat n) 24] else [0] |};
  be_mem := mem; be_imcr := 0; be_mpfuel := 3; be_lsr := 0; be_ide := [0]; be_vectors := replicate 256 0;
  be_initcode := [235; 254]; be_entryother := [250; 244]; be_cpus := 0x80108000; be_mpenter := 0x80103000;
  be_entrypgdir := 0x80107000 |}.

Definition tables : mpstate := match mpinit mem 3 0 start with Ok _ t => t | _ => start end.

Lemma env_example : env_ok start tables 0.
Proof.
  split.
  - intros n Hn. split; [done| |].
    + intros l. by exists (0%nat, 0).
    + intros l. exists (Z.shiftl (Z.of_nat n) 24), []. split; [done|]. rewrite Z.shiftr_shiftl_l by lia. by rewrite Z.shiftl_0_r.
  - intros ps. by eexists.
  - vm_compute. done.
  - vm_compute. lia.
  - change (mp_ncpu tables) with 2%nat. intros [|[|k]] Hk; [done|done|lia].
  - change (mp_lapic tables =? 0) with false. change (mp_ncpu tables) with 2%nat. cbn iota. lia.
  - done.
  - done.
  - simpl. lia.
  - done.
Qed.

Definition disk0 : list (list Z) := replicate 32 (replicate 512 0).
Definition off : percpu := mk_percpu zero_cpu 0 None [] 0.
Definition machine0 (dk : list (list Z)) : machine :=
  mk_machine (bss dk) {| ic_ismp := false; ic_ioapicid := 0; ic_lapic := false; ic_irqmask := 0xFFFB; ic_warned := 0; ic_out := []; ic_log := [] |}
    start 0 0x80109000 (replicate 8 off) ∅ [] [].

Lemma loaded0 dk : loaded start 0 dk (machine0 dk).
Proof. split; try done. by apply Forall_replicate. Qed.

Lemma disk0_ok : Forall block_ok disk0.
Proof. apply Forall_replicate, (bool_decide_unpack _). by vm_compute. Qed.

End BootExample.
