(* ===== verification/Boot.v ===== *)
(** * Boot: the boot loader (bootmain.c)

    Physical memory is a list of bytes.  The drive is the interface of
    [IdeDriver]: its status registers, and the bytes it presents after what was
    written to its ports and after its status was seen to be ready. *)

From S2P Require Import Prelude Bytes CString Kernel IdeDriver Exec.

#[local] Arguments replicate : simpl never.

Abbreviation SECTSIZE := 512.
Abbreviation sector := 512%nat (only parsing).

(** Where [bootmain] reads the headers to. *)
Abbreviation ELF := 0x10000.

Record machine := { bt_mem : list Z; bt_ports : list (Z * list Z) }.

Definition boot_outb (port v : Z) : M machine () :=
  modify (λ s, {| bt_mem := bt_mem s; bt_ports := (port, [u8 v]) :: bt_ports s |}).

(** A copy to memory; beyond its end it faults. *)
Definition store_mem (a : nat) (l : list Z) : M machine () := λ s,
  if bool_decide (a + length l ≤ length (bt_mem s))%nat
  then Ok () {| bt_mem := splice a l (bt_mem s); bt_ports := bt_ports s |} else Fault.

Definition ph_paddr : list Z → Z := get32 12.

Lemma concat_slice (l : list (list Z)) i d : Forall (λ d, length d = sector) l → l !! i = Some d →
  slice (sector * i) sector (concat l) = d ∧ (sector * i + sector ≤ length (concat l))%nat.
Proof.
  intros Hl. revert i. induction Hl as [|x l Hx Hl IH]; intros [|i] Hi; [done..| |]; cbn [concat].
  - injection Hi as ->. unfold slice. rewrite Nat.mul_0_r, length_app, Hx, drop_0. split; [|lia].
    by rewrite <-Hx, take_app_length.
  - destruct (IH i Hi) as [E L]. rewrite length_app, Hx. split; [|lia]. etrans; [|exact E]. unfold slice.
    replace (sector * S i)%nat with (length x + sector * i)%nat by lia. by rewrite drop_app_add.
Qed.

Section Boot.
Context `{Drive} (disk : list (list Z)).

(** A drive that never gets ready keeps the loader waiting.  That it was seen to
    be ready is recorded among the accesses to the ports. *)
Definition waitdisk : M machine () :=
  ps ← gets bt_ports;
  the (poll (drv_status ps));;
  modify (λ s, {| bt_mem := bt_mem s; bt_ports := (0x1F7, []) :: bt_ports s |}).

Definition readsect (dst : nat) (offset : Z) : M machine () :=
  waitdisk;;
  boot_outb 0x1F2 1;;
  boot_outb 0x1F3 offset;;
  boot_outb 0x1F4 (Z.shiftr offset 8);;
  boot_outb 0x1F5 (Z.shiftr offset 16);;
  boot_outb 0x1F6 (Z.lor (Z.shiftr offset 24) 0xE0);;
  boot_outb 0x1F7 0x20;;
  waitdisk;;
  ps ← gets bt_ports;
  store_mem dst (drv_data ps disk).

(** The loop of [readseg]; it makes one turn a sector. *)
Fixpoint readseg_loop (fuel : nat) (pa epa offset : Z) : M machine () :=
  match fuel with
  | O => fault
  | S fuel' =>
      if epa <=? pa then mret () else
      readsect (Z.to_nat pa) offset;;
      readseg_loop fuel' (u32 (pa + SECTSIZE)) epa (u32 (offset + 1))
  end.

Definition readseg (pa count offset : Z) : M machine () :=
  readseg_loop (Z.to_nat (count / SECTSIZE) + 3) (u32 (pa - offset mod SECTSIZE)) (u32 (pa + count))
    (offset / SECTSIZE + 1).

(** One program header: [ph] is its bytes. *)
Definition load_ph (ph : list Z) : M machine () :=
  let pa := ph_paddr ph in
  readseg pa (ph_filesz ph) (ph_off ph);;
  when (ph_filesz ph <? ph_memsz ph)
    (store_mem (Z.to_nat (u32 (pa + ph_filesz ph))) (replicate (Z.to_nat (ph_memsz ph - ph_filesz ph)) 0)).

Fixpoint load_phs (n : nat) (ph : nat) : M machine () :=
  match n with
  | O => mret ()
  | S n' =>
      m ← gets bt_mem;
      load_ph (slice ph 32 m);;
      load_phs n' (ph + 32)
  end.

(** The entry point, or [None] when the file is no executable. *)
Definition bootmain : M machine (option Z) :=
  readseg ELF 4096 0;;
  m ← gets bt_mem;
  let e := slice (Z.to_nat ELF) 52 m in
  if negb (elf_magic e =? ELF_MAGIC) then mret None else
  load_phs (Z.to_nat (elf_phnum e)) (Z.to_nat (ELF + elf_phoff e));;
  m ← gets bt_mem;
  mret (Some (elf_entry (slice (Z.to_nat ELF) 52 m))).

(** ** Reading from the disk *)

(** The kernel image starts at sector 1. *)
Definition image : list Z := concat (tail disk).

Hypothesis drv_ready : ∀ ps, is_Some (poll (drv_status ps)).
(** Told to read one sector of disk 0, the drive presents it once it is ready. *)
Hypothesis drv_reads : ∀ ps lba d,
  command ps = Some (IDE_CMD_READ, 1, (0, lba)) → disk !! Z.to_nat lba = Some d → drv_data ((0x1f7, []) :: ps) disk = d.
Hypothesis sectors : Forall (λ d, length d = sector) disk.
Hypothesis disk_size : Z.of_nat (length disk) ≤ 2 ^ 28.
#[local] Set Default Proof Using "All".

Lemma wp_waitdisk (Q : () → machine → Prop) s :
  Q () {| bt_mem := bt_mem s; bt_ports := (0x1f7, []) :: bt_ports s |} → wp waitdisk Q s.
Proof.
  intros HQ. unfold waitdisk. wp_steps. destruct (drv_ready (bt_ports s)) as [r Hr].
  eapply wp_the; [exact Hr|]. by wp_steps.
Qed.

Lemma sector_of k : (sector * k + sector ≤ length image)%nat → ∃ d, disk !! S k = Some d ∧
  slice (sector * k) sector image = d.
Proof.
  intros Hk. unfold image in *. destruct disk as [|b l]; simpl in *; [lia|].
  pose proof sectors as Hs. apply Forall_cons in Hs as [_ Hs].
  assert (length (concat l) = sector * length l)%nat as L.
  { clear -Hs. induction Hs as [|x l Hx Hl IH]; [done|]. simpl. rewrite length_app, IH, Hx. lia. }
  destruct (lookup_lt_is_Some_2 l k) as [d Hd]; [lia|]. exists d. split; [done|]. by apply concat_slice.
Qed.

(** [readsect] copies the sector of the image to memory. *)
Lemma readsect_spec dst k s :
  (sector * k + sector ≤ length image)%nat → (dst + sector ≤ length (bt_mem s))%nat →
  wp (readsect dst (Z.of_nat k + 1)) (λ _ s', bt_mem s' = splice dst (slice (sector * k) sector image) (bt_mem s)) s.
Proof.
  intros Hk Hd. destruct (sector_of k Hk) as (d & Hdk & Es). set (o := Z.of_nat k + 1).
  pose proof (lookup_lt_Some _ _ _ Hdk) as Hlt. assert (0 ≤ o < 2 ^ 28) as Ho by lia.
  unfold readsect. wp_step. apply wp_waitdisk. unfold boot_outb. wp_steps. apply wp_waitdisk. wp_steps.
  cbn [bt_ports bt_mem]. erewrite drv_reads.
  - unfold wp, store_mem. rewrite Es. simpl. assert (length d = sector) as Ld.
    { pose proof sectors as Hs. by eapply Forall_lookup_1 in Hs. }
    rewrite Ld, bool_decide_eq_true_2 by done. done.
  - apply command_last; [done|]. unfold selected, port. cbn [Z.eqb Pos.eqb].
    replace (Z.lor (Z.shiftr o 24) 0xE0) with (Z.lor (Z.lor 0xe0 (Z.shiftl 0 4)) (Z.land (Z.shiftr o 24) 15)).
    + destruct (drive_register 0 (Z.land (Z.shiftr o 24) 15)) as [-> ->]; [lia|apply land_bound_15|].
      rewrite land_15, !Z.shiftr_div_pow2 by lia. unfold u8. rewrite sector_bytes by done. done.
    + rewrite Z.lor_comm. f_equal. rewrite land_15, Z.shiftr_div_pow2 by lia. apply Z.mod_small.
      split; [apply Z.div_pos; lia|apply Z.div_lt_upper_bound; lia].
  - unfold o. replace (Z.to_nat (Z.of_nat k + 1)) with (S k) by lia. done.
Qed.

#[local] Coercion Z.of_nat : nat >-> Z.

(** The loop reads as many whole sectors as reach the end. *)
Lemma readseg_loop_spec n : ∀ fuel (p k : nat) (epa : Z) s,
  (n < fuel)%nat → epa ≤ p + 512 * n → (n = O ∨ p + 512 * (n - 1) < epa) →
  (sector * (k + n) ≤ length image)%nat → p + 512 * n ≤ length (bt_mem s) < 2 ^ 32 →
  wp (readseg_loop fuel p epa (k + 1))
    (λ _ s', bt_mem s' = splice p (slice (sector * k) (sector * n) image) (bt_mem s)) s.
Proof.
  induction n as [|n IH]; intros [|fuel] p k epa s Hf He Hn Hi Hm; [lia|..|lia|]; cbn [readseg_loop].
  - rewrite (proj2 (Z.leb_le epa p)) by lia. wp_steps. by rewrite Nat.mul_0_r.
  - rewrite (proj2 (Z.leb_gt epa p)) by lia. rewrite Nat2Z.id. wp_step.
    destruct (sector_of k) as (d & Hd & _); [lia|]. apply lookup_lt_Some in Hd.
    eapply wp_mono; [apply (readsect_spec p k s); lia|]. intros [] s' E. cbn beta in E.
    assert (length (bt_mem s') = length (bt_mem s)) as L by (by rewrite E, length_splice).
    assert (u32 (p + 512) = (p + 512)%nat) as -> by (unfold u32; rewrite Z.mod_small; lia).
    assert (u32 (k + 1 + 1) = S k + 1) as -> by (unfold u32; rewrite Z.mod_small; lia).
    eapply wp_mono; [apply IH; try rewrite L; lia|]. intros [] s'' E'. cbn beta in E'. rewrite E', E.
    replace (sector * S n)%nat with (sector + sector * n)%nat by lia.
    rewrite slice_add, splice_app, length_slice by lia. repeat f_equal; lia.
Qed.

(** The sectors [readseg] reads, and the memory it writes. *)
Definition seg_first (pa offset : Z) : nat := Z.to_nat (pa - offset mod 512).
Definition seg_sectors (count offset : Z) : nat := Z.to_nat ((offset mod 512 + count + 511) / 512).

Lemma seg_sectors_bounds count offset : 0 ≤ count → 0 ≤ offset →
  offset mod 512 + count ≤ 512 * seg_sectors count offset ≤ offset mod 512 + count + 511.
Proof.
  intros Hc Ho. unfold seg_sectors. set (a := offset mod 512 + count + 511).
  assert (0 ≤ a) by (unfold a; pose proof (Z.mod_pos_bound offset 512); lia).
  rewrite Z2Nat.id by (apply Z.div_pos; lia). pose proof (Z.div_mod a 512). pose proof (Z.mod_pos_bound a 512).
  unfold a in *. lia.
Qed.

(** What [readseg] needs: the sectors are on the disk, and memory has room. *)
Definition seg_fits (mem : list Z) (pa count offset : Z) : Prop :=
  0 ≤ count ∧ 0 ≤ offset ∧ offset mod 512 ≤ pa ∧
  offset - offset mod 512 + 512 * seg_sectors count offset ≤ length image ∧
  seg_first pa offset + 512 * seg_sectors count offset ≤ length mem < 2 ^ 32.

(** [readseg] puts the bytes asked for at [pa], and writes whole sectors only. *)
Lemma readseg_spec pa count offset s : seg_fits (bt_mem s) pa count offset →
  wp (readseg pa count offset)
    (λ _ s', bt_mem s' = splice (seg_first pa offset)
       (slice (Z.to_nat (offset - offset mod 512)) (sector * seg_sectors count offset) image) (bt_mem s)) s.
Proof.
  intros (Hc & Ho & Hp & Hi & Hm). pose proof (seg_sectors_bounds count offset Hc Ho) as Hn.
  pose proof (Z.mod_pos_bound offset 512 ltac:(lia)) as Hr. pose proof (Z.div_mod offset 512) as Hd.
  set (n := seg_sectors count offset) in *. set (k := Z.to_nat (offset / 512)).
  assert (0 ≤ offset / 512) as Hk by (apply Z.div_pos; lia).
  assert (Z.of_nat k = offset / 512) as Ek by (unfold k; lia).
  assert (Z.of_nat (seg_first pa offset) = pa - offset mod 512) as Ef by (unfold seg_first; lia).
  unfold readseg.
  assert (u32 (pa - offset mod 512) = seg_first pa offset) as -> by (unfold u32; rewrite Z.mod_small; lia).
  assert (u32 (pa + count) = pa + count) as -> by (unfold u32; rewrite Z.mod_small; lia).
  rewrite <-Ek. replace (Z.to_nat (offset - offset mod 512)) with (sector * k)%nat by lia.
  apply readseg_loop_spec; try lia.
  pose proof (Z.div_mod count 512). pose proof (Z.mod_pos_bound count 512). lia.
Qed.

(** ** The segments *)

(** The memory a program header makes [bootmain] write, from and to. *)
Definition ph_from (ph : list Z) : nat := seg_first (ph_paddr ph) (ph_off ph).
Definition ph_to (ph : list Z) : nat :=
  Nat.max (ph_from ph + sector * seg_sectors (ph_filesz ph) (ph_off ph)) (Z.to_nat (ph_paddr ph + ph_memsz ph)).

Definition ph_fits (len : nat) (ph : list Z) : Prop :=
  0 ≤ ph_filesz ph ∧ 0 ≤ ph_off ph ∧ ph_off ph mod 512 ≤ ph_paddr ph ∧
  ph_off ph - ph_off ph mod 512 + 512 * seg_sectors (ph_filesz ph) (ph_off ph) ≤ length image ∧
  ph_to ph ≤ len < 2 ^ 32.

(** The segment is in memory: its bytes of the file, and zeros after them. *)
Definition loaded (mem : list Z) (ph : list Z) : Prop :=
  slice (Z.to_nat (ph_paddr ph)) (Z.to_nat (ph_filesz ph)) mem
    = slice (Z.to_nat (ph_off ph)) (Z.to_nat (ph_filesz ph)) image ∧
  slice (Z.to_nat (ph_paddr ph + ph_filesz ph)) (Z.to_nat (ph_memsz ph - ph_filesz ph)) mem
    = replicate (Z.to_nat (ph_memsz ph - ph_filesz ph)) 0.

(** [m'] is [m] but for the addresses [from <= a < to]. *)
Definition same_but (from to : nat) (m m' : list Z) : Prop :=
  length m' = length m ∧ ∀ a n, (a + n ≤ from ∨ to ≤ a)%nat → slice a n m' = slice a n m.

Lemma load_ph_spec ph s : ph_fits (length (bt_mem s)) ph →
  wp (load_ph ph) (λ _ s', loaded (bt_mem s') ph ∧ same_but (ph_from ph) (ph_to ph) (bt_mem s) (bt_mem s')) s.
Proof.
  intros (Hc & Ho & Hp & Hi & Ht). pose proof (seg_sectors_bounds _ _ Hc Ho) as Hn.
  pose proof (Z.mod_pos_bound (ph_off ph) 512 ltac:(lia)) as Hr.
  pose proof (Z.mod_le (ph_off ph) 512 Ho ltac:(lia)) as Hle. unfold ph_to, ph_from in *.
  assert (Z.of_nat (seg_first (ph_paddr ph) (ph_off ph)) = ph_paddr ph - ph_off ph mod 512) as Ef
    by (unfold seg_first; lia).
  set (n := seg_sectors _ _) in *. set (f := seg_first _ _) in *.
  unfold load_ph. wp_step. eapply wp_mono; [apply readseg_spec; split_and!; try done; fold f n; lia|].
  intros [] s1 E1. cbn beta in E1. fold f n in E1.
  assert (length (bt_mem s1) = length (bt_mem s)) as L1 by (by rewrite E1, length_splice).
  assert (∀ a b, (a + b ≤ f ∨ f + sector * n ≤ a)%nat → slice a b (bt_mem s1) = slice a b (bt_mem s)) as F1.
  { intros a b Hab. rewrite E1. apply slice_splice_ne; rewrite length_slice by lia; lia. }
  assert (slice (Z.to_nat (ph_paddr ph)) (Z.to_nat (ph_filesz ph)) (bt_mem s1)
    = slice (Z.to_nat (ph_off ph)) (Z.to_nat (ph_filesz ph)) image) as D1.
  { rewrite E1, slice_splice_sub by lia. f_equal. lia. }
  unfold when. destruct (Z.ltb_spec (ph_filesz ph) (ph_memsz ph)) as [Hz|Hz].
  - assert (u32 (ph_paddr ph + ph_filesz ph) = ph_paddr ph + ph_filesz ph) as -> by (unfold u32; rewrite Z.mod_small; lia).
    unfold wp, store_mem. set (z := replicate _ 0). assert (length z = Z.to_nat (ph_memsz ph - ph_filesz ph)) as Lz
      by apply length_replicate.
    rewrite bool_decide_eq_true_2 by lia. cbn [bt_mem]. split; [split|split].
    + rewrite slice_splice_ne by lia. done.
    + fold z. rewrite <-Lz. apply slice_splice_eq. lia.
    + by rewrite length_splice.
    + intros a b Hab. rewrite slice_splice_ne by lia. apply F1. lia.
  - wp_steps. split; [split; [done|]|split; [done|]].
    + by replace (Z.to_nat (ph_memsz ph - ph_filesz ph)) with O by lia.
    + intros a b Hab. apply F1. lia.
Qed.

(** Loading [ph'] leaves the addresses from [a] to [b] alone. *)
Definition apart (a b : nat) (ph' : list Z) : Prop := (b ≤ ph_from ph' ∨ ph_to ph' ≤ a)%nat.

(** Where the bytes of a segment are. *)
Definition ph_end (ph : list Z) : nat := Z.to_nat (ph_paddr ph + Z.max (ph_filesz ph) (ph_memsz ph)).

(** The program headers at address [a]. *)
Definition headers (mem : list Z) (a : nat) (phs : list (list Z)) : Prop :=
  ∀ i ph, phs !! i = Some ph → slice (a + 32 * i) 32 mem = ph.

Lemma load_phs_spec phs : ∀ a s,
  headers (bt_mem s) a phs →
  Forall (ph_fits (length (bt_mem s))) phs →
  Forall (apart a (a + 32 * length phs)) phs →
  StronglySorted (λ ph ph', apart (Z.to_nat (ph_paddr ph)) (ph_end ph) ph') phs →
  wp (load_phs (length phs) a) (λ _ s', Forall (loaded (bt_mem s')) phs ∧ length (bt_mem s') = length (bt_mem s) ∧
    ∀ x n, Forall (apart x (x + n)) phs → slice x n (bt_mem s') = slice x n (bt_mem s)) s.
Proof.
  induction phs as [|ph phs IH]; intros a s Hh Hf Ha Hs; cbn [load_phs length]; [by wp_steps|].
  apply Forall_cons in Hf as [Hf Hfs]. apply Forall_cons in Ha as [Ha Has].
  apply StronglySorted_inv in Hs as [Hs Hsa]. do 3 wp_step.
  pose proof (Hh O ph eq_refl) as E0. rewrite Nat.mul_0_r, Nat.add_0_r in E0. rewrite E0.
  eapply wp_mono; [by apply load_ph_spec|]. intros [] s1 (Hl & Hb). pose proof Hb as [L1 F1].
  eapply wp_mono; [apply (IH (a + 32)%nat s1)|].
  - intros i ph' Hi. rewrite F1; [rewrite <-(Hh (S i) ph' Hi); f_equal; lia|].
    apply lookup_lt_Some in Hi. unfold apart in Ha. cbn [length] in Ha. lia.
  - by rewrite L1.
  - eapply Forall_impl; [exact Has|]. unfold apart. cbn [length]. intros ?. lia.
  - done.
  - intros [] s2 (Hls & L2 & F2). split_and!; [|congruence|].
    + constructor; [|done]. destruct Hf as (Hc & Ho & Hp & _).
      pose proof (Z.mod_pos_bound (ph_off ph) 512 ltac:(lia)).
      unfold apart, ph_end in Hsa. destruct Hl as [H1 H2]. split.
      * rewrite F2; [done|]. eapply Forall_impl; [exact Hsa|]. unfold apart. intros ?. lia.
      * destruct (Z.le_gt_cases (ph_memsz ph) (ph_filesz ph)).
        { by replace (Z.to_nat (ph_memsz ph - ph_filesz ph)) with O by lia. }
        rewrite F2; [done|]. eapply Forall_impl; [exact Hsa|]. unfold apart. intros ?. lia.
    + intros x n Hx. apply Forall_cons in Hx as [Hx Hxs]. rewrite F2 by done. apply F1. done.
Qed.

(** C36: [bootmain] loads the kernel.  Let the drive get ready and, told to read
    one sector of disk 0, present that sector once it is ready.  Let the image on
    the disk from sector 1 on start with an ELF header and its program headers in the first page, let
    each segment fit into memory and lie apart from the headers, and let the
    sectors read for a segment not reach into a segment loaded before.  Then
    [bootmain] ends with the entry point of the header, and every segment is
    in memory at its physical address, its bytes of the file first and zeros
    after them. *)
Theorem bootmain_loads phs s :
  let e := take 52 image in
  elf_magic e = ELF_MAGIC →
  elf_phnum e = length phs → 0 ≤ elf_phoff e → elf_phoff e + 32 * length phs ≤ 4096 →
  headers image (Z.to_nat (elf_phoff e)) phs →
  4096 ≤ length image → ELF + 4096 ≤ length (bt_mem s) < 2 ^ 32 →
  Forall (ph_fits (length (bt_mem s))) phs →
  Forall (apart (Z.to_nat ELF) (Z.to_nat (ELF + 4096))) phs →
  StronglySorted (λ ph ph', apart (Z.to_nat (ph_paddr ph)) (ph_end ph) ph') phs →
  wp bootmain (λ r s', r = Some (elf_entry e) ∧ Forall (loaded (bt_mem s')) phs) s.
Proof.
  intros e Hm Hn Hp Hpn Hh Hi Hl Hf Ha Hs. unfold bootmain. wp_step.
  eapply wp_mono; [apply readseg_spec|].
  { split_and!; change (seg_sectors 4096 0) with 8%nat; change (seg_first ELF 0) with (Z.to_nat ELF);
      change (0 mod 512) with 0; lia. }
  intros [] s1 E. cbn beta in E. change (seg_sectors 4096 0) with 8%nat in E.
  change (seg_first ELF 0) with (Z.to_nat ELF) in E. change (Z.to_nat (0 - 0 mod 512)) with O in E.
  assert (length (bt_mem s1) = length (bt_mem s)) as L by (by rewrite E, length_splice).
  assert (∀ a n, (a + n ≤ 4096)%nat → slice (Z.to_nat ELF + a) n (bt_mem s1) = slice a n image) as R.
  { intros a n Han. rewrite E, slice_splice_sub by lia. f_equal. lia. }
  assert (slice (Z.to_nat ELF) 52 (bt_mem s1) = e) as Ee.
  { etrans; [|apply (R O 52%nat); lia]. by rewrite Nat.add_0_r. }
  wp_step. wp_step. rewrite Ee, Hm, Z.eqb_refl. cbn [negb]. rewrite Hn, Nat2Z.id. wp_step.
  eapply wp_mono; [apply load_phs_spec; rewrite ?L; try done|].
  - intros i ph Hl'. rewrite <-(Hh i ph Hl'). rewrite <-R; [f_equal; lia|]. apply lookup_lt_Some in Hl'. lia.
  - eapply Forall_impl; [exact Ha|]. unfold apart. intros ?. lia.
  - intros [] s2 (Hls & _ & F). wp_steps. rewrite F, Ee; [done|].
    eapply Forall_impl; [exact Ha|]. unfold apart. intros ?. lia.
Qed.

End Boot.

(** A kernel of one segment: four bytes of file at 4096, loaded at 0x200 and
    followed by four zeros. *)
Module BootExample.

#[local] Instance drive : Drive := {|
  drv_status _ := [0x80; 0x40];
  drv_data ps disk :=
    match ps with
    | (0x1f7, []) :: ps' =>
        match command ps' with Some (IDE_CMD_READ, 1, (0, lba)) => default [] (disk !! Z.to_nat lba) | _ => [] end
    | _ => []
    end;
|}.

Definition ph : list Z :=
  le_bytes 4 1 ++ le_bytes 4 4096 ++ le_bytes 4 0x80000200 ++ le_bytes 4 0x200 ++ le_bytes 4 4 ++ le_bytes 4 8 ++ le_bytes 4 5 ++ le_bytes 4 4096.

Definition elf : list Z :=
  le_bytes 4 ELF_MAGIC ++ replicate 20 0 ++ le_bytes 4 0x20c ++ le_bytes 4 52 ++ replicate 12 0 ++ [1; 0] ++ replicate 6 0.

Definition disk : list (list Z) :=
  replicate 512 0 :: (elf ++ ph ++ replicate 428 0) :: replicate 7 (replicate 512 0) ++ [[1; 2; 3; 4] ++ replicate 508 7].

Definition m0 : machine := {| bt_mem := replicate (Z.to_nat 0x20000) 0; bt_ports := [] |}.

Lemma m0_size : Z.of_nat (length (bt_mem m0)) = 0x20000.
Proof.
  change (bt_mem m0) with (replicate (Z.to_nat 0x20000) 0). rewrite length_replicate. apply Z2Nat.id. lia.
Qed.

Lemma bootmain_loads_witness :
  wp (bootmain disk) (λ r s', r = Some 0x20c ∧ Forall (loaded disk (bt_mem s')) [ph]) m0.
Proof.
  apply (bootmain_loads (H := drive) disk).
  - by intros ps; exists 0x40.
  - intros ps lba d E1 E2. cbn [drv_data drive]. by rewrite E1, E2.
  - by repeat constructor.
  - by vm_compute.
  - by vm_compute.
  - by vm_compute.
  - by vm_compute.
  - by vm_compute.
  - intros [|[|i]] ph' E; [|done..]. injection E as <-. by vm_compute.
  - by vm_compute.
  - rewrite m0_size. by vm_compute.
  - constructor; [|done]. unfold ph_fits. rewrite m0_size. by vm_compute.
  - constructor; [|done]. right. change (ph_to ph) with 1024%nat. lia.
  - by repeat constructor.
Defined.

End BootExample.
