(* ===== verification/Mkfs.v ===== *)
(** * Mkfs: the program that makes the file system image (mkfs.c)

    [mkfs] runs on the host.  The image file is a list of sectors; a file to be
    put into it is its name and the pieces in which [read] delivers it.  The
    host is little-endian and its reads and writes of the image succeed, but
    for a read beyond the end.  A failed [assert] is a [Panic], and so is an
    [exit(1)]. *)

From S2P Require Import Prelude Bytes CString Kernel Sched Ide Bio Log Crash Block Inode Dir.

#[local] Arguments replicate : simpl never.

(** ** The code *)

(** The global integers [nblocks], [nlog], [ninodes] and [size]. *)
Record config := { cf_nblocks : Z; cf_nlog : Z; cf_ninodes : Z; cf_size : Z }.
Definition shipped : config := {| cf_nblocks := 40911; cf_nlog := 10; cf_ninodes := 200; cf_size := 40960 |}.

Record fsimg := {
  fi_disk : list (list Z);
  fi_freeblock : Z;
  fi_usedblocks : Z;
  fi_freeinode : Z;
}.

Definition xshort (x : Z) : Z := le_val [u8 x; u8 (Z.shiftr x 8)].
Definition xint (x : Z) : Z := le_val [u8 x; u8 (Z.shiftr x 8); u8 (Z.shiftr x 16); u8 (Z.shiftr x 24)].

Definition zeroes : list Z := replicate 512 0.

Definition assert (b : bool) : M fsimg () := if b then mret () else panic "assert".

(** A write beyond the end of a file fills the gap with zeros. *)
Definition wsect (sec : Z) (buf : list Z) : M fsimg () :=
  modify (λ s, {|
    fi_disk := <[Z.to_nat sec:=buf]> (fi_disk s ++ replicate (S (Z.to_nat sec) - length (fi_disk s)) zeroes);
    fi_freeblock := fi_freeblock s; fi_usedblocks := fi_usedblocks s; fi_freeinode := fi_freeinode s |}).

Definition rsect (sec : Z) : M fsimg (list Z) :=
  dk ← gets fi_disk;
  match dk !! Z.to_nat sec with Some d => mret d | None => panic "read" end.

(** [xint(freeblock++)], and [usedblocks++] *)
Definition newblock : M fsimg Z :=
  b ← gets fi_freeblock;
  modify (λ s, {| fi_disk := fi_disk s; fi_freeblock := u32 (fi_freeblock s + 1);
                  fi_usedblocks := u32 (fi_usedblocks s + 1); fi_freeinode := fi_freeinode s |});;
  mret (xint b).

Definition i2b (inum : Z) : Z := u32 (inum / IPB + 2).

(** A [struct dinode] is its 64 bytes. *)
Definition winode (inum : Z) (ip : list Z) : M fsimg () :=
  let bn := i2b inum in
  buf ← rsect bn;
  wsect bn (splice (ioff inum) ip buf).

Definition rinode (inum : Z) : M fsimg (list Z) :=
  buf ← rsect (i2b inum);
  mret (slice (ioff inum) 64 buf).

Definition din_size : list Z → Z := get32 8.
Definition din_addr (k : Z) : list Z → Z := get32 (12 + 4 * Z.to_nat k).
Definition set_din_addr (k v : Z) : list Z → list Z := put32 (12 + 4 * Z.to_nat k) v.

Definition mk_ialloc (type : Z) : M fsimg Z :=
  inum ← gets fi_freeinode;
  modify (λ s, {| fi_disk := fi_disk s; fi_freeblock := fi_freeblock s;
                  fi_usedblocks := fi_usedblocks s; fi_freeinode := u32 (fi_freeinode s + 1) |});;
  let din := put32 8 (xint 0) (put16 6 (xshort 1) (put16 0 (xshort type) (replicate 64 0))) in
  winode inum din;;
  mret inum.

(** The loop of [balloc] sets the bits below [used]. *)
Fixpoint set_bits (used : nat) (buf : list Z) : list Z :=
  match used with
  | O => buf
  | S i => alter (λ b, Z.lor b (Z.shiftl 1 (Z.of_nat i mod 8))) (Z.to_nat (Z.of_nat i / 8)) (set_bits i buf)
  end.

Definition mk_balloc (cf : config) (used : Z) : M fsimg () :=
  assert (used <? 512 * 8);;
  wsect (cf_ninodes cf / IPB + 3) (set_bits (Z.to_nat used) zeroes).

(** The block of file block [fbn], allocated when there is none; [indirect] has
    [NINDIRECT] elements. *)
Definition append_block (din : list Z) (fbn : Z) : M fsimg (list Z * Z) :=
  if fbn <? NDIRECT then
    din ← (if xint (din_addr fbn din) =? 0 then b ← newblock; mret (set_din_addr fbn b din) else mret din);
    mret (din, xint (din_addr fbn din))
  else
    din ← (if xint (din_addr NDIRECT din) =? 0 then b ← newblock; mret (set_din_addr NDIRECT b din) else mret din);
    indirect ← rsect (xint (din_addr NDIRECT din));
    if NINDIRECT <=? fbn - NDIRECT then fault else
    let o := (4 * Z.to_nat (fbn - NDIRECT))%nat in
    indirect ← (if get32 o indirect =? 0 then
                  b ← newblock;
                  wsect (xint (din_addr NDIRECT din)) (put32 o b indirect);;
                  mret (put32 o b indirect)
                else mret indirect);
    mret (din, xint (get32 o indirect)).

Fixpoint iappend_loop (fuel : nat) (din : list Z) (off : Z) (p : list Z) : M fsimg (list Z * Z) :=
  match fuel with
  | O => fault
  | S fuel' =>
      let n := Z.of_nat (length p) in
      if n <=? 0 then mret (din, off) else
      let fbn := off / 512 in
      assert (fbn <? MAXFILE);;
      '(din, x) ← append_block din fbn;
      let n1 := Z.min n ((fbn + 1) * 512 - off) in
      buf ← rsect x;
      wsect x (splice (Z.to_nat (off - fbn * 512)) (take (Z.to_nat n1) p) buf);;
      iappend_loop fuel' din (u32 (off + n1)) (drop (Z.to_nat n1) p)
  end.

Definition iappend (inum : Z) (p : list Z) : M fsimg () :=
  din ← rinode inum;
  '(din, off) ← iappend_loop (S (length p)) din (xint (din_size din)) p;
  winode inum (put32 8 (xint off) din).

(** A [struct dirent]: [strncpy] cuts the name to [DIRSIZ] bytes or pads it. *)
Definition mk_dirent (inum : Z) (name : list Z) : list Z :=
  le_bytes 2 (xshort inum) ++ take DIRSIZ (name ++ replicate DIRSIZ 0).

Fixpoint append_chunks (inum : Z) (chunks : list (list Z)) : M fsimg () :=
  match chunks with
  | [] | [] :: _ => mret ()
  | buf :: chunks' => iappend inum buf;; append_chunks inum chunks'
  end.

(** [if(argv[i][0] == '_') ++argv[i]] *)
Definition skip_underscore (name : list Z) : list Z :=
  match name with c :: r => if c =? 95 then r else name | [] => name end.

(** One command-line argument: the name, and what [read] gives for the file, or
    [None] when it cannot be opened. *)
Definition add_file (rootino : Z) (arg : list Z * option (list (list Z))) : M fsimg () :=
  assert (bool_decide (47 ∉ arg.1));;
  match arg.2 with
  | None => panic "open"
  | Some chunks =>
      inum ← mk_ialloc 2;
      iappend rootino (mk_dirent inum (skip_underscore arg.1));;
      append_chunks inum chunks
  end.

Fixpoint add_files (rootino : Z) (args : list (list Z * option (list (list Z)))) : M fsimg () :=
  match args with
  | [] => mret ()
  | a :: args' => add_file rootino a;; add_files rootino args'
  end.

Fixpoint zero_image (i n : nat) : M fsimg () :=
  match n with
  | O => mret ()
  | S n' => wsect (Z.of_nat i) zeroes;; zero_image (S i) n'
  end.

Definition bitblocks (cf : config) : Z := u32 (cf_size cf / (512 * 8) + 1).
Definition used0 (cf : config) : Z := u32 (cf_ninodes cf / IPB + 3 + bitblocks cf).

Definition sb_bytes (cf : config) : list Z :=
  le_bytes 4 (xint (cf_size cf)) ++ le_bytes 4 (xint (cf_nblocks cf)) ++ le_bytes 4 (xint (cf_ninodes cf))
  ++ le_bytes 4 (xint (cf_nlog cf)).

(** The size of the root directory, rounded up. *)
Definition fix_root (rootino : Z) : M fsimg () :=
  din ← rinode rootino;
  let off := u32 ((xint (din_size din) / BSIZE + 1) * BSIZE) in
  winode rootino (put32 8 (xint off) din).

(** [main], the command line checked and the image file created, empty. *)
Definition mkfs (cf : config) (args : list (list Z * option (list (list Z)))) : M fsimg () :=
  modify (λ s, {| fi_disk := []; fi_freeblock := used0 cf; fi_usedblocks := used0 cf; fi_freeinode := fi_freeinode s |});;
  let total := u32 (cf_nblocks cf + used0 cf + cf_nlog cf) in
  assert (total =? u32 (cf_size cf));;
  zero_image 0 (Z.to_nat total);;
  wsect 1 (splice 0 (sb_bytes cf) zeroes);;
  rootino ← mk_ialloc 1;
  assert (rootino =? ROOTINO);;
  iappend rootino (mk_dirent rootino [46]);;
  iappend rootino (mk_dirent rootino [46; 46]);;
  add_files rootino args;;
  fix_root rootino;;
  used ← gets fi_usedblocks;
  mk_balloc cf (s32 used).

(** [freeinode] starts at 1. *)
Definition start : fsimg := {| fi_disk := []; fi_freeblock := 0; fi_usedblocks := 0; fi_freeinode := 1 |}.

(** ** The image and its blocks *)

Lemma xint_u32 x : xint x = u32 x.
Proof.
  unfold xint. transitivity (le_val (le_bytes 4 x)); [|by rewrite le_val_le_bytes].
  rewrite !Z.shiftr_div_pow2 by lia. unfold u8. cbn [le_bytes]. do 2 f_equal.
  rewrite !Z.div_div by lia. done.
Qed.

Lemma xint_small x : 0 ≤ x < 2 ^ 32 → xint x = x.
Proof. intros H. rewrite xint_u32. by apply u32_small. Qed.

Lemma xshort_small x : 0 ≤ x < 2 ^ 16 → xshort x = x.
Proof.
  intros H. unfold xshort. transitivity (le_val (le_bytes 2 x)).
  - rewrite Z.shiftr_div_pow2 by lia. done.
  - rewrite le_val_le_bytes. by apply Z.mod_small.
Qed.

Definition set_disk (dk : list (list Z)) (s : fsimg) : fsimg :=
  {| fi_disk := dk; fi_freeblock := fi_freeblock s; fi_usedblocks := fi_usedblocks s; fi_freeinode := fi_freeinode s |}.

Lemma wsect_runs sec buf s : 0 ≤ sec < Z.of_nat (length (fi_disk s)) →
  runs_to (wsect sec buf) s () (set_disk (<[Z.to_nat sec:=buf]> (fi_disk s)) s).
Proof.
  intros H. unfold runs_to, wsect, modify. do 2 f_equal.
  replace (S (Z.to_nat sec) - length (fi_disk s))%nat with O by lia. by rewrite app_nil_r.
Qed.

Lemma rsect_runs sec s : 0 ≤ sec < Z.of_nat (length (fi_disk s)) →
  runs_to (rsect sec) s (disk_view (fi_disk s) sec) s.
Proof.
  intros H. unfold runs_to, rsect, gets, mbind, M_bind, disk_view.
  rewrite (list_lookup_lookup_total_lt _ (Z.to_nat sec)) by lia. done.
Qed.

(** A block of the image after a write. *)
Lemma view_insert dk x d y : 0 ≤ x < Z.of_nat (length dk) → 0 ≤ y →
  disk_view (<[Z.to_nat x:=d]> dk) y = if decide (y = x) then d else disk_view dk y.
Proof.
  intros Hx Hy. unfold disk_view. case_decide as E.
  - subst. apply list_lookup_total_insert_eq. lia.
  - apply list_lookup_total_insert_ne. lia.
Qed.

(** The state all steps keep: sectors of 512 bytes, and zeros from
    [freeblock] on. *)
Record store_ok (first : Z) (s : fsimg) : Prop := {
  so_sectors : Forall (λ d, length d = 512%nat) (fi_disk s);
  so_small : Z.of_nat (length (fi_disk s)) < 2 ^ 31;
  so_used : fi_usedblocks s = fi_freeblock s;
  so_first : 0 < first ≤ fi_freeblock s;
  so_zero : ∀ b, fi_freeblock s ≤ b < Z.of_nat (length (fi_disk s)) → disk_view (fi_disk s) b = zeroes;
}.

Lemma store_sector first s b : store_ok first s → 0 ≤ b < Z.of_nat (length (fi_disk s)) →
  length (disk_view (fi_disk s) b) = 512%nat.
Proof.
  intros [Hs _ _ _ _] Hb. unfold disk_view. eapply Forall_lookup_1 in Hs; [done|].
  apply list_lookup_lookup_total_lt. lia.
Qed.

(** A write below [freeblock]. *)
Lemma store_write first s x d : store_ok first s → 0 ≤ x < fi_freeblock s →
  x < Z.of_nat (length (fi_disk s)) → length d = 512%nat →
  store_ok first (set_disk (<[Z.to_nat x:=d]> (fi_disk s)) s).
Proof.
  intros [] Hx Hx' Hd. split; cbn; try done.
  - by apply Forall_insert.
  - by rewrite length_insert.
  - rewrite length_insert. intros b Hb. rewrite view_insert by lia. rewrite decide_False by lia. by apply so_zero0.
Qed.

Definition bump (s : fsimg) : fsimg :=
  {| fi_disk := fi_disk s; fi_freeblock := fi_freeblock s + 1;
     fi_usedblocks := fi_usedblocks s + 1; fi_freeinode := fi_freeinode s |}.

Lemma newblock_runs first s : store_ok first s → fi_freeblock s < Z.of_nat (length (fi_disk s)) →
  runs_to newblock s (fi_freeblock s) (bump s) ∧ store_ok first (bump s).
Proof.
  intros [] Hf. split.
  - unfold runs_to, newblock, gets, modify, mbind, M_bind, bump, mret, M_ret.
    rewrite xint_small by lia. rewrite so_used0, !u32_small by lia. done.
  - split; cbn; try done; [lia..|]. intros b Hb. apply so_zero0. lia.
Qed.

(** ** The blocks of a file

    [bl] lists the data blocks in order, [ib] is the indirect block when there
    are more than [NDIRECT], and [iv] its contents. *)

Definition iblk (bl : list Z) (ib : Z) : list Z := if decide (11 < length bl)%nat then [ib] else [].
Definition own (bl : list Z) (ib : Z) : list Z := iblk bl ib ++ bl.

Record mapped_at (first hi : Z) (iv din bl : list Z) (ib : Z) : Prop := {
  ma_len : length din = 64%nat;
  ma_max : (length bl ≤ 139)%nat;
  ma_direct : ∀ k, (k < 11)%nat → get32 (12 + 4 * k) din = default 0 (bl !! k);
  ma_ind : get32 56 din = default 0 (head (iblk bl ib));
  ma_iv : (11 < length bl)%nat → length iv = 512%nat ∧
    ∀ k, (k < 128)%nat → get32 (4 * k) iv = default 0 (bl !! (11 + k)%nat);
  ma_nodup : NoDup (own bl ib);
  ma_range : Forall (λ b, first ≤ b < hi) (own bl ib);
}.

Lemma mapped_block first hi iv din bl ib k : mapped_at first hi iv din bl ib → (k < length bl)%nat →
  bl !! k = Some (bl !!! k) ∧ first ≤ bl !!! k < hi.
Proof.
  intros Hm Hk. pose proof (list_lookup_lookup_total_lt bl k Hk) as E. split; [done|].
  pose proof (ma_range _ _ _ _ _ _ Hm) as Hr. unfold own in Hr. apply Forall_app in Hr as [_ Hr].
  by eapply Forall_lookup_1 in Hr.
Qed.

Lemma mapped_hi first hi hi' iv din bl ib : hi ≤ hi' → mapped_at first hi iv din bl ib → mapped_at first hi' iv din bl ib.
Proof. intros H []. split; try done. eapply Forall_impl; [done|]. cbn. lia. Qed.

Lemma lookup_snoc {A} (bl : list A) b k :
  (bl ++ [b]) !! k = if decide (k = length bl) then Some b else bl !! k.
Proof.
  case_decide as E; [subst; by apply list_lookup_middle|].
  destruct (decide (k < length bl)%nat); [by apply lookup_app_l|].
  rewrite !lookup_ge_None_2; [done|lia|len].
Qed.

Lemma iblk_snoc bl b ib : length bl ≠ 11%nat → iblk (bl ++ [b]) ib = iblk bl ib.
Proof.
  intros H. unfold iblk. rewrite length_app. cbn [length].
  destruct (decide (11 < length bl)%nat); [rewrite decide_True by lia|rewrite decide_False by lia]; done.
Qed.

Lemma own_snoc bl b ib : length bl ≠ 11%nat → own (bl ++ [b]) ib = own bl ib ++ [b].
Proof. intros H. unfold own. rewrite (iblk_snoc _ _ _ H). apply app_assoc. Qed.

(** A block number not in use yet. *)
Lemma own_fresh first hi l : Forall (λ b, first ≤ b < hi) l → NoDup l → first ≤ hi →
  NoDup (l ++ [hi]) ∧ Forall (λ b, first ≤ b < hi + 1) (l ++ [hi]).
Proof.
  intros Hr Hn Hf. split.
  - apply NoDup_app. split_and!; [done| |apply NoDup_singleton]. intros x Hx ->%list_elem_of_singleton.
    eapply Forall_forall in Hr; [|done]. cbn in Hr. lia.
  - apply Forall_app. split; [|repeat constructor; lia]. eapply Forall_impl; [done|]. cbn. lia.
Qed.

Section Push.
Context (first hi : Z) (Hfirst : first ≤ hi < 2 ^ 31) (Hpos : 0 < first).
Set Default Proof Using "All".

Lemma push_direct iv din bl ib : mapped_at first hi iv din bl ib → (length bl < 11)%nat →
  mapped_at first (hi + 1) iv (put32 (12 + 4 * length bl) hi din) (bl ++ [hi]) ib.
Proof.
  intros [] Hl. destruct (own_fresh first hi (own bl ib)) as [Hn Hr]; [done|done|lia|].
  split; rewrite ?own_snoc, ?iblk_snoc, ?length_app by lia; cbn [length]; try done; try lia.
  - unfold put32. by rewrite length_put_le.
  - intros k Hk. rewrite lookup_snoc. case_decide as E.
    + subst. rewrite get_put32_eq by lia. rewrite u32_small by lia. done.
    + rewrite get_put32_ne by lia. by apply ma_direct0.
  - by rewrite get_put32_ne by lia.
Qed.

Lemma push_indirect iv din bl ib : mapped_at first hi iv din bl ib → (11 < length bl < 139)%nat →
  mapped_at first (hi + 1) (put32 (4 * (length bl - 11)) hi iv) din (bl ++ [hi]) ib.
Proof.
  intros [] Hl. destruct (own_fresh first hi (own bl ib)) as [Hn Hr]; [done|done|lia|].
  destruct (ma_iv0 ltac:(lia)) as [Hiv Hi].
  split; rewrite ?own_snoc, ?iblk_snoc, ?length_app by lia; cbn [length]; try done; try lia.
  - intros k Hk. rewrite lookup_snoc, decide_False by lia. by apply ma_direct0.
  - intros _. split; [unfold put32; by rewrite length_put_le|]. intros k Hk. rewrite lookup_snoc. case_decide as E.
    + replace (4 * (length bl - 11))%nat with (4 * k)%nat by lia. rewrite get_put32_eq by lia. rewrite u32_small by lia. done.
    + rewrite get_put32_ne by lia. by apply Hi.
Qed.

Lemma push_first_indirect iv din bl ib : mapped_at first hi iv din bl ib → length bl = 11%nat →
  mapped_at first (hi + 1 + 1) (put32 0 (hi + 1) zeroes) (put32 56 hi din) (bl ++ [hi + 1]) hi.
Proof.
  intros [] Hl. assert (own bl ib = bl) as Eo by (unfold own, iblk; rewrite decide_False by lia; done).
  rewrite Eo in *. destruct (own_fresh first hi bl) as [Hn Hr]; [done|done|lia|].
  destruct (own_fresh first (hi + 1) (bl ++ [hi])) as [Hn' Hr']; [done|done|lia|].
  assert (Permutation (own (bl ++ [hi + 1]) hi) ((bl ++ [hi]) ++ [hi + 1])) as P.
  { unfold own, iblk. rewrite decide_True by (rewrite length_app; cbn; lia). rewrite <-!app_assoc. cbn.
    by rewrite Permutation_middle. }
  assert (iblk (bl ++ [hi + 1]) hi = [hi]) as Ei by (unfold iblk; rewrite decide_True by (len); done).
  split; rewrite ?P, ?Ei, ?length_app; cbn [length]; try done; try lia.
  - unfold put32. by rewrite length_put_le.
  - intros k Hk. rewrite get_put32_ne by lia. rewrite lookup_snoc, decide_False by lia. by apply ma_direct0.
  - rewrite get_put32_eq by lia. rewrite u32_small by lia. done.
  - intros _. split; [unfold put32; by rewrite length_put_le|]. intros k Hk. rewrite lookup_snoc. case_decide as E.
    + replace (4 * k)%nat with O by lia. rewrite get_put32_eq by (unfold zeroes; len). rewrite u32_small by lia. done.
    + rewrite get_put32_ne by (unfold zeroes; len). rewrite lookup_ge_None_2 by lia. apply get_le_zeros.
Qed.

End Push.

(** What a step of [iappend] leaves: the state is [s'], and below the old
    [freeblock] only the blocks [W] were written. *)
Record extends (first : Z) (W : list Z) (s s' : fsimg) : Prop := {
  ex_ok : store_ok first s';
  ex_len : length (fi_disk s') = length (fi_disk s);
  ex_ino : fi_freeinode s' = fi_freeinode s;
  ex_free : fi_freeblock s ≤ fi_freeblock s';
  ex_same : ∀ b, 0 ≤ b < fi_freeblock s → b ∉ W → disk_view (fi_disk s') b = disk_view (fi_disk s) b;
}.

Lemma extends_refl first W s : store_ok first s → extends first W s s.
Proof. split; try done; lia. Qed.

Lemma extends_trans first W1 W2 W s1 s2 s3 : extends first W1 s1 s2 → extends first W2 s2 s3 →
  W1 ⊆ W → (∀ b, b ∈ W2 → 0 ≤ b < fi_freeblock s1 → b ∈ W) → extends first W s1 s3.
Proof.
  intros [] [] HW1 HW2. split; try done; [congruence..|lia|]. intros b Hb Hn.
  rewrite ex_same1; [apply ex_same0; [done|set_solver]|lia|]. intros Hin. by apply Hn, HW2.
Qed.

Lemma extends_bump first W s : store_ok first s → fi_freeblock s < Z.of_nat (length (fi_disk s)) →
  extends first W s (bump s).
Proof. intros H Hl. split; try done; [by eapply newblock_runs|cbn; lia]. Qed.

Lemma extends_write first x s d : store_ok first s → 0 ≤ x < fi_freeblock s →
  x < Z.of_nat (length (fi_disk s)) → length d = 512%nat →
  extends first [x] s (set_disk (<[Z.to_nat x:=d]> (fi_disk s)) s).
Proof.
  intros H Hx Hl Hd. split; cbn; try done; [by apply store_write|by rewrite length_insert|].
  intros b Hb Hn. rewrite view_insert by lia. rewrite decide_False by set_solver. done.
Qed.

(** The block for file block [k]: the one there, or a new one of zeros. *)
Record appended (first : Z) (s : fsimg) (din bl : list Z) (ib : Z) (k : nat) (r : list Z * Z) (s' : fsimg)
    (bl' : list Z) (ib' : Z) : Prop := {
  ap_block : r.2 = bl' !!! k;
  ap_mapped : mapped_at first (fi_freeblock s') (disk_view (fi_disk s') ib') r.1 bl' ib';
  ap_extends : extends first (iblk bl ib) s s';
  ap_head : take 12 r.1 = take 12 din;
  ap_how : (k < length bl)%nat ∧ s' = s ∧ bl' = bl ∧ ib' = ib ∨
    k = length bl ∧ bl' = bl ++ [r.2] ∧ disk_view (fi_disk s') r.2 = zeroes ∧
    fi_freeblock s' = fi_freeblock s + Z.of_nat (length (own bl' ib')) - Z.of_nat (length (own bl ib)) ∧
    Forall (λ b, b ∈ own bl ib ∨ fi_freeblock s ≤ b) (own bl' ib');
}.

Lemma take_put32 n o v d : (n ≤ o)%nat → take n (put32 o v d) = take n d.
Proof.
  intros H. unfold put32, put_le, splice. apply list_eq. intros j.
  destruct (decide (j < n)%nat); [|rewrite !lookup_ge_None_2; [done|len|len]].
  rewrite !lookup_take_lt by done. apply list_lookup_inserts_lt. lia.
Qed.

Lemma total_snoc (bl : list Z) b : (bl ++ [b]) !!! length bl = b.
Proof. apply list_lookup_total_correct. by apply list_lookup_middle. Qed.

Lemma own_snoc_from hi bl ib : length bl ≠ 11%nat →
  Forall (λ b, b ∈ own bl ib ∨ hi ≤ b) (own (bl ++ [hi]) ib).
Proof.
  intros H. rewrite own_snoc by done. apply Forall_app. split; [|apply Forall_singleton; right; lia].
  apply Forall_forall. by left.
Qed.

Section Append.
Context (first : Z) (s : fsimg) (din bl : list Z) (ib : Z).
Hypothesis Hs : store_ok first s.
Hypothesis Hm : mapped_at first (fi_freeblock s) (disk_view (fi_disk s) ib) din bl ib.
Hypothesis Hroom : fi_freeblock s + 2 ≤ Z.of_nat (length (fi_disk s)).
Set Default Proof Using "All".

Lemma append_old k : (k < length bl)%nat →
  runs_to (append_block din (Z.of_nat k)) s (din, bl !!! k) s.
Proof.
  intros Hk. destruct (mapped_block _ _ _ _ _ _ k Hm Hk) as [Ek Hb]. pose proof Hs as [_ Hsm _ Hf _]. pose proof Hm as [].
  unfold append_block, din_addr. destruct (Z.ltb_spec (Z.of_nat k) NDIRECT) as [Hd|Hd].
  - rewrite Nat2Z.id, ma_direct0, Ek by lia. cbn [from_option id default].
    rewrite xint_small, (proj2 (Z.eqb_neq _ _)) by lia. unfold runs_to, mbind, M_bind, mret, M_ret.
    rewrite ma_direct0, Ek by lia. cbn [from_option id default]. by rewrite xint_small by lia.
  - destruct (ma_iv0 ltac:(lia)) as [_ Hi]. unfold own, iblk in *. rewrite decide_True in * by lia. cbn in ma_ind0.
    apply Forall_app in ma_range0 as [Hib _]. apply Forall_cons in Hib as [Hib _].
    change (12 + 4 * Z.to_nat NDIRECT)%nat with 56%nat. rewrite ma_ind0, xint_small, (proj2 (Z.eqb_neq _ _)) by lia.
    eapply runs_bind; [apply runs_ret|]. rewrite ma_ind0, xint_small by lia.
    eapply runs_bind; [apply rsect_runs; lia|]. rewrite (proj2 (Z.leb_gt _ _)) by lia.
    replace (Z.to_nat (Z.of_nat k - NDIRECT)) with (k - 11)%nat by lia. rewrite Hi by lia.
    replace (11 + (k - 11))%nat with k by lia. rewrite Ek. cbn [from_option id default].
    rewrite (proj2 (Z.eqb_neq _ _)) by lia. eapply runs_bind; [apply runs_ret|]. rewrite Hi by lia.
    replace (11 + (k - 11))%nat with k by lia. rewrite Ek. cbn [from_option id default]. by rewrite xint_small by lia.
Qed.

Lemma append_direct : (length bl < 11)%nat → let b := fi_freeblock s in
  runs_to (append_block din (Z.of_nat (length bl))) s (put32 (12 + 4 * length bl) b din, b) (bump s) ∧
  appended first s din bl ib (length bl) (put32 (12 + 4 * length bl) b din, b) (bump s) (bl ++ [b]) ib.
Proof.
  intros Hk b. destruct (newblock_runs first s Hs ltac:(lia)) as [Hr Ho]. pose proof Hs as [_ Hsm _ Hf Hz]. split.
  - unfold append_block, din_addr, set_din_addr. rewrite (proj2 (Z.ltb_lt _ _)) by lia. rewrite Nat2Z.id.
    rewrite (ma_direct _ _ _ _ _ _ Hm), lookup_ge_None_2 by lia. cbn [from_option].
    rewrite xint_small, Z.eqb_refl by lia. eapply runs_bind; [eapply runs_bind; [exact Hr|apply runs_ret]|].
    rewrite get_put32_eq by (rewrite (ma_len _ _ _ _ _ _ Hm); lia). rewrite u32_small, xint_small by lia. done.
  - split; cbn [fst snd].
    + by rewrite total_snoc.
    + apply push_direct; [lia..|done|done].
    + apply extends_bump; [done|lia].
    + apply take_put32. lia.
    + right. split_and!; [done..|apply Hz; unfold b; lia| |].
      * rewrite own_snoc, length_app by lia. cbn. lia.
      * apply own_snoc_from. lia.
Qed.

Lemma append_indirect : (11 < length bl < 139)%nat → let b := fi_freeblock s in
  let s' := set_disk (<[Z.to_nat ib:=put32 (4 * (length bl - 11)) b (disk_view (fi_disk s) ib)]> (fi_disk s)) (bump s) in
  runs_to (append_block din (Z.of_nat (length bl))) s (din, b) s' ∧
  appended first s din bl ib (length bl) (din, b) s' (bl ++ [b]) ib.
Proof.
  intros Hk b s'. destruct (newblock_runs first s Hs ltac:(lia)) as [Hr Ho]. pose proof Hs as [_ Hsm _ Hf Hz].
  pose proof Hm as []. destruct (ma_iv0 ltac:(lia)) as [Hlen Hi].
  assert (iblk bl ib = [ib]) as Eb by (unfold iblk; by rewrite decide_True by lia).
  assert (first ≤ ib < b) as Hib.
  { unfold own in ma_range0. rewrite Eb in ma_range0. by apply Forall_cons in ma_range0 as [? _]. }
  rewrite Eb in ma_ind0. cbn in ma_ind0. set (o := (4 * (length bl - 11))%nat) in *. split.
  - unfold append_block, din_addr. rewrite (proj2 (Z.ltb_ge _ _)) by lia.
    change (12 + 4 * Z.to_nat NDIRECT)%nat with 56%nat. rewrite ma_ind0, xint_small, (proj2 (Z.eqb_neq _ _)) by lia.
    eapply runs_bind; [apply runs_ret|]. rewrite ma_ind0, xint_small by lia.
    eapply runs_bind; [apply rsect_runs; lia|]. rewrite (proj2 (Z.leb_gt _ _)) by lia.
    replace (4 * Z.to_nat (Z.of_nat (length bl) - NDIRECT))%nat with o by lia.
    assert (get32 o (disk_view (fi_disk s) ib) = 0) as ->.
    { unfold o. rewrite Hi, lookup_ge_None_2 by lia. done. }
    cbn [Z.eqb]. eapply runs_bind.
    { eapply runs_bind; [exact Hr|]. eapply runs_bind; [apply wsect_runs; cbn; lia|]. apply runs_ret. }
    rewrite get_put32_eq by (unfold o; lia). by rewrite u32_small, xint_small by lia.
  - assert (disk_view (fi_disk s') ib = put32 o b (disk_view (fi_disk s) ib)) as Ev.
    { cbn. rewrite view_insert by lia. by rewrite decide_True. }
    split; cbn [fst snd].
    + by rewrite total_snoc.
    + rewrite Ev. apply push_indirect; [lia..|done|done].
    + rewrite Eb. apply (extends_trans _ [] [ib] _ s (bump s)); [apply extends_bump; [done|lia]| |set_solver|set_solver].
      apply (extends_write first ib (bump s)); cbn -[put32]; [done|lia|lia|]. unfold put32. by rewrite length_put_le.
    + done.
    + right. split_and!; [done..| | |].
      * cbn. rewrite view_insert, decide_False by lia. apply Hz. unfold b. lia.
      * rewrite own_snoc, length_app by lia. cbn. lia.
      * apply own_snoc_from. lia.
Qed.

Lemma append_first_indirect : length bl = 11%nat → let b := fi_freeblock s in
  let s' := set_disk (<[Z.to_nat b:=put32 0 (b + 1) zeroes]> (fi_disk s)) (bump (bump s)) in
  runs_to (append_block din 11) s (put32 56 b din, b + 1) s' ∧
  appended first s din bl ib (length bl) (put32 56 b din, b + 1) s' (bl ++ [b + 1]) b.
Proof.
  intros Hk b s'. destruct (newblock_runs first s Hs ltac:(lia)) as [Hr Ho]. pose proof Hs as [_ Hsm _ Hf Hz].
  destruct (newblock_runs first (bump s) Ho ltac:(cbn; lia)) as [Hr' Ho'].
  pose proof Hm as []. assert (iblk bl ib = []) as Eb by (unfold iblk; by rewrite decide_False by lia).
  rewrite Eb in ma_ind0. cbn in ma_ind0. assert (length zeroes = 512%nat) as Lz by (unfold zeroes; len). split.
  - unfold append_block, din_addr, set_din_addr. rewrite (proj2 (Z.ltb_ge _ _)) by lia.
    change (12 + 4 * Z.to_nat NDIRECT)%nat with 56%nat. rewrite ma_ind0, xint_small, Z.eqb_refl by lia.
    eapply runs_bind; [eapply runs_bind; [exact Hr|apply runs_ret]|].
    rewrite get_put32_eq by lia. rewrite u32_small, xint_small by lia.
    eapply runs_bind; [apply rsect_runs; cbn; lia|]. cbn [fi_disk bump]. rewrite Hz by lia.
    change (NINDIRECT <=? 11 - NDIRECT) with false. change (4 * Z.to_nat (11 - NDIRECT))%nat with O. cbv iota.
    assert (get32 0 zeroes = 0) as -> by apply (get_le_zeros 4). cbn [Z.eqb]. eapply runs_bind.
    { eapply runs_bind; [exact Hr'|]. eapply runs_bind; [apply wsect_runs; cbn; lia|]. apply runs_ret. }
    rewrite get_put32_eq by lia. cbn [fi_freeblock bump]. by rewrite u32_small, xint_small by lia.
  - assert (disk_view (fi_disk s') b = put32 0 (b + 1) zeroes) as Ev.
    { cbn -[put32]. rewrite view_insert by lia. by rewrite decide_True. }
    assert (iblk (bl ++ [b + 1]) b = [b]) as Eb' by (unfold iblk; rewrite decide_True by len; done).
    split; cbn [fst snd].
    + by rewrite total_snoc.
    + rewrite Ev. eapply push_first_indirect; [lia..|done|done].
    + rewrite Eb. apply (extends_trans _ [] [b] _ s (bump (bump s))); [| |set_solver|set_solver by lia].
      * apply (extends_trans _ [] [] _ s (bump s)); [apply extends_bump; [done|lia]| |set_solver|set_solver].
        apply extends_bump; cbn; [done|lia].
      * apply (extends_write first b (bump (bump s))); cbn -[put32]; [done|lia|lia|]. unfold put32. by rewrite length_put_le.
    + apply take_put32. lia.
    + right. split_and!; [done..| | |].
      * cbn -[put32]. rewrite view_insert, decide_False by lia. apply Hz. lia.
      * unfold own. rewrite Eb, Eb', !length_app. cbn. lia.
      * unfold own. rewrite Eb, Eb'. apply Forall_app. split; [apply Forall_singleton; right; lia|].
        apply Forall_app. split; [apply Forall_forall; by left|apply Forall_singleton; right; lia].
Qed.

Lemma append_block_spec k : (k ≤ length bl)%nat → (k < 139)%nat →
  wp (append_block din (Z.of_nat k)) (λ r s', ∃ bl' ib', appended first s din bl ib k r s' bl' ib') s.
Proof.
  intros Hk Hk'. destruct (decide (k < length bl)%nat) as [Hl|Hl].
  - eapply wp_of_runs; [by apply append_old|]. exists bl, ib. split; try done. by left.
  - assert (k = length bl) as -> by lia. destruct (decide (length bl < 11)%nat) as [H1|H1];
      [|destruct (decide (length bl = 11)%nat) as [H2|H2]].
    + destruct (append_direct H1). by eapply wp_of_runs; [|eauto].
    + destruct (append_first_indirect H2). rewrite H2 at 1. by eapply wp_of_runs; [|eauto].
    + destruct (append_indirect ltac:(lia)). by eapply wp_of_runs; [|eauto].
Qed.

End Append.

(** ** The contents of a file *)

(** The blocks [bl] hold [c], and zeros after it. *)
Definition holds (dk : list (list Z)) (bl c : list Z) : Prop :=
  (length c ≤ 512 * length bl)%nat ∧
  ∀ k j, (k < length bl)%nat → (j < 512)%nat →
    disk_view dk (bl !!! k) !! j = Some (default 0 (c !! (512 * k + j)%nat)).

Lemma holds_same dk dk' bl c : (∀ b, b ∈ bl → disk_view dk' b = disk_view dk b) → holds dk bl c → holds dk' bl c.
Proof.
  intros Hb [Hl Hd]. split; [done|]. intros k j Hk Hj. rewrite Hb; [by apply Hd|].
  apply list_elem_of_lookup. exists k. by apply list_lookup_lookup_total_lt.
Qed.

Lemma holds_snoc dk bl b c : holds dk bl c → disk_view dk b = zeroes → holds dk (bl ++ [b]) c.
Proof.
  intros [Hl Hd] Hb. split; [rewrite length_app; lia|]. rewrite length_app. cbn [length]. intros k j Hk Hj.
  destruct (decide (k = length bl)) as [->|].
  - rewrite total_snoc, Hb. unfold zeroes. rewrite lookup_replicate_2 by done. by rewrite lookup_ge_None_2 by lia.
  - rewrite lookup_total_app_l by lia. apply Hd; lia.
Qed.

(** The end of [c] in block [k] of the file is overwritten by [q]. *)
Lemma holds_write dk bl c q k :
  holds dk bl c → NoDup bl → Forall (λ b, 0 ≤ b < Z.of_nat (length dk)) bl →
  length (disk_view dk (bl !!! k)) = 512%nat → (k < length bl)%nat →
  (512 * k ≤ length c)%nat → (length c + length q ≤ 512 * k + 512)%nat →
  holds (<[Z.to_nat (bl !!! k):=splice (length c - 512 * k) q (disk_view dk (bl !!! k))]> dk) bl (c ++ q).
Proof.
  intros [Hl Hd] Hn Hr H512 Hk Hc Hq. split; [rewrite length_app; lia|]. intros k' j Hk' Hj.
  pose proof (list_lookup_lookup_total_lt bl k Hk) as Ek. pose proof (list_lookup_lookup_total_lt bl k' Hk') as Ek'.
  pose proof (Forall_lookup_1 _ _ _ _ Hr Ek) as Rk. pose proof (Forall_lookup_1 _ _ _ _ Hr Ek') as Rk'. cbn in Rk, Rk'.
  rewrite view_insert by lia. case_decide as E.
  - assert (k' = k) as -> by (rewrite E in Ek'; by eapply NoDup_lookup).
    rewrite lookup_splice by lia. case_decide as Ej.
    + rewrite lookup_app_r by lia. replace (512 * k + j - length c)%nat with (j - (length c - 512 * k))%nat by lia.
      destruct (lookup_lt_is_Some_2 q (j - (length c - 512 * k))) as [x Hx]; [lia|]. by rewrite Hx.
    + rewrite Hd by done. do 2 f_equal. destruct (decide (512 * k + j < length c)%nat).
      * by rewrite lookup_app_l by done.
      * rewrite !lookup_ge_None_2; [done|len|lia].
  - rewrite Hd by done. do 2 f_equal. destruct (decide (512 * k' + j < length c)%nat).
    + by rewrite lookup_app_l by done.
    + assert (k' ≠ k) by congruence. rewrite !lookup_ge_None_2; [done|len|lia].
Qed.

(** The blocks a file of [n] bytes takes. *)
Definition cost (n : nat) : nat :=
  let b := ((n + 511) / 512)%nat in if decide (11 < b)%nat then S b else b.

Lemma cost_mono n m : (n ≤ m)%nat → (cost n ≤ cost m)%nat.
Proof.
  intros H. unfold cost. pose proof (Nat.Div0.div_le_mono (n + 511) (m + 511) 512 ltac:(lia)).
  destruct (decide (11 < (n + 511) / 512)%nat), (decide (11 < (m + 511) / 512)%nat); lia.
Qed.

(** [din] describes a file with the contents [c]. *)
Record file_in (first : Z) (s : fsimg) (din bl : list Z) (ib : Z) (c : list Z) : Prop := {
  fl_mapped : mapped_at first (fi_freeblock s) (disk_view (fi_disk s) ib) din bl ib;
  fl_holds : holds (fi_disk s) bl c;
  fl_tight : (512 * length bl < length c + 512)%nat;
}.

Lemma file_cost first s din bl ib c : file_in first s din bl ib c → length (own bl ib) = cost (length c).
Proof.
  intros [_ [Hl _] Ht]. assert ((length c + 511) / 512 = length bl)%nat as E.
  { symmetry. apply (Nat.div_unique _ _ _ (length c + 511 - 512 * length bl)); lia. }
  unfold own, iblk, cost. rewrite E. destruct (decide (11 < length bl)%nat); done.
Qed.

(** The blocks of a file grow from [o] to [o']. *)
Record file_grows (first : Z) (s s' : fsimg) (o o' : list Z) : Prop := {
  gr_extends : extends first o s s';
  gr_count : fi_freeblock s' - Z.of_nat (length o') = fi_freeblock s - Z.of_nat (length o);
  gr_from : Forall (λ b, b ∈ o ∨ fi_freeblock s ≤ b) o';
}.

Lemma file_grows_refl first s o : store_ok first s → file_grows first s s o o.
Proof. intros H. split; [by apply extends_refl|done|]. apply Forall_forall. by left. Qed.

Lemma file_grows_trans first s1 s2 s3 o1 o2 o3 : file_grows first s1 s2 o1 o2 → file_grows first s2 s3 o2 o3 → file_grows first s1 s3 o1 o3.
Proof.
  intros [E1 C1 F1] [E2 C2 F2]. rewrite Forall_forall in F1. split.
  - eapply extends_trans; [exact E1|exact E2|done|]. intros b Hb Hlt. destruct (F1 b Hb); [done|lia].
  - lia.
  - eapply Forall_impl; [exact F2|]. cbn. pose proof (ex_free _ _ _ _ E1). intros b [Hb|Hb]; [apply F1; done|right; lia].
Qed.

(** A write to a data block. *)
Lemma write_data first s din bl ib c q k :
  store_ok first s → mapped_at first (fi_freeblock s) (disk_view (fi_disk s) ib) din bl ib →
  holds (fi_disk s) bl c → fi_freeblock s ≤ Z.of_nat (length (fi_disk s)) → (k < length bl)%nat →
  (512 * k ≤ length c)%nat → (length c + length q ≤ 512 * k + 512)%nat →
  let s' := set_disk (<[Z.to_nat (bl !!! k):=splice (length c - 512 * k) q (disk_view (fi_disk s) (bl !!! k))]>
                        (fi_disk s)) s in
  mapped_at first (fi_freeblock s') (disk_view (fi_disk s') ib) din bl ib ∧ holds (fi_disk s') bl (c ++ q) ∧
  file_grows first s s' (own bl ib) (own bl ib).
Proof.
  intros Hs Hm Hh Hroom Hk Hc Hq s'. pose proof (mapped_block _ _ _ _ _ _ _ Hm Hk) as [Ek Hb].
  pose proof (so_first _ _ Hs) as Hf. pose proof (ma_nodup _ _ _ _ _ _ Hm) as Hn. pose proof (ma_range _ _ _ _ _ _ Hm) as Hr.
  assert (length (disk_view (fi_disk s) (bl !!! k)) = 512%nat) as H512 by (apply (store_sector first); [done|clear s'; lia]).
  unfold own in Hn, Hr.
  apply NoDup_app in Hn as (_ & Hne & Hn). apply Forall_app in Hr as [Hri Hr]. split_and!.
  - destruct Hm. split; try done. intros Hl. destruct (ma_iv0 Hl) as [L1 L2].
    assert (ib ∈ iblk bl ib) as Hi by (unfold iblk; rewrite decide_True by done; set_solver).
    rewrite Forall_forall in Hri. pose proof (Hri _ Hi) as Hib. cbn in Hib.
    assert (ib ≠ bl !!! k) as Hd. { intros E. apply (Hne ib Hi). rewrite E. by eapply list_elem_of_lookup_2. }
    assert (disk_view (fi_disk s') ib = disk_view (fi_disk s) ib) as ->; [|done].
    cbn. rewrite view_insert, decide_False by (done || lia). done.
  - cbn. apply holds_write; try done. eapply Forall_impl; [exact Hr|]. cbn. lia.
  - split; [|done|apply Forall_forall; by left]. cbn.
    apply (extends_trans _ [] [bl !!! k] _ s s); [by apply extends_refl| |set_solver|].
    + apply extends_write; [done|lia|lia|]. by rewrite length_splice.
    + intros b ->%list_elem_of_singleton _. apply elem_of_app. right. by eapply list_elem_of_lookup_2.
Qed.

(** The block for the next byte of a file, in terms of its contents. *)
Lemma append_next first s din bl ib c :
  store_ok first s → file_in first s din bl ib c → Z.of_nat (length c) < 512 * 139 →
  fi_freeblock s + 2 ≤ Z.of_nat (length (fi_disk s)) →
  let k := (length c / 512)%nat in
  wp (append_block din (Z.of_nat k)) (λ r s', ∃ bl' ib',
    r.2 = bl' !!! k ∧ length bl' = S k ∧ take 12 r.1 = take 12 din ∧ holds (fi_disk s') bl' c ∧
    mapped_at first (fi_freeblock s') (disk_view (fi_disk s') ib') r.1 bl' ib' ∧
    file_grows first s s' (own bl ib) (own bl' ib')) s.
Proof.
  intros Hs [Hm Hh Ht] Hmax Hroom k. pose proof Hh as [Hl _].
  pose proof (Nat.div_mod (length c) 512 ltac:(lia)) as Hdm. pose proof (Nat.mod_upper_bound (length c) 512 ltac:(lia)) as Hmod.
  fold k in Hdm. eapply wp_mono; [apply (append_block_spec first s din bl ib Hs Hm Hroom k); lia|].
  intros r s' (bl' & ib' & [Hb Hm' He Ht' Hw]). exists bl', ib'. pose proof (ex_ok _ _ _ _ He) as Hs'.
  destruct Hw as [(Hk & -> & -> & ->)|(Hk & -> & Hz & Hc & Hfr)].
  - split_and!; try done; [lia|]. by apply file_grows_refl.
  - rewrite length_app. cbn [length]. split_and!; try done; [lia| |].
    + apply holds_snoc; [|done]. eapply holds_same; [|exact Hh]. intros b Hin. apply (ex_same _ _ _ _ He).
      * pose proof (ma_range _ _ _ _ _ _ Hm) as Hr. unfold own in Hr. apply Forall_app in Hr as [_ Hr].
        rewrite Forall_forall in Hr. specialize (Hr _ Hin). pose proof (so_first _ _ Hs). cbn in Hr. lia.
      * pose proof (ma_nodup _ _ _ _ _ _ Hm) as Hn. unfold own in Hn. apply NoDup_app in Hn as (_ & Hn & _).
        intros Hi. by apply (Hn b).
    + split; [|lia|done]. eapply extends_trans; [exact He|by apply (extends_refl first [])| |].
      * intros b Hin. apply elem_of_app. by left.
      * intros b Hn. by apply not_elem_of_nil in Hn.
Qed.

(** The loop of [iappend] appends [p] to the contents. *)
Lemma iappend_loop_spec first fuel : ∀ s din bl ib c p,
  (length p < fuel)%nat → store_ok first s → file_in first s din bl ib c →
  Z.of_nat (length c + length p) ≤ 512 * 139 →
  fi_freeblock s - Z.of_nat (cost (length c)) + Z.of_nat (cost (length c + length p)) + 2 ≤ Z.of_nat (length (fi_disk s)) →
  wp (iappend_loop fuel din (Z.of_nat (length c)) p) (λ r s', ∃ bl' ib',
    r.2 = Z.of_nat (length (c ++ p)) ∧ take 12 r.1 = take 12 din ∧
    file_in first s' r.1 bl' ib' (c ++ p) ∧ file_grows first s s' (own bl ib) (own bl' ib')) s.
Proof.
  induction fuel as [|fuel IH]; intros s din bl ib c p Hf Hs Hc Hmax Hroom; [lia|]. cbn [iappend_loop].
  destruct (Z.leb_spec (Z.of_nat (length p)) 0) as [Hp|Hp].
  { destruct p; [|cbn in *; lia]. rewrite app_nil_r. wp_step. exists bl, ib. split_and!; try done. by apply file_grows_refl. }
  pose proof (Nat.div_mod (length c) 512 ltac:(lia)) as Hdm. pose proof (Nat.mod_upper_bound (length c) 512 ltac:(lia)) as Hmod.
  pose proof (cost_mono (length c) (length c + length p) ltac:(lia)) as Hmono.
  set (k := (length c / 512)%nat) in *. assert (Z.of_nat (length c) / 512 = Z.of_nat k) as -> by (unfold k; by rewrite Nat2Z.inj_div).
  unfold assert. rewrite (proj2 (Z.ltb_lt _ _)) by lia. wp_step. wp_step. wp_step.
  eapply wp_mono; [apply (append_next first s din bl ib c); [done|done|lia|lia]|]. fold k.
  intros [din1 x] s1 (bl1 & ib1 & Hx & Hl1 & Ht1 & Hh1 & Hm1 & Hg1). cbn [fst snd] in *.
  pose proof (file_cost _ _ _ _ _ _ Hc) as Ec. pose proof (gr_extends _ _ _ _ _ Hg1) as He1.
  pose proof (gr_count _ _ _ _ _ Hg1) as Hc1. pose proof (ex_ok _ _ _ _ He1) as Hs1. pose proof (ex_len _ _ _ _ He1) as Ln1.
  assert (length (own bl1 ib1) = cost (length c + 1)) as Eo1.
  { unfold own, iblk, cost. replace ((length c + 1 + 511) / 512)%nat with (S k) by
      (apply (Nat.div_unique _ _ _ (length c mod 512)); lia).
    rewrite Hl1. destruct (decide (11 < S k)%nat); cbn [app length]; lia. }
  pose proof (cost_mono (length c + 1) (length c + length p) ltac:(lia)) as Hmono1.
  destruct (mapped_block _ _ _ _ _ _ k Hm1 ltac:(lia)) as [_ Hxr]. rewrite <-Hx in Hxr. pose proof (so_first _ _ Hs).
  set (n1 := Z.to_nat (Z.min (Z.of_nat (length p)) ((Z.of_nat k + 1) * 512 - Z.of_nat (length c)))).
  assert (length (take n1 p) = n1) as Lq by (rewrite length_take; lia).
  wp_step. eapply wp_of_runs; [apply rsect_runs; lia|]. wp_step. eapply wp_of_runs; [apply wsect_runs; lia|].
  replace (Z.to_nat (Z.of_nat (length c) - Z.of_nat k * 512)) with (length c - 512 * k)%nat by lia. rewrite Hx.
  destruct (write_data first s1 din1 bl1 ib1 c (take n1 p) k) as (Hm2 & Hh2 & Hg2); [done|done|done|lia..|].
  set (s2 := set_disk _ s1) in *. assert (file_in first s2 din1 bl1 ib1 (c ++ take n1 p)) as Hfl2.
  { split; [done|done|]. rewrite length_app. lia. }
  pose proof (file_cost _ _ _ _ _ _ Hfl2) as Ec2. pose proof (gr_count _ _ _ _ _ Hg2) as Hc2.
  pose proof (ex_len _ _ _ _ (gr_extends _ _ _ _ _ Hg2)) as Ln2. rewrite length_app, Lq in Ec2.
  replace (u32 _) with (Z.of_nat (length (c ++ take n1 p))) by (rewrite length_app, Lq, u32_small; lia).
  eapply wp_mono; [apply (IH s2 din1 bl1 ib1 (c ++ take n1 p))|].
  - rewrite length_drop. lia.
  - apply (ex_ok _ _ _ _ (gr_extends _ _ _ _ _ Hg2)).
  - done.
  - rewrite length_app, length_drop. lia.
  - rewrite length_app, length_drop, Lq. replace (length c + n1 + (length p - n1))%nat with (length c + length p)%nat by lia. lia.
  - intros r s3 (bl3 & ib3 & Er & Et & Hfl3 & Hg3). rewrite <-app_assoc, take_drop in *. exists bl3, ib3.
    split_and!; [done|congruence|done|]. eapply file_grows_trans; [exact Hg1|]. by eapply file_grows_trans.
Qed.

(** [indirect] has 128 elements, and nothing keeps a file from needing more: the
    [assert] lets through any block number below [MAXFILE], which counts the
    doubly indirect blocks as well. *)
Theorem iappend_overruns din k s :
  139 ≤ k → 0 < get32 56 din < Z.of_nat (length (fi_disk s)) → get32 56 din < 2 ^ 32 →
  append_block din k s = Fault.
Proof.
  intros Hk Hr H32. unfold append_block, din_addr. rewrite (proj2 (Z.ltb_ge _ _)) by lia.
  change (12 + 4 * Z.to_nat NDIRECT)%nat with 56%nat. rewrite (xint_small (get32 56 din)) by lia.
  rewrite (proj2 (Z.eqb_neq _ _)) by lia. erewrite bind_runs by apply runs_ret. rewrite xint_small by lia.
  erewrite bind_runs by (apply rsect_runs; lia). by rewrite (proj2 (Z.leb_le _ _)) by lia.
Qed.
