(* ===== verification/MkfsImage.v ===== *)
(** * MkfsImage: the image that mkfs makes, as the kernel reads it (mkfs.c, fs.c) *)

From S2P Require Import Prelude Bytes CString Kernel Sched Ide Bio Log Crash Block Inode Icache Dir Path Mkfs.

#[local] Arguments replicate : simpl never.

(** ** The image as a whole *)

Record finfo := { f_type : Z; f_size : Z; f_data : list Z; f_blocks : list Z; f_ib : Z }.

Definition f_own (f : finfo) : list Z := own (f_blocks f) (f_ib f).
Definition inode_bytes (dk : list (list Z)) (inum : Z) : list Z := slice (ioff inum) 64 (disk_view dk (i2b inum)).

(** The first fields of a disk inode: the type, no device, one link. *)
Definition ihead (t : Z) : list Z := le_bytes 2 t ++ [0; 0; 0; 0; 1; 0].

(** The inode [din] is that of [f]. *)
Record entry (first : Z) (s : fsimg) (din : list Z) (f : finfo) : Prop := {
  en_file : file_in first s din (f_blocks f) (f_ib f) (f_data f);
  en_head : take 8 din = ihead (f_type f);
  en_size : get32 8 din = f_size f;
}.

(** Inodes and bitmap blocks end at [map0] and [used0]. *)
Definition map0 (cf : config) : Z := cf_ninodes cf / IPB + 3.

Definition blocks_of (fs : list finfo) : nat := sum_list_with (λ f, cost (length (f_data f))) fs.

(** The parts of the invariant that do not speak of files. *)
Record frame (cf : config) (bits : list Z) (s : fsimg) : Prop := {
  fr_store : store_ok (used0 cf) s;
  fr_len : Z.of_nat (length (fi_disk s)) = cf_size cf;
  fr_sb : disk_view (fi_disk s) 1 = splice 0 (sb_bytes cf) zeroes;
  fr_bits : disk_view (fi_disk s) (map0 cf) = bits;
  fr_map : ∀ b, map0 cf < b < used0 cf → disk_view (fi_disk s) b = zeroes;
}.

(** No two files share a block. *)
Definition unshared (fs : list finfo) : Prop :=
  ∀ j j' f f' b, fs !! j = Some f → fs !! j' = Some f' → b ∈ f_own f → b ∈ f_own f' → j = j'.

(** File number [j] has inode [1 + j]; the blocks in use are those of the
    files. *)
Record img (cf : config) (bits : list Z) (fs : list finfo) (s : fsimg) : Prop := {
  im_frame : frame cf bits s;
  im_ino : fi_freeinode s = 1 + Z.of_nat (length fs);
  im_max : Z.of_nat (length fs) ≤ cf_ninodes cf;
  im_files : ∀ j f, fs !! j = Some f → entry (used0 cf) s (inode_bytes (fi_disk s) (1 + Z.of_nat j)) f;
  im_apart : unshared fs;
  im_count : fi_freeblock s = used0 cf + Z.of_nat (blocks_of fs);
}.

(** What [mkfs] assumes of its configuration. *)
Record config_ok (cf : config) : Prop := {
  co_ninodes : 0 ≤ cf_ninodes cf < 2 ^ 16;
  co_size : 0 ≤ cf_size cf < 2 ^ 31;
  co_nblocks : 0 ≤ cf_nblocks cf;
  co_nlog : 2 ≤ cf_nlog cf;
  co_total : cf_nblocks cf + used0 cf + cf_nlog cf = cf_size cf;
}.

Lemma used0_val cf : config_ok cf → used0 cf = map0 cf + bitblocks cf ∧ 0 < bitblocks cf ∧ 3 ≤ map0 cf ∧ used0 cf < 2 ^ 31.
Proof.
  intros [Hn Hs _ _ _]. unfold used0, map0, bitblocks. pose proof (Z.div_pos (cf_size cf) (512 * 8)).
  pose proof (Z.div_le_upper_bound (cf_size cf) (512 * 8) (2 ^ 19)). pose proof (Z.div_pos (cf_ninodes cf) IPB).
  pose proof (Z.div_le_upper_bound (cf_ninodes cf) IPB (2 ^ 16)).
  rewrite (u32_small (cf_size cf / _ + 1)) by lia. rewrite u32_small by lia. lia.
Qed.

Lemma i2b_val cf inum : config_ok cf → 0 ≤ inum ≤ cf_ninodes cf → i2b inum = inum / 8 + 2 ∧ 2 ≤ i2b inum < map0 cf.
Proof.
  intros [] H. unfold i2b, map0. cbn. pose proof (Z.div_pos inum 8). pose proof (Z.div_le_mono inum (cf_ninodes cf) 8).
  pose proof (Z.div_le_upper_bound (cf_ninodes cf) 8 (2 ^ 16)). rewrite u32_small by lia. lia.
Qed.

(** Inodes after one was written. *)
Lemma inode_bytes_write cf dk inum d inum' :
  config_ok cf → 0 ≤ inum ≤ cf_ninodes cf → 0 ≤ inum' ≤ cf_ninodes cf → map0 cf ≤ Z.of_nat (length dk) →
  length (disk_view dk (i2b inum)) = 512%nat → length d = 64%nat →
  inode_bytes (<[Z.to_nat (i2b inum):=splice (ioff inum) d (disk_view dk (i2b inum))]> dk) inum' =
  if decide (inum' = inum) then d else inode_bytes dk inum'.
Proof.
  intros Hc H H' Hl H512 Hd. destruct (i2b_val cf inum Hc H) as [E R]. destruct (i2b_val cf inum' Hc H') as [E' R'].
  unfold inode_bytes. rewrite view_insert by lia. pose proof (ioff_bound inum) as Ho.
  case_decide as Eb; case_decide as Ei; subst; try congruence.
  - rewrite <-Hd. apply slice_splice_eq. lia.
  - rewrite slice_splice_ne; [by rewrite Eb|lia|]. rewrite E, E' in Eb. unfold ioff. cbn. rewrite Hd.
    pose proof (Z.div_mod inum 8). pose proof (Z.div_mod inum' 8).
    pose proof (Z.mod_pos_bound inum 8). pose proof (Z.mod_pos_bound inum' 8). lia.
Qed.

Lemma entry_extends first W s s' din f :
  entry first s din f → extends first W s s' → 0 < first → (∀ b, b ∈ f_own f → b ∉ W) → entry first s' din f.
Proof.
  intros [[Hm Hh Ht] Hd Hz] He Hf HW. pose proof (ma_range _ _ _ _ _ _ Hm) as Hr. rewrite Forall_forall in Hr.
  assert (∀ b, b ∈ f_own f → disk_view (fi_disk s') b = disk_view (fi_disk s) b) as Hv.
  { intros b Hb. apply (ex_same _ _ _ _ He); [|by apply HW]. specialize (Hr _ Hb). cbn in Hr. lia. }
  split; [|done|done]. split; [|eapply holds_same; [|done]|done].
  - apply (mapped_hi _ (fi_freeblock s)); [apply (ex_free _ _ _ _ He)|]. destruct Hm. split; try done.
    intros Hl. rewrite Hv; [by apply ma_iv|]. apply elem_of_app. left. unfold iblk. rewrite decide_True by done.
    by apply list_elem_of_singleton.
  - intros b Hb. apply Hv. apply elem_of_app. by right.
Qed.

Lemma sum_insert {A} (g : A → nat) l j x x' : l !! j = Some x →
  (sum_list_with g (<[j:=x']> l) + g x = sum_list_with g l + g x')%nat.
Proof.
  revert j. induction l as [|y l IH]; intros [|j] E; [done..| |].
  - injection E as ->. cbn. lia.
  - change (<[S j:=x']> (y :: l)) with (y :: <[j:=x']> l). cbn [sum_list_with]. specialize (IH j E). lia.
Qed.

Lemma unshared_insert hi fs j f f' : unshared fs → fs !! j = Some f →
  (∀ j0 f0 b, fs !! j0 = Some f0 → b ∈ f_own f0 → b < hi) → Forall (λ b, b ∈ f_own f ∨ hi ≤ b) (f_own f') →
  unshared (<[j:=f']> fs).
Proof.
  intros Ha Hj Hlt Hf. rewrite Forall_forall in Hf. pose proof (lookup_lt_Some _ _ _ Hj) as Hl.
  assert (∀ j1 f1 b, j1 ≠ j → fs !! j1 = Some f1 → b ∈ f_own f1 → b ∉ f_own f') as Hd.
  { intros j1 f1 b Hne H1 Hb Hb'. destruct (Hf _ Hb') as [Hin|Hge].
    - apply Hne. by eapply Ha.
    - specialize (Hlt _ _ _ H1 Hb). lia. }
  assert (∀ j1 f1, <[j:=f']> fs !! j1 = Some f1 → j1 = j ∧ f1 = f' ∨ j1 ≠ j ∧ fs !! j1 = Some f1) as Hc.
  { intros j1 f1 H1. destruct (decide (j1 = j)) as [->|N1].
    - rewrite list_lookup_insert_eq in H1 by done. left. by simplify_eq.
    - right. by rewrite list_lookup_insert_ne in H1 by congruence. }
  intros j1 j2 f1 f2 b H1 H2 Hb1 Hb2.
  destruct (Hc _ _ H1) as [[-> ->]|[N1 H1']], (Hc _ _ H2) as [[-> ->]|[N2 H2']]; [done| | |by eapply Ha].
  - by destruct (Hd j2 f2 b N2 H2' Hb2).
  - by destruct (Hd j1 f1 b N1 H1' Hb1).
Qed.

Lemma entry_cost first s din f : entry first s din f → length (f_own f) = cost (length (f_data f)).
Proof. intros [H _ _]. by eapply file_cost. Qed.

Lemma entry_range first s din f b : entry first s din f → b ∈ f_own f → first ≤ b < fi_freeblock s.
Proof.
  intros H Hb. pose proof (ma_range _ _ _ _ _ _ (fl_mapped _ _ _ _ _ _ (en_file _ _ _ _ H))) as Hr.
  rewrite Forall_forall in Hr. by apply Hr.
Qed.

(** The size in an inode. *)
Lemma entry_size first s din f v : file_in first s din (f_blocks f) (f_ib f) (f_data f) →
  take 8 din = ihead (f_type f) → f_size f = v → 0 ≤ v < 2 ^ 32 → entry first s (put32 8 v din) f.
Proof.
  intros [Hm H2 H3] Hh Hv Hr. pose proof (ma_len _ _ _ _ _ _ Hm) as Ld. split.
  - destruct Hm. split; [|done|done]. split; try done.
    + unfold put32. by rewrite length_put_le.
    + intros k Hk. rewrite get_put32_ne by lia. by apply ma_direct.
    + by rewrite get_put32_ne by lia.
  - by rewrite take_put32 by lia.
  - rewrite get_put32_eq by lia. rewrite u32_small by done. done.
Qed.

(** ** The kernel's view *)

Lemma slice_slice {A} o n x m (d : list A) : (x + m ≤ n)%nat → slice x m (slice o n d) = slice (o + x) m d.
Proof.
  intros H. apply list_eq. intros k. rewrite !lookup_slice. repeat case_decide; try done; [f_equal; lia|lia].
Qed.

Lemma get_le_slice n o x m d : (x + m ≤ n)%nat → get_le m (o + x) d = get_le m x (slice o n d).
Proof. intros H. unfold get_le. by rewrite slice_slice. Qed.

Lemma head_fields din t : take 8 din = ihead t → t = 1 ∨ t = 2 → s16 (get16 0 din) = t ∧ s16 (get16 6 din) = 1.
Proof.
  intros H Ht. change (take 8 din) with (slice 0 8 din) in H.
  assert (∀ x, (x + 2 ≤ 8)%nat → get16 x din = get16 x (ihead t)) as E.
  { intros x Hx. rewrite <-H. unfold get16. by rewrite <-get_le_slice. }
  rewrite !E by lia. destruct Ht as [-> | ->]; done.
Qed.

(** The addresses of an inode of the image. *)
Lemma inode_addrs dk inum k : (k < 12)%nat →
  i_addrs (ino (disk_view dk) inum) !!! k = get32 (12 + 4 * k) (inode_bytes dk inum).
Proof.
  intros Hk. unfold get32, inode_bytes. rewrite <-get_le_slice by lia. apply list_lookup_total_correct. cbn -[get32 seq].
  rewrite list_lookup_fmap, lookup_seq_lt by lia. cbn -[get32]. unfold get32. do 2 f_equal. lia.
Qed.

Section EntryView.
Context (first : Z) (s : fsimg) (inum : Z) (f : finfo).
Context (He : entry first s (inode_bytes (fi_disk s) inum) f).
Let V := disk_view (fi_disk s).
Let i := ino V inum.
Set Default Proof Using "He".

(** The block of addresses, and the blocks. *)
Lemma entry_indirect : (11 < length (f_blocks f))%nat → i_addrs i !!! 11%nat = f_ib f.
Proof.
  intros Hk. destruct He as [[Hm _ _] _ _]. unfold i, V. rewrite inode_addrs by lia. change (12 + 4 * 11)%nat with 56%nat.
  rewrite (ma_ind _ _ _ _ _ _ Hm). unfold iblk. by rewrite decide_True.
Qed.

Lemma entry_fblock k : (k < length (f_blocks f))%nat → fblock V i (Z.of_nat k) = f_blocks f !!! k.
Proof.
  intros Hk. pose proof entry_indirect as Hib. destruct He as [[Hm _ _] _ _].
  destruct (mapped_block _ _ _ _ _ _ k Hm Hk) as [Ek _]. unfold fblock. destruct Hm.
  destruct (Z.ltb_spec (Z.of_nat k) NDIRECT).
  - unfold i, V. rewrite Nat2Z.id, inode_addrs, ma_direct, Ek by lia. done.
  - rewrite Hib by lia. destruct (ma_iv ltac:(lia)) as [_ I]. unfold V. rewrite I by lia.
    replace (11 + Z.to_nat (Z.of_nat k - NDIRECT))%nat with k by lia. by rewrite Ek.
Qed.

(** The bytes of the blocks: the contents, then zeros. *)
Lemma entry_fbyte j : (j < 512 * length (f_blocks f))%nat → fbyte V i (Z.of_nat j) = default 0 (f_data f !! j).
Proof.
  intros Hj. pose proof (entry_fblock (j / 512)) as B. destruct He as [[_ [_ Hd] _] _ _]. unfold fbyte.
  pose proof (Nat.div_mod j 512). pose proof (Nat.mod_upper_bound j 512).
  replace (Z.of_nat j / BSIZE) with (Z.of_nat (j / 512)) by (by rewrite Nat2Z.inj_div).
  replace (Z.of_nat j mod BSIZE) with (Z.of_nat (j mod 512)) by (by rewrite Nat2Z.inj_mod).
  rewrite B, Nat2Z.id by lia. apply list_lookup_total_correct. unfold V. rewrite Hd by lia.
  by replace (512 * (j / 512) + j mod 512)%nat with j by lia.
Qed.

Lemma entry_view : f_type f = 1 ∨ f_type f = 2 →
  i_type i = f_type f ∧ i_nlink i = 1 ∧ i_size i = f_size f ∧
  (∀ k, (k < length (f_blocks f))%nat → fblock V i (Z.of_nat k) = f_blocks f !!! k) ∧
  fbytes V i 0 (length (f_data f)) = f_data f.
Proof.
  intros Hty. pose proof entry_fbyte as Hb. pose proof entry_fblock as B. destruct He as [[_ [Hl _] _] Hh Hz].
  destruct (head_fields _ _ Hh Hty) as [T N]. set (o := ioff inum) in *. set (d := V (IBLOCK inum)).
  assert (∀ m x, (x + m ≤ 64)%nat → get_le m (o + x) d = get_le m x (inode_bytes (fi_disk s) inum)) as G
    by (intros m x Hx; by apply get_le_slice).
  split_and!.
  - etrans; [|exact T]. cbn -[get16]. f_equal. etrans; [|apply (G 2%nat 0%nat); lia]. by rewrite Nat.add_0_r.
  - etrans; [|exact N]. cbn -[get16]. f_equal. apply (G 2%nat 6%nat). lia.
  - etrans; [|exact Hz]. apply (G 4%nat 8%nat). lia.
  - done.
  - apply list_eq. intros j. destruct (decide (j < length (f_data f))%nat) as [Hj|Hj].
    + unfold fbytes. rewrite list_lookup_fmap, lookup_seq_lt by done. cbn [fmap option_fmap option_map].
      destruct (lookup_lt_is_Some_2 _ _ Hj) as [c Hc]. rewrite Hc. f_equal.
      replace (0 + Z.of_nat (0 + j)) with (Z.of_nat j) by lia. rewrite Hb by lia. by rewrite Hc.
    + rewrite !lookup_ge_None_2; [done|lia|rewrite length_fbytes; lia].
Qed.

End EntryView.

Section Image.
Context (cf : config) (Hcf : config_ok cf).
Set Default Proof Using "All".

(** The inode [inum] written after the blocks [W] were. *)
Definition put_inode (inum : Z) (d : list Z) (s : fsimg) : fsimg :=
  set_disk (<[Z.to_nat (i2b inum):=splice (ioff inum) d (disk_view (fi_disk s) (i2b inum))]> (fi_disk s)) s.

Lemma winode_runs inum d s : store_ok (used0 cf) s → Z.of_nat (length (fi_disk s)) = cf_size cf →
  0 ≤ inum ≤ cf_ninodes cf → runs_to (winode inum d) s () (put_inode inum d s).
Proof.
  intros Hs Hl Hi. destruct (i2b_val cf inum Hcf Hi) as [_ R]. destruct (used0_val cf Hcf) as (U & B & M & _).
  pose proof (co_total _ Hcf). pose proof (co_nblocks _ Hcf). pose proof (co_nlog _ Hcf).
  unfold winode. eapply runs_bind; [apply rsect_runs; lia|]. apply wsect_runs. lia.
Qed.

Lemma rinode_runs inum s : store_ok (used0 cf) s → Z.of_nat (length (fi_disk s)) = cf_size cf →
  0 ≤ inum ≤ cf_ninodes cf → runs_to (rinode inum) s (inode_bytes (fi_disk s) inum) s.
Proof.
  intros Hs Hl Hi. destruct (i2b_val cf inum Hcf Hi) as [_ R]. destruct (used0_val cf Hcf) as (U & B & M & _).
  pose proof (co_total _ Hcf). pose proof (co_nblocks _ Hcf). pose proof (co_nlog _ Hcf).
  unfold rinode. eapply runs_bind; [apply rsect_runs; lia|]. apply runs_ret.
Qed.

Lemma frame_put bits s inum d : frame cf bits s → 0 ≤ inum ≤ cf_ninodes cf → length d = 64%nat →
  frame cf bits (put_inode inum d s) ∧ extends (used0 cf) [i2b inum] s (put_inode inum d s) ∧
  ∀ inum', 0 ≤ inum' ≤ cf_ninodes cf →
    inode_bytes (fi_disk (put_inode inum d s)) inum' = if decide (inum' = inum) then d else inode_bytes (fi_disk s) inum'.
Proof.
  intros [Hs Hl Hsb Hb Hm] Hi Hd. destruct (i2b_val cf inum Hcf Hi) as [_ R]. destruct (used0_val cf Hcf) as (U & B & M & _).
  pose proof (co_total _ Hcf). pose proof (co_nblocks _ Hcf). pose proof (co_nlog _ Hcf). pose proof (so_first _ _ Hs).
  assert (length (disk_view (fi_disk s) (i2b inum)) = 512%nat) as H512 by (eapply store_sector; [done|lia]).
  assert (extends (used0 cf) [i2b inum] s (put_inode inum d s)) as He.
  { apply extends_write; [done|lia|lia|]. by rewrite length_splice. }
  pose proof He as [E1 E2 E3 E4 E5]. split_and!; [|done|].
  - split; [done|congruence|rewrite E5; [done|lia|]|rewrite E5; [done|lia|]|intros b Hbr; rewrite E5; [by apply Hm|lia|]];
      intros ?%list_elem_of_singleton; lia.
  - intros inum' Hi'. apply (inode_bytes_write cf); try done. lia.
Qed.

(** Between two inode writes: the blocks of the first [W] below [freeblock] changed. *)
Lemma inode_extends W s s' inum : extends (used0 cf) W s s' → store_ok (used0 cf) s → 0 ≤ inum ≤ cf_ninodes cf →
  (∀ b, b ∈ W → used0 cf ≤ b) → inode_bytes (fi_disk s') inum = inode_bytes (fi_disk s) inum.
Proof.
  intros He Hs Hi HW. destruct (i2b_val cf inum Hcf Hi) as [_ R]. destruct (used0_val cf Hcf) as (U & B & M & _).
  pose proof (so_first _ _ Hs). unfold inode_bytes. rewrite (ex_same _ _ _ _ He); [done|lia|].
  intros Hin. specialize (HW _ Hin). lia.
Qed.

Lemma frame_extends bits W s s' : frame cf bits s → extends (used0 cf) W s s' → (∀ b, b ∈ W → used0 cf ≤ b) →
  frame cf bits s'.
Proof.
  intros [Hs Hl Hsb Hb Hm] He HW. destruct (used0_val cf Hcf) as (U & B & M & _). pose proof (so_first _ _ Hs).
  pose proof He as [E1 E2 E3 E4 E5].
  split; [done|congruence|rewrite E5; [done|lia|]|rewrite E5; [done|lia|]|intros b Hbr; rewrite E5; [by apply Hm|lia|]];
    intros Hin; specialize (HW _ Hin); lia.
Qed.

(** File [j] becomes [f']: its blocks change, and then its inode is written. *)
Lemma img_update bits fs s s1 j f f' d :
  img cf bits fs s → fs !! j = Some f → file_grows (used0 cf) s s1 (f_own f) (f_own f') →
  entry (used0 cf) s1 d f' → img cf bits (<[j:=f']> fs) (put_inode (1 + Z.of_nat j) d s1).
Proof.
  intros [Hfr Hino Hmax Hfs Hap Hct] Hj [He Hgc Hgf] Hen. pose proof (lookup_lt_Some _ _ _ Hj) as Hlt.
  pose proof (fr_store _ _ _ Hfr) as Hs. pose proof (so_first _ _ Hs) as Hpos.
  assert (∀ j0 f0 b, fs !! j0 = Some f0 → b ∈ f_own f0 → used0 cf ≤ b < fi_freeblock s) as Hown.
  { intros j0 f0 b H0 Hb. eapply entry_range; [by apply Hfs|done]. }
  assert (length d = 64%nat) as Ld by apply (ma_len _ _ _ _ _ _ (fl_mapped _ _ _ _ _ _ (en_file _ _ _ _ Hen))).
  pose proof (frame_extends _ _ _ _ Hfr He ltac:(intros b Hb; by apply (Hown j f))) as Hfr1.
  destruct (frame_put bits s1 (1 + Z.of_nat j) d Hfr1 ltac:(lia) Ld) as (Hfr2 & He2 & Hib).
  destruct (i2b_val cf (1 + Z.of_nat j) Hcf ltac:(lia)) as [_ Ri]. destruct (used0_val cf Hcf) as (U & B & M & _).
  split.
  - done.
  - rewrite length_insert. cbn. by rewrite (ex_ino _ _ _ _ He).
  - by rewrite length_insert.
  - intros j0 f0 H0. assert (1 + Z.of_nat j0 ≤ cf_ninodes cf).
    { apply lookup_lt_Some in H0. rewrite length_insert in H0. lia. }
    rewrite Hib by lia. destruct (decide (j0 = j)) as [->|Hne].
    + rewrite decide_True by done. rewrite list_lookup_insert_eq in H0 by done. injection H0 as <-.
      eapply entry_extends; [done|done|lia|]. intros b Hb ->%list_elem_of_singleton.
      pose proof (entry_range _ _ _ _ _ Hen Hb). lia.
    + rewrite decide_False by lia. rewrite list_lookup_insert_ne in H0 by done.
      rewrite (inode_extends (f_own f) s s1); [|done|done|lia|intros b Hb; by apply (Hown j f)].
      eapply entry_extends; [eapply entry_extends; [by apply Hfs|done|lia|]|done|lia|].
      * intros b Hb Hb'. apply Hne. by eapply Hap.
      * intros b Hb ->%list_elem_of_singleton. specialize (Hown _ _ _ H0 Hb). lia.
  - eapply (unshared_insert (fi_freeblock s)); try done. intros j0 f0 b H0 Hb. by apply (Hown j0 f0).
  - cbn. unfold blocks_of in *. pose proof (sum_insert (λ f, cost (length (f_data f))) fs j f f' Hj).
    rewrite (entry_cost _ _ _ _ Hen), (entry_cost _ _ _ _ (Hfs _ _ Hj)) in Hgc. lia.
Qed.

(** [f] with [p] appended, in other blocks maybe. *)
Definition appended_to (f : finfo) (p : list Z) (f' : finfo) : Prop :=
  f_type f' = f_type f ∧ f_data f' = f_data f ++ p ∧ f_size f' = Z.of_nat (length (f_data f')).

Lemma iappend_spec bits fs s j f p :
  img cf bits fs s → fs !! j = Some f → f_size f = Z.of_nat (length (f_data f)) →
  Z.of_nat (length (f_data f ++ p)) ≤ 512 * 139 →
  fi_freeblock s - Z.of_nat (cost (length (f_data f))) + Z.of_nat (cost (length (f_data f ++ p))) + 2 ≤ cf_size cf →
  wp (iappend (1 + Z.of_nat j) p) (λ _ s', ∃ f', appended_to f p f' ∧ img cf bits (<[j:=f']> fs) s') s.
Proof.
  intros Himg Hj Hsz Hmax Hroom. pose proof Himg as [Hfr Hino Hmx Hfs Hap Hct]. pose proof (lookup_lt_Some _ _ _ Hj) as Hlt.
  pose proof (Hfs _ _ Hj) as [Hf Hh Hz]. rewrite length_app in Hmax, Hroom. pose proof (fr_len _ _ _ Hfr) as Hl.
  unfold iappend. wp_step. eapply wp_of_runs; [apply rinode_runs; [apply Hfr|done|lia]|].
  set (din := inode_bytes _ _) in *. unfold din_size. rewrite Hz, Hsz, xint_small by lia. wp_step.
  eapply wp_mono; [apply (iappend_loop_spec (used0 cf) (S (length p)) s din (f_blocks f) (f_ib f)); [lia|apply Hfr|done|lia|lia]|].
  intros [d off] s1 (bl' & ib' & Eo & Ht & Hf' & Hg). cbn [fst snd] in *. subst off. pose proof (ex_len _ _ _ _ (gr_extends _ _ _ _ _ Hg)) as Hl1.
  rewrite xint_small by (rewrite length_app; lia). set (n := Z.of_nat (length (f_data f ++ p))) in *.
  pose proof (ex_ok _ _ _ _ (gr_extends _ _ _ _ _ Hg)) as Hs1.
  eapply wp_of_runs; [apply winode_runs; [done|congruence|lia]|].
  exists {| f_type := f_type f; f_size := n; f_data := f_data f ++ p; f_blocks := bl'; f_ib := ib' |}.
  split; [done|]. eapply img_update; [done|done|exact Hg|]. apply entry_size; cbn [f_data f_blocks f_ib f_type f_size]; try done.
  - rewrite <-Hh. apply (f_equal (take 8)) in Ht. by rewrite !take_take in Ht.
  - unfold n. rewrite length_app. lia.
Qed.

(** A new file. *)
Definition empty_file (t : Z) : finfo := {| f_type := t; f_size := 0; f_data := []; f_blocks := []; f_ib := 0 |}.
Definition new_din (t : Z) : list Z := put32 8 (xint 0) (put16 6 (xshort 1) (put16 0 (xshort t) (replicate 64 0))).

Lemma new_din_entry s t : t = 1 ∨ t = 2 → store_ok (used0 cf) s → entry (used0 cf) s (new_din t) (empty_file t).
Proof.
  intros Ht Hs. assert (length (new_din t) = 64%nat ∧ take 8 (new_din t) = ihead t ∧ get32 8 (new_din t) = 0 ∧
    ∀ k, (k < 13)%nat → get32 (12 + 4 * k) (new_din t) = 0) as (H1 & H2 & H3 & H4).
  { destruct Ht as [-> | ->]; (split_and!; [by vm_compute..|]);
      intros k Hk; do 13 (destruct k as [|k]; [by vm_compute|]); lia. }
  split; [|done|done]. split; cbn [f_blocks f_data f_ib empty_file length]; [split|split; cbn [length]; lia|lia];
    try done; cbn [length]; try lia.
  - intros k Hk. by rewrite H4 by lia.
  - apply NoDup_nil_2.
Qed.

Lemma ialloc_spec bits fs s t :
  img cf bits fs s → t = 1 ∨ t = 2 → 1 + Z.of_nat (length fs) ≤ cf_ninodes cf →
  wp (mk_ialloc t) (λ inum s', inum = 1 + Z.of_nat (length fs) ∧ img cf bits (fs ++ [empty_file t]) s') s.
Proof.
  intros Himg Ht Hroom. pose proof Himg as [Hfr Hino Hmx Hfs Hap Hct]. pose proof (co_ninodes _ Hcf) as Hn.
  unfold mk_ialloc. wp_steps. rewrite Hino, u32_small by lia. set (s1 := Build_fsimg _ _ _ _).
  fold (new_din t). assert (frame cf bits s1) as Hfr1.
  { destruct Hfr as [[] ? ? ? ?]. split; try done. }
  eapply wp_of_runs; [apply winode_runs; [apply Hfr1|apply Hfr1|lia]|]. wp_step. split; [done|].
  pose proof (new_din_entry s1 t Ht (fr_store _ _ _ Hfr1)) as Hen.
  assert (length (new_din t) = 64%nat) as Ld by apply (ma_len _ _ _ _ _ _ (fl_mapped _ _ _ _ _ _ (en_file _ _ _ _ Hen))).
  destruct (frame_put bits s1 (1 + Z.of_nat (length fs)) (new_din t) Hfr1 ltac:(lia) Ld) as (Hfr2 & He2 & Hib).
  destruct (i2b_val cf (1 + Z.of_nat (length fs)) Hcf ltac:(lia)) as [_ Ri]. destruct (used0_val cf Hcf) as (U & B & M & _).
  pose proof (so_first _ _ (fr_store _ _ _ Hfr1)) as Hpos. split.
  - done.
  - rewrite length_app. cbn. lia.
  - rewrite length_app. cbn. lia.
  - intros j f Hj. pose proof (lookup_lt_Some _ _ _ Hj) as Hlt. rewrite length_app in Hlt. cbn [length] in Hlt.
    rewrite Hib by lia. rewrite lookup_snoc in Hj. destruct (decide (j = length fs)) as [->|Hne].
    + injection Hj as <-. rewrite decide_True by done. eapply entry_extends; [done|done|lia|].
      intros b Hb. by apply not_elem_of_nil in Hb.
    + rewrite decide_False by lia. eapply entry_extends; [|exact He2|lia|].
      * destruct (Hfs _ _ Hj) as [[? ? ?] ? ?]. split; done.
      * intros b Hb ->%list_elem_of_singleton. pose proof (entry_range _ _ _ _ _ (Hfs _ _ Hj) Hb). lia.
  - intros j1 j2 f1 f2 b H1 H2 Hb1 Hb2. rewrite lookup_snoc in H1, H2.
    destruct (decide (j1 = length fs)), (decide (j2 = length fs)); simplify_eq; try (by apply not_elem_of_nil in Hb1);
      [by apply not_elem_of_nil in Hb2|by eapply Hap].
  - cbn. rewrite Hct. unfold blocks_of. rewrite sum_list_with_app.
    cbn [sum_list_with empty_file f_data length]. change (cost 0) with O. lia.
Qed.

(** ** The files of the image

    [has bits l s]: the image holds the files [l], each its type and its
    contents, in the order of their inodes. *)
Definition rep (f : finfo) (x : Z * list Z) : Prop :=
  f_type f = x.1 ∧ f_data f = x.2 ∧ f_size f = Z.of_nat (length x.2).
Definition has (bits : list Z) (l : list (Z * list Z)) (s : fsimg) : Prop :=
  ∃ fs, img cf bits fs s ∧ Forall2 rep fs l.

Definition total (l : list (Z * list Z)) : nat := sum_list_with (λ x, cost (length x.2)) l.

(** The files fit: each is small enough for one indirect block, and there are
    enough inodes and blocks. *)
Record fit (l : list (Z * list Z)) : Prop := {
  ft_size : Forall (λ x, Z.of_nat (length x.2) ≤ 512 * 139) l;
  ft_inodes : Z.of_nat (length l) ≤ cf_ninodes cf;
  ft_blocks : used0 cf + Z.of_nat (total l) + 2 ≤ cf_size cf;
}.

Lemma rep_blocks fs l : Forall2 rep fs l → blocks_of fs = total l.
Proof.
  unfold blocks_of, total. induction 1 as [|f x fs l (_ & E & _) _ IH]; [done|]. cbn [sum_list_with]. by rewrite E, IH.
Qed.

(** Shorter files fit as well. *)
Definition below (l l' : list (Z * list Z)) : Prop :=
  ∀ j x, l !! j = Some x → ∃ x', l' !! j = Some x' ∧ (length x.2 ≤ length x'.2)%nat.

Lemma below_total l l' : below l l' → (length l ≤ length l' ∧ total l ≤ total l')%nat.
Proof.
  revert l'. unfold total. induction l as [|x l IH]; intros l' Hb; [cbn; lia|].
  destruct (Hb O x eq_refl) as (x' & E & Hl). destruct l' as [|y l']; [done|]. injection E as ->.
  destruct (IH l') as [L T]; [intros j z Hz; exact (Hb (S j) z Hz)|].
  pose proof (cost_mono _ _ Hl). cbn [sum_list_with length]. lia.
Qed.

Lemma fit_below l l' : below l l' → fit l' → fit l.
Proof.
  intros Hb [H1 H2 H3]. destruct (below_total _ _ Hb) as [L T]. split; [|lia|lia].
  apply Forall_lookup_2. intros j x Hx. destruct (Hb j x Hx) as (x' & Hx' & Hl).
  eapply Forall_lookup_1 in H1; [|done]. cbn in H1. lia.
Qed.

Lemma has_iappend bits l s j t c p :
  has bits l s → l !! j = Some (t, c) → fit (<[j:=(t, c ++ p)]> l) →
  wp (iappend (1 + Z.of_nat j) p) (λ _ s', has bits (<[j:=(t, c ++ p)]> l) s') s.
Proof.
  intros (fs & Himg & Hr) Hj [H1 H2 H3]. destruct (Forall2_lookup_r _ _ _ _ _ Hr Hj) as (f & Hf & Ht & Hd & Hz). cbn in Ht, Hd, Hz.
  pose proof (lookup_lt_Some _ _ _ Hj) as Hlt.
  eapply wp_mono; [apply (iappend_spec bits fs s j f p Himg Hf)|].
  - congruence.
  - rewrite Hd. eapply (Forall_lookup_1 _ _ j) in H1; [|by apply list_lookup_insert_eq]. done.
  - pose proof (im_count _ _ _ _ Himg) as Hc. rewrite (rep_blocks fs l Hr) in Hc. rewrite Hd, Hc.
    assert (total (<[j:=(t, c ++ p)]> l) + cost (length c) = total l + cost (length (c ++ p)))%nat as E; [|lia].
    unfold total. by rewrite (sum_insert (λ x, cost (length x.2)) l j (t, c)).
  - intros _ s' (f' & (T & D & Z') & Himg'). exists (<[j:=f']> fs). split; [done|].
    apply Forall2_insert; [done|]. split_and!; cbn; congruence.
Qed.

Lemma has_ialloc bits l s t :
  has bits l s → t = 1 ∨ t = 2 → 1 + Z.of_nat (length l) ≤ cf_ninodes cf →
  wp (mk_ialloc t) (λ inum s', inum = 1 + Z.of_nat (length l) ∧ has bits (l ++ [(t, [])]) s') s.
Proof.
  intros (fs & Himg & Hr) Ht Hn. pose proof (Forall2_length _ _ _ Hr) as Hl.
  eapply wp_mono; [apply (ialloc_spec bits fs s t Himg Ht); lia|]. intros inum s' [-> Himg'].
  split; [lia|]. exists (fs ++ [empty_file t]). split; [done|]. apply Forall2_app; [done|]. by constructor.
Qed.

(** What [read] may return: a piece that fits the buffer and is not empty. *)
Definition piece (c : list Z) : Prop := (0 < length c ≤ 512)%nat.

Lemma has_chunks bits chunks : ∀ l s j t c,
  has bits l s → l !! j = Some (t, c) → Forall piece chunks → fit (<[j:=(t, c ++ concat chunks)]> l) →
  wp (append_chunks (1 + Z.of_nat j) chunks) (λ _ s', has bits (<[j:=(t, c ++ concat chunks)]> l) s') s.
Proof.
  induction chunks as [|p chunks IH]; intros l s j t c Hh Hj Hp Hf; cbn [append_chunks concat].
  - wp_step. rewrite app_nil_r. by rewrite list_insert_id.
  - apply Forall_cons in Hp as [Hp Hps]. destruct p as [|x p]; [unfold piece in Hp; cbn in Hp; lia|].
    set (q := x :: p) in *. pose proof (lookup_lt_Some _ _ _ Hj) as Hlt. wp_step.
    eapply wp_mono; [apply (has_iappend bits l s j t c q Hh Hj)|].
    + eapply fit_below; [|exact Hf]. intros j' y Hy. destruct (decide (j' = j)) as [->|Hne].
      * rewrite list_lookup_insert_eq in Hy by done. injection Hy as <-. rewrite list_lookup_insert_eq by done.
        eexists. split; [done|]. cbn [concat snd]. rewrite !length_app. lia.
      * rewrite list_lookup_insert_ne in Hy |- * by done. by exists y.
    + intros [] s1 Hh1. eapply wp_mono; [apply (IH _ s1 j t (c ++ q) Hh1)|].
      * by apply list_lookup_insert_eq.
      * done.
      * rewrite list_insert_insert_eq, <-app_assoc. exact Hf.
      * intros [] s2. by rewrite list_insert_insert_eq, <-app_assoc.
Qed.

(** The arguments for files that can be read, the entries they get in the root
    directory, and the files in the image. *)
Definition arg_of (x : list Z * list (list Z)) : list Z * option (list (list Z)) := (x.1, Some x.2).
Definition data_of (x : list Z * list (list Z)) : Z * list Z := (2, concat x.2).
Fixpoint entries (inum : Z) (files : list (list Z * list (list Z))) : list (list Z) :=
  match files with
  | [] => []
  | x :: r => mk_dirent inum (skip_underscore x.1) :: entries (inum + 1) r
  end.

Definition file_arg (x : list Z * list (list Z)) : Prop := (47 ∉ x.1) ∧ Forall piece x.2.

Lemma has_file bits root l s x :
  has bits ((1, root) :: l) s → file_arg x →
  let de := mk_dirent (2 + Z.of_nat (length l)) (skip_underscore x.1) in
  fit ((1, root ++ de) :: l ++ [data_of x]) →
  wp (add_file 1 (arg_of x)) (λ _ s', has bits ((1, root ++ de) :: l ++ [data_of x]) s') s.
Proof.
  intros Hh [Hn Hp] de Hf. unfold add_file, arg_of, Mkfs.assert. cbn [fst snd]. rewrite bool_decide_eq_true_2 by done.
  wp_step. wp_step. wp_step. pose proof (ft_inodes _ Hf) as Hi. cbn [length] in Hi. rewrite length_app in Hi. cbn [length] in Hi.
  eapply wp_mono; [apply (has_ialloc bits _ s 2 Hh); [by right|cbn [length]; lia]|].
  intros inum s1 [-> Hh1]. wp_step.
  replace (1 + Z.of_nat (length ((1, root) :: l))) with (2 + Z.of_nat (length l)) by (cbn [length]; lia).
  change 1 with (1 + Z.of_nat 0) at 1. fold de.
  eapply wp_mono; [apply (has_iappend bits ((1, root) :: l ++ [(2, [])]) s1 0 1 root de Hh1 eq_refl)|];
    change (<[0%nat:=(1, root ++ de)]> ((1, root) :: l ++ [(2, [])])) with ((1, root ++ de) :: l ++ [(2, [])]).
  - eapply fit_below; [|exact Hf]. intros [|j] y Hy; [by exists y|].
    change ((?a :: ?b) !! S j) with (b !! j) in Hy |- *.
    destruct (decide (j < length l)%nat) as [Hl|Hl].
    + rewrite lookup_app_l in Hy |- * by done. by exists y.
    + rewrite lookup_app_r in Hy |- * by lia. destruct (j - length l)%nat; [|done]. injection Hy as <-.
      eexists. split; [done|]. cbn. lia.
  - intros [] s2 Hh2.
    replace (2 + Z.of_nat (length l)) with (1 + Z.of_nat (S (length l))) by lia.
    assert (<[S (length l):=(2, [] ++ concat x.2)]> ((1, root ++ de) :: l ++ [(2, [])]) =
      (1, root ++ de) :: l ++ [data_of x]) as E.
    { change (<[S (length l):=?y]> (?a :: ?b)) with (a :: <[length l:=y]> b). f_equal.
      rewrite insert_app_r_alt, Nat.sub_diag by lia. done. }
    eapply wp_mono; [apply (has_chunks bits x.2 _ s2 (S (length l)) 2 [] Hh2)|].
    + cbn. by apply list_lookup_middle.
    + done.
    + rewrite E. exact Hf.
    + intros [] s3. by rewrite E.
Qed.

Lemma has_files bits files : ∀ root l s,
  has bits ((1, root) :: l) s → Forall file_arg files →
  fit ((1, root ++ concat (entries (2 + Z.of_nat (length l)) files)) :: l ++ (data_of <$> files)) →
  wp (add_files 1 (arg_of <$> files)) (λ _ s',
    has bits ((1, root ++ concat (entries (2 + Z.of_nat (length l)) files)) :: l ++ (data_of <$> files)) s') s.
Proof.
  induction files as [|x files IH]; intros root l s Hh Ha Hf; cbn [fmap list_fmap add_files entries concat].
  - rewrite !app_nil_r. by wp_step.
  - apply Forall_cons in Ha as [Hx Ha]. set (de := mk_dirent _ _). wp_step.
    assert (2 + Z.of_nat (length l) + 1 = 2 + Z.of_nat (length (l ++ [data_of x]))) as E by (rewrite length_app; cbn; lia).
    eapply wp_mono; [apply (has_file bits root l s x Hh Hx)|].
    + fold de. eapply fit_below; [|exact Hf]. intros [|j] y Hy.
      * injection Hy as <-. eexists. split; [done|]. cbn [entries concat snd]. fold de. rewrite !length_app. lia.
      * cbn [fmap list_fmap] in *. cbn in Hy |- *. exists y. split; [|done].
        change (data_of x :: (data_of <$> files)) with ([data_of x] ++ (data_of <$> files)).
        rewrite app_assoc. by apply lookup_app_l_Some.
    + fold de. intros [] s1 Hh1. rewrite E, app_assoc. eapply wp_mono; [apply (IH (root ++ de) (l ++ [data_of x]) s1 Hh1 Ha)|].
      * cbn [entries concat fmap list_fmap] in Hf. fold de in Hf. rewrite E, app_assoc in Hf. by rewrite <-(app_assoc l).
      * intros [] s2. by rewrite <-(app_assoc l).
Qed.

(** ** The first and the last steps of main *)

Lemma zero_image_runs n : ∀ s,
  runs_to (zero_image (length (fi_disk s)) n) s () (set_disk (fi_disk s ++ replicate n zeroes) s).
Proof.
  induction n as [|n IH]; intros s; cbn [zero_image].
  - rewrite app_nil_r. by destruct s.
  - eapply runs_bind; [done|]. cbn beta. rewrite Nat2Z.id.
    replace (S (length (fi_disk s)) - length (fi_disk s))%nat with 1%nat by lia.
    replace (<[length (fi_disk s):=zeroes]> (fi_disk s ++ replicate 1 zeroes)) with (fi_disk s ++ [zeroes])
      by (rewrite insert_app_r_alt, Nat.sub_diag by lia; done).
    set (s1 := Build_fsimg _ _ _ _). pose proof (IH s1) as H1. cbn [fi_disk s1] in H1. rewrite length_app, Nat.add_1_r in H1.
    rewrite <-app_assoc in H1. exact H1.
Qed.

(** The image before the first inode. *)
Definition blank : fsimg :=
  {| fi_disk := <[1%nat:=splice 0 (sb_bytes cf) zeroes]> (replicate (Z.to_nat (cf_size cf)) zeroes);
     fi_freeblock := used0 cf; fi_usedblocks := used0 cf; fi_freeinode := 1 |}.

Lemma blank_img : has zeroes [] blank.
Proof.
  exists []. split; [|constructor]. destruct (used0_val cf Hcf) as (U & B & M & U31).
  pose proof Hcf as [C1 C2 C3 C4 C5]. assert (length zeroes = 512%nat) as Lz by (unfold zeroes; len).
  assert (Z.of_nat (length (fi_disk blank)) = cf_size cf) as Hl by (cbn; len).
  assert (∀ b, 1 < b < cf_size cf → disk_view (fi_disk blank) b = zeroes) as Hz.
  { intros b Hb. cbn. unfold disk_view. rewrite list_lookup_total_insert_ne by lia. rewrite list_lookup_total_alt.
    by rewrite lookup_replicate_2 by lia. }
  split; cbn [length fi_freeinode fi_freeblock blank]; try done; try lia.
  split; [split; cbn [fi_freeblock fi_usedblocks blank]; try lia|done| |apply Hz; lia|intros b Hb; apply Hz; lia].
  - cbn. apply Forall_insert; [by apply Forall_replicate|]. by rewrite length_splice.
  - intros b Hb. apply Hz. lia.
  - cbn. unfold disk_view. apply list_lookup_total_insert_eq. len.
  - change (blocks_of []) with O. lia.
Qed.

(** [fix_root]: the size of the root directory becomes a multiple of the block size. *)
Lemma fix_root_spec bits root l s :
  has bits ((1, root) :: l) s → fit ((1, root) :: l) →
  wp (fix_root 1) (λ _ s', fi_usedblocks s' = fi_usedblocks s ∧ ∃ f fs, img cf bits (f :: fs) s' ∧ Forall2 rep fs l ∧
    f_type f = 1 ∧ f_data f = root ∧ f_size f = (Z.of_nat (length root) / 512 + 1) * 512) s.
Proof.
  intros (fs & Himg & Hr) [F1 F2 F3]. apply Forall_cons in F1 as [F1 _]. cbn [fst snd] in F1. apply Forall2_cons_inv_r in Hr as (f & fs' & (T & D & Z') & Hr & ->).
  cbn [fst snd] in *. pose proof (im_files _ _ _ _ Himg O f eq_refl) as [Hf Hh Hz]. pose proof (im_frame _ _ _ _ Himg) as Hfr.
  pose proof (co_ninodes _ Hcf). cbn [length] in F2. unfold fix_root. wp_step. change (1 + Z.of_nat 0) with 1 in *.
  eapply wp_of_runs; [apply rinode_runs; [apply Hfr|apply Hfr|lia]|]. set (din := inode_bytes _ _) in *.
  unfold din_size. rewrite Hz, Z', (xint_small (Z.of_nat (length root))) by lia. set (off := (Z.of_nat (length root) / 512 + 1) * 512).
  assert (0 ≤ off < 2 ^ 32) as Ho.
  { unfold off. pose proof (Z.div_pos (Z.of_nat (length root)) 512). pose proof (Z.div_le_upper_bound (Z.of_nat (length root)) 512 139). lia. }
  rewrite (u32_small off), (xint_small off) by done.
  eapply wp_of_runs; [apply winode_runs; [apply Hfr|apply Hfr|lia]|]. split; [done|].
  exists {| f_type := f_type f; f_size := off; f_data := f_data f; f_blocks := f_blocks f; f_ib := f_ib f |}, fs'.
  split_and!; try done. apply (img_update bits (f :: fs') s s 0 f); [done|done|by apply file_grows_refl, Hfr|].
  by apply entry_size.
Qed.

Lemma set_bits_spec n : (n ≤ 4096)%nat → block_ok (set_bits n zeroes) ∧
  ∀ i, 0 ≤ i < 4096 → bit (set_bits n zeroes) i = bool_decide (i < Z.of_nat n).
Proof.
  induction n as [|n IH]; intros Hn; cbn [set_bits].
  - split; [split; [unfold zeroes; len|apply Forall_replicate; done]|]. intros i Hi. unfold bit, zeroes.
    pose proof (Z.div_pos i 8). assert (i / 8 < 512) by (apply Z.div_lt_upper_bound; lia).
    rewrite list_lookup_total_alt, lookup_replicate_2 by lia. cbn. rewrite Z.bits_0, bool_decide_false by lia. done.
  - destruct (IH ltac:(lia)) as [Hok Hb]. change (alter _ _ _) with (bit_set (Z.of_nat n) (set_bits n zeroes)).
    split; [by apply bit_set_ok|]. intros i Hi. rewrite bit_set_spec by (done || lia). rewrite Hb by done.
    repeat case_bool_decide; lia || done.
Qed.

Lemma mk_balloc_spec bits fs s : img cf bits fs s → fi_usedblocks s < 4096 →
  wp (mk_balloc cf (fi_usedblocks s)) (λ _ s', fi_usedblocks s' = fi_usedblocks s ∧
    img cf (set_bits (Z.to_nat (fi_usedblocks s)) zeroes) fs s') s.
Proof.
  intros [Hfr Hino Hmx Hfs Hap Hct] Hu. destruct (used0_val cf Hcf) as (U & B & M & _). pose proof Hfr as [Hs Hl Hsb _ Hm].
  pose proof Hcf as [C1 C2 C3 C4 C5]. pose proof (so_first _ _ Hs). pose proof (so_used _ _ Hs).
  unfold mk_balloc, Mkfs.assert. rewrite (proj2 (Z.ltb_lt _ _)) by lia. wp_step. wp_step. fold (map0 cf).
  eapply wp_of_runs; [apply wsect_runs; lia|]. split; [done|]. set (bm := set_bits _ _). set (s' := set_disk _ s).
  assert (extends (used0 cf) [map0 cf] s s') as He.
  { apply extends_write; [done|lia|lia|]. unfold bm. apply set_bits_spec. lia. }
  pose proof He as [E1 E2 E3 E4 E5]. split; try done.
  - split; [done|congruence|rewrite E5; [done|lia|]| |intros b Hb; rewrite E5; [by apply Hm|lia|]].
    + intros ?%list_elem_of_singleton. lia.
    + cbn. rewrite view_insert by lia. by rewrite decide_True.
    + intros ?%list_elem_of_singleton. lia.
  - intros j f Hj. pose proof (lookup_lt_Some _ _ _ Hj). destruct (i2b_val cf (1 + Z.of_nat j) Hcf ltac:(lia)) as [_ R].
    unfold inode_bytes. rewrite E5; [|lia|intros ?%list_elem_of_singleton; lia].
    eapply entry_extends; [by apply Hfs|done|lia|]. intros b Hb ->%list_elem_of_singleton.
    pose proof (entry_range _ _ _ _ _ (Hfs _ _ Hj) Hb). lia.
Qed.

(** The files of the whole run. *)
Definition root_dir (files : list (list Z * list (list Z))) : list (list Z) :=
  mk_dirent 1 [46] :: mk_dirent 1 [46; 46] :: entries 2 files.
Definition image_files (files : list (list Z * list (list Z))) : list (Z * list Z) :=
  (1, concat (root_dir files)) :: (data_of <$> files).

Lemma fit_root files r : fit (image_files files) → (length r ≤ length (concat (root_dir files)))%nat → fit [(1, r)].
Proof.
  intros Hf Hr. eapply fit_below; [|exact Hf]. intros [|j] y Hy; [|done]. injection Hy as <-. by eexists.
Qed.

Lemma mkfs_runs files :
  Forall file_arg files → fit (image_files files) → used0 cf + Z.of_nat (total (image_files files)) < 4096 →
  wp (mkfs cf (arg_of <$> files)) (λ _ s, ∃ f fs,
    fi_usedblocks s = used0 cf + Z.of_nat (total (image_files files)) ∧
    img cf (set_bits (Z.to_nat (fi_usedblocks s)) zeroes) (f :: fs) s ∧ Forall2 rep fs (data_of <$> files) ∧
    f_type f = 1 ∧ f_data f = concat (root_dir files) ∧
    f_size f = (Z.of_nat (length (concat (root_dir files))) / 512 + 1) * 512) start.
Proof.
  intros Ha Hf Hu. destruct (used0_val cf Hcf) as (U & B & M & U31). pose proof Hcf as [C1 C2 C3 C4 C5].
  unfold mkfs, Mkfs.assert. wp_step. wp_step. rewrite C5, Z.eqb_refl, u32_small by lia. wp_step. wp_step. wp_step.
  eapply wp_of_runs; [apply (zero_image_runs _ (Build_fsimg [] _ _ _))|]. wp_step.
  eapply wp_of_runs; [apply wsect_runs; cbn; len|]. change (set_disk _ _) with blank.
  wp_step. eapply wp_mono; [apply (has_ialloc zeroes [] blank 1 blank_img); [by left|]|].
  { pose proof (ft_inodes _ Hf) as Hi. unfold image_files in Hi. cbn [length] in *. lia. }
  intros rootino s1 [-> Hh1]. cbn [length app] in *. change (1 + Z.of_nat 0) with 1 in *. rewrite Z.eqb_refl. wp_step. wp_step. wp_step.
  set (de1 := mk_dirent 1 [46]). set (de2 := mk_dirent 1 [46; 46]).
  eapply wp_mono; [apply (has_iappend zeroes [(1, [])] s1 0 1 [] de1 Hh1 eq_refl)|].
  { apply (fit_root files); [done|]. unfold root_dir. cbn [concat]. fold de1. rewrite !length_app. cbn [length]. lia. }
  intros [] s2 Hh2. wp_step. eapply wp_mono; [apply (has_iappend zeroes [(1, de1)] s2 0 1 de1 de2 Hh2 eq_refl)|].
  { apply (fit_root files); [done|]. unfold root_dir. cbn [concat]. fold de1 de2. rewrite !length_app. lia. }
  intros [] s3 Hh3. wp_step. eapply wp_mono; [apply (has_files zeroes files (de1 ++ de2) [] s3 Hh3 Ha)|].
  { rewrite <-app_assoc. exact Hf. }
  intros [] s4 Hh4. rewrite <-app_assoc in Hh4. change (has zeroes (image_files files) s4) in Hh4.
  assert (fi_usedblocks s4 = used0 cf + Z.of_nat (total (image_files files))) as Eu.
  { destruct Hh4 as (fs & [Hfr _ _ _ _ Hct] & Hr). rewrite (so_used _ _ (fr_store _ _ _ Hfr)), Hct. by rewrite (rep_blocks fs _ Hr). }
  wp_step. eapply wp_mono; [apply (fix_root_spec zeroes _ _ s4 Hh4 Hf)|].
  intros [] s5 (E5 & f & fs & Himg & Hr & Ht & Hd & Hz). wp_step. wp_step. rewrite s32_small by lia.
  eapply wp_mono; [apply (mk_balloc_spec zeroes (f :: fs) s5 Himg); lia|].
  intros [] s6 [E6 Himg6]. exists f, fs. rewrite E6, E5. rewrite E5 in Himg6. split_and!; done.
Qed.

(** ** The theorem *)

Lemma superblock V : V 1 = splice 0 (sb_bytes cf) zeroes →
  sb_of (V 1) = mk_sb (cf_size cf) (cf_nblocks cf) (cf_ninodes cf) (cf_nlog cf).
Proof.
  intros ->. pose proof Hcf as [C1 C2 C3 C4 C5]. destruct (used0_val cf Hcf) as (U & B & M & U31).
  rewrite splice_front by (unfold sb_bytes, zeroes; len). unfold sb_bytes. rewrite !xint_small by lia.
  assert (∀ a b c d r, sb_of ((le_bytes 4 a ++ le_bytes 4 b ++ le_bytes 4 c ++ le_bytes 4 d) ++ r) =
    mk_sb (le_val (le_bytes 4 a)) (le_val (le_bytes 4 b)) (le_val (le_bytes 4 c)) (le_val (le_bytes 4 d))) as -> by done.
  rewrite !le_val_le_bytes. by rewrite !Z.mod_small by (cbn; lia).
Qed.

Lemma used_bits V b bits : V 1 = splice 0 (sb_bytes cf) zeroes → V (map0 cf) = bits → 0 ≤ b < 4096 →
  used V b = bit bits b.
Proof.
  intros H1 Hm Hb. pose proof (co_ninodes _ Hcf). unfold used, map_block, BBLOCK. rewrite superblock by done. cbn [sb_ninodes].
  pose proof (Z.div_pos (cf_ninodes cf) 8). pose proof (Z.div_le_upper_bound (cf_ninodes cf) 8 (2 ^ 16)).
  rewrite (Z.div_small b), (Z.mod_small b) by lia. rewrite u32_small by lia.
  replace (0 + cf_ninodes cf / IPB + 3) with (map0 cf) by (unfold map0; lia). by rewrite Hm.
Qed.

Lemma dirents_of V i ds : ∀ off, Forall (λ d, length d = 16%nat) ds →
  fbytes V i off (length (concat ds)) = concat ds →
  (λ k, fbytes V i (off + 16 * Z.of_nat k) 16) <$> seq 0 (length ds) = ds.
Proof.
  induction ds as [|d ds IH]; intros off Hl E; [done|]. apply Forall_cons in Hl as [Hd Hl]. cbn [concat length] in *.
  rewrite length_app, Hd, fbytes_app in E. apply app_inj_1 in E as [E1 E2]; [|by rewrite length_fbytes].
  cbn [seq]. rewrite <-fmap_S_seq, fmap_cons, <-list_fmap_compose. f_equal; [by rewrite Z.add_0_r|].
  rewrite <-(IH (off + Z.of_nat 16) Hl E2) at 2. apply list_fmap_ext. intros k x _. cbn [compose]. f_equal. lia.
Qed.

Lemma length_mk_dirent inum name : length (mk_dirent inum name) = 16%nat.
Proof. unfold mk_dirent. rewrite length_app, length_le_bytes, length_take, length_app, length_replicate. lia. Qed.

Lemma root_dir_sizes files : Forall (λ d, length d = 16%nat) (root_dir files) ∧ length (root_dir files) = (2 + length files)%nat.
Proof.
  assert (∀ n, Forall (λ d, length d = 16%nat) (entries n files) ∧ length (entries n files) = length files) as H.
  { induction files as [|x files IH]; intros n; [by split|]. destruct (IH (n + 1)) as [F L]. cbn [entries length].
    split; [constructor; [apply length_mk_dirent|done]|by rewrite L]. }
  destruct (H 2) as [F L]. unfold root_dir. cbn [length]. rewrite L. split; [|done].
  by repeat (constructor; [apply length_mk_dirent|]).
Qed.

(** Data block [x] of the file with inode [1 + a]. *)
Lemma img_block bits fs s a f x :
  img cf bits fs s → fs !! a = Some f → f_type f = 1 ∨ f_type f = 2 → (512 * x < length (f_data f))%nat →
  let V := disk_view (fi_disk s) in
  f_blocks f !! x = Some (fblock V (ino V (1 + Z.of_nat a)) (Z.of_nat x)).
Proof.
  intros Himg Ha Ht Hx V. pose proof (im_files _ _ _ _ Himg _ _ Ha) as He.
  destruct (entry_view _ _ _ _ He Ht) as (_ & _ & _ & B & _). destruct (fl_holds _ _ _ _ _ _ (en_file _ _ _ _ He)) as [Hl _].
  assert (x < length (f_blocks f))%nat as Hlt by lia. fold V in B. rewrite B by done. by apply list_lookup_lookup_total_lt.
Qed.

Lemma img_blocks bits fs s a b f g x y :
  img cf bits fs s → fs !! a = Some f → fs !! b = Some g → f_type f = 1 ∨ f_type f = 2 → f_type g = 1 ∨ f_type g = 2 →
  (512 * x < length (f_data f))%nat → (512 * y < length (f_data g))%nat →
  let V := disk_view (fi_disk s) in let p := fblock V (ino V (1 + Z.of_nat a)) (Z.of_nat x) in
  used0 cf ≤ p < fi_freeblock s ∧ (p = fblock V (ino V (1 + Z.of_nat b)) (Z.of_nat y) → a = b ∧ x = y).
Proof.
  intros Himg Ha Hb Tf Tg Hx Hy V p. pose proof (img_block _ _ _ _ _ _ Himg Ha Tf Hx) as Ex.
  pose proof (img_block _ _ _ _ _ _ Himg Hb Tg Hy) as Ey. cbv zeta in Ex, Ey. fold V in Ex, Ey. fold p in Ex.
  assert (∀ h z k, f_blocks h !! z = Some k → k ∈ f_own h) as Hin.
  { intros h z k Hk. apply elem_of_app. right. by eapply list_elem_of_lookup_2. }
  pose proof (im_files _ _ _ _ Himg _ _ Ha) as He. split; [eapply entry_range; [done|by eapply Hin]|].
  intros E. rewrite <-E in Ey. assert (a = b) as <- by (eapply (im_apart _ _ _ _ Himg); [done|done|by eapply Hin|by eapply Hin]).
  split; [done|]. assert (g = f) as -> by congruence.
  pose proof (ma_nodup _ _ _ _ _ _ (fl_mapped _ _ _ _ _ _ (en_file _ _ _ _ He))) as Hn.
  unfold own in Hn. apply NoDup_app in Hn as (_ & _ & Hn). by eapply NoDup_lookup.
Qed.


End Image.

(** An image of the shipped geometry with two files, [README] in two pieces
    and [_cat], whose name loses its underscore. *)
Module MkfsExample.

Definition files : list (list Z * list (list Z)) :=
  [([82; 69; 65; 68; 77; 69], [replicate 512 65; [10]]); ([95; 99; 97; 116], [[127; 69; 76; 70]])].

Lemma shipped_ok : config_ok shipped.
Proof. by split; vm_compute. Qed.

Lemma args_ok : Forall file_arg files.
Proof.
  unfold files, file_arg, piece. apply Forall_cons_2; [|apply Forall_cons_2; [|apply Forall_nil_2]]; cbn [fst snd];
    (split; [apply (bool_decide_unpack _); by vm_compute|]); repeat apply Forall_cons_2; try apply Forall_nil_2;
    rewrite ?length_replicate; cbn [length]; lia.
Qed.


End MkfsExample.
