(* ===== verification/FsBoot.v ===== *)
(** * FsBoot: the kernel mounts the image that mkfs makes (mkfs.c, bio.c, log.c, fs.c)

    The image is a disk of byte sectors whose log is empty and whose root
    directory is a tree in the sense of [namex].  So the first process, after
    [binit] and [initlog], finds each file by its name and reads its contents:
    the composition of the specifications of mkfs, the buffer cache, the log,
    the inode cache, the directories and [readi]. *)

From S2P Require Import Prelude Bytes CString Kernel Sched Ide Bio Log Crash Block Inode Icache Dir Path Mkfs MkfsImage.

#[local] Arguments replicate : simpl never.

(** ** Every sector of the image is 512 bytes *)

(** From a disk of byte sectors, [m] leaves one, with a result in [Q]. *)
Definition typed {A} (Q : A → Prop) (m : M fsimg A) : Prop :=
  ∀ s a s', Forall block_ok (fi_disk s) → m s = Ok a s' → Forall block_ok (fi_disk s') ∧ Q a.

Lemma typed_ret {A} (Q : A → Prop) a : Q a → typed Q (mret a).
Proof. intros HQ s b s' Hs [= <- <-]. done. Qed.

Lemma typed_bind {A B} (Q : A → Prop) (R : B → Prop) m (k : A → M fsimg B) :
  typed Q m → (∀ a, Q a → typed R (k a)) → typed R (m ≫= k).
Proof.
  intros Hm Hk s b s' Hs. unfold mbind, M_bind. destruct (m s) as [a s1| | |] eqn:E; try done.
  destruct (Hm _ _ _ Hs E) as [Hs1 Ha]. intros E'. by eapply Hk.
Qed.

Lemma typed_mono {A} (Q R : A → Prop) m : (∀ a, Q a → R a) → typed Q m → typed R m.
Proof. intros HR Hm s a s' Hs E. destruct (Hm _ _ _ Hs E). auto. Qed.

Lemma typed_panic {A} (Q : A → Prop) e : typed Q (panic e).
Proof. by intros s a s' _. Qed.

Lemma typed_fault {A} (Q : A → Prop) : typed Q fault.
Proof. by intros s a s' _. Qed.

Lemma typed_gets {A} (f : fsimg → A) : typed (λ _, True) (gets f).
Proof. by intros s a s' Hs [= <- <-]. Qed.

(** A change of the counters only. *)
Lemma typed_modify f : (∀ s, fi_disk (f s) = fi_disk s) → typed (λ _ : (), True) (modify f).
Proof. intros Hf s [] s' Hs [= <-]. by rewrite Hf. Qed.

Lemma typed_assert b : typed (λ _ : (), True) (Mkfs.assert b).
Proof. destruct b; [by apply typed_ret|apply typed_panic]. Qed.

Lemma zeroes_ok : block_ok zeroes.
Proof. split; [unfold zeroes; len|]. by apply Forall_replicate. Qed.

Lemma typed_wsect sec buf : block_ok buf → typed (λ _ : (), True) (wsect sec buf).
Proof.
  intros Hb s [] s' Hs [= <-]. simpl. split; [|done]. apply Forall_insert; [|done].
  apply Forall_app. split; [done|]. apply Forall_replicate. apply zeroes_ok.
Qed.

Lemma typed_rsect sec : typed block_ok (rsect sec).
Proof.
  intros s a s' Hs. unfold rsect, gets, mbind, M_bind. destruct (fi_disk s !! Z.to_nat sec) eqn:E; [|done].
  intros [= <- <-]. split; [done|]. by eapply Forall_lookup_1 in E.
Qed.

Lemma block_ok_splice o q d : block_ok d → bytes_ok q → block_ok (splice o q d).
Proof. intros [Hl Hb] Hq. split; [by rewrite length_splice|by apply Forall_splice]. Qed.

Create HintDb typed.
#[export] Hint Resolve typed_ret typed_panic typed_fault typed_gets typed_modify typed_assert typed_wsect typed_rsect
  zeroes_ok block_ok_splice bytes_ok_put_le le_bytes_ok : typed.

(** One step of a composed computation. *)
Ltac typed_step :=
  lazymatch goal with
  | |- typed _ (mbind _ _) => eapply typed_bind; [eauto with typed; fail|intros ? ?]
  | |- typed _ (if ?b then _ else _) => destruct b
  | |- typed _ (let _ := _ in _) => cbv zeta
  | |- typed _ _ => solve [eauto with typed]
  end.

Lemma typed_newblock : typed (λ _, True) newblock.
Proof. unfold newblock. do 2 typed_step. by apply typed_ret. Qed.

Lemma typed_winode inum ip : bytes_ok ip → typed (λ _ : (), True) (winode inum ip).
Proof. intros Hb. unfold winode. typed_step. eauto with typed. Qed.

Lemma typed_rinode inum : typed bytes_ok (rinode inum).
Proof.
  unfold rinode. eapply typed_bind; [apply typed_rsect|]. intros buf [_ Hb]. apply typed_ret. by apply Forall_take, Forall_drop.
Qed.

#[export] Hint Resolve typed_newblock typed_winode typed_rinode : typed.

Lemma bytes_ok_replicate n : bytes_ok (replicate n 0).
Proof. by apply Forall_replicate. Qed.

#[export] Hint Resolve bytes_ok_replicate : typed.

Lemma typed_ialloc type : typed (λ _, True) (mk_ialloc type).
Proof.
  unfold mk_ialloc. do 2 typed_step. cbv zeta. eapply typed_bind; [|intros [] _; by apply typed_ret].
  unfold put32, put16. auto 10 with typed.
Qed.

Lemma typed_balloc cf used : config_ok cf → typed (λ _ : (), True) (mk_balloc cf used).
Proof.
  intros Hcf. unfold mk_balloc, Mkfs.assert. destruct (Z.ltb_spec used (512 * 8)) as [Hu|Hu].
  - eapply typed_bind; [by apply (typed_ret (λ _, True))|]. intros [] _. apply typed_wsect.
    destruct (set_bits_spec cf Hcf (Z.to_nat used)); [lia|done].
  - intros s a s' _ E. done.
Qed.

Lemma typed_append_block din fbn : bytes_ok din → typed (λ r, bytes_ok r.1) (append_block din fbn).
Proof.
  intros Hd. assert (∀ k, typed bytes_ok (if xint (din_addr k din) =? 0 then b ← newblock; mret (set_din_addr k b din) else mret din)) as Ha.
  { intros k. typed_step; [|by apply typed_ret]. typed_step. apply typed_ret. unfold set_din_addr, put32. auto with typed. }
  unfold append_block. typed_step; [eapply typed_bind; [apply Ha|]; intros din' Hd'; by apply typed_ret|].
  eapply typed_bind; [apply Ha|]. intros din' Hd'. typed_step. typed_step; [apply typed_fault|]. cbv zeta.
  eapply (typed_bind (λ _, True)); [|intros; by apply typed_ret].
  typed_step; [|by apply typed_ret]. typed_step. eapply typed_bind; [|intros [] _; by apply typed_ret].
  apply typed_wsect. by apply block_ok_put32.
Qed.

Lemma typed_iappend_loop fuel : ∀ din off p, bytes_ok din → bytes_ok p → typed (λ r, bytes_ok r.1) (iappend_loop fuel din off p).
Proof.
  induction fuel as [|fuel IH]; intros din off p Hd Hp; cbn [iappend_loop]; [apply typed_fault|]. cbv zeta.
  typed_step; [by apply typed_ret|]. typed_step. eapply typed_bind; [by apply typed_append_block|]. intros [din' x] Hd'. cbv beta iota zeta.
  typed_step. eapply typed_bind; [apply typed_wsect, block_ok_splice; [done|by apply Forall_take]|].
  intros [] _. apply IH; [done|by apply Forall_drop].
Qed.

Lemma typed_iappend inum p : bytes_ok p → typed (λ _ : (), True) (iappend inum p).
Proof.
  intros Hp. unfold iappend. typed_step. eapply typed_bind; [by apply typed_iappend_loop|]. intros [din off] Hd.
  apply typed_winode. by apply bytes_ok_put_le.
Qed.

#[export] Hint Resolve typed_ialloc typed_balloc typed_iappend : typed.

Lemma mk_dirent_ok inum name : bytes_ok name → bytes_ok (mk_dirent inum name).
Proof.
  intros Hn. apply Forall_app. split; [apply le_bytes_ok|]. apply Forall_take, Forall_app. split; [done|apply bytes_ok_replicate].
Qed.

Lemma skip_underscore_ok name : bytes_ok name → bytes_ok (skip_underscore name).
Proof. intros Hn. destruct Hn as [|c r Hc Hr]; [by constructor|]. simpl. destruct (c =? 95); [done|by constructor]. Qed.

(** The names and the contents of the files are bytes. *)
Definition file_bytes (x : list Z * list (list Z)) : Prop := bytes_ok x.1 ∧ Forall bytes_ok x.2.

Lemma typed_chunks inum cs : Forall bytes_ok cs → typed (λ _ : (), True) (append_chunks inum cs).
Proof.
  induction 1 as [|c cs Hc Hcs IH]; simpl; [by apply typed_ret|]. destruct c; [by apply typed_ret|]. by typed_step.
Qed.

Lemma typed_files root files : Forall file_bytes files → typed (λ _ : (), True) (add_files root (arg_of <$> files)).
Proof.
  induction 1 as [|[name cs] files [Hn Hc] Hf IH]; simpl; [by apply typed_ret|]. eapply (typed_bind (λ _, True)); [|intros [] _; exact IH].
  unfold add_file, arg_of. cbn [fst snd] in *. do 2 typed_step. eapply typed_bind; [|intros [] _; by apply typed_chunks].
  apply typed_iappend. by apply mk_dirent_ok, skip_underscore_ok.
Qed.

Lemma typed_zero n : ∀ i, typed (λ _ : (), True) (zero_image i n).
Proof. induction n as [|n IH]; intros i; cbn [zero_image]; [by apply typed_ret|]. typed_step. apply IH. Qed.

(** The image is a disk as the kernel's drivers know it. *)
Lemma typed_mkfs cf files : config_ok cf → Forall file_bytes files → typed (λ _ : (), True) (mkfs cf (arg_of <$> files)).
Proof.
  intros Hcf Hf. unfold mkfs. eapply (typed_bind (λ _, True)); [intros s [] s' _ [= <-]; split; [constructor|done]|]. intros [] _. cbv zeta.
  typed_step. eapply typed_bind; [apply typed_zero|]. intros [] _.
  eapply typed_bind; [apply typed_wsect, block_ok_splice; [apply zeroes_ok|]|].
  { unfold sb_bytes. repeat (apply Forall_app; split); apply le_bytes_ok. }
  intros [] _. do 2 typed_step. do 2 (eapply typed_bind; [apply typed_iappend, mk_dirent_ok; by repeat constructor|intros [] _]).
  eapply typed_bind; [by apply typed_files|]. intros [] _. eapply (typed_bind (λ _, True)); [|intros [] _; typed_step; typed_step].
  unfold fix_root. typed_step. cbv zeta. apply typed_winode. by apply bytes_ok_put_le.
Qed.

(** ** The names in the root directory *)

(** The part of the name of a file that its entry holds. *)
Definition fname (x : list Z * list (list Z)) : list Z := take DIRSIZ (skip_underscore x.1).

Lemma cstr_padded name n : 0 ∉ name → cstr n (take n (name ++ replicate n 0)) = take n name.
Proof.
  revert n. induction name as [|c name IH]; intros n H0.
  - rewrite take_nil. destruct n; [done|]. done.
  - apply not_elem_of_cons in H0 as [Hc Hn]. destruct n as [|n]; [done|]. cbn [app take cstr].
    rewrite (proj2 (Z.eqb_neq c 0)) by congruence. f_equal. rewrite <-(IH n Hn). f_equal.
    rewrite !take_app. f_equal. rewrite !take_replicate. f_equal. lia.
Qed.

Lemma mk_dirent_name inum name : 0 ∉ name → cstr DIRSIZ (de_name (mk_dirent inum name)) = take DIRSIZ name.
Proof. intros H0. unfold de_name, mk_dirent. rewrite drop_app_length' by (by rewrite length_le_bytes). by apply cstr_padded. Qed.

Lemma mk_dirent_inum inum name : 0 ≤ inum < 2 ^ 16 → de_inum (mk_dirent inum name) = inum.
Proof.
  intros Hi. unfold de_inum, mk_dirent, get16, get_le, slice. rewrite drop_0, take_app_length' by (by rewrite length_le_bytes).
  rewrite le_val_le_bytes, xshort_small by done. by rewrite Z.mod_small.
Qed.

Lemma skip_underscore_plain c name : c ∉ name → c ∉ skip_underscore name.
Proof. destruct name as [|d r]; [done|]. simpl. destruct (d =? 95); set_solver. Qed.

Lemma root_names files : Forall (λ x, 0 ∉ x.1) files →
  (λ de, cstr DIRSIZ (de_name de)) <$> root_dir files = [46] :: [46; 46] :: (fname <$> files).
Proof.
  intros Hf. unfold root_dir. rewrite !fmap_cons. do 2 f_equal. generalize 2.
  induction Hf as [|x files Hx Hf IH]; intros n; simpl; [done|]. f_equal; [|apply IH].
  by apply mk_dirent_name, skip_underscore_plain.
Qed.

Lemma root_inums files k de : Z.of_nat (length files) + 2 ≤ 2 ^ 16 → root_dir files !! k = Some de →
  de_inum de = Z.max 1 (Z.of_nat k) ∧ (k < 2 + length files)%nat.
Proof.
  intros Hl. unfold root_dir. destruct k as [|[|k]]; [intros [= <-]; split; [done|lia]..|]. cbn [lookup list_lookup].
  assert (∀ n k, 0 ≤ n → n + Z.of_nat (length files) ≤ 2 ^ 16 → entries n files !! k = Some de →
    de_inum de = n + Z.of_nat k ∧ (k < length files)%nat) as He.
  { clear Hl k. induction files as [|x files IH]; intros n k Hn Hl Hk; [done|]. cbn [entries length] in *. destruct k as [|k].
    - injection Hk as <-. rewrite mk_dirent_inum by lia. lia.
    - destruct (IH (n + 1) k) as [E L]; [lia|lia|done|]. lia. }
  intros Hk. destruct (He 2 k) as [-> ?]; [lia|lia|done|]. lia.
Qed.

Lemma components_single name : name ≠ [] → (47 ∉ name) → components (47 :: name) = [name].
Proof.
  intros Hne H47. destruct name as [|c r]; [done|]. change (components (47 :: c :: r)) with (components (c :: r)).
  apply not_elem_of_cons in H47 as [Hc Hr]. rewrite components_cons by congruence.
  assert (span_elem r = (r, [])) as ->; [|done]. clear Hne Hc c. induction r as [|c r IH]; [done|].
  apply not_elem_of_cons in Hr as [Hc Hr]. simpl. rewrite (proj2 (Z.eqb_neq c 47)) by congruence. by rewrite IH.
Qed.

(** ** The image as a tree *)

Section Mounted.
Context (cf : config) (Hcf : config_ok cf) (files : list (list Z * list (list Z))).
Context (bits : list Z) (m : fsimg) (f : finfo) (fs : list finfo).
Context (Himg : img cf bits (f :: fs) m) (Hrep : Forall2 rep fs (data_of <$> files)).
Context (Ht : f_type f = 1) (Hd : f_data f = concat (root_dir files)).
Context (Hz : f_size f = (Z.of_nat (length (concat (root_dir files))) / 512 + 1) * 512).
Context (Hfree : fi_freeblock m ≤ cf_size cf - cf_nlog cf).
Context (Hmax : Z.of_nat (length files) < cf_ninodes cf).
Context (Hroom : ((2 + length files) mod 32 ≠ 0)%nat).
Let V := disk_view (fi_disk m).
#[local] Set Default Proof Using "All".

Lemma image_entry j g : (f :: fs) !! j = Some g →
  entry (used0 cf) m (inode_bytes (fi_disk m) (1 + Z.of_nat j)) g ∧ (f_type g = 1 ∨ f_type g = 2).
Proof.
  intros Hg. split; [by apply (im_files _ _ _ _ Himg)|]. destruct j as [|j]; [injection Hg as <-; by left|].
  destruct (Forall2_lookup_l _ _ _ j g Hrep Hg) as ([t c] & Hj & Tg & _). right. rewrite Tg.
  apply list_lookup_fmap_Some in Hj as (z & [= -> _] & _). done.
Qed.

Lemma image_files_length : length fs = length files.
Proof. rewrite (Forall2_length _ _ _ Hrep). apply length_fmap. Qed.

Lemma image_readable s a : ks_disk s = fi_disk m → 0 < a < fi_freeblock m → readable s ∅ a.
Proof.
  intros Dk Ha. destruct (im_frame _ _ _ _ Himg) as [_ Hl _ _ _]. pose proof (co_nlog _ Hcf).
  split_and!; [lia|lia| |set_solver]. rewrite Dk. lia.
Qed.

Lemma image_blocks j g : (f :: fs) !! j = Some g →
  (length (f_data g) ≤ 512 * length (f_blocks g) < length (f_data g) + 512)%nat ∧ (length (f_blocks g) ≤ 139)%nat.
Proof. intros [[[Hm [Hl _] Hti] _ _] _]%image_entry. pose proof (ma_max _ _ _ _ _ _ Hm). lia. Qed.

Lemma image_mapped s j g : ks_disk s = fi_disk m → (f :: fs) !! j = Some g →
  mapped s V ∅ (ino V (1 + Z.of_nat j)) (Z.of_nat (length (f_blocks g))).
Proof.
  intros Dk Hg. destruct (image_entry _ _ Hg) as [He _]. pose proof (image_blocks _ _ Hg) as [_ H139].
  assert (∀ b, b ∈ f_own g → readable s ∅ b) as Hown.
  { intros b Hb. pose proof (entry_range _ _ _ _ _ He Hb). destruct (used0_val cf Hcf) as (? & ? & ? & _).
    apply image_readable; [done|lia]. }
  split_and!; [lia|done| |].
  - intros k Hk. replace k with (Z.of_nat (Z.to_nat k)) by lia. unfold V. rewrite (entry_fblock _ _ _ _ He) by lia.
    apply Hown. apply elem_of_app. right. apply list_elem_of_lookup_2 with (Z.to_nat k). apply list_lookup_lookup_total_lt. lia.
  - intros Hk. unfold V. rewrite (entry_indirect _ _ _ _ He) by lia. apply Hown. apply elem_of_app. left.
    unfold iblk. rewrite decide_True by lia. by left.
Qed.

(** The root directory takes up its blocks but for a rest of zeros. *)
Lemma root_size : i_type (ino V 1) = T_DIR ∧ i_nlink (ino V 1) = 1 ∧
  i_size (ino V 1) = 512 * Z.of_nat (length (f_blocks f)) ∧ length (f_data f) = (16 * (2 + length files))%nat.
Proof.
  destruct (image_entry 0 f eq_refl) as [He Hty]. destruct (image_blocks 0 f eq_refl) as [Hb _].
  destruct (root_dir_sizes cf Hcf files) as [Hds Hdn].
  assert (length (f_data f) = (16 * (2 + length files))%nat) as Hlen.
  { rewrite Hd, <-Hdn. clear -Hds. induction Hds as [|d ds E _ IH]; [done|]. cbn [concat length]. rewrite length_app, E. lia. }
  destruct (entry_view _ _ _ _ He Hty) as (E1 & E2 & E3 & _). unfold V. change (1 + Z.of_nat 0) with 1 in *.
  split_and!; [congruence|done| |done]. rewrite E3, Hz, <-Hd, Hlen.
  pose proof (Nat.div_mod (2 + length files) 32). pose proof (Nat.mod_upper_bound (2 + length files) 32).
  assert (Z.of_nat (16 * (2 + length files)) / 512 = Z.of_nat ((2 + length files) / 32)) as ->.
  { symmetry. apply (Z.div_unique _ _ _ (16 * Z.of_nat ((2 + length files) mod 32))); lia. }
  lia.
Qed.

Lemma root_entries : ∃ r, entries_of V 1 = root_dir files ++ r ∧ Forall (λ de, de_inum de = 0) r.
Proof.
  destruct root_size as (_ & _ & Hs & Hlen). destruct (image_entry 0 f eq_refl) as [He Hty]. change (1 + Z.of_nat 0) with 1 in He.
  destruct (root_dir_sizes cf Hcf files) as [Hds Hdn]. destruct (image_blocks 0 f eq_refl) as [Hb _].
  set (n := length files) in *. set (z := (32 * length (f_blocks f))%nat).
  assert (Z.to_nat (i_size (ino V 1) / 16) = (2 + n) + (z - (2 + n)))%nat as Hn.
  { rewrite Hs. replace (512 * Z.of_nat (length (f_blocks f))) with (Z.of_nat z * 16) by lia. rewrite Z.div_mul by lia. lia. }
  unfold entries_of, dirents. rewrite Hn, seq_app, fmap_app. eexists. split; [f_equal|].
  - destruct (entry_view _ _ _ _ He Hty) as (_ & _ & _ & _ & F). rewrite Hd in F. unfold V. rewrite <-Hdn.
    by apply (dirents_of cf Hcf _ (ino V 1) (root_dir files) 0).
  - apply Forall_fmap, Forall_forall. intros k Hk%elem_of_seq. cbn [compose].
    assert (fbytes V (ino V 1) (16 * Z.of_nat k) 16 = replicate 16 0) as ->; [|done].
    apply list_eq_same_length with 16%nat; [by rewrite length_replicate|apply length_fbytes|]. intros j x y Hj Hx Hy.
    apply lookup_replicate_1 in Hy as [-> _]. unfold fbytes in Hx. apply list_lookup_fmap_Some in Hx as (j' & -> & Hj').
    apply lookup_seq in Hj' as [-> _]. replace (16 * Z.of_nat k + Z.of_nat (0 + j)) with (Z.of_nat (16 * k + j)) by lia.
    unfold V. rewrite (entry_fbyte _ _ _ _ He) by lia. by rewrite lookup_ge_None_2 by lia.
Qed.

Lemma image_tree s : ks_disk s = fi_disk m → tree s V ∅ (λ n, 1 ≤ n ≤ 1 + Z.of_nat (length files)).
Proof.
  intros Dk. destruct (used0_val cf Hcf) as (U & ? & M3 & _). pose proof (co_ninodes _ Hcf).
  pose proof (so_first _ _ (fr_store _ _ _ (im_frame _ _ _ _ Himg))) as Hfirst. destruct root_size as (R1 & R2 & R3 & R4).
  assert (∀ n, 1 ≤ n ≤ 1 + Z.of_nat (length files) → ∃ g, (f :: fs) !! Z.to_nat (n - 1) = Some g ∧
    i_type (ino V n) = f_type g ∧ (f_type g = 1 ∨ f_type g = 2) ∧ i_nlink (ino V n) = 1) as Hino.
  { intros n Hn. destruct (lookup_lt_is_Some_2 (f :: fs) (Z.to_nat (n - 1))) as [g Hg]; [simpl; rewrite image_files_length; lia|].
    destruct (image_entry _ _ Hg) as [He Hty]. destruct (entry_view _ _ _ _ He Hty) as (E1 & E2 & _).
    exists g. replace (1 + Z.of_nat (Z.to_nat (n - 1))) with n in * by lia. done. }
  assert (∀ n, 1 ≤ n ≤ 1 + Z.of_nat (length files) → i_type (ino V n) = T_DIR → n = 1) as Hdir.
  { intros n Hn Hdi. destruct (Hino n Hn) as (g & Hg & E1 & _). destruct (Z.to_nat (n - 1)) as [|j] eqn:Ej; [lia|].
    destruct (Forall2_lookup_l _ _ _ j g Hrep Hg) as ([t c] & Hj & Tg & _).
    apply list_lookup_fmap_Some in Hj as (z & [= -> _] & _). rewrite E1, Tg in Hdi. done. }
  split.
  - intros n Hn. apply image_readable; [done|]. destruct (i2b_val cf n Hcf) as [E ?]; [lia|]. change (IBLOCK n) with (i2b n). lia.
  - intros n Hn. destruct (Hino n Hn) as (g & _ & -> & [-> | ->] & ->); done.
  - intros n Hn Hdi. rewrite (Hdir n Hn Hdi), R3. destruct (image_blocks 0 f eq_refl) as [_ H139]. split; [|lia].
    replace (512 * Z.of_nat (length (f_blocks f))) with (32 * Z.of_nat (length (f_blocks f)) * 16) by lia. by apply Z.mod_mul.
  - intros n Hn Hdi. rewrite (Hdir n Hn Hdi), R3. replace ((512 * Z.of_nat (length (f_blocks f)) + 511) / 512) with (Z.of_nat (length (f_blocks f))).
    + by apply (image_mapped s 0 f Dk).
    + apply (Z.div_unique _ _ _ 511); lia.
  - intros n de Hn Hdi Hde Hne. rewrite (Hdir n Hn Hdi) in Hde. destruct root_entries as (r & Er & Hr). rewrite Er in Hde.
    apply elem_of_app in Hde as [Hde|Hde]; [|rewrite Forall_forall in Hr; by apply Hr in Hde].
    apply list_elem_of_lookup in Hde as [k Hk]. destruct (root_inums files k de) as [-> ?]; [lia|done|]. lia.
Qed.

(** The name of a file leads to its inode. *)
Lemma image_resolves k x :
  Forall (λ y, 0 ∉ y.1) files → NoDup ([46] :: [46; 46] :: (fname <$> files)) → files !! k = Some x →
  (47 ∉ x.1) → fname x ≠ [] → resolve V false 1 (components (47 :: skip_underscore x.1)) = Some (2 + Z.of_nat k).
Proof.
  intros H0 Hnd Hx H47 Hne. rewrite components_single; [|by intros E; apply Hne; unfold fname; rewrite E|by apply skip_underscore_plain].
  destruct root_size as (Ety & _). destruct root_entries as (r & Er & _). pose proof (co_ninodes _ Hcf).
  cbn [resolve]. rewrite Ety. change (negb (T_DIR =? T_DIR)) with false. cbn [andb]. unfold child. rewrite Er.
  pose proof (root_names files H0) as Hnames. destruct (root_dir_sizes cf Hcf files) as [_ Hdn].
  destruct (lookup_lt_is_Some_2 (root_dir files) (2 + k)) as [de Hde]; [rewrite Hdn; apply lookup_lt_Some in Hx; lia|].
  assert (∀ j e, root_dir files !! j = Some e → ([46] :: [46; 46] :: (fname <$> files)) !! j = Some (cstr DIRSIZ (de_name e))) as Hn.
  { intros j e Hj. by rewrite <-Hnames, list_lookup_fmap, Hj. }
  assert (cstr DIRSIZ (de_name de) = fname x) as Ede.
  { assert ((fname <$> files) !! k = Some (cstr DIRSIZ (de_name de))) as Hk by exact (Hn _ _ Hde).
    rewrite list_lookup_fmap, Hx in Hk. by injection Hk. }
  destruct (root_inums files (2 + k) de) as [Einum _]; [lia|done|].
  assert (find_from (entry_for (skip_underscore x.1)) 0 (root_dir files ++ r) = Some (2 + k)%nat) as ->.
  { apply find_from_Some. exists (2 + k)%nat, de. split_and!; [done|by apply lookup_app_l_Some| |].
    - unfold entry_for. rewrite Einum, Ede, bool_decide_true by done. rewrite andb_true_r. apply negb_true_iff, Z.eqb_neq. lia.
    - intros j e Hj He. rewrite lookup_app_l in He by (rewrite Hdn; apply lookup_lt_Some in Hx; lia). unfold entry_for.
      rewrite bool_decide_false; [by rewrite andb_false_r|]. intros E. apply Hn in He. apply Hn in Hde. rewrite Ede in Hde.
      change (take DIRSIZ (skip_underscore x.1)) with (fname x) in E. rewrite <-E in He.
      pose proof (NoDup_lookup _ _ _ _ Hnd Hde He). lia. }
  cbn [mbind option_bind]. rewrite (lookup_app_l_Some _ _ _ _ Hde). cbn [mbind option_bind]. rewrite Einum. f_equal. lia.
Qed.

(** The contents of a file. *)
Lemma image_file k x : files !! k = Some x → ∃ g, fs !! k = Some g ∧
  let i := ino V (2 + Z.of_nat k) in
  i_type i = T_FILE ∧ i_size i = Z.of_nat (length (concat x.2)) ∧ fbytes V i 0 (length (concat x.2)) = concat x.2 ∧
  (i_size i + 511) / 512 ≤ Z.of_nat (length (f_blocks g)).
Proof.
  intros Hx. destruct (Forall2_lookup_r _ _ _ k (data_of x) Hrep) as (g & Hg & Tg & Dg & Zg); [by rewrite list_lookup_fmap, Hx|].
  exists g. split; [done|]. destruct (image_entry (S k) g Hg) as [He Hty]. destruct (image_blocks (S k) g Hg) as [Hb _].
  destruct (entry_view _ _ _ _ He Hty) as (E1 & _ & E3 & _ & E5). replace (1 + Z.of_nat (S k)) with (2 + Z.of_nat k) in * by lia.
  cbn [data_of fst snd] in *. rewrite Dg in *. unfold V. split_and!; [congruence|congruence|done|]. rewrite E3, Zg.
  apply Z.lt_succ_r, Z.div_lt_upper_bound; lia.
Qed.

End Mounted.

(** ** Mounting the image *)

(** What is asked of the files given to [mkfs]: their names have no slash and
    no null byte and differ from each other and from the two entries every
    directory has, they fit the inodes and the data blocks, and the root
    directory does not end exactly at the end of a block. *)
Record image_args (cf : config) (files : list (list Z * list (list Z))) : Prop := {
  ia_config : config_ok cf;
  ia_args : Forall file_arg files;
  ia_bytes : Forall file_bytes files;
  ia_names : Forall (λ x, (0 ∉ x.1)) files;
  ia_differ : NoDup ([46] :: [46; 46] :: (fname <$> files));
  ia_fit : fit cf (image_files files);
  ia_blocks : Z.of_nat (total (image_files files)) ≤ cf_nblocks cf;
  ia_bitmap : used0 cf + Z.of_nat (total (image_files files)) < 4096;
  ia_room : ((2 + length files) mod 32 ≠ 0)%nat;
}.

(** The log area [mkfs] leaves is one the kernel can recover. *)
Definition image_log (cf : config) : log := mk_log (cf_size cf - cf_nlog cf) (cf_nlog cf) false 1 0 [].

Lemma image_recoverable cf bits fs m :
  config_ok cf → img cf bits fs m → Forall block_ok (fi_disk m) → fi_freeblock m ≤ cf_size cf - cf_nlog cf →
  recoverable (image_log cf) (fi_disk m) ∧ sb_places (image_log cf) (fi_disk m) ∧ (1 < length (fi_disk m))%nat ∧
  fi_disk m !! Z.to_nat (cf_size cf - cf_nlog cf) = Some (replicate 512 0).
Proof.
  intros Hcf Himg Hok Hfree. destruct (im_frame _ _ _ _ Himg) as [Hst Hl Hsb _ _]. pose proof Hcf as [C1 C2 C3 C4 C5].
  destruct (used0_val cf Hcf) as (U & ? & M3 & _). pose proof (so_first _ _ Hst) as Hfirst.
  assert (fi_disk m !! Z.to_nat (cf_size cf - cf_nlog cf) = Some (replicate 512 0)) as Hlog.
  { rewrite list_lookup_lookup_total_lt by lia. f_equal. apply (so_zero _ _ Hst). lia. }
  assert (area_ok (image_log cf) (length (fi_disk m))) as Ha by (split; simpl; lia).
  pose proof (superblock cf Hcf _ Hsb) as Esb. split_and!; [| |lia|done].
  2: { unfold sb_places. cbv zeta. unfold disk_view in Esb. change (Z.to_nat 1) with 1%nat in Esb. rewrite Esb.
    cbn [sb_size sb_nlog l_start l_size image_log]. rewrite !s32_small; lia. }
  split; [done..|]. apply (hdr_wf_empty _ _ Ha); [done|]. cbn [l_start image_log]. by rewrite (list_lookup_total_correct _ _ _ Hlog).
Qed.

(** A read of a file, given its path. *)
Definition read_file `{Ide} `{Devsw} (path : list Z) (off n : Z) : K (Z * list Z) :=
  o ← namei path;
  ip ← the o;
  ilock ip;;
  readi ip off n.

Section Boot.
Context `{IdeSpec} `{Devsw}.
#[local] Set Default Proof Using "All".

Lemma fbytes_within V i c off n : fbytes V i 0 (length c) = c → (off + n ≤ length c)%nat →
  fbytes V i (Z.of_nat off) n = take n (drop off c).
Proof.
  intros E Hn. replace (length c) with (off + (n + (length c - off - n)))%nat in E by lia.
  rewrite !fbytes_app in E. rewrite <-E at 1. rewrite drop_app_length' by (by rewrite length_fbytes).
  rewrite take_app_length' by (by rewrite length_fbytes). done.
Qed.

(** [mkfs] makes an image whose log [initlog] finds empty. *)
Lemma image_mounts cf files (R : fsimg → Prop) : image_args cf files →
  (∀ bits m f fs, img cf bits (f :: fs) m → Forall2 rep fs (data_of <$> files) →
    f_type f = 1 → f_data f = concat (root_dir files) →
    f_size f = (Z.of_nat (length (concat (root_dir files))) / 512 + 1) * 512 →
    fi_freeblock m ≤ cf_size cf - cf_nlog cf → Forall block_ok (fi_disk m) →
    (∀ s, booting s → ks_disk s = fi_disk m → wp initlog (λ _ s', bio s' (disk_view (fi_disk m)) ∅ ∅ ∧
      ks_disk s' = fi_disk m ∧ ks_inodes s' = ks_inodes s) s) → R m) →
  wp (mkfs cf (arg_of <$> files)) (λ _ m, R m) start.
Proof.
  intros [Hcf Ha Hby _ _ Hfit Hbl Hbm _] HQ.
  destruct (proj1 (wp_runs _ _ _) (mkfs_runs cf Hcf files Ha Hfit Hbm)) as ([] & m & Hrun & f & fs & Eu & Himg & Hr & Ht & Hd & Hz).
  apply wp_runs. exists (), m. split; [done|].
  destruct (typed_mkfs cf files Hcf Hby start () m (Forall_nil_2 _) Hrun) as [Hok _].
  assert (fi_freeblock m ≤ cf_size cf - cf_nlog cf) as Hfree.
  { rewrite <-(so_used _ _ (fr_store _ _ _ (im_frame _ _ _ _ Himg))), Eu. pose proof (co_total _ Hcf). lia. }
  destruct (image_recoverable _ _ _ _ Hcf Himg Hok Hfree) as (Hrec & Hsb & Hlen & Hlog).
  eapply HQ; try done. intros s Hb Dk. eapply wp_mono; [apply (initlog_spec (image_log cf) s Hb); by rewrite Dk|].
  intros [] s' (_ & Dk' & _ & In' & Hidle). rewrite Dk, recovered_unused in Dk' by done.
  split_and!; [|done|done]. rewrite <-Dk'. by eapply idle_bio.
Qed.

(** Finding and reading one file, on a kernel that has mounted the image. *)
Lemma image_reads cf files k x off n : image_args cf files → files !! k = Some x → fname x ≠ [] →
  let c := concat x.2 in 0 ≤ off ≤ Z.of_nat (length c) → 0 ≤ n → off + n < 2 ^ 32 →
  ∀ bits m f fs s, img cf bits (f :: fs) m → Forall2 rep fs (data_of <$> files) →
    f_type f = 1 → f_data f = concat (root_dir files) →
    f_size f = (Z.of_nat (length (concat (root_dir files))) / 512 + 1) * 512 →
    fi_freeblock m ≤ cf_size cf - cf_nlog cf →
    bio s (disk_view (fi_disk m)) ∅ ∅ → ks_disk s = fi_disk m → table (disk_view (fi_disk m)) (ks_inodes s) None → two_free (ks_inodes s) →
    wp (read_file (cstring (47 :: skip_underscore x.1) []) off n) (λ r s',
      r = (Z.min n (Z.of_nat (length c) - off), take (Z.to_nat n) (drop (Z.to_nat off) c)) ∧ ks_disk s' = fi_disk m) s.
Proof.
  intros Hargs Hx Hne c Hoff Hn Hov. pose proof Hargs as [Hcf Ha _ Hnul Hnd Hfit _ _ Hroom].
  pose proof (ft_inodes _ _ Hfit) as Hi. cbn [length image_files] in Hi. rewrite length_fmap in Hi.
  intros bits m f fs s Himg Hrep Ht Hd Hz Hfree Hs Dk Htb H2f. set (V := disk_view (fi_disk m)) in *.
  pose proof (image_tree cf Hcf files bits m f fs Himg Hrep Ht Hd Hz Hfree ltac:(lia) Hroom s Dk) as Htree. fold V in Htree.
  assert (47 ∉ x.1) as H47 by apply (Forall_lookup_1 _ _ _ _ Ha Hx).
  assert (0 ∉ 47 :: skip_underscore x.1) as Hp.
  { apply not_elem_of_cons. split; [done|]. apply skip_underscore_plain, (Forall_lookup_1 _ _ _ _ Hnul Hx). }
  pose proof (image_resolves cf Hcf files bits m f fs Himg Hrep Ht Hd Hz Hfree ltac:(lia) Hroom k x Hnul Hnd Hx H47 Hne) as Hres.
  assert (size (∅ ∪ ∅ : gset Z) < NBUF)%nat as Hsz by (rewrite union_empty_l_L, size_empty; lia).
  unfold read_file, namei. apply wp_bind. wp_call (namex_spec V ∅ ∅ _ s _ [] false (replicate DIRSIZ 0) 1 Hs Hsz Htree Htb H2f Hp); [done|done|lia|].
  intros [o name] s1 [Q1 Hfd]. fold V in Hres. rewrite Hres in Hfd. destruct Hfd as (ip & y & Eo & Hw1 & Hy & En & _). simpl in Eo. subst o.
  wp_step. wp_step. eapply wp_the; [done|]. pose proof (tree_quiet V ∅ ∅ _ (ks_inodes s) Hsz (tb_ok _ _ _ Htb) s s1 Q1 Htree) as Htree1.
  assert (1 ≤ i_inum y ≤ 1 + Z.of_nat (length files)) as HP by (rewrite En; apply lookup_lt_Some in Hx; lia).
  destruct (refs_held _ _ _ ip (tb_ok _ _ _ Htb) (wk_refs _ _ _ _ _ _ _ Hw1)) as (y1 & Hy1 & Hr); [by left|by eapply lookup_lt_Some|].
  rewrite Hy in Hy1. injection Hy1 as <-.
  wp_call (walk_ilock V ∅ ∅ _ (ks_inodes s) Hsz (tb_ok _ _ _ Htb) s1 [ip] ip y Hw1 Htree1 Hy Hr HP).
  intros [] s2 (Q2 & Hw2 & y2 & Hy2 & Dv2 & _ & Ld2). rewrite En in Ld2.
  destruct (loaded_reads V ∅ ∅ (λ _, True) (ks_inodes s) Hsz (tb_ok _ _ _ Htb) _ _ Ld2) as (Ty2 & Sz2 & _ & Fb2 & Mp2).
  destruct (image_file cf Hcf files bits m f fs Himg Hrep Ht Hd Hz Hfree ltac:(lia) Hroom k x Hx) as (g & Hg & Ty & Sz & Fb & Nb).
  fold V in Ty, Sz, Fb, Nb. fold c in Sz, Fb.
  eapply wp_mono; [eapply (readi_spec s2 V ∅ ∅ ip y2 off n (wk_bio _ _ _ _ _ _ _ Hw2) Hy2 Dv2)|].
  all: rewrite ?Ty2, ?Sz2, ?Ty, ?Sz; try done; try lia.
  - apply Mp2. rewrite Sz in Nb. assert (ks_disk s2 = fi_disk m) as Dk2 by (destruct Q1, Q2; congruence).
    destruct (image_mapped cf Hcf files bits m f fs Himg Hrep Ht Hd Hz Hfree ltac:(lia) Hroom s2 (S k) g Dk2 Hg) as (M1 & M2 & M3 & M4).
    replace (1 + Z.of_nat (S k)) with (2 + Z.of_nat k) in * by lia. split_and!; [lia|done|intros; apply M3; lia|intros; apply M4; lia].
  - intros r s3 (-> & _ & Dk3 & _). split; [|destruct Q1, Q2; congruence]. f_equal. rewrite Fb2.
    replace off with (Z.of_nat (Z.to_nat off)) at 1 by lia. rewrite (fbytes_within _ _ c) by (done || lia).
    destruct (decide (n ≤ Z.of_nat (length c) - off)) as [|Hge]; [by rewrite Z.min_l|].
    rewrite !take_ge by (rewrite length_drop; lia). done.
Qed.

(** A kernel about to recover the log, with no inode read yet, reads the files. *)
Lemma boot_reads cf files k x off n : image_args cf files → files !! k = Some x → fname x ≠ [] →
  let c := concat x.2 in 0 ≤ off ≤ Z.of_nat (length c) → 0 ≤ n → off + n < 2 ^ 32 →
  wp (mkfs cf (arg_of <$> files)) (λ _ m, Forall block_ok (fi_disk m) ∧ ∀ s, booting s → ks_disk s = fi_disk m →
    table (disk_view (fi_disk m)) (ks_inodes s) None → two_free (ks_inodes s) →
    wp (initlog;; read_file (cstring (47 :: skip_underscore x.1) []) off n) (λ r s',
      r = (Z.min n (Z.of_nat (length c) - off), take (Z.to_nat n) (drop (Z.to_nat off) c)) ∧ ks_disk s' = fi_disk m) s) start.
Proof.
  intros Hargs Hx Hne c Hoff Hn Hov. apply (image_mounts cf files _ Hargs).
  intros bits m f fs Himg Hrep Ht Hd Hz Hfree Hok Hlog. split; [done|]. intros s Hb Dk Htb H2.
  apply wp_bind. eapply wp_mono; [by apply Hlog|]. intros [] s' (Hs & Dk' & In). eapply image_reads; try done; by rewrite In.
Qed.

End Boot.

Module FsBootExample.
Import Memide InodeExample MkfsExample.

Lemma args : image_args shipped files.
Proof.
  split; [exact shipped_ok|exact args_ok| | | |split; [repeat constructor|..]; by vm_compute|by vm_compute|by vm_compute|by vm_compute].
  - apply Forall_cons_2; [|apply Forall_cons_2; [|apply Forall_nil_2]]; split; apply (bool_decide_unpack _); by vm_compute.
  - apply (bool_decide_unpack _). by vm_compute.
  - apply (bool_decide_unpack _). by vm_compute.
Qed.

(** The size of the root directory is rounded up to one block more than it has
    when its entries fill its blocks, as those of thirty files do.  A lookup
    that gets that far lets [bmap] allocate the block, outside of a
    transaction. *)
Definition small : config := {| cf_nblocks := 5; cf_nlog := 10; cf_ninodes := 40; cf_size := 24 |}.
Definition thirty : list (list Z * list (list Z)) := (λ k, ([97; 65 + Z.of_nat k], [])) <$> seq 0 30.

Lemma full_root_panics :
  match mkfs small (arg_of <$> thirty) start with
  | Ok _ m =>
      match binit (bss (fi_disk m)) with
      | Ok _ s => (initlog;; namei (cstring [47; 122] [])) (set_cur (Some 0%nat) s) = Panic "write outside of trans"
      | _ => False
      end
  | _ => False
  end.
Proof. by vm_compute. Qed.

End FsBootExample.
