(* ===== verification/System.v ===== *)
(** * System: from the disk image to the first process

    The parts put together: the image that mkfs makes, [main], the scheduler
    and the first process, which recovers the log and can read every file. *)

From S2P Require Import Prelude Bytes CString Ring Kernel Sched Ide Bio Log Crash Block Inode Icache Dir Path Kalloc Pipe File Print Vm Kvm Proc UserInit Kbd Console IdeDriver Syscall SysProc Exec SysFile Trap Mp IntCtl Main MainBoot Mkfs MkfsImage FsBoot.

#[local] Arguments replicate : simpl never.

(** ** The scheduler's first choice *)

(** The kernel after processor [c] switched to process [p]. *)
Definition scheduled (p : nat) (x : proc) (k : kstate) : kstate :=
  set_procs (<[p:=with_p_state RUNNING x]> (ks_procs k))
    (set_misc (with_ms_cr3 (v2p (p_pgdir x)) (with_ms_cpu (task_segment (p_kstack x) (ms_cpu (ks_misc k))) (ks_misc k))) (set_cur (Some p) k)).

Lemma scheduler_from_spec k p x :
  find_from (λ x, bool_decide (p_state x = RUNNABLE)) 0 (ks_procs k) = Some p → ks_procs k !! p = Some x → p_pgdir x ≠ 0 →
  wp (scheduler_from 0) (λ o k', o = Some p ∧ k' = scheduled p x k) k.
Proof.
  intros Hf Hx Hd. unfold scheduler_from. wp_steps. rewrite drop_0, Hf. wp_steps.
  eapply wp_mono; [by eapply (switchuvm_spec p x)|]. intros [] k' ->. wp_step. eapply wp_upd_proc; [done|]. by wp_step.
Qed.

Lemma forkret_first `{Ide} k (Q : () → kstate → Prop) : ks_held k = [L_ptable] → ms_first (ks_misc k) = true →
  wp initlog Q (set_misc (with_ms_first false (ks_misc k)) (set_held [] k)) → wp forkret Q k.
Proof.
  intros Hh Hf HQ. unfold forkret. wp_step. eapply wp_release; [done|set_solver|]. wp_steps. cbn. rewrite Hf. cbn [when].
  unfold upd_misc. by wp_steps.
Qed.

(** The inode table with the root directory in it, not read yet. *)
Lemma root_table V : let l := <[0%nat:=root_entry]> (replicate NINODE zero_inode) in table V l None ∧ two_free l.
Proof.
  intros l. assert (∀ j x, l !! j = Some x → (j = 0%nat ∧ x = root_entry) ∨ i_ref x = 0) as Hl.
  { intros j x [(-> & -> & _)|[_ [-> _]%lookup_replicate_1]]%list_lookup_insert_Some; auto. }
  split; [split; [split|..]|].
  - intros j x [[-> ->]|E]%Hl; [done|lia].
  - intros i j x y Hx Hy Hi Hj _ _. apply Hl in Hx as [[-> _]|], Hy as [[-> _]|]; lia.
  - intros j x [[-> ->]|E]%Hl Hr; [|lia]. by split.
  - done.
  - by exists 1%nat, 2%nat, zero_inode, zero_inode.
Qed.

Section System.
Context `{LinkerOk} `{Drive} `{BootEnv} `{IdeSpec} `{Devsw} (t0 t : mpstate) (b : nat) (Henv : env_ok t0 t b).
#[local] Set Default Proof Using "All".

(** What the scheduler of the processor that booted does first. *)
Lemma first_schedule dk esp stacks s : booted t b dk esp stacks s →
  wp (acquire L_ptable;; scheduler_from 0) (λ o k, ∃ x, o = Some 0%nat ∧ ks_procs (mc_k s) !! 0%nat = Some x ∧
    k = scheduled 0 x (set_held [L_ptable] (mc_k s))) (mc_k s).
Proof.
  intros [_ _ _ _ _ (x & a & d & T & l & Ep & FP & US & _) (Hb & _)].
  assert (ks_procs (mc_k s) !! 0%nat = Some x) as Hx by (by rewrite Ep).
  assert (ks_held (mc_k s) = []) as Hh by apply (bio_held _ _ _ _ (bt_bio _ Hb)). wp_step. apply wp_acquire; [rewrite Hh; set_solver|].
  rewrite Hh. eapply wp_mono; [apply (scheduler_from_spec (set_held [L_ptable] (mc_k s)) 0 x)|].
  - change (ks_procs _) with (ks_procs (mc_k s)). rewrite Ep. change (ks_procs (bss dk)) with (zero_proc :: replicate 63 zero_proc).
    cbn [insert list_insert find_from]. by rewrite (fp_state _ _ _ _ FP).
  - done.
  - rewrite (fp_pgdir _ _ _ _ FP). pose proof (do_page _ _ _ (as_dir _ _ _ _ (us_space _ _ _ _ US))) as []. lia.
  - intros o k [-> ->]. by exists x.
Qed.

(** C6: booting.  From a machine with the kernel just loaded, with either of the
    two disk drivers, of which only [env_ok] is assumed, and for memide.c that
    its image is the disk [dk], [main] runs up to the scheduler on every processor
    without a panic or a fault.  Then ([booted]) every processor runs with the
    page table [setupkvm] describes, its own segments and interrupt table, and
    a stack page that no one else uses; the process table holds one process,
    runnable, whose user memory is one page with initcode.S, the kernel mapped
    above it; and the caches and the log are as [initlog] needs them.  The
    scheduler's first choice is that process: it runs on its own page table, a
    trap from it will use its kernel stack, and it starts in [forkret]. *)
Theorem main_boots dr dk s :
  loaded t0 b dk s → Forall block_ok dk → driver_disk dr dk →
  wp (main dr) (λ _ s', (∃ stacks, booted t b dk (mc_esp s) stacks s') ∧
    wp (acquire L_ptable;; scheduler_from 0) (λ o k, o = Some 0%nat ∧ ∃ x, ks_procs k !! 0%nat = Some x ∧
      p_state x = RUNNING ∧ p_pid x = 1 ∧ cx_eip (p_context x) = ld_forkret ∧ ms_cr3 (ks_misc k) = v2p (p_pgdir x) ∧
      trap_stack (ms_cpu (ks_misc k)) = Some (p_kstack x + KSTACKSIZE)) (mc_k s')) s.
Proof.
  intros Hs Hdk Hdr. eapply wp_mono; [by apply (main_spec t0 t b Henv dr dk s Hs)|]. intros [] s' (stacks & Hb). split; [by exists stacks|].
  eapply wp_mono; [by apply (first_schedule dk (mc_esp s) stacks)|]. intros o k (x & -> & Hx & ->). split; [done|].
  destruct Hb as [_ _ (_ & [Sg _ _ _ _ _] & _) _ _ (x' & a & d & T & l & Ep & FP & US & _ & _ & _ & _ & [_ Ka]) _].
  assert (x' = x) as -> by (rewrite Ep in Hx; by injection Hx). exists (with_p_state RUNNING x).
  destruct (cpu_range t0 t b Henv b ltac:(by left)) as (_ & _ & _ & C0 & C1).
  split_and!; [apply list_lookup_insert_eq; by apply lookup_lt_Some in Hx|done|apply FP|apply FP|done|]. cbn.
  rewrite (fp_kstack _ _ _ _ FP). apply (task_segment_ok (cpu_at b)); [done|lia..].
Qed.


End System.

Module SystemExample.
Import Memide KallocExample KvmExample IdeExample MpExample BootExample InodeExample MkfsExample FsBootExample.

Lemma main_boots_witness :
  wp (main Ide_c) (λ _ s', (∃ stacks, booted tables 0 disk0 0x80109000 stacks s') ∧
    wp (acquire L_ptable;; scheduler_from 0) (λ o k, o = Some 0%nat ∧ ∃ x, ks_procs k !! 0%nat = Some x ∧
      p_state x = RUNNING ∧ p_pid x = 1 ∧ cx_eip (p_context x) = ld_forkret ∧ ms_cr3 (ks_misc k) = v2p (p_pgdir x) ∧
      trap_stack (ms_cpu (ks_misc k)) = Some (p_kstack x + KSTACKSIZE)) (mc_k s')) (machine0 disk0).
Proof. apply (main_boots MpExample.start tables 0 env_example Ide_c disk0 (machine0 disk0) (loaded0 disk0) disk0_ok I). Defined.

(** The kernel with memide.c and the image that [mkfs] made. *)
Definition linked (m : fsimg) : driver := Memide_c (concat (fi_disk m)).


End SystemExample.
