(* ===== verification/User.v ===== *)
(** * User: the environment of user programs, and their library (ulib.c, printf.c)

    A user program acts on the world by system calls.  Its state is the list
    of the calls it has made, the last one first; what a call returns is
    decided by the operating system, a parameter ([Os]) that sees the calls
    made so far.  A program that calls [exit] ends: [Sleep] with the calls it
    made.  Its own memory is passed around explicitly. *)

From S2P Require Import Prelude Bytes CString Print.

(** ** System calls (user.h) *)

Inductive call :=
| Write (fd : Z) (data : list Z)
| Read (fd n : Z)
| Open (path : list Z) (mode : Z)
| Close (fd : Z)
| Fstat (fd : Z)
| Fork
| Wait
| Wait2
| Getpid
| Exec (path : list Z) (argv : list (list Z))
| Dup (fd : Z)
| Pipe
| Chdir (path : list Z)
| Sbrk (n : Z)
| Mkdir (path : list Z)
| Mknod (path : list Z) (major minor : Z)
| Unlink (path : list Z)
| Link (old new : list Z)
| Kill (pid : Z)
| SleepTicks (n : Z)
| Getcwd (n : Z)
| Ps
| Exit.

#[export] Instance call_eq_dec : EqDecision call.
Proof. solve_decision. Defined.

(** The answers of the operating system: the value a call returns, and the
    bytes or words it stores. *)
Class Os := {
  os_int : list call → call → Z;
  os_data : list call → call → list Z;
}.

(** A read returns an error, or as many bytes as it stores, and not more than
    were asked for. *)
Class OsSpec `{Os} : Prop := {
  os_read tr fd n : 0 ≤ os_int tr (Read fd n) →
    Z.of_nat (length (os_data tr (Read fd n))) = os_int tr (Read fd n) ∧
    os_int tr (Read fd n) ≤ Z.max 0 n;
  os_bytes tr fd n : bytes_ok (os_data tr (Read fd n));
}.

Abbreviation U := (M (list call)).

(** An operating system whose reads return the given chunks, one a call, and
    then the end of the input; every other call succeeds with 0. *)
Definition reads (tr : list call) : nat :=
  foldr (λ c n, match c with Read _ _ => S n | _ => n end) 0%nat tr.

Definition chunk_os (chunks : list (list Z)) : Os := {|
  os_int tr c := match c with
    | Read _ _ => Z.of_nat (length (default [] (chunks !! reads tr))) | _ => 0 end;
  os_data tr c := match c with Read _ _ => default [] (chunks !! reads tr) | _ => [] end;
|}.

Section Calls.
Context `{Os}.

Definition sys (c : call) : U Z := λ tr, Ok (os_int tr c) (c :: tr).

(** The value returned, and the bytes stored. *)
Definition read (fd n : Z) : U (Z * list Z) := λ tr,
  Ok (os_int tr (Read fd n), os_data tr (Read fd n)) (Read fd n :: tr).

(** The value returned, and the [struct stat] stored. *)
Definition fstat (fd : Z) : U (Z * list Z) := λ tr,
  Ok (os_int tr (Fstat fd), os_data tr (Fstat fd)) (Fstat fd :: tr).

Definition write (fd : Z) (data : list Z) : U () := sys (Write fd data);; mret ().
Definition exit {A} : U A := λ tr, Sleep (Exit :: tr).

End Calls.

(** ** ulib.c

    A string that is only read is the memory from its address on; [None] is an
    access beyond it. *)

Fixpoint strcpy (m : list Z) (s : nat) (t : list Z) : option (list Z) :=
  match t with
  | [] => None
  | c :: t' => m' ← store m s c; if c =? 0 then Some m' else strcpy m' (S s) t'
  end.

Fixpoint strcmp (p q : list Z) : option Z :=
  match p, q with
  | a :: p', b :: q' => if negb (a =? 0) && (a =? b) then strcmp p' q' else Some (u8 a - u8 b)
  | _, _ => None
  end.

(** The index of the first occurrence of [c] in the string [s]: [Some None] is
    the null pointer. *)
Fixpoint strchr (s : list Z) (c : Z) : option (option nat) :=
  match s with
  | [] => None
  | x :: s' =>
      if x =? 0 then Some None else
      if x =? c then Some (Some 0%nat) else
      option_map (option_map S) (strchr s' c)
  end.

Fixpoint atoi_loop (n : Z) (s : list Z) : option Z :=
  match s with
  | [] => None
  | c :: s' => if (48 <=? c) && (c <=? 57) then atoi_loop (s32 (n * 10 + c - 48)) s' else Some n
  end.

Definition atoi (s : list Z) : option Z := atoi_loop 0 s.

(** The user library's [memmove] copies upwards only. *)
Definition ulib_memmove (m : list Z) (dst src n : nat) : option (list Z) := copy_up m dst src n.

(** A line feed in a string constant. *)
Definition nl : string := String (Ascii.ascii_of_nat 10) EmptyString.

Section Library.
Context `{Os}.

(** The loop of [gets]: what is stored in [buf] before the NUL. *)
Fixpoint ugets_loop (n : nat) : U (list Z) :=
  match n with
  | O => mret []
  | S n' =>
      r ← read 0 1;
      if r.1 <? 1 then mret [] else
      c ← the (head r.2);
      if (c =? 10) || (c =? 13) then mret [c] else
      l ← ugets_loop n'; mret (c :: l)
  end.

(** [gets(buf, max)] stores the bytes and a NUL. *)
Definition ugets (max : Z) : U (list Z) :=
  l ← ugets_loop (Z.to_nat (max - 1)); mret (l ++ [0]).

Definition stat (n : list Z) : U (Z * list Z) :=
  fd ← sys (Open n 0);
  if fd <? 0 then mret (-1, []) else
  r ← fstat fd;
  sys (Close fd);;
  mret r.

(** ** printf.c *)

Definition putc (fd c : Z) : U () := write fd [u8 c].

Fixpoint puts (fd : Z) (l : list Z) : U () :=
  match l with [] => mret () | c :: l' => putc fd c;; puts fd l' end.

(** [digits[x % base]], upper case. *)
Definition udigit (d : Z) : Z := if d <? 10 then 48 + d else 65 + (d - 10).

Fixpoint udigits (x base : Z) (fuel : nat) : list Z :=
  match fuel with
  | O => []
  | S fuel' => udigit (x mod base) :: (if x / base =? 0 then [] else udigits (x / base) base fuel')
  end.

(** What [printint] prints; a number of 32 bits has at most 32 digits. *)
Definition uprintint_chars (xx base : Z) (sgn : bool) : list Z :=
  let neg := sgn && (xx <? 0) in
  let x := if neg then u32 (- xx) else u32 xx in
  reverse (udigits x base 32 ++ (if neg then [45] else [])).

Definition uprintint (fd xx base : Z) (sgn : bool) : U () := puts fd (uprintint_chars xx base sgn).

(** One conversion; the arguments that remain. *)
Definition uconversion (fd c : Z) (args : list arg) : U (list arg) :=
  if c =? 100 then
    match args with AInt v :: a => uprintint fd (s32 v) 10 true;; mret a | _ => fault end
  else if (c =? 120) || (c =? 112) then
    match args with AInt v :: a => uprintint fd (s32 v) 16 false;; mret a | _ => fault end
  else if c =? 115 then
    match args with
    | AStr (Some s) :: a => puts fd s;; mret a
    | AStr None :: a => puts fd (chars "(null)");; mret a
    | _ => fault
    end
  else if c =? 99 then
    match args with AInt v :: a => putc fd v;; mret a | _ => fault end
  else if c =? 37 then putc fd c;; mret args
  else putc fd 37;; putc fd c;; mret args.

(** The loop; [state] says that a percent sign came before. *)
Fixpoint printf_loop (fd : Z) (state : bool) (fmt : list Z) (args : list arg) : U () :=
  match fmt with
  | [] => mret ()
  | c :: fmt' =>
      if negb state then
        if c =? 37 then printf_loop fd true fmt' args
        else putc fd c;; printf_loop fd false fmt' args
      else a ← uconversion fd c args; printf_loop fd false fmt' a
  end.

Definition printf (fd : Z) (fmt : string) (args : list arg) : U () :=
  printf_loop fd false (chars fmt) args.

End Library.

(** ** What is written *)

(** The bytes the calls wrote to [fd], oldest first. *)
Fixpoint output (fd : Z) (tr : list call) : list Z :=
  match tr with
  | [] => []
  | Write fd' l :: tr' => output fd tr' ++ (if fd' =? fd then l else [])
  | _ :: tr' => output fd tr'
  end.

(** The calls that were added only write to [fd], and write [out]. *)
Definition writes (fd : Z) (out : list Z) (tr tr' : list call) : Prop :=
  ∃ l, tr' = reverse (Write fd <$> l) ++ tr ∧ concat l = out.

Lemma writes_nil fd tr : writes fd [] tr tr.
Proof. by exists []. Qed.

Lemma writes_app fd o1 o2 t1 t2 t3 : writes fd o1 t1 t2 → writes fd o2 t2 t3 → writes fd (o1 ++ o2) t1 t3.
Proof.
  intros (l1 & -> & <-) (l2 & -> & <-). exists (l1 ++ l2).
  rewrite fmap_app, reverse_app, <-app_assoc, concat_app. done.
Qed.

Lemma output_app fd t1 t2 : output fd (t1 ++ t2) = output fd t2 ++ output fd t1.
Proof.
  induction t1 as [|c t1 IH]; simpl; [by rewrite app_nil_r|]. destruct c; rewrite IH, ?app_assoc; done.
Qed.

Lemma writes_output fd out tr tr' : writes fd out tr tr' → output fd tr' = output fd tr ++ out.
Proof.
  intros (l & -> & <-). rewrite output_app. f_equal. induction l as [|x l IH]; [done|].
  rewrite fmap_cons, reverse_cons, output_app, IH. simpl. by rewrite Z.eqb_refl.
Qed.

Section Written.
Context `{Os}.

Lemma wp_write fd l (Q : () → list call → Prop) tr : Q () (Write fd l :: tr) → wp (write fd l) Q tr.
Proof. exact id. Qed.

Lemma write_writes fd l tr : writes fd l tr (Write fd l :: tr).
Proof. exists [l]. split; [done|]. simpl. apply app_nil_r. Qed.

Lemma putc_spec fd c tr : wp (putc fd c) (λ _ tr', writes fd [u8 c] tr tr') tr.
Proof. apply wp_write, write_writes. Qed.

Lemma puts_spec fd l tr : wp (puts fd l) (λ _ tr', writes fd (u8 <$> l) tr tr') tr.
Proof.
  revert tr. induction l as [|c l IH]; intros tr; simpl; [apply writes_nil|].
  wp_call (putc_spec fd c). intros [] t1 W1. eapply wp_mono; [apply IH|]. intros [] t2 W2.
  by eapply (writes_app fd [u8 c]).
Qed.

(** What a conversion prints, and the arguments that remain. *)
Definition uconv_chars (c : Z) (args : list arg) : option (list Z * list arg) :=
  if c =? 100 then
    match args with AInt v :: a => Some (uprintint_chars (s32 v) 10 true, a) | _ => None end
  else if (c =? 120) || (c =? 112) then
    match args with AInt v :: a => Some (uprintint_chars (s32 v) 16 false, a) | _ => None end
  else if c =? 115 then
    match args with
    | AStr (Some s) :: a => Some (s, a)
    | AStr None :: a => Some (chars "(null)", a)
    | _ => None
    end
  else if c =? 99 then
    match args with AInt v :: a => Some ([v], a) | _ => None end
  else if c =? 37 then Some ([c], args)
  else Some ([37; c], args).

(** What [printf] prints, if the arguments fit the format. *)
Fixpoint rendered (state : bool) (fmt : list Z) (args : list arg) : option (list Z) :=
  match fmt with
  | [] => Some []
  | c :: fmt' =>
      if negb state then
        if c =? 37 then rendered true fmt' args
        else option_map (cons c) (rendered false fmt' args)
      else
        match uconv_chars c args with
        | Some (l, a) => option_map (app l) (rendered false fmt' a)
        | None => None
        end
  end.

Lemma uconversion_spec fd c args l a tr : uconv_chars c args = Some (l, a) →
  wp (uconversion fd c args) (λ a' tr', a' = a ∧ writes fd (u8 <$> l) tr tr') tr.
Proof.
  intros E. unfold uconv_chars in E. unfold uconversion, uprintint.
  repeat case_match; simplify_eq;
    try (wp_call (puts_spec fd); intros [] t W; wp_steps; by split);
    try (wp_call (putc_spec fd); intros [] t W; wp_steps; by split).
  wp_call (putc_spec fd). intros [] t W. wp_call (putc_spec fd). intros [] t' W'. wp_steps.
  split; [done|]. by eapply (writes_app fd [_] [_]).
Qed.

Lemma printf_loop_spec fd state fmt args out tr : rendered state fmt args = Some out →
  wp (printf_loop fd state fmt args) (λ _ tr', writes fd (u8 <$> out) tr tr') tr.
Proof.
  revert state args out tr. induction fmt as [|c fmt IH]; intros state args out tr E; simpl in *.
  { simplify_eq. apply writes_nil. }
  destruct (negb state).
  - destruct (c =? 37); [by apply IH|]. destruct (rendered false fmt args) as [o|] eqn:R; simplify_eq/=.
    wp_call (putc_spec fd). intros [] t W. eapply wp_mono; [by apply IH|]. intros [] t' W'.
    by eapply (writes_app fd [_]).
  - destruct (uconv_chars c args) as [[l a]|] eqn:Ec; [|done].
    destruct (rendered false fmt a) as [o|] eqn:R; simplify_eq/=.
    wp_call (uconversion_spec fd _ _ _ _ _ Ec). intros a' t [-> W].
    eapply wp_mono; [by apply IH|]. intros [] t' W'. rewrite fmap_app. by eapply writes_app.
Qed.

Lemma printf_spec fd fmt args out tr : rendered false (chars fmt) args = Some out →
  wp (printf fd fmt args) (λ _ tr', writes fd (u8 <$> out) tr tr') tr.
Proof. apply printf_loop_spec. Qed.

End Written.

(** ** Numbers: [atoi] reads what [printf] prints *)

Lemma udigits_digits x fuel : 0 ≤ x → udigits x 10 fuel = digits x 10 fuel.
Proof.
  revert x. induction fuel as [|fuel IH]; intros x Hx; [done|]. simpl.
  pose proof (Z.mod_pos_bound x 10 ltac:(lia)). unfold udigit, digit.
  rewrite (proj2 (Z.ltb_lt (x mod 10) 10)) by lia. case_match; [done|].
  rewrite IH; [done|]. apply Z.div_pos; lia.
Qed.

Lemma digits_decimal x fuel : 0 ≤ x → Forall (λ c, 48 ≤ c ≤ 57) (digits x 10 fuel).
Proof.
  revert x. induction fuel as [|fuel IH]; intros x Hx; [constructor|]. simpl.
  pose proof (Z.mod_pos_bound x 10 ltac:(lia)). constructor.
  - unfold digit. rewrite (proj2 (Z.ltb_lt (x mod 10) 10)); lia.
  - case_match; [constructor|]. apply IH, Z.div_pos; lia.
Qed.

Definition decimal (n : Z) (l : list Z) : Z := foldl (λ n c, n * 10 + (c - 48)) n l.

Lemma decimal_ge n l : 0 ≤ n → Forall (λ c, 48 ≤ c ≤ 57) l → n ≤ decimal n l.
Proof.
  intros Hn Hl. revert n Hn. induction Hl as [|c l Hc _ IH]; intros n Hn; [done|].
  simpl. specialize (IH (n * 10 + (c - 48)) ltac:(lia)). simpl in *. unfold decimal in *. lia.
Qed.

Lemma atoi_loop_decimal n l c tl :
  0 ≤ n → Forall (λ c, 48 ≤ c ≤ 57) l → decimal n l < 2 ^ 31 → ¬ 48 ≤ c ≤ 57 →
  atoi_loop n (l ++ c :: tl) = Some (decimal n l).
Proof.
  intros Hn Hl. revert n Hn. induction Hl as [|d l Hd Hl IH]; intros n Hn Hb Hc; simpl.
  - by rewrite (proj2 (andb_false_iff (48 <=? c) (c <=? 57))) by lia.
  - rewrite (proj2 (andb_true_iff (48 <=? d) (d <=? 57))) by lia.
    pose proof (decimal_ge (n * 10 + (d - 48)) l ltac:(lia) Hl). simpl in Hb.
    rewrite s32_small; [|unfold decimal in *; lia].
    replace (n * 10 + d - 48) with (n * 10 + (d - 48)) by lia. apply IH; [lia|done..].
Qed.

Lemma decimal_number l : Forall (λ c, 48 ≤ c ≤ 57) l → decimal 0 l = number 10 l.
Proof.
  unfold decimal, number. generalize 0. intros n Hl. revert n.
  induction Hl as [|c l Hc _ IH]; intros n; [done|]. simpl. rewrite IH. unfold digit_val.
  by rewrite (proj2 (Z.ltb_lt c 58)) by lia.
Qed.

(** [atoi] reads back a number that is not negative from the characters
    [printf] prints for it, whatever follows their NUL. *)
Theorem atoi_printint n tl :
  0 ≤ n < 2 ^ 31 → atoi (uprintint_chars n 10 true ++ 0 :: tl) = Some n.
Proof.
  intros Hn. unfold uprintint_chars. rewrite (proj2 (Z.ltb_ge n 0)) by lia. cbn [andb].
  rewrite u32_small, app_nil_r, udigits_digits by lia. unfold atoi.
  pose proof (digits_decimal n 32 ltac:(lia)) as Hd. apply Forall_reverse in Hd.
  assert (decimal 0 (reverse (digits n 10 32)) = n) as E.
  { rewrite decimal_number by done. apply number_digits; [lia|]. split; [lia|]. apply Z.lt_trans with (2 ^ 31); [lia|done]. }
  rewrite atoi_loop_decimal; [by rewrite E|lia|done|lia|lia].
Qed.

Lemma atoi_printint_witness :
  atoi (uprintint_chars 2147483647 10 true ++ [0]) = Some 2147483647.
Proof. apply (atoi_printint 2147483647 []). lia. Defined.

(** ** Input *)

(** The reads of [n] bytes from [fd] that follow the calls [tr0] return the
    chunks, one each, and then [e]. *)
Definition feeds `{Os} (fd n : Z) (tr0 : list call) (chunks : list (list Z)) (e : Z) : Prop :=
  ∀ tr k, reads tr = (reads tr0 + k)%nat →
    os_int tr (Read fd n) = match chunks !! k with Some d => Z.of_nat (length d) | None => e end ∧
    os_data tr (Read fd n) = default [] (chunks !! k).

Lemma feeds_chunk_os fd n chunks : feeds (H := chunk_os chunks) fd n [] chunks 0.
Proof. intros tr k E. simpl in E. simpl. rewrite E. by destruct (chunks !! k). Qed.

Lemma writes_reads fd out tr tr' : writes fd out tr tr' → reads tr' = reads tr.
Proof.
  intros (l & -> & _). unfold reads. rewrite foldr_app. induction l as [|x l IH] using rev_ind; [done|].
  by rewrite fmap_app, reverse_app.
Qed.

Section Feeds.
Context `{Os}.

Lemma feeds_head fd n tr0 tr d chunks e : feeds fd n tr0 (d :: chunks) e → reads tr = reads tr0 →
  runs_to (read fd n) tr (Z.of_nat (length d), d) (Read fd n :: tr).
Proof.
  intros F E. destruct (F tr 0%nat) as [E1 E2]; [lia|]. unfold runs_to, read. by rewrite E1, E2.
Qed.

Lemma feeds_end fd n tr0 tr e : feeds fd n tr0 [] e → reads tr = reads tr0 →
  runs_to (read fd n) tr (e, []) (Read fd n :: tr).
Proof.
  intros F E. destruct (F tr 0%nat) as [E1 E2]; [lia|]. unfold runs_to, read. by rewrite E1, E2.
Qed.

Lemma feeds_tail fd n tr0 d chunks e : feeds fd n tr0 (d :: chunks) e → feeds fd n (Read fd n :: tr0) chunks e.
Proof. intros F tr k E. apply (F tr (S k)). simpl in E. lia. Qed.

Lemma feeds_eq fd n tr0 tr1 chunks e : feeds fd n tr0 chunks e → reads tr1 = reads tr0 → feeds fd n tr1 chunks e.
Proof. intros F E tr k Ek. apply F. lia. Qed.

End Feeds.
