(* ===== verification/Umalloc.v ===== *)
(** * Umalloc: the memory allocator of user programs (umalloc.c)

    The free blocks form a ring, in the order of their addresses, that starts
    at the static header [base], whose size is 0.  The memory holds the
    headers; an address outside [base] and the heap has none, and its access
    faults.  The invariant ([inv]) is that the ring is sorted, that its blocks
    lie in the heap and that no two of them touch. *)

From S2P Require Import Prelude User.

(** ** State *)

Record header := { ptr : Z; size : Z }.

Record heap := {
  hp_mem : gmap Z header;
  hp_freep : Z;
  hp_brk : Z;
  hp_tr : list call;
}.

Definition set_headers m s := {| hp_mem := m; hp_freep := hp_freep s; hp_brk := hp_brk s; hp_tr := hp_tr s |}.
Definition set_freep p s := {| hp_mem := hp_mem s; hp_freep := p; hp_brk := hp_brk s; hp_tr := hp_tr s |}.

(** [sizeof(Header)] *)
Abbreviation HDR := 8.

(** The address [n] headers after [p]. *)
Definition hplus (p n : Z) : Z := u32 (p + HDR * n).

Section Malloc.
Context `{Os} (base lo : Z).

Definition mapped (s : heap) (a : Z) : bool :=
  (a =? base) || ((lo <=? a) && (a + HDR <=? hp_brk s)).

(** A header that was never written is zero. *)
Definition header_at (s : heap) (a : Z) : header := default {| ptr := 0; size := 0 |} (hp_mem s !! a).

Definition load_hdr (a : Z) : M heap header := λ s,
  if mapped s a then Ok (header_at s a) s else Fault.

Definition store_hdr (a : Z) (h : header) : M heap () := λ s,
  if mapped s a then Ok () (set_headers (<[a:=h]> (hp_mem s)) s) else Fault.

Definition store_ptr (a p : Z) : M heap () :=
  h ← load_hdr a; store_hdr a {| ptr := p; size := size h |}.

Definition store_size (a n : Z) : M heap () :=
  h ← load_hdr a; store_hdr a {| ptr := ptr h; size := u32 n |}.

(** ** free *)

(** The exit of the search loop: the block lies between [p] and the next one,
    or beyond either end of the ring. *)
Definition fits (bp p nxt : Z) : bool :=
  ((p <? bp) && (bp <? nxt)) || ((nxt <=? p) && ((p <? bp) || (bp <? nxt))).

Fixpoint free_search (fuel : nat) (bp p : Z) : M heap Z :=
  match fuel with
  | O => fault
  | S fuel' =>
      h ← load_hdr p;
      if fits bp p (ptr h) then mret p else free_search fuel' bp (ptr h)
  end.

(** The block is joined to the one after it, whose header is at [p]'s pointer. *)
Definition free_up (bp p : Z) : M heap () :=
  hb ← load_hdr bp;
  hp ← load_hdr p;
  if hplus bp (size hb) =? ptr hp then
    hn ← load_hdr (ptr hp);
    store_size bp (size hb + size hn);;
    hp ← load_hdr p;
    hn ← load_hdr (ptr hp);
    store_ptr bp (ptr hn)
  else store_ptr bp (ptr hp).

(** The block is joined to the one before it. *)
Definition free_down (bp p : Z) : M heap () :=
  hp ← load_hdr p;
  if hplus p (size hp) =? bp then
    hb ← load_hdr bp;
    store_size p (size hp + size hb);;
    hb ← load_hdr bp;
    store_ptr p (ptr hb)
  else store_ptr p bp.

(** The search passes every block at most once: [fuel] turns are enough for a
    ring of that many. *)
Definition free (fuel : nat) (ap : Z) : M heap () :=
  let bp := u32 (ap - HDR) in
  freep ← gets hp_freep;
  p ← free_search fuel bp freep;
  free_up bp p;;
  free_down bp p;;
  modify (set_freep p).

(** ** malloc *)

(** [sbrk]: the old break, or -1. *)
Definition sbrk (n : Z) : M heap Z := λ s,
  let r := os_int (hp_tr s) (Sbrk n) in
  Ok (u32 r) {| hp_mem := hp_mem s; hp_freep := hp_freep s;
                hp_brk := if r =? -1 then hp_brk s else hp_brk s + n; hp_tr := Sbrk n :: hp_tr s |}.

Definition morecore (fuel : nat) (nu : Z) : M heap Z :=
  let nu := if nu <? 4096 then 4096 else nu in
  p ← sbrk (s32 (nu * HDR));
  if p =? u32 (-1) then mret 0 else
  store_size p nu;;
  free fuel (hplus p 1);;
  gets hp_freep.

(** The loop: [prevp] and [p]; at most [fuel] turns. *)
Fixpoint malloc_loop (fuel : nat) (nunits prevp p : Z) : M heap Z :=
  match fuel with
  | O => fault
  | S fuel' =>
      h ← load_hdr p;
      if nunits <=? size h then
        p ← (if size h =? nunits then store_ptr prevp (ptr h);; mret p
             else
               store_size p (size h - nunits);;
               let p := hplus p (size h - nunits) in
               store_size p nunits;;
               mret p);
        modify (set_freep prevp);;
        mret (hplus p 1)
      else
        freep ← gets hp_freep;
        if p =? freep then
          p ← morecore fuel' nunits;
          if p =? 0 then mret 0 else
          h ← load_hdr p;
          malloc_loop fuel' nunits p (ptr h)
        else malloc_loop fuel' nunits p (ptr h)
  end.

Definition malloc (fuel : nat) (nbytes : Z) : M heap Z :=
  let nunits := u32 (u32 (nbytes + HDR - 1) / HDR + 1) in
  freep ← gets hp_freep;
  prevp ← (if freep =? 0 then
             store_ptr base base;; modify (set_freep base);; store_size base 0;; mret base
           else mret freep);
  h ← load_hdr prevp;
  malloc_loop fuel nunits prevp (ptr h).

End Malloc.

(** ** The ring *)

(** A free block: its address, and its size in headers. *)
Abbreviation block := (Z * Z)%type.

Definition hd_addr (l : list block) (e : Z) : Z := match l with [] => e | b :: _ => b.1 end.

(** The headers link the blocks of the list, and the last one to [e]. *)
Fixpoint links (m : gmap Z header) (l : list block) (e : Z) : Prop :=
  match l with
  | [] => True
  | b :: l' => m !! b.1 = Some {| ptr := hd_addr l' e; size := b.2 |} ∧ links m l' e
  end.

Definition bend (b : block) : Z := b.1 + HDR * b.2.

(** The block ends below the other one. *)
Definition before (x y : block) : Prop := bend x < y.1.

(** The bytes of the blocks. *)
Definition covered (l : list block) (c : Z) : Prop := ∃ b, b ∈ l ∧ b.1 ≤ c < bend b.

(** The block put in front of the blocks above it, one with the first of them
    if they touch. *)
Definition join (b : block) (l : list block) : list block :=
  match l with
  | [] => [b]
  | q :: l' => if bend b =? q.1 then (b.1, b.2 + q.2) :: l' else b :: l
  end.

Lemma links_app m l1 l2 e : links m (l1 ++ l2) e ↔ links m l1 (hd_addr l2 e) ∧ links m l2 e.
Proof.
  induction l1 as [|b l1 IH]; simpl; [naive_solver|]. rewrite IH.
  assert (hd_addr (l1 ++ l2) e = hd_addr l1 (hd_addr l2 e)) as -> by (by destruct l1). naive_solver.
Qed.

Lemma chain_insert m l e a h : a ∉ l.*1 → links m l e → links (<[a:=h]> m) l e.
Proof.
  induction l as [|b l IH]; [done|]. rewrite fmap_cons, not_elem_of_cons. intros [Ha Hl] [Hb Hc].
  split; [|auto]. by rewrite lookup_insert_ne by done.
Qed.

Lemma chain_elem m l e b : links m l e → b ∈ l → ∃ p, m !! b.1 = Some {| ptr := p; size := b.2 |}.
Proof. induction l as [|x l IH]; set_solver. Qed.

(** What [free_up] and [free_down] store in the header of the block. *)
Definition join_hdr (b : block) (l : list block) (e : Z) : header :=
  match l with
  | [] => {| ptr := e; size := b.2 |}
  | q :: l' => if bend b =? q.1 then {| ptr := hd_addr l' e; size := b.2 + q.2 |}
               else {| ptr := q.1; size := b.2 |}
  end.

Lemma chain_join m b l e :
  b.1 ∉ l.*1 → links m l e → links (<[b.1:=join_hdr b l e]> m) (join b l) e.
Proof.
  intros Hb Hc. destruct l as [|q l]; simpl.
  - by rewrite lookup_insert_eq.
  - destruct Hc as [Hq Hc]. rewrite fmap_cons, not_elem_of_cons in Hb. destruct Hb as [Hbq Hb].
    destruct (bend b =? q.1); simpl; rewrite lookup_insert_eq; split_and!; try done.
    + by apply chain_insert.
    + by rewrite lookup_insert_ne by done.
    + by apply chain_insert.
Qed.

(** The blocks of [l] lie above [b], in order. *)
Definition above (b : block) (l : list block) : Prop :=
  0 ≤ b.2 ∧ StronglySorted before l ∧ Forall (λ x, 0 ≤ x.2 ∧ bend b ≤ x.1) l.

Lemma join_sorted b l : above b l → StronglySorted before (join b l).
Proof.
  intros (Hb & Hs & Hl). destruct l as [|q l]; simpl; [repeat constructor|].
  apply StronglySorted_inv in Hs as [Hs Hq]. apply Forall_cons in Hl as [[Hq0 Hbq] Hl].
  destruct (Z.eqb_spec (bend b) q.1) as [E|E].
  - constructor; [done|]. eapply Forall_impl; [exact Hq|]. unfold before, bend in *. simpl. lia.
  - constructor; [by constructor|]. constructor; [unfold before; lia|].
    eapply Forall_impl; [exact Hq|]. unfold before, bend in *. lia.
Qed.

Lemma join_ge b l x : above b l → x ∈ join b l → b.1 ≤ x.1 ∧ 0 ≤ x.2.
Proof.
  intros (Hb & Hs & Hl) Hx. rewrite Forall_forall in Hl. unfold bend in *. destruct l as [|q l]; simpl in Hx.
  - apply list_elem_of_singleton in Hx as ->. lia.
  - destruct (_ =? _); [|apply elem_of_cons in Hx as [->|Hx]; [lia|specialize (Hl x Hx); lia]].
    apply elem_of_cons in Hx as [->|Hx]; simpl.
    + specialize (Hl q ltac:(by left)). lia.
    + specialize (Hl x ltac:(by right)). lia.
Qed.

Lemma join_has b l : Forall (λ x, 0 ≤ x.2) l → ∃ x, x ∈ join b l ∧ b.2 ≤ x.2.
Proof.
  intros Hl. destruct l as [|q l]; simpl; [exists b; split; [by left|lia]|].
  apply Forall_cons in Hl as [Hq _].
  destruct (_ =? _); [exists (b.1, b.2 + q.2)|exists b]; (split; [by left|simpl; lia]).
Qed.

Lemma covered_cons b l c : covered (b :: l) c ↔ b.1 ≤ c < bend b ∨ covered l c.
Proof. unfold covered. setoid_rewrite elem_of_cons. naive_solver. Qed.

Lemma covered_app l1 l2 c : covered (l1 ++ l2) c ↔ covered l1 c ∨ covered l2 c.
Proof. unfold covered. setoid_rewrite elem_of_app. naive_solver. Qed.

Lemma join_covered b l c : above b l → covered (join b l) c ↔ b.1 ≤ c < bend b ∨ covered l c.
Proof.
  intros (Hb & Hs & Hl). destruct l as [|q l]; simpl; [by rewrite covered_cons|].
  apply Forall_cons in Hl as [[Hq0 Hbq] Hl].
  destruct (Z.eqb_spec (bend b) q.1) as [E|E]; rewrite !covered_cons; [|done].
  unfold bend in *. simpl.
  assert (b.1 ≤ c < b.1 + 8 * (b.2 + q.2) ↔ b.1 ≤ c < b.1 + 8 * b.2 ∨ q.1 ≤ c < q.1 + 8 * q.2) by lia.
  tauto.
Qed.

(** ** free *)

Section Free.
Context `{Os} (base lo : Z).
Hypothesis base_pos : 0 < base.
Hypothesis base_lo : base + HDR ≤ lo.
#[local] Set Default Proof Using "All".

(** A block of the heap. *)
Definition in_heap (s : heap) (b : block) : Prop := lo ≤ b.1 ∧ 0 < b.2 ∧ bend b ≤ hp_brk s.

(** The free blocks, in the order of their addresses. *)
Record ring_ok (s : heap) (bs : list block) : Prop := {
  rg_chain : links (hp_mem s) ((base, 0) :: bs) base;
  rg_sorted : StronglySorted before ((base, 0) :: bs);
  rg_heap : Forall (in_heap s) bs;
  rg_freep : hp_freep s ∈ ((base, 0) :: bs).*1;
  rg_brk : lo ≤ hp_brk s < 2 ^ 32;
}.

Lemma wp_load_hdr a h (Q : header → heap → Prop) s :
  mapped base lo s a = true → hp_mem s !! a = Some h → Q h s → wp (load_hdr base lo a) Q s.
Proof. intros Hm Ha HQ. unfold wp, load_hdr, header_at. by rewrite Hm, Ha. Qed.

Lemma wp_store_ptr a h p (Q : () → heap → Prop) s :
  mapped base lo s a = true → hp_mem s !! a = Some h →
  Q () (set_headers (<[a:={| ptr := p; size := size h |}]> (hp_mem s)) s) → wp (store_ptr base lo a p) Q s.
Proof.
  intros Hm Ha HQ. unfold store_ptr. apply wp_bind. eapply wp_load_hdr; [done..|].
  unfold wp, store_hdr. by rewrite Hm.
Qed.

Lemma wp_store_size a h n (Q : () → heap → Prop) s :
  mapped base lo s a = true → header_at s a = h →
  Q () (set_headers (<[a:={| ptr := ptr h; size := u32 n |}]> (hp_mem s)) s) → wp (store_size base lo a n) Q s.
Proof.
  intros Hm Ha HQ. unfold store_size, wp, load_hdr, mbind, M_bind, store_hdr. by rewrite Hm, Ha, Hm.
Qed.

Lemma mapped_heap s b : in_heap s b → mapped base lo s b.1 = true.
Proof.
  intros (? & ? & ?). unfold mapped, bend in *.
  rewrite (proj2 (Z.leb_le lo b.1)), (proj2 (Z.leb_le _ (hp_brk s))) by lia. apply orb_true_r.
Qed.

Lemma mapped_base s : mapped base lo s base = true.
Proof. unfold mapped. by rewrite Z.eqb_refl. Qed.

Lemma ring_mapped s bs b : ring_ok s bs → b ∈ (base, 0) :: bs → mapped base lo s b.1 = true.
Proof.
  intros R Hb. apply elem_of_cons in Hb as [->|Hb]; [apply mapped_base|].
  apply mapped_heap. destruct R as [_ _ Hh _ _]. rewrite Forall_forall in Hh. auto.
Qed.

(** *** The search *)

Fixpoint passes (bp : Z) (l : list block) (e : Z) : Prop :=
  match l with [] => True | b :: l' => fits bp b.1 (hd_addr l' e) = false ∧ passes bp l' e end.

Lemma free_search_passes bp l e fuel s :
  links (hp_mem s) l e → Forall (λ b, mapped base lo s b.1 = true) l → passes bp l e →
  free_search base lo (length l + fuel) bp (hd_addr l e) s = free_search base lo fuel bp e s.
Proof.
  revert fuel. induction l as [|b l IH]; intros fuel Hc Hm Hp; [done|].
  destruct Hc as [Hb Hc], Hp as [Hf Hp]. apply Forall_cons in Hm as [Hmb Hm].
  cbn [length Nat.add free_search hd_addr]. unfold mbind, M_bind, load_hdr, header_at. rewrite Hmb, Hb. cbn [from_option id ptr].
  rewrite Hf. by apply IH.
Qed.

Lemma passes_below bp l e :
  StronglySorted before l → Forall (λ x, 0 ≤ x.2 ∧ bend x < e) l → e < bp → passes bp l e.
Proof.
  intros Hs Hl He. induction Hs as [|x l Hs IH Hx]; [done|]. apply Forall_cons in Hl as [[Hx0 Hxe] Hl].
  split; [|auto]. unfold fits, before, bend in *. destruct l as [|y l]; simpl.
  - rewrite (proj2 (Z.ltb_ge bp e)), (proj2 (Z.leb_gt e x.1)) by lia. by rewrite andb_false_r.
  - apply Forall_cons in Hx as [Hxy _], Hl as [[Hy0 Hye] _].
    rewrite (proj2 (Z.ltb_ge bp y.1)), (proj2 (Z.leb_gt y.1 x.1)) by lia. by rewrite andb_false_r.
Qed.

Lemma passes_above bp l :
  StronglySorted before l → Forall (λ x, 0 ≤ x.2 ∧ bp < x.1) l → base < bp → passes bp l base.
Proof.
  intros Hs Hl He. induction Hs as [|x l Hs IH Hx]; [done|]. apply Forall_cons in Hl as [[Hx0 Hxe] Hl].
  split; [|auto]. unfold fits, before, bend in *. rewrite (proj2 (Z.ltb_ge x.1 bp)) by lia. cbn [andb orb].
  destruct l as [|y l]; simpl.
  - rewrite (proj2 (Z.ltb_ge bp base)) by lia. by rewrite andb_false_r.
  - apply Forall_cons in Hx as [Hxy _]. by rewrite (proj2 (Z.leb_gt y.1 x.1)) by lia.
Qed.

Lemma free_search_stop fuel bp b l s :
  mapped base lo s b.1 = true → hp_mem s !! b.1 = Some {| ptr := hd_addr l base; size := b.2 |} →
  base ≤ b.1 < bp → Forall (λ x, bp < x.1) l →
  free_search base lo (S fuel) bp b.1 s = Ok b.1 s.
Proof.
  intros Hm Hb Hbp Hl. cbn [free_search]. unfold mbind, M_bind, load_hdr, header_at. rewrite Hm, Hb. cbn [from_option id ptr].
  assert (fits bp b.1 (hd_addr l base) = true) as ->; [|done]. unfold fits.
  rewrite (proj2 (Z.ltb_lt b.1 bp)) by lia. destruct l as [|y l]; simpl.
  - rewrite (proj2 (Z.leb_le base b.1)) by lia. apply orb_true_r.
  - apply Forall_cons in Hl as [Hy _]. by rewrite (proj2 (Z.ltb_lt bp y.1)) by lia.
Qed.

(** The ring cut where the block belongs. *)
Lemma ring_split bp n q l :
  StronglySorted before (q :: l) → bend q ≤ bp → 0 < n →
  Forall (λ x, 0 < x.2 ∧ (bend x ≤ bp ∨ bp + HDR * n ≤ x.1)) l →
  ∃ l1 p l2, q :: l = l1 ++ p :: l2 ∧ Forall (λ x, bend x ≤ bp) (l1 ++ [p]) ∧
    Forall (λ x, bp + HDR * n ≤ x.1) l2.
Proof.
  intros Hs Hq Hn Hl. revert q Hs Hq. induction l as [|b l IH]; intros q Hs Hq.
  - exists [], q, []. split; [done|]. split; [by repeat constructor|constructor].
  - apply Forall_cons in Hl as [[Hb0 [Hb|Hb]] Hl]; apply StronglySorted_inv in Hs as [Hs _].
    + destruct (IH Hl b Hs Hb) as (l1 & p & l2 & E & H1 & H2). exists (q :: l1), p, l2.
      rewrite E. split; [done|]. split; [by constructor|done].
    + exists [], q, (b :: l). split; [done|]. split; [by repeat constructor|]. constructor; [done|].
      apply StronglySorted_inv in Hs as [_ Hs]. eapply Forall_impl; [exact Hs|].
      unfold before, bend in *. lia.
Qed.

(** The cut of a ring: the blocks that end below [bp], the last of them [p],
    and the ones above. *)
Record cut (s : heap) (bs : list block) (bp n : Z) (l1 : list block) (p : block) (l2 : list block) : Prop := {
  ct_eq : (base, 0) :: bs = l1 ++ p :: l2;
  ct_bp : base < bp;
  ct_low : Forall (λ x, bend x ≤ bp) (l1 ++ [p]);
  ct_high : Forall (λ x, bp + HDR * n ≤ x.1) l2;
  ct_n : 0 < n;
}.

Lemma ring_sizes s bs : ring_ok s bs → Forall (λ x, 0 ≤ x.2 ∧ base ≤ x.1) ((base, 0) :: bs).
Proof.
  intros [_ _ Hh _ _]. constructor; [simpl; lia|]. eapply Forall_impl; [exact Hh|].
  intros x (? & ? & ?). lia.
Qed.

Lemma cut_p s bs bp n l1 p l2 : ring_ok s bs → cut s bs bp n l1 p l2 → base ≤ p.1 < bp.
Proof.
  intros R C. pose proof (ring_sizes _ _ R) as Hz. rewrite (ct_eq _ _ _ _ _ _ _ C) in Hz.
  apply Forall_app in Hz as [_ Hz]. apply Forall_cons in Hz as [[Hp Hb] _].
  pose proof (ct_low _ _ _ _ _ _ _ C) as Hl. apply Forall_app in Hl as [_ Hl]. apply Forall_cons in Hl as [Hl _].
  split; [done|]. destruct (decide (p.1 = base)) as [->|]; [apply C|].
  unfold bend in Hl.
  enough (0 < p.2) by lia.
  assert (p ∈ (base, 0) :: bs) as Hin by (rewrite (ct_eq _ _ _ _ _ _ _ C); set_solver).
  apply elem_of_cons in Hin as [->|Hin]; [done|].
  destruct R as [_ _ Hh _ _]. rewrite Forall_forall in Hh. by apply Hh.
Qed.

Lemma free_search_spec fuel s bs bp n l1 p l2 :
  ring_ok s bs → cut s bs bp n l1 p l2 → (length bs < fuel)%nat →
  free_search base lo fuel bp (hp_freep s) s = Ok p.1 s.
Proof.
  intros R C Hf. pose proof (cut_p _ _ _ _ _ _ _ R C) as Hp. pose proof (ring_sizes _ _ R) as Hz.
  assert (Forall (λ b, mapped base lo s b.1 = true) ((base, 0) :: bs)) as Hm.
  { apply Forall_forall. intros b. by apply ring_mapped. }
  destruct R as [Hc Hs _ Hfp _], C as [E Hbp Hlow Hhigh Hn].
  apply (f_equal length) in E as L. rewrite length_app in L. simpl in L.
  rewrite E in Hc, Hs, Hfp, Hz, Hm. apply links_app in Hc as [Hc1 [Hcp Hc2]].
  apply StronglySorted_app in Hs as (Hs12 & Hs1 & Hs2).
  apply StronglySorted_inv in Hs2 as [Hs2 Hsp]. apply Forall_app in Hm as [Hm1 Hm2].
  apply Forall_cons in Hm2 as [Hmp Hm2]. apply Forall_app in Hz as [Hz1 Hz2]. apply Forall_cons in Hz2 as [_ Hz2].
  assert (∀ k, free_search base lo (S k) bp p.1 s = Ok p.1 s) as Hstop.
  { intros k. eapply free_search_stop; [done..|]. eapply Forall_impl; [exact Hhigh|]. intros x Hx. simpl in Hx. lia. }
  assert (∀ l fuel, links (hp_mem s) l p.1 → l `suffix_of` l1 → (length l < fuel)%nat →
    free_search base lo fuel bp (hd_addr l p.1) s = Ok p.1 s) as Hlow1.
  { intros l k Hcl [l0 ->] Lk. replace k with (length l + S (k - S (length l)))%nat by lia.
    apply Forall_app in Hm1 as [_ Hm1], Hz1 as [_ Hz1]. apply StronglySorted_app in Hs1 as (_ & _ & Hs1).
    rewrite free_search_passes; [apply Hstop|done..|]. apply passes_below; [done| |lia].
    rewrite Forall_forall in Hz1 |- *. intros x Hx. split; [by apply Hz1|].
    apply (Hs12 x p); set_solver. }
  apply list_elem_of_fmap in Hfp as (b & -> & Hb). apply elem_of_app in Hb as [Hb|Hb].
  - apply list_elem_of_split in Hb as (k1 & k2 & ->). apply links_app in Hc1 as [_ Hc1].
    rewrite length_app in L. simpl in L.
    apply (Hlow1 (b :: k2)); [done|by exists k1|simpl; lia].
  - apply elem_of_cons in Hb as [->|Hb].
    { destruct fuel; [lia|]. apply Hstop. }
    apply list_elem_of_split in Hb as (k1 & k2 & ->). apply links_app in Hc2 as [_ Hc2].
    rewrite length_app in L. simpl in L. replace fuel with (length (b :: k2) + (fuel - length (b :: k2)))%nat
      by (simpl; lia).
    apply Forall_app in Hm2 as [_ Hm2], Hz2 as [_ Hz2], Hhigh as [_ Hhigh].
    apply StronglySorted_app in Hs2 as (_ & _ & Hs2).
    rewrite (free_search_passes bp (b :: k2) base); [|done..|].
    + assert (hd_addr l1 p.1 = base) as Eb by (destruct l1; simpl in E; by simplify_eq).
      rewrite <-Eb at 2. apply Hlow1; [done|done|simpl; lia].
    + apply passes_above; [done| |done]. rewrite Forall_forall in Hz2, Hhigh |- *. intros x Hx.
      specialize (Hz2 x Hx). specialize (Hhigh x Hx). simpl in *. lia.
Qed.

(** *** Joining *)

Lemma hplus_bend s b : 0 ≤ b.1 → 0 ≤ b.2 → bend b ≤ hp_brk s → hp_brk s < 2 ^ 32 → hplus b.1 b.2 = bend b.
Proof. intros. unfold hplus, bend in *. apply u32_small. lia. Qed.

Lemma wp_free_up bp n p l2 hb hp (Q : () → heap → Prop) s :
  base < bp → bp ≠ p → in_heap s (bp, n) → hp_brk s < 2 ^ 32 → mapped base lo s p = true →
  hp_mem s !! bp = Some hb → size hb = n → hp_mem s !! p = Some hp → ptr hp = hd_addr l2 base →
  links (hp_mem s) l2 base → Forall (in_heap s) l2 → above (bp, n) l2 →
  Q () (set_headers (<[bp:=join_hdr (bp, n) l2 base]> (hp_mem s)) s) → wp (free_up base lo bp p) Q s.
Proof.
  intros Hbp Hne Hin Hbrk Hmp Hb <- Hp Hptr Hc Hh Hab HQ. pose proof (mapped_heap s _ Hin) as Hmb.
  destruct Hin as (Hlo & Hn & He). cbn [fst snd] in *.
  unfold free_up. apply wp_bind. eapply wp_load_hdr; [done..|]. apply wp_bind. eapply wp_load_hdr; [done..|].
  change (hplus bp (size hb)) with (hplus (bp, size hb).1 (bp, size hb).2).
  rewrite (hplus_bend s (bp, size hb)), Hptr by (simpl; lia). unfold join_hdr in HQ.
  destruct l2 as [|q l2]; simpl in HQ |- *.
  { rewrite (proj2 (Z.eqb_neq _ base)) by (unfold bend; simpl; lia). by eapply wp_store_ptr. }
  destruct Hc as [Hq Hc]. apply Forall_cons in Hh as [Hhq Hh]. pose proof (mapped_heap s _ Hhq) as Hmq.
  destruct Hhq as (Hql & Hqn & Hqe). destruct Hab as (_ & _ & Hab). apply Forall_cons in Hab as [[_ Hbq] _].
  destruct (Z.eqb_spec (bend (bp, size hb)) q.1) as [E|E]; [|by eapply wp_store_ptr].
  apply wp_bind. eapply wp_load_hdr; [done..|]. apply wp_bind.
  eapply wp_store_size; [done|unfold header_at; by rewrite Hb|]. cbn [from_option id size ptr].
  assert (q.1 ≠ bp) by (unfold bend in *; simpl in *; lia).
  apply wp_bind. eapply wp_load_hdr; [done|simpl; by rewrite lookup_insert_ne|]. apply wp_bind.
  rewrite Hptr. eapply wp_load_hdr; [done|simpl; by rewrite lookup_insert_ne|].
  eapply wp_store_ptr; [done|simpl; by rewrite lookup_insert_eq|]. cbn [size ptr hp_mem set_headers].
  rewrite insert_insert_eq, u32_small; [done|]. unfold bend in *. simpl in *. lia.
Qed.

Lemma wp_free_down p b l hp (Q : () → heap → Prop) s :
  0 ≤ p.1 → b.1 ≠ p.1 → mapped base lo s p.1 = true → in_heap s b → hp_brk s < 2 ^ 32 →
  0 ≤ p.2 → bend p ≤ b.1 → hp_mem s !! p.1 = Some hp → size hp = p.2 → links (hp_mem s) (b :: l) base →
  Q () (set_headers (<[p.1:=join_hdr p (b :: l) base]> (hp_mem s)) s) → wp (free_down base lo b.1 p.1) Q s.
Proof.
  intros Hp0 Hne Hmp Hin Hbrk Hn Hpb Hp Hsz [Hb Hc] HQ. pose proof (mapped_heap s _ Hin) as Hmb.
  destruct Hin as (Hlo & Hbn & He). unfold bend in He.
  unfold free_down. apply wp_bind. eapply wp_load_hdr; [done..|].
  rewrite Hsz, (hplus_bend s p) by (unfold bend in *; lia). simpl in HQ.
  destruct (Z.eqb_spec (bend p) b.1) as [E|E]; [|eapply wp_store_ptr; [done..|]; by rewrite Hsz].
  apply wp_bind. eapply wp_load_hdr; [done..|]. apply wp_bind.
  eapply wp_store_size; [done|unfold header_at; by rewrite Hp|]. cbn [from_option id size ptr].
  apply wp_bind. eapply wp_load_hdr; [done|simpl; by rewrite lookup_insert_ne|].
  eapply wp_store_ptr; [done|simpl; by rewrite lookup_insert_eq|]. cbn [size ptr hp_mem set_headers].
  rewrite insert_insert_eq, u32_small; [done|]. unfold bend in *. lia.
Qed.

Lemma join_in_heap s b l : in_heap s b → Forall (in_heap s) l → Forall (in_heap s) (join b l).
Proof.
  intros Hb Hl. destruct l as [|q l]; [by constructor|]. simpl.
  destruct (Z.eqb_spec (bend b) q.1) as [E|E]; [|by constructor]. apply Forall_cons in Hl as [Hq Hl].
  constructor; [|done]. unfold in_heap, bend in *. simpl. lia.
Qed.

Lemma hd_addr_join b l e : hd_addr (join b l) e = b.1.
Proof. destruct l; simpl; [done|]. by case_match. Qed.

Lemma length_join b l : (length (join b l) ≤ S (length l))%nat.
Proof. destruct l; simpl; [lia|]. case_match; simpl; lia. Qed.

(** The ring with the block in it. *)
Definition joined (l1 : list block) (p : block) (l2 : list block) (b : block) : list block :=
  l1 ++ join p (join b l2).

Section Cut.
Context (s : heap) (bs : list block) (bp n : Z) (l1 : list block) (p : block) (l2 : list block).
Context (R : ring_ok s bs) (C : cut s bs bp n l1 p l2) (Hin : in_heap s (bp, n)).

Lemma cut_above_block : above (bp, n) l2.
Proof.
  pose proof (ring_sizes _ _ R) as Hz. destruct R as [_ Hs _ _ _], C as [E _ _ Hh Hn]. rewrite E in Hs, Hz.
  apply StronglySorted_app in Hs as (_ & _ & Hs). apply StronglySorted_inv in Hs as [Hs _].
  apply Forall_app in Hz as [_ Hz]. apply Forall_cons in Hz as [_ Hz].
  split; [simpl; lia|]. split; [done|]. rewrite Forall_forall in Hz, Hh |- *. intros x Hx.
  split; [by apply Hz|]. by apply Hh.
Qed.

Lemma cut_above_p : above p (join (bp, n) l2).
Proof.
  pose proof (ring_sizes _ _ R) as Hz. pose proof cut_above_block as Hab.
  destruct C as [E Hbp Hl Hh Hn]. rewrite E in Hz. apply Forall_app in Hz as [_ Hz].
  apply Forall_cons in Hz as [[Hp _] _]. apply Forall_app in Hl as [_ Hl]. apply Forall_cons in Hl as [Hl _].
  split; [done|]. split; [by apply join_sorted|]. apply Forall_forall. intros x Hx.
  apply join_ge in Hx; [|done]. simpl in *. lia.
Qed.

Lemma joined_sorted : StronglySorted before (joined l1 p l2 (bp, n)).
Proof.
  destruct R as [_ Hs _ _ _]. rewrite (ct_eq _ _ _ _ _ _ _ C) in Hs.
  apply StronglySorted_app in Hs as (H12 & H1 & _). apply StronglySorted_app_2; [|done|].
  - intros x y Hx Hy. apply join_ge in Hy; [|apply cut_above_p]. specialize (H12 x p Hx ltac:(by left)).
    unfold before, bend in *. lia.
  - apply join_sorted, cut_above_p.
Qed.

Lemma joined_covered c : covered (joined l1 p l2 (bp, n)) c ↔ covered bs c ∨ bp ≤ c < bp + HDR * n.
Proof.
  unfold joined. rewrite covered_app, (join_covered p) by apply cut_above_p.
  rewrite join_covered by apply cut_above_block.
  assert (covered bs c ↔ covered ((base, 0) :: bs) c) as ->.
  { rewrite covered_cons. unfold bend. simpl. assert (¬ base ≤ c < base + 8 * 0) by lia. tauto. }
  rewrite (ct_eq _ _ _ _ _ _ _ C), covered_app, covered_cons. unfold bend at 2. simpl. tauto.
Qed.

(** The ring still starts with [base]. *)
Lemma joined_base : ∃ bs', joined l1 p l2 (bp, n) = (base, 0) :: bs' ∧ Forall (in_heap s) bs' ∧
  (length bs' ≤ S (length bs))%nat ∧ ∃ x, x ∈ bs' ∧ n ≤ x.2.
Proof.
  pose proof cut_above_block as Hab. destruct R as [_ _ Hh _ _], C as [E Hbp Hl Hhi Hn]. unfold joined.
  assert (Forall (λ x, 0 ≤ x.2) l2) as Hz2 by (destruct Hab as (_ & _ & Ha); eapply Forall_impl; [exact Ha|]; naive_solver).
  destruct l1 as [|q k]; simpl in E; injection E as <- E.
  - subst bs. exists (join (bp, n) l2). split; [|split; [by apply join_in_heap|split; [apply length_join|]]].
    + simpl. destruct (join (bp, n) l2) as [|y l] eqn:Ej; [done|]. simpl.
      pose proof (hd_addr_join (bp, n) l2 base) as Hy. rewrite Ej in Hy. simpl in Hy.
      rewrite (proj2 (Z.eqb_neq _ y.1)); [done|]. unfold bend. simpl. lia.
    + by apply (join_has (bp, n)).
  - rewrite E in Hh. apply Forall_app in Hh as [Hk Hh]. apply Forall_cons in Hh as [Hp Hh].
    pose proof (join_in_heap s _ _ Hin Hh) as Hj. exists (k ++ join p (join (bp, n) l2)).
    split; [done|]. split; [apply Forall_app; split; [done|by apply join_in_heap]|]. split.
    + rewrite E, !length_app. simpl. pose proof (length_join p (join (bp, n) l2)).
      pose proof (length_join (bp, n) l2). lia.
    + destruct (join_has (bp, n) l2 Hz2) as (x & Hx & Hnx). simpl in Hnx.
      destruct (join (bp, n) l2) as [|y l]; [by apply elem_of_nil in Hx|]. simpl in *.
      destruct (bend p =? y.1); [|exists x; split; [set_solver|done]].
      apply elem_of_cons in Hx as [->|Hx]; [|exists x; set_solver].
      exists (p.1, p.2 + y.2). split; [set_solver|]. simpl. destruct Hp as (_ & ? & _). lia.
Qed.

(** The headers that [free_up] and [free_down] leave. *)
Definition joined_mem : gmap Z header :=
  <[p.1:=join_hdr p (join (bp, n) l2) base]> (<[bp:=join_hdr (bp, n) l2 base]> (hp_mem s)).

Lemma joined_chain : links joined_mem (joined l1 p l2 (bp, n)) base.
Proof.
  pose proof cut_above_block as Hab. pose proof cut_above_p as Hap.
  pose proof (cut_p _ _ _ _ _ _ _ R C) as Hp.
  destruct R as [Hc Hs _ _ _], C as [E Hbp Hl Hh Hn]. rewrite E in Hc, Hs.
  apply links_app in Hc as [Hc1 [_ Hc2]]. apply StronglySorted_app in Hs as (H12 & _ & _).
  assert (bp ∉ l2.*1) as Hb2.
  { intros (x & -> & Hx)%list_elem_of_fmap. rewrite Forall_forall in Hh. specialize (Hh x Hx). simpl in Hh. lia. }
  assert (∀ x, x ∈ l1 → x.1 < p.1) as H1.
  { intros x Hx. specialize (H12 x p Hx ltac:(by left)). rewrite Forall_forall in Hl.
    pose proof (ring_sizes _ _ R) as Hz. rewrite E, Forall_forall in Hz. specialize (Hz x ltac:(set_solver)).
    unfold before, bend in H12. simpl in Hz. lia. }
  unfold joined, joined_mem. apply links_app. rewrite hd_addr_join. split.
  - apply chain_insert; [|apply chain_insert; [|done]].
    + intros (x & Ex & Hx)%list_elem_of_fmap. specialize (H1 x Hx). lia.
    + intros (x & Ex & Hx)%list_elem_of_fmap. specialize (H1 x Hx). lia.
  - apply chain_join; [|apply (chain_join _ (bp, n)); done].
    intros (x & Ex & Hx)%list_elem_of_fmap. apply join_ge in Hx; [|done]. simpl in *. lia.
Qed.

Lemma joined_ring s' : hp_mem s' = joined_mem → hp_freep s' = p.1 → hp_brk s' = hp_brk s →
  ∃ bs', ring_ok s' bs' ∧ (∀ c, covered bs' c ↔ covered bs c ∨ bp ≤ c < bp + HDR * n) ∧
    (length bs' ≤ S (length bs))%nat ∧ ∃ x, x ∈ bs' ∧ n ≤ x.2.
Proof.
  intros Em Ef Eb. destruct joined_base as (bs' & E & Hh & Ll & Hx). exists bs'. split; [|split; [|done]].
  - split.
    + rewrite Em, <-E. apply joined_chain.
    + rewrite <-E. apply joined_sorted.
    + unfold in_heap in *. by rewrite Eb.
    + rewrite Ef, <-E. unfold joined. rewrite fmap_app. apply elem_of_app. right.
      pose proof (hd_addr_join p (join (bp, n) l2) base) as Hd.
      destruct (join p _) as [|y l] eqn:Ej; simpl in *; [|rewrite <-Hd; by left].
      destruct (join (bp, n) l2); simpl in Ej; [done|by case_match].
    + rewrite Eb. apply R.
  - intros c. rewrite <-joined_covered, E, covered_cons. unfold bend. simpl.
    assert (¬ base ≤ c < base + 8 * 0) by lia. tauto.
Qed.

End Cut.

Lemma cut_exists s bs bp n :
  ring_ok s bs → in_heap s (bp, n) → Forall (λ x, bend x ≤ bp ∨ bp + HDR * n ≤ x.1) bs →
  ∃ l1 p l2, cut s bs bp n l1 p l2 ∧ Forall (in_heap s) l2 ∧ p ∈ (base, 0) :: bs.
Proof.
  intros R (Hlo & Hn0 & He) Hd. cbn [fst snd] in *. pose proof (rg_heap _ _ R) as Hhp.
  destruct (ring_split bp n (base, 0) bs) as (l1 & p & l2 & E & Hl & Hh); [apply R|unfold bend; simpl; lia|done| |].
  { rewrite Forall_forall in Hhp, Hd |- *. intros x Hx. split; [by apply Hhp|by apply Hd]. }
  exists l1, p, l2. split; [split; [done|lia|done..]|]. split; [|rewrite E; set_solver].
  destruct l1; simpl in E; simplify_eq; [done|].
  apply Forall_app in Hhp as [_ Hhp]. by apply Forall_cons in Hhp as [_ Hhp].
Qed.

(** [free] puts the block into the ring. *)
Lemma free_spec fuel s bs bp n hb :
  ring_ok s bs → in_heap s (bp, n) → hp_mem s !! bp = Some hb → size hb = n →
  Forall (λ x, bend x ≤ bp ∨ bp + HDR * n ≤ x.1) bs → (length bs < fuel)%nat →
  wp (free base lo fuel (bp + HDR)) (λ _ s', ∃ bs', ring_ok s' bs' ∧
    (∀ c, covered bs' c ↔ covered bs c ∨ bp ≤ c < bp + HDR * n) ∧
    (length bs' ≤ S (length bs))%nat ∧ (∃ x, x ∈ bs' ∧ n ≤ x.2) ∧
    hp_brk s' = hp_brk s ∧ hp_tr s' = hp_tr s ∧
    ∀ c, c ∉ base :: bs.*1 → c ≠ bp → hp_mem s' !! c = hp_mem s !! c) s.
Proof.
  intros R Hin Hb Hn Hd Hf. pose proof Hin as (Hlo & Hn0 & He). cbn [fst snd] in *.
  destruct (cut_exists s bs bp n R Hin Hd) as (l1 & p & l2 & C & Hh2 & Hpin).
  pose proof (cut_p _ _ _ _ _ _ _ R C) as Hp. pose proof (ring_mapped _ _ _ R Hpin) as Hmp.
  pose proof (cut_above_p _ _ _ _ _ _ _ R C Hin) as Hap. pose proof (rg_brk _ _ R) as [Hlob Hbrk].
  pose proof (rg_chain _ _ R) as Hc. rewrite (ct_eq _ _ _ _ _ _ _ C) in Hc. apply links_app in Hc as [_ [Hcp Hc2]].
  unfold free. wp_steps. rewrite u32_small by (unfold bend in *; simpl in *; lia).
  replace (bp + 8 - 8) with bp by lia.
  eapply wp_of_runs; [by eapply free_search_spec|]. wp_steps.
  eapply (wp_free_up bp n p.1 l2); try done; [lia|lia|by eapply cut_above_block|].
  pose proof (hd_addr_join (bp, n) l2 base) as Hj. pose proof (join_in_heap _ _ _ Hin Hh2) as Hjh.
  destruct (join (bp, n) l2) as [|b l] eqn:Ej; [by destruct l2; simpl in Ej; [|case_match]|].
  simpl in Hj. replace (free_down base lo bp p.1) with (free_down base lo b.1 p.1) by by rewrite Hj.
  assert (links (<[bp:=join_hdr (bp, n) l2 base]> (hp_mem s)) (b :: l) base) as Hc1.
  { rewrite <-Ej. apply (chain_join _ (bp, n)); [|done]. intros (x & Ex & Hx)%list_elem_of_fmap.
    pose proof (ct_high _ _ _ _ _ _ _ C) as Hh. rewrite Forall_forall in Hh. specialize (Hh x Hx). simpl in *. lia. }
  apply Forall_cons in Hjh as [Hjb _]. destruct Hap as (Hp0 & _ & Hap). apply Forall_cons in Hap as [[_ Hpb] _].
  apply wp_bind. eapply (wp_free_down p b l); [lia|lia|done|done|done|done|done|simpl; rewrite lookup_insert_ne by lia; done|done|done|].
  wp_steps. rewrite <-Ej.
  destruct (joined_ring s bs bp n l1 p l2 R C Hin (set_freep p.1 (set_headers (joined_mem s bp n p l2) s)))
    as (bs' & R' & Hcov & Hlen & Hx); [done..|].
  exists bs'. split_and!; try done. intros c Hc Hcb. simpl.
  assert (c ≠ p.1) by (apply (list_elem_of_fmap_2 fst) in Hpin; set_solver).
  by rewrite !lookup_insert_ne.
Qed.

(** ** malloc *)

(** A block of the ring replaced by a part of it. *)
Lemma sorted_replace k x rem k2 :
  StronglySorted before (k ++ x :: k2) → StronglySorted before rem →
  Forall (λ z, x.1 ≤ z.1 ∧ bend z ≤ bend x) rem → StronglySorted before (k ++ rem ++ k2).
Proof.
  rewrite StronglySorted_app. intros (Hk & Hs & Hx) Hr Hz. apply StronglySorted_inv in Hx as [H2 Hx].
  rewrite Forall_forall in Hz, Hx. apply StronglySorted_app_2; [|done|apply StronglySorted_app_2; [|done..]].
  - intros a b Ha [Hb|Hb]%elem_of_app; [|apply Hk; set_solver].
    specialize (Hk a x Ha ltac:(set_solver)). specialize (Hz b Hb). unfold before in *. simpl in *. lia.
  - intros a b Ha Hb. specialize (Hx b Hb). specialize (Hz a Ha). unfold before in *. simpl in *. lia.
Qed.

(** What is taken from the end of the block [x]: [n] headers from [a] on, and
    [rem] what stays free. *)
Lemma covered_replace k x rem k2 a n c :
  StronglySorted before (k ++ x :: k2) → Forall (λ z, 0 ≤ z.2) (k ++ x :: k2) →
  (∀ c, covered rem c ↔ x.1 ≤ c < a) → x.1 ≤ a → a + HDR * n = bend x → 0 ≤ n →
  covered (k ++ rem ++ k2) c ↔ covered (k ++ x :: k2) c ∧ ¬ (a ≤ c < a + HDR * n).
Proof.
  intros Hs Hz Hr Ha He Hn. rewrite !covered_app, covered_cons, Hr, He.
  apply StronglySorted_app in Hs as (Hk & _ & Hx). apply StronglySorted_inv in Hx as [_ Hx].
  rewrite Forall_forall in Hx, Hz.
  assert (covered k c → c < x.1) as H1.
  { intros (b & Hb & Hc). specialize (Hk b x Hb ltac:(set_solver)). unfold before in Hk. lia. }
  assert (covered k2 c → bend x ≤ c) as H2.
  { intros (b & Hb & Hc). specialize (Hx b Hb). unfold before in Hx. lia. }
  unfold bend in *. split.
  - intros [Hc|[Hc|Hc]]; [specialize (H1 Hc)| |specialize (H2 Hc)]; split; (tauto || lia).
  - intros [[Hc|[Hc|Hc]] Hn']; [tauto| |tauto]. right. left. lia.
Qed.

(** The ring is cut after [y], at the block [x] that fits. *)
Lemma ring_next s bs y x hy :
  ring_ok s bs → y ∈ (base, 0) :: bs → x ∈ bs → hp_mem s !! y.1 = Some hy → ptr hy = x.1 →
  ∃ k k2, (base, 0) :: bs = k ++ y :: x :: k2.
Proof.
  intros R Hy Hx Hm Hp. pose proof (rg_chain _ _ R) as Hc. pose proof (rg_heap _ _ R) as Hh.
  rewrite Forall_forall in Hh. destruct (Hh x Hx) as (Hlo & _).
  destruct (chain_elem _ _ _ x Hc ltac:(by right)) as [px Hmx].
  apply list_elem_of_split in Hy as (k & rest & E). exists k. rewrite E in Hc |- *.
  apply links_app in Hc as [_ [Hcy Hc]]. rewrite Hm in Hcy. simplify_eq/=.
  destruct rest as [|z k2]; simpl in Hp; [lia|]. exists k2. destruct Hc as [Hz _]. rewrite Hp, Hmx in Hz.
  destruct x, z; simpl in *; by simplify_eq.
Qed.

(** What [malloc] promises of the block it takes. *)
Record taken (s : heap) (bs : list block) (n a : Z) (s' : heap) : Prop := {
  tk_ring : ∃ bs', ring_ok s' bs' ∧ (length bs' ≤ length bs)%nat ∧
    ∀ c, covered bs' c ↔ covered bs c ∧ ¬ (a ≤ c < a + HDR * n);
  tk_heap : in_heap s' (a, n);
  tk_free : ∀ c, a ≤ c < a + HDR * n → covered bs c;
  tk_hdr : ∃ p, hp_mem s' !! (a) = Some {| ptr := p; size := n |};
  tk_frame : ∀ c, c ≠ base → ¬ covered bs c → hp_mem s' !! c = hp_mem s !! c;
  tk_brk : hp_brk s' = hp_brk s;
}.

(** A ring that starts with [base] keeps it when a block after the first is
    replaced. *)
Lemma replace_base (bs k : list block) y x rem k2 :
  (base, 0) :: bs = k ++ y :: x :: k2 →
  ∃ k', bs = k' ++ x :: k2 ∧ k ++ y :: rem ++ k2 = (base, 0) :: k' ++ rem ++ k2 ∧ k ++ [y] = (base, 0) :: k'.
Proof.
  intros E. destruct k as [|b k]; simpl in E; simplify_eq; [by exists []|].
  exists (k ++ [y]). by rewrite <-!app_assoc.
Qed.

Lemma ring_nodup s bs : ring_ok s bs → NoDup ((base, 0) :: bs).*1.
Proof.
  intros R. pose proof (ring_sizes _ _ R) as Hz. destruct R as [_ Hs _ _ _].
  revert Hs Hz. generalize ((base, 0) :: bs). intros l Hs Hz.
  induction Hs as [|x l Hs IH Hx]; [constructor|]. apply Forall_cons in Hz as [Hx0 Hz]. rewrite fmap_cons.
  constructor; [|auto]. intros (z & Ez & Hin)%list_elem_of_fmap. rewrite Forall_forall in Hx.
  specialize (Hx z Hin). unfold before, bend in Hx. lia.
Qed.

Lemma ring_covers s bs b : ring_ok s bs → b ∈ bs → covered bs b.1.
Proof.
  intros R Hb. pose proof (rg_heap _ _ R) as Hh. rewrite Forall_forall in Hh. destruct (Hh b Hb) as (_ & ? & _).
  exists b. unfold bend. split; [done|]. lia.
Qed.

Section Take.
Context (s : heap) (bs k : list block) (y x : block) (k2 : list block) (n : Z).
Context (R : ring_ok s bs) (E : (base, 0) :: bs = k ++ y :: x :: k2) (Hn : 0 < n ≤ x.2).

(** The state after the block was taken, and what is left of [x]. *)
Lemma take_taken rem a s' :
  hp_freep s' = y.1 → hp_brk s' = hp_brk s → links (hp_mem s') (k ++ y :: rem ++ k2) base →
  StronglySorted before rem → Forall (λ z, 0 < z.2 ∧ x.1 ≤ z.1 ∧ bend z ≤ bend x) rem → (length rem ≤ 1)%nat →
  (∀ c, covered rem c ↔ x.1 ≤ c < a) → x.1 ≤ a → a + HDR * n = bend x →
  (∃ p, hp_mem s' !! a = Some {| ptr := p; size := n |}) →
  (∀ c, c ≠ y.1 → ¬ x.1 ≤ c < bend x → hp_mem s' !! c = hp_mem s !! c) →
  taken s bs n a s'.
Proof.
  intros Ef Eb Hc Hsr Hr Lr Hcov Ha He Hhdr Hfr. pose proof (ring_sizes _ _ R) as Hz.
  destruct (replace_base bs k y x rem k2 E) as (k' & Ebs & Ek & Ek').
  assert (y ∈ (base, 0) :: k') as Hy by (rewrite <-Ek'; set_solver).
  pose proof (rg_heap _ _ R) as Hh. pose proof (rg_sorted _ _ R) as Hs. pose proof (rg_brk _ _ R) as [Hlob Hbrk].
  rewrite Ek in Hc. rewrite Ebs in Hh, Hs, Hz. apply Forall_app in Hh as [Hh1 Hh2].
  apply Forall_cons in Hh2 as [Hx Hh2]. pose proof Hx as (Hx1 & Hx2 & Hx3).
  assert (taken_ring : ring_ok s' (k' ++ rem ++ k2)).
  { split; [done| | |rewrite Ef|by rewrite Eb].
    - apply (sorted_replace ((base, 0) :: k') x); [done..|]. eapply Forall_impl; [exact Hr|]. naive_solver.
    - unfold in_heap. rewrite Eb. apply Forall_app; split; [done|]. apply Forall_app; split; [|done].
      eapply Forall_impl; [exact Hr|]. unfold in_heap. intros z (? & ? & ?). lia.
    - apply list_elem_of_fmap. exists y. split; [done|]. set_solver. }
  split; try done.
  - exists (k' ++ rem ++ k2). split; [done|]. rewrite Ebs, !length_app. split; [simpl; lia|]. intros c.
    apply covered_replace; [by apply StronglySorted_inv in Hs as [Hs _]| |done..|lia].
    apply Forall_cons in Hz as [_ Hz]. eapply Forall_impl; [exact Hz|]. naive_solver.
  - unfold in_heap, bend in *. simpl in *. rewrite Eb. lia.
  - intros c Hc'. exists x. rewrite Ebs. split; [set_solver|]. lia.
  - intros c Hcb Hnc. apply Hfr; [|intros Hxc; apply Hnc; exists x; rewrite Ebs; set_solver].
    intros ->. apply elem_of_cons in Hy as [->|Hy]; [done|]. apply Hnc, (ring_covers s); [done|].
    rewrite Ebs. set_solver.
Qed.

Lemma take_chain : links (hp_mem s) k y.1 ∧ links (hp_mem s) k2 base ∧
  hp_mem s !! y.1 = Some {| ptr := x.1; size := y.2 |} ∧
  hp_mem s !! x.1 = Some {| ptr := hd_addr k2 base; size := x.2 |}.
Proof. pose proof (rg_chain _ _ R) as Hc. rewrite E in Hc. apply links_app in Hc as [? [? [? ?]]]. done. Qed.

Lemma take_nodup : (y.1 ∉ k.*1) ∧ (y.1 ∉ k2.*1) ∧ (x.1 ∉ k.*1) ∧ (x.1 ∉ k2.*1) ∧ x.1 ≠ y.1.
Proof.
  pose proof (ring_nodup _ _ R) as N. rewrite E, fmap_app, !fmap_cons in N.
  apply NoDup_app in N as (_ & H1 & N). apply NoDup_cons in N as [Hy N]. apply NoDup_cons in N as [Hx N].
  set_solver.
Qed.

(** The whole block: it leaves the ring. *)
Lemma take_whole s' : n = x.2 → hp_freep s' = y.1 → hp_brk s' = hp_brk s →
  hp_mem s' = <[y.1:={| ptr := hd_addr k2 base; size := y.2 |}]> (hp_mem s) → taken s bs n x.1 s'.
Proof.
  intros En Ef Eb Em. destruct take_chain as (Hck & Hc2 & Hy & Hx). destruct take_nodup as (N1 & N2 & _ & _ & N3).
  apply (take_taken []); [done|done| |constructor|constructor|simpl; lia| |lia| | |]; try rewrite Em.
  - apply links_app. split; [by apply chain_insert|]. split; [by rewrite lookup_insert_eq|by apply chain_insert].
  - intros c. split; [intros (b & Hb & _); by apply elem_of_nil in Hb|lia].
  - by rewrite En.
  - exists (hd_addr k2 base). by rewrite lookup_insert_ne, Hx, En by done.
  - intros c Hc _. by rewrite lookup_insert_ne by done.
Qed.

(** The upper part of the block: the lower part stays in the ring. *)
Lemma take_part h s' : let a := x.1 + HDR * (x.2 - n) in
  n < x.2 → hp_freep s' = y.1 → hp_brk s' = hp_brk s →
  hp_mem s' = <[a:={| ptr := h; size := n |}]>
    (<[x.1:={| ptr := hd_addr k2 base; size := x.2 - n |}]> (hp_mem s)) → taken s bs n a s'.
Proof.
  intros a Ha Ef Eb Em. destruct take_chain as (Hck & Hc2 & Hy & Hx).
  destruct take_nodup as (_ & _ & N1 & N2 & N3). pose proof (rg_sorted _ _ R) as Hs.
  rewrite E in Hs. change (y :: x :: k2) with ([y] ++ x :: k2) in Hs. rewrite app_assoc in Hs.
  assert (∀ z, z ∈ k ++ y :: k2 → z.1 ≠ a) as Hna.
  { apply StronglySorted_app in Hs as (H1 & _ & H2). apply StronglySorted_inv in H2 as [_ H2].
    rewrite Forall_forall in H2. pose proof (ring_sizes _ _ R) as Hz. rewrite E, Forall_forall in Hz.
    intros z Hz'. specialize (Hz z ltac:(set_solver)). unfold before, bend in *. simpl in *.
    assert (z ∈ k ++ [y] ∨ z ∈ k2) as [Hzk|Hzk] by set_solver.
    - specialize (H1 z x Hzk ltac:(by left)). lia.
    - specialize (H2 z Hzk). lia. }
  apply (take_taken [(x.1, x.2 - n)]); [done|done| | | |simpl; lia| |lia| | |]; try rewrite Em.
  - apply chain_insert.
    { intros (z & Ez & Hz)%list_elem_of_fmap. destruct (decide (z = (x.1, x.2 - n))) as [->|]; [simpl in Ez; lia|].
      apply (Hna z); set_solver. }
    apply links_app. split; [by apply chain_insert|]. split; [by rewrite lookup_insert_ne by done|].
    split; [by rewrite lookup_insert_eq|by apply chain_insert].
  - repeat constructor.
  - constructor; [|constructor]. unfold bend. simpl. lia.
  - intros c. rewrite covered_cons. unfold bend. simpl. split; [intros [?|(b & Hb & _)]; [lia|by apply elem_of_nil in Hb]|lia].
  - unfold bend. lia.
  - exists h. by rewrite lookup_insert_eq.
  - intros c Hc Hxc. unfold bend in Hxc. by rewrite !lookup_insert_ne by lia.
Qed.

End Take.

Lemma malloc_take fuel n s bs y x hy :
  ring_ok s bs → y ∈ (base, 0) :: bs → x ∈ bs → hp_mem s !! y.1 = Some hy → ptr hy = x.1 → 0 < n ≤ x.2 →
  wp (malloc_loop base lo (S fuel) n y.1 x.1)
    (λ r s', ∃ a, r = a + HDR ∧ taken s bs n a s' ∧ hp_tr s' = hp_tr s) s.
Proof.
  intros R Hy Hx Hm Hp Hn. destruct (ring_next _ _ _ _ _ R Hy Hx Hm Hp) as (k & k2 & E).
  destruct (take_chain s bs k y x k2 n R E Hn) as (_ & _ & Hy1 & Hx1).
  pose proof (ring_mapped _ _ _ R Hy) as Hmy. pose proof (ring_mapped _ _ x R ltac:(by right)) as Hmx.
  pose proof (rg_brk _ _ R) as [Hlob Hbrk]. pose proof (rg_heap _ _ R) as Hh. rewrite Forall_forall in Hh.
  destruct (Hh x Hx) as (Hxl & Hx0 & Hxe). unfold bend in Hxe.
  cbn [malloc_loop]. apply wp_bind. eapply wp_load_hdr; [done..|]. cbn [size ptr].
  rewrite (proj2 (Z.leb_le n x.2)) by lia. apply wp_bind. destruct (Z.eqb_spec x.2 n) as [En|En].
  - apply wp_bind. eapply wp_store_ptr; [done..|]. wp_steps. exists x.1. split; [apply u32_small; lia|].
    split; [|done]. by eapply take_whole.
  - assert (hplus x.1 (x.2 - n) = x.1 + HDR * (x.2 - n)) as Ea by (apply u32_small; lia).
    apply wp_bind. eapply wp_store_size; [done|unfold header_at; by rewrite Hx1|]. cbn zeta. apply wp_bind.
    eapply wp_store_size; [|done|].
    + rewrite Ea. apply (mapped_heap _ (x.1 + HDR * (x.2 - n), n)). unfold in_heap, bend. simpl. lia.
    + wp_steps. rewrite Ea. exists (x.1 + HDR * (x.2 - n)). split; [apply u32_small; lia|]. split; [|done].
      eapply take_part; [done..|lia|done|done|]. simpl. rewrite !u32_small by lia. done.
Qed.

(** *** The loop *)

Lemma malloc_skip fuel n y p h s :
  mapped base lo s p = true → hp_mem s !! p = Some h → size h < n → p ≠ hp_freep s →
  malloc_loop base lo (S fuel) n y p s = malloc_loop base lo fuel n p (ptr h) s.
Proof.
  intros Hm Hp Hs Hf. cbn [malloc_loop]. unfold mbind, M_bind, load_hdr, header_at, gets. rewrite Hm, Hp.
  cbn [from_option id]. rewrite (proj2 (Z.leb_gt n (size h))) by done. by rewrite (proj2 (Z.eqb_neq p _)).
Qed.

(** The loop over the blocks [t], of which the last is the one at [freep]: it
    comes to a block that fits, or to the last one. *)
Lemma malloc_scan fuel n s bs t f e y hy :
  ring_ok s bs → links (hp_mem s) (t ++ [f]) e → Forall (λ b, b ∈ (base, 0) :: bs ∧ b.1 ≠ hp_freep s) t →
  f ∈ (base, 0) :: bs → f.1 = hp_freep s → y ∈ (base, 0) :: bs → hp_mem s !! y.1 = Some hy →
  ptr hy = hd_addr t f.1 →
  (∃ y' x hy' k, y' ∈ (base, 0) :: bs ∧ x ∈ (base, 0) :: bs ∧ hp_mem s !! y'.1 = Some hy' ∧ ptr hy' = x.1 ∧
     n ≤ x.2 ∧ malloc_loop base lo (S (length t) + fuel) n y.1 (hd_addr t f.1) s
             = malloc_loop base lo (S k) n y'.1 x.1 s) ∨
  (Forall (λ b, b.2 < n) (t ++ [f]) ∧
   ∃ y', malloc_loop base lo (S (length t) + fuel) n y.1 (hd_addr t f.1) s
       = malloc_loop base lo (S fuel) n y' f.1 s).
Proof.
  intros R. revert y hy. induction t as [|b t IH]; intros y hy Hc Ht Hf Ef Hy Hmy Hp; simpl in Hp.
  - destruct (decide (n ≤ f.2)); [left; by exists y, f, hy, fuel|right].
    split; [constructor; [lia|constructor]|]. by exists y.1.
  - apply Forall_cons in Ht as [[Hb Hbf] Ht]. destruct Hc as [Hmb Hc].
    destruct (decide (n ≤ b.2)); [left; by exists y, b, hy, (S (length t) + fuel)%nat|].
    assert (hd_addr (t ++ [f]) e = hd_addr t f.1) as Eh by (by destruct t).
    cbn [length hd_addr]. change (S (S (length t)) + fuel)%nat with (S (S (length t) + fuel)).
    rewrite (malloc_skip _ _ _ _ _ _ (ring_mapped _ _ _ R Hb) Hmb) by (simpl; lia || done).
    cbn [ptr]. rewrite Eh. rewrite Eh in Hmb.
    destruct (IH b _ Hc Ht Hf Ef Hb Hmb eq_refl) as [Hl|[Hall Hr]]; [by left|].
    right. split; [|done]. constructor; [lia|done].
Qed.

Definition took (s : heap) (bs : list block) (n : Z) (r : Z) (s' : heap) : Prop :=
  ∃ a, r = a + HDR ∧ taken s bs n a s' ∧ hp_tr s' = hp_tr s.

(** One round of the ring, from [freep]. *)
Lemma malloc_round fuel n s bs hf :
  ring_ok s bs → 0 < n → hp_mem s !! hp_freep s = Some hf →
  wp (malloc_loop base lo (S (length bs) + fuel) n (hp_freep s) (ptr hf)) (took s bs n) s ∨
  (Forall (λ b, b.2 < n) bs ∧ ∃ y, malloc_loop base lo (S (length bs) + fuel) n (hp_freep s) (ptr hf) s
     = malloc_loop base lo (S fuel) n y (hp_freep s) s).
Proof.
  intros R Hn Hhf. pose proof (rg_chain _ _ R) as Hc. pose proof (ring_nodup _ _ R) as N.
  pose proof (rg_freep _ _ R) as Hf. apply list_elem_of_fmap in Hf as (f & Ef & Hf).
  pose proof Hf as Hf'. apply list_elem_of_split in Hf' as (l1 & l2 & E).
  assert (length bs = length (l2 ++ l1)) as ->.
  { apply (f_equal length) in E. rewrite length_app in E |- *. simpl in E. lia. }
  rewrite Ef in Hhf. rewrite E in Hc, N. apply links_app in Hc as [Hc1 [Hcf Hc2]].
  rewrite Hcf in Hhf. injection Hhf as <-. cbn [ptr hd_addr] in *.
  rewrite fmap_app, fmap_cons in N. apply NoDup_app in N as (N1 & N12 & N2). apply NoDup_cons in N2 as [Nf N2].
  assert (∀ e, hd_addr (l1 ++ [f]) e = base) as Eb by (intros e; destruct l1; simpl in E |- *; by simplify_eq).
  assert (hd_addr (l2 ++ l1) f.1 = hd_addr l2 base) as Eh.
  { destruct l2; [|done]. simpl. rewrite <-(Eb 0). by destruct l1. }
  destruct (malloc_scan fuel n s bs (l2 ++ l1) f (hd_addr l2 base) f {| ptr := hd_addr l2 base; size := f.2 |} R)
    as [(y & x & hy & k & Hy & Hx & Hmy & Hp & Hnx & Em)|[Hall (y' & Ey)]]; try done; rewrite ?Eh in *.
  - rewrite <-app_assoc. apply links_app. rewrite Eb. split; [done|]. apply links_app. done.
  - rewrite E, Ef. apply Forall_forall. intros b Hb. split; [set_solver|]. intros Eq.
    apply elem_of_app in Hb as [Hb|Hb]; apply (list_elem_of_fmap_2 fst) in Hb; rewrite Eq in Hb; set_solver.
  - left. rewrite Ef. unfold wp. rewrite Em. apply elem_of_cons in Hx as [->|Hx]; [simpl in *; lia|].
    by eapply malloc_take.
  - right. rewrite Ef. split; [|by exists y'].
    assert (Forall (λ b, b.2 < n) ((base, 0) :: bs)) as Hb; [|by apply Forall_cons in Hb as [_ Hb]].
    rewrite E. rewrite Forall_forall in Hall |- *. intros b Hb. apply Hall. set_solver.
Qed.

(** *** New memory *)

(** [sbrk] fails, or returns the old break and leaves it within 32 bits. *)
Definition sbrk_ok (s : heap) (n : Z) : Prop :=
  os_int (hp_tr s) (Sbrk n) = -1 ∨ (os_int (hp_tr s) (Sbrk n) = hp_brk s ∧ hp_brk s + n < 2 ^ 32).

(** The headers [morecore] asks for. *)
Definition core (n : Z) : Z := if n <? 4096 then 4096 else n.

Lemma ring_ok_brk s bs s' :
  ring_ok s bs → hp_freep s' = hp_freep s → hp_brk s ≤ hp_brk s' < 2 ^ 32 →
  links (hp_mem s') ((base, 0) :: bs) base → ring_ok s' bs.
Proof.
  intros [Hc Hs Hh Hf Hb] Ef Eb Hc'. split; [done|done| |by rewrite Ef|lia].
  eapply Forall_impl; [exact Hh|]. intros x (? & ? & ?). unfold in_heap. lia.
Qed.

(** [morecore] fails and leaves the ring, or adds the new memory to it. *)
Definition grown (s : heap) (bs : list block) (n r : Z) (s' : heap) : Prop :=
  (r = 0 ∧ ring_ok s' bs ∧ hp_mem s' = hp_mem s ∧ hp_brk s' = hp_brk s) ∨
  (r = hp_freep s' ∧ r ≠ 0 ∧ ∃ bs', ring_ok s' bs' ∧ hp_brk s' = hp_brk s + HDR * core n ∧
    (∀ c, covered bs' c ↔ covered bs c ∨ hp_brk s ≤ c < hp_brk s') ∧
    (length bs' ≤ S (length bs))%nat ∧ (∃ x, x ∈ bs' ∧ n ≤ x.2) ∧
    ∀ c, c ∉ base :: bs.*1 → c ≠ hp_brk s → hp_mem s' !! c = hp_mem s !! c).

Lemma morecore_spec fuel n s bs :
  ring_ok s bs → 0 < n → HDR * n < 2 ^ 31 → sbrk_ok s (HDR * core n) → (length bs < fuel)%nat →
  wp (morecore base lo fuel n) (grown s bs n) s.
Proof.
  intros R Hn Hmax Hsb Hf. pose proof (rg_brk _ _ R) as [Hlob Hbrk]. unfold morecore. fold (core n).
  assert (n ≤ core n ∧ 0 < core n ∧ core n * HDR < 2 ^ 31) as (Hnc & Hc0 & Hcm)
    by (unfold core; case_match; lia).
  rewrite s32_small by lia. rewrite (Z.mul_comm (core n)). apply wp_bind. unfold wp at 1, sbrk. cbn [hp_tr].
  destruct Hsb as [->|[-> Hmax']]; cbn [Z.eqb].
  { wp_steps. left. split_and!; try done. apply (ring_ok_brk s); [done..|simpl; lia|apply R]. }
  rewrite u32_small by lia. rewrite (proj2 (Z.eqb_neq (hp_brk s) _)) by (change (u32 (-1)) with 4294967295; lia).
  rewrite (proj2 (Z.eqb_neq (hp_brk s) (-1))) by lia. set (s1 := {| hp_mem := _ |}).
  assert (in_heap s1 (hp_brk s, core n)) as Hin by (unfold in_heap, bend; simpl; lia).
  apply wp_bind. eapply wp_store_size; [by apply (mapped_heap s1 (hp_brk s, core n))|done|].
  set (s2 := set_headers _ s1). assert (hp_mem s2 !! hp_brk s = Some {| ptr := ptr (header_at s1 (hp_brk s)); size := core n |}) as H2.
  { simpl. rewrite lookup_insert_eq, u32_small by lia. done. }
  assert (ring_ok s2 bs) as R2.
  { apply (ring_ok_brk s); [done..|simpl; lia|]. apply chain_insert; [|apply R].
    intros (x & Ex & Hx)%list_elem_of_fmap. apply elem_of_cons in Hx as [->|Hx]; [simpl in *; lia|].
    pose proof (rg_heap _ _ R) as Hh. rewrite Forall_forall in Hh. destruct (Hh x Hx) as (? & ? & ?).
    unfold bend in *. lia. }
  replace (hplus (hp_brk s) 1) with (hp_brk s + HDR) by (symmetry; apply u32_small; lia).
  wp_call (free_spec fuel s2 bs (hp_brk s) (core n) _ R2 Hin H2 eq_refl); [|done|].
  { eapply Forall_impl; [apply R|]. intros x (? & ? & ?). by left. }
  intros [] s3 (bs' & R3 & Hcov & Hlen & (x & Hx & Hnx) & Eb & _ & Hfr). wp_steps. right. split; [done|].
  pose proof (rg_freep _ _ R3) as Hfp. apply list_elem_of_fmap in Hfp as (z & -> & Hz).
  pose proof (ring_sizes _ _ R3) as Hzs. rewrite Forall_forall in Hzs. specialize (Hzs z Hz). split; [lia|].
  exists bs'. split; [done|]. split; [done|]. split; [|split; [done|split; [|intros c Hc Hcb; rewrite Hfr by done]]].
  - intros c. rewrite Hcov, Eb. done.
  - exists x. split; [done|lia].
  - simpl. by rewrite lookup_insert_ne.
Qed.

(** *** The whole of malloc *)

(** The bytes [malloc] may take: the free ones, and those [sbrk] added. *)
Definition supply (s : heap) (bs : list block) (s' : heap) (c : Z) : Prop :=
  covered bs c ∨ hp_brk s ≤ c < hp_brk s'.

Record allocated (s : heap) (bs : list block) (n a : Z) (s' : heap) (bs' : list block) : Prop := {
  al_ring : ring_ok s' bs';
  al_len : (length bs' ≤ S (length bs))%nat;
  al_heap : in_heap s' (a, n);
  al_hdr : ∃ p, hp_mem s' !! a = Some {| ptr := p; size := n |};
  al_brk : hp_brk s ≤ hp_brk s';
  al_rest : ∀ c, covered bs' c ↔ supply s bs s' c ∧ ¬ (a ≤ c < a + HDR * n);
  al_from : ∀ c, a ≤ c < a + HDR * n → supply s bs s' c;
  al_frame : ∀ c, c ≠ base → ¬ supply s bs s' c → hp_mem s' !! c = hp_mem s !! c;
}.

Lemma took_allocated s bs n r s' : ring_ok s bs → took s bs n r s' → ∃ a bs', r = a + HDR ∧ allocated s bs n a s' bs'.
Proof.
  intros R (a & -> & [(bs' & R' & L & Hc) Hh Hf Hd Hfr Hb] & _). exists a, bs'. split; [done|].
  assert (∀ c, supply s bs s' c ↔ covered bs c) as Hs.
  { intros c. unfold supply. rewrite Hb. assert (¬ hp_brk s ≤ c < hp_brk s) by lia. tauto. }
  split; try done; [lia|lia|..]; intros c; rewrite Hs; auto.
Qed.

Lemma grown_allocated s bs n s1 bs1 r s' :
  ring_ok s bs → ring_ok s1 bs1 → hp_brk s ≤ hp_brk s1 →
  (∀ c, covered bs1 c ↔ covered bs c ∨ hp_brk s ≤ c < hp_brk s1) → (length bs1 ≤ S (length bs))%nat →
  (∀ c, c ∉ base :: bs.*1 → c ≠ hp_brk s → hp_mem s1 !! c = hp_mem s !! c) → hp_brk s < hp_brk s1 →
  took s1 bs1 n r s' → ∃ a bs', r = a + HDR ∧ allocated s bs n a s' bs'.
Proof.
  intros R R1 Hle Hcov L Hfr1 Hlt (a & -> & [(bs' & R' & L' & Hc) Hh Hf Hd Hfr Hb] & _).
  exists a, bs'. split; [done|].
  assert (∀ c, supply s bs s' c ↔ covered bs1 c) as Hs by (intros c; unfold supply; by rewrite Hb, Hcov).
  split; try done; [lia|lia|intros c; rewrite Hs; auto|intros c; rewrite Hs; auto|].
  intros c Hcb Hns. rewrite Hs in Hns. rewrite Hfr by done. rewrite Hcov in Hns.
  apply Hfr1; [|intros ->; apply Hns; right; lia].
  rewrite not_elem_of_cons. split; [done|]. intros (b & -> & Hb')%list_elem_of_fmap. apply Hns. left.
  by apply (ring_covers s).
Qed.

(** What [malloc] leaves: nothing is changed, or a block was taken. *)
Definition malloc_post (s : heap) (bs : list block) (n r : Z) (s' : heap) : Prop :=
  (r = 0 ∧ Forall (λ b, b.2 < n) bs ∧ ring_ok s' bs ∧ hp_mem s' = hp_mem s ∧ hp_brk s' = hp_brk s) ∨
  (∃ a bs', r = a + HDR ∧ allocated s bs n a s' bs').

Lemma wp_eq {A} (m m' : M heap A) Q s : m s = m' s → wp m' Q s → wp m Q s.
Proof. unfold wp. by intros ->. Qed.

Lemma malloc_loop_spec fuel n s bs hf :
  ring_ok s bs → 0 < n → HDR * n < 2 ^ 31 → sbrk_ok s (HDR * core n) →
  hp_mem s !! hp_freep s = Some hf → (2 * length bs + 4 ≤ fuel)%nat →
  wp (malloc_loop base lo fuel n (hp_freep s) (ptr hf)) (malloc_post s bs n) s.
Proof.
  intros R Hn Hmax Hsb Hhf Hfuel. replace fuel with (S (length bs) + (fuel - S (length bs)))%nat by lia.
  set (fuel1 := (fuel - S (length bs))%nat).
  destruct (malloc_round fuel1 n s bs hf R Hn Hhf) as [Hl|(Hall & y & Ey)].
  { eapply wp_mono; [exact Hl|]. intros r s' Ht. right. by eapply took_allocated. }
  eapply wp_eq; [exact Ey|].
  pose proof (rg_freep _ _ R) as Hf. apply list_elem_of_fmap in Hf as (f & Ef & Hf).
  assert (size hf < n).
  { destruct (chain_elem _ _ _ _ (rg_chain _ _ R) Hf) as (pf & Hpf). rewrite Ef, Hpf in Hhf. simplify_eq/=.
    apply elem_of_cons in Hf as [->|Hf]; [simpl; lia|]. rewrite Forall_forall in Hall. by apply Hall. }
  cbn [malloc_loop]. apply wp_bind. eapply wp_load_hdr; [rewrite Ef; by eapply ring_mapped|done|].
  rewrite (proj2 (Z.leb_gt n (size hf))) by done. wp_steps. rewrite Z.eqb_refl.
  wp_call (morecore_spec fuel1 n s bs R Hn Hmax Hsb); [lia|].
  intros r s1 [(-> & R1 & Em & Eb)|(-> & Hr & bs1 & R1 & Eb & Hcov & L1 & (x & Hx & Hnx) & Hfr)].
  { wp_steps. by left. }
  rewrite (proj2 (Z.eqb_neq _ 0)) by done. clear y Ey f Ef Hf.
  pose proof (rg_freep _ _ R1) as Hf. apply list_elem_of_fmap in Hf as (f & Ef & Hf).
  destruct (chain_elem _ _ _ _ (rg_chain _ _ R1) Hf) as (pf & Hpf). rewrite <-Ef in Hpf.
  apply wp_bind. eapply wp_load_hdr; [rewrite Ef; by eapply ring_mapped|done|].
  replace fuel1 with (S (length bs1) + (fuel1 - S (length bs1)))%nat by lia.
  destruct (malloc_round (fuel1 - S (length bs1)) n s1 bs1 _ R1 Hn Hpf) as [Hl|(Hall1 & _)].
  - eapply wp_mono; [exact Hl|]. intros r s' Ht. right.
    assert (hp_brk s < hp_brk s1) by (rewrite Eb; unfold core; case_match; lia).
    by eapply (grown_allocated s bs n s1 bs1); [..|lia| | | | |].
  - rewrite Forall_forall in Hall1. specialize (Hall1 x Hx). simpl in Hall1. lia.
Qed.

(** ** The allocator as its clients see it *)

Definition disjoint (x y : block) : Prop := bend x ≤ y.1 ∨ bend y ≤ x.1.

(** The free blocks [bs] and the blocks [al] that clients hold: these keep
    their headers, and no byte belongs to two blocks. *)
Record heap_ok (s : heap) (bs al : list block) : Prop := {
  ho_ring : ring_ok s bs;
  ho_heap : Forall (in_heap s) al;
  ho_hdr : Forall (λ b, ∃ p, hp_mem s !! b.1 = Some {| ptr := p; size := b.2 |}) al;
  ho_apart : ∀ c, covered al c → ¬ covered bs c;
  ho_disj : StronglySorted disjoint al;
}.

(** Before the first call. *)
Definition heap_new (s : heap) : Prop := hp_freep s = 0 ∧ lo ≤ hp_brk s < 2 ^ 32.

Lemma disjoint_of x y :
  0 < x.2 → 0 < y.2 → (∀ c, x.1 ≤ c < bend x → ¬ (y.1 ≤ c < bend y)) → disjoint x y.
Proof.
  intros Hx Hy Hc. unfold disjoint, bend in *. destruct (decide (x.1 ≤ y.1)).
  - specialize (Hc y.1). lia.
  - specialize (Hc x.1). lia.
Qed.

Lemma block_covered (b : block) l c : b ∈ l → b.1 ≤ c < bend b → covered l c.
Proof. intros. by exists b. Qed.

Lemma alloc_heap_ok s bs al n a s' bs' :
  heap_ok s bs al → 0 < n → allocated s bs n a s' bs' → heap_ok s' bs' ((a, n) :: al).
Proof.
  intros [R Hh Hd Ha Hs] Hn [R' _ Hin Hhdr Hb Hrest Hfrom Hfr].
  assert (∀ c, covered al c → ¬ supply s bs s' c) as Hns.
  { intros c Hc [Hb'|Hb']; [by eapply Ha|]. destruct Hc as (b & Hbin & Hc). rewrite Forall_forall in Hh.
    destruct (Hh b Hbin) as (_ & _ & ?). lia. }
  assert (∀ b, b ∈ al → covered al b.1 ∧ base < b.1 ∧ 0 < b.2) as Hal.
  { intros b Hb'. rewrite Forall_forall in Hh. destruct (Hh b Hb') as (? & ? & ?). split; [|lia].
    apply (block_covered b); [done|]. unfold bend. lia. }
  split; [done|..].
  - constructor; [done|]. eapply Forall_impl; [exact Hh|]. unfold in_heap. intros x (? & ? & ?). lia.
  - constructor; [done|]. rewrite Forall_forall in Hd |- *. intros b Hb'. destruct (Hal b Hb') as (Hcb & ? & _).
    rewrite Hfr by (lia || by apply Hns). by apply Hd.
  - intros c. rewrite covered_cons, Hrest. unfold bend. simpl. intros [Hc|Hc] [Hs' Hn']; [done|].
    by apply (Hns c).
  - constructor; [done|]. apply Forall_forall. intros b Hb'. destruct (Hal b Hb') as (_ & _ & Hb0).
    apply disjoint_of; [done..|]. intros c Hc Hcb. apply (Hns c); [by eapply block_covered|].
    apply Hfrom. unfold bend in Hc. done.
Qed.

Lemma dealloc_heap_ok s bs al1 b al2 s' bs' :
  heap_ok s bs (al1 ++ b :: al2) → ring_ok s' bs' → hp_brk s' = hp_brk s →
  (∀ c, covered bs' c ↔ covered bs c ∨ b.1 ≤ c < bend b) →
  (∀ c, c ∉ base :: bs.*1 → c ≠ b.1 → hp_mem s' !! c = hp_mem s !! c) → heap_ok s' bs' (al1 ++ al2).
Proof.
  intros [R Hh Hd Ha Hs] R' Eb Hcov Hfr. set (al := al1 ++ b :: al2) in *.
  assert (∀ x, x ∈ al1 ++ al2 → disjoint x b ∧ x ∈ al) as Hxb.
  { intros x Hx. split; [|unfold al; set_solver]. apply StronglySorted_app in Hs as (H12 & _ & Hs).
    apply StronglySorted_inv in Hs as [_ Hs]. rewrite Forall_forall in Hs.
    apply elem_of_app in Hx as [Hx|Hx]; [apply H12; set_solver|].
    specialize (Hs x Hx). unfold disjoint in *. tauto. }
  rewrite Forall_forall in Hh, Hd. assert (b ∈ al) as Hbin by (unfold al; set_solver).
  destruct (Hh b Hbin) as (_ & Hb0 & _). split; [done|..].
  - apply Forall_forall. intros x Hx. unfold in_heap. rewrite Eb. by apply Hh, Hxb.
  - apply Forall_forall. intros x Hx. destruct (Hxb x Hx) as [Hdj Hxin]. destruct (Hh x Hxin) as (Hlo & Hx0 & _).
    rewrite Hfr; [by apply Hd| |unfold disjoint, bend in Hdj; lia]. rewrite not_elem_of_cons. split; [lia|].
    intros (z & Ez & Hz)%list_elem_of_fmap. apply (Ha x.1).
    + apply (block_covered x); [done|unfold bend; lia].
    + rewrite Ez. by apply (ring_covers s).
  - intros c (x & Hx & Hc) Hc'. destruct (Hxb x Hx) as [Hdj Hxin]. rewrite Hcov in Hc'. destruct Hc' as [Hc'|Hc'].
    + apply (Ha c); [by eapply block_covered|done].
    + unfold disjoint, bend in *. lia.
  - apply StronglySorted_app in Hs as (H12 & H1 & H2). apply StronglySorted_inv in H2 as [H2 _].
    apply StronglySorted_app_2; [|done..]. intros x y Hx Hy. apply H12; set_solver.
Qed.

(** C11: [free] takes a block back.  The bytes of the block, and no others, are
    free again; the blocks other clients hold are untouched, and the free ones
    are again apart from one another, so that no two of them touch. *)
Theorem free_returns fuel s bs al1 b al2 :
  heap_ok s bs (al1 ++ b :: al2) → (length bs < fuel)%nat →
  wp (free base lo fuel (b.1 + HDR)) (λ _ s', ∃ bs', heap_ok s' bs' (al1 ++ al2) ∧
    ∀ c, covered bs' c ↔ covered bs c ∨ b.1 ≤ c < bend b) s.
Proof.
  intros Hok Hf. pose proof Hok as [R Hh Hd Ha Hs]. rewrite Forall_forall in Hh, Hd.
  assert (b ∈ al1 ++ b :: al2) as Hb by set_solver. destruct (Hd b Hb) as [p Hp].
  assert (Forall (λ x, bend x ≤ b.1 ∨ b.1 + HDR * b.2 ≤ x.1) bs) as Hdj.
  { pose proof (rg_heap _ _ R) as Hhb. rewrite Forall_forall in Hhb |- *. intros x Hx.
    apply (disjoint_of x b); [by apply Hhb|by apply Hh|]. intros c Hc Hcb.
    apply (Ha c); [by eapply block_covered|by eapply block_covered]. }
  assert (in_heap s (b.1, b.2)) as Hin by (destruct b; by apply Hh).
  wp_call (free_spec fuel s bs b.1 b.2 _ R Hin Hp eq_refl Hdj Hf).
  intros [] s' (bs' & R' & Hcov & _ & _ & Eb & _ & Hfr). exists bs'.
  split; [by eapply dealloc_heap_ok|done].
Qed.

(** The headers a request needs: its own, and those that hold the bytes. *)
Definition units (nbytes : Z) : Z := (nbytes + HDR - 1) / HDR + 1.

Lemma units_bounds nbytes : 0 ≤ nbytes ≤ 2 ^ 31 - 24 →
  nbytes ≤ HDR * units nbytes - HDR ∧ 0 < units nbytes ∧ HDR * units nbytes < 2 ^ 31 ∧
  u32 (u32 (nbytes + HDR - 1) / HDR + 1) = units nbytes.
Proof.
  intros Hn. unfold units. rewrite (u32_small (nbytes + 8 - 1)) by lia.
  pose proof (Z.div_mod (nbytes + 8 - 1) 8 ltac:(lia)). pose proof (Z.mod_pos_bound (nbytes + 8 - 1) 8 ltac:(lia)).
  split_and!; [lia|lia|lia|]. apply u32_small. lia.
Qed.

(** The first call makes the ring of [base] alone. *)
Definition heap_started (s : heap) : heap :=
  {| hp_mem := <[base:={| ptr := base; size := 0 |}]> (hp_mem s); hp_freep := base;
     hp_brk := hp_brk s; hp_tr := hp_tr s |}.

Lemma heap_started_ok s : heap_new s → heap_ok (heap_started s) [] [].
Proof.
  intros [_ Hb]. split; [|constructor..| |constructor].
  - split; [|repeat constructor|constructor|simpl; by left|done]. simpl. by rewrite lookup_insert_eq.
  - intros c (b & Hb' & _). by apply elem_of_nil in Hb'.
Qed.

Lemma start_runs s : runs_to (store_ptr base lo base base;; modify (set_freep base);;
  store_size base lo base 0;; mret base) s base (heap_started s).
Proof.
  unfold runs_to, store_ptr, store_size, load_hdr, store_hdr, mbind, M_bind, modify.
  repeat (rewrite mapped_base; cbv beta iota). unfold header_at. simpl.
  rewrite lookup_insert_eq, insert_insert_eq. done.
Qed.

Lemma malloc_first fuel nbytes s (Q : Z → heap → Prop) : heap_new s → 0 ≤ nbytes ≤ 2 ^ 31 - 24 →
  wp (malloc_loop base lo fuel (units nbytes) base base) Q (heap_started s) → wp (malloc base lo fuel nbytes) Q s.
Proof.
  intros [Hf Hb] Hn HQ. destruct (units_bounds nbytes Hn) as (_ & _ & _ & E). unfold malloc. wp_steps.
  rewrite Hf, E. cbn [Z.eqb]. eapply wp_of_runs; [apply start_runs|]. apply wp_bind.
  eapply wp_load_hdr; [apply mapped_base|simpl; by rewrite lookup_insert_eq|]. done.
Qed.

Lemma malloc_again fuel nbytes s bs (Q : Z → heap → Prop) : ring_ok s bs → 0 ≤ nbytes ≤ 2 ^ 31 - 24 →
  (∀ hf, hp_mem s !! hp_freep s = Some hf → wp (malloc_loop base lo fuel (units nbytes) (hp_freep s) (ptr hf)) Q s) →
  wp (malloc base lo fuel nbytes) Q s.
Proof.
  intros R Hn HQ. destruct (units_bounds nbytes Hn) as (_ & _ & _ & E). unfold malloc. rewrite E. wp_steps.
  pose proof (rg_freep _ _ R) as Hf. apply list_elem_of_fmap in Hf as (f & Ef & Hf).
  destruct (chain_elem _ _ _ _ (rg_chain _ _ R) Hf) as (pf & Hpf).
  pose proof (ring_sizes _ _ R) as Hz. rewrite Forall_forall in Hz. specialize (Hz f Hf).
  rewrite (proj2 (Z.eqb_neq _ 0)) by lia. wp_steps. rewrite <-Ef in Hpf.
  eapply wp_load_hdr; [rewrite Ef; by eapply ring_mapped|done|]. by apply HQ.
Qed.

(** The result of [malloc]: the null pointer and an unchanged heap, or a block
    of its own for the client. *)
Definition malloc_result (s : heap) (bs al : list block) (nbytes r : Z) (s' : heap) : Prop :=
  (r = 0 ∧ heap_ok s' bs al) ∨
  (∃ a n bs', r = a + HDR ∧ nbytes ≤ HDR * n - HDR ∧ heap_ok s' bs' ((a, n) :: al) ∧
     ∀ c, covered bs' c ∨ covered ((a, n) :: al) c ↔
          covered bs c ∨ covered al c ∨ hp_brk s ≤ c < hp_brk s').

Lemma malloc_post_result s bs al nbytes r s' :
  heap_ok s bs al → 0 ≤ nbytes ≤ 2 ^ 31 - 24 → malloc_post s bs (units nbytes) r s' →
  malloc_result s bs al nbytes r s'.
Proof.
  intros Hok Hn [(-> & _ & R' & Em & Eb)|(a & bs' & -> & Hal)]; destruct (units_bounds nbytes Hn) as (H1 & H2 & _ & _).
  - left. split; [done|]. destruct Hok as [R Hh Hd Ha Hs]. split; [done| |by rewrite Em|done|done].
    unfold in_heap. by rewrite Eb.
  - right. exists a, (units nbytes), bs'. split; [done|]. split; [done|].
    split; [by eapply alloc_heap_ok|]. intros c. destruct Hal as [_ _ _ _ _ Hrest Hfrom _].
    rewrite covered_cons, Hrest. unfold bend. simpl. unfold supply in *. specialize (Hfrom c).
    destruct (decide (a ≤ c < a + 8 * units nbytes)); tauto.
Qed.

(** C10: [malloc] returns the null pointer and leaves the heap as it was, when
    the system has no more memory and no free block is large enough, or a block
    with room for the request that overlaps no block in use; of the free bytes
    and those obtained from the system none is lost. *)
Theorem malloc_allocates fuel s bs al nbytes :
  heap_ok s bs al ∨ heap_new s ∧ bs = [] ∧ al = [] → 0 ≤ nbytes ≤ 2 ^ 31 - 24 →
  sbrk_ok s (HDR * core (units nbytes)) → (2 * length bs + 4 ≤ fuel)%nat →
  wp (malloc base lo fuel nbytes) (malloc_result s bs al nbytes) s.
Proof.
  intros Hok Hn Hsb Hf. destruct (units_bounds nbytes Hn) as (_ & Hu & Hmax & _).
  destruct Hok as [Hok|(Hnew & -> & ->)].
  - apply (malloc_again fuel nbytes s bs); [apply Hok|done|]. intros hf Hhf.
    eapply wp_mono; [apply malloc_loop_spec; [apply Hok|done..]|]. intros r s'. by apply malloc_post_result.
  - pose proof (heap_started_ok s Hnew) as Hok. apply malloc_first; [done..|].
    eapply wp_mono; [apply (malloc_loop_spec fuel (units nbytes) (heap_started s) []
      {| ptr := base; size := 0 |}); [apply Hok|done..|simpl; by rewrite lookup_insert_eq|done]|].
    intros r s' Hp. by apply (malloc_post_result (heap_started s)).
Qed.

End Free.

(** ** Examples *)

Module UmallocExample.

(** A system whose break starts at 4096 and always grows. *)
Definition os : Os := {| os_int tr c := 4096; os_data tr c := [] |}.
Definition start : heap := {| hp_mem := ∅; hp_freep := 0; hp_brk := 4096; hp_tr := [] |}.

Lemma malloc_allocates_witness :
  wp (malloc (H := os) 16 4096 4 100) (malloc_result 16 4096 start [] [] 100) start.
Proof.
  apply (malloc_allocates (H := os) 16 4096); [lia|lia| |lia| |simpl; lia].
  - right. split; [|done]. split; [done|simpl; lia].
  - right. split; [done|]. vm_compute. reflexivity.
Defined.

(** The heap after one block was taken from a free block. *)
Definition one : heap := {|
  hp_mem := list_to_map [(16, {| ptr := 4096; size := 0 |}); (4096, {| ptr := 16; size := 10 |});
                         (4176, {| ptr := 0; size := 5 |})];
  hp_freep := 16; hp_brk := 4216; hp_tr := [] |}.

Lemma one_ok : heap_ok 16 4096 one [(4096, 10)] ([] ++ (4176, 5) :: []).
Proof.
  split.
  - split.
    + vm_compute. done.
    + repeat constructor.
    + repeat constructor; unfold bend; simpl; lia.
    + simpl. set_solver.
    + simpl. lia.
  - repeat constructor; unfold bend; simpl; lia.
  - repeat constructor. exists 0. done.
  - intros c (b & Hb & Hc) (b' & Hb' & Hc'). unfold bend in *.
    apply list_elem_of_singleton in Hb as ->, Hb' as ->. simpl in *. lia.
  - repeat constructor.
Qed.

Lemma free_returns_witness :
  wp (free 16 4096 2 (4176 + HDR)) (λ _ s', ∃ bs', heap_ok 16 4096 s' bs' [] ∧
    ∀ c, covered bs' c ↔ covered [(4096, 10)] c ∨ 4176 ≤ c < bend (4176, 5)) one.
Proof.
  apply (free_returns (H := os) 16 4096 ltac:(lia) ltac:(lia) 2 one [(4096, 10)] [] (4176, 5) []);
    [apply one_ok|simpl; lia].
Defined.

End UmallocExample.
