(* ===== verification/Progs.v ===== *)
(** * Progs: the small user programs

    wc.c, cat.c, echo.c, mkdir.c, rm.c, ln.c, kill.c, zombie.c, pwd.c and
    init.c.  [argv] is the list of the argument strings.  A loop that reads to
    the end of its input makes at most [fuel] reads. *)

From S2P Require Import Prelude Bytes CString Print User.

Section Programs.
Context `{Os}.

(** ** wc.c *)

Record counts := { wc_l : Z; wc_w : Z; wc_c : Z; wc_inword : bool }.

(** [strchr(" \r\t\n\v", c)] *)
Definition is_space (c : Z) : bool :=
  match strchr [32; 13; 9; 10; 11; 0] c with Some (Some _) => true | _ => false end.

(** The body of the loop over the bytes read. *)
Definition wc_char (x : counts) (b : Z) : counts :=
  let c := s32 (wc_c x + 1) in
  let l := if b =? 10 then s32 (wc_l x + 1) else wc_l x in
  if is_space b then {| wc_l := l; wc_w := wc_w x; wc_c := c; wc_inword := false |}
  else if negb (wc_inword x) then {| wc_l := l; wc_w := s32 (wc_w x + 1); wc_c := c; wc_inword := true |}
  else {| wc_l := l; wc_w := wc_w x; wc_c := c; wc_inword := wc_inword x |}.

Fixpoint wc_loop (fuel : nat) (fd : Z) (x : counts) : U (Z * counts) :=
  match fuel with
  | O => fault
  | S fuel' =>
      r ← read fd 512;
      if r.1 <=? 0 then mret (r.1, x) else wc_loop fuel' fd (foldl wc_char x r.2)
  end.

Definition wc (fuel : nat) (fd : Z) (name : list Z) : U () :=
  r ← wc_loop fuel fd {| wc_l := 0; wc_w := 0; wc_c := 0; wc_inword := false |};
  let '(n, x) := r in
  if n <? 0 then printf 1 ("wc: read error" +:+ nl) [];; exit else
  printf 1 ("%d %d %d %s" +:+ nl) [AInt (wc_l x); AInt (wc_w x); AInt (wc_c x); AStr (Some name)].

Fixpoint wc_files (fuel : nat) (files : list (list Z)) : U () :=
  match files with
  | [] => exit
  | f :: files' =>
      fd ← sys (Open f 0);
      if fd <? 0 then printf 1 ("wc: cannot open %s" +:+ nl) [AStr (Some f)];; exit else
      wc fuel fd f;;
      sys (Close fd);;
      wc_files fuel files'
  end.

Definition wc_main (fuel : nat) (argv : list (list Z)) : U () :=
  match argv with
  | [] | [_] => wc fuel 0 [];; exit
  | _ :: files => wc_files fuel files
  end.

(** ** cat.c *)

Fixpoint cat_loop (fuel : nat) (fd : Z) : U Z :=
  match fuel with
  | O => fault
  | S fuel' =>
      r ← read fd 512;
      if r.1 <=? 0 then mret r.1 else write 1 (take (Z.to_nat r.1) r.2);; cat_loop fuel' fd
  end.

Definition cat (fuel : nat) (fd : Z) : U () :=
  n ← cat_loop fuel fd;
  if n <? 0 then printf 1 ("cat: read error" +:+ nl) [];; exit else mret ().

Fixpoint cat_files (fuel : nat) (files : list (list Z)) : U () :=
  match files with
  | [] => exit
  | f :: files' =>
      fd ← sys (Open f 0);
      if fd <? 0 then printf 1 ("cat: cannot open %s" +:+ nl) [AStr (Some f)];; exit else
      cat fuel fd;;
      sys (Close fd);;
      cat_files fuel files'
  end.

Definition cat_main (fuel : nat) (argv : list (list Z)) : U () :=
  match argv with
  | [] | [_] => cat fuel 0;; exit
  | _ :: files => cat_files fuel files
  end.

(** ** echo.c *)

Fixpoint echo_loop (args : list (list Z)) : U () :=
  match args with
  | [] => mret ()
  | a :: args' =>
      printf 1 "%s%s" [AStr (Some a); AStr (Some (if bool_decide (args' = []) then [10] else [32]))];;
      echo_loop args'
  end.

Definition echo_main (argv : list (list Z)) : U () := echo_loop (tail argv);; exit.

(** ** mkdir.c, rm.c, ln.c, kill.c, zombie.c, pwd.c *)

Fixpoint mkdir_loop (files : list (list Z)) : U () :=
  match files with
  | [] => mret ()
  | f :: files' =>
      r ← sys (Mkdir f);
      if r <? 0 then printf 2 ("mkdir: %s failed to create" +:+ nl) [AStr (Some f)]
      else mkdir_loop files'
  end.

Definition mkdir_main (argv : list (list Z)) : U () :=
  if bool_decide (length argv < 2)%nat then printf 2 ("Usage: mkdir files..." +:+ nl) [];; exit else
  mkdir_loop (tail argv);; exit.

Fixpoint rm_loop (files : list (list Z)) : U () :=
  match files with
  | [] => mret ()
  | f :: files' =>
      r ← sys (Unlink f);
      if r <? 0 then printf 2 ("rm: %s failed to delete" +:+ nl) [AStr (Some f)]
      else rm_loop files'
  end.

Definition rm_main (argv : list (list Z)) : U () :=
  if bool_decide (length argv < 2)%nat then printf 2 ("Usage: rm files..." +:+ nl) [];; exit else
  rm_loop (tail argv);; exit.

Definition ln_main (argv : list (list Z)) : U () :=
  match argv with
  | [_; old; new] =>
      r ← sys (Link old new);
      when (r <? 0) (printf 2 ("link %s %s: failed" +:+ nl) [AStr (Some old); AStr (Some new)]);;
      exit
  | _ => printf 2 ("Usage: ln old new" +:+ nl) [];; exit
  end.

(** An argument's memory ends with its NUL. *)
Fixpoint kill_loop (args : list (list Z)) : U () :=
  match args with
  | [] => mret ()
  | a :: args' => pid ← the (atoi (a ++ [0])); sys (Kill pid);; kill_loop args'
  end.

Definition kill_main (argv : list (list Z)) : U () :=
  if bool_decide (length argv < 1)%nat then printf 2 ("usage: kill pid..." +:+ nl) [];; exit else
  kill_loop (tail argv);; exit.

Definition zombie_main : U () :=
  r ← sys Fork;
  when (0 <? r) (sys (SleepTicks 5);; mret ());;
  exit.

(** The bytes of [path] after the call are the ones the system stored. *)
Definition pwd_main : U () :=
  path ← gets (λ tr, os_data tr (Getcwd 512));
  sys (Getcwd 512);;
  if cstr_ok (length path) path && bool_decide (0 ∈ path) then
    printf 0 ("%s" +:+ nl) [AStr (Some (cstr (length path) path))];; exit
  else fault.

(** ** init.c *)

Definition init_start : U () :=
  r ← sys (Open (chars "console") 2);
  when (r <? 0) (sys (Mknod (chars "console") 1 1);; sys (Open (chars "console") 2);; mret ());;
  sys (Dup 0);;
  sys (Dup 0);;
  mret ().

(** [while((wpid=wait()) >= 0 && wpid != pid)], at most [fuel] turns. *)
Fixpoint init_wait (fuel : nat) (pid : Z) : U () :=
  match fuel with
  | O => fault
  | S fuel' =>
      wpid ← sys Wait;
      if (0 <=? wpid) && negb (wpid =? pid) then printf 1 ("zombie!" +:+ nl) [];; init_wait fuel' pid
      else mret ()
  end.

(** One turn of the loop that keeps a shell running. *)
Definition init_turn (fuel : nat) : U () :=
  printf 1 ("init: starting sh" +:+ nl) [];;
  pid ← sys Fork;
  if pid <? 0 then printf 1 ("init: fork failed" +:+ nl) [];; exit else
  if pid =? 0 then
    sys (Exec (chars "sh") [chars "sh"]);;
    printf 1 ("init: exec sh failed" +:+ nl) [];;
    exit
  else init_wait fuel pid.

End Programs.

(** ** What wc counts *)

(** The number of words: the places where a word starts. *)
Fixpoint words (inword : bool) (d : list Z) : Z :=
  match d with
  | [] => 0
  | b :: d' => if is_space b then words false d' else (if inword then 0 else 1) + words true d'
  end.

Definition newlines (d : list Z) : Z := Z.of_nat (length (filter (λ b, b = 10) d)).

Lemma words_bound inword d : 0 ≤ words inword d ≤ Z.of_nat (length d).
Proof.
  revert inword. induction d as [|b d IH]; intros w; [done|]. simpl.
  pose proof (IH true). pose proof (IH false). repeat case_match; lia.
Qed.

Lemma newlines_cons b d : newlines (b :: d) = (if b =? 10 then 1 else 0) + newlines d.
Proof.
  unfold newlines. destruct (Z.eqb_spec b 10); [rewrite filter_cons_True by done; simpl; lia|].
  by rewrite filter_cons_False by done.
Qed.

Lemma newlines_bound d : 0 ≤ newlines d ≤ Z.of_nat (length d).
Proof. unfold newlines. pose proof (length_filter (λ b, b = 10) d). lia. Qed.

(** The state of the counters after the bytes [d]. *)
Lemma wc_chars_spec x d :
  0 ≤ wc_l x → 0 ≤ wc_w x → 0 ≤ wc_c x →
  Z.max (wc_l x) (Z.max (wc_w x) (wc_c x)) + Z.of_nat (length d) < 2 ^ 31 →
  let y := foldl wc_char x d in
  wc_l y = wc_l x + newlines d ∧ wc_w y = wc_w x + words (wc_inword x) d ∧
  wc_c y = wc_c x + Z.of_nat (length d).
Proof.
  revert x. induction d as [|b d IH]; intros x Hl Hw Hc Hb; [unfold newlines; simpl; lia|].
  cbn [foldl]. cbn [length] in Hb. rewrite newlines_cons.
  assert (wc_c (wc_char x b) = wc_c x + 1 ∧ wc_l (wc_char x b) = wc_l x + (if b =? 10 then 1 else 0) ∧
    wc_w (wc_char x b) = wc_w x + (if is_space b then 0 else if wc_inword x then 0 else 1) ∧
    wc_inword (wc_char x b) = negb (is_space b)) as (Ec & El & Ew & Ei).
  { unfold wc_char. rewrite !s32_small by lia.
    destruct (is_space b), (wc_inword x), (b =? 10); simpl; repeat split; lia. }
  destruct (IH (wc_char x b)) as (I1 & I2 & I3); [repeat case_match; lia..|].
  rewrite I1, I2, I3, Ec, El, Ew, Ei. cbn [words length].
  destruct (is_space b); cbn [negb]; repeat split; lia.
Qed.

Section Files.
Context `{Os}.

Lemma wc_loop_spec fd x chunks e tr :
  feeds fd 512 tr chunks e → e ≤ 0 → Forall (λ d, d ≠ []) chunks →
  wp (wc_loop (S (length chunks)) fd x)
    (λ r tr', r = (e, foldl wc_char x (concat chunks)) ∧ ∀ o, output o tr' = output o tr) tr.
Proof.
  revert x tr. induction chunks as [|d chunks IH]; intros x tr F He Hne; cbn [wc_loop length]; apply wp_bind.
  - eapply wp_of_runs; [by eapply feeds_end|]. cbn [fst]. rewrite (proj2 (Z.leb_le e 0)) by done. by wp_steps.
  - apply Forall_cons in Hne as [Hd Hne]. eapply wp_of_runs; [by eapply feeds_head|]. cbn [fst snd].
    rewrite (proj2 (Z.leb_gt _ 0)) by (destruct d; simpl; [done|lia]).
    eapply wp_mono; [apply IH; [by eapply feeds_tail|done..]|]. intros r tr' [-> Ho]. cbn [concat].
    rewrite foldl_app. split; [done|]. intros o. by rewrite Ho.
Qed.

Lemma cat_loop_spec fd chunks e tr :
  feeds fd 512 tr chunks e → e ≤ 0 → Forall (λ d, d ≠ []) chunks →
  wp (cat_loop (S (length chunks)) fd)
    (λ r tr', r = e ∧ output 1 tr' = output 1 tr ++ concat chunks) tr.
Proof.
  revert tr. induction chunks as [|d chunks IH]; intros tr F He Hne; cbn [cat_loop length]; apply wp_bind.
  - eapply wp_of_runs; [by eapply feeds_end|]. cbn [fst]. rewrite (proj2 (Z.leb_le e 0)) by done.
    wp_steps. split; [done|]. simpl. by rewrite app_nil_r.
  - apply Forall_cons in Hne as [Hd Hne]. eapply wp_of_runs; [by eapply feeds_head|]. cbn [fst snd].
    rewrite (proj2 (Z.leb_gt _ 0)) by (destruct d; simpl; [done|lia]). rewrite Nat2Z.id, take_ge by lia.
    wp_step. apply wp_write.
    eapply wp_mono; [apply IH; [|done..]|].
    + eapply feeds_eq; [by eapply feeds_tail|done].
    + intros r tr' [-> Ho]. split; [done|]. rewrite Ho. simpl. by rewrite <-app_assoc.
Qed.

(** [wc] prints the numbers of lines, words and bytes of the whole input,
    however the reads cut it, words across two reads included. *)
Theorem wc_counts fd name chunks tr :
  feeds fd 512 tr chunks 0 → Forall (λ d, d ≠ []) chunks → let d := concat chunks in
  Z.of_nat (length d) < 2 ^ 31 →
  wp (wc (S (length chunks)) fd name) (λ _ tr', output 1 tr' = output 1 tr ++ (u8 <$>
    uprintint_chars (newlines d) 10 true ++ 32 :: uprintint_chars (words false d) 10 true ++
    32 :: uprintint_chars (Z.of_nat (length d)) 10 true ++ 32 :: name ++ [10])) tr.
Proof.
  intros F Hne d Hd. unfold wc.
  wp_call (wc_loop_spec fd _ _ 0 _ F); [done..|]. intros r t1 [-> Ho]. cbn beta iota.
  change (0 <? 0) with false. cbn iota.
  destruct (wc_chars_spec {| wc_l := 0; wc_w := 0; wc_c := 0; wc_inword := false |} d)
    as (E1 & E2 & E3); [simpl; lia..|]. fold d.
  eapply wp_mono; [apply printf_spec; reflexivity|]. intros [] t2 W.
  rewrite (writes_output _ _ _ _ W), Ho, E1, E2, E3. cbn [wc_l wc_w wc_c wc_inword].
  pose proof (words_bound false d). pose proof (newlines_bound d).
  rewrite !s32_small by lia. rewrite !Z.add_0_l. done.
Qed.

(** [cat] writes what it reads, and nothing else. *)
Theorem cat_copies fd chunks tr :
  feeds fd 512 tr chunks 0 → Forall (λ d, d ≠ []) chunks →
  wp (cat (S (length chunks)) fd) (λ _ tr', output 1 tr' = output 1 tr ++ concat chunks) tr.
Proof.
  intros F Hne. unfold cat. wp_call (cat_loop_spec fd _ 0 _ F); [done..|].
  intros r t1 [-> Ho]. by wp_steps.
Qed.

End Files.

Lemma wc_counts_witness :
  let O := chunk_os [chars "one tw"; chars "o three"] in
  wp (wc 3 0 []) (λ _ tr', output 1 tr' = u8 <$>
    uprintint_chars 0 10 true ++ 32 :: uprintint_chars 3 10 true ++ 32 :: uprintint_chars 13 10 true ++ [32; 10]) [].
Proof.
  apply (wc_counts (H := chunk_os [chars "one tw"; chars "o three"]) 0 [] [chars "one tw"; chars "o three"] []).
  - apply feeds_chunk_os.
  - repeat constructor; done.
  - vm_compute. reflexivity.
Defined.
