(* ===== verification/Ls.v ===== *)
(** * Ls: listing a directory (ls.c)

    A path is its characters, without the NUL.  The fields of the [struct stat]
    that [fstat] stores are read from its bytes. *)

From S2P Require Import Prelude Bytes CString Print User.

#[local] Arguments replicate : simpl never.

(** ** The code *)

(** The loop that looks for the last slash, with [n] characters before and at
    [p], and the increment after it: the index of the first character of the
    last element. *)
Fixpoint last_slash (path : list Z) (n : nat) : nat :=
  match n with
  | O => O
  | S p => if (path ++ [0]) !!! p =? 47 then S p else last_slash path p
  end.

Definition fmtname (path : list Z) : list Z :=
  let p := drop (last_slash path (S (length path))) path in
  if bool_decide (14 ≤ length p)%nat then p else p ++ replicate (14 - length p) 32.

(** [struct stat] *)
Definition ust_type (st : list Z) : Z := s16 (get16 0 st).
Definition ust_ino (st : list Z) : Z := get32 8 st.
Definition ust_size (st : list Z) : Z := get32 16 st.

(** [struct dirent] *)
Definition lde_inum (de : list Z) : Z := get16 0 de.
Definition lde_name (de : list Z) : list Z := slice 2 14 de.

Section Ls.
Context `{Os}.

Definition ls_line (path st : list Z) : U () :=
  printf 1 ("%s %d %d %d" +:+ nl)
    [AStr (Some (fmtname path)); AInt (ust_type st); AInt (ust_ino st); AInt (ust_size st)].

(** The rest of the loop body, for an entry in use. *)
Definition ls_entry (path de : list Z) : U () :=
  let buf := path ++ 47 :: cstr 14 (lde_name de) in
  st ← stat buf;
  if st.1 <? 0 then printf 1 ("ls: cannot stat %s" +:+ nl) [AStr (Some buf)] else ls_line buf st.2.

(** The loop over the entries; it makes at most [fuel] reads. *)
Fixpoint ls_dir (fuel : nat) (fd : Z) (path : list Z) : U () :=
  match fuel with
  | O => fault
  | S fuel' =>
      r ← read fd 16;
      if negb (r.1 =? 16) then mret () else
      if lde_inum r.2 =? 0 then ls_dir fuel' fd path else
      ls_entry path r.2;;
      ls_dir fuel' fd path
  end.

Definition ls (fuel : nat) (path : list Z) : U () :=
  fd ← sys (Open path 0);
  if fd <? 0 then printf 2 ("ls: cannot open %s" +:+ nl) [AStr (Some path)] else
  st ← fstat fd;
  if st.1 <? 0 then
    printf 2 ("ls: cannot stat %s" +:+ nl) [AStr (Some path)];;
    sys (Close fd);;
    mret ()
  else
    (if ust_type st.2 =? 2 then ls_line path st.2
     else if ust_type st.2 =? 1 then
       if 512 <? Z.of_nat (length path) + 1 + 14 + 1 then printf 1 ("ls: path too long" +:+ nl) []
       else ls_dir fuel fd path
     else mret ());;
    sys (Close fd);;
    mret ().

Fixpoint ls_paths (fuel : nat) (paths : list (list Z)) : U () :=
  match paths with
  | [] => exit
  | p :: paths' => ls fuel p;; ls_paths fuel paths'
  end.

Definition ls_main (fuel : nat) (argv : list (list Z)) : U () :=
  if bool_decide (length argv < 2)%nat then ls fuel (chars ".");; exit
  else ls_paths fuel (tail argv).

End Ls.

(** ** The name column *)

(** No slash among the [k] characters before [p]. *)
Lemma last_slash_skip path n k : (∀ j, (n ≤ j < n + k)%nat → (path ++ [0]) !!! j ≠ 47) →
  last_slash path (n + k) = last_slash path n.
Proof.
  induction k as [|k IH]; intros H; [by rewrite Nat.add_0_r|]. rewrite Nat.add_succ_r. cbn [last_slash].
  rewrite (proj2 (Z.eqb_neq _ _)) by (apply H; lia). apply IH. intros j Hj. apply H. lia.
Qed.

Lemma name_char (name : list Z) j : (47 ∉ name) → (name ++ [0]) !!! j ≠ 47.
Proof.
  intros Hn E. destruct (decide (j < S (length name))%nat) as [Hj|Hj].
  - assert (47 ∈ name ++ [0]) as [Hi|Hi]%elem_of_app; [|done|by apply list_elem_of_singleton in Hi].
    rewrite <-E. apply list_elem_of_lookup_total_2. len.
  - rewrite list_lookup_total_alt, lookup_ge_None_2 in E by len. done.
Qed.

(** [fmtname] is the last element of the path, padded with blanks to [DIRSIZ]. *)
Lemma fmtname_spec dir name : (47 ∉ name) →
  fmtname (dir ++ 47 :: name) = name ++ replicate (14 - length name) 32 ∧
  fmtname name = name ++ replicate (14 - length name) 32.
Proof.
  intros Hn. assert (∀ l, (if bool_decide (14 ≤ length l)%nat then l else l ++ replicate (14 - length l) 32) =
    l ++ replicate (14 - length l) 32) as E.
  { intros l. case_bool_decide; [|done]. replace (14 - length l)%nat with O by lia. by rewrite app_nil_r. }
  unfold fmtname. split; rewrite E; clear E.
  - replace (S (length (dir ++ 47 :: name))) with (S (length dir) + S (length name))%nat by len.
    rewrite last_slash_skip.
    + cbn [last_slash]. rewrite <-app_assoc. cbn [app]. rewrite list_lookup_total_middle by done. cbn [Z.eqb Pos.eqb].
      change (dir ++ 47 :: name) with (dir ++ [47] ++ name). rewrite app_assoc, drop_app_length' by len. done.
    + intros j Hj. change (dir ++ 47 :: name) with (dir ++ [47] ++ name). rewrite <-!app_assoc, app_assoc.
      rewrite lookup_total_app_r by len. by apply name_char.
  - change (S (length name)) with (0 + S (length name))%nat. rewrite last_slash_skip; [done|]. intros j _. by apply name_char.
Qed.

(** ** What ls prints *)

(** The operating system answers [stat] by [st]: it opens the file and stores
    the bytes of [st path], or cannot open it. *)
Definition stats `{Os} (st : list Z → option (list Z)) : Prop :=
  ∀ tr path, let fd := os_int tr (Open path 0) in
  match st path with
  | Some b => 0 ≤ fd ∧ os_int (Open path 0 :: tr) (Fstat fd) = 0 ∧ os_data (Open path 0 :: tr) (Fstat fd) = b
  | None => fd < 0
  end.

(** The line for the file [path]. *)
Definition line_of (path st : list Z) : list Z :=
  fmtname path ++ 32 :: uprintint_chars (s32 (ust_type st)) 10 true ++
  32 :: uprintint_chars (s32 (ust_ino st)) 10 true ++ 32 :: uprintint_chars (s32 (ust_size st)) 10 true ++ [10].

(** What is printed for a directory entry: nothing when it is free. *)
Definition entry_line (st : list Z → option (list Z)) (path de : list Z) : list Z :=
  if lde_inum de =? 0 then [] else
  let buf := path ++ 47 :: cstr 14 (lde_name de) in
  match st buf with
  | Some b => line_of buf b
  | None => chars "ls: cannot stat " ++ buf ++ [10]
  end.

Section Listing.
Context `{Os} (st : list Z → option (list Z)) (Hst : stats st).
Set Default Proof Using "All".

(** Calls that read nothing, and write to standard output only [out]. *)
Definition prints (out : list Z) (tr tr' : list call) : Prop :=
  output 1 tr' = output 1 tr ++ out ∧ reads tr' = reads tr.

Lemma stat_spec path tr : wp (stat path) (λ r tr', prints [] tr tr' ∧
  match st path with Some b => r = (0, b) | None => r.1 < 0 end) tr.
Proof.
  pose proof (Hst tr path) as Ha. cbn zeta in Ha. unfold stat, sys, fstat, wp, mbind, M_bind.
  destruct (st path) as [b|].
  - destruct Ha as (H0 & E1 & E2). rewrite (proj2 (Z.ltb_ge _ 0)) by done. cbn. rewrite E1, E2.
    split; [|done]. by split; [rewrite app_nil_r|].
  - rewrite (proj2 (Z.ltb_lt _ 0)) by done. cbn. split; [|done]. by split; [rewrite app_nil_r|].
Qed.

Lemma printf_prints fmt args out tr : rendered false (chars fmt) args = Some out →
  wp (printf 1 fmt args) (λ _ tr', prints (u8 <$> out) tr tr') tr.
Proof.
  intros R. eapply wp_mono; [by apply printf_spec|]. intros [] t W. split; [by apply writes_output|by eapply writes_reads].
Qed.

Lemma entry_spec path de tr : lde_inum de ≠ 0 →
  wp (ls_entry path de) (λ _ tr', prints (u8 <$> entry_line st path de) tr tr') tr.
Proof.
  intros Hi. unfold ls_entry. set (buf := path ++ _). wp_call (stat_spec buf tr). intros r t1 [P1 E]. unfold entry_line. rewrite (proj2 (Z.eqb_neq _ _)) by done.
  fold buf. destruct (st buf) as [b|].
  - subst r. cbn [fst snd]. change (0 <? 0) with false. eapply wp_mono; [by apply printf_prints|].
    intros [] t2 [O2 R2]. destruct P1 as [O1 R1]. split; [|congruence]. by rewrite O2, O1, app_nil_r.
  - rewrite (proj2 (Z.ltb_lt _ _)) by done. eapply wp_mono; [by apply printf_prints|].
    intros [] t2 [O2 R2]. destruct P1 as [O1 R1]. split; [|congruence]. by rewrite O2, O1, app_nil_r.
Qed.

Lemma ls_dir_spec fd path ds : ∀ tr, feeds fd 16 tr ds 0 → Forall (λ d, length d = 16%nat) ds →
  wp (ls_dir (S (length ds)) fd path)
    (λ _ tr', output 1 tr' = output 1 tr ++ (u8 <$> concat (entry_line st path <$> ds))) tr.
Proof.
  induction ds as [|d ds IH]; intros tr F Hl; cbn [ls_dir length]; apply wp_bind.
  - eapply wp_of_runs; [by eapply feeds_end|]. cbn [fst]. wp_steps. cbn. by rewrite app_nil_r.
  - apply Forall_cons in Hl as [Hd Hl]. eapply wp_of_runs; [by eapply feeds_head|]. cbn [fst snd]. rewrite Hd.
    change (negb (Z.of_nat 16 =? 16)) with false. cbv iota. cbn [fmap list_fmap concat]. rewrite fmap_app.
    pose proof (feeds_tail _ _ _ _ _ _ F) as F'. destruct (Z.eqb_spec (lde_inum d) 0) as [Hi|Hi].
    + unfold entry_line at 1. rewrite Hi. eapply wp_mono; [by apply IH|]. done.
    + wp_call (entry_spec path d); [done|]. intros [] t1 [O1 R1]. eapply wp_mono; [apply IH; [by eapply feeds_eq|done]|].
      intros [] t2 O2. by rewrite O2, O1, app_assoc.
Qed.

(** On a directory, [ls] prints one line for each entry in use, in the order
    of the directory: the name padded to [DIRSIZ], the type, the inode number
    and the size that [stat] gives for the file, or a message when it gives
    nothing; and nothing for a free entry. *)
Theorem ls_lists path b ds tr : let fd := os_int tr (Open path 0) in
  st path = Some b → ust_type b = 1 → Z.of_nat (length path) + 16 ≤ 512 →
  feeds fd 16 (Fstat fd :: Open path 0 :: tr) ds 0 → Forall (λ d, length d = 16%nat) ds →
  wp (ls (S (length ds)) path) (λ _ tr',
    output 1 tr' = output 1 tr ++ (u8 <$> concat (entry_line st path <$> ds))) tr.
Proof.
  intros fd Hb Ht Hl F Hd. pose proof (Hst tr path) as Ha. fold fd in Ha. cbn zeta in Ha. rewrite Hb in Ha. destruct Ha as (H0 & E1 & E2).
  unfold ls. apply wp_bind. unfold sys at 1. unfold wp at 1. fold fd. rewrite (proj2 (Z.ltb_ge fd 0)) by done.
  apply wp_bind. unfold fstat, wp at 1. rewrite E1, E2. cbn [fst snd]. change (0 <? 0) with false. cbv iota.
  rewrite Ht. cbn [Z.eqb Pos.eqb]. rewrite (proj2 (Z.ltb_ge _ _)) by lia.
  wp_call (ls_dir_spec fd path ds); [done|done|]. intros [] t2 O2. exact O2.
Qed.

End Listing.

(** A directory with a free entry, a file and a stale entry. *)
Module LsExample.

Definition path_of (tr : list call) : list Z :=
  match tr with Open p _ :: _ => p | _ => [] end.

Definition dir_stat : list Z := [1; 0; 0; 0; 1; 0; 0; 0; 1; 0; 0; 0; 2; 0; 0; 0; 48; 0; 0; 0].
Definition cat_stat : list Z := [2; 0; 0; 0; 1; 0; 0; 0; 7; 0; 0; 0; 1; 0; 0; 0; 44; 1; 0; 0].

Definition st (path : list Z) : option (list Z) :=
  if bool_decide (path = chars "d") then Some dir_stat
  else if bool_decide (path = chars "d/cat") then Some cat_stat else None.

Definition entries : list (list Z) :=
  [7 :: 0 :: chars "cat" ++ replicate 11 0; replicate 16 0; 9 :: 0 :: chars "gone" ++ replicate 10 0].

#[local] Instance os : Os := {|
  os_int tr c := match c with
    | Open p _ => match st p with Some _ => 3 | None => -1 end
    | Read _ _ => Z.of_nat (length (default [] (entries !! reads tr)))
    | _ => 0 end;
  os_data tr c := match c with
    | Fstat _ => default [] (st (path_of tr))
    | Read _ _ => default [] (entries !! reads tr)
    | _ => [] end;
|}.

Lemma ls_lists_witness :
  wp (ls 4 (chars "d")) (λ _ tr', output 1 tr' = chars ("cat            2 7 300" +:+ nl +:+
    "ls: cannot stat d/gone" +:+ nl)) [].
Proof.
  apply (ls_lists (H := os) st) with (path := chars "d") (b := dir_stat) (ds := entries).
  - intros tr path. cbn. destruct (st path); [|done]. done.
  - by vm_compute.
  - by vm_compute.
  - by vm_compute.
  - intros tr k E. cbn in E. cbn [os os_int os_data]. rewrite E. by destruct (entries !! k).
  - by repeat constructor.
Defined.

End LsExample.
