(* ===== verification/Grep.v ===== *)
(** * Grep: the pattern matcher and the loop of grep.c

    The matcher works on C strings: a pattern or text is the list of the
    characters before its NUL, and a pointer into it the list of those that
    follow.  [match_denotes] shows that it decides the language of the
    pattern.  The loop works on the memory from the buffer [buf] on. *)

From S2P Require Import Prelude Bytes CString Print User.

(** ** The matcher *)

(** The loop of [matchstar]; [here] is [matchhere(re, .)]. *)
Fixpoint matchstar_loop (here : list Z → bool) (c : Z) (text : list Z) : bool :=
  here text ||
  match text with
  | [] => false
  | t :: text' => ((t =? c) || (c =? 46)) && matchstar_loop here c text'
  end.

Fixpoint matchhere (re text : list Z) : bool :=
  match re with
  | [] => true
  | c :: re1 =>
      match re1 with
      | 42 :: re2 => matchstar_loop (matchhere re2) c text
      | _ =>
          if (c =? 36) && bool_decide (re1 = []) then bool_decide (text = []) else
          match text with
          | [] => false
          | t :: text' => ((c =? 46) || (c =? t)) && matchhere re1 text'
          end
      end
  end.

Definition matchstar (c : Z) (re text : list Z) : bool := matchstar_loop (matchhere re) c text.

Fixpoint match_loop (re text : list Z) : bool :=
  matchhere re text ||
  match text with [] => false | _ :: text' => match_loop re text' end.

Definition match_ (re text : list Z) : bool :=
  match re with
  | 94 :: re1 => matchhere re1 text
  | _ => match_loop re text
  end.

(** ** grep *)

Section Grep.
Context `{Os}.

(** The inner loop, over the memory [mem] from [buf] on; it returns the memory
    and the pointer [p].  Every turn moves [p] on, so the length of the memory
    bounds their number. *)
Fixpoint grep_lines (fuel : nat) (pattern mem : list Z) (p : nat) : U (list Z * nat) :=
  match fuel with
  | O => fault
  | S fuel' =>
      r ← the (strchr (drop p mem) 10);
      match r with
      | None => mret (mem, p)
      | Some k =>
          let q := (p + k)%nat in
          mem ← the (store mem q 0);
          mem ← (if match_ pattern (cstr (length mem) (drop p mem)) then
                   mem ← the (store mem q 10);
                   write 1 (slice p (q + 1 - p) mem);;
                   mret mem
                 else mret mem);
          grep_lines fuel' pattern mem (q + 1)
      end
  end.

(** Read into [buf+m]; below [buf] the model has no memory. *)
Definition grep_read (fd : Z) (mem : list Z) (m : Z) : U (Z * list Z) :=
  r ← read fd (1024 - m);
  if r.1 <=? 0 then mret (r.1, mem) else
  if (m <? 0) || (Z.of_nat (length mem) <? m + r.1) then fault else
  mret (r.1, splice (Z.to_nat m) r.2 mem).

(** At most [fuel] reads. *)
Fixpoint grep_loop (fuel : nat) (pattern : list Z) (fd : Z) (mem : list Z) (m : Z) : U (list Z) :=
  match fuel with
  | O => fault
  | S fuel' =>
      r ← grep_read fd mem m;
      let '(n, mem) := r in
      if n <=? 0 then mret mem else
      let m := m + n in
      l ← grep_lines (S (length mem)) pattern mem 0;
      let '(mem, p) := l in
      let m := if bool_decide (p = 0%nat) then 0 else m in
      if 0 <? m then
        let m := m - Z.of_nat p in
        mem ← the (ulib_memmove mem 0 p (Z.to_nat m));
        grep_loop fuel' pattern fd mem m
      else grep_loop fuel' pattern fd mem m
  end.

Definition grep (fuel : nat) (pattern : list Z) (fd : Z) (mem : list Z) : U (list Z) :=
  grep_loop fuel pattern fd mem 0.

Fixpoint grep_files (fuel : nat) (pattern : list Z) (files : list (list Z)) (mem : list Z) : U () :=
  match files with
  | [] => exit
  | f :: files' =>
      fd ← sys (Open f 0);
      if fd <? 0 then printf 1 ("grep: cannot open %s" +:+ nl) [AStr (Some f)];; exit else
      mem ← grep fuel pattern fd mem;
      sys (Close fd);;
      grep_files fuel pattern files' mem
  end.

Definition grep_main (fuel : nat) (argv : list (list Z)) (mem : list Z) : U () :=
  match argv with
  | [] | [_] => printf 2 ("usage: grep pattern [file ...]" +:+ nl) [];; exit
  | [_; pattern] => grep fuel pattern 0 mem;; exit
  | _ :: pattern :: files => grep_files fuel pattern files mem
  end.

End Grep.

(** ** The language of a pattern *)

Inductive atom := Any | Char (c : Z).
Inductive item := One (a : atom) | Star (a : atom).

(** A pattern: whether it is tied to the start and to the end of the line. *)
Record pattern := { pt_start : bool; pt_items : list item; pt_end : bool }.

Definition atom_of (c : Z) : atom := if c =? 46 then Any else Char c.

(** The items of a pattern, and whether a final dollar sign ends it. *)
Fixpoint compile_items (re : list Z) : list item * bool :=
  match re with
  | [] => ([], false)
  | c :: re1 =>
      match re1 with
      | 42 :: re2 => let (l, e) := compile_items re2 in (Star (atom_of c) :: l, e)
      | _ =>
          if (c =? 36) && bool_decide (re1 = []) then ([], true) else
          let (l, e) := compile_items re1 in (One (atom_of c) :: l, e)
      end
  end.

Definition compile (re : list Z) : pattern :=
  match re with
  | 94 :: re1 => {| pt_start := true; pt_items := (compile_items re1).1; pt_end := (compile_items re1).2 |}
  | _ => {| pt_start := false; pt_items := (compile_items re).1; pt_end := (compile_items re).2 |}
  end.

Definition sat (a : atom) (c : Z) : Prop := match a with Any => True | Char d => c = d end.

(** The words of a list of items: concatenation, and repetition. *)
Fixpoint lang (l : list item) (w : list Z) : Prop :=
  match l with
  | [] => w = []
  | One a :: l' => ∃ c v, w = c :: v ∧ sat a c ∧ lang l' v
  | Star a :: l' => ∃ u v, w = u ++ v ∧ Forall (sat a) u ∧ lang l' v
  end.

(** A line matches when a part of it is a word of the items, the part being at
    the start or at the end of the line where the pattern says so. *)
Definition denotes (p : pattern) (text : list Z) : Prop :=
  ∃ pre w post, text = pre ++ w ++ post ∧ lang (pt_items p) w ∧
    (pt_start p = true → pre = []) ∧ (pt_end p = true → post = []).

(** A word of the items is at the start of the text. *)
Definition prefix_denotes (p : list item * bool) (text : list Z) : Prop :=
  ∃ w post, text = w ++ post ∧ lang p.1 w ∧ (p.2 = true → post = []).

Lemma sat_atom_of c t : sat (atom_of c) t ↔ c = 46 ∨ t = c.
Proof. unfold atom_of. zcase; simpl; naive_solver. Qed.

Lemma matchstar_loop_spec here c text :
  matchstar_loop here c text = true ↔
  ∃ u v, text = u ++ v ∧ Forall (sat (atom_of c)) u ∧ here v = true.
Proof.
  induction text as [|t text IH]; simpl; rewrite orb_true_iff, ?andb_true_iff, ?orb_true_iff, ?IH.
  - split; [intros [?|?]; [by exists [], []|done]|].
    intros (u & v & E & _ & Hv). destruct u, v; try done. by left.
  - rewrite !Z.eqb_eq. split.
    + intros [Hh|[Ht (u & v & -> & Hu & Hv)]]; [by exists [], (t :: text)|].
      exists (t :: u), v. split; [done|]. split; [|done]. constructor; [|done].
      apply sat_atom_of. naive_solver.
    + intros ([|t' u] & v & E & Hu & Hv); simplify_eq/=; [by left|]. right.
      apply Forall_cons in Hu as [Ht Hu]. apply sat_atom_of in Ht.
      split; [naive_solver|by exists u, v].
Qed.

Lemma prefix_star a l e text :
  prefix_denotes (Star a :: l, e) text ↔
  ∃ u v, text = u ++ v ∧ Forall (sat a) u ∧ prefix_denotes (l, e) v.
Proof.
  unfold prefix_denotes. simpl. split.
  - intros (w & post & -> & (u & v & -> & Hu & Hv) & He). rewrite <-app_assoc. naive_solver.
  - intros (u & ? & -> & Hu & w & post & -> & Hw & He). exists (u ++ w), post.
    rewrite <-app_assoc. naive_solver.
Qed.

Lemma prefix_one a l e text :
  prefix_denotes (One a :: l, e) text ↔
  ∃ t v, text = t :: v ∧ sat a t ∧ prefix_denotes (l, e) v.
Proof.
  unfold prefix_denotes. simpl. split.
  - intros (w & post & -> & (c & v & -> & Hc & Hv) & He). exists c, (v ++ post). naive_solver.
  - intros (t & ? & -> & Ht & w & post & -> & Hw & He). exists (t :: w), post. naive_solver.
Qed.

(** Case analysis as [matchhere] does it: end of the pattern, a star, a final
    dollar sign, or one character. *)
Lemma re_ind (P : list Z → Prop) :
  P [] → (∀ c re, P re → P (c :: 42 :: re)) → P [36] →
  (∀ c re, head re ≠ Some 42 → (c, re) ≠ (36, []) → P re → P (c :: re)) →
  ∀ re, P re.
Proof.
  intros H0 Hs He H1. assert (∀ n re, (length re ≤ n)%nat → P re) as H; [|by intros; eapply H].
  induction n as [|n IH]; intros [|c re] L; simpl in L; try done; try lia.
  destruct (decide (head re = Some 42)) as [E|E].
  - destruct re as [|x re]; simplify_eq/=. apply Hs, IH. lia.
  - destruct (decide ((c, re) = (36, []))) as [[= -> ->]|]; [done|]. apply H1; [done..|]. apply IH. lia.
Qed.

Lemma not_final_dollar c (re : list Z) : (c, re) ≠ (36, []) → (c =? 36) && bool_decide (re = []) = false.
Proof.
  intros He. apply andb_false_iff. destruct (decide (c = 36)) as [->|]; [right|left; by apply Z.eqb_neq].
  apply bool_decide_eq_false. congruence.
Qed.

Lemma matchhere_one c re text : head re ≠ Some 42 → (c, re) ≠ (36, []) →
  matchhere (c :: re) text =
  match text with [] => false | t :: text' => ((c =? 46) || (c =? t)) && matchhere re text' end.
Proof.
  intros Hs He. simpl. rewrite not_final_dollar by done. destruct re as [|x re]; [done|].
  destruct (decide (x = 42)) as [->|]; [done|]. repeat case_match; try done; simplify_eq/=.
Qed.

Lemma compile_items_one c re : head re ≠ Some 42 → (c, re) ≠ (36, []) →
  compile_items (c :: re) = (One (atom_of c) :: (compile_items re).1, (compile_items re).2).
Proof.
  intros Hs He. simpl. rewrite not_final_dollar by done. destruct re as [|x re]; [done|].
  destruct (decide (x = 42)) as [->|]; [done|].
  destruct (compile_items (x :: re)). repeat case_match; try done; simplify_eq/=.
Qed.

Lemma matchhere_spec re text : matchhere re text = true ↔ prefix_denotes (compile_items re) text.
Proof.
  revert text. induction re as [|c re IH| |c re Hs He IH] using re_ind; intros text.
  - split; [|done]. intros _. by exists [], text.
  - change (matchhere (c :: 42 :: re) text) with (matchstar_loop (matchhere re) c text).
    rewrite matchstar_loop_spec. cbn [compile_items]. destruct (compile_items re) as [l e].
    rewrite prefix_star. by setoid_rewrite IH.
  - change (matchhere [36] text) with (bool_decide (text = [])). rewrite bool_decide_eq_true.
    unfold prefix_denotes. simpl. split; [intros ->; by exists [], []|].
    intros (w & post & -> & -> & Hp). by apply Hp.
  - rewrite matchhere_one, compile_items_one by done. destruct (compile_items re) as [l e].
    rewrite prefix_one. destruct text as [|t text]; [split; [done|by intros (?&?&?&?)]|].
    rewrite andb_true_iff, orb_true_iff, !Z.eqb_eq, IH. split.
    + intros [Hc Hp]. exists t, text. rewrite sat_atom_of. naive_solver.
    + intros (t' & v & [= <- <-] & Hc & Hp). rewrite sat_atom_of in Hc. naive_solver.
Qed.

Lemma match_loop_spec re text :
  match_loop re text = true ↔ ∃ pre v, text = pre ++ v ∧ matchhere re v = true.
Proof.
  induction text as [|t text IH]; simpl; rewrite orb_true_iff, ?IH.
  - split; [intros [?|?]; [by exists [], []|done]|].
    intros (u & v & E & Hv). destruct u, v; try done. by left.
  - split.
    + intros [?|(pre & v & -> & Hv)]; [by exists [], (t :: text)|by exists (t :: pre), v].
    + intros ([|x pre] & v & E & Hv); simplify_eq/=; [by left|right; by exists pre, v].
Qed.

(** C25: [match] decides whether the line has a part that is a word of the
    pattern, at its start after a caret and at its end before a final dollar
    sign. *)
Theorem match_denotes re text : match_ re text = true ↔ denotes (compile re) text.
Proof.
  destruct (decide (head re = Some 94)) as [E|E].
  - destruct re as [|x re]; simplify_eq/=. rewrite matchhere_spec. unfold denotes. simpl. split.
    + intros (w & post & -> & Hw & He). exists [], w, post. naive_solver.
    + intros (pre & w & post & -> & Hw & Hs & He). rewrite (Hs eq_refl). by exists w, post.
  - assert (match_ re text = match_loop re text ∧ compile re =
      {| pt_start := false; pt_items := (compile_items re).1; pt_end := (compile_items re).2 |}) as [-> ->]
      by (destruct re as [|x re]; [done|]; unfold match_, compile; repeat case_match; by simplify_eq/=).
    rewrite match_loop_spec. setoid_rewrite matchhere_spec. unfold denotes. simpl. split.
    + intros (pre & v & -> & w & post & -> & Hw & He). by exists pre, w, post.
    + intros (pre & w & post & -> & Hw & _ & He). exists pre, (w ++ post). split; [done|]. by exists w, post.
Qed.

(** ** The loop *)

(** A line without its line feed: what one turn of the inner loop looks at. *)
Definition line_ok (l : list Z) : Prop := Forall (λ c, is_byte c ∧ c ≠ 0 ∧ c ≠ 10) l.

(** Lines with their line feeds. *)
Definition unlines (ls : list (list Z)) : list Z := concat ((λ l, l ++ [10]) <$> ls).

Lemma unlines_cons l ls : unlines (l :: ls) = l ++ 10 :: unlines ls.
Proof. unfold unlines. rewrite fmap_cons. simpl. by rewrite <-app_assoc. Qed.

Lemma length_unlines ls : (length ls ≤ length (unlines ls))%nat.
Proof. induction ls as [|l ls IH]; [done|]. rewrite unlines_cons. len. Qed.

Lemma strchr_line l tl : line_ok l → strchr (l ++ 10 :: tl) 10 = Some (Some (length l)).
Proof.
  induction 1 as [|c l (_ & Hz & Hn) _ IH]; [done|]. simpl.
  by rewrite (proj2 (Z.eqb_neq c 0)), (proj2 (Z.eqb_neq c 10)), IH.
Qed.

Lemma strchr_none l tl : line_ok l → strchr (l ++ 0 :: tl) 10 = Some None.
Proof.
  induction 1 as [|c l (_ & Hz & Hn) _ IH]; [done|]. simpl.
  by rewrite (proj2 (Z.eqb_neq c 0)), (proj2 (Z.eqb_neq c 10)), IH.
Qed.

Lemma line_ok_nul l : line_ok l → 0 ∉ l.
Proof. intros Hl Hin. unfold line_ok in Hl. rewrite Forall_forall in Hl. naive_solver. Qed.

Lemma store_at pre l x tl c : is_byte c →
  store (pre ++ l ++ x :: tl) (length pre + length l) c = Some (pre ++ l ++ c :: tl).
Proof.
  intros Hc. rewrite store_Some by len. rewrite u8_byte by done. f_equal.
  rewrite !app_assoc, <-length_app. rewrite insert_app_r_alt, Nat.sub_diag; [done|lia].
Qed.

Lemma slice_line (pre l : list Z) c tl :
  slice (length pre) (length pre + length l + 1 - length pre) (pre ++ l ++ c :: tl) = l ++ [c].
Proof.
  unfold slice. rewrite drop_app_length. change (l ++ c :: tl) with (l ++ [c] ++ tl). rewrite app_assoc.
  apply take_app_length'. len.
Qed.

Lemma unlines_app ls ls' : unlines (ls ++ ls') = unlines ls ++ unlines ls'.
Proof. unfold unlines. by rewrite fmap_app, concat_app. Qed.

(** What follows the last line feed. *)
Fixpoint last_line (t : list Z) : list Z :=
  match t with [] => [] | _ :: t' => if bool_decide (10 ∈ t) then last_line t' else t end.

Lemma last_line_none t : 10 ∉ t → last_line t = t.
Proof. destruct t; [done|]. intros Ht. cbn [last_line]. by rewrite bool_decide_false. Qed.

Lemma last_line_app l t : last_line (l ++ 10 :: t) = last_line t.
Proof. induction l; cbn [app last_line]; (rewrite bool_decide_true; [done|]); set_solver. Qed.

Lemma line_ok_lf l : line_ok l → 10 ∉ l.
Proof. intros Hl Hin. unfold line_ok in Hl. rewrite Forall_forall in Hl. naive_solver. Qed.

Lemma unlines_none l ls rest : line_ok l → l = unlines ls ++ rest → ls = [].
Proof.
  intros Hl ->. destruct ls as [|x ls]; [done|]. destruct (line_ok_lf _ Hl). rewrite unlines_cons. set_solver.
Qed.

(** The lines of a text that is cut in two: those that end in its first part,
    and those that end in the second, which what follows the last line feed of
    the first part begins. *)
Lemma unlines_cut t x ls rest : t ++ x = unlines ls ++ rest → Forall line_ok ls → line_ok rest →
  ∃ ls1 ls2, ls = ls1 ++ ls2 ∧ t = unlines ls1 ++ last_line t ∧ line_ok (last_line t) ∧
    last_line t ++ x = unlines ls2 ++ rest.
Proof.
  revert t. induction ls as [|l ls IH]; intros t E Hls Hr.
  - change (unlines [] ++ rest) with rest in E. subst rest. apply Forall_app in Hr as [Ht _].
    exists [], []. by rewrite last_line_none by by apply line_ok_lf.
  - apply Forall_cons in Hls as [Hl Hls]. rewrite unlines_cons, <-app_assoc in E.
    apply app_eq_app in E as (k & [[Et Ek]|[El Ek]]).
    + destruct k as [|c k]; simplify_eq/=.
      * exists [], (l :: ls). rewrite app_nil_r, last_line_none by by apply line_ok_lf.
        by rewrite unlines_cons, <-app_assoc.
      * destruct (IH k) as (ls1 & ls2 & -> & E1 & E2 & E3); [done..|]. exists (l :: ls1), ls2.
        rewrite last_line_app, unlines_cons, <-app_assoc. cbn [app]. by rewrite <-E1.
    + subst l. apply Forall_app in Hl as [Ht Hk]. exists [], ((t ++ k) :: ls).
      rewrite last_line_none by by apply line_ok_lf. rewrite Ek, unlines_cons, <-!app_assoc. done.
Qed.

Section Loop.
Context `{Os}.

Lemma grep_lines_spec re ls rest tl pre fuel tr :
  Forall line_ok ls → line_ok rest → (length ls < fuel)%nat → bytes_ok pre →
  wp (grep_lines fuel re (pre ++ unlines ls ++ rest ++ 0 :: tl) (length pre))
    (λ r tr', (∃ pre', r = (pre' ++ rest ++ 0 :: tl, length pre') ∧ bytes_ok pre' ∧
         length pre' = length (pre ++ unlines ls)) ∧
       writes 1 (unlines (filter (λ l, match_ re l = true) ls)) tr tr') tr.
Proof.
  revert pre fuel tr. induction ls as [|l ls IH]; intros pre [|fuel] tr Hls Hr L Hp;
    simpl in L; try lia; cbn [grep_lines]; rewrite drop_app_length.
  - change (unlines []) with (@nil Z). cbn [app]. rewrite strchr_none by done. wp_steps.
    rewrite app_nil_r. split; [by exists pre|]. apply writes_nil.
  - apply Forall_cons in Hls as [Hl Hls]. rewrite unlines_cons.
    rewrite <-!app_assoc. cbn [app]. rewrite strchr_line by done. cbn [the]. do 2 wp_step.
    rewrite store_at by done. cbn [the]. do 2 wp_step.
    rewrite drop_app_length, cstr_app by (by apply line_ok_nul || len).
    set (tl' := unlines ls ++ rest ++ 0 :: tl).
    assert (∀ c o tr1, is_byte c → writes 1 o tr tr1 →
      wp (grep_lines fuel re (pre ++ l ++ c :: tl') (length pre + length l + 1))
       (λ r tr', (∃ pre', r = (pre' ++ rest ++ 0 :: tl, length pre') ∧ bytes_ok pre' ∧
            length pre' = length (pre ++ l ++ 10 :: unlines ls)) ∧
          writes 1 (o ++ unlines (filter (λ l, match_ re l = true) ls)) tr tr') tr1) as Hnext.
    { intros c o tr1 Hc W. specialize (IH (pre ++ l ++ [c]) fuel tr1 Hls Hr ltac:(lia)).
      rewrite !length_app in IH. rewrite <-!app_assoc in IH. cbn [app length] in IH.
      replace (length pre + (length l + 1))%nat with (length pre + length l + 1)%nat in IH by lia.
      eapply wp_mono; [apply IH|].
      { apply Forall_app. split; [done|]. apply Forall_app. split; [|by constructor].
        eapply Forall_impl; [exact Hl|]. naive_solver. }
      intros r tr' ((pre' & E1 & E2 & E3) & W'). split; [|by eapply writes_app].
      exists pre'. split_and!; [done..|]. rewrite E3. len. }
    apply wp_bind. destruct (match_ re l) eqn:E.
    + rewrite filter_cons_True by done. rewrite store_at by done. cbn [the]. do 3 wp_step. apply wp_write. wp_steps.
      rewrite unlines_cons, slice_line. set (ls' := filter _ ls) in *.
      replace (l ++ 10 :: unlines ls') with ((l ++ [10]) ++ unlines ls') by by rewrite <-app_assoc.
      apply (Hnext 10); [done|]. apply write_writes.
    + rewrite filter_cons_False by congruence. wp_steps. apply (Hnext 0 []); [done|]. apply writes_nil.
Qed.

Lemma grep_read_end fd mem m tr :
  os_int tr (Read fd (1024 - m)) ≤ 0 → ∃ n, n ≤ 0 ∧ runs_to (grep_read fd mem m) tr (n, mem) (Read fd (1024 - m) :: tr).
Proof.
  intros Hn. exists (os_int tr (Read fd (1024 - m))). split; [done|].
  unfold runs_to, grep_read, mbind, M_bind, read. cbn [fst]. by rewrite (proj2 (Z.leb_le _ 0)).
Qed.

Lemma grep_read_data fd mem m d tr :
  0 ≤ m → (0 < length d)%nat → (Z.to_nat m + length d ≤ length mem)%nat →
  os_int tr (Read fd (1024 - m)) = Z.of_nat (length d) → os_data tr (Read fd (1024 - m)) = d →
  runs_to (grep_read fd mem m) tr (Z.of_nat (length d), splice (Z.to_nat m) d mem) (Read fd (1024 - m) :: tr).
Proof.
  intros Hm Hd Hl Hn Hdata. unfold runs_to, grep_read, mbind, M_bind, read. cbn [fst snd].
  rewrite Hn, Hdata, (proj2 (Z.leb_gt _ 0)), (proj2 (Z.ltb_ge m 0)), (proj2 (Z.ltb_ge _ (m + _))) by lia.
  done.
Qed.

(** What follows the last read. *)
Lemma grep_loop_end re fd mem m tr :
  os_int tr (Read fd (1024 - m)) ≤ 0 → runs_to (grep_loop 1 re fd mem m) tr mem (Read fd (1024 - m) :: tr).
Proof.
  intros Hn. destruct (grep_read_end fd mem m tr Hn) as (n & Hle & Hr).
  cbn [grep_loop]. eapply runs_bind; [exact Hr|]. cbn beta iota. by rewrite (proj2 (Z.leb_le n 0)).
Qed.

(** The reads that follow the first [k] return the chunks and then nothing more,
    when each asks for as much as fits after the line [carry] that the one
    before it left unfinished. *)
Fixpoint fed (fd : Z) (k : nat) (carry : list Z) (chunks : list (list Z)) : Prop :=
  match chunks with
  | [] => ∀ tr n, reads tr = k → os_int tr (Read fd n) ≤ 0
  | d :: chunks' =>
      let n := 1024 - Z.of_nat (length carry) in
      (∀ tr, reads tr = k → os_int tr (Read fd n) = Z.of_nat (length d) ∧ os_data tr (Read fd n) = d) ∧
      fed fd (S k) (last_line (carry ++ d)) chunks'
  end.

(** The input that the buffer is good for: every read ends at or after the end
    [high] of those before it, at a place where the memory [mem] has a NUL, and
    every read but the last ends a line. *)
Fixpoint steady (mem : list Z) (high : nat) (carry : list Z) (chunks : list (list Z)) : Prop :=
  match chunks with
  | [] => True
  | d :: chunks' =>
      let t := carry ++ d in
      d ≠ [] ∧ (high ≤ length t)%nat ∧ mem !! length t = Some 0 ∧ (10 ∈ t ∨ chunks' = []) ∧
      steady mem (length t) (last_line t) chunks'
  end.

(** The memory between two reads: the unfinished line at its start, and above
    [high] what [mem0] has there. *)
Record between (mem0 : list Z) (high : nat) (carry mem : list Z) : Prop := {
  bt_carry : ∃ junk, mem = carry ++ junk ∧ bytes_ok junk;
  bt_line : line_ok carry ∧ (length carry ≤ high)%nat;
  bt_above : drop high mem = drop high mem0;
}.

(** The memory after a read of [d]: the text, a NUL, and the rest of [mem0]. *)
Lemma between_read mem0 high carry mem d : between mem0 high carry mem → let t := carry ++ d in
  (high ≤ length t)%nat → mem0 !! length t = Some 0 →
  splice (length carry) d mem = t ++ 0 :: drop (S (length t)) mem0 ∧ (length t ≤ length mem)%nat ∧
  bytes_ok (drop (S (length t)) mem0).
Proof.
  intros [(junk & -> & Hj) [Hc Hl] Ha] t Ht H0.
  assert (drop (length t) (carry ++ junk) = drop (length t) mem0) as E.
  { replace (length t) with (high + (length t - high))%nat by lia. by rewrite <-!drop_drop, Ha. }
  assert (length t < length (carry ++ junk))%nat as L.
  { apply lookup_lt_Some in H0. apply (f_equal length) in E. rewrite !length_drop in E. lia. }
  split_and!; [|lia|].
  - unfold splice. rewrite <-(Nat.add_0_r (length carry)), list_inserts_app_r.
    change (list_inserts 0 d junk) with (splice 0 d junk). unfold t in *. rewrite !length_app in *.
    rewrite splice_front by lia. rewrite <-app_assoc. do 2 f_equal.
    rewrite <-(drop_S _ _ _ H0). rewrite <-E. by rewrite <-drop_drop, drop_app_length.
  - assert (bytes_ok (drop (length t) mem0)) as B.
    { rewrite <-E. unfold t. rewrite length_app, <-drop_drop, drop_app_length. by apply Forall_drop. }
    rewrite (drop_S _ _ _ H0) in B. by apply Forall_cons in B as [_ B].
Qed.

(** [memmove] brings the unfinished line to the start. *)
Lemma between_move mem0 n pre rest tl :
  line_ok rest → bytes_ok pre → bytes_ok tl → length (pre ++ rest) = n → mem0 !! n = Some 0 → drop (S n) mem0 = tl →
  ∃ mem, ulib_memmove (pre ++ rest ++ 0 :: tl) 0 (length pre) (length rest) = Some mem ∧ between mem0 n rest mem.
Proof.
  intros Hr Hp Ht Hn H0 Htl.
  assert (bytes_ok rest) as Br by (eapply Forall_impl; [exact Hr|]; naive_solver).
  assert (bytes_ok (pre ++ rest ++ 0 :: tl)) as B.
  { apply Forall_app. split; [done|]. apply Forall_app. split; [done|]. by constructor. }
  set (l := pre ++ rest ++ 0 :: tl) in *.
  assert (slice (length pre) (length rest) l = rest) as Es.
  { unfold slice, l. by rewrite drop_app_length, take_app_length. }
  exists (rest ++ drop (length rest) l). split.
  - unfold ulib_memmove. rewrite copy_up_spec; [|done|unfold l; len|unfold l; len|lia].
    rewrite Es. f_equal. apply splice_front. unfold l. len.
  - rewrite length_app in Hn. split.
    + eexists. split; [done|]. by apply Forall_drop.
    + split; [done|lia].
    + rewrite drop_app_ge, drop_drop by lia. replace (length rest + (n - length rest))%nat with n by lia.
      rewrite (drop_S _ _ _ H0), Htl. unfold l. rewrite app_assoc. apply drop_app_length'. by rewrite length_app.
Qed.

Lemma grep_loop_spec re fd mem0 chunks : ∀ high carry mem tr ls rest,
  between mem0 high carry mem → steady mem0 high carry chunks → fed fd (reads tr) carry chunks →
  carry ++ concat chunks = unlines ls ++ rest → Forall line_ok ls → line_ok rest →
  wp (grep_loop (S (length chunks)) re fd mem (Z.of_nat (length carry)))
    (λ _ tr', output 1 tr' = output 1 tr ++ unlines (filter (λ l, match_ re l = true) ls)) tr.
Proof.
  induction chunks as [|d chunks IH]; intros high carry mem tr ls rest Hb Hst Hf E Hls Hr.
  { eapply wp_of_runs; [apply grep_loop_end; by apply Hf|]. rewrite app_nil_r in E.
    rewrite (unlines_none carry ls rest) by (done || apply Hb). by rewrite app_nil_r. }
  destruct Hst as (Hd & Hh & H0 & Hlast & Hst). destruct Hf as [Hrd Hf]. destruct (Hrd tr eq_refl) as [R1 R2].
  assert (0 < length d)%nat by (destruct d; simpl; [done|lia]).
  destruct (between_read _ _ _ _ d Hb Hh H0) as (Em & Lm & Btl). set (t := carry ++ d) in *.
  set (tl := drop (S (length t)) mem0) in *.
  cbn [concat] in E. rewrite app_assoc in E. destruct (unlines_cut _ _ _ _ E Hls Hr) as (ls1 & ls2 & -> & E1 & E2 & E3).
  fold t in E1, E2, E3. apply Forall_app in Hls as [Hls1 Hls2].
  change (length (d :: chunks)) with (S (length chunks)). set (fuel := S (length chunks)). cbn [grep_loop]. apply wp_bind.
  eapply wp_of_runs; [apply (grep_read_data _ _ _ d); [lia|done|rewrite Nat2Z.id; unfold t in Lm; rewrite length_app in Lm; lia|done|done]|].
  cbn beta iota. rewrite (proj2 (Z.leb_gt _ 0)), Nat2Z.id, Em by lia.
  assert (t ++ 0 :: tl = [] ++ unlines ls1 ++ last_line t ++ 0 :: tl) as -> by (rewrite E1 at 1; by rewrite <-app_assoc).
  wp_call (grep_lines_spec re ls1 (last_line t) tl []); [done|done|pose proof (length_unlines ls1); len|by constructor|].
  intros ? t1 ((pre & -> & Bp & Lp) & W). cbn [app] in Lp.
  assert (reads t1 = S (reads tr)) as Rd by by rewrite (writes_reads _ _ _ _ W).
  assert (output 1 t1 = output 1 tr ++ unlines (filter (λ l, match_ re l = true) ls1)) as O1
    by by rewrite (writes_output _ _ _ _ W).
  rewrite filter_app, unlines_app, (app_assoc (output 1 tr)), <-O1. cbn beta iota.
  assert (length t = length pre + length (last_line t))%nat as Lt by (rewrite E1 at 1; rewrite length_app; lia).
  assert (length t = length carry + length d)%nat as Ltd by apply length_app. case_bool_decide as Hp.
  - assert (10 ∉ t) as Hn.
    { rewrite E1. destruct ls1 as [|l ls1]; [|rewrite unlines_cons, length_app in Lp; simpl in Lp; lia]. by apply line_ok_lf. }
    destruct Hlast as [|Hch]; [done|]. subst chunks. unfold fuel. simpl length.
    rewrite (unlines_none (last_line t) ls2 rest) by (done || by rewrite <-E3, app_nil_r).
    eapply wp_of_runs; [apply grep_loop_end, Hf; simpl in Rd; lia|]. by rewrite app_nil_r.
  - rewrite (proj2 (Z.ltb_lt 0 _)) by lia.
    destruct (between_move mem0 (length t) pre (last_line t) tl) as (mem' & Em' & Hb'); [done..|rewrite length_app; lia|done|done|].
    replace (Z.to_nat _) with (length (last_line t)) by lia. apply wp_bind. eapply wp_the; [exact Em'|].
    replace (Z.of_nat (length carry) + _ - _) with (Z.of_nat (length (last_line t))) by lia.
    eapply IH; try done. by rewrite Rd.
Qed.

(** C26: For input that the buffer is good for ([steady]: no read leaves less in
    the buffer than one before it, a NUL follows what it leaves, and every read
    but the last ends a line), [grep] returns after the last read and has
    written the lines that match and no others, in their order, also those that
    two reads cut.  The text after the last line feed is not printed. *)
Theorem grep_prints_matches re ls rest mem fd chunks tr :
  bytes_ok mem → steady mem 0 [] chunks → fed fd (reads tr) [] chunks →
  concat chunks = unlines ls ++ rest → Forall line_ok ls → line_ok rest →
  wp (grep (S (length chunks)) re fd mem)
    (λ _ tr', output 1 tr' = output 1 tr ++ unlines (filter (λ l, match_ re l = true) ls)) tr.
Proof.
  intros Hm Hst Hf E Hls Hr. unfold grep. eapply (grep_loop_spec re fd mem chunks 0 []); try done.
  split; [by exists mem|by repeat constructor|done].
Qed.

End Loop.

Module GrepExample.

Definition sample : list (list Z) := [chars "ab"; chars "cd"; chars "cf"; chars "x"].

(** The third line is cut by the reads. *)
Definition pieces : list (list Z) := [chars "ab" ++ 10 :: chars "cd" ++ 10 :: chars "c"; chars "f" ++ 10 :: chars "x" ++ 10 :: chars "cee"].

Lemma grep_prints_matches_witness :
  let O := chunk_os pieces in
  wp (grep 3 (chars "c.$") 0 (replicate 1024 0)) (λ _ tr', output 1 tr' = unlines [chars "cd"; chars "cf"]) [].
Proof.
  refine (grep_prints_matches (H := chunk_os pieces) (chars "c.$") sample (chars "cee")
    (replicate 1024 0) 0 pieces [] _ _ _ _ _ _).
  - by apply Forall_replicate.
  - vm_compute. split_and!; try done; try lia; left; set_solver.
  - split; [|split]; [intros tr E..|intros tr n E]; unfold os_int, os_data, chunk_os; by rewrite E.
  - vm_compute. reflexivity.
  - repeat constructor; vm_compute; done.
  - repeat constructor; vm_compute; done.
Defined.

(** What an earlier, longer read left in the buffer is taken for input:
    the lines [a] and [b] and then the line [c] print [b] a second time. *)
Theorem grep_repeats_line :
  let O := chunk_os [unlines [chars "a"; chars "b"]; unlines [chars "c"]] in
  wp (grep 3 (chars ".") 0 (replicate 1024 0))
    (λ _ tr', output 1 tr' = unlines [chars "a"; chars "b"; chars "c"; chars "b"]) [].
Proof. vm_compute. reflexivity. Qed.

End GrepExample.
