(* ===== verification/ShParse.v ===== *)
(** * ShParse: the parser of the shell (sh.c)

    The command line is the list of the characters of [buf] before its NUL;
    a pointer into it is an index, and the parser's state the index [*ps].
    [panic] ends the shell with a message: [Panic].  A parsed command holds
    the two ends of each word; [nulterminate] makes them strings.

    The theorems go through a reference lexer, [lex]: the parser accepts
    exactly the token lists of the grammar [line], and returns its command. *)

From S2P Require Import Prelude Bytes CString Print User.

(** ** Commands *)

(** A word: the indices [q] and [eq]. *)
Abbreviation span := (nat * nat)%type.

Inductive cmd :=
| CExec (argv : list span)
| CRedir (c : cmd) (file : span) (mode fd : Z)
| CPipe (left right : cmd)
| CList (left right : cmd)
| CBack (c : cmd).

Abbreviation MAXARGS := 10%nat.
Abbreviation O_RDONLY := 0.
Abbreviation O_WRONLY_CREATE := (Z.lor 0x001 0x200).

(** ** Tokens *)

Definition whitespace : list Z := [32; 9; 13; 10; 11].
Definition symbols : list Z := chars "<|>&;()".

(** [strchr(s, c)] as a condition, for a character that is not NUL. *)
Definition is_in (c : Z) (s : list Z) : bool := bool_decide (c ∈ s).

Section Parser.
Context (buf : list Z).

(** [*s]: the NUL is at [es]. *)
Definition char_at (s : nat) : Z := default 0 (buf !! s).

(** [while(s < es && strchr(whitespace, *s)) s++] *)
Fixpoint skip_from (l : list Z) (s : nat) : nat :=
  match l with
  | [] => s
  | c :: l' => if is_in c whitespace then skip_from l' (S s) else s
  end.
Definition skip (s : nat) : nat := skip_from (drop s buf) s.

(** The loop over the characters of a word. *)
Fixpoint word_from (l : list Z) (s : nat) : nat :=
  match l with
  | [] => s
  | c :: l' => if negb (is_in c whitespace) && negb (is_in c symbols) then word_from l' (S s) else s
  end.

(** The token, and [*q] and [*eq]. *)
Definition gettoken : M nat (Z * span) := λ ps,
  let s := skip ps in
  let q := s in
  let c := char_at s in
  let '(ret, s) :=
    if c =? 0 then (c, s)
    else if is_in c (chars "|();&<") then (c, S s)
    else if c =? 62 then if char_at (S s) =? 62 then (43, S (S s)) else (c, S s)
    else (97, word_from (drop s buf) s) in
  Ok (ret, (q, s)) (skip s).

Definition peek (toks : string) : M nat bool := λ ps,
  let s := skip ps in
  Ok (negb (char_at s =? 0) && is_in (char_at s) (chars toks)) s.

(** ** The parser *)

(** What [parseredirs] wraps around its command, in order: the file, the mode
    and the descriptor. *)
Abbreviation redir := (span * Z * Z)%type.

Definition add_redir (c : cmd) (r : redir) : cmd := CRedir c r.1.1 r.1.2 r.2.

Fixpoint parseredirs (fuel : nat) : M nat (list redir) :=
  match fuel with
  | O => fault
  | S fuel' =>
      b ← peek "<>";
      if negb b then mret [] else
      t ← gettoken;
      w ← gettoken;
      if negb (w.1 =? 97) then panic "missing file for redirection" else
      rest ← parseredirs fuel';
      mret ((if t.1 =? 60 then [(w.2, O_RDONLY, 0)]
             else if t.1 =? 62 then [(w.2, O_WRONLY_CREATE, 1)]
             else if t.1 =? 43 then [(w.2, O_WRONLY_CREATE, 1)]
             else []) ++ rest)
  end.

(** The loop of [parseexec]: the words and redirections that follow [argc]
    words.  The words go to the command inside the redirections. *)
Fixpoint parseargs (fuel argc : nat) : M nat (list span * list redir) :=
  match fuel with
  | O => fault
  | S fuel' =>
      b ← peek "|)&;";
      if b : bool then mret ([], []) else
      t ← gettoken;
      if t.1 =? 0 then mret ([], []) else
      if negb (t.1 =? 97) then panic "syntax" else
      if bool_decide (MAXARGS ≤ S argc)%nat then panic "too many args" else
      rs ← parseredirs fuel';
      l ← parseargs fuel' (S argc);
      mret (t.2 :: l.1, rs ++ l.2)
  end.

(** [while(peek(ps, es, "&"))] *)
Fixpoint parsebacks (fuel : nat) (c : cmd) : M nat cmd :=
  match fuel with
  | O => fault
  | S fuel' =>
      b ← peek "&";
      if b : bool then gettoken;; parsebacks fuel' (CBack c) else mret c
  end.

(** The four functions call one another; [fuel] bounds the depth. *)
Fixpoint parseline (fuel : nat) : M nat cmd :=
  match fuel with
  | O => fault
  | S fuel' =>
      c ← parsepipe fuel';
      c ← parsebacks (S (length buf)) c;
      b ← peek ";";
      if b : bool then gettoken;; r ← parseline fuel'; mret (CList c r) else mret c
  end
with parsepipe (fuel : nat) : M nat cmd :=
  match fuel with
  | O => fault
  | S fuel' =>
      c ← parseexec fuel';
      b ← peek "|";
      if b : bool then gettoken;; r ← parsepipe fuel'; mret (CPipe c r) else mret c
  end
with parseexec (fuel : nat) : M nat cmd :=
  match fuel with
  | O => fault
  | S fuel' =>
      b ← peek "(";
      if b : bool then parseblock fuel' else
      rs ← parseredirs (S (length buf));
      l ← parseargs (S (length buf)) 0;
      mret (foldl add_redir (CExec l.1) (rs ++ l.2))
  end
with parseblock (fuel : nat) : M nat cmd :=
  match fuel with
  | O => fault
  | S fuel' =>
      b ← peek "(";
      if negb b then panic "parseblock" else
      gettoken;;
      c ← parseline fuel';
      b ← peek ")";
      if negb b then panic "syntax - missing )" else
      gettoken;;
      rs ← parseredirs (S (length buf));
      mret (foldl add_redir c rs)
  end.

(** Each character opens at most one level of each function. *)
Definition parse_fuel : nat := 4 * length buf + 4.

(** The part of [parsecmd] up to [nulterminate]: the command, and the
    index where the parser stopped. *)
Definition parse : M nat cmd := c ← parseline parse_fuel; peek "";; mret c.

End Parser.

(** ** nulterminate *)

(** The memory is [buf] with its NUL; the end of a word is cut there. *)
Definition cut_word (w : span) (m : list Z) : option (list Z) := store m w.2 0.

Fixpoint cut_words (l : list span) (m : list Z) : option (list Z) :=
  match l with [] => Some m | w :: l' => m' ← cut_word w m; cut_words l' m' end.

Fixpoint nulterminate (c : cmd) (m : list Z) : option (list Z) :=
  match c with
  | CExec argv => cut_words argv m
  | CRedir c f _ _ => m ← nulterminate c m; cut_word f m
  | CPipe l r | CList l r => m ← nulterminate l m; nulterminate r m
  | CBack c => nulterminate c m
  end.

(** The command whose words are the strings at the pointers, in the memory
    [m]: what [runcmd] works on. *)
Inductive command :=
| SExec (argv : list (list Z))
| SRedir (c : command) (file : list Z) (mode fd : Z)
| SPipe (left right : command)
| SList (left right : command)
| SBack (c : command).

Definition string_at (m : list Z) (w : span) : list Z := cstr (length m) (drop w.1 m).

Fixpoint resolve (m : list Z) (c : cmd) : command :=
  match c with
  | CExec argv => SExec (string_at m <$> argv)
  | CRedir c f mode fd => SRedir (resolve m c) (string_at m f) mode fd
  | CPipe l r => SPipe (resolve m l) (resolve m r)
  | CList l r => SList (resolve m l) (resolve m r)
  | CBack c => SBack (resolve m c)
  end.

(** ** The reference lexer *)

Inductive token := TSym (c : Z) | TAppend | TWord (w : list Z).

Definition flush (w : list Z) : list token := if bool_decide (w = []) then [] else [TWord w].

(** The tokens of a text; [w] is the part of a word before it. *)
Fixpoint lex (w l : list Z) : list token :=
  match l with
  | [] => flush w
  | c :: l' =>
      if is_in c whitespace then flush w ++ lex [] l' else
      if is_in c symbols then
        flush w ++
        match l' with
        | 62 :: l'' => if c =? 62 then TAppend :: lex [] l'' else TSym c :: lex [] l'
        | _ => TSym c :: lex [] l'
        end
      else lex (w ++ [c]) l'
  end.

(** A character of a word. *)
Definition wchar (c : Z) : Prop := c ≠ 0 ∧ is_in c whitespace = false ∧ is_in c symbols = false.

Definition ends_word (l : list Z) : Prop :=
  match l with [] => True | c :: _ => is_in c whitespace = true ∨ is_in c symbols = true end.

Lemma lex_word w w' k : Forall wchar w' → ends_word k → lex w (w' ++ k) = lex (w ++ w') k.
Proof.
  intros Hw Hk. revert w. induction Hw as [|c w' (_ & H1 & H2) _ IH]; intros w; simpl; [by rewrite app_nil_r|].
  rewrite H1, H2, IH. by rewrite <-app_assoc.
Qed.

Lemma lex_flush w k : ends_word k → lex w k = flush w ++ lex [] k.
Proof.
  destruct k as [|c k]; simpl; [by rewrite app_nil_r|]. intros [->|Hs]; [done|].
  destruct (is_in c whitespace); [done|]. rewrite Hs. done.
Qed.

Lemma lex_symbol c l : is_in c whitespace = false → is_in c symbols = true →
  lex [] (c :: l) = if (c =? 62) && bool_decide (head l = Some 62) then TAppend :: lex [] (tail l) else TSym c :: lex [] l.
Proof.
  intros H1 H2. cbn [lex]. rewrite H1, H2. change (flush []) with (@nil token). cbn [app].
  destruct l as [|x l]; [by rewrite andb_false_r|]. destruct (decide (x = 62)) as [->|Hx].
  - rewrite bool_decide_eq_true_2 by done. by rewrite andb_true_r.
  - rewrite bool_decide_eq_false_2 by (simpl; congruence). rewrite andb_false_r.
    repeat case_match; try done; simplify_eq/=.
Qed.

(** ** The grammar *)

Inductive redirect := RIn (f : list Z) | ROut (f : list Z) | RAppend (f : list Z).
Inductive item := IArg (w : list Z) | IRedir (r : redirect).

Inductive line :=
| LineEnd (p : pipeline) (backs : nat)
| LineSeq (p : pipeline) (backs : nat) (l : line)
with pipeline :=
| PipeOne (e : executed)
| PipeCons (e : executed) (p : pipeline)
with executed :=
| Simple (l : list item)
| Block (l : line) (rs : list redirect).

Definition redir_toks (r : redirect) : list token :=
  match r with
  | RIn f => [TSym 60; TWord f]
  | ROut f => [TSym 62; TWord f]
  | RAppend f => [TAppend; TWord f]
  end.

Definition item_toks (i : item) : list token :=
  match i with IArg w => [TWord w] | IRedir r => redir_toks r end.

Fixpoint line_toks (l : line) : list token :=
  match l with
  | LineEnd p n => pipe_toks p ++ replicate n (TSym 38)
  | LineSeq p n l => pipe_toks p ++ replicate n (TSym 38) ++ TSym 59 :: line_toks l
  end
with pipe_toks (p : pipeline) : list token :=
  match p with
  | PipeOne e => exec_toks e
  | PipeCons e p => exec_toks e ++ TSym 124 :: pipe_toks p
  end
with exec_toks (e : executed) : list token :=
  match e with
  | Simple l => concat (item_toks <$> l)
  | Block l rs => TSym 40 :: line_toks l ++ TSym 41 :: concat (redir_toks <$> rs)
  end.

(** The appending redirection opens its file as the other one does. *)
Definition redirect_cmd (c : command) (r : redirect) : command :=
  match r with
  | RIn f => SRedir c f O_RDONLY 0
  | ROut f | RAppend f => SRedir c f O_WRONLY_CREATE 1
  end.

Definition args (l : list item) : list (list Z) :=
  omap (λ i, match i with IArg w => Some w | _ => None end) l.
Definition redirs (l : list item) : list redirect :=
  omap (λ i, match i with IRedir r => Some r | _ => None end) l.

Fixpoint line_cmd (l : line) : command :=
  match l with
  | LineEnd p n => Nat.iter n SBack (pipe_cmd p)
  | LineSeq p n l => SList (Nat.iter n SBack (pipe_cmd p)) (line_cmd l)
  end
with pipe_cmd (p : pipeline) : command :=
  match p with
  | PipeOne e => exec_cmd e
  | PipeCons e p => SPipe (exec_cmd e) (pipe_cmd p)
  end
with exec_cmd (e : executed) : command :=
  match e with
  | Simple l => foldl redirect_cmd (SExec (args l)) (redirs l)
  | Block l rs => foldl redirect_cmd (line_cmd l) rs
  end.

(** Fewer than ten words in each simple command. *)
Fixpoint line_wf (l : line) : Prop :=
  match l with
  | LineEnd p _ => pipe_wf p
  | LineSeq p _ l => pipe_wf p ∧ line_wf l
  end
with pipe_wf (p : pipeline) : Prop :=
  match p with
  | PipeOne e => exec_wf e
  | PipeCons e p => exec_wf e ∧ pipe_wf p
  end
with exec_wf (e : executed) : Prop :=
  match e with
  | Simple l => (length (args l) < MAXARGS)%nat
  | Block l _ => line_wf l
  end.

(** The run returns with the property, or stops with a message. *)
Definition stops {S A} (m : M S A) (Q : A → S → Prop) (s : S) : Prop :=
  match m s with Ok a s' => Q a s' | Panic _ => True | _ => False end.

Section Stops.
Context {S : Type}.

Lemma stops_bind {A B} (m : M S A) (f : A → M S B) Q s :
  stops m (λ a s', stops (f a) Q s') s → stops (m ≫= f) Q s.
Proof. unfold stops, mbind, M_bind. by destruct (m s). Qed.

Lemma stops_ret {A} (a : A) (Q : A → S → Prop) s : Q a s → stops (mret a) Q s.
Proof. exact id. Qed.

Lemma stops_mono {A} (m : M S A) (P Q : A → S → Prop) s :
  stops m P s → (∀ a s', P a s' → Q a s') → stops m Q s.
Proof. unfold stops. destruct (m s); naive_solver. Qed.

Lemma stops_runs {A} (m : M S A) (Q : A → S → Prop) s a s' : runs_to m s a s' → Q a s' → stops m Q s.
Proof. unfold stops. by intros ->. Qed.

End Stops.

Section Lexer.
Context (buf : list Z) (Hbuf : Forall (λ c, c ≠ 0) buf).
#[local] Set Default Proof Using "All".

Definition toks (s : nat) : list token := lex [] (drop s buf).

Lemma skip_from_spec l s : ∃ n, skip_from l s = (s + n)%nat ∧ (n ≤ length l)%nat ∧ lex [] (drop n l) = lex [] l ∧
  match drop n l with [] => True | c :: _ => is_in c whitespace = false end.
Proof.
  revert s. induction l as [|c l IH]; intros s; [by exists 0%nat; rewrite Nat.add_0_r|]. simpl.
  destruct (is_in c whitespace) eqn:E.
  - destruct (IH (S s)) as (n & -> & Hn & Hl & Hc). exists (S n). split; [lia|]. split; [lia|].
    split; [|done]. simpl. done.
  - exists 0%nat. rewrite Nat.add_0_r. split; [done|]. split; [lia|]. simpl. by rewrite E.
Qed.

(** What follows the white space. *)
Lemma skip_spec s : toks (skip buf s) = toks s ∧ (s ≤ length buf → skip buf s ≤ length buf)%nat ∧
  match drop (skip buf s) buf with [] => True | c :: _ => is_in c whitespace = false end.
Proof.
  unfold skip, toks. destruct (skip_from_spec (drop s buf) s) as (n & -> & Hn & Hl & Hc).
  rewrite drop_drop in Hl, Hc. rewrite length_drop in Hn. split; [done|]. split; [lia|done].
Qed.

Lemma char_at_drop s : char_at buf s = match drop s buf with [] => 0 | c :: _ => c end.
Proof.
  unfold char_at. destruct (buf !! s) as [c|] eqn:E.
  - by rewrite (drop_S _ _ _ E).
  - by rewrite drop_ge by (by apply lookup_ge_None).
Qed.

Lemma word_from_spec l s : Forall (λ c, c ≠ 0) l → ∃ w k, l = w ++ k ∧ Forall wchar w ∧ ends_word k ∧
  word_from l s = (s + length w)%nat.
Proof.
  intros Hl. revert s. induction Hl as [|c l Hc Hl IH]; intros s; [by exists [], []; rewrite Nat.add_0_r|]. simpl.
  destruct (is_in c whitespace) eqn:E1, (is_in c symbols) eqn:E2; simpl;
    try (exists [], (c :: l); rewrite Nat.add_0_r; split_and!; [done|constructor|simpl; auto|done]).
  destruct (IH (S s)) as (w & k & -> & Hw & Hk & ->). exists (c :: w), k.
  split_and!; [done|by constructor|done|simpl; lia].
Qed.

(** The word between the two indices, and what ends it. *)
Record word_at (p : span) (w : list Z) : Prop := {
  wa_slice : slice p.1 (p.2 - p.1) buf = w;
  wa_lt : (p.1 < p.2 ≤ length buf)%nat;
  wa_chars : Forall wchar w;
  wa_end : ends_word (drop p.2 buf);
}.

(** The value [gettoken] returns for a token, and what it says of the indices. *)
Definition token_is (t : option token) (ret : Z) (p : span) : Prop :=
  match t with
  | None => ret = 0
  | Some (TSym c) => ret = c ∧ is_in c symbols = true
  | Some TAppend => ret = 43
  | Some (TWord w) => ret = 97 ∧ word_at p w
  end.

Lemma word_from_shift l s : word_from l s = (s + word_from l 0)%nat.
Proof.
  revert s. induction l as [|c l IH]; intros s; simpl; [lia|]. case_match; [|lia]. rewrite (IH 1%nat), IH. lia.
Qed.

Lemma lex_word_head l : Forall (λ c, c ≠ 0) l → ∀ c l', l = c :: l' →
  is_in c whitespace = false → is_in c symbols = false →
  ∃ w k, l = w ++ k ∧ w ≠ [] ∧ Forall wchar w ∧ ends_word k ∧ lex [] l = TWord w :: lex [] k ∧
    ∀ s, word_from l s = (s + length w)%nat.
Proof.
  intros Hl c l' -> H1 H2. destruct (word_from_spec (c :: l') 0 Hl) as (w & k & E & Hw & Hk & Ew).
  exists w, k. rewrite E. assert (w ≠ []) as Hne.
  { intros ->. simpl in E. subst k. destruct Hk; congruence. }
  split_and!; try done.
  - rewrite lex_word, lex_flush by done. simpl. unfold flush. by rewrite bool_decide_eq_false_2.
  - intros s. rewrite <-E, word_from_shift, Ew. done.
Qed.

(** The token is [t], and [gettoken] stops before [k]. *)
Lemma skip_after e k : drop e buf = k → (e ≤ length buf)%nat →
  toks (skip buf e) = lex [] k ∧ (skip buf e ≤ length buf)%nat.
Proof. intros <- He. destruct (skip_spec e) as (-> & Hle & _). auto. Qed.

Lemma gettoken_spec ps : (ps ≤ length buf)%nat → ∃ ret p ps', runs_to (gettoken buf) ps (ret, p) ps' ∧
  token_is (head (toks ps)) ret p ∧ toks ps' = tail (toks ps) ∧ (ps' ≤ length buf)%nat.
Proof.
  intros Hps. destruct (skip_spec ps) as (Et & Hle & Hws). specialize (Hle Hps). unfold runs_to, gettoken.
  rewrite <-Et. unfold toks at 1 3.
  rewrite !char_at_drop. set (s := skip buf ps) in *. pose proof (Forall_drop _ s _ Hbuf) as Hd.
  destruct (drop s buf) as [|c l] eqn:El.
  { eexists _, _, _. split; [done|]. split; [done|]. by apply (skip_after s []). }
  assert (drop (S s) buf = l) as El1 by (by rewrite <-Nat.add_1_r, <-drop_drop, El).
  pose proof (f_equal length El) as Ls. rewrite length_drop in Ls. simpl in Ls.
  pose proof Hd as Hd'. apply Forall_cons in Hd' as [Hc _]. rewrite (proj2 (Z.eqb_neq c 0)) by done.
  destruct (is_in c symbols) eqn:Es.
  - rewrite lex_symbol, El1 by done. destruct (Z.eqb_spec c 62) as [->|H62].
    + change (is_in 62 (chars "|();&<")) with false. cbn [andb].
      destruct l as [|x l]; [|destruct (Z.eqb_spec x 62) as [->|Hx]].
      * eexists _, _, _. split; [done|]. split; [done|]. apply skip_after; [done|lia].
      * eexists _, _, _. split; [done|]. split; [done|]. simpl in Ls. apply skip_after; [|lia].
        by rewrite <-Nat.add_1_r, <-drop_drop, El1.
      * rewrite bool_decide_eq_false_2 by (simpl; congruence).
        eexists _, _, _. split; [done|]. split; [done|]. apply skip_after; [done|lia].
    + assert (is_in c (chars "|();&<") = true) as ->.
      { unfold is_in, symbols in *. rewrite !bool_decide_eq_true in *. simpl in *. set_solver. }
      eexists _, _, _. split; [done|]. split; [done|]. apply skip_after; [done|lia].
  - destruct (lex_word_head (c :: l) Hd c l eq_refl Hws Es) as (w & k & E & Hne & Hw & Hk & Elex & Ewf).
    assert (is_in c (chars "|();&<") = false ∧ c ≠ 62) as [-> H62].
    { unfold is_in, symbols in *. rewrite !bool_decide_eq_false in *. simpl in *. set_solver. }
    rewrite (proj2 (Z.eqb_neq c 62)), Ewf by done. eexists _, _, _. split; [done|]. rewrite Elex.
    assert (drop (s + length w) buf = k) as Ek by (by rewrite <-drop_drop, El, E, drop_app_length).
    assert (0 < length w)%nat by (destruct w; [done|simpl; lia]).
    pose proof (f_equal length E) as Lw. rewrite length_app in Lw. simpl in Lw.
    split; [|apply skip_after; [done|lia]]. split; [done|]. split; simpl; [|lia|done|by rewrite Ek].
    unfold slice. replace (s + length w - s)%nat with (length w) by lia.
    by rewrite El, E, take_app_length.
Qed.

(** The character [peek] looks at. *)
Definition token_in (t : option token) (s : list Z) : bool :=
  match t with
  | Some (TSym c) => is_in c s
  | Some TAppend => is_in 62 s
  | _ => false
  end.

Lemma peek_runs str ps : (∀ c, c ∈ chars str → c ∈ symbols) → (ps ≤ length buf)%nat → ∃ ps',
  runs_to (peek buf str) ps (token_in (head (toks ps)) (chars str)) ps' ∧ toks ps' = toks ps ∧
  (ps' ≤ length buf)%nat.
Proof.
  intros Hstr Hps. destruct (skip_spec ps) as (Et & Hle & Hws). exists (skip buf ps). split; [|auto].
  unfold runs_to, peek. rewrite <-Et. unfold toks. rewrite char_at_drop. f_equal.
  pose proof (Forall_drop _ (skip buf ps) _ Hbuf) as Hd. destruct (drop (skip buf ps) buf) as [|c l]; [done|].
  pose proof Hd as Hd'. apply Forall_cons in Hd' as [Hc _]. rewrite (proj2 (Z.eqb_neq c 0)) by done. cbn [negb andb].
  destruct (is_in c symbols) eqn:Es.
  - rewrite lex_symbol by done. destruct (Z.eqb_spec c 62) as [->|H62]; [|done]. by case_match.
  - destruct (lex_word_head (c :: l) Hd c l eq_refl Hws Es) as (w & k & _ & _ & _ & _ & -> & _). simpl.
    apply bool_decide_eq_false in Es. apply bool_decide_eq_false. auto.
Qed.

(** *** Commands with their words *)

Inductive reads : cmd → command → Prop :=
| reads_exec ps ws : Forall2 word_at ps ws → reads (CExec ps) (SExec ws)
| reads_redir c d p w mode fd : reads c d → word_at p w → reads (CRedir c p mode fd) (SRedir d w mode fd)
| reads_pipe c d c' d' : reads c d → reads c' d' → reads (CPipe c c') (SPipe d d')
| reads_list c d c' d' : reads c d → reads c' d' → reads (CList c c') (SList d d')
| reads_back c d : reads c d → reads (CBack c) (SBack d).

Definition redir_at (r : span * Z * Z) (x : redirect) : Prop :=
  match x with
  | RIn f => word_at r.1.1 f ∧ r.1.2 = O_RDONLY ∧ r.2 = 0
  | ROut f | RAppend f => word_at r.1.1 f ∧ r.1.2 = O_WRONLY_CREATE ∧ r.2 = 1
  end.

Lemma reads_redirs c d rs xs : reads c d → Forall2 redir_at rs xs →
  reads (foldl add_redir c rs) (foldl redirect_cmd d xs).
Proof.
  intros Hc Hr. revert c d Hc. induction Hr as [|r x rs xs Hr _ IH]; intros c d Hc; [done|]. simpl. apply IH.
  destruct r as [[p m] fd], x; destruct Hr as (Hw & Em & Ef); simpl in *; subst; by constructor.
Qed.

(** *** The parser accepts only lines of the grammar *)

Abbreviation redirs_toks xs := (concat (redir_toks <$> xs)).
Abbreviation items_toks l := (concat (item_toks <$> l)).

Lemma in_symbols (l : list Z) : forallb (λ c, is_in c symbols) l = true → ∀ c, c ∈ l → c ∈ symbols.
Proof.
  intros Hl c Hc. rewrite forallb_forall in Hl. apply list_elem_of_In in Hc.
  specialize (Hl c Hc). by apply bool_decide_eq_true in Hl.
Qed.

Lemma stops_peek {B} str (f : bool → M nat B) Q ps :
  forallb (λ c, is_in c symbols) (chars str) = true → (ps ≤ length buf)%nat →
  (∀ ps', toks ps' = toks ps → (ps' ≤ length buf)%nat →
     stops (f (token_in (head (toks ps)) (chars str))) Q ps') →
  stops (peek buf str ≫= f) Q ps.
Proof.
  intros Hs Hps Hf. destruct (peek_runs str ps (in_symbols _ Hs) Hps) as (ps' & Hr & Ht & Hl).
  apply stops_bind. eapply stops_runs; [exact Hr|]. auto.
Qed.

Lemma stops_gettoken {B} (f : Z * span → M nat B) Q ps :
  (ps ≤ length buf)%nat →
  (∀ ret p ps', token_is (head (toks ps)) ret p → toks ps' = tail (toks ps) → (ps' ≤ length buf)%nat →
     stops (f (ret, p)) Q ps') →
  stops (gettoken buf ≫= f) Q ps.
Proof.
  intros Hps Hf. destruct (gettoken_spec ps Hps) as (ret & p & ps' & Hr & Ht & Hk & Hl).
  apply stops_bind. eapply stops_runs; [exact Hr|]. auto.
Qed.

(** The value [gettoken] returns tells the tokens apart. *)
Lemma token_word t ret p : token_is t ret p → ret = 97 → ∃ w, t = Some (TWord w) ∧ word_at p w.
Proof.
  intros Ht ->. destruct t as [[c| |w]|]; simpl in Ht; [|done|naive_solver|done].
  by destruct Ht as [<- Hc].
Qed.

Lemma parseredirs_sound fuel ps :
  (length (toks ps) < fuel)%nat → (ps ≤ length buf)%nat →
  stops (parseredirs buf fuel) (λ rs ps', (ps' ≤ length buf)%nat ∧ ∃ xs, toks ps = redirs_toks xs ++ toks ps' ∧
    Forall2 redir_at rs xs ∧ token_in (head (toks ps')) (chars "<>") = false) ps.
Proof.
  revert ps. induction fuel as [|fuel IH]; intros ps Hf Hps; [lia|]. cbn [parseredirs].
  apply stops_peek; [done..|]. intros ps1 E1 L1. destruct (token_in _ _) eqn:Et; simpl.
  2:{ apply stops_ret. split; [done|]. exists []. rewrite E1. auto. }
  apply stops_gettoken; [done|]. intros t p ps2 Ht E2 L2. apply stops_gettoken; [done|].
  intros w q ps3 Hw E3 L3. cbn [fst snd]. destruct (Z.eqb_spec w 97) as [Ew|]; [|done]. cbn [negb].
  destruct (token_word _ _ _ Hw Ew) as (f & Hh & Hat). rewrite E1 in *.
  destruct (toks ps) as [|t1 [|t2 k]] eqn:Ek; simpl in *; try done; rewrite E2 in Hh; try done. simpl in Hh.
  apply stops_bind. eapply stops_mono; [apply IH; [rewrite E3, E2; simpl in *; lia|done]|].
  intros rs ps' (L & xs & Hx & Hrs & Hend). apply stops_ret. split; [done|].
  rewrite E3, E2 in Hx. simpl in Hx. simplify_eq.
  destruct t1 as [c| |?]; [| |done]; simpl in Et.
  - apply bool_decide_eq_true in Et. destruct Ht as [-> _]. simpl in Et.
    assert (c = 60 ∨ c = 62) as [->| ->] by set_solver; simpl.
    + exists (RIn f :: xs). simpl. split; [done|]. split; [|done]. by constructor.
    + exists (ROut f :: xs). simpl. split; [done|]. split; [|done]. by constructor.
  - simpl in Ht. subst t. exists (RAppend f :: xs). simpl. split; [done|]. split; [|done]. by constructor.
Qed.

Definition ends_exec (k : list token) : Prop := k = [] ∨ token_in (head k) (chars "|)&;") = true.

Lemma items_redirs_toks xs l : items_toks ((IRedir <$> xs) ++ l) = redirs_toks xs ++ items_toks l.
Proof. rewrite fmap_app, concat_app. f_equal. by rewrite <-list_fmap_compose. Qed.

Lemma args_redirs xs l : args ((IRedir <$> xs) ++ l) = args l ∧ redirs ((IRedir <$> xs) ++ l) = xs ++ redirs l.
Proof. induction xs as [|x xs [IH1 IH2]]; [done|]. cbn. by split; [apply IH1|f_equal; apply IH2]. Qed.

Lemma parseargs_sound fuel argc ps :
  (length (toks ps) < fuel)%nat → (argc < MAXARGS)%nat → (ps ≤ length buf)%nat →
  stops (parseargs buf fuel argc) (λ r ps', (ps' ≤ length buf)%nat ∧ ∃ l, toks ps = items_toks l ++ toks ps' ∧
    Forall2 word_at r.1 (args l) ∧ Forall2 redir_at r.2 (redirs l) ∧
    (argc + length (args l) < MAXARGS)%nat ∧ ends_exec (toks ps')) ps.
Proof.
  revert argc ps. induction fuel as [|fuel IH]; intros argc ps Hf Ha Hps; [lia|]. cbn [parseargs].
  apply stops_peek; [done..|]. intros ps1 E1 L1. destruct (token_in _ _) eqn:Et.
  { apply stops_ret. split; [done|]. exists []. rewrite E1. split_and!; try done; [simpl; lia|by right]. }
  apply stops_gettoken; [done|]. intros t p ps2 Ht E2 L2. rewrite E1 in *. cbn [fst snd].
  destruct (Z.eqb_spec t 0) as [->|]; [|destruct (Z.eqb_spec t 97) as [E97|]; [|done]]; cbn [negb].
  { apply stops_ret. split; [done|]. exists [].
    destruct (toks ps) as [|[c| |w] k]; simpl in Ht; try done; [|by destruct Ht as [<- ?]|by destruct Ht].
    rewrite E2. split_and!; try done; [simpl; lia|by left]. }
  destruct (token_word _ _ _ Ht E97) as (w & Hh & Hat). case_bool_decide; [done|].
  destruct (toks ps) as [|t1 k] eqn:Ek; [done|]. simpl in Hh, E2. injection Hh as ->.
  apply stops_bind. eapply stops_mono; [apply parseredirs_sound; [rewrite E2; simpl in *; lia|done]|].
  intros rs ps3 (L3 & xs & E3 & Hrs & _). rewrite E2 in E3. apply stops_bind.
  eapply stops_mono; [apply (IH (S argc)); [|lia|done]|].
  { apply (f_equal length) in E3. rewrite length_app in E3. simpl in Hf. lia. }
  intros r ps' (L & l & El & Hr1 & Hr2 & Hlen & Hend). apply stops_ret. split; [done|].
  exists (IArg w :: (IRedir <$> xs) ++ l). destruct (args_redirs xs l) as [Ea Er]. cbn [fst snd fmap list_fmap concat].
  rewrite items_redirs_toks. simpl. rewrite Ea, Er. split_and!; try done.
  - by rewrite E3, El, app_assoc.
  - by constructor.
  - by apply Forall2_app.
  - simpl. lia.
Qed.

Lemma parsebacks_sound fuel c d ps :
  (length (toks ps) < fuel)%nat → (ps ≤ length buf)%nat → reads c d →
  stops (parsebacks buf fuel c) (λ c' ps', (ps' ≤ length buf)%nat ∧ ∃ n,
    toks ps = replicate n (TSym 38) ++ toks ps' ∧ reads c' (Nat.iter n SBack d)) ps.
Proof.
  revert c d ps. induction fuel as [|fuel IH]; intros c d ps Hf Hps Hc; [lia|]. cbn [parsebacks].
  apply stops_peek; [done..|]. intros ps1 E1 L1. destruct (token_in _ _) eqn:Et.
  2:{ apply stops_ret. split; [done|]. exists 0%nat. by rewrite E1. }
  apply stops_gettoken; [done|]. intros t p ps2 Ht E2 L2. rewrite E1 in *.
  destruct (toks ps) as [|[c1| |w] k] eqn:Ek; try done. simpl in Et, E2, Hf.
  apply bool_decide_eq_true, list_elem_of_singleton in Et. simpl in Et.
  eapply stops_mono; [apply (IH (CBack c) (SBack d)); [rewrite E2; lia|done|by constructor]|].
  intros c' ps' (L & n & En & Hc'). split; [done|]. exists (S n). rewrite Nat.iter_succ_r. split; [|done].
  simpl. rewrite <-En, E2. by rewrite Et.
Qed.

Lemma length_lex w l : (length (lex w l) ≤ length l + length (flush w))%nat.
Proof.
  remember (length l) as n eqn:Hn. revert w l Hn. induction (lt_wf n) as [n _ IH]. intros w [|c l] ->; simpl; [lia|].
  assert (∀ w l', (length l' ≤ length l)%nat → (length (lex w l') ≤ length l' + length (flush w))%nat) as IH'.
  { intros w' l' Hl'. apply (IH (length l')); [simpl; lia|done]. }
  pose proof (IH' [] l ltac:(done)) as H0. simpl in H0.
  destruct (is_in c whitespace); [rewrite length_app; lia|]. destruct (is_in c symbols).
  - rewrite length_app. repeat case_match; simpl in *; try lia.
    pose proof (IH' [] l0 ltac:(simpl; lia)) as Hl0. simpl in Hl0. lia.
  - pose proof (IH' (w ++ [c]) l ltac:(done)) as H1. revert H1. unfold flush at 1.
    rewrite bool_decide_eq_false_2 by (by destruct w). simpl. lia.
Qed.

Lemma length_toks ps : (length (toks ps) ≤ length buf)%nat.
Proof. unfold toks. pose proof (length_lex [] (drop ps buf)) as L. rewrite length_drop in L. simpl in L. lia. Qed.

(** What a parsing function returns: the command of a phrase of the grammar,
    whose tokens it has read. *)
Definition parsed {A} (ptoks : A → list token) (pcmd : A → command) (pwf : A → Prop)
    (ps : nat) (c : cmd) (ps' : nat) : Prop :=
  (ps' ≤ length buf)%nat ∧ ∃ x, toks ps = ptoks x ++ toks ps' ∧ reads c (pcmd x) ∧ pwf x.

Definition sound {A} (m : M nat cmd) (ptoks : A → list token) (pcmd : A → command) (pwf : A → Prop) (ps : nat) : Prop :=
  stops m (parsed ptoks pcmd pwf ps) ps.

Lemma token_sym_in t c : token_in t [c] = true → is_in c [62] = false → t = Some (TSym c).
Proof.
  intros Ht Hc. destruct t as [[d| |w]|]; simpl in Ht; try done.
  - apply bool_decide_eq_true, list_elem_of_singleton in Ht. by subst.
  - apply bool_decide_eq_true, list_elem_of_singleton in Ht. apply bool_decide_eq_false in Hc. set_solver.
Qed.

(** The token looked at is read. *)
Lemma stops_accept {B} str c (f : M nat B) (g : M nat B) Q ps :
  chars str = [c] → is_in c symbols = true → is_in c [62] = false → (ps ≤ length buf)%nat →
  (∀ k ps', toks ps = TSym c :: k → toks ps' = k → (ps' ≤ length buf)%nat → stops f Q ps') →
  (∀ ps', toks ps' = toks ps → head (toks ps) ≠ Some (TSym c) → (ps' ≤ length buf)%nat → stops g Q ps') →
  stops (b ← peek buf str; if b : bool then gettoken buf;; f else g) Q ps.
Proof.
  intros Hs Hc H62 Hps Hf Hg. apply stops_peek; [rewrite Hs; simpl; by rewrite Hc|done|]. intros ps1 E1 L1. rewrite Hs.
  destruct (token_in _ _) eqn:Et.
  - apply token_sym_in in Et; [|done]. apply stops_gettoken; [done|]. intros t p ps2 _ E2 L2. rewrite E1 in E2.
    destruct (toks ps) as [|t1 k]; simplify_eq/=. by eapply Hf.
  - apply Hg; [done| |done]. intros E. rewrite E in Et. simpl in Et.
    apply bool_decide_eq_false in Et. set_solver.
Qed.

Lemma parsepipe_sound_step fuel ps :
  (∀ ps, (4 * length (toks ps) + 2 ≤ fuel)%nat → (ps ≤ length buf)%nat →
     sound (parseexec buf fuel) exec_toks exec_cmd exec_wf ps) →
  (∀ ps, (4 * length (toks ps) + 3 ≤ fuel)%nat → (ps ≤ length buf)%nat →
     sound (parsepipe buf fuel) pipe_toks pipe_cmd pipe_wf ps) →
  (4 * length (toks ps) + 3 ≤ S fuel)%nat → (ps ≤ length buf)%nat →
  sound (parsepipe buf (S fuel)) pipe_toks pipe_cmd pipe_wf ps.
Proof.
  intros IHe IHp Hf Hps. unfold sound. cbn [parsepipe]. apply stops_bind. eapply stops_mono; [apply IHe; [lia|done]|].
  intros c ps1 (L1 & e & E1 & Hr & Hw).
  apply (stops_accept "|" 124); [done..| |].
  - intros k ps2 Ek E2 L2. rewrite Ek in E1. pose proof (f_equal length E1) as Hl. rewrite length_app in Hl. simpl in Hl.
    apply stops_bind. eapply stops_mono; [apply IHp; [rewrite E2; lia|done]|].
    intros c' ps' (L & p & E & Hr' & Hw'). apply stops_ret. split; [done|]. exists (PipeCons e p). simpl.
    split; [|split; [by constructor|done]]. rewrite E1, <-app_assoc. simpl. rewrite <-E2, E. done.
  - intros ps' E' _ L'. apply stops_ret. split; [done|]. exists (PipeOne e). simpl. by rewrite E'.
Qed.

Lemma parseline_sound_step fuel ps :
  (∀ ps, (4 * length (toks ps) + 3 ≤ fuel)%nat → (ps ≤ length buf)%nat →
     sound (parsepipe buf fuel) pipe_toks pipe_cmd pipe_wf ps) →
  (∀ ps, (4 * length (toks ps) + 4 ≤ fuel)%nat → (ps ≤ length buf)%nat →
     sound (parseline buf fuel) line_toks line_cmd line_wf ps) →
  (4 * length (toks ps) + 4 ≤ S fuel)%nat → (ps ≤ length buf)%nat →
  sound (parseline buf (S fuel)) line_toks line_cmd line_wf ps.
Proof.
  intros IHp IHl Hf Hps. unfold sound. cbn [parseline]. apply stops_bind. eapply stops_mono; [apply IHp; [lia|done]|].
  intros c ps1 (L1 & p & E1 & Hr & Hw). apply stops_bind.
  eapply stops_mono; [eapply parsebacks_sound; [pose proof (length_toks ps1); lia|done..]|].
  intros c1 ps2 (L2 & n & E2 & Hr2). apply (stops_accept ";" 59); [done..| |].
  - intros k ps3 Ek E3 L3. rewrite Ek in E2. rewrite E2 in E1. pose proof (f_equal length E1) as Hl.
    rewrite !length_app in Hl. simpl in Hl. apply stops_bind.
    eapply stops_mono; [apply IHl; [rewrite E3; lia|done]|]. intros c' ps' (L & l & E & Hr' & Hw').
    apply stops_ret. split; [done|]. exists (LineSeq p n l). simpl. split; [|split; [by constructor|done]].
    rewrite E1, <-!app_assoc. simpl. rewrite <-E3, E. done.
  - intros ps' E' _ L'. apply stops_ret. split; [done|]. exists (LineEnd p n). simpl.
    rewrite E', <-app_assoc, <-E2. done.
Qed.

Lemma parseexec_sound_step fuel ps :
  (∀ ps, (4 * length (toks ps) + 1 ≤ fuel)%nat → (ps ≤ length buf)%nat → head (toks ps) = Some (TSym 40) →
     sound (parseblock buf fuel) exec_toks exec_cmd exec_wf ps) →
  (4 * length (toks ps) + 2 ≤ S fuel)%nat → (ps ≤ length buf)%nat →
  sound (parseexec buf (S fuel)) exec_toks exec_cmd exec_wf ps.
Proof.
  intros IHb Hf Hps. unfold sound. cbn [parseexec]. apply stops_peek; [done..|]. intros ps1 E1 L1.
  destruct (token_in _ _) eqn:Et.
  - apply token_sym_in in Et; [|done]. rewrite <-E1 in Et, Hf.
    eapply stops_mono; [apply IHb; [lia|done..]|]. unfold parsed. by rewrite E1.
  - apply stops_bind. eapply stops_mono; [apply parseredirs_sound; [pose proof (length_toks ps1); lia|done]|].
    intros rs ps2 (L2 & xs & E2 & Hrs & _). apply stops_bind.
    eapply stops_mono; [apply parseargs_sound; [pose proof (length_toks ps2); lia|lia|done]|].
    intros r ps' (L & l & E & Ha & Hr & Hlen & _). apply stops_ret. split; [done|].
    destruct (args_redirs xs l) as [Ea Er]. exists (Simple ((IRedir <$> xs) ++ l)). cbn [exec_toks exec_cmd exec_wf].
    rewrite items_redirs_toks, Ea, Er, <-E1, E2, E, app_assoc. split; [done|]. split; [|done].
    apply reads_redirs; [by constructor|by apply Forall2_app].
Qed.

Lemma parseblock_sound_step fuel ps :
  (∀ ps, (4 * length (toks ps) + 4 ≤ fuel)%nat → (ps ≤ length buf)%nat →
     sound (parseline buf fuel) line_toks line_cmd line_wf ps) →
  (4 * length (toks ps) + 1 ≤ S fuel)%nat → (ps ≤ length buf)%nat → head (toks ps) = Some (TSym 40) →
  sound (parseblock buf (S fuel)) exec_toks exec_cmd exec_wf ps.
Proof.
  intros IHl Hf Hps Hh. unfold sound. cbn [parseblock]. apply stops_peek; [done..|]. intros ps1 E1 L1. rewrite Hh.
  change (token_in (Some (TSym 40)) (chars "(")) with true. cbn [negb].
  apply stops_gettoken; [done|]. intros t p ps2 _ E2 L2. rewrite E1 in E2.
  destruct (toks ps) as [|t1 k] eqn:Ek; [done|]. simpl in Hh, E2. injection Hh as ->. subst k. apply stops_bind.
  eapply stops_mono; [apply IHl; [simpl in Hf; lia|done]|]. intros c ps3 (L3 & l & E3 & Hr & Hw).
  apply stops_peek; [done..|]. intros ps4 E4 L4. destruct (token_in _ _) eqn:Et; [|done]. cbn [negb].
  apply token_sym_in in Et; [|done]. apply stops_gettoken; [done|]. intros t' p' ps5 _ E5 L5. rewrite E4 in E5.
  destruct (toks ps3) as [|t3 k3]; [done|]. simpl in Et, E5. injection Et as ->. subst k3. apply stops_bind.
  eapply stops_mono; [apply parseredirs_sound; [pose proof (length_toks ps5); lia|done]|].
  intros rs ps' (L & xs & E & Hrs & _). apply stops_ret. split; [done|]. exists (Block l xs). simpl.
  rewrite Ek, E3, E. simpl. rewrite <-app_assoc. split; [done|]. split; [by apply reads_redirs|done].
Qed.

Lemma parser_sound fuel :
  (∀ ps, (4 * length (toks ps) + 4 ≤ fuel)%nat → (ps ≤ length buf)%nat →
     sound (parseline buf fuel) line_toks line_cmd line_wf ps) ∧
  (∀ ps, (4 * length (toks ps) + 3 ≤ fuel)%nat → (ps ≤ length buf)%nat →
     sound (parsepipe buf fuel) pipe_toks pipe_cmd pipe_wf ps) ∧
  (∀ ps, (4 * length (toks ps) + 2 ≤ fuel)%nat → (ps ≤ length buf)%nat →
     sound (parseexec buf fuel) exec_toks exec_cmd exec_wf ps) ∧
  (∀ ps, (4 * length (toks ps) + 1 ≤ fuel)%nat → (ps ≤ length buf)%nat → head (toks ps) = Some (TSym 40) →
     sound (parseblock buf fuel) exec_toks exec_cmd exec_wf ps).
Proof.
  induction fuel as [|fuel (IHl & IHp & IHe & IHb)]; [split_and!; intros; lia|].
  split_and!; intros ps Hf Hps.
  - by apply parseline_sound_step.
  - by apply parsepipe_sound_step.
  - by apply parseexec_sound_step.
  - by apply parseblock_sound_step.
Qed.

(** *** Every line of the grammar is accepted *)

Lemma wp_peek {B} str (f : bool → M nat B) Q ps :
  forallb (λ c, is_in c symbols) (chars str) = true → (ps ≤ length buf)%nat →
  (∀ ps', toks ps' = toks ps → (ps' ≤ length buf)%nat →
     wp (f (token_in (head (toks ps)) (chars str))) Q ps') →
  wp (peek buf str ≫= f) Q ps.
Proof.
  intros Hs Hps Hf. destruct (peek_runs str ps (in_symbols _ Hs) Hps) as (ps' & Hr & Ht & Hl).
  apply wp_bind. eapply wp_of_runs; [exact Hr|]. auto.
Qed.

Lemma wp_gettoken {B} t k (f : Z * span → M nat B) Q ps :
  (ps ≤ length buf)%nat → toks ps = t :: k →
  (∀ ret p ps', token_is (Some t) ret p → toks ps' = k → (ps' ≤ length buf)%nat → wp (f (ret, p)) Q ps') →
  wp (gettoken buf ≫= f) Q ps.
Proof.
  intros Hps Ht Hf. destruct (gettoken_spec ps Hps) as (ret & p & ps' & Hr & Htk & Hk & Hl).
  rewrite Ht in Htk, Hk. apply wp_bind. eapply wp_of_runs; [exact Hr|]. auto.
Qed.

(** What a parsing function does with the tokens of a phrase. *)
Definition accepts (m : M nat cmd) (ps : nat) (d : command) (k : list token) : Prop :=
  wp m (λ c ps', (ps' ≤ length buf)%nat ∧ toks ps' = k ∧ reads c d) ps.

Lemma parseredirs_complete fuel ps xs k :
  toks ps = redirs_toks xs ++ k → token_in (head k) (chars "<>") = false → (length xs < fuel)%nat →
  (ps ≤ length buf)%nat →
  wp (parseredirs buf fuel) (λ rs ps', (ps' ≤ length buf)%nat ∧ toks ps' = k ∧ Forall2 redir_at rs xs) ps.
Proof.
  revert fuel ps. induction xs as [|x xs IH]; intros [|fuel] ps E Hk Hf Hps; simpl in Hf; try lia; cbn [parseredirs].
  - apply wp_peek; [done..|]. intros ps' E' L'. rewrite E. cbn [fmap list_fmap concat app]. rewrite Hk. cbn [negb].
    apply wp_ret. rewrite E', E. auto.
  - apply wp_peek; [done..|]. intros ps1 E1 L1.
    assert (∃ t f, redir_toks x = [t; TWord f] ∧ token_in (Some t) (chars "<>") = true ∧
      ∀ ret p q, token_is (Some t) ret p → word_at q f → ∃ r, redir_at r x ∧
        (if ret =? 60 then [(q, O_RDONLY, 0)] else if ret =? 62 then [(q, O_WRONLY_CREATE, 1)]
         else if ret =? 43 then [(q, O_WRONLY_CREATE, 1)] else []) = [r]) as (t & f & Et & Hin & Hx).
    { destruct x as [f|f|f]; eexists _, f; (split; [done|]; split; [done|]); intros ret p q Ht Hq; simpl in Ht.
      - destruct Ht as [-> _]. by exists (q, O_RDONLY, 0).
      - destruct Ht as [-> _]. by exists (q, O_WRONLY_CREATE, 1).
      - subst ret. by exists (q, O_WRONLY_CREATE, 1). }
    cbn [fmap list_fmap concat] in E. rewrite Et, <-app_assoc in E. cbn [app] in E. rewrite E. cbn [head]. rewrite Hin.
    cbn [negb]. eapply wp_gettoken; [done|by rewrite E1|]. intros ret p ps2 Ht E2 L2.
    eapply wp_gettoken; [done|exact E2|]. intros w q ps3 [-> Hw] E3 L3. cbn [fst snd Z.eqb negb].
    destruct (Hx ret p q Ht Hw) as (r & Hr & ->). apply wp_bind.
    eapply wp_mono; [by apply IH; [exact E3|done|lia|done]|]. intros rs ps' (L & Ek & Hrs). apply wp_ret.
    split; [done|]. split; [done|]. by constructor.
Qed.

(** A list of items that does not start with a redirection. *)
Definition arg_first (l : list item) : Prop := match l with IRedir _ :: _ => False | _ => True end.

Lemma split_redirs l : ∃ xs l', l = (IRedir <$> xs) ++ l' ∧ arg_first l'.
Proof.
  induction l as [|[w|r] l (xs & l' & -> & Hl)]; [by exists [], []|by exists [], (IArg w :: (IRedir <$> xs) ++ l')|].
  by exists (r :: xs), l'.
Qed.

Lemma not_redir l k : arg_first l → ends_exec k → token_in (head (items_toks l ++ k)) (chars "<>") = false.
Proof.
  intros Hl [->|Hk]; destruct l as [|[w|r] l]; try done. simpl. destruct k as [|[c| |w] k]; try done. simpl in *.
  apply bool_decide_eq_true in Hk. apply bool_decide_eq_false. simpl in *. set_solver.
Qed.

Lemma parseargs_complete fuel argc ps l k :
  toks ps = items_toks l ++ k → ends_exec k → arg_first l → (length l < fuel)%nat →
  (argc + length (args l) < MAXARGS)%nat → (ps ≤ length buf)%nat →
  wp (parseargs buf fuel argc) (λ r ps', (ps' ≤ length buf)%nat ∧ toks ps' = k ∧
    Forall2 word_at r.1 (args l) ∧ Forall2 redir_at r.2 (redirs l)) ps.
Proof.
  revert argc ps l. induction fuel as [|fuel IH]; intros argc ps l E Hk Hl Hf Ha Hps; [lia|]. cbn [parseargs].
  apply wp_peek; [done..|]. intros ps1 E1 L1. rewrite E in E1. destruct l as [|[w|r] l]; [| |done].
  - rewrite E. cbn [fmap list_fmap concat app]. destruct (token_in (head k) (chars "|)&;")) eqn:Et.
    { apply wp_ret. rewrite E1. split_and!; done. }
    destruct Hk as [->|Hk]; [|congruence].
    destruct (gettoken_spec ps1 L1) as (ret & p & ps2 & Hr & Ht & Et2 & L2). rewrite E1 in Ht, Et2. simpl in Ht. subst ret.
    apply wp_bind. eapply wp_of_runs; [exact Hr|]. cbn [fst Z.eqb]. apply wp_ret. split_and!; done.
  - change (items_toks (IArg w :: l) ++ k) with (TWord w :: items_toks l ++ k) in E, E1. rewrite E. cbn [head token_in].
    change (args (IArg w :: l)) with (w :: args l) in *. change (redirs (IArg w :: l)) with (redirs l).
    eapply wp_gettoken; [done|exact E1|]. intros ret p ps2 [-> Hw] E2 L2. cbn [fst snd Z.eqb negb].
    simpl in Ha, Hf. rewrite bool_decide_eq_false_2 by lia.
    destruct (split_redirs l) as (xs & l' & -> & Hl'). destruct (args_redirs xs l') as [Ea Er].
    rewrite items_redirs_toks, <-app_assoc in E2. rewrite Ea in Ha |- *. rewrite Er.
    rewrite length_app, length_fmap in Hf.
    apply wp_bind. eapply wp_mono; [apply (parseredirs_complete fuel ps2 xs); [exact E2|by apply not_redir|lia|done]|].
    intros rs ps3 (L3 & E3 & Hrs). apply wp_bind.
    eapply wp_mono; [apply (IH (S argc)); [exact E3|done|done|lia|lia|done]|].
    intros r ps' (L & Ek & Hr1 & Hr2). apply wp_ret. split; [done|]. split; [done|].
    split; [by constructor|by apply Forall2_app].
Qed.

Lemma parsebacks_complete fuel c d ps n k :
  toks ps = replicate n (TSym 38) ++ k → head k ≠ Some (TSym 38) → (n < fuel)%nat → (ps ≤ length buf)%nat →
  reads c d → accepts (parsebacks buf fuel c) ps (Nat.iter n SBack d) k.
Proof.
  revert fuel c d ps. induction n as [|n IH]; intros [|fuel] c d ps E Hk Hf Hps Hc; try lia; unfold accepts;
    cbn [parsebacks]; apply wp_peek; try done; intros ps1 E1 L1; rewrite E in E1 |- *.
  - cbn [replicate app]. assert (token_in (head k) (chars "&") = false) as ->.
    { apply not_true_iff_false. intros Ht. by apply token_sym_in in Ht. }
    apply wp_ret. split_and!; done.
  - cbn [replicate app head]. change (token_in (Some (TSym 38)) (chars "&")) with true. cbn iota.
    eapply wp_gettoken; [done|exact E1|]. intros ret p ps2 _ E2 L2.
    rewrite Nat.iter_succ_r. apply IH; [done|done|lia|done|by constructor].
Qed.

Definition ends_line (k : list token) : Prop := k = [] ∨ head k = Some (TSym 41).

Lemma ends_line_exec k : ends_line k → ends_exec k ∧ head k ≠ Some (TSym 38) ∧ head k ≠ Some (TSym 59) ∧
  head k ≠ Some (TSym 124).
Proof.
  intros [->|Hk]; [split; [by left|done]|]. rewrite Hk. split; [|done]. right. rewrite Hk. done.
Qed.

Lemma length_redirs_toks xs : (length xs ≤ length (redirs_toks xs))%nat.
Proof.
  induction xs as [|x xs IH]; [done|]. rewrite fmap_cons. cbn [concat]. rewrite length_app.
  destruct x; cbn [redir_toks length]; lia.
Qed.

Lemma length_items_toks l : (length l ≤ length (items_toks l))%nat.
Proof.
  induction l as [|x l IH]; [done|]. rewrite fmap_cons. cbn [concat]. rewrite length_app.
  destruct x as [|[]]; cbn [item_toks redir_toks length]; lia.
Qed.

Lemma length_prefix ps l k : toks ps = l ++ k → (length l ≤ length buf)%nat.
Proof. intros E. apply (f_equal length) in E. rewrite length_app in E. pose proof (length_toks ps). lia. Qed.

Lemma wp_accept {B} str c k (f : M nat B) (g : M nat B) Q ps :
  chars str = [c] → is_in c symbols = true → (ps ≤ length buf)%nat → toks ps = TSym c :: k →
  (∀ ps', toks ps' = k → (ps' ≤ length buf)%nat → wp f Q ps') →
  wp (b ← peek buf str; if b : bool then gettoken buf;; f else g) Q ps.
Proof.
  intros Hs Hc Hps E Hf. apply wp_peek; [rewrite Hs; simpl; by rewrite Hc|done|]. intros ps1 E1 L1. rewrite Hs, E.
  cbn [head token_in]. rewrite E in E1. unfold is_in. rewrite bool_decide_eq_true_2 by set_solver.
  eapply wp_gettoken; [done|exact E1|]. intros ret p ps2 _ E2 L2. auto.
Qed.

Lemma wp_refuse {B} str c (f : M nat B) (g : M nat B) Q ps :
  chars str = [c] → is_in c symbols = true → is_in c [62] = false → (ps ≤ length buf)%nat →
  head (toks ps) ≠ Some (TSym c) →
  (∀ ps', toks ps' = toks ps → (ps' ≤ length buf)%nat → wp g Q ps') →
  wp (b ← peek buf str; if b : bool then f else g) Q ps.
Proof.
  intros Hs Hc H62 Hps Hh Hg. apply wp_peek; [rewrite Hs; simpl; by rewrite Hc|done|]. intros ps1 E1 L1. rewrite Hs.
  destruct (token_in _ _) eqn:Et; [by apply token_sym_in in Et|]. auto.
Qed.

Definition complete {A} (m : nat → M nat cmd) (extra fuel : nat) (ptoks : A → list token) (pcmd : A → command)
    (pwf : A → Prop) (ends : list token → Prop) : Prop :=
  ∀ x ps k, toks ps = ptoks x ++ k → ends k → pwf x → (4 * length (ptoks x) + extra ≤ fuel)%nat →
    (ps ≤ length buf)%nat → accepts (m fuel) ps (pcmd x) k.

Definition ends_pipe (k : list token) : Prop := ends_exec k ∧ head k ≠ Some (TSym 124).

Definition block_toks (b : line * list redirect) : list token := exec_toks (Block b.1 b.2).
Definition block_cmd (b : line * list redirect) : command := exec_cmd (Block b.1 b.2).
Definition block_wf (b : line * list redirect) : Prop := line_wf b.1.

Lemma parseline_complete_step fuel :
  complete (parsepipe buf) 3 fuel pipe_toks pipe_cmd pipe_wf ends_pipe →
  complete (parseline buf) 4 fuel line_toks line_cmd line_wf ends_line →
  complete (parseline buf) 4 (S fuel) line_toks line_cmd line_wf ends_line.
Proof.
  intros IHp IHl x ps k E Hk Hw Hf Hps. apply ends_line_exec in Hk as Hk'. destruct Hk' as (Hke & Hk1 & Hk2 & Hk3).
  unfold accepts. cbn [parseline]. apply wp_bind.
  assert (∃ p n k1, toks ps = pipe_toks p ++ replicate n (TSym 38) ++ k1 ∧ pipe_wf p ∧
    (length (pipe_toks p) ≤ length (line_toks x))%nat ∧ ends_pipe k1 ∧ head k1 ≠ Some (TSym 38) ∧
    ((x = LineEnd p n ∧ k1 = k) ∨
     ∃ l, x = LineSeq p n l ∧ k1 = TSym 59 :: line_toks l ++ k ∧ line_wf l ∧
       (length (line_toks l) < length (line_toks x))%nat)) as (p & n & k1 & E1 & Hwp & Hlen & He1 & Hb1 & Hx).
  { destruct x as [p n|p n l]; simpl in E, Hw |- *; rewrite <-!app_assoc in E; simpl in E.
    - exists p, n, k. rewrite length_app. split_and!; [done|done|lia|by split|done|by left].
    - exists p, n, (TSym 59 :: line_toks l ++ k). rewrite !length_app. destruct Hw as [Hwp Hwl]. simpl.
      split_and!; [done|done|lia|split; [by right|done]|done|]. right. exists l. split_and!; try done. lia. }
  eapply wp_mono; [apply (IHp p); [exact E1| |done|lia|done]|].
  { split; [|by destruct n; [apply He1|]]. destruct n; [apply He1|by right]. }
  intros c ps1 (L1 & E2 & Hr). apply wp_bind.
  eapply wp_mono; [apply (parsebacks_complete _ c (pipe_cmd p) ps1 n k1); [done|done| |done|done]|].
  { apply length_prefix in E2 as Hn. rewrite length_replicate in Hn. lia. }
  intros c1 ps2 (L2 & E3 & Hr2). destruct Hx as [[-> ->]|(l & -> & -> & Hwl & Hll)].
  - apply (wp_refuse ";" 59); [done..|by rewrite E3|]. intros ps' E' L'. apply wp_ret. rewrite E', E3. auto.
  - eapply (wp_accept ";" 59); [done..|exact E3|]. intros ps3 E4 L3. apply wp_bind.
    eapply wp_mono; [apply (IHl l); [exact E4|done|done|lia|done]|]. intros c2 ps' (L' & E' & Hr').
    apply wp_ret. split; [done|]. split; [done|]. by constructor.
Qed.

Lemma parsepipe_complete_step fuel :
  complete (parseexec buf) 2 fuel exec_toks exec_cmd exec_wf ends_exec →
  complete (parsepipe buf) 3 fuel pipe_toks pipe_cmd pipe_wf ends_pipe →
  complete (parsepipe buf) 3 (S fuel) pipe_toks pipe_cmd pipe_wf ends_pipe.
Proof.
  intros IHe IHp x ps k E [Hk Hk1] Hw Hf Hps. unfold accepts. cbn [parsepipe]. apply wp_bind.
  destruct x as [e|e p]; simpl in E, Hw, Hf.
  - eapply wp_mono; [apply (IHe e); [exact E|done|done|lia|done]|]. intros c ps1 (L1 & E1 & Hr).
    apply (wp_refuse "|" 124); [done..|by rewrite E1|]. intros ps' E' L'. apply wp_ret. rewrite E'. auto.
  - rewrite <-app_assoc in E. rewrite length_app in Hf. simpl in Hf, E.
    eapply wp_mono; [apply (IHe e); [exact E|by right|by destruct Hw|lia|done]|]. intros c ps1 (L1 & E1 & Hr).
    eapply (wp_accept "|" 124); [done..|exact E1|]. intros ps2 E2 L2. apply wp_bind.
    eapply wp_mono; [apply (IHp p); [exact E2|by split|by destruct Hw|lia|done]|]. intros c2 ps' (L' & E' & Hr').
    apply wp_ret. split; [done|]. split; [done|]. by constructor.
Qed.

Lemma not_block l k : ends_exec k → head (items_toks l ++ k) ≠ Some (TSym 40).
Proof.
  intros Hk. destruct l as [|[w|[]] l]; simpl; try done. destruct Hk as [->|Hk]; [done|]. intros E. by rewrite E in Hk.
Qed.

Lemma parseexec_complete_step fuel :
  complete (parseblock buf) 1 fuel block_toks block_cmd block_wf ends_exec →
  complete (parseexec buf) 2 (S fuel) exec_toks exec_cmd exec_wf ends_exec.
Proof.
  intros IHb x ps k E Hk Hw Hf Hps. unfold accepts. cbn [parseexec]. destruct x as [l|l rs].
  - cbn [exec_toks] in E. apply (wp_refuse "(" 40); [done..|rewrite E; by apply not_block|].
    intros ps1 E1 L1. destruct (split_redirs l) as (xs & l' & -> & Hl'). destruct (args_redirs xs l') as [Ea Er].
    rewrite items_redirs_toks, <-app_assoc in E. rewrite E in E1. apply wp_bind.
    pose proof (length_prefix _ _ _ E) as Lr. pose proof (length_redirs_toks xs).
    eapply wp_mono; [apply (parseredirs_complete _ ps1 xs); [exact E1|by apply not_redir|lia|done]|].
    intros rs ps2 (L2 & E2 & Hrs). apply wp_bind. pose proof (length_prefix _ _ _ E2). pose proof (length_items_toks l').
    simpl in Hw. rewrite Ea in Hw.
    eapply wp_mono; [apply (parseargs_complete _ 0 ps2 l'); [exact E2|done|done|lia|done|done]|].
    intros r ps' (L & E' & Hr1 & Hr2). apply wp_ret. split; [done|]. split; [done|]. cbn [exec_cmd]. rewrite Ea, Er.
    apply reads_redirs; [by constructor|by apply Forall2_app].
  - apply wp_peek; [done..|]. intros ps1 E1 L1. rewrite E in E1 |- *.
    change (token_in (head (exec_toks (Block l rs) ++ k)) (chars "(")) with true. cbn iota.
    apply (IHb (l, rs)); [exact E1|done|done|unfold block_toks; simpl in *; lia|done].
Qed.

Lemma parseblock_complete_step fuel :
  complete (parseline buf) 4 fuel line_toks line_cmd line_wf ends_line →
  complete (parseblock buf) 1 (S fuel) block_toks block_cmd block_wf ends_exec.
Proof.
  intros IHl [l rs] ps k E Hk Hw Hf Hps. unfold accepts, block_toks, block_cmd, block_wf in *. cbn [fst snd parseblock] in *.
  cbn [exec_toks] in E, Hf. simpl in Hf. rewrite length_app in Hf. simpl in Hf.
  change ((TSym 40 :: ?a) ++ k) with (TSym 40 :: (a ++ k)) in E.
  apply wp_peek; [done..|]. intros ps1 E1 L1. rewrite E in E1 |- *. cbn [app head].
  change (token_in (Some (TSym 40)) (chars "(")) with true. cbn [negb].
  eapply wp_gettoken; [done|exact E1|]. intros ret p ps2 _ E2 L2. rewrite <-app_assoc in E2. cbn [app] in E2.
  apply wp_bind. eapply wp_mono; [apply (IHl l); [exact E2|by right|done|lia|done]|]. intros c ps3 (L3 & E3 & Hr).
  apply wp_peek; [done..|]. intros ps4 E4 L4. rewrite E3 in E4 |- *. cbn [head].
  change (token_in (Some (TSym 41)) (chars ")")) with true. cbn [negb].
  eapply wp_gettoken; [done|exact E4|]. intros ret' p' ps5 _ E5 L5. apply wp_bind.
  pose proof (length_prefix _ _ _ E5). pose proof (length_redirs_toks rs).
  eapply wp_mono; [apply (parseredirs_complete _ ps5 rs); [exact E5|by apply (not_redir [])|lia|done]|].
  intros xs ps' (L' & E' & Hx). apply wp_ret. split; [done|]. split; [done|]. cbn [exec_cmd]. by apply reads_redirs.
Qed.

Lemma parser_complete fuel :
  complete (parseline buf) 4 fuel line_toks line_cmd line_wf ends_line ∧
  complete (parsepipe buf) 3 fuel pipe_toks pipe_cmd pipe_wf ends_pipe ∧
  complete (parseexec buf) 2 fuel exec_toks exec_cmd exec_wf ends_exec ∧
  complete (parseblock buf) 1 fuel block_toks block_cmd block_wf ends_exec.
Proof.
  induction fuel as [|fuel (IHl & IHp & IHe & IHb)]; [split_and!; intros x ps k; lia|]. split_and!.
  - by apply parseline_complete_step.
  - by apply parsepipe_complete_step.
  - by apply parseexec_complete_step.
  - by apply parseblock_complete_step.
Qed.

(** *** nulterminate *)

Fixpoint ends (c : cmd) : list nat :=
  match c with
  | CExec argv => argv.*2
  | CRedir c f _ _ => ends c ++ [f.2]
  | CPipe l r | CList l r => ends l ++ ends r
  | CBack c => ends c
  end.

(** The memory with zeros at the indices [l]. *)
Definition zeroed (l : list nat) (m m' : list Z) : Prop :=
  length m' = length m ∧ ∀ i, (i < length m)%nat → m' !! i = if decide (i ∈ l) then Some 0 else m !! i.

Lemma zeroed_app l1 l2 m m1 m2 : zeroed l1 m m1 → zeroed l2 m1 m2 → zeroed (l1 ++ l2) m m2.
Proof.
  intros [L1 H1] [L2 H2]. split; [lia|]. intros i Hi. rewrite H2, H1 by lia.
  repeat case_decide; set_solver.
Qed.

Lemma cut_word_zeroed w m : (w.2 < length m)%nat → ∃ m', cut_word w m = Some m' ∧ zeroed [w.2] m m'.
Proof.
  intros Hw. unfold cut_word. rewrite store_Some by done. eexists. split; [done|]. split; [len|]. intros i Hi.
  case_decide as E.
  - apply list_elem_of_singleton in E as ->. by rewrite list_lookup_insert_eq.
  - by rewrite list_lookup_insert_ne by set_solver.
Qed.

Lemma cut_words_zeroed l m : Forall (λ e, (e < length m)%nat) l.*2 → ∃ m', cut_words l m = Some m' ∧ zeroed l.*2 m m'.
Proof.
  revert m. induction l as [|w l IH]; intros m Hl; [exists m; split; [done|]; split; [done|]; by intros; case_decide; [set_solver|]|].
  rewrite fmap_cons in Hl. apply Forall_cons in Hl as [Hw Hl].
  destruct (cut_word_zeroed w m Hw) as (m1 & E1 & Z1). cbn [cut_words]. rewrite E1. simpl.
  destruct (IH m1) as (m2 & -> & Z2); [by rewrite (proj1 Z1)|]. exists m2. split; [done|].
  by apply (zeroed_app [w.2] l.*2 m m1).
Qed.

Lemma nulterminate_zeroed c m : Forall (λ e, (e < length m)%nat) (ends c) →
  ∃ m', nulterminate c m = Some m' ∧ zeroed (ends c) m m'.
Proof.
  revert m. induction c as [argv|c IH f mode fd|l IHl r IHr|l IHl r IHr|c IH]; intros m Hc; simpl in Hc |- *; auto.
  - by apply cut_words_zeroed.
  - apply Forall_app in Hc as [Hc Hf]. apply Forall_cons in Hf as [Hf _]. destruct (IH m Hc) as (m1 & -> & Z1). simpl.
    destruct (cut_word_zeroed f m1) as (m2 & E2 & Z2); [by rewrite (proj1 Z1)|]. exists m2. split; [done|].
    by eapply zeroed_app.
  - apply Forall_app in Hc as [Hl Hr]. destruct (IHl m Hl) as (m1 & -> & Z1). simpl.
    destruct (IHr m1) as (m2 & -> & Z2); [by rewrite (proj1 Z1)|]. exists m2. split; [done|]. by eapply zeroed_app.
  - apply Forall_app in Hc as [Hl Hr]. destruct (IHl m Hl) as (m1 & -> & Z1). simpl.
    destruct (IHr m1) as (m2 & -> & Z2); [by rewrite (proj1 Z1)|]. exists m2. split; [done|]. by eapply zeroed_app.
Qed.

(** An end of a word is no character of a word. *)
Definition end_ok (e : nat) : Prop := (e ≤ length buf)%nat ∧ ends_word (drop e buf).

Lemma reads_ends c d : reads c d → Forall end_ok (ends c).
Proof.
  induction 1 as [ps ws Hps|c d p w mode fd _ IH [_ Hlt _ Hend]|c d c' d' _ IH1 _ IH2|c d c' d' _ IH1 _ IH2|c d _ IH]; simpl.
  - induction Hps as [|p w ps ws [_ Hlt _ Hend] _ IH]; [constructor|]. rewrite fmap_cons. constructor; [|done]. split; [lia|done].
  - apply Forall_app. split; [done|]. constructor; [split; [lia|done]|constructor].
  - by apply Forall_app.
  - by apply Forall_app.
  - done.
Qed.

Lemma string_at_word m l p w :
  zeroed l (buf ++ [0]) m → Forall end_ok l → p.2 ∈ l → word_at p w → string_at m p = w.
Proof.
  intros [Lm Hm] Hl Hp [Hs Hlt Hw Hend]. rewrite length_app in Lm, Hm. simpl in Lm, Hm. rewrite Forall_forall in Hl.
  assert (m !! p.2 = Some 0) as Hp0 by (rewrite Hm by lia; by case_decide).
  assert (slice p.1 (p.2 - p.1) m = w) as Hsm.
  { rewrite <-Hs. apply list_eq. intros j. rewrite !lookup_slice. case_decide as Hj; [|done].
    assert (buf !! (p.1 + j)%nat = w !! j) as Ej by (rewrite <-Hs, lookup_slice; by case_decide).
    assert (is_Some (w !! j)) as [x Hx].
    { rewrite <-Ej. apply lookup_lt_is_Some. lia. }
    rewrite Hm, Ej by lia. case_decide as Hin; [|rewrite lookup_app_l by lia; by rewrite Ej].
    destruct (Hl _ Hin) as [_ He]. rewrite (drop_S _ _ _ (eq_trans Ej Hx)) in He.
    eapply Forall_lookup_1 in Hw as (_ & H1 & H2); [|exact Hx]. simpl in He. destruct He; congruence. }
  unfold string_at. rewrite <-(take_drop (p.2 - p.1) (drop p.1 m)). fold (slice p.1 (p.2 - p.1) m). rewrite Hsm, drop_drop.
  replace (p.1 + (p.2 - p.1))%nat with p.2 by lia. rewrite (drop_S _ _ _ Hp0). apply cstr_app.
  - intros Hin. rewrite Forall_forall in Hw. by destruct (Hw 0 Hin).
  - rewrite <-Hsm. unfold slice. rewrite length_take, length_drop. lia.
Qed.

Lemma resolve_reads m l c d :
  zeroed l (buf ++ [0]) m → Forall end_ok l → reads c d → ends c ⊆ l → resolve m c = d.
Proof.
  intros Hz Hl. induction 1 as [ps ws Hps|c d p w mode fd _ IH Hw|c d c' d' _ IH1 _ IH2|c d c' d' _ IH1 _ IH2|c d _ IH];
    simpl; intros Hc.
  - f_equal. induction Hps as [|p w ps ws Hp _ IH]; [done|]. rewrite !fmap_cons in *.
    f_equal; [eapply string_at_word; [done|done| |done]; set_solver|apply IH; set_solver].
  - f_equal; [apply IH; set_solver|]. eapply string_at_word; [done|done| |done]. set_solver.
  - f_equal; [apply IH1|apply IH2]; set_solver.
  - f_equal; [apply IH1|apply IH2]; set_solver.
  - f_equal. apply IH. set_solver.
Qed.

(** [nulterminate] makes the words of the command strings. *)
Lemma nulterminate_spec c d : reads c d → ∃ m, nulterminate c (buf ++ [0]) = Some m ∧ resolve m c = d.
Proof.
  intros Hc. pose proof (reads_ends _ _ Hc) as He. destruct (nulterminate_zeroed c (buf ++ [0])) as (m & Em & Hz).
  { eapply Forall_impl; [exact He|]. intros e [Hle _]. rewrite length_app. simpl. lia. }
  exists m. split; [done|]. by eapply resolve_reads.
Qed.

(** *** The whole line *)

Lemma lex_nonempty c l : is_in c whitespace = false → Forall (λ c, c ≠ 0) (c :: l) → lex [] (c :: l) ≠ [].
Proof.
  intros Hc Hl. destruct (is_in c symbols) eqn:Es.
  - rewrite lex_symbol by done. by case_match.
  - by destruct (lex_word_head (c :: l) Hl c l eq_refl Hc Es) as (w & k & _ & _ & _ & _ & -> & _).
Qed.

Lemma skip_end ps : (ps ≤ length buf)%nat → skip buf ps = length buf ↔ toks ps = [].
Proof.
  intros Hps. destruct (skip_spec ps) as (E & Hle & Hws). specialize (Hle Hps). rewrite <-E. unfold toks.
  pose proof (Forall_drop _ (skip buf ps) _ Hbuf) as Hd.
  destruct (drop (skip buf ps) buf) as [|c l] eqn:El; apply (f_equal length) in El as Ll; rewrite length_drop in Ll; simpl in Ll.
  - split; [done|lia].
  - split; [lia|]. intros Hl. by apply lex_nonempty in Hl.
Qed.

Lemma parse_fuel_enough : (4 * length (toks 0) + 4 ≤ parse_fuel buf)%nat.
Proof. pose proof (length_toks 0). unfold parse_fuel. lia. Qed.

Lemma peek_end ps : runs_to (peek buf "") ps false (skip buf ps).
Proof. unfold runs_to, peek. simpl. by rewrite andb_false_r. Qed.

Lemma parse_complete l : lex [] buf = line_toks l → line_wf l →
  wp (parse buf) (λ c ps', ps' = length buf ∧ reads c (line_cmd l)) 0%nat.
Proof.
  intros E Hw. destruct (parser_complete (parse_fuel buf)) as (Hl & _). unfold parse. apply wp_bind.
  assert (toks 0 = line_toks l ++ []) as E0 by (by rewrite app_nil_r, <-E).
  pose proof parse_fuel_enough as Hf. unfold toks at 1 in Hf. rewrite drop_0, E in Hf.
  eapply wp_mono; [apply (Hl l 0%nat []); [done|by left|done|done|lia]|]. intros c ps (L & Ek & Hr).
  apply wp_bind. eapply wp_of_runs; [apply peek_end|]. apply wp_ret. split; [by apply skip_end|done].
Qed.

Lemma parse_sound : stops (parse buf) (λ c ps', ∃ l k, lex [] buf = line_toks l ++ k ∧ line_wf l ∧
  reads c (line_cmd l) ∧ (ps' = length buf ↔ k = [])) 0%nat.
Proof.
  destruct (parser_sound (parse_fuel buf)) as (Hl & _). unfold parse. apply stops_bind.
  eapply stops_mono; [apply Hl; [apply parse_fuel_enough|lia]|]. intros c ps (L & l & E & Hr & Hw).
  apply stops_bind. eapply stops_runs; [apply peek_end|]. apply stops_ret. exists l, (toks ps).
  split; [done|]. split; [done|]. split; [done|]. by apply skip_end.
Qed.

End Lexer.

(** ** The parser *)


(** C24: On every text the parser ends.  It stops with a message, or returns a
    command: then the text starts with the tokens of a line of the grammar, all
    of them if the parser is at the end, and the command is that line's. *)
Theorem parse_total buf :
  Forall (λ c, c ≠ 0) buf →
  stops (parse buf) (λ c ps, ∃ l k, lex [] buf = line_toks l ++ k ∧ line_wf l ∧ (ps = length buf ↔ k = []) ∧
    ∃ m, nulterminate c (buf ++ [0]) = Some m ∧ resolve m c = line_cmd l) 0%nat.
Proof.
  intros Hb. eapply stops_mono; [by apply (parse_sound buf Hb)|].
  intros c ps (l & k & E & Hw & Hr & Hps). exists l, k. split; [done|]. split; [done|]. split; [done|].
  by apply (nulterminate_spec buf Hb).
Qed.

(** ** Printing a line *)

Definition show_token (t : token) : list Z :=
  match t with TSym c => [c] | TAppend => [62; 62] | TWord w => w end.

(** The tokens, each followed by a space. *)
Definition show_tokens (l : list token) : list Z := concat ((λ t, show_token t ++ [32]) <$> l).

Definition token_ok (t : token) : Prop :=
  match t with
  | TSym c => c ∈ symbols
  | TAppend => True
  | TWord w => w ≠ [] ∧ Forall wchar w
  end.

Lemma lex_show l : Forall token_ok l → lex [] (show_tokens l) = l.
Proof.
  induction 1 as [|t l Ht _ IH]; [done|]. unfold show_tokens in *. rewrite fmap_cons. cbn [concat]. rewrite <-app_assoc.
  destruct t as [c| |w]; cbn [show_token].
  - assert (is_in c whitespace = false ∧ is_in c symbols = true) as [H1 H2].
    { simpl in Ht. split; [|by apply bool_decide_eq_true]. apply bool_decide_eq_false.
      unfold symbols, whitespace in *. simpl in *. set_solver. }
    change ([c] ++ [32] ++ ?k) with (c :: 32 :: k). rewrite lex_symbol by done. cbn [head].
    rewrite bool_decide_eq_false_2, andb_false_r by done. f_equal. done.
  - change ([62; 62] ++ [32] ++ ?k) with (62 :: 62 :: 32 :: k). rewrite lex_symbol by done. simpl. by f_equal.
  - destruct Ht as [Hne Hw]. rewrite lex_word, lex_flush by (done || by left). unfold flush. simpl.
    rewrite bool_decide_eq_false_2 by done. simpl. by f_equal.
Qed.

Module ParseExample.

(** [a < i | (b ; c &) > o] *)
Definition example : line :=
  LineEnd (PipeCons (Simple [IArg (chars "a"); IRedir (RIn (chars "i"))])
    (PipeOne (Block (LineSeq (PipeOne (Simple [IArg (chars "b")])) 0
      (LineEnd (PipeOne (Simple [IArg (chars "c")])) 1)) [ROut (chars "o")]))) 0.
Definition text : list Z := show_tokens (line_toks example).


Lemma parse_total_witness :
  stops (parse (chars "a ( b")) (λ c ps, ∃ l k, lex [] (chars "a ( b") = line_toks l ++ k ∧ line_wf l ∧
    (ps = length (chars "a ( b") ↔ k = []) ∧
    ∃ m, nulterminate c (chars "a ( b" ++ [0]) = Some m ∧ resolve m c = line_cmd l) 0%nat.
Proof. apply (parse_total (chars "a ( b")). vm_compute. repeat constructor; done. Defined.

End ParseExample.
