(* ===== verification/Sh.v ===== *)
(** * Sh: running commands, the command history, and the main loop (sh.c)

    [runcmd] works on the command whose words are strings ([resolve] of
    [ShParse]).  A process that forks goes on as the parent or as the child,
    as the answer to [Fork] says; [fds] gives the descriptor table that the
    calls made so far have left. *)

From S2P Require Import Prelude Bytes CString Print User ShParse.

Section Shell.
Context `{Os}.

(** ** runcmd *)

Definition sh_panic {A} (s : list Z) : U A := printf 2 ("%s" +:+ nl) [AStr (Some s)];; exit.

Definition fork1 : U Z :=
  pid ← sys Fork;
  if pid =? -1 then sh_panic (chars "fork") else mret pid.

(** A successful [exec] does not return. *)
Definition exec (path : list Z) (argv : list (list Z)) : U () := λ tr,
  if os_int tr (Exec path argv) <? 0 then Ok () (Exec path argv :: tr) else Sleep (Exec path argv :: tr).

(** [pipe(p)]: the value returned, and the two descriptors. *)
Definition pipe : U (Z * list Z) := λ tr, Ok (os_int tr Pipe, os_data tr Pipe) (Pipe :: tr).

(** [runcmd] does not return: every branch ends in [exit]. *)
Fixpoint runcmd (c : command) : U () :=
  match c with
  | SExec argv =>
      match argv with
      | [] => exit
      | a :: _ =>
          exec a argv;;
          printf 2 ("exec %s failed" +:+ nl) [AStr (Some a)];;
          exit
      end
  | SRedir c file mode fd =>
      sys (Close fd);;
      r ← sys (Open file mode);
      if r <? 0 then printf 2 ("open %s failed" +:+ nl) [AStr (Some file)];; exit else
      runcmd c;;
      exit
  | SList lc rc =>
      pid ← fork1;
      when (pid =? 0) (runcmd lc);;
      sys Wait;;
      runcmd rc;;
      exit
  | SPipe lc rc =>
      r ← pipe;
      if r.1 <? 0 then sh_panic (chars "pipe") else
      p0 ← the (r.2 !! 0%nat);
      p1 ← the (r.2 !! 1%nat);
      pid ← fork1;
      when (pid =? 0) (sys (Close 1);; sys (Dup p1);; sys (Close p0);; sys (Close p1);; runcmd lc);;
      pid ← fork1;
      when (pid =? 0) (sys (Close 0);; sys (Dup p0);; sys (Close p0);; sys (Close p1);; runcmd rc);;
      sys (Close p0);;
      sys (Close p1);;
      sys Wait;;
      sys Wait;;
      exit
  | SBack c =>
      pid ← fork1;
      when (pid =? 0) (runcmd c);;
      exit
  end.

(** [parsecmd]: the command line is the string [line]. *)
Definition parsecmd (line : list Z) : U command :=
  match parse line 0%nat with
  | Ok c s =>
      if bool_decide (s ≠ length line) then
        printf 2 ("leftovers: %s" +:+ nl) [AStr (Some (drop s line))];;
        sh_panic (chars "syntax")
      else m ← the (nulterminate c (line ++ [0])); mret (resolve m c)
  | Panic msg => sh_panic (chars msg)
  | _ => fault
  end.

(** ** The history *)

Abbreviation MAX_HISTORY := 10.

(** [history[i]]; the entries are memory blocks of 100 bytes. *)
Definition entry (history : list (list Z)) (i : Z) : option (list Z) :=
  if i <? 0 then None else history !! Z.to_nat i.

(** The string at the start of a block. *)
Definition str (m : list Z) : option (list Z) :=
  if cstr_ok (S (length m)) m then Some (cstr (length m) m) else None.

(** Print [n] entries, the numbers and places going down. *)
Fixpoint print_history (n : nat) (history : list (list Z)) (currLoc lineNum : Z) : U Z :=
  match n with
  | O => mret lineNum
  | S n' =>
      printf 2 "%d " [AInt lineNum];;
      m ← the (entry history currLoc);
      s ← the (str m);
      printf 2 ("%s " +:+ nl) [AStr (Some s)];;
      print_history n' history (currLoc - 1) (lineNum - 1)
  end.

Definition historyOut (history : list (list Z)) (histNum : Z) : U () :=
  let tempNum := histNum - 1 in
  let currLoc := Z.rem tempNum MAX_HISTORY in
  let lineNum := histNum in
  if histNum <=? 10 then print_history (Z.to_nat (currLoc + 1)) history currLoc lineNum;; mret ()
  else
    let border := 8 - currLoc in
    lineNum ← print_history (Z.to_nat (currLoc + 1)) history currLoc lineNum;
    print_history (Z.to_nat (border + 1)) history 9 lineNum;;
    mret ().

(** [strcpy] into a block. *)
Definition strcpy_to (m t : list Z) : U (list Z) := the (strcpy m 0 t).

Definition historyUpdate (history : list (list Z)) (enteredArgs : list Z) (histNum : Z) : U (list (list Z) * Z) :=
  let tempNum2 := histNum in
  let histNum := s32 (histNum + 1) in
  let index := Z.rem tempNum2 MAX_HISTORY in
  m ← the (entry history index);
  m ← strcpy_to m enteredArgs;
  mret (<[Z.to_nat index:=m]> history, histNum).

(** The buffer with the last entry in it. *)
Definition lastHistory (history : list (list Z)) (buffer : list Z) (histNum : Z) : U (list Z) :=
  let index := Z.rem (histNum - 1) 10 in
  m ← the (entry history index);
  buffer ← strcpy_to buffer m;
  s ← the (str buffer);
  printf 2 ("%s" +:+ nl) [AStr (Some s)];;
  mret buffer.

(** [%] binds tighter than [-]. *)
Definition chooseFromHistory (history : list (list Z)) (histNum historyIndex : Z) : U (list Z) :=
  let index := historyIndex - Z.rem 1 10 in
  printf 2 "%d: " [AInt historyIndex];;
  m ← the (entry history index);
  s ← the (str m);
  printf 2 ("%s" +:+ nl) [AStr (Some s)];;
  mret m.

Definition digCheck (num : Z) : bool := (48 <=? num) && (num <=? 57).

Definition convertDigit (num : Z) : Z :=
  if (48 <=? num) && (num <=? 56) then num - 48 else 9.

(** ** main *)

Record shell := { sh_history : list (list Z); sh_num : Z }.

(** The buffer [getcmd] fills, and whether it returns -1. *)
Definition getcmd : U (list Z * bool) :=
  printf 2 "$ " [];;
  l ← ugets 100;
  let buf := splice 0 l (replicate 100 0) in
  mret (buf, bool_decide (head buf = Some 0)).

(** [buf[strlen(buf)-1] = 0] *)
Definition chop (buf : list Z) : U (list Z) :=
  n ← the (strlen buf);
  if bool_decide (n = 0%nat) then fault else the (store buf (n - 1) 0).

(** [if(fork1() == 0) runcmd(parsecmd(buf)); wait();] *)
Definition run (buf : list Z) : U () :=
  pid ← fork1;
  when (pid =? 0) (s ← the (str buf); c ← parsecmd s; runcmd c);;
  sys Wait;;
  mret ().

Definition char_of (buf : list Z) (i : nat) : U Z := the (buf !! i).
Definition is_string (buf : list Z) (s : string) : U bool :=
  r ← the (strcmp buf (chars s ++ [0])); mret (r =? 0).

(** Run the entry in the buffer and add it to the history. *)
Definition rerun (st : shell) (buf : list Z) : U shell :=
  h ← historyUpdate (sh_history st) buf (sh_num st);
  run buf;;
  mret {| sh_history := h.1; sh_num := h.2 |}.

(** The branch for a number after an exclamation mark. *)
Definition choose (st : shell) (buf : list Z) : U shell :=
  c1 ← char_of buf 1;
  c2 ← char_of buf 2;
  if digCheck c1 then
    let test := if digCheck c2 then 10 * convertDigit c1 + convertDigit c2 else convertDigit c1 in
    if (0 <? test) && (test <=? sh_num st) && (sh_num st - 10 <? test) then
      m ← chooseFromHistory (sh_history st) (sh_num st) test;
      buf ← strcpy_to buf m;
      rerun st buf
    else printf 1 ("This value is not in the history." +:+ nl) [];; mret st
  else printf 1 "Error incorrect format" [];; mret st.

(** The body of the loop that reads commands, on the line [getcmd] read. *)
Definition command_line (st : shell) (buf : list Z) : U shell :=
  buf ← chop buf;
  c0 ← char_of buf 0;
  c1 ← char_of buf 1;
  c2 ← char_of buf 2;
  if (c0 =? 99) && (c1 =? 100) && (c2 =? 32) then
    buf ← chop buf;
    dir ← the (str (drop 3 buf));
    r ← sys (Chdir dir);
    when (r <? 0) (printf 2 ("cannot cd %s" +:+ nl) [AStr (Some dir)]);;
    mret st
  else
  b ← is_string buf "history";
  if b : bool then
    (if sh_num st <? 1 then printf 1 ("No commands in history" +:+ nl) []
     else historyOut (sh_history st) (sh_num st));;
    mret st
  else
  b ← is_string buf "!!";
  if b : bool then
    if sh_num st <? 1 then printf 1 ("No commands in history" +:+ nl) [];; mret st else
    buf ← lastHistory (sh_history st) buf (sh_num st);
    buf ← strcpy_to buf buf;
    rerun st buf
  else
  b ← is_string buf "ps";
  if b : bool then
    h ← historyUpdate (sh_history st) buf (sh_num st);
    sys Ps;;
    mret {| sh_history := h.1; sh_num := h.2 |}
  else if (c0 =? 33) && negb (c1 =? 33) then choose st buf
  else rerun st buf.

(** [while((fd = open("console", O_RDWR)) >= 0)] *)
Fixpoint open_console (fuel : nat) : U () :=
  match fuel with
  | O => fault
  | S fuel' =>
      fd ← sys (Open (chars "console") 2);
      if fd <? 0 then mret () else
      if 3 <=? fd then sys (Close fd);; mret () else open_console fuel'
  end.

(** At most [fuel] lines are read. *)
Fixpoint main_loop (fuel : nat) (st : shell) : U () :=
  match fuel with
  | O => fault
  | S fuel' =>
      g ← getcmd;
      if g.2 : bool then exit else
      st ← command_line st g.1;
      main_loop fuel' st
  end.

(** [histNum] is not initialised: it is a parameter.  The entries start as
    empty strings in memory [malloc] returned. *)
Definition sh_main (fuel : nat) (histNum : Z) (blocks : list (list Z)) : U () :=
  open_console 4;;
  main_loop fuel {| sh_history := (λ m, <[0%nat:=0]> m) <$> blocks; sh_num := histNum |}.

End Shell.

(** ** runcmd does not return *)

(** The process ends, or is replaced by another program. *)
Definition ends_in {A} (m : U A) (tr : list call) : Prop := ∃ tr', m tr = Sleep tr'.

(** A successful [pipe] gives two descriptors. *)
Definition pipe_pair `{Os} : Prop := ∀ tr, 0 ≤ os_int tr Pipe → length (os_data tr Pipe) = 2%nat.

Section Ends.
Context `{Os}.

Lemma ends_bind {A B} (m : U A) (f : A → U B) tr : ends_in m tr → ends_in (m ≫= f) tr.
Proof. intros [tr' E]. exists tr'. unfold mbind, M_bind. by rewrite E. Qed.

Lemma ends_wp {A B} (m : U A) (f : A → U B) (Q : A → list call → Prop) tr :
  wp m Q tr → (∀ a tr', Q a tr' → ends_in (f a) tr') → ends_in (m ≫= f) tr.
Proof.
  unfold wp. intros Hm Hf. unfold ends_in, mbind, M_bind. destruct (m tr) eqn:E; try done. by apply Hf.
Qed.

Lemma ends_sys {B} c (f : Z → U B) tr : ends_in (f (os_int tr c)) (c :: tr) → ends_in (sys c ≫= f) tr.
Proof. exact id. Qed.

Lemma ends_when {B} (b : bool) (m : U ()) (f : U B) tr :
  ends_in m tr → ends_in f tr → ends_in (when b m;; f) tr.
Proof. destruct b; [intros; by apply ends_bind|by intros]. Qed.

Lemma ends_exit {A} tr : ends_in (exit : U A) tr.
Proof. by exists (Exit :: tr). Qed.

Lemma ends_printf {B} fd fmt args out (f : () → U B) tr :
  rendered false (chars fmt) args = Some out → (∀ tr', ends_in (f ()) tr') → ends_in (printf fd fmt args ≫= f) tr.
Proof. intros E Hf. eapply ends_wp; [by eapply printf_spec|]. intros [] tr' _. apply Hf. Qed.

Lemma ends_panic {A} s tr : ends_in (sh_panic s : U A) tr.
Proof. eapply ends_printf; [reflexivity|]. intros tr'. apply ends_exit. Qed.

Lemma ends_fork1 {B} (f : Z → U B) tr : (∀ pid tr', ends_in (f pid) tr') → ends_in (fork1 ≫= f) tr.
Proof.
  intros Hf. unfold ends_in, fork1, sys, mbind, M_bind. destruct (os_int tr Fork =? -1); [|apply Hf].
  destruct (ends_panic (A := Z) (chars "fork") (Fork :: tr)) as [tr' E]. exists tr'. by rewrite E.
Qed.

Lemma runcmd_ends c tr : pipe_pair → ends_in (runcmd c) tr.
Proof.
  intros Hp. revert tr. induction c as [argv|c IH f mode fd|l IHl r IHr|l IHl r IHr|c IH]; intros tr; cbn [runcmd].
  - destruct argv as [|a argv]; [apply ends_exit|].
    unfold exec. destruct (os_int tr (Exec a (a :: argv)) <? 0) eqn:E.
    + eapply (ends_wp _ _ (λ _ _, True)); [unfold wp; by rewrite E|]. intros [] tr' _.
      eapply ends_printf; [reflexivity|]. intros. apply ends_exit.
    + apply ends_bind. exists (Exec a (a :: argv) :: tr). by rewrite E.
  - apply ends_sys, ends_sys. case_match; [|by apply ends_bind].
    eapply ends_printf; [reflexivity|]. intros. apply ends_exit.
  - eapply (ends_wp _ _ (λ x tr', x = (os_int tr Pipe, os_data tr Pipe))); [done|]. intros x tr' ->. cbn [fst snd].
    destruct (Z.ltb_spec (os_int tr Pipe) 0); [apply ends_panic|].
    specialize (Hp tr ltac:(done)). destruct (os_data tr Pipe) as [|p0 [|p1 [|]]]; try done. cbn [lookup list_lookup the].
    apply ends_fork1. intros pid t1. apply ends_when; [by repeat apply ends_sys|].
    apply ends_fork1. intros pid' t2. apply ends_when; [by repeat apply ends_sys|].
    repeat apply ends_sys. apply ends_exit.
  - apply ends_fork1. intros pid t1. apply ends_when; [done|]. apply ends_sys. by apply ends_bind.
  - apply ends_fork1. intros pid t1. apply ends_when; [done|]. apply ends_exit.
Qed.

End Ends.

(** ** Descriptors *)

(** What a descriptor refers to; a pipe is named by the calls before it. *)
Inductive object := Inherited (fd : Z) | File (path : list Z) (mode : Z) | PipeEnd (id : nat) (writes : bool).

Section Descriptors.
Context `{Os} (t0 : gmap Z object).

(** The descriptor table after the calls. *)
Fixpoint fds (tr : list call) : gmap Z object :=
  match tr with
  | [] => t0
  | c :: tr' =>
      let t := fds tr' in
      let r := os_int tr' c in
      if r <? 0 then t else
      match c with
      | Close fd => delete fd t
      | Dup fd => match t !! fd with Some o => <[r:=o]> t | None => t end
      | Open path mode => <[r:=File path mode]> t
      | Pipe =>
          match os_data tr' c with
          | [p0; p1] => <[p1:=PipeEnd (length tr') true]> (<[p0:=PipeEnd (length tr') false]> t)
          | _ => t
          end
      | _ => t
      end
  end.

(** The descriptor is free, and those below it are not. *)
Definition is_lowest (t : gmap Z object) (fd : Z) : Prop :=
  0 ≤ fd ∧ t !! fd = None ∧ ∀ k, 0 ≤ k < fd → is_Some (t !! k).

(** The calls take the lowest free descriptor; [dup] of an open one fails only
    when all [NOFILE] are open. *)
Record os_fds : Prop := {
  of_close tr fd : is_Some (fds tr !! fd) → os_int tr (Close fd) = 0;
  of_dup tr fd b : is_Some (fds tr !! fd) → is_lowest (fds tr) b → b < 16 → os_int tr (Dup fd) = b;
  of_open tr path mode : os_int tr (Open path mode) < 0 ∨ is_lowest (fds tr) (os_int tr (Open path mode));
  of_pipe tr : os_int tr Pipe < 0 ∨ os_int tr Pipe = 0 ∧ ∃ p0 p1, os_data tr Pipe = [p0; p1] ∧
    is_lowest (fds tr) p0 ∧ is_lowest (<[p0:=PipeEnd (length tr) false]> (fds tr)) p1;
}.

(** Standard input, output and error. *)
Definition standard (t : gmap Z object) : Prop := ∀ k, is_Some (t !! k) ↔ 0 ≤ k ≤ 2.

Lemma lowest_unique t a b : is_lowest t a → is_lowest t b → a = b.
Proof.
  intros (Ha & Na & La) (Hb & Nb & Lb). destruct (decide (a < b)) as [H1|H1].
  - destruct (Lb a) as [x Hx]; [lia|congruence].
  - destruct (decide (b < a)) as [H2|H2]; [|lia]. destruct (La b) as [x Hx]; [lia|congruence].
Qed.

Context (Hos : os_fds).
#[local] Set Default Proof Using "All".

Lemma fds_close tr fd : is_Some (fds tr !! fd) → fds (Close fd :: tr) = delete fd (fds tr).
Proof. intros Hfd. simpl. by rewrite (of_close Hos) by done. Qed.

Lemma fds_dup tr fd o b : fds tr !! fd = Some o → is_lowest (fds tr) b → b < 16 → fds (Dup fd :: tr) = <[b:=o]> (fds tr).
Proof.
  intros Hfd Hb Hlt. simpl. rewrite (of_dup Hos tr fd b) by (done || by rewrite Hfd).
  rewrite (proj2 (Z.ltb_ge _ 0)), Hfd by apply Hb. done.
Qed.

Lemma fds_fork tr : fds (Fork :: tr) = fds tr.
Proof. simpl. by case_match. Qed.

Lemma standard_lowest t o : standard t → is_lowest t 3 ∧ is_lowest (<[3:=o]> t) 4.
Proof.
  intros St. assert (∀ k, 2 < k → t !! k = None) as Hn.
  { intros k Hk. apply eq_None_not_Some. rewrite (St k). lia. }
  split; split_and!; try lia; [by apply Hn|intros k Hk; apply St; lia|rewrite lookup_insert_ne by done; by apply Hn|].
  intros k Hk. destruct (decide (k = 3)) as [->|]; [by rewrite lookup_insert_eq|].
  rewrite lookup_insert_ne by done. apply St. lia.
Qed.

(** The table with a pipe at 3 and 4. *)
Definition with_pipe (id : nat) (t : gmap Z object) : gmap Z object :=
  <[4:=PipeEnd id true]> (<[3:=PipeEnd id false]> t).

Lemma pipe_fds tr : standard (fds tr) → 0 ≤ os_int tr Pipe →
  os_data tr Pipe = [3; 4] ∧ fds (Pipe :: tr) = with_pipe (length tr) (fds tr).
Proof.
  intros St Hp. destruct (of_pipe Hos tr) as [?|(Hr & p0 & p1 & Hd & H0 & H1)]; [lia|].
  destruct (standard_lowest (fds tr) (PipeEnd (length tr) false) St) as [S3 S4].
  assert (p0 = 3) as -> by (by eapply lowest_unique). assert (p1 = 4) as -> by (by eapply lowest_unique).
  split; [done|]. simpl. by rewrite Hr, Hd.
Qed.

(** The calls of a child of the pipe. *)
Lemma wired tr1 id t fd p o : standard t → fds tr1 = with_pipe id t → 0 ≤ fd ≤ 2 →
  (p = 3 ∨ p = 4) → with_pipe id t !! p = Some o →
  fds (Close 4 :: Close 3 :: Dup p :: Close fd :: tr1) = <[fd:=o]> t.
Proof.
  intros St E1 Hfd Hp Ho. unfold with_pipe in *.
  assert (fds (Close fd :: tr1) = delete fd (<[4:=PipeEnd id true]> (<[3:=PipeEnd id false]> t))) as E2.
  { rewrite fds_close, E1; [done|]. rewrite E1, !lookup_insert_ne by lia. by apply St. }
  assert (fds (Dup p :: Close fd :: tr1) = <[fd:=o]> (delete fd (<[4:=PipeEnd id true]> (<[3:=PipeEnd id false]> t)))) as E3.
  { rewrite (fds_dup _ _ o fd), E2; [done|rewrite E2, lookup_delete_ne by lia; done| |lia].
    rewrite E2. split; [lia|]. rewrite lookup_delete_eq. split; [done|]. intros k Hk.
    rewrite lookup_delete_ne, !lookup_insert_ne by lia. apply St. lia. }
  assert (fds (Close 3 :: Dup p :: Close fd :: tr1) = delete 3 (fds (Dup p :: Close fd :: tr1))) as E4.
  { rewrite fds_close; [done|]. rewrite E3, lookup_insert_ne, lookup_delete_ne, lookup_insert_ne, lookup_insert_eq by lia.
    done. }
  rewrite fds_close, E4, E3.
  - apply map_eq. intros k. destruct (decide (k = fd)) as [->|Hk].
    { by rewrite !lookup_delete_ne, !lookup_insert_eq by lia. }
    rewrite (lookup_insert_ne t) by done. destruct (decide (k = 4)) as [->|H4].
    { rewrite lookup_delete_eq. symmetry. apply eq_None_not_Some. rewrite (St 4). lia. }
    destruct (decide (k = 3)) as [->|H3].
    { rewrite lookup_delete_ne, lookup_delete_eq by done. symmetry. apply eq_None_not_Some. rewrite (St 3). lia. }
    by rewrite !lookup_delete_ne, lookup_insert_ne, lookup_delete_ne, !lookup_insert_ne by done.
  - rewrite E4, E3, lookup_delete_ne, lookup_insert_ne, lookup_delete_ne, lookup_insert_eq by lia. done.
Qed.

(** The parent closes both ends. *)
Lemma closed_pipe tr1 id t : standard t → fds tr1 = with_pipe id t → fds (Close 4 :: Close 3 :: tr1) = t.
Proof.
  intros St E. assert (fds (Close 3 :: tr1) = delete 3 (with_pipe id t)) as E1.
  { rewrite fds_close, E; [done|]. rewrite E. unfold with_pipe. by rewrite lookup_insert_ne, lookup_insert_eq. }
  unfold with_pipe in E1. rewrite fds_close, E1.
  - assert (∀ k, 2 < k → t !! k = None) as Hn by (intros k Hk; apply eq_None_not_Some; rewrite (St k); lia).
    rewrite delete_insert_ne, !delete_insert_eq by done. by rewrite !delete_id by (rewrite ?lookup_delete_ne; auto with lia).
  - by rewrite E1, lookup_delete_ne, lookup_insert_eq.
Qed.

Lemma os_fds_pair : pipe_pair.
Proof. intros tr Hp. destruct (of_pipe Hos tr) as [?|(_ & p0 & p1 & -> & _)]; [lia|done]. Qed.

Lemma bind_ends (m : U ()) (f : () → U ()) tr : ends_in m tr → (m ≫= f) tr = m tr.
Proof. intros [tr' E]. unfold mbind, M_bind. by rewrite E. Qed.

Lemma fork1_runs tr : os_int tr Fork ≠ -1 → runs_to fork1 tr (os_int tr Fork) (Fork :: tr).
Proof. intros Hf. unfold runs_to, fork1, sys, mbind, M_bind. by rewrite (proj2 (Z.eqb_neq _ (-1))). Qed.

(** [runcmd] of a pipe after [pipe] gave the descriptors 3 and 4. *)
Lemma runcmd_pipe l r tr : os_data tr Pipe = [3; 4] → 0 ≤ os_int tr Pipe → os_int (Pipe :: tr) Fork ≠ -1 →
  runcmd (SPipe l r) tr =
  (when (os_int (Pipe :: tr) Fork =? 0)
     (sys (Close 1);; sys (Dup 4);; sys (Close 3);; sys (Close 4);; runcmd l);;
   pid ← fork1;
   when (pid =? 0) (sys (Close 0);; sys (Dup 3);; sys (Close 3);; sys (Close 4);; runcmd r);;
   sys (Close 3);; sys (Close 4);; sys Wait;; sys Wait;; exit) (Fork :: Pipe :: tr).
Proof.
  intros Hd Hp Hf. cbn [runcmd]. rewrite (bind_runs pipe _ tr (os_int tr Pipe, [3; 4]) (Pipe :: tr));
    [|unfold runs_to, pipe; by rewrite Hd].
  cbn [fst snd]. rewrite (proj2 (Z.ltb_ge _ 0)) by done. cbn [lookup list_lookup the].
  rewrite (bind_runs (mret 3) _ _ _ _ (runs_ret 3 _)), (bind_runs (mret 4) _ _ _ _ (runs_ret 4 _)).
  by rewrite (bind_runs fork1 _ _ _ _ (fork1_runs _ Hf)).
Qed.

(** C40: [runcmd] of a pipeline.  The left command runs in a child whose standard
    output is the write end of the pipe, the right one in a child whose standard
    input is its read end, and no other descriptor differs from the shell's; the
    parent ends after it has waited for both, with its own table as it was. *)
Theorem pipe_wiring l r tr :
  standard (fds tr) → 0 ≤ os_int tr Pipe → 0 ≤ os_int (Pipe :: tr) Fork → 0 ≤ os_int (Fork :: Pipe :: tr) Fork →
  (os_int (Pipe :: tr) Fork = 0 → ∃ tr', runcmd (SPipe l r) tr = runcmd l tr' ∧
     fds tr' = <[1:=PipeEnd (length tr) true]> (fds tr)) ∧
  (os_int (Pipe :: tr) Fork ≠ 0 → os_int (Fork :: Pipe :: tr) Fork = 0 →
     ∃ tr', runcmd (SPipe l r) tr = runcmd r tr' ∧ fds tr' = <[0:=PipeEnd (length tr) false]> (fds tr)) ∧
  (os_int (Pipe :: tr) Fork ≠ 0 → os_int (Fork :: Pipe :: tr) Fork ≠ 0 →
     ∃ tr', runcmd (SPipe l r) tr = Sleep (Exit :: Wait :: Wait :: tr') ∧ fds tr' = fds tr).
Proof.
  intros St Hp Hf1 Hf2. destruct (pipe_fds tr St Hp) as [Hd Ht].
  pose proof (λ c tr, runcmd_ends c tr os_fds_pair) as Hends.
  rewrite (runcmd_pipe l r tr Hd Hp) by lia. split_and!.
  - intros E. exists (Close 4 :: Close 3 :: Dup 4 :: Close 1 :: Fork :: Pipe :: tr). rewrite E. cbn [Z.eqb when].
    split; [|eapply wired; [done|by rewrite fds_fork|lia|by right|unfold with_pipe; by rewrite lookup_insert_eq]].
    rewrite bind_ends; [done|]. repeat apply ends_sys. apply Hends.
  - intros E1 E2. exists (Close 4 :: Close 3 :: Dup 3 :: Close 0 :: Fork :: Fork :: Pipe :: tr).
    split; [|eapply wired; [done|by rewrite !fds_fork|lia|by left|
      unfold with_pipe; by rewrite lookup_insert_ne, lookup_insert_eq]].
    rewrite (proj2 (Z.eqb_neq _ 0)) by done. cbn [when]. rewrite (bind_runs (mret ()) _ _ _ _ (runs_ret () _)).
    rewrite (bind_runs fork1 _ _ _ _ (fork1_runs (Fork :: Pipe :: tr) ltac:(lia))), E2. cbn [Z.eqb when].
    rewrite bind_ends; [done|]. repeat apply ends_sys. apply Hends.
  - intros E1 E2. exists (Close 4 :: Close 3 :: Fork :: Fork :: Pipe :: tr).
    rewrite (proj2 (Z.eqb_neq _ 0)) by done. cbn [when]. rewrite (bind_runs (mret ()) _ _ _ _ (runs_ret () _)).
    rewrite (bind_runs fork1 _ _ _ _ (fork1_runs (Fork :: Pipe :: tr) ltac:(lia))).
    rewrite (proj2 (Z.eqb_neq _ 0)) by done. cbn [when]. split; [done|].
    eapply closed_pipe; [done|by rewrite !fds_fork].
Qed.

End Descriptors.


Module PipeExample.

(** A system that gives out the lowest free descriptor; every process it forks
    goes on as the child. *)
Fixpoint lowest_from (fuel : nat) (k : Z) (t : gmap Z object) : Z :=
  match fuel with
  | O => k
  | S fuel' => if decide (is_Some (t !! k)) then lowest_from fuel' (k + 1) t else k
  end.
Definition lowest (t : gmap Z object) : Z := lowest_from (size t) 0 t.

Fixpoint table (tr : list call) : gmap Z object :=
  match tr with
  | [] => list_to_map [(0, Inherited 0); (1, Inherited 1); (2, Inherited 2)]
  | c :: tr' =>
      let t := table tr' in
      match c with
      | Close fd => delete fd t
      | Dup fd => match t !! fd with Some o => <[lowest t:=o]> t | None => t end
      | Open path mode => <[lowest t:=File path mode]> t
      | Pipe =>
          let p0 := lowest t in
          let t1 := <[p0:=PipeEnd (length tr') false]> t in
          <[lowest t1:=PipeEnd (length tr') true]> t1
      | _ => t
      end
  end.

Definition os : Os := {|
  os_int tr c := match c with
    | Dup _ | Open _ _ => lowest (table tr)
    | _ => 0 end;
  os_data tr c := match c with
    | Pipe => [lowest (table tr); lowest (<[lowest (table tr):=PipeEnd (length tr) false]> (table tr))]
    | _ => [] end;
|}.

Lemma lowest_from_spec fuel k t : 0 ≤ k → (∀ j, 0 ≤ j < k → is_Some (t !! j)) →
  let r := lowest_from fuel k t in
  k ≤ r ∧ (∀ j, 0 ≤ j < r → is_Some (t !! j)) ∧ (t !! r = None ∨ r = k + Z.of_nat fuel).
Proof.
  revert k. induction fuel as [|fuel IH]; intros k Hk Hj; simpl; [split_and!; [lia|done|right; lia]|].
  case_decide as Hs; [|split_and!; [lia|done|left; by apply eq_None_not_Some]].
  destruct (IH (k + 1)) as (H1 & H2 & H3); [lia| |].
  - intros j Hlt. destruct (decide (j = k)) as [->|]; [done|]. apply Hj. lia.
  - split_and!; [lia|done|]. destruct H3; [by left|right; lia].
Qed.

Lemma lowest_spec t : is_lowest t (lowest t).
Proof.
  unfold lowest. destruct (lowest_from_spec (size t) 0 t) as (H1 & H2 & H3); [lia|intros; lia|].
  split_and!; [done| |done]. destruct H3 as [H3|H3]; [done|]. apply eq_None_not_Some. intros Hs.
  set (X := list_to_set (seqZ 0 (Z.of_nat (S (size t)))) : gset Z).
  assert (X ⊆ dom t) as HX.
  { intros j Hj. apply elem_of_list_to_set, elem_of_seqZ in Hj. apply elem_of_dom.
    destruct (decide (j = lowest_from (size t) 0 t)) as [->|]; [done|]. apply H2. lia. }
  apply subseteq_size in HX. rewrite size_dom in HX. unfold X in HX.
  rewrite size_list_to_set, length_seqZ in HX by apply NoDup_seqZ. lia.
Qed.

Lemma lowest_pos t : (lowest t <? 0) = false.
Proof. destruct (lowest_spec t) as [? _]. by apply Z.ltb_ge. Qed.

Lemma fds_table tr : fds (H := os) (table []) tr = table tr.
Proof.
  induction tr as [|c tr IH]; [done|]. cbn [fds]. rewrite IH.
  destruct c; cbn [os_int os_data os table]; rewrite ?lowest_pos; done.
Qed.

Lemma os_ok : os_fds (H := os) (table []).
Proof.
  split; intros tr; rewrite ?fds_table; intros; cbn [os_int os_data os].
  - done.
  - eapply lowest_unique; [apply lowest_spec|done].
  - right. apply lowest_spec.
  - right. split; [done|]. eexists _, _. split; [done|]. split; apply lowest_spec.
Qed.

Lemma pipe_wiring_witness :
  ∃ tr', runcmd (H := os) (SPipe (SExec [chars "a"]) (SExec [chars "b"])) [] = runcmd (H := os) (SExec [chars "a"]) tr' ∧
    fds (H := os) (table []) tr' = <[1:=PipeEnd 0 true]> (table []).
Proof.
  apply (pipe_wiring (H := os) (table []) os_ok (SExec [chars "a"]) (SExec [chars "b"]) []); [|done..].
  intros k. split.
  - intros [o Ho]. cbn in Ho. repeat (apply lookup_insert_Some in Ho as [[<- _]|[_ Ho]]; [lia|]).
    by rewrite lookup_empty in Ho.
  - intros Hk. assert (k = 0 ∨ k = 1 ∨ k = 2) as [->|[->| ->]] by lia; by eexists.
Defined.

End PipeExample.

(** ** The history *)

Lemma str_of s tl : 0 ∉ s → str (s ++ 0 :: tl) = Some s.
Proof.
  intros Hs. unfold str. rewrite cstr_app by (done || len).
  assert (∀ n, (length s < n)%nat → cstr_ok n (s ++ 0 :: tl) = true) as Hok.
  { clear -Hs. induction s as [|c s IH]; intros [|n] L; simpl in *; try lia.
    apply not_elem_of_cons in Hs as [Hc Hs]. case_match; [done|]. apply IH; [done|lia]. }
  rewrite Hok; [done|]. len.
Qed.

Lemma str_inv m s : str m = Some s → ∃ tl, m = s ++ 0 :: tl ∧ 0 ∉ s.
Proof.
  unfold str. case_match eqn:E; [|done]. intros [= <-]. revert E.
  assert (∀ n, (length m ≤ n)%nat → cstr_ok (S n) m = true → ∃ tl, m = cstr n m ++ 0 :: tl ∧ 0 ∉ cstr n m) as Hm.
  { induction m as [|c m IH]; intros n L E; simpl in E; [done|]. destruct n as [|n]; [simpl in L; lia|]. simpl.
    destruct (Z.eqb_spec c 0) as [->|Hc]; [exists m; split; [done|set_solver]|].
    destruct (IH n) as (tl & Em & Hn); [simpl in L; lia|done|]. exists tl. simpl. rewrite <-Em. split; [done|set_solver]. }
  by apply Hm.
Qed.

Lemma strcpy_spec m o s tl : 0 ∉ s → bytes_ok s → (o + length s < length m)%nat →
  strcpy m o (s ++ 0 :: tl) = Some (splice o (s ++ [0]) m).
Proof.
  revert m o. induction s as [|c s IH]; intros m o Hs Hb L; cbn [app strcpy].
  - rewrite store_Some by (simpl in L; lia). simpl. by rewrite splice_cons.
  - apply not_elem_of_cons in Hs as [Hc Hs]. apply Forall_cons in Hb as [Hcb Hb]. simpl in L.
    rewrite store_Some, u8_byte by (done || lia). simpl. rewrite (proj2 (Z.eqb_neq c 0)) by done.
    rewrite IH by (done || len). by rewrite splice_cons.
Qed.

(** A copied string. *)
Lemma strcpy_str m t s : str t = Some s → bytes_ok s → (length s < length m)%nat →
  ∃ m', strcpy m 0 t = Some m' ∧ str m' = Some s ∧ length m' = length m.
Proof.
  intros Ht Hb L. destruct (str_inv t s Ht) as (tl & -> & H0). exists (splice 0 (s ++ [0]) m).
  split; [by apply strcpy_spec|]. split; [|apply length_splice].
  replace (splice 0 (s ++ [0]) m) with (s ++ 0 :: drop (S (length s)) m); [by apply str_of|].
  apply list_eq. intros i. rewrite lookup_splice by (rewrite length_app; simpl; lia). rewrite length_app. simpl.
  case_decide as Hi.
  - replace (s ++ 0 :: drop (S (length s)) m) with ((s ++ [0]) ++ drop (S (length s)) m) by by rewrite <-app_assoc.
    rewrite lookup_app_l by (rewrite length_app; simpl; lia). f_equal. lia.
  - rewrite lookup_app_r, lookup_cons by lia. destruct (i - length s)%nat eqn:Ei; [lia|].
    rewrite lookup_drop. f_equal. lia.
Qed.

(** The commands entered so far, the last ten of them in the history. *)
Record hist_ok (h cmds : list (list Z)) : Prop := {
  hs_len : (10 ≤ length h)%nat;
  hs_blocks : Forall (λ m, length m = 100%nat) h;
  hs_last i s : cmds !! i = Some s → (length cmds ≤ i + 10)%nat → bytes_ok s ∧ (length s < 100)%nat ∧
    ∃ m, h !! (i mod 10)%nat = Some m ∧ str m = Some s;
}.

(** What [historyOut] prints for the [k] commands up to number [n]. *)
Fixpoint listing (k : nat) (cmds : list (list Z)) (n : nat) : list Z :=
  match k with
  | O => []
  | S k' =>
      uprintint_chars (Z.of_nat n) 10 true ++ [32] ++ default [] (cmds !! (n - 1)%nat) ++ [32; 10] ++
      listing k' cmds (n - 1)
  end.

Lemma listing_app a b cmds n : listing (a + b) cmds n = listing a cmds n ++ listing b cmds (n - a).
Proof.
  revert n. induction a as [|a IH]; intros n; cbn [Nat.add listing]; [by rewrite Nat.sub_0_r|].
  rewrite IH. repeat rewrite <-app_assoc. by replace (n - 1 - a)%nat with (n - S a)%nat by lia.
Qed.

Section History.
Context `{Os}.

Lemma entry_nat (h : list (list Z)) i : entry h (Z.of_nat i) = h !! i.
Proof. unfold entry. by rewrite (proj2 (Z.ltb_ge _ 0)), Nat2Z.id by lia. Qed.

Lemma rem_nat i : Z.rem (Z.of_nat i) 10 = Z.of_nat (i mod 10).
Proof. rewrite Z.rem_mod_nonneg by lia. by rewrite Nat2Z.inj_mod. Qed.

Lemma hist_entry h cmds i : hist_ok h cmds → (i < length cmds)%nat → (length cmds ≤ i + 10)%nat →
  ∃ m s, h !! (i mod 10)%nat = Some m ∧ str m = Some s ∧ cmds !! i = Some s ∧ bytes_ok s ∧ (length s < 100)%nat.
Proof.
  intros Hok Hi Hl. destruct (lookup_lt_is_Some_2 cmds i Hi) as [s Hs].
  destruct (hs_last _ _ Hok i s Hs Hl) as (Hb & Hlt & m & Hm & Hstr). by exists m, s.
Qed.

Lemma historyUpdate_spec h cmds buf s tr :
  hist_ok h cmds → str buf = Some s → bytes_ok s → (length s < 100)%nat → Z.of_nat (length cmds) + 1 < 2 ^ 31 →
  wp (historyUpdate h buf (Z.of_nat (length cmds))) (λ r tr', tr' = tr ∧ hist_ok r.1 (cmds ++ [s]) ∧
    r.2 = Z.of_nat (length (cmds ++ [s]))) tr.
Proof.
  intros Hok Hs Hb Hl Hmax. unfold historyUpdate. rewrite rem_nat, entry_nat.
  pose proof (hs_len _ _ Hok) as Lh. pose proof (Nat.mod_upper_bound (length cmds) 10 ltac:(lia)) as Hm10.
  destruct (lookup_lt_is_Some_2 h (length cmds mod 10)) as [m Hm]; [lia|].
  assert (length m = 100%nat) as Lm by (pose proof (hs_blocks _ _ Hok) as Hbl; by eapply Forall_lookup_1 in Hbl).
  destruct (strcpy_str m buf s Hs Hb ltac:(lia)) as (m' & Em & Hs' & Lm').
  apply wp_bind. eapply wp_the; [exact Hm|]. apply wp_bind. unfold strcpy_to. eapply wp_the; [exact Em|].
  apply wp_ret. split; [done|]. cbn [fst snd]. rewrite Nat2Z.id. split; [|rewrite s32_small by lia; len].
  split; [len|apply Forall_insert; [apply Hok|lia]|]. intros i x Hx Hi. rewrite length_app in Hi. simpl in Hi.
  apply lookup_app_Some in Hx as [Hx|[Hge Hx]].
  - pose proof (lookup_lt_Some _ _ _ Hx) as Hlt. destruct (hs_last _ _ Hok i x Hx) as (? & ? & mx & Hmx & Hsx); [lia|].
    split; [done|]. split; [done|]. exists mx. split; [|done]. rewrite list_lookup_insert_ne; [done|].
    intros E. pose proof (Nat.div_mod_eq i 10). pose proof (Nat.div_mod_eq (length cmds) 10). lia.
  - apply list_lookup_singleton_Some in Hx as [Hi0 <-]. replace i with (length cmds) by lia.
    split; [done|]. split; [done|]. exists m'. rewrite list_lookup_insert_eq by lia. done.
Qed.

Lemma print_history_spec k h cmds loc n tr :
  (∀ j, (j < k)%nat → ∃ m s, entry h (loc - Z.of_nat j) = Some m ∧ str m = Some s ∧ cmds !! (n - 1 - j)%nat = Some s) →
  (k ≤ n)%nat → Z.of_nat n < 2 ^ 31 →
  wp (print_history k h loc (Z.of_nat n)) (λ r tr', r = Z.of_nat (n - k) ∧ writes 2 (u8 <$> listing k cmds n) tr tr') tr.
Proof.
  revert loc n tr. induction k as [|k IH]; intros loc n tr Hk Hn Hmax; cbn [print_history listing].
  { apply wp_ret. rewrite Nat.sub_0_r. split; [done|apply writes_nil]. }
  destruct (Hk 0%nat) as (m & s & Hm & Hs & Hc); [lia|]. rewrite Z.sub_0_r in Hm. rewrite Nat.sub_0_r in Hc.
  wp_call (printf_spec 2 "%d "); [reflexivity|]. intros [] t1 W1.
  apply wp_bind. eapply wp_the; [exact Hm|]. apply wp_bind. eapply wp_the; [exact Hs|].
  wp_call (printf_spec 2 ("%s " +:+ nl)); [reflexivity|]. intros [] t2 W2.
  replace (Z.of_nat n - 1) with (Z.of_nat (n - 1)) by lia.
  eapply wp_mono; [apply (IH (loc - 1) (n - 1)%nat); [|lia|lia]|].
  - intros j Hj. destruct (Hk (S j)) as (m' & s' & Hm' & Hs' & Hc'); [lia|]. exists m', s'.
    replace (loc - 1 - Z.of_nat j) with (loc - Z.of_nat (S j)) by lia.
    replace (n - 1 - 1 - j)%nat with (n - 1 - S j)%nat by lia. done.
  - intros r t3 [-> W3]. split; [lia|]. rewrite Hc. cbn [from_option id].
    rewrite s32_small in W1 by lia. pose proof (writes_app _ _ _ _ _ _ (writes_app _ _ _ _ _ _ W1 W2) W3) as W.
    rewrite <-!fmap_app in W. rewrite <-!app_assoc in W. exact W.
Qed.

Lemma mod_down q b j : (b < 10)%nat → (j ≤ b)%nat → ((10 * q + b - j) mod 10 = b - j)%nat.
Proof.
  intros Hb Hj. replace (10 * q + b - j)%nat with (b - j + q * 10)%nat by lia.
  rewrite Nat.Div0.mod_add. apply Nat.mod_small. lia.
Qed.

(** The entries below place [b], of the commands below number [10 * q + b]. *)
Lemma hist_down h cmds q b j : hist_ok h cmds → (b < 10)%nat → (j ≤ b)%nat →
  (10 * q + b - j < length cmds ≤ 10 * q + b - j + 10)%nat →
  ∃ m s, entry h (Z.of_nat b - Z.of_nat j) = Some m ∧ str m = Some s ∧ cmds !! (10 * q + b - j)%nat = Some s.
Proof.
  intros Hok Hb Hj [H1 H2]. destruct (hist_entry h cmds _ Hok H1 H2) as (m & s & Em & Es & Ec & _).
  rewrite mod_down in Em by done. exists m, s. replace (Z.of_nat b - Z.of_nat j) with (Z.of_nat (b - j)) by lia.
  by rewrite entry_nat.
Qed.

(** [history] prints the last ten commands, or all when there are fewer, the
    newest first and each with its number. *)
Theorem historyOut_lists h cmds tr :
  hist_ok h cmds → cmds ≠ [] → Z.of_nat (length cmds) < 2 ^ 31 →
  wp (historyOut h (Z.of_nat (length cmds)))
    (λ _ tr', writes 2 (u8 <$> listing (length cmds `min` 10) cmds (length cmds)) tr tr') tr.
Proof.
  intros Hok Hne Hmax. set (n := length cmds) in *. assert (0 < n)%nat by (destruct cmds; simpl in *; [done|lia]).
  unfold historyOut. replace (Z.of_nat n - 1) with (Z.of_nat (n - 1)) by lia. rewrite rem_nat.
  set (loc := ((n - 1) mod 10)%nat). pose proof (Nat.mod_upper_bound (n - 1) 10 ltac:(lia)) as Hloc. fold loc in Hloc.
  pose proof (Nat.div_mod_eq (n - 1) 10) as Hdm. fold loc in Hdm.
  set (q := ((n - 1) / 10)%nat) in *.
  assert (∀ j, (j < S loc)%nat → ∃ m s, entry h (Z.of_nat loc - Z.of_nat j) = Some m ∧ str m = Some s ∧
    cmds !! (n - 1 - j)%nat = Some s) as Hnew.
  { intros j Hj. rewrite Hdm. apply hist_down; [done|lia|lia|]. fold n. lia. }
  replace (Z.to_nat (Z.of_nat loc + 1)) with (S loc) by lia.
  destruct (Z.leb_spec (Z.of_nat n) 10).
  - rewrite Nat.min_l by lia. wp_call (print_history_spec (S loc) h cmds); [exact Hnew|lia|lia|].
    intros r t1 [_ W]. apply wp_ret. by replace (S loc) with n in W by lia.
  - rewrite Nat.min_r by lia. replace 10%nat with (S loc + (9 - loc))%nat by lia. rewrite listing_app, fmap_app.
    wp_call (print_history_spec (S loc) h cmds); [exact Hnew|lia|lia|].
    intros r t1 [-> W1]. replace (Z.to_nat (8 - Z.of_nat loc + 1)) with (9 - loc)%nat by lia.
    wp_call (print_history_spec (9 - loc) h cmds 9); [|lia|lia|].
    + intros j Hj. replace (n - S loc - 1 - j)%nat with (10 * (q - 1) + 9 - j)%nat by lia.
      apply (hist_down h cmds (q - 1) 9 j); [done|lia|lia|]. fold n. lia.
    + intros r t2 [_ W2]. apply wp_ret. by eapply writes_app.
Qed.

(** [!!] takes the last command entered: it prints it, and leaves it in the
    buffer. *)
Lemma lastHistory_spec h cmds buf s tr :
  hist_ok h (cmds ++ [s]) → length buf = 100%nat →
  wp (lastHistory h buf (Z.of_nat (length (cmds ++ [s]))))
    (λ buf' tr', str buf' = Some s ∧ writes 2 (u8 <$> s ++ [10]) tr tr') tr.
Proof.
  intros Hok Hb. unfold lastHistory. rewrite length_app. simpl.
  replace (Z.of_nat (length cmds + 1) - 1) with (Z.of_nat (length cmds)) by lia. rewrite rem_nat, entry_nat.
  destruct (hist_entry h (cmds ++ [s]) (length cmds) Hok) as (m & s' & Em & Es & Ec & Hby & Hl); [len..|].
  rewrite lookup_app_r, Nat.sub_diag in Ec by lia. simpl in Ec. injection Ec as <-.
  destruct (strcpy_str buf m s Es Hby ltac:(lia)) as (buf' & Ebuf & Es' & _).
  apply wp_bind. eapply wp_the; [exact Em|]. apply wp_bind. unfold strcpy_to. eapply wp_the; [exact Ebuf|].
  apply wp_bind. eapply wp_the; [exact Es'|]. wp_call (printf_spec 2 ("%s" +:+ nl)); [reflexivity|].
  intros [] t1 W. apply wp_ret. split; [done|]. exact W.
Qed.

(** Of the ten commands only those numbered up to 10 are at the place
    [chooseFromHistory] looks at; a larger number finds another entry. *)
Lemma chooseFromHistory_place h histNum i m s tr :
  (0 < i)%nat → Z.of_nat i < 2 ^ 31 → h !! (i - 1)%nat = Some m → str m = Some s →
  wp (chooseFromHistory h histNum (Z.of_nat i)) (λ m' _, m' = m) tr.
Proof.
  intros Hi Hmax Hm Hs. unfold chooseFromHistory. change (Z.rem 1 10) with 1.
  replace (Z.of_nat i - 1) with (Z.of_nat (i - 1)) by lia. rewrite entry_nat.
  wp_call (printf_spec 2 "%d: "); [reflexivity|]. intros [] t1 _.
  apply wp_bind. eapply wp_the; [exact Hm|]. apply wp_bind. eapply wp_the; [exact Hs|].
  wp_call (printf_spec 2 ("%s" +:+ nl)); [reflexivity|]. intros [] t2 _. by apply wp_ret.
Qed.

(** [!n] with n above 10.  Command number n is in the history, at place
    (n - 1) mod 10, but the one taken is the entry at place n - 1, which no
    command was ever stored in. *)
Theorem choose_misses h cmds n tr :
  hist_ok h cmds → (10 < n ≤ length cmds)%nat → (length cmds < n + 10)%nat → (n ≤ length h)%nat → Z.of_nat n < 2 ^ 31 →
  (∀ i m, (10 ≤ i)%nat → h !! i = Some m → str m = Some []) →
  (∃ m, h !! ((n - 1) mod 10)%nat = Some m ∧ str m = cmds !! (n - 1)%nat) ∧
  wp (chooseFromHistory h (Z.of_nat (length cmds)) (Z.of_nat n)) (λ m _, str m = Some []) tr.
Proof.
  intros Hok Hn Hl Hh Hmax Hempty. split.
  - destruct (hist_entry h cmds (n - 1) Hok) as (m & s & Em & Es & Ec & _); [lia..|]. exists m. by rewrite Es, Ec.
  - destruct (lookup_lt_is_Some_2 h (n - 1)) as [m Hm]; [lia|].
    assert (str m = Some []) as Hs by (apply (Hempty (n - 1)%nat); [lia|done]).
    eapply wp_mono; [by eapply chooseFromHistory_place; [lia|..]|]. by intros m' t ->.
Qed.

End History.


(** ** cd *)

Lemma strlen_of s tl : 0 ∉ s → strlen (s ++ 0 :: tl) = Some (length s).
Proof.
  induction s as [|c s IH]; [done|]. intros Hs. apply not_elem_of_cons in Hs as [Hc Hs]. simpl.
  rewrite (proj2 (Z.eqb_neq c 0)) by done. by rewrite IH.
Qed.

Section Cd.
Context `{Os}.

(** The last character goes. *)
Lemma chop_runs s c tl tr : 0 ∉ s → c ≠ 0 →
  runs_to (chop (s ++ c :: 0 :: tl)) tr (s ++ 0 :: 0 :: tl) tr.
Proof.
  intros Hs Hc. unfold chop. eapply runs_bind.
  - change (s ++ c :: 0 :: tl) with (s ++ [c] ++ 0 :: tl). rewrite app_assoc, strlen_of by set_solver. done.
  - rewrite length_app. simpl. rewrite bool_decide_eq_false_2 by lia.
    replace (length s + 1 - 1)%nat with (length s) by lia.
    rewrite store_Some by len. simpl. rewrite insert_app_r_alt, Nat.sub_diag by lia. done.
Qed.

(** [cd] chops the line twice: after the line feed the last character of the
    directory's name goes too, and the shell changes to the name without it. *)
Theorem cd_drops_last st d c tl tr :
  0 ∉ d → c ≠ 0 → os_int tr (Chdir d) = 0 →
  runs_to (command_line st (chars "cd " ++ d ++ c :: 10 :: 0 :: tl)) tr st (Chdir d :: tr).
Proof.
  intros Hd Hc Hok. unfold command_line.
  assert (0 ∉ chars "cd " ++ d) as H0 by (simpl; set_solver).
  eapply runs_bind.
  { replace (chars "cd " ++ d ++ c :: 10 :: 0 :: tl) with ((chars "cd " ++ d ++ [c]) ++ 10 :: 0 :: tl)
      by by rewrite <-!app_assoc. apply chop_runs; [|done]. rewrite app_assoc. set_solver. }
  do 3 (eapply runs_bind; [done|]). cbn [Z.eqb andb]. eapply runs_bind.
  { replace ((chars "cd " ++ d ++ [c]) ++ 0 :: 0 :: tl) with ((chars "cd " ++ d) ++ c :: 0 :: 0 :: tl)
      by by rewrite <-!app_assoc. by apply chop_runs. }
  eapply runs_bind.
  { rewrite <-app_assoc. change (drop 3 (chars "cd " ++ ?l)) with l. rewrite str_of by done. done. }
  eapply runs_bind; [done|]. rewrite Hok. done.
Qed.

End Cd.

Module ShExample.

(** Eleven commands, the letters from [a] on; the first is overwritten. *)
Definition cmds : list (list Z) := (λ i, [97 + Z.of_nat i]) <$> seq 0 11.
Definition block_of (s : list Z) : list Z := s ++ replicate (100 - length s) 0.
Definition history : list (list Z) :=
  block_of [107] :: ((λ i, block_of [97 + Z.of_nat i]) <$> seq 1 9) ++ replicate 90 (block_of []).

Lemma history_ok : hist_ok history cmds.
Proof.
  split.
  - vm_compute. lia.
  - vm_compute. repeat constructor.
  - intros i s Hs Hi. change (length cmds) with 11%nat in Hi. pose proof (lookup_lt_Some _ _ _ Hs) as Hlt.
    change (length cmds) with 11%nat in Hlt.
    do 11 (destruct i as [|i]; [try (exfalso; lia); injection Hs as <-;
      (split; [by repeat constructor|split; [simpl; lia|eexists; split; [reflexivity|reflexivity]]])|]). lia.
Qed.

Lemma historyOut_lists_witness :
  wp (historyOut (H := chunk_os []) history 11) (λ _ tr', writes 2 (u8 <$> listing 10 cmds 11) [] tr') [].
Proof.
  apply (historyOut_lists (H := chunk_os []) history cmds []); [apply history_ok|done|vm_compute; done].
Defined.

Lemma choose_misses_witness :
  (∃ m, history !! 0%nat = Some m ∧ str m = cmds !! 10%nat) ∧
  wp (chooseFromHistory (H := chunk_os []) history 11 11) (λ m _, str m = Some []) [].
Proof.
  apply (choose_misses (H := chunk_os []) history cmds 11 []).
  - apply history_ok.
  - vm_compute. lia.
  - vm_compute. lia.
  - vm_compute. lia.
  - vm_compute. done.
  - intros i m Hi Hm. do 10 (destruct i as [|i]; [lia|]).
    change (replicate 90 (block_of []) !! i = Some m) in Hm. by apply lookup_replicate in Hm as [-> _].
Defined.

Lemma cd_drops_last_witness :
  runs_to (command_line (H := chunk_os []) {| sh_history := history; sh_num := 11 |}
    (chars "cd " ++ chars "us" ++ 114 :: 10 :: 0 :: replicate 90 0)) []
    {| sh_history := history; sh_num := 11 |} [Chdir (chars "us")].
Proof.
  apply (cd_drops_last (H := chunk_os [])); [|done|done]. vm_compute. set_solver.
Defined.

End ShExample.
