(* ===== verification/Tests.v ===== *)
(** * Tests: the test programs (big.c, forktest.c, stressfs.c, sanity.c, SMLsanity.c)

    What a variable holds before it is assigned is an argument of the
    program. *)

From S2P Require Import Prelude Bytes CString Kernel Print User.

#[local] Arguments replicate : simpl never.
#[local] Arguments put32 : simpl never.
#[local] Arguments get32 : simpl never.

Section Programs.
Context `{Os}.

(** [for(; i < i0 + n; i++)] over the variables [x]; the body says whether the
    loop goes on ([break] otherwise). *)
Fixpoint for_ {A} (n : nat) (i : Z) (x : A) (body : Z → A → U (A * bool)) : U (Z * A) :=
  match n with
  | O => mret (i, x)
  | S n' => r ← body i x; if (r.2 : bool) then for_ n' (i + 1) r.1 body else mret (i, r.1)
  end.

(** ** big.c *)

Fixpoint big_write (fuel : nat) (fd : Z) (buf : list Z) (sectors : Z) : U (list Z * Z) :=
  match fuel with
  | O => fault
  | S fuel' =>
      let buf := put32 0 sectors buf in
      cc ← sys (Write fd buf);
      if cc <=? 0 then mret (buf, sectors) else
      let sectors := s32 (sectors + 1) in
      when (Z.rem sectors 100 =? 0) (printf 2 "." []);;
      big_write fuel' fd buf sectors
  end.

Fixpoint big_read (n : nat) (i fd : Z) (buf : list Z) : U () :=
  match n with
  | O => mret ()
  | S n' =>
      r ← read fd 512;
      if r.1 <=? 0 then printf 2 ("big: read error at sector %d" +:+ nl) [AInt i];; exit else
      let buf := r.2 ++ drop (length r.2) buf in
      let v := s32 (get32 0 buf) in
      if negb (v =? i) then
        printf 2 ("big: read the wrong data (%d) for sector %d" +:+ nl) [AInt v; AInt i];; exit
      else big_read n' (i + 1) fd buf
  end.

Definition big_main (fuel : nat) (buf : list Z) : U () :=
  fd ← sys (Open (chars "big.file") 0x201);
  if fd <? 0 then printf 2 ("big: cannot open big.file for writing" +:+ nl) [];; exit else
  r ← big_write fuel fd buf 0;
  let '(buf, sectors) := r in
  printf 1 (nl +:+ "wrote %d sectors" +:+ nl) [AInt sectors];;
  sys (Close fd);;
  fd ← sys (Open (chars "big.file") 0);
  if fd <? 0 then printf 2 ("big: cannot re-open big.file for reading" +:+ nl) [];; exit else
  big_read (Z.to_nat sectors) 0 fd buf;;
  exit.

(** ** forktest.c *)

(** The [printf] of forktest.c. *)
Definition forktest_printf (fd : Z) (s : string) : U () := write fd (chars s).

Definition fork_child : U (() * bool) :=
  pid ← sys Fork;
  if pid <? 0 then mret ((), false) else if pid =? 0 then exit else mret ((), true).
Definition wait_child : U (() * bool) :=
  w ← sys Wait;
  if w <? 0 then forktest_printf 1 ("wait stopped early" +:+ nl);; exit else mret ((), true).

Definition forktest : U () :=
  forktest_printf 1 ("fork test" +:+ nl);;
  r ← for_ 1000 0 () (λ _ _, fork_child);
  let n := r.1 in
  when (n =? 1000) (forktest_printf 1 ("fork claimed to work N times!" +:+ nl);; exit);;
  for_ (Z.to_nat n) 0 () (λ _ _, wait_child);;
  w ← sys Wait;
  when (negb (w =? -1)) (forktest_printf 1 ("wait got too many" +:+ nl);; exit);;
  forktest_printf 1 ("fork test OK" +:+ nl).

Definition forktest_main : U () := forktest;; exit.

(** ** stressfs.c *)

Definition stressfs_main : U () :=
  printf 1 ("stressfs starting" +:+ nl) [];;
  let data := replicate 512 97 in
  r ← for_ 4 0 () (λ _ _, pid ← sys Fork; mret ((), negb (0 <? pid)));
  let i := r.1 in
  printf 1 ("write %d" +:+ nl) [AInt i];;
  let path := chars "stressfs" ++ [48 + i] in
  fd ← sys (Open path 0x202);
  for_ 20 0 () (λ _ _, sys (Write fd data);; mret ((), true));;
  sys (Close fd);;
  printf 1 ("read" +:+ nl) [];;
  fd ← sys (Open path 0);
  for_ 20 0 () (λ _ _, read fd 512;; mret ((), true));;
  sys (Close fd);;
  sys Wait;;
  exit.

(** ** sanity.c *)

(** [retime], [rutime] and [stime], or three sums. *)
Definition times : Type := Z * Z * Z.
Definition add_times (a b : times) : times :=
  let '(a1, a2, a3) := a in let '(b1, b2, b3) := b in (s32 (a1 + b1), s32 (a2 + b2), s32 (a3 + b3)).
Definition total (a : times) : Z := let '(a1, a2, a3) := a in s32 (s32 (a1 + a2) + a3).

(** [/= n]: a division by zero is an exception. *)
Definition div_int (a n : Z) : U Z := if n =? 0 then fault else mret (s32 (Z.quot a n)).
Definition div_times (a : times) (n : Z) : U times :=
  let '(a1, a2, a3) := a in b1 ← div_int a1 n; b2 ← div_int a2 n; b3 ← div_int a3 n; mret (b1, b2, b3).

(** The call stores the three times if it finds a child. *)
Definition uwait2 (old : times) : U (Z * times) :=
  data ← gets (λ tr, os_data tr Wait2);
  pid ← sys Wait2;
  mret (pid, match data with [a; b; c] => (a, b, c) | _ => old end).

Definition ints (a : times) : list arg := let '(a1, a2, a3) := a in [AInt a1; AInt a2; AInt a3].

Definition sanity_child (i n : Z) : U (() * bool) :=
  temp ← sys Getpid;
  printf 1 "%d " [AInt temp];;
  when (i =? n) (printf 1 nl []);;
  exit.

Definition averages : string :=
  "Average ready time: %d" +:+ nl +:+ "Average running time: %d" +:+ nl +:+
  "Average sleeping time: %d" +:+ nl +:+ "Average turnaround time: %d" +:+ nl +:+ nl +:+ nl.

Definition sanity_trial (n trial : Z) (x : times * times) : U ((times * times) * bool) :=
  let '(sums, t) := x in
  printf 1 ("-----------------Trial %d-----------------" +:+ nl +:+ nl) [AInt trial];;
  printf 1 "Processes started in pid order: " [];;
  for_ (Z.to_nat n) 1 () (λ i _, pid ← sys Fork; if pid =? 0 then sanity_child i n else mret ((), true));;
  r ← for_ (Z.to_nat n) 1 (sums, t) (λ _ y, let '(sums, t) := y in
    w ← uwait2 t;
    let '(pid, t) := w in
    printf 1 ("PID %d has ended, ready: %d, running: %d, sleeping: %d, turnaround: %d " +:+ nl)
      ([AInt pid] ++ ints t ++ [AInt (total t)]);;
    mret ((add_times sums t, t), true));
  sums ← div_times r.2.1 n;
  printf 1 (nl +:+ nl +:+ "CPU bound:" +:+ nl +:+ averages) (ints sums ++ [AInt (total sums)]);;
  mret ((sums, (0, 0, 0)), true).

Definition sanity_main (argv : list (list Z)) (sums t : times) : U () :=
  match argv with
  | [_; a] =>
      n ← the (atoi (a ++ [0]));
      for_ 50 1 (sums, t) (sanity_trial n);;
      exit
  | _ => printf 1 ("Usage: sanity <n>" +:+ nl) [];; exit
  end.

(** ** SMLsanity.c, as it is compiled: without [SML] *)

Definition sml_line (k : Z) : string :=
  "Priority " +:+ String (Ascii.ascii_of_nat (Z.to_nat (48 + k))) EmptyString +:+
  ", pid: %d, ready: %d, running: %d, sleeping: %d, turnaround: %d" +:+ nl.
Definition sml_averages (k : Z) : string :=
  "Priority " +:+ String (Ascii.ascii_of_nat (Z.to_nat (48 + k))) EmptyString +:+ ":" +:+ nl +:+ averages.

Definition SMLsanity_main (argv : list (list Z)) (t : times) : U () :=
  match argv with
  | [_; a] =>
      n ← the (atoi (a ++ [0]));
      let zero := (0, 0, 0) in
      for_ (Z.to_nat (s32 (3 * n))) 0 () (λ _ _, pid ← sys Fork;
        if pid =? 0 then sys Getpid;; exit else mret ((), true));;
      r ← for_ (Z.to_nat (s32 (3 * n))) 0 ([zero; zero; zero], t) (λ _ y, let '(sums, t) := y in
        w ← uwait2 t;
        let '(pid, t) := w in
        let res := Z.rem (s32 (pid - 4)) 3 in
        if (0 <=? res) then
          printf 1 (sml_line (res + 1)) ([AInt pid] ++ ints t ++ [AInt (total t)]);;
          mret ((alter (λ s, add_times s t) (Z.to_nat res) sums, t), true)
        else mret ((sums, t), true));
      let sums := r.2.1 in
      s1 ← div_times (sums !!! 0%nat) n;
      s2 ← div_times (sums !!! 1%nat) n;
      s3 ← div_times (sums !!! 2%nat) n;
      printf 1 (nl +:+ nl +:+ sml_averages 1) (ints s1 ++ [AInt (total s1)]);;
      printf 1 (sml_averages 2) (ints s2 ++ [AInt (total s2)]);;
      printf 1 (sml_averages 3) (ints s3 ++ [AInt (total s3)]);;
      exit
  | _ => printf 1 ("Usage: SMLsanity <n>" +:+ nl) [];; exit
  end.

End Programs.

(** ** Files as the calls see them *)

(** The blocks written to [fd], oldest first. *)
Fixpoint written (fd : Z) (tr : list call) : list (list Z) :=
  match tr with
  | [] => []
  | Write fd' l :: tr' => written fd tr' ++ (if fd' =? fd then [l] else [])
  | _ :: tr' => written fd tr'
  end.

Lemma written_writes fd fd' out tr tr' : writes fd' out tr tr' → fd' ≠ fd → written fd tr' = written fd tr.
Proof.
  intros (l & -> & _) Hne. induction l as [|x l IH] using rev_ind; [done|].
  rewrite fmap_app, reverse_app. cbn. rewrite IH. destruct (Z.eqb_spec fd' fd); [done|]. apply app_nil_r.
Qed.

Lemma output_writes fd fd' out tr tr' : writes fd' out tr tr' → fd' ≠ fd → output fd tr' = output fd tr.
Proof.
  intros (l & -> & _) Hne. induction l as [|x l IH] using rev_ind; [done|].
  rewrite fmap_app, reverse_app. cbn. rewrite IH. destruct (Z.eqb_spec fd' fd); [done|]. apply app_nil_r.
Qed.

(** ** big.c *)

(** The disk has room for [n] blocks of the file, which reads back what was
    written. *)
Record big_file `{Os} (fd : Z) (n : nat) : Prop := {
  bf_fd : 2 < fd;
  bf_open tr mode : os_int tr (Open (chars "big.file") mode) = fd;
  bf_write tr d : length d = 512%nat →
    os_int tr (Write fd d) = if bool_decide (length (written fd tr) < n)%nat then 512 else -1;
  bf_read tr d : written fd tr !! reads tr = Some d → length d = 512%nat →
    os_int tr (Read fd 512) = 512 ∧ os_data tr (Read fd 512) = d;
}.

(** Every block begins with its number. *)
Definition numbered (W : list (list Z)) : Prop :=
  ∀ i d, W !! i = Some d → length d = 512%nat ∧ get32 0 d = u32 (Z.of_nat i).

Lemma numbered_snoc W d : numbered W → length d = 512%nat →
  numbered (W ++ [put32 0 (Z.of_nat (length W)) d]).
Proof.
  intros HW Hd i e He. apply lookup_app_Some in He as [He|[Hi He]]; [by apply HW|].
  apply list_lookup_singleton_Some in He as [Hi' <-]. replace i with (length W) by lia.
  split; [by unfold put32; rewrite length_put_le|]. apply get_put32_eq. lia.
Qed.

Section Big.
Context `{Os} (fd : Z) (n : nat) (F : big_file fd n) (Hn : Z.of_nat n < 2 ^ 31).
#[local] Set Default Proof Using "All".

(** The dots of the sectors up to [k]. *)
Definition dots (k : nat) : list Z := replicate (k / 100) 46.

Lemma dots_S k : dots (S k) = dots k ++ (if decide (S k mod 100 = 0)%nat then [46] else []).
Proof.
  unfold dots. pose proof (Nat.div_mod_eq (S k) 100). pose proof (Nat.mod_upper_bound (S k) 100 ltac:(done)).
  pose proof (Nat.div_mod_eq k 100). pose proof (Nat.mod_upper_bound k 100 ltac:(done)). case_decide.
  - replace (S k / 100)%nat with (S (k / 100)) by lia. by rewrite replicate_S_end.
  - replace (S k / 100)%nat with (k / 100)%nat by lia. by rewrite app_nil_r.
Qed.

Lemma dot_spec k tr : (k < n)%nat →
  wp (when (Z.rem (s32 (Z.of_nat k + 1)) 100 =? 0) (printf 2 "." []))
    (λ _ tr', written fd tr' = written fd tr ∧ reads tr' = reads tr ∧ output 1 tr' = output 1 tr ∧
      (output 2 tr = dots k → output 2 tr' = dots (S k))) tr.
Proof.
  intros Hk. rewrite s32_small, dots_S by lia.
  replace (Z.rem (Z.of_nat k + 1) 100) with (Z.of_nat (S k mod 100))
    by (rewrite Z.rem_mod_nonneg, Nat2Z.inj_mod by lia; f_equal; lia).
  case_decide as E.
  - rewrite E. cbn [when Z.eqb Z.of_nat]. eapply wp_mono; [by apply printf_spec|]. intros [] tr' W. pose proof (bf_fd _ _ F).
    split_and!.
    + apply (written_writes _ _ _ _ _ W). lia.
    + by eapply writes_reads.
    + by apply (output_writes _ _ _ _ _ W).
    + intros Ho. by rewrite (writes_output _ _ _ _ W), Ho.
  - destruct (Z.eqb_spec (Z.of_nat (S k mod 100)) 0); [lia|]. cbn [when]. apply wp_ret. by rewrite app_nil_r.
Qed.

(** The loop writes until the disk is full. *)
Lemma big_write_spec fuel k buf tr :
  (n - k < fuel)%nat → (k ≤ n)%nat → length buf = 512%nat → length (written fd tr) = k → numbered (written fd tr) →
  output 2 tr = dots k →
  wp (big_write fuel fd buf (Z.of_nat k)) (λ r tr', r.2 = Z.of_nat n ∧ length r.1 = 512%nat ∧
    length (written fd tr') = S n ∧ numbered (written fd tr') ∧ reads tr' = reads tr ∧
    output 1 tr' = output 1 tr ∧ output 2 tr' = dots n) tr.
Proof.
  revert k buf tr. induction fuel as [|fuel IH]; intros k buf tr Hf Hk Hb HW Hnum Ho; [lia|]. cbn [big_write].
  set (d := put32 0 (Z.of_nat k) buf). assert (length d = 512%nat) as Hd by (by unfold d, put32; rewrite length_put_le).
  assert (written fd (Write fd d :: tr) = written fd tr ++ [d]) as Ew by (cbn; by rewrite Z.eqb_refl).
  pose proof (numbered_snoc _ _ Hnum Hb) as Hnum'. rewrite HW in Hnum'. change (put32 _ _ _) with d in Hnum'.
  assert (output 1 (Write fd d :: tr) = output 1 tr ∧ output 2 (Write fd d :: tr) = output 2 tr) as [E1 E2].
  { pose proof (bf_fd _ _ F). cbn. destruct (Z.eqb_spec fd 1), (Z.eqb_spec fd 2); try lia. by rewrite !app_nil_r. }
  apply wp_bind. change (wp (sys ?c) ?Q tr) with (Q (os_int tr c) (c :: tr)). cbn beta. rewrite (bf_write _ _ F) by done.
  rewrite HW. case_bool_decide as Hlt; cbn [Z.leb Z.compare].
  - apply wp_bind. eapply wp_mono; [by apply dot_spec|]. intros [] t (Hw & Hr & H1 & H2).
    replace (s32 (Z.of_nat k + 1)) with (Z.of_nat (S k)) by (rewrite s32_small; lia).
    eapply wp_mono; [apply (IH (S k) d t)|].
    + lia.
    + lia.
    + done.
    + rewrite Hw, Ew, length_app, HW. cbn. lia.
    + by rewrite Hw, Ew.
    + apply H2. by rewrite E2.
    + intros r tr' (? & ? & ? & ? & Hr' & Ho1 & ?). split_and!; try done; [by rewrite Hr', Hr|by rewrite Ho1, H1].
  - replace k with n in * by lia. apply wp_ret. rewrite Ew, length_app, HW, E1, E2. cbn. split_and!; done || lia.
Qed.

(** The loop reads the blocks back. *)
Lemma big_read_spec m i buf tr :
  reads tr = i → (i + m ≤ n)%nat → length (written fd tr) = S n → numbered (written fd tr) →
  wp (big_read m (Z.of_nat i) fd buf) (λ _ tr', output 1 tr' = output 1 tr ∧ output 2 tr' = output 2 tr) tr.
Proof.
  revert i buf tr. induction m as [|m IH]; intros i buf tr Hr Hm HW Hnum; [done|]. cbn [big_read].
  destruct (lookup_lt_is_Some_2 (written fd tr) i) as [d Hd]; [lia|]. destruct (Hnum i d Hd) as [Hl Hv].
  destruct (bf_read _ _ F tr d) as [Ei Ed]; [by rewrite Hr|done|]. apply wp_bind.
  change (wp (read fd 512) ?Q tr) with (Q (os_int tr (Read fd 512), os_data tr (Read fd 512)) (Read fd 512 :: tr)).
  cbn beta. rewrite Ei, Ed. cbn [fst snd Z.leb Z.compare].
  replace (get32 0 (d ++ drop (length d) buf)) with (get32 0 d).
  2:{ unfold get32, get_le, slice. rewrite !drop_0, take_app_le; [done|lia]. }
  rewrite Hv. replace (s32 (u32 (Z.of_nat i))) with (Z.of_nat i) by (rewrite u32_small, s32_small; lia).
  rewrite Z.eqb_refl. cbn [negb]. replace (Z.of_nat i + 1) with (Z.of_nat (S i)) by lia.
  apply (IH (S i) _ (Read fd 512 :: tr)); [by rewrite <-Hr|lia|done|done].
Qed.

Definition wrote : list Z :=
  [10] ++ chars "wrote " ++ uprintint_chars (Z.of_nat n) 10 true ++ chars " sectors" ++ [10].

Lemma wrote_rendered : rendered false (chars (nl +:+ "wrote %d sectors" +:+ nl)) [AInt (Z.of_nat n)] = Some wrote.
Proof. unfold wrote. rewrite <-(s32_small (Z.of_nat n)) at 2 by lia. reflexivity. Qed.

(** On a file system that stores the file, big.c counts the blocks that fit,
    prints a dot for every hundred, and finds no error. *)
Theorem big_passes buf fuel : length buf = 512%nat → (n < fuel)%nat →
  ∃ tr, big_main fuel buf [] = Sleep tr ∧
    output 1 tr = (u8 <$> wrote) ∧ output 2 tr = dots n.
Proof.
  intros Hb Hf. pose proof (bf_fd _ _ F) as Hfd. unfold big_main.
  rewrite (bind_runs _ _ _ fd [Open (chars "big.file") 0x201]) by (unfold runs_to, sys; by rewrite (bf_open _ _ F)).
  rewrite (proj2 (Z.ltb_ge fd 0)) by lia.
  set (t0 := [_]). destruct (proj1 (wp_runs _ _ _) (big_write_spec fuel 0 buf t0 ltac:(lia) ltac:(lia) Hb eq_refl
    ltac:(by intros i d [=]) eq_refl)) as ([buf' k] & t1 & R1 & Ek & Hb' & HW & Hnum & Hr & O1 & O2). cbn [fst snd] in *.
  subst k. change (Z.of_nat 0) with 0 in R1. rewrite (bind_runs _ _ _ _ _ R1). cbv beta iota.
  destruct (proj1 (wp_runs _ _ _) (printf_spec 1 _ _ _ t1 wrote_rendered)) as ([] & t2 & R2 & W).
  rewrite (bind_runs _ _ _ _ _ R2). cbv beta.
  rewrite (bind_runs (sys (Close fd)) _ t2 _ (Close fd :: t2)) by done.
  set (t3 := Open (chars "big.file") 0 :: Close fd :: t2).
  rewrite (bind_runs _ _ (Close fd :: t2) fd t3) by (unfold runs_to, sys; by rewrite (bf_open _ _ F)).
  rewrite (proj2 (Z.ltb_ge fd 0)), Nat2Z.id by lia.
  assert (written fd t3 = written fd t1) as Ew by (apply (written_writes _ _ _ _ _ W); lia).
  assert (reads t3 = 0%nat) as Hr3 by (change (reads t3) with (reads t2); by rewrite (writes_reads _ _ _ _ W)).
  pose proof (big_read_spec n 0 buf' t3 Hr3 ltac:(lia)) as R4. rewrite Ew in R4.
  apply wp_runs in R4 as ([] & t4 & R4 & E1 & E2); [|done..].
  change (Z.of_nat 0) with 0 in R4. rewrite (bind_runs _ _ _ _ _ R4). exists (Exit :: t4). split; [done|].
  change (output 1 t4 = (u8 <$> wrote) ∧ output 2 t4 = dots n). rewrite E1, E2. split.
  - change (output 1 t3) with (output 1 t2). by rewrite (writes_output _ _ _ _ W), O1.
  - change (output 2 t3) with (output 2 t2). by rewrite (output_writes _ _ _ _ _ W).
Qed.

End Big.

(** ** Loops *)

Lemma wp_for `{Os} {A} (I : Z → A → list call → Prop) n i x body Q tr :
  I i x tr →
  (∀ j y t, i ≤ j < i + Z.of_nat n → I j y t →
    wp (body j y) (λ r t', if (r.2 : bool) then I (j + 1) r.1 t' else Q (j, r.1) t') t) →
  (∀ y t, I (i + Z.of_nat n) y t → Q (i + Z.of_nat n, y) t) →
  wp (for_ n i x body) Q tr.
Proof.
  revert i x tr. induction n as [|n IH]; intros i x tr HI Hb HQ; cbn [for_].
  - apply wp_ret. rewrite <-(Z.add_0_r i). apply HQ. by rewrite Z.add_0_r.
  - apply wp_bind. eapply wp_mono; [apply Hb; [lia|done]|]. intros [y []] t Hy; cbn [fst snd] in *; [|done].
    apply IH; [done|intros j z t' Hj; apply Hb; lia|].
    replace (i + 1 + Z.of_nat n) with (i + Z.of_nat (S n)) by lia. done.
Qed.

(** ** forktest.c *)

Definition calls (c : call) (tr : list call) : nat := length (filter (eq c) tr).

Lemma wp_sys `{Os} c (Q : Z → list call → Prop) tr : Q (os_int tr c) (c :: tr) → wp (sys c) Q tr.
Proof. exact id. Qed.

Lemma calls_cons c d tr : calls c (d :: tr) = ((if decide (c = d) then 1 else 0) + calls c tr)%nat.
Proof. unfold calls. rewrite filter_cons. by case_decide. Qed.

(** There is room for [k] children. *)
Record few_procs `{Os} (k : nat) : Prop := {
  fp_fork tr : if bool_decide (calls Fork tr < k)%nat then 0 < os_int tr Fork else os_int tr Fork < 0;
  fp_wait tr : if bool_decide (calls Wait tr < k)%nat then 0 ≤ os_int tr Wait else os_int tr Wait = -1;
}.

Section Forktest.
Context `{Os} (k : nat) (P : few_procs k) (Hk : (k < 1000)%nat).
#[local] Set Default Proof Using "All".

Lemma forks_spec tr : calls Fork tr = 0%nat →
  wp (for_ 1000 0 () (λ _ _, fork_child))
    (λ r t, r.1 = Z.of_nat k ∧ calls Wait t = calls Wait tr ∧ output 1 t = output 1 tr) tr.
Proof.
  intros H0. eapply (wp_for (λ j _ t, calls Fork t = Z.to_nat j ∧ (Z.to_nat j ≤ k)%nat ∧
    calls Wait t = calls Wait tr ∧ output 1 t = output 1 tr)).
  - split_and!; try done. cbn. lia.
  - intros j [] t Hj (Hf & Hle & Hw & Ho). apply wp_bind, wp_sys. pose proof (fp_fork _ P t) as Hfork.
    case_bool_decide as Hlt.
    + rewrite (proj2 (Z.ltb_ge _ 0)), (proj2 (Z.eqb_neq _ 0)) by lia. apply wp_ret. cbn [fst snd].
      rewrite !calls_cons, !decide_True, !decide_False by done. split_and!; try done; lia.
    + rewrite (proj2 (Z.ltb_lt _ 0)) by lia. apply wp_ret. cbn [fst snd].
      rewrite calls_cons, decide_False by done. split_and!; try done. lia.
  - intros [] t (_ & Hle & _). lia.
Qed.

Lemma waits_spec tr : calls Wait tr = 0%nat →
  wp (for_ k 0 () (λ _ _, wait_child)) (λ _ t, calls Wait t = k ∧ output 1 t = output 1 tr) tr.
Proof.
  intros H0. eapply (wp_for (λ j _ t, calls Wait t = Z.to_nat j ∧ output 1 t = output 1 tr)).
  - done.
  - intros j [] t Hj (Hw & Ho). apply wp_bind, wp_sys. pose proof (fp_wait _ P t) as Hwait.
    rewrite bool_decide_eq_true_2 in Hwait by lia. rewrite (proj2 (Z.ltb_ge _ 0)) by lia. apply wp_ret. cbn [fst snd].
    rewrite calls_cons, decide_True by done. split; [lia|done].
  - intros [] t [Hw Ho]. split; [lia|done].
Qed.

(** forktest.c passes if fork fails after less than 1000 children and wait
    finds each of them. *)
Theorem forktest_passes : ∃ tr, forktest_main [] = Sleep tr ∧
  output 1 tr = chars ("fork test" +:+ nl) ++ chars ("fork test OK" +:+ nl).
Proof.
  cut (wp forktest (λ _ tr, output 1 tr = chars ("fork test" +:+ nl) ++ chars ("fork test OK" +:+ nl)) []).
  { intros ([] & tr & R & Ho)%wp_runs. exists (Exit :: tr). unfold forktest_main. by rewrite (bind_runs _ _ _ _ _ R). }
  unfold forktest. apply wp_bind, wp_write, wp_bind. eapply wp_mono; [by apply forks_spec|].
  intros [n []] t (-> & Hw & Ho). cbn [fst]. rewrite (proj2 (Z.eqb_neq _ 1000)) by lia. cbn [when].
  apply wp_bind, wp_ret, wp_bind. rewrite Nat2Z.id. eapply wp_mono; [by apply waits_spec|].
  intros _ t' [Hw' Ho']. apply wp_bind, wp_sys. pose proof (fp_wait _ P t') as Hwait.
  rewrite bool_decide_eq_false_2 in Hwait by lia. rewrite Hwait. cbn [Z.eqb negb when]. apply wp_bind, wp_ret, wp_write.
  cbn [output]. by rewrite Ho', Ho.
Qed.

End Forktest.

(** ** sanity.c *)

(** Every fork succeeds in the parent, and the children that [wait2] finds ran
    for [ts 0], [ts 1] and so on. *)
Record children `{Os} (ts : nat → times) : Prop := {
  ch_fork tr : 0 < os_int tr Fork;
  ch_wait tr : os_data tr Wait2 = let '(a, b, c) := ts (calls Wait2 tr) in [a; b; c];
}.

Lemma calls_writes c fd out tr tr' : writes fd out tr tr' → (∀ l, c ≠ Write fd l) → calls c tr' = calls c tr.
Proof.
  intros (l & -> & _) Hc. induction l as [|x l IH] using rev_ind; [done|].
  rewrite fmap_app, reverse_app. change (calls c (Write fd x :: (reverse (Write fd <$> l) ++ tr)) = calls c tr).
  by rewrite calls_cons, decide_False, IH.
Qed.

Section Sanity.
Context `{Os} (ts : nat → times) (Ch : children ts).
#[local] Set Default Proof Using "All".

Lemma wp_print fmt args out (Q : () → list call → Prop) tr :
  rendered false (chars fmt) args = Some out → (∀ t, calls Wait2 t = calls Wait2 tr → Q () t) → wp (printf 1 fmt args) Q tr.
Proof.
  intros Hr HQ. eapply wp_mono; [by apply printf_spec|]. intros [] t W. apply HQ. by eapply calls_writes.
Qed.

(** What a trial of [n] children adds up: the sums it starts with are not
    zero, but the averages of the trial before. *)
Definition trial_sums (sums : times) (w n : nat) : times := foldl (λ s i, add_times s (ts i)) sums (seq w n).

Lemma sanity_trial_averages n trial sums t tr : (0 < n)%nat →
  wp (sanity_trial (Z.of_nat n) trial (sums, t)) (λ r tr',
    let '(a, b, c) := trial_sums sums (calls Wait2 tr) n in
    r = ((s32 (Z.quot a (Z.of_nat n)), s32 (Z.quot b (Z.of_nat n)), s32 (Z.quot c (Z.of_nat n))), (0, 0, 0), true) ∧
    calls Wait2 tr' = (calls Wait2 tr + n)%nat) tr.
Proof.
  intros Hn. unfold sanity_trial. apply wp_bind. eapply wp_print; [reflexivity|]. intros t1 W1.
  apply wp_bind. eapply wp_print; [reflexivity|]. intros t2 W2. rewrite Nat2Z.id. apply wp_bind.
  apply (wp_for (λ _ _ t', calls Wait2 t' = calls Wait2 tr)); [congruence| |].
  { intros j [] t3 Hj Hw. apply wp_bind, wp_sys. pose proof (ch_fork _ Ch t3).
    rewrite (proj2 (Z.eqb_neq _ 0)) by lia. apply wp_ret. cbn [snd]. by rewrite calls_cons, decide_False. }
  intros [] t3 W3. apply wp_bind.
  apply (wp_for (λ j y t', calls Wait2 t' = (calls Wait2 tr + Z.to_nat (j - 1))%nat ∧
    y.1 = trial_sums sums (calls Wait2 tr) (Z.to_nat (j - 1)))).
  - split; [cbn; lia|done].
  - intros j [s0 t4] t5 Hj [Hw Hs]. cbn [fst] in Hs. unfold uwait2. apply wp_bind, wp_bind, wp_gets, wp_bind, wp_sys, wp_ret.
    rewrite (ch_wait _ Ch). destruct (ts (calls Wait2 t5)) as [[a b] c] eqn:Et.
    apply wp_bind. eapply wp_print; [reflexivity|]. intros t6 W6. apply wp_ret. cbn [fst snd].
    rewrite W6, calls_cons, decide_True by done. replace (Z.to_nat (j + 1 - 1)) with (S (Z.to_nat (j - 1))) by lia.
    split; [lia|]. unfold trial_sums in *. rewrite seq_S, foldl_app, <-Hs, <-Hw. cbn [foldl]. by rewrite Et.
  - intros [s0 t4] t5 [Hw Hs]. cbn [fst snd] in *. replace (Z.to_nat (1 + Z.of_nat n - 1)) with n in * by lia. rewrite <-Hs.
    destruct s0 as [[a b] c]. unfold div_times, div_int. rewrite (proj2 (Z.eqb_neq _ 0)) by lia.
    apply wp_bind, wp_bind, wp_ret, wp_bind, wp_ret, wp_bind, wp_ret, wp_ret, wp_bind.
    eapply wp_print; [reflexivity|]. intros t6 W6. apply wp_ret. by rewrite W6, Hw.
Qed.

End Sanity.

(** ** A small system *)

Module TestsExample.

(** Two blocks of disk and room for two children, which all run for 7 ticks. *)
#[export] Instance small : Os := {|
  os_int tr c := match c with
    | Open _ _ => 3
    | Write fd d => if (fd =? 3) && bool_decide (2 ≤ length (written 3 tr))%nat then -1 else Z.of_nat (length d)
    | Read _ _ => Z.of_nat (length (default [] (written 3 tr !! reads tr)))
    | Fork => if bool_decide (calls Fork tr < 2)%nat then 5 else -1
    | Wait => if bool_decide (calls Wait tr < 2)%nat then 5 else -1
    | Wait2 => 5
    | _ => 0 end;
  os_data tr c := match c with
    | Read _ _ => default [] (written 3 tr !! reads tr)
    | Wait2 => [7; 0; 0]
    | _ => [] end;
|}.

Lemma forktest_small : ∃ tr, forktest_main [] = Sleep tr ∧
  output 1 tr = chars ("fork test" +:+ nl) ++ chars ("fork test OK" +:+ nl).
Proof. apply (forktest_passes 2); [|lia]. split; intros tr; cbn; by case_bool_decide. Qed.

Lemma big_small : ∃ tr, big_main 3 (replicate 512 0) [] = Sleep tr ∧
  output 1 tr = chars (nl +:+ "wrote 2 sectors" +:+ nl) ∧ output 2 tr = [].
Proof.
  destruct (big_passes 3 2) with (buf := replicate 512 0) (fuel := 3%nat) as (tr & R & O1 & O2); [|lia|done|lia|].
  - split; [lia|done| |].
    + intros tr d Hd. cbn. rewrite Hd. by repeat case_bool_decide; try lia.
    + intros tr d Hd Hl. cbn. rewrite Hd. cbn. by rewrite Hl.
  - by exists tr.
Qed.

(** The second trial of sanity.c says that a child was ready for 14 ticks. *)
Lemma sanity_second_trial : ∃ t1 tr1 t2 tr2,
  sanity_trial 1 1 ((0, 0, 0), t1) [] = Ok (((7, 0, 0), (0, 0, 0)), true) tr1 ∧
  sanity_trial 1 2 ((7, 0, 0), t2) tr1 = Ok (((14, 0, 0), (0, 0, 0)), true) tr2.
Proof. eexists (0, 0, 0), _, (0, 0, 0), _. split; vm_compute; reflexivity. Qed.

End TestsExample.
